(* ===== verification/_CoqProject ===== *)
-Q . S2P
Prelude.v
Crc32.v
Mtd.v
Storage.v
Direct.v
Circular.v
StorageInit.v
Strtox.v
Of.v
StateVars.v
FormatRaw.v
State.v
Bootchooser.v
Resource.v
CrcItuT.v
Kfifo.v
Ratp.v
RatpLink.v
RatpOpen.v
Block.v
Fdt.v
FormatDtb.v
Ramfs.v
Partitions.v
DosPart.v
Gpt.v
HashBlocks.v
Fips180.v
Sha2.v
Sha1.v
Sha4.v
Md5.v
Hmac.v
Digest.v
Password.v
StateHmac.v
