(* ===== verification/Prelude.v ===== *)
(** * Verification of barebox

    barebox is a bootloader.  This library models the part of it that has to
    survive power failures and worn-out flash: the "state" framework, which
    keeps a small set of typed variables redundantly on raw flash or on any
    other device, together with the code it stands on; the boot chooser that
    is built on it; the block device cache, partition tables and the files in
    memory; flattened device trees; the digests, keyed digests and passwords; the
    tree of address regions; and the RATP protocol that carries the console over
    an unreliable serial line.

    ** The program and how its parts interact

    - [state.c] builds a state from a device tree node, saves it and loads it.
    - [state_variables.c] holds the variable types (uint8, uint32, enum32, mac,
      string): creation, import from and export to device tree nodes.
    - [backend_format_raw.c] serialises the variables behind a header with a
      magic, two CRC-32 checksums and an optional HMAC; [backend_format_dtb.c]
      serialises them as a flattened device tree, with drivers/of/fdt.c.
    - [backend_storage.c] writes a serialised state to several buckets, reads
      the first valid copy back and repairs the buckets that differ from it.
    - [backend_bucket_circular.c] is a bucket on one erase block of an MTD
      device, where copies are appended until the block is full;
      [backend_bucket_direct.c] is a bucket at a fixed offset of a file.
    - drivers/mtd/peb.c and drivers/mtd/core.c give access to physical erase
      blocks; lib/libfile.c transfers whole buffers; drivers/of/base.c reads
      and writes device tree properties; crypto/crc32.c computes checksums.
    - common/bootchooser.c picks the boot target by priority and remaining
      attempts, which it keeps as numbers in strings (variables of a state, or
      of the environment); lib/kstrtox.c, lib/strtox.c and lib/vsprintf.c read
      and print these numbers.
    - common/block.c is the write-back cache between a block device driver and
      everything that reads or writes the device; fs/ramfs.c keeps files in
      memory, behind the file descriptors of fs/fs.c.
    - common/partitions.c finds, creates and removes partitions through the parsers
      of common/partitions/dos.c and common/partitions/efi.c, which read and write
      their tables through the block cache.
    - crypto/sha1.c, crypto/sha2.c, crypto/sha4.c and crypto/md5.c are the digests in
      the list of crypto/digest.c; crypto/hmac.c makes keyed digests of them, which
      authenticate a state, and crypto/pbkdf2.c derives keys, with which
      security/password.c and commands/passwd.c protect the console.
    - common/resource.c keeps the tree of requested address regions.
    - lib/ratp.c is the Reliable Asynchronous Transfer Protocol: opening and
      closing, one packet in flight per direction, retransmission.  It checks
      packets with crypto/crc-itu-t.c.  Its console (common/ratp/ratp.c) and
      others queue bytes in lib/kfifo.c.

    ** Files of the library

    - [Prelude]: machine integers, bytes, error codes, storage as byte lists,
      tactics and the generic lemmas.
    - [Crc32] (crypto/crc32.c): the table-driven checksum with its lazily built
      table as explicit state, the two table-free variants, and the checksum of a
      file.
    - [Mtd] (drivers/mtd/core.c, drivers/mtd/peb.c): the access path to a chip
      and the operations on erase blocks.  The chip driver is a record of
      operations [mtd_info] over an arbitrary device type; the class [FlashOk]
      states what a chip promises: erasing gives 0xff, programming an erased
      range gives the data, reading returns the cells.
    - [Storage] (common/state/backend_storage.c): [BucketOps] and [FormatOps]
      are the function pointers of state.h, [BucketOk] and [FormatOk] what the
      storage relies on; reading, writing and refreshing are proved against
      these interfaces only.
    - [Direct], [Circular]: the two buckets, each with an instance of
      [BucketOk].  Files are an interface as well ([FileOps], [FileOk]: lseek,
      read and write may transfer fewer bytes than asked for).
    - [StorageInit]: the set-up of the buckets of a storage.
    - [Of] (drivers/of/base.c, include/of.h): nodes and properties.
    - [StateVars] (common/state/state_variables.c): the variable types and the
      sorted variable list.
    - [FormatRaw] (common/state/backend_format_raw.c): the raw format, an
      instance of [FormatOk] when no HMAC is configured.  The digest is an
      interface ([DigestOps], [HmacOk]: a deterministic function of the bytes
      fed to it since the last initialisation); [StateHmac] has the digest of the
      tree behind it.
    - [State] (common/state/state.c): the state itself, and concrete chips,
      files and states on which the general theorems are applied.
    - [Strtox] (lib/kstrtox.c, lib/strtox.c, [number] of lib/vsprintf.c):
      numbers from strings and back.
    - [Bootchooser] (common/bootchooser.c): the targets as records, the store of
      their variables as an interface, the choice and the boot loop.
    - [Resource] (common/resource.c): regions as a tree whose lists of children
      are the kernel lists; [__request_region], resizing, releasing, merging
      and the walk over regions and gaps.
    - [CrcItuT] (crypto/crc-itu-t.c): the 16-bit checksum and its lazy table.
    - [Kfifo] (lib/kfifo.c): the byte queue with free-running 32-bit indices.
    - [Ratp] (lib/ratp.c): every function of the protocol in a state monad over
      [ratp_internal] and a world of received bytes, sent packets and
      completed messages.  The clock and the transmitter are parameters.
    - [RatpLink]: two ends of an established link as a step relation: the user
      sends, an end is polled, or packets in transit are lost.
    - [RatpOpen]: opening a connection, and runs of the state machine.
    - [Block] (common/block.c, include/range.h): the lists of cached and idle
      chunks, the operations of the device file and the block interface.  The
      driver is a record of operations; the class [BlkdevOk] states what it
      promises, failures at any moment included.
    - [Fdt] (drivers/of/fdt.c): parsing a blob of bytes, writing a tree into
      growing buffers, the reservations and the compatible check.  A function
      that leaves a buffer has the result [None].
    - [FormatDtb] (common/state/backend_format_dtb.c): the device tree format
      of the state, an instance of [FormatOk].
    - [Ramfs] (fs/ramfs.c, fs/fs.c): a file as a list of chunks with its
      descriptors; the allocator is a parameter.
    - [Partitions] (common/partitions.c, common/filetype.c): the kind of a table, free
      space, creating and removing partitions.  A parser is the class
      [PartitionParser]; [ParserOk] has the laws the shared code relies on.
    - [DosPart] (common/partitions/dos.c): the table in the first block and the chain
      of logical partitions, an instance of both classes.
    - [Gpt] (common/partitions/efi.c): both copies of a table with their checks,
      another instance, and the reading and writing of tables of either kind.  The
      random numbers and the result of calloc are parameters.
    - [HashBlocks]: hashing in blocks, the update function that crypto/sha1.c and
      crypto/sha2.c have with the same text, the record [hash_algo] of the operations of
      a digest and the class [HashOk], which says that they compute a function.
    - [Fips180]: the hash functions as FIPS 180-4 gives them, with their constants
      computed from roots of primes.
    - [Sha2], [Sha1], [Sha4], [Md5] (the files of crypto/ of these names): the digests,
      each with an instance of [HashOk] for the function of the standard; [Md5] also
      has the algorithm of RFC 1321, with its table computed from the sine.
    - [Hmac] (crypto/hmac.c, crypto/pbkdf2.c): keyed digests and key derivation over
      any [HashOk], with RFC 2104 and RFC 8018.  The memory of the key is explicit.
    - [Digest] (crypto/digest.c, crypto/memneq.c): the list of algorithms, verifying,
      and the digest of a part of a file.
    - [Password] (security/password.c, commands/passwd.c): a console as a list of
      events, the password file, the passwd command and the login.
    - [StateHmac]: HMAC-SHA256 as an instance of the interface of [FormatRaw].

    ** What the theorems show

    - End to end: what is saved is what the next boot loads ([State]).
    - Power failure: with at least two buckets that hold the old copy, a save
      interrupted at any moment leaves the old or the new copy readable, unless the
      format accepts what a half-written first bucket delivers; loading restores
      full redundancy when the writes succeed, also for a read-only state
      ([Storage]).
    - Each bucket gives back what was written, across a reboot, and leaves the
      rest of the device alone ([Direct], [Circular], [StorageInit]).
    - The format accepts what it packed, rejects corrupted buffers, and with
      an HMAC accepts authenticated data only ([FormatRaw], [Crc32]).
    - Variables stay well-formed, a device tree node gives a sorted layout,
      without overlaps when no end of a variable wraps around, and export and
      import are inverse, but for strings that were loaded and not looked at
      since ([StateVars], [State]).
    - The block layer reads back files over bad blocks, and its scans and
      torture test do what they say ([Mtd]).
    - Parsing accepts exactly the numerals in range, and what is printed is
      read back ([Strtox]).
    - The boot chooser boots the target of the highest priority that has
      attempts left, unless priorities were reset; every failed boot uses an
      attempt up so that the loop ends, unless attempts are locked; and the
      stored numbers survive a reboot ([Bootchooser]).
    - Requested regions never overlap, unless a region with children is merged
      into another, a range wraps around or the whole address space is resized; a
      request succeeds exactly when the
      range is free; release, resize and merge change exactly the requested
      range ([Resource]).
    - A byte queue is a bounded queue, across the wrap of its indices
      ([Kfifo]).
    - The block cache is invisible: reads and writes through it are those of an
      array of bytes, which is on the device after a flush, whatever errors the
      driver reports; only writes into a range that was discarded may be lost
      ([Block]).
    - Parsing any bytes as a device tree is memory safe and ends; a tree that is
      written reads back as it was, with its reservations ([Fdt]); so do the
      values of a state in this format ([FormatDtb]).
    - A file in memory is a sequence of bytes, however it is split into chunks
      and whenever memory runs out, for requests that start inside of it and do not
      make it shorter ([Ramfs]).
    - Partitions never overlap; tables of both kinds are read as they were written, a
      GUID table after any changes but the removal of a partition made in the same
      session, a DOS table with new primary partitions, and nothing else on the disk is
      touched; reading a
      GUID table from a disk with any contents is memory safe ([Partitions],
      [DosPart], [Gpt]).
    - The digests compute the functions of the standards however a message is cut into
      pieces, and so do HMAC and PBKDF2 ([Hmac]); the raw format of the state with
      HMAC-SHA256 stores the MAC of the standards for secrets of up to 64 bytes and
      fails for longer ones ([StateHmac]).
    - A password that is set opens the login, and nothing that the check does not
      accept does ([Password]); of several digests of a name the one with the highest
      priority is used ([Digest]).
    - On a link with one sender, messages arrive once, whole and in order
      whatever packets are lost and however the ends are scheduled, when no packet
      has to carry a single byte; a corrupted packet is refused; opening with a
      timeout returns when finitely many bytes arrive ([RatpLink], [RatpOpen]).

    Where the code deviates from its intent the deviation is a closed example:
    [Mtd.mtd_peb_erase_check_ignored], [Direct.direct_write_overruns_stride],
    [Circular.circular_stale_read], [StateVars.string_lost_on_reexport],
    [State.Demo.overlap_check_wraps], the examples of [Resource.Demo] and
    [RatpOpen.Demo], or a theorem: [FormatRaw.raw_refreshed_copy_rejected],
    [Bootchooser.bootchooser_locked_loops], [RatpLink.ratp_recv_overruns],
    [RatpLink.ratp_single_octet], [RatpLink.ratp_two_way_loss],
    [RatpOpen.ratp_noise_delays],
    [Block.Demo.block_discard_loses_writes], [Block.block_read_wraps],
    [Fdt.fdt_flatten_overflows], [Fdt.fdt_compatible_overreads],
    [Fdt.fdt_add_reserve_map_drops],
    [FormatDtb.Demo.dtb_load_uses_last_bucket], [Ramfs.read_behind_end],
    [Ramfs.truncate_exposes], [DosPart.dos_rewrite_drops_first],
    [Gpt.efi_remove_new], [Gpt.efi_write_too_large], [Sha2.sha256_update_diverges],
    [Sha1.sha1_update_diverges], [Sha4.sha512_update_diverges],
    [Hmac.digest_hmac_long_key], [Hmac.digest_hmac_long_key_again],
    [StateHmac.state_hmac_long_secret], [Digest.Demo.short_reads] and
    [Password.passwd_long_disables].

    ** Conventions

    The host is a 64-bit little-endian machine.  An n-bit integer is a [Z] and
    every conversion that can lose bits is written out ([u8], [u16], [u32],
    [u64], [s32], [s64]).  A buffer is a list of bytes; memory from malloc has
    arbitrary contents, given by a function [junk] of the length.  A function
    that returns an error code and changes an object returns a pair; an
    [ERR_PTR] result is a [res].  Messages to the console are left out.  Memory
    allocation does not fail, except where the code handles it ([Ramfs], [Gpt],
    [Password]) or the size alone decides ([Fdt]).  MD5 is modelled for both byte
    orders.  The functions of the digests always return zero, so their models have no
    error code; arrays on the stack are arguments with any contents.

    Loops that are not structural take fuel: [read_full] and [write_full] need
    one step per byte, since a transfer that makes progress moves at least
    one; the loops over erase blocks need the number of blocks plus two.  The
    walk over regions and gaps visits at most two items per region
    ([iter_fuel]); the search for the start of a packet takes a byte of the
    line per round, and a silent line ends it; the loop of [ratp_establish]
    needs [K] rounds per nanosecond of its timeout, when the clock shows the same time
    at most [K] times in a row.  The
    parser of a blob needs a round per byte, since every tag is passed once; the
    loops over the chunks of a file need a round per chunk and two more, and its
    allocation a round per 8 KiB and one per halving of the size.  An update of a
    digest needs a round per block, which holds for up to 2^32 - 128 bytes at a time;
    with more the counter of the code wraps around.  The login takes an event of the
    console per round.  Each
    theorem about such a loop states that this much fuel suffices.

    ** What is not modelled

    Drivers, architecture code and console output are hardware.  Of the state
    framework, [state_new_from_node] (which looks up the backend device) and the
    fixup of a kernel's device tree are not modelled; nor are parameters and
    global variables, the shell, file systems on disks, networking, image formats,
    security policies and public keys.  Of the partition code, the device files of
    partitions and the list of disks that wait for a refresh are left out;
    [gpt_roundtrip] is about disks with blocks of up to 16 KiB, the size of the array
    of entries.  The theorems on digests are about messages of less than 2^61 bytes,
    which is what the 64-bit count of bits can hold; of crypto/digest.c, the printed list
    and the parsing of a digest are left out.  Of RATP, the commands and the console device on top of the link
    are left out, and so are the pollers that [is_timeout] runs while a call
    waits; [ratp_delivers] is about a link with one sender, because with two the
    code loses messages ([ratp_two_way_loss]), and about messages whose last packet has
    more than one byte ([ratp_single_octet]).  The bytes that arrive on a line are a
    finite list.  Of common/resource.c, the text
    of types and attributes and the list entries of [resource_ext] are left
    out.  Of fs/fs.c, path lookup, opening and mounting are left out; of
    fs/ramfs.c, directories and links; of drivers/of/fdt.c, trees whose
    properties alias the blob ([of_unflatten_dtb_const]).  [ramfs_refines] is about
    requests inside of a file that do not make it shorter, because the others show
    old bytes or leave a buffer ([truncate_exposes], [read_behind_end]). *)

From stdpp Require Import base list gmap strings fin_maps.
From Stdlib Require Import ZArith Lia.
From Stdlib Require Strings.Byte.

Abbreviation byte := Corelib.Init.Byte.byte.

Create HintDb barebox.

Declare Scope barebox_scope.
Delimit Scope barebox_scope with barebox.

Open Scope Z_scope.

(** ** Machine integers

    An n-bit unsigned value is a [Z]; the conversions of C are the explicit
    reductions below.  [s32] is the two's complement reading of an [int]. *)

Definition u8 (z : Z) : Z := z mod 2 ^ 8.

Definition u16 (z : Z) : Z := z mod 2 ^ 16.

Definition u32 (z : Z) : Z := z mod 2 ^ 32.

Definition u64 (z : Z) : Z := z mod 2 ^ 64.

Definition s32 (z : Z) : Z := (z + 2 ^ 31) mod 2 ^ 32 - 2 ^ 31.

Definition s64 (z : Z) : Z := (z + 2 ^ 63) mod 2 ^ 64 - 2 ^ 63.

(** ** Bytes *)

#[export] Instance byte_eq_dec : EqDecision byte := Strings.Byte.byte_eq_dec.

Definition byte_val (b : byte) : Z := Z.of_N (Strings.Byte.to_N b).

Definition byte_of (z : Z) : byte :=
  default Init.Byte.x00 (Strings.Byte.of_N (Z.to_N (z mod 256))).

(** Multi-byte values, least significant byte first ([le]) and most
    significant byte first ([be]). *)

Fixpoint le_val (l : list byte) : Z :=
  match l with
  | [] => 0
  | b :: l' => byte_val b + 256 * le_val l'
  end.

Fixpoint le_bytes (n : nat) (z : Z) : list byte :=
  match n with
  | O => []
  | S n' => byte_of z :: le_bytes n' (z / 256)
  end.

Definition be_val (l : list byte) : Z := le_val (rev l).

Definition be_bytes (n : nat) (z : Z) : list byte := rev (le_bytes n z).

(** ** Error codes (include/asm-generic/errno-base.h, errno.h) *)

Definition EPERM : Z := 1.
Definition EBADF : Z := 9.
Definition ENOENT : Z := 2.
Definition EINTR : Z := 4.
Definition EIO : Z := 5.
Definition ENXIO : Z := 6.
Definition E2BIG : Z := 7.
Definition EAGAIN : Z := 11.
Definition ENOMEM : Z := 12.
Definition EBUSY : Z := 16.
Definition EEXIST : Z := 17.
Definition ENODEV : Z := 19.
Definition EINVAL : Z := 22.
Definition ENOSPC : Z := 28.
Definition ESPIPE : Z := 29.
Definition EROFS : Z := 30.
Definition ERANGE : Z := 34.
Definition ENOSYS : Z := 38.
Definition ENODATA : Z := 61.
Definition EBADMSG : Z := 74.
Definition EOVERFLOW : Z := 75.
Definition EILSEQ : Z := 84.
Definition EOPNOTSUPP : Z := 95.
Definition ENETDOWN : Z := 100.
Definition ECONNRESET : Z := 104.
Definition ETIMEDOUT : Z := 110.
Definition ECONNREFUSED : Z := 111.
Definition EUCLEAN : Z := 117.
Definition ENOMEDIUM : Z := 123.

(** A pointer return value that may be an [ERR_PTR]. *)
Inductive res (A : Type) : Type :=
| Ok (a : A)
| Err (e : Z).
Arguments Ok {A} a.
Arguments Err {A} e.

(** [ret = call; if (ret) return ret;] on a call that threads a state. *)
Notation "'chk' s := c 'in' k" :=
  (let '(ret__, s) := c in if ret__ =? 0 then k else (ret__, s))
  (at level 10, s name, c at level 200, k at level 200)
  : barebox_scope.

(** ** Storage as a byte list *)

(** Overwrite [data] at offset [off]; the list never grows. *)
Definition write_at (l : list byte) (off : nat) (data : list byte) : list byte :=
  take (length l) (take off l ++ data ++ drop (off + length data) l).

(** [len] bytes from offset [off]. *)
Definition read_at (l : list byte) (off len : nat) : list byte :=
  take len (drop off l).

Definition all_ff (l : list byte) : bool :=
  forallb (fun b => bool_decide (b = Init.Byte.xff)) l.

(** ** Tactics *)

(** Split every [if] on a boolean comparison, keeping the facts as
    propositions. *)
Ltac split_ifs :=
  repeat match goal with
  | |- context [if ?b then _ else _] => destruct b eqn:?
  | H : context [if ?b then _ else _] |- _ => destruct b eqn:?
  end.

Ltac bool_prop :=
  repeat match goal with
  | H : (_ =? _)%Z = true |- _ => apply Z.eqb_eq in H
  | H : (_ =? _)%Z = false |- _ => apply Z.eqb_neq in H
  | H : (_ <? _)%Z = true |- _ => apply Z.ltb_lt in H
  | H : (_ <? _)%Z = false |- _ => apply Z.ltb_ge in H
  | H : (_ <=? _)%Z = true |- _ => apply Z.leb_le in H
  | H : (_ <=? _)%Z = false |- _ => apply Z.leb_gt in H
  | H : negb _ = true |- _ => apply negb_true_iff in H
  | H : negb _ = false |- _ => apply negb_false_iff in H
  | H : (_ && _)%bool = true |- _ => apply andb_true_iff in H as [? ?]
  | H : (_ || _)%bool = false |- _ => apply orb_false_iff in H as [? ?]
  | H : bool_decide _ = true |- _ => apply bool_decide_eq_true in H
  | H : bool_decide _ = false |- _ => apply bool_decide_eq_false in H
  end.

(** Equality of exclusive-or combinations, bit by bit. *)
Ltac xor_solve :=
  apply Z.bits_inj'; intros; rewrite ?Z.lxor_spec;
  repeat match goal with
  | |- context [Z.testbit ?a ?n] => destruct (Z.testbit a n)
  end; reflexivity.

(** ** Byte lemmas *)

Lemma byte_val_range b : 0 <= byte_val b < 256.
Proof.
  unfold byte_val. pose proof (Strings.Byte.to_N_bounded b). lia.
Qed.

Lemma byte_of_val b : byte_of (byte_val b) = b.
Proof.
  unfold byte_of. rewrite Z.mod_small by apply byte_val_range.
  unfold byte_val. by rewrite N2Z.id, Strings.Byte.of_to_N.
Qed.

Lemma byte_val_of z : byte_val (byte_of z) = z mod 256.
Proof.
  pose proof (Z.mod_pos_bound z 256 eq_refl) as Hb.
  unfold byte_of, byte_val.
  destruct (Strings.Byte.of_N (Z.to_N (z mod 256))) as [b|] eqn:E; cbn.
  - apply Strings.Byte.to_of_N in E. rewrite E. lia.
  - apply Strings.Byte.of_N_None_iff in E. lia.
Qed.

Lemma byte_val_inj a b : byte_val a = byte_val b -> a = b.
Proof. intros H. by rewrite <- (byte_of_val a), H, byte_of_val. Qed.

Lemma le_val_nonneg l : 0 <= le_val l.
Proof.
  induction l as [|b l IH]; cbn [le_val]; [lia|].
  pose proof (byte_val_range b). lia.
Qed.

Lemma le_val_bound l : le_val l < 2 ^ (8 * Z.of_nat (length l)).
Proof.
  induction l as [|b l IH]; cbn [le_val length]; [lia|].
  pose proof (byte_val_range b).
  replace (8 * Z.of_nat (S (length l))) with (8 + 8 * Z.of_nat (length l)) by lia.
  rewrite Z.pow_add_r by lia. change (2 ^ 8) with 256. lia.
Qed.

Lemma length_le_bytes n z : length (le_bytes n z) = n.
Proof. revert z. induction n as [|n IH]; intros z; cbn; [done|by rewrite IH]. Qed.

Lemma le_val_bytes n z : le_val (le_bytes n z) = z mod 2 ^ (8 * Z.of_nat n).
Proof.
  revert z. induction n as [|n IH]; intros z; cbn [le_bytes le_val].
  { by rewrite Z.mod_1_r. }
  rewrite IH, byte_val_of.
  replace (8 * Z.of_nat (S n)) with (8 + 8 * Z.of_nat n) by lia.
  rewrite Z.pow_add_r by lia. change (2 ^ 8) with 256.
  rewrite Z.rem_mul_r by lia. lia.
Qed.

Lemma le_val_inj l1 l2 :
  length l1 = length l2 -> le_val l1 = le_val l2 -> l1 = l2.
Proof.
  revert l2. induction l1 as [|a l1 IH]; intros [|b l2]; cbn; try done.
  intros Hl Hv. pose proof (byte_val_range a). pose proof (byte_val_range b).
  f_equal; [apply byte_val_inj; lia|apply IH; lia].
Qed.

Lemma le_bytes_val l : le_bytes (length l) (le_val l) = l.
Proof.
  apply le_val_inj; [by rewrite length_le_bytes|].
  rewrite le_val_bytes, Z.mod_small; [done|].
  split; [apply le_val_nonneg|apply le_val_bound].
Qed.

Lemma length_be_bytes n z : length (be_bytes n z) = n.
Proof. unfold be_bytes. by rewrite length_rev, length_le_bytes. Qed.

Lemma be_val_bytes n z : be_val (be_bytes n z) = z mod 2 ^ (8 * Z.of_nat n).
Proof. unfold be_val, be_bytes. by rewrite rev_involutive, le_val_bytes. Qed.

(** ** Integer lemmas *)

Lemma u32_small z : 0 <= z < 2 ^ 32 -> u32 z = z.
Proof. apply Z.mod_small. Qed.

Lemma u64_small z : 0 <= z < 2 ^ 64 -> u64 z = z.
Proof. apply Z.mod_small. Qed.

Lemma u16_small z : 0 <= z < 2 ^ 16 -> u16 z = z.
Proof. apply Z.mod_small. Qed.

Lemma u32_range z : 0 <= u32 z < 2 ^ 32.
Proof. by apply Z.mod_pos_bound. Qed.

Lemma u64_range z : 0 <= u64 z < 2 ^ 64.
Proof. by apply Z.mod_pos_bound. Qed.

Lemma s64_small z : - 2 ^ 63 <= z < 2 ^ 63 -> s64 z = z.
Proof. intros H. unfold s64. rewrite Z.mod_small; lia. Qed.

Lemma s32_small z : - 2 ^ 31 <= z < 2 ^ 31 -> s32 z = z.
Proof. intros H. unfold s32. rewrite Z.mod_small; lia. Qed.

#[export] Hint Resolve u32_range u64_range byte_val_range le_val_nonneg : barebox.

(** ** Storage lemmas *)

Lemma length_write_at l off data : length (write_at l off data) = length l.
Proof.
  unfold write_at. rewrite length_take, !length_app, length_take, length_drop. lia.
Qed.

Lemma write_at_inside l off data :
  (off + length data <= length l)%nat ->
  write_at l off data = take off l ++ data ++ drop (off + length data) l.
Proof.
  intros H. unfold write_at. apply take_ge.
  rewrite !length_app, length_take, length_drop. lia.
Qed.

Lemma write_at_middle (A x B data : list byte) :
  length x = length data -> write_at (A ++ x ++ B) (length A) data = A ++ data ++ B.
Proof.
  intros H. rewrite write_at_inside by (rewrite !length_app; lia).
  rewrite take_app_length, <- drop_drop, drop_app_length, <- H, drop_app_length. done.
Qed.

Lemma read_at_middle (A x B : list byte) : read_at (A ++ x ++ B) (length A) (length x) = x.
Proof. unfold read_at. by rewrite drop_app_length, take_app_length. Qed.

Lemma read_write_at_same l off data :
  (off + length data <= length l)%nat ->
  read_at (write_at l off data) off (length data) = data.
Proof.
  intros H. rewrite write_at_inside by done. unfold read_at.
  rewrite drop_app_length' by (rewrite length_take; lia).
  by rewrite take_app_length.
Qed.

(** Reading a range that ends before, or starts after, the written one. *)
Lemma read_write_at_before l off data o n :
  (off + length data <= length l)%nat -> (o + n <= off)%nat ->
  read_at (write_at l off data) o n = read_at l o n.
Proof.
  intros H Hb. rewrite write_at_inside by done. unfold read_at.
  rewrite !take_drop_commute, take_app_le by (rewrite length_take; lia).
  rewrite take_take. f_equal. f_equal. lia.
Qed.

Lemma read_write_at_after l off data o n :
  (off + length data <= length l)%nat -> (off + length data <= o)%nat ->
  read_at (write_at l off data) o n = read_at l o n.
Proof.
  intros H Ha. rewrite write_at_inside by done. unfold read_at.
  rewrite app_assoc, drop_app_ge by (rewrite length_app, length_take; lia).
  rewrite drop_drop. f_equal. f_equal. rewrite length_app, length_take. lia.
Qed.

Lemma length_read_at l off n :
  (off + n <= length l)%nat -> length (read_at l off n) = n.
Proof. intros H. unfold read_at. rewrite length_take, length_drop. lia. Qed.

Lemma read_at_full l : read_at l 0 (length l) = l.
Proof. unfold read_at. by rewrite drop_0, take_ge. Qed.

Lemma read_at_app_l l1 l2 off n :
  (off + n <= length l1)%nat -> read_at (l1 ++ l2) off n = read_at l1 off n.
Proof.
  intros H. unfold read_at. rewrite drop_app_le by lia.
  rewrite take_app_le by (rewrite length_drop; lia). done.
Qed.

Lemma read_at_app_r l1 l2 n :
  read_at (l1 ++ l2) (length l1) n = take n l2.
Proof. unfold read_at. by rewrite drop_app_length. Qed.

Lemma all_ff_spec l : all_ff l = true <-> Forall (eq Init.Byte.xff) l.
Proof.
  unfold all_ff. rewrite forallb_forall, Forall_forall.
  split; intros H x Hx.
  - symmetry. eapply bool_decide_eq_true, H. by apply list_elem_of_In.
  - apply bool_decide_eq_true. symmetry. apply H. by apply list_elem_of_In.
Qed.

(** ** Bounds of bit operations *)

Lemma lxor_bound n a b :
  0 <= n -> 0 <= a < 2 ^ n -> 0 <= b < 2 ^ n -> 0 <= Z.lxor a b < 2 ^ n.
Proof.
  intros Hn Ha Hb.
  assert (E : Z.lxor a b = Z.lxor a b mod 2 ^ n).
  { rewrite <- Z.land_ones by lia. apply Z.bits_inj'. intros i Hi.
    rewrite Z.land_spec, Z.lxor_spec.
    destruct (decide (i < n)).
    - rewrite Z.ones_spec_low by lia. by rewrite andb_true_r.
    - rewrite Z.ones_spec_high by lia. rewrite andb_false_r.
      rewrite <- (Z.mod_small a (2 ^ n)), <- (Z.mod_small b (2 ^ n)) by lia.
      by rewrite !Z.mod_pow2_bits_high by lia. }
  rewrite E. apply Z.mod_pos_bound. lia.
Qed.

(** [x & ~(2^r - 1)] on [w] bits rounds down. *)
Lemma land_lnot_mask w x r :
  0 <= r -> 0 <= w -> 0 <= x < 2 ^ w ->
  Z.land x (Z.lnot (2 ^ r - 1) mod 2 ^ w) = x / 2 ^ r * 2 ^ r.
Proof.
  intros Hr Hw Hx. rewrite <- Z.shiftr_div_pow2, <- Z.shiftl_mul_pow2, <- Z.ldiff_ones_r by lia.
  rewrite Z.ones_equiv. rewrite <- Z.land_ones by lia.
  rewrite (Z.land_comm (Z.lnot _)), Z.land_assoc, (Z.land_ones x w), Z.mod_small by lia.
  by rewrite Z.sub_1_r, Z.ldiff_land.
Qed.

Lemma lxor_cancel_l a b c : Z.lxor a b = Z.lxor a c -> b = c.
Proof.
  intros H. rewrite <- (Z.lxor_0_l b), <- (Z.lxor_0_l c), <- (Z.lxor_nilpotent a).
  by rewrite !Z.lxor_assoc, H.
Qed.

(** ** Folds *)

(** Two step functions that agree on states satisfying an invariant. *)
Lemma fold_left_inv_ext {A B} (P : A -> Prop) (f g : A -> B -> A) l a :
  P a -> (forall a b, P a -> f a b = g a b) -> (forall a b, P a -> P (g a b)) ->
  fold_left f l a = fold_left g l a.
Proof.
  intros Ha Hfg Hg. revert a Ha. induction l as [|b l IH]; intros a Ha; cbn; [done|].
  rewrite Hfg by done. by apply IH, Hg.
Qed.

Lemma fold_left_inv {A B} (P : A -> Prop) (f : A -> B -> A) l a :
  P a -> (forall a b, P a -> P (f a b)) -> P (fold_left f l a).
Proof.
  intros Ha Hf. revert a Ha. induction l as [|b l IH]; intros a Ha; cbn; [done|].
  by apply IH, Hf.
Qed.

(** ** Lookups in storage *)

Lemma lookup_write_at l off data i :
  (off + length data <= length l)%nat ->
  write_at l off data !! i =
  if decide (off <= i < off + length data)%nat then data !! (i - off)%nat else l !! i.
Proof.
  intros H. rewrite write_at_inside by done. case_decide as Hi.
  - rewrite lookup_app_r by (rewrite length_take; lia).
    rewrite length_take, lookup_app_l by lia. f_equal. lia.
  - destruct (decide (i < off)%nat).
    + rewrite lookup_app_l by (rewrite length_take; lia). by apply lookup_take_lt.
    + rewrite lookup_app_r by (rewrite length_take; lia).
      rewrite length_take, lookup_app_r by lia. rewrite lookup_drop. f_equal. lia.
Qed.

Lemma lookup_read_at l off n i :
  read_at l off n !! i = if decide (i < n)%nat then l !! (off + i)%nat else None.
Proof.
  unfold read_at. case_decide.
  - rewrite lookup_take_lt by done. apply lookup_drop.
  - by apply lookup_take_ge, not_lt.
Qed.

(** A write inside a window, seen through the window. *)
Lemma read_at_write_at_window l a n off data :
  (off + length data <= n)%nat -> (a + n <= length l)%nat ->
  read_at (write_at l (a + off) data) a n = write_at (read_at l a n) off data.
Proof.
  intros H1 H2. apply list_eq. intros i.
  rewrite lookup_write_at by (rewrite length_read_at; lia).
  rewrite !lookup_read_at, lookup_write_at by lia.
  repeat case_decide; try lia; try done.
  f_equal. lia.
Qed.

Lemma read_at_read_at l a n off k :
  (off + k <= n)%nat -> read_at (read_at l a n) off k = read_at l (a + off) k.
Proof.
  intros H. apply list_eq. intros i. rewrite !lookup_read_at.
  repeat case_decide; try lia; try done. f_equal. lia.
Qed.

Lemma write_at_full l data : length data = length l -> write_at l 0 data = data.
Proof.
  intros H. rewrite write_at_inside by lia. cbn [take]. rewrite drop_ge by lia.
  apply app_nil_r.
Qed.

Lemma all_ff_replicate n : all_ff (replicate n Init.Byte.xff) = true.
Proof. induction n as [|n IH]; [done|apply IH]. Qed.

Lemma all_ff_app a b : all_ff (a ++ b) = all_ff a && all_ff b.
Proof. apply forallb_app. Qed.

Lemma all_ff_read_at l off n : all_ff l = true -> all_ff (read_at l off n) = true.
Proof.
  rewrite !all_ff_spec. intros H. by apply Forall_take, Forall_drop.
Qed.

(** ** Pairwise relations on a list *)

Fixpoint pairwise {A} (R : A -> A -> Prop) (l : list A) : Prop :=
  match l with
  | [] => True
  | x :: l => Forall (R x) l /\ pairwise R l
  end.

Lemma pairwise_lookup {A} (R : A -> A -> Prop) l i j x y :
  (forall a b, R a b -> R b a) -> pairwise R l ->
  l !! i = Some x -> l !! j = Some y -> i <> j -> R x y.
Proof.
  intros Hsym. revert i j. induction l as [|z l IH]; intros i j Hp Hi Hj Hne; [done|].
  destruct Hp as [Hz Hp]. rewrite Forall_lookup in Hz.
  destruct i as [|i], j as [|j]; cbn in *; simplify_eq; eauto.
Qed.

(** ** Sorted insertion (include/linux/list.h) *)

(** [list_add_sort] with a comparison on the entries. *)
Fixpoint list_add_sort {A} (compare : A -> A -> Z) (new : A) (l : list A) : list A :=
  match l with
  | [] => [new]
  | pos :: l' =>
      if compare pos new <? 0 then pos :: list_add_sort compare new l' else new :: l
  end.

Lemma list_add_sort_perm {A} (cmp : A -> A -> Z) x l : list_add_sort cmp x l ≡ₚ x :: l.
Proof.
  induction l as [|y l IH]; cbn; [done|]. destruct (_ <? 0); [|done].
  rewrite IH. apply Permutation_swap.
Qed.
