(* ===== verification/Crc32.v ===== *)
(** * CRC-32 (crypto/crc32.c)

    The table-driven routine [crc32] with its lazily built table, the bitwise
    routine [__pi_crc32], the big-endian variant [crc32_be] and the file
    checksum loop [file_crc].  The theorems show that the lazy table is
    transparent, that the table-driven routine equals the bitwise one, that a
    buffer may be checksummed in pieces, that the checksum of a part of a file does
    not depend on how it is read, and that corruption confined to four
    consecutive bytes is always detected. *)

From stdpp Require Import base list.
From Stdlib Require Import ZArith Lia.
From S2P Require Import Prelude.

Module Crc32.

(** ** Definitions *)

(** The static table has [sizeof(uint32_t) * 256] entries, all zero before
    the first use; only the first 256 are ever filled. *)
Definition crc_table_init : list Z := replicate 1024 0.

(** Terms of the polynomial (except x^32). *)
Definition poly_terms : list Z := [0; 1; 2; 4; 5; 7; 8; 10; 11; 12; 16; 22; 23; 26].

Definition poly : Z :=
  fold_left (fun p n => Z.lor p (Z.shiftl 1 (31 - n))) poly_terms 0.

(** One round of the inner loop: [c & 1 ? poly ^ (c >> 1) : c >> 1]. *)
Definition bit_step (c : Z) : Z :=
  if Z.odd c then Z.lxor poly (Z.shiftr c 1) else Z.shiftr c 1.

Fixpoint bit_steps (k : nat) (c : Z) : Z :=
  match k with
  | O => c
  | S k' => bit_steps k' (bit_step c)
  end.

Definition make_crc_table (tbl : list Z) : list Z :=
  if negb (nth 1 tbl 0 =? 0) then tbl
  else fold_left (fun t n => <[n := bit_steps 8 (Z.of_nat n)]> t) (seq 0 256) tbl.

(** [DO1]: table entry of the low byte of [crc ^ b], exclusive or [crc >> 8]. *)
Definition DO1 (tbl : list Z) (crc : Z) (b : byte) : Z :=
  Z.lxor (nth (Z.to_nat (Z.land (Z.lxor crc (byte_val b)) 255)) tbl 0) (Z.shiftr crc 8).

Definition DO2 (tbl : list Z) (crc : Z) (b0 b1 : byte) : Z := DO1 tbl (DO1 tbl crc b0) b1.

Definition DO4 (tbl : list Z) (crc : Z) (b0 b1 b2 b3 : byte) : Z :=
  DO2 tbl (DO2 tbl crc b0 b1) b2 b3.

Definition DO8 (tbl : list Z) (crc : Z) (b0 b1 b2 b3 b4 b5 b6 b7 : byte) : Z :=
  DO4 tbl (DO4 tbl crc b0 b1 b2 b3) b4 b5 b6 b7.

(** The two loops of [crc32_no_comp]: eight bytes at a time, then the rest. *)
Fixpoint crc_loop (tbl : list Z) (crc : Z) (buf : list byte) : Z :=
  match buf with
  | b0 :: b1 :: b2 :: b3 :: b4 :: b5 :: b6 :: b7 :: rest =>
      crc_loop tbl (DO8 tbl crc b0 b1 b2 b3 b4 b5 b6 b7) rest
  | _ => fold_left (DO1 tbl) buf crc
  end.

(** The table is static state: it is returned next to the result. *)
Definition crc32_no_comp_st (tbl : list Z) (crc : Z) (buf : list byte) : Z * list Z :=
  let tbl := make_crc_table tbl in
  (crc_loop tbl crc buf, tbl).

(** [~x] on a [uint32_t]. *)
Definition not32 (x : Z) : Z := Z.lxor x 0xffffffff.

Definition crc32_st (tbl : list Z) (crc : Z) (buf : list byte) : Z * list Z :=
  let '(c, tbl) := crc32_no_comp_st tbl (not32 crc) buf in (not32 c, tbl).

(** The result of the first call after start-up. *)
Definition crc32_no_comp (crc : Z) (buf : list byte) : Z :=
  fst (crc32_no_comp_st crc_table_init crc buf).

Definition crc32 (crc : Z) (buf : list byte) : Z := fst (crc32_st crc_table_init crc buf).

(** [mask = -(crc & 1); crc = (crc >> 1) ^ (0xEDB88320 & mask)], eight times. *)
Definition pi_bit (crc : Z) : Z :=
  let mask := u32 (- Z.land crc 1) in
  Z.lxor (Z.shiftr crc 1) (Z.land 0xEDB88320 mask).

Fixpoint pi_bits (j : nat) (crc : Z) : Z :=
  match j with
  | O => crc
  | S j' => pi_bits j' (pi_bit crc)
  end.

Definition pi_crc32 (crc : Z) (buf : list byte) : Z :=
  not32 (fold_left (fun c b => pi_bits 8 (Z.lxor c (byte_val b))) buf (not32 crc)).

(** [crc = (crc << 1) ^ ((crc & 0x80000000) ? 0x04c11db7 : 0)]. *)
Definition be_bit (crc : Z) : Z :=
  Z.lxor (u32 (Z.shiftl crc 1))
         (if Z.land crc 0x80000000 =? 0 then 0 else 0x04c11db7).

Fixpoint be_bits (i : nat) (crc : Z) : Z :=
  match i with
  | O => crc
  | S i' => be_bits i' (be_bit crc)
  end.

Definition crc32_be (crc : Z) (buf : list byte) : Z :=
  fold_left (fun c b => be_bits 8 (Z.lxor c (u32 (Z.shiftl (byte_val b) 24)))) buf crc.

(** ** The table *)

(** The checksum of a part of a file.  [rd i] is the error of the read with number
    [i], or the number of bytes that it gives at most; [file] is what opening the
    file gives and [seek] says that the position can be set. *)
Section File.

Context (rd : nat -> res nat).

(** The result code, the checksum and the number of bytes; [None] without fuel. *)
Fixpoint file_crc_loop (fuel i : nat) (data : list byte) (size crc total : Z) : option (Z * Z * Z) :=
  if size =? 0 then Some (0, crc, total)
  else
    match fuel with
    | O => None
    | S fuel =>
        match rd i with
        | Err e => Some (e, crc, total)
        | Ok most =>
            let now := Z.min (Z.min 4096 size) (Z.min (Z.of_nat most) (Z.of_nat (length data))) in
            if now =? 0 then Some (0, crc, total)
            else file_crc_loop fuel (S i) (drop (Z.to_nat now) data) (size - now)
                   (crc32 (u32 crc) (take (Z.to_nat now) data)) (total + now)
        end
    end.

Definition file_crc (fuel : nat) (file : res (list byte)) (seek : bool) (start size : Z) : option (Z * Z * Z) :=
  match file with
  | Err e => Some (e, 0, 0)
  | Ok data =>
      if (0 <? start) && negb seek then Some (-1, 0, 0)
      else file_crc_loop fuel 0 (drop (Z.to_nat start) data) size 0 0
  end.

End File.

(** ** Facts *)

Lemma poly_value : poly = 0xEDB88320.
Proof. reflexivity. Qed.

Definition crc_table_made : list Z :=
  Eval vm_compute in make_crc_table crc_table_init.

Lemma crc_table_made_eq : make_crc_table crc_table_init = crc_table_made.
Proof. vm_compute. reflexivity. Qed.

(** A table state that can be observed: never used, or filled once. *)
Definition table_ok (tbl : list Z) : Prop := tbl = crc_table_init \/ tbl = crc_table_made.

Lemma make_crc_table_ok tbl : table_ok tbl -> make_crc_table tbl = crc_table_made.
Proof. intros [->| ->]; [apply crc_table_made_eq|reflexivity]. Qed.

Definition table_check : bool :=
  forallb (fun n => nth n crc_table_made 0 =? bit_steps 8 (Z.of_nat n)) (seq 0 256).

Lemma table_entry n : (n < 256)%nat -> nth n crc_table_made 0 = bit_steps 8 (Z.of_nat n).
Proof.
  intros Hn. assert (H : table_check = true) by (vm_compute; reflexivity).
  unfold table_check in H. rewrite forallb_forall in H.
  apply Z.eqb_eq, H, in_seq. lia.
Qed.

(** ** The bit register is linear over exclusive or *)

Lemma bit_step_lxor a b : bit_step (Z.lxor a b) = Z.lxor (bit_step a) (bit_step b).
Proof.
  unfold bit_step. rewrite <- !Z.bit0_odd, Z.lxor_spec, Z.shiftr_lxor.
  destruct (Z.testbit a 0), (Z.testbit b 0); cbn [xorb]; xor_solve.
Qed.

Lemma bit_steps_lxor k a b :
  bit_steps k (Z.lxor a b) = Z.lxor (bit_steps k a) (bit_steps k b).
Proof.
  revert a b. induction k as [|k IH]; intros a b; cbn; [done|].
  by rewrite bit_step_lxor, IH.
Qed.

Lemma bit_step_double x : bit_step (2 * x) = x.
Proof.
  unfold bit_step. rewrite Z.odd_mul. cbn [Z.odd andb].
  rewrite Z.shiftr_div_pow2 by lia. change (2 ^ 1) with 2.
  rewrite Z.mul_comm. by apply Z.div_mul.
Qed.

Lemma bit_steps_shiftl k x : bit_steps k (2 ^ Z.of_nat k * x) = x.
Proof.
  revert x. induction k as [|k IH]; intros x; [cbn; by destruct x|].
  cbn [bit_steps].
  replace (2 ^ Z.of_nat (S k) * x) with (2 * (2 ^ Z.of_nat k * x))
    by (rewrite Nat2Z.inj_succ, Z.pow_succ_r by lia; lia).
  by rewrite bit_step_double, IH.
Qed.

Lemma bit_steps_shiftl8 x : bit_steps 8 (Z.shiftl x 8) = x.
Proof.
  rewrite Z.shiftl_mul_pow2 by lia. rewrite Z.mul_comm.
  apply (bit_steps_shiftl 8 x).
Qed.

Lemma bit_steps_add a b c : bit_steps (a + b) c = bit_steps b (bit_steps a c).
Proof. revert c. induction a as [|a IH]; intros c; cbn; [done|apply IH]. Qed.

Lemma split_low_byte x :
  0 <= x -> x = Z.lxor (Z.land x 255) (Z.shiftl (Z.shiftr x 8) 8).
Proof.
  intros Hx. apply Z.bits_inj'. intros i Hi.
  rewrite Z.lxor_spec, Z.land_spec. change 255 with (Z.ones 8).
  destruct (decide (i < 8)).
  - rewrite Z.ones_spec_low, Z.shiftl_spec_low by lia.
    by rewrite andb_true_r, xorb_false_r.
  - rewrite Z.ones_spec_high, Z.shiftl_spec_high, Z.shiftr_spec by lia.
    rewrite andb_false_r, xorb_false_l. f_equal. lia.
Qed.

(** One table step is eight bit steps on the register with the byte added. *)
Lemma DO1_bits crc b :
  0 <= crc -> DO1 crc_table_made crc b = bit_steps 8 (Z.lxor crc (byte_val b)).
Proof.
  intros Hc. pose proof (byte_val_range b) as Hb.
  set (x := Z.lxor crc (byte_val b)).
  assert (Hx : 0 <= x) by (apply Z.lxor_nonneg; lia).
  assert (Hl : 0 <= Z.land x 255 < 256).
  { change 255 with (Z.ones 8). rewrite Z.land_ones by lia.
    by apply Z.mod_pos_bound. }
  unfold DO1. fold x. rewrite table_entry by lia. rewrite Z2Nat.id by lia.
  rewrite (split_low_byte x) at 2 by done.
  rewrite bit_steps_lxor, bit_steps_shiftl8. f_equal.
  unfold x. rewrite Z.shiftr_lxor.
  rewrite (Z.shiftr_div_pow2 (byte_val b)) by lia.
  rewrite (Z.div_small (byte_val b)) by (change (2 ^ 8) with 256; lia).
  by rewrite Z.lxor_0_r.
Qed.

Lemma bit_step_range c : 0 <= c < 2 ^ 32 -> 0 <= bit_step c < 2 ^ 32.
Proof.
  intros H. assert (0 <= Z.shiftr c 1 < 2 ^ 31).
  { rewrite Z.shiftr_div_pow2 by lia. change (2 ^ 1) with 2.
    split; [apply Z.div_pos; lia|apply Z.div_lt_upper_bound; lia]. }
  unfold bit_step. rewrite poly_value.
  destruct (Z.odd c); [apply lxor_bound; lia|lia].
Qed.

Lemma bit_steps_range k c : 0 <= c < 2 ^ 32 -> 0 <= bit_steps k c < 2 ^ 32.
Proof.
  revert c. induction k as [|k IH]; intros c H; cbn [bit_steps]; [done|].
  by apply IH, bit_step_range.
Qed.

(** The register step is injective: bit 31 of the result tells whether the
    polynomial was added. *)
Lemma bit_step_inj a b :
  0 <= a < 2 ^ 32 -> 0 <= b < 2 ^ 32 -> bit_step a = bit_step b -> a = b.
Proof.
  intros Ha Hb E.
  assert (Hh : forall c, 0 <= c < 2 ^ 32 -> Z.testbit (bit_step c) 31 = Z.odd c).
  { intros c Hc. unfold bit_step.
    assert (Hs : Z.testbit (Z.shiftr c 1) 31 = false).
    { rewrite Z.shiftr_spec by lia. change (31 + 1) with 32.
      rewrite <- (Z.mod_small c (2 ^ 32)) by lia.
      apply Z.mod_pow2_bits_high. lia. }
    destruct (Z.odd c); [|done]. by rewrite Z.lxor_spec, Hs, poly_value. }
  assert (Ho : Z.odd a = Z.odd b) by (rewrite <- (Hh a), <- (Hh b), E; done).
  unfold bit_step in E. rewrite <- Ho in E.
  assert (Es : Z.shiftr a 1 = Z.shiftr b 1).
  { destruct (Z.odd a); [by apply lxor_cancel_l in E|done]. }
  rewrite <- !Z.div2_spec in Es.
  rewrite (Z.div2_odd a), (Z.div2_odd b). by rewrite Es, Ho.
Qed.

Lemma bit_steps_inj k a b :
  0 <= a < 2 ^ 32 -> 0 <= b < 2 ^ 32 -> bit_steps k a = bit_steps k b -> a = b.
Proof.
  revert a b. induction k as [|k IH]; intros a b Ha Hb E; [done|].
  apply bit_step_inj; [done|done|]. apply IH; auto using bit_step_range.
Qed.

(** ** The two loops *)

Lemma crc_loop_fold tbl n crc buf :
  (length buf <= n)%nat -> crc_loop tbl crc buf = fold_left (DO1 tbl) buf crc.
Proof.
  revert crc buf. induction n as [|n IH]; intros crc buf Hn.
  { destruct buf; [done|cbn in Hn; lia]. }
  do 8 (destruct buf as [|? buf]; [reflexivity|]).
  cbn [crc_loop]. rewrite IH by (cbn in Hn; lia). reflexivity.
Qed.

(** The bitwise register run over a buffer. *)
Definition reg_run (crc : Z) (buf : list byte) : Z :=
  fold_left (fun c b => bit_steps 8 (Z.lxor c (byte_val b))) buf crc.

Lemma reg_step_range c b :
  0 <= c < 2 ^ 32 -> 0 <= bit_steps 8 (Z.lxor c (byte_val b)) < 2 ^ 32.
Proof.
  intros H. pose proof (byte_val_range b).
  apply bit_steps_range, lxor_bound; lia.
Qed.

Lemma reg_run_range c buf : 0 <= c < 2 ^ 32 -> 0 <= reg_run c buf < 2 ^ 32.
Proof.
  intros H. apply (fold_left_inv (fun c => 0 <= c < 2 ^ 32)); [done|].
  intros a b Ha. by apply reg_step_range.
Qed.

Lemma fold_DO1_reg c buf :
  0 <= c < 2 ^ 32 -> fold_left (DO1 crc_table_made) buf c = reg_run c buf.
Proof.
  intros H. apply (fold_left_inv_ext (fun c => 0 <= c < 2 ^ 32)); [done|..].
  - intros a b Ha. apply DO1_bits. lia.
  - intros a b Ha. by apply reg_step_range.
Qed.

Lemma not32_range x : 0 <= x < 2 ^ 32 -> 0 <= not32 x < 2 ^ 32.
Proof. intros H. apply lxor_bound; lia. Qed.

Lemma not32_invol x : not32 (not32 x) = x.
Proof. unfold not32. xor_solve. Qed.

Lemma crc32_st_reg tbl crc buf :
  table_ok tbl -> 0 <= crc < 2 ^ 32 ->
  crc32_st tbl crc buf = (not32 (reg_run (not32 crc) buf), crc_table_made).
Proof.
  intros Ht Hc. unfold crc32_st, crc32_no_comp_st.
  rewrite make_crc_table_ok by done.
  rewrite (crc_loop_fold _ (length buf)) by lia.
  by rewrite fold_DO1_reg by (by apply not32_range).
Qed.

Lemma crc32_reg crc buf :
  0 <= crc < 2 ^ 32 -> crc32 crc buf = not32 (reg_run (not32 crc) buf).
Proof. intros H. unfold crc32. by rewrite crc32_st_reg by (done || by left). Qed.

Lemma crc32_range crc buf : 0 <= crc < 2 ^ 32 -> 0 <= crc32 crc buf < 2 ^ 32.
Proof.
  intros H. rewrite crc32_reg by done.
  by apply not32_range, reg_run_range, not32_range.
Qed.

Lemma pi_bit_eq c : 0 <= c -> pi_bit c = bit_step c.
Proof.
  intros H. unfold pi_bit, bit_step.
  change (Z.land c 1) with (Z.land c (Z.ones 1)). rewrite Z.land_ones by lia.
  change (2 ^ 1) with 2. rewrite Zmod_odd.
  destruct (Z.odd c); [apply Z.lxor_comm|by rewrite Z.lxor_0_r].
Qed.

Lemma pi_bits_eq k c : 0 <= c < 2 ^ 32 -> pi_bits k c = bit_steps k c.
Proof.
  revert c. induction k as [|k IH]; intros c H; cbn; [done|].
  rewrite pi_bit_eq by lia. by apply IH, bit_step_range.
Qed.

Lemma pi_fold_reg c buf :
  0 <= c < 2 ^ 32 ->
  fold_left (fun c b => pi_bits 8 (Z.lxor c (byte_val b))) buf c = reg_run c buf.
Proof.
  intros H. apply (fold_left_inv_ext (fun c => 0 <= c < 2 ^ 32)); [done|..].
  - intros a b Ha. pose proof (byte_val_range b).
    apply pi_bits_eq, lxor_bound; lia.
  - intros a b Ha. by apply reg_step_range.
Qed.

(** Over at most four bytes the register is a shift of the whole group. *)
Lemma reg_run_group c l :
  reg_run c l = bit_steps (8 * length l) (Z.lxor c (le_val l)).
Proof.
  revert c. induction l as [|b l IH]; intros c.
  { cbn. by rewrite Z.lxor_0_r. }
  change (reg_run c (b :: l)) with (reg_run (bit_steps 8 (Z.lxor c (byte_val b))) l).
  rewrite IH. replace (8 * length (b :: l))%nat with (8 + 8 * length l)%nat by (cbn; lia).
  rewrite bit_steps_add. f_equal.
  assert (E : le_val (b :: l) = Z.lxor (byte_val b) (Z.shiftl (le_val l) 8)).
  { cbn [le_val]. rewrite Z.shiftl_mul_pow2 by lia. change (2 ^ 8) with 256.
    rewrite <- Z.add_nocarry_lxor; [lia|].
    apply Z.bits_inj'. intros i Hi. rewrite Z.land_spec, Z.bits_0.
    destruct (decide (i < 8)).
    - replace (le_val l * 256) with (le_val l * 2 ^ 8) by done.
      rewrite Z.mul_pow2_bits_low by lia. by rewrite andb_false_r.
    - pose proof (byte_val_range b).
      rewrite <- (Z.mod_small (byte_val b) (2 ^ 8)) by lia.
      by rewrite Z.mod_pow2_bits_high by lia. }
  rewrite E, <- Z.lxor_assoc, (bit_steps_lxor 8 (Z.lxor c (byte_val b))).
  by rewrite bit_steps_shiftl8.
Qed.

Lemma reg_run_app c l1 l2 : reg_run c (l1 ++ l2) = reg_run (reg_run c l1) l2.
Proof. unfold reg_run. apply fold_left_app. Qed.

Lemma reg_run_inj_c l a b :
  0 <= a < 2 ^ 32 -> 0 <= b < 2 ^ 32 -> reg_run a l = reg_run b l -> a = b.
Proof.
  revert a b. induction l as [|x l IH]; intros a b Ha Hb E; [done|].
  pose proof (byte_val_range x). cbn in E.
  apply IH in E; [|by apply (reg_step_range a)|by apply (reg_step_range b)].
  apply (bit_steps_inj 8) in E; [|apply lxor_bound; lia..].
  rewrite !(Z.lxor_comm _ (byte_val x)) in E. by apply lxor_cancel_l in E.
Qed.

Lemma reg_run_inj_group c l1 l2 :
  0 <= c < 2 ^ 32 -> length l1 = length l2 -> (length l1 <= 4)%nat ->
  reg_run c l1 = reg_run c l2 -> l1 = l2.
Proof.
  intros Hc Hl H4 E. rewrite !reg_run_group, <- Hl in E.
  assert (Hb : forall l, (length l <= 4)%nat -> 0 <= Z.lxor c (le_val l) < 2 ^ 32).
  { intros l H. pose proof (le_val_nonneg l). pose proof (le_val_bound l).
    apply lxor_bound; [lia|lia|]. split; [done|].
    eapply Z.lt_le_trans; [done|]. apply Z.pow_le_mono_r; lia. }
  apply bit_steps_inj in E; [|apply Hb; lia..].
  apply lxor_cancel_l in E. by apply le_val_inj.
Qed.

(** ** Properties *)

(** The table-driven [crc32] of crypto/crc32.c, whatever the state of its
    lazily filled table, computes the same value as the table-free
    [__pi_crc32]. *)
Theorem crc32_table_equiv tbl crc buf :
  table_ok tbl -> 0 <= crc < 2 ^ 32 ->
  fst (crc32_st tbl crc buf) = pi_crc32 crc buf.
Proof.
  intros Ht Hc. rewrite crc32_st_reg by done. unfold pi_crc32. cbn [fst].
  by rewrite pi_fold_reg by (by apply not32_range).
Qed.

Lemma crc32_table_equiv_witness :
  fst (crc32_st crc_table_init 0 [Init.Byte.x61; Init.Byte.x62]) =
  pi_crc32 0 [Init.Byte.x61; Init.Byte.x62].
Proof. apply crc32_table_equiv; [left; reflexivity|lia]. Defined.

(** A checksum may be computed in pieces: continuing from the result of
    a prefix gives the checksum of the whole buffer. *)
Theorem crc32_incremental crc a b :
  0 <= crc < 2 ^ 32 -> crc32 (crc32 crc a) b = crc32 crc (a ++ b).
Proof.
  intros H. rewrite (crc32_reg (crc32 crc a)) by (by apply crc32_range).
  rewrite !crc32_reg by done. by rewrite not32_invol, reg_run_app.
Qed.

Lemma crc32_incremental_witness :
  crc32 (crc32 0 [Init.Byte.x61]) [Init.Byte.x62] = crc32 0 [Init.Byte.x61; Init.Byte.x62].
Proof. apply (crc32_incremental 0 [Init.Byte.x61] [Init.Byte.x62]). lia. Defined.

Lemma crc32_nil crc : 0 <= crc < 2 ^ 32 -> crc32 crc [] = crc.
Proof. intros H. rewrite crc32_reg by done. unfold reg_run. cbn. apply not32_invol. Qed.

Lemma file_crc_end crc total : 0 <= crc < 2 ^ 32 ->
  Some (0, crc, total) = Some (0, crc32 crc [], total + Z.of_nat (length (@nil byte))).
Proof. intros H. rewrite crc32_nil by done. cbn [length]. by rewrite Z.add_0_r. Qed.

(** However many bytes each read gives, as long as it gives some, the result is the
    checksum of the bytes of the file in the window and their number. *)
Lemma file_crc_loop_ok rd data : (forall i, exists m, rd i = Ok (S m)) -> forall fuel i size crc total,
  (Z.to_nat size <= fuel)%nat -> 0 <= size -> 0 <= crc < 2 ^ 32 ->
  file_crc_loop rd fuel i data size crc total =
  Some (0, crc32 crc (take (Z.to_nat size) data), total + Z.of_nat (length (take (Z.to_nat size) data))).
Proof.
  intros Hrd fuel. revert data. induction fuel as [|fuel IH]; intros data i size crc total Hf Hs Hc.
  { assert (size = 0) by lia. subst size. cbn [file_crc_loop Z.eqb]. by apply file_crc_end. }
  cbn [file_crc_loop]. destruct (size =? 0) eqn:E0; bool_prop; [subst size; by apply file_crc_end|].
  destruct (Hrd i) as [m ->]. set (now := Z.min (Z.min 4096 size) _). destruct (now =? 0) eqn:E1; bool_prop.
  { destruct data; [|cbn [length] in now; lia]. rewrite take_nil. by apply file_crc_end. }
  assert (Hn : 0 < now <= Z.of_nat (length data) /\ now <= size) by (unfold now in *; lia). clearbody now.
  rewrite u32_small by done. rewrite IH by (lia || by apply crc32_range).
  assert (Et : take (Z.to_nat size) data = take (Z.to_nat now) data ++ take (Z.to_nat (size - now)) (drop (Z.to_nat now) data)).
  { rewrite take_take_drop. f_equal. lia. }
  rewrite Et, length_app, (length_take_le data) by lia. rewrite crc32_incremental by done. do 2 f_equal. lia.
Qed.

Theorem file_crc_ok rd file start size :
  (forall i, exists m, rd i = Ok (S m)) -> 0 <= size ->
  file_crc rd (Z.to_nat size) (Ok file) true start size =
  let window := read_at file (Z.to_nat start) (Z.to_nat size) in Some (0, crc32 0 window, Z.of_nat (length window)).
Proof. intros Hrd Hs. unfold file_crc. rewrite andb_false_r. by rewrite file_crc_loop_ok by (done || lia). Qed.

(** Shared form of burst detection, for the users of the checksum. *)
Lemma crc32_burst crc pre x y post :
  0 <= crc < 2 ^ 32 -> length x = length y -> (length x <= 4)%nat ->
  crc32 crc (pre ++ x ++ post) = crc32 crc (pre ++ y ++ post) -> x = y.
Proof.
  intros Hc Hl H4 E. rewrite !crc32_reg in E by done.
  apply (f_equal not32) in E. rewrite !not32_invol, !reg_run_app in E.
  assert (Hr : 0 <= reg_run (not32 crc) pre < 2 ^ 32)
    by (by apply reg_run_range, not32_range).
  apply reg_run_inj_c in E; [|by apply reg_run_range..].
  by apply reg_run_inj_group in E.
Qed.

(** C34: replacing up to four consecutive bytes of a buffer by different ones
    always changes its CRC-32. *)
Theorem crc32_detects_burst crc pre x y post :
  0 <= crc < 2 ^ 32 -> length x = length y -> (length x <= 4)%nat -> x <> y ->
  crc32 crc (pre ++ x ++ post) <> crc32 crc (pre ++ y ++ post).
Proof. intros Hc Hl H4 Hne E. by apply Hne, (crc32_burst crc pre x y post). Qed.

Lemma crc32_detects_burst_witness :
  crc32 0 ([] ++ [Init.Byte.x01] ++ [Init.Byte.x05]) <>
  crc32 0 ([] ++ [Init.Byte.x02] ++ [Init.Byte.x05]).
Proof.
  apply (crc32_detects_burst 0 [] [Init.Byte.x01] [Init.Byte.x02] [Init.Byte.x05]);
    [lia|reflexivity|cbn; lia|discriminate].
Defined.

(** Check value of the CRC-32 polynomial on the digits 1 to 9. *)
Example crc32_check_value :
  crc32 0 (map byte_of [49; 50; 51; 52; 53; 54; 55; 56; 57]) = 0xCBF43926.
Proof. vm_compute. reflexivity. Qed.

End Crc32.
