(* ===== verification/Mtd.v ===== *)
(** * MTD core and physical erase blocks (drivers/mtd/core.c, drivers/mtd/peb.c)

    [mtd_info] keeps the fields and the driver callbacks of the C structure;
    a chip driver is a value of that record over its own device state [D].
    On top of it: the argument checks of [mtd_read], [mtd_write], [mtd_erase],
    and the erase-block layer with its retries, self checks, torture test and
    bad block skipping file transfers.

    [flash_ok] states what a well-behaved chip promises; [Nand] is a concrete
    chip that satisfies it. *)

From stdpp Require Import base list.
From Stdlib Require Import ZArith Lia.
From S2P Require Import Prelude.

Module Mtd.

(** ** Configuration and device *)

(** Kconfig switches and the debugging globals of peb.c. *)
Record mtd_config := MtdConfig {
  CONFIG_MTD_WRITE : bool;
  CONFIG_MTD_PEB_DEBUG : bool;
  peb_chk_io_var : Z;
  peb_emulate_bitflip_var : Z;
  peb_emulate_write_failure_var : Z;
  peb_emulate_erase_failures_var : Z
}.

(** Driver callbacks: a read fills the buffer and reports the number of
    bytes; negative results are error codes, non-negative ones the number of
    corrected bit flips. *)
Record mtd_info (D : Type) := MtdInfo {
  size : Z;
  erasesize : Z;
  writesize : Z;
  subpage_sft : Z;
  numeraseregions : Z;
  flag_writeable : bool;
  ecc_strength : Z;
  bitflip_threshold : Z;
  _read_oob : option (D -> Z -> Z -> list byte -> Z * Z * list byte * D);
  _read : option (D -> Z -> Z -> list byte -> Z * Z * list byte * D);
  _write_oob : option (D -> Z -> list byte -> Z * Z * D);
  _write : option (D -> Z -> list byte -> Z * Z * D);
  _erase : D -> Z -> Z -> Z * D;
  _block_isbad : option (D -> Z -> Z);
  _block_markbad : option (D -> Z -> Z * D);
  random32 : D -> Z * D
}.
Arguments size {D} _.
Arguments erasesize {D} _.
Arguments writesize {D} _.
Arguments subpage_sft {D} _.
Arguments numeraseregions {D} _.
Arguments flag_writeable {D} _.
Arguments ecc_strength {D} _.
Arguments bitflip_threshold {D} _.
Arguments _read_oob {D} _.
Arguments _read {D} _.
Arguments _write_oob {D} _.
Arguments _write {D} _.
Arguments _erase {D} _.
Arguments _block_isbad {D} _.
Arguments _block_markbad {D} _.
Arguments random32 {D} _.

Definition mtd_is_bitflip (err : Z) : bool := err =? - EUCLEAN.

Definition mtd_is_eccerr (err : Z) : bool := err =? - EBADMSG.

(** ** mtd_buf_all_ff: bytes up to alignment, then words, then the tail *)

Definition is_ff (b : byte) : bool := bool_decide (b = Init.Byte.xff).

Fixpoint ff_tail (buf : list byte) : Z :=
  match buf with
  | [] => 1
  | b :: rest => if negb (is_ff b) then 0 else ff_tail rest
  end.

Fixpoint ff_words (buf : list byte) : Z :=
  match buf with
  | b0 :: b1 :: b2 :: b3 :: rest =>
      if negb (le_val [b0; b1; b2; b3] =? 0xffffffff) then 0
      else match rest with
           | [] => 1
           | _ => ff_words rest
           end
  | _ => ff_tail buf
  end.

(** [addr] is the address of the buffer, of which only the two low bits
    matter. *)
Fixpoint mtd_buf_all_ff (addr : Z) (buf : list byte) : Z :=
  match buf with
  | [] => ff_words []
  | b :: rest =>
      if negb (Z.land addr 3 =? 0) then
        if negb (is_ff b) then 0
        else match rest with
             | [] => 1
             | _ => mtd_buf_all_ff (addr + 1) rest
             end
      else ff_words buf
  end.

Section Core.
Context {D : Type} (cfg : mtd_config) (m : mtd_info D).

(** ** drivers/mtd/core.c *)

Definition mtd_block_isbad (d : D) (ofs : Z) : Z :=
  match _block_isbad m with
  | None => 0
  | Some f =>
      if (ofs <? 0) || (size m <? ofs) then - EINVAL else f d ofs
  end.

Definition mtd_block_markbad (d : D) (ofs : Z) : Z * D :=
  if (ofs <? 0) || (size m <=? ofs) then (- EINVAL, d)
  else match _block_markbad m with
       | Some f => f d ofs
       | None => (- ENOSYS, d)
       end.

(** The driver entry [mtd_read_oob] uses when no oob buffer is given. *)
Definition drv_read : option (D -> Z -> Z -> list byte -> Z * Z * list byte * D) :=
  match _read_oob m with
  | Some f => Some f
  | None => _read m
  end.

Definition drv_write : option (D -> Z -> list byte -> Z * Z * D) :=
  match _write_oob m with
  | Some f => Some f
  | None => _write m
  end.

(** Result: return code, bytes read, buffer, device. *)
Definition mtd_read_oob (d : D) (from len : Z) (buf : list byte) : Z * Z * list byte * D :=
  match drv_read with
  | None => (- EOPNOTSUPP, 0, buf, d)
  | Some f =>
      let '(ret_code, retlen, buf, d) := f d from len buf in
      if ret_code <? 0 then (ret_code, retlen, buf, d)
      else if ecc_strength m =? 0 then (0, retlen, buf, d)
      else if bitflip_threshold m <=? ret_code then (- EUCLEAN, retlen, buf, d)
      else (0, retlen, buf, d)
  end.

(** On [-EINVAL] the C code leaves [*retlen] untouched; no caller looks at
    it then. *)
Definition mtd_read (d : D) (from len : Z) (buf : list byte) : Z * Z * list byte * D :=
  if (from <? 0) || (size m <=? from) || (size m - from <? len) then (- EINVAL, 0, buf, d)
  else if len =? 0 then (0, 0, buf, d)
  else mtd_read_oob d from len buf.

Definition mtd_write_oob (d : D) (to : Z) (buf : list byte) : Z * Z * D :=
  if negb (flag_writeable m) then (- EROFS, 0, d)
  else match drv_write with
       | None => (- EOPNOTSUPP, 0, d)
       | Some f => f d to buf
       end.

Definition mtd_write (d : D) (to : Z) (buf : list byte) : Z * Z * D :=
  let len := Z.of_nat (length buf) in
  if (to <? 0) || (size m <=? to) || (size m - to <? len) then (- EINVAL, 0, d)
  else if len =? 0 then (0, 0, d)
  else mtd_write_oob d to buf.

Definition mtd_erase (d : D) (addr len : Z) : Z * D :=
  if (size m <=? addr) || (size m - addr <? len) then (- EINVAL, d)
  else if negb (CONFIG_MTD_WRITE cfg) then (- ENOSYS, d)
  else if negb (flag_writeable m) then (- EROFS, d)
  else if len =? 0 then (0, d)
  else _erase m d addr len.

(** ** drivers/mtd/peb.c: debugging switches *)

Definition mtd_peb_chk_io : bool :=
  if negb (CONFIG_MTD_PEB_DEBUG cfg) then false
  else if peb_chk_io_var cfg =? 0 then false
  else true.

(** The three emulation switches share one shape. *)
Definition mtd_peb_emulate (var : Z) (d : D) : bool * D :=
  if negb (CONFIG_MTD_PEB_DEBUG cfg) then (false, d)
  else if var =? 0 then (false, d)
  else let '(r, d) := random32 m d in (r mod var =? 0, d).

Definition mtd_peb_emulate_bitflip (d : D) : bool * D :=
  mtd_peb_emulate (peb_emulate_bitflip_var cfg) d.

Definition mtd_peb_emulate_write_failure (d : D) : bool * D :=
  mtd_peb_emulate (peb_emulate_write_failure_var cfg) d.

Definition mtd_peb_emulate_erase_failure (d : D) : bool * D :=
  mtd_peb_emulate (peb_emulate_erase_failures_var cfg) d.

(** ** drivers/mtd/peb.c: erase blocks *)

Definition MTD_IO_RETRIES : nat := 3.

Definition mtd_peb_valid (pnum : Z) : bool :=
  if pnum <? 0 then false
  else if size m <=? u64 (pnum * erasesize m) then false
  else if negb (numeraseregions m =? 0) then false
  else true.

Definition mtd_num_pebs : Z := size m / erasesize m.

(** [while (1)] over the block number; the fuel is at least the number of
    blocks left. *)
Fixpoint mtd_skip_bad_loop (fuel : nat) (d : D) (pnum : Z) : option (Z * Z) :=
  match fuel with
  | O => None
  | S fuel =>
      let offset := erasesize m * pnum in
      if size m <=? offset then Some (- ENOSPC, pnum)
      else if mtd_block_isbad d offset =? 0 then Some (0, pnum)
      else mtd_skip_bad_loop fuel d (pnum + 1)
  end.

Definition mtd_skip_bad (fuel : nat) (d : D) (pnum : Z) : option (Z * Z) :=
  if pnum <? 0 then Some (- EINVAL, pnum) else mtd_skip_bad_loop fuel d pnum.

Definition mtd_peb_mark_bad (d : D) (pnum : Z) : Z * D :=
  mtd_block_markbad d (pnum * erasesize m).

Definition mtd_peb_is_bad (d : D) (pnum : Z) : Z :=
  if negb (mtd_peb_valid pnum) then - EINVAL
  else mtd_block_isbad d (pnum * erasesize m).

(** [buf[0] ^= 0xFF]. *)
Definition corrupt_first (buf : list byte) : list byte :=
  match buf with
  | [] => []
  | b :: rest => byte_of (Z.lxor (byte_val b) 255) :: rest
  end.

(** The [retry:] loop; [retries] counts the attempts left. *)
Fixpoint mtd_peb_read_retry (retries : nat) (d : D) (buf : list byte) (addr len : Z)
  : Z * list byte * D :=
  let '(err, read, buf, d) := mtd_read d addr len buf in
  if negb (err =? 0) then
    if mtd_is_bitflip err then
      if negb (len =? read) then (- EIO, buf, d) else (- EUCLEAN, buf, d)
    else if mtd_is_eccerr err then
      match retries with
      | S retries => mtd_peb_read_retry retries d buf addr len
      | O => (err, buf, d)
      end
    else (err, buf, d)
  else if negb (len =? read) then (- EIO, buf, d)
  else
    let '(flip, d) := mtd_peb_emulate_bitflip d in
    if flip then (- EUCLEAN, buf, d) else (0, buf, d).

Definition mtd_peb_read (d : D) (buf : list byte) (pnum offset len : Z)
  : Z * list byte * D :=
  if negb (mtd_peb_valid pnum) then (- EINVAL, buf, d)
  else if (offset <? 0) || (erasesize m <? u32 (offset + len)) then (- EINVAL, buf, d)
  else if len <? 0 then (- EINVAL, buf, d)
  else if negb (mtd_peb_is_bad d pnum =? 0) then (- EINVAL, buf, d)
  else if len =? 0 then (0, buf, d)
  else mtd_peb_read_retry MTD_IO_RETRIES d (corrupt_first buf)
         (pnum * erasesize m + offset) len.

(** [malloc] gives a buffer with unspecified contents. *)
Context (junk : nat -> list byte) (malloc_addr : Z).

Definition mtd_peb_check_all_ff (d : D) (pnum offset len : Z) : Z * D :=
  let '(err, buf, d) := mtd_peb_read d (junk (Z.to_nat len)) pnum offset len in
  if negb (err =? 0) && negb (mtd_is_bitflip err) then (err, d)
  else if mtd_buf_all_ff malloc_addr buf =? 0 then (- EBADMSG, d)
  else (0, d).

Definition mtd_peb_verify (d : D) (buf : list byte) (pnum offset : Z) : Z * D :=
  let len := Z.of_nat (length buf) in
  let '(err, read, buf1, d) :=
    mtd_read d (pnum * erasesize m + offset) len (junk (length buf)) in
  if negb (err =? 0) && negb (mtd_is_bitflip err) then (err, d)
  else if bool_decide (buf1 = buf) then (0, d) else (- EBADMSG, d).

Definition mtd_peb_write (d : D) (buf : list byte) (pnum offset : Z) : Z * D :=
  let len := Z.of_nat (length buf) in
  if negb (mtd_peb_valid pnum) then (- EINVAL, d)
  else if (offset <? 0) || (erasesize m <? u32 (offset + len)) then (- EINVAL, d)
  else if negb (len mod Z.shiftr (writesize m) (subpage_sft m) =? 0) then (- EINVAL, d)
  else if negb (mtd_peb_is_bad d pnum =? 0) then (- EINVAL, d)
  else if len =? 0 then (0, d)
  else
    let '(fail, d) := mtd_peb_emulate_write_failure d in
    if fail then (- EIO, d)
    else
      let '(err, d) :=
        if mtd_peb_chk_io then mtd_peb_check_all_ff d pnum offset len else (0, d) in
      if negb (err =? 0) then (err, d)
      else
        let '(err, written, d) := mtd_write d (pnum * erasesize m + offset) buf in
        let err := if negb (err =? 0) then err
                   else if negb (written =? len) then - EIO else err in
        if (err =? 0) && mtd_peb_chk_io then mtd_peb_verify d buf pnum offset
        else (err, d).

(** The result of the all-0xff check is computed and dropped, as in the
    source. *)
Definition mtd_peb_erase (d : D) (pnum : Z) : Z * D :=
  if negb (mtd_peb_valid pnum) then (- EINVAL, d)
  else
    let '(ret, d) := mtd_erase d (pnum * erasesize m) (erasesize m) in
    if negb (ret =? 0) then (ret, d)
    else
      let '(ret, d) :=
        if mtd_peb_chk_io then
          let '(ret, d) := mtd_peb_check_all_ff d pnum 0 (erasesize m) in
          (if ret =? - EBADMSG then - EIO else ret, d)
        else (ret, d) in
      let '(fail, d) := mtd_peb_emulate_erase_failure d in
      if fail then (- EIO, d) else (0, d).

Definition patterns : list Z := [0xa5; 0x5a; 0x0].

(** The body of the pattern loop, stopping at the first error. *)
Fixpoint torture_patterns (ps : list Z) (d : D) (pnum : Z) : Z * D :=
  match ps with
  | [] => (0, d)
  | p :: ps =>
      let '(err, d) := mtd_peb_erase d pnum in
      if negb (err =? 0) then (err, d)
      else
      let '(err, d) := mtd_peb_check_all_ff d pnum 0 (writesize m) in
      if negb (err =? 0) then (err, d)
      else
      let peb_buf := replicate (Z.to_nat (erasesize m)) (byte_of p) in
      let '(err, d) := mtd_peb_write d peb_buf pnum 0 in
      if negb (err =? 0) then (err, d)
      else
      let '(err, d) := mtd_peb_verify d peb_buf pnum 0 in
      if negb (err =? 0) then (err, d)
      else torture_patterns ps d pnum
  end.

Definition mtd_peb_torture (d : D) (pnum : Z) : Z * D :=
  if negb (mtd_peb_valid pnum) then (- EINVAL, d)
  else
    let '(err, d) :=
      let '(err, d) := torture_patterns patterns d pnum in
      if negb (err =? 0) then (err, d)
      else
        let '(err, d) := mtd_peb_erase d pnum in
        if negb (err =? 0) then (err, d)
        else (Z.of_nat (length patterns) + 1, d) in
    if (err =? - EUCLEAN) || mtd_is_eccerr err then (- EIO, d) else (err, d).

(** First pass of [mtd_peb_write_file]: does the file fit? *)
Fixpoint write_file_fits (fuel : nat) (d : D) (peb_start max_pebs pnum left : Z) : option Z :=
  match fuel with
  | O => None
  | S fuel =>
      if size m <=? u64 (pnum * erasesize m) then Some (- ENOSPC)
      else if peb_start + max_pebs <=? pnum then Some (- ENOSPC)
      else if negb (mtd_peb_is_bad d pnum =? 0) then
        write_file_fits fuel d peb_start max_pebs (pnum + 1) left
      else if left <=? erasesize m then Some 0
      else write_file_fits fuel d peb_start max_pebs (pnum + 1) (left - erasesize m)
  end.

(** Second pass: erase and write block by block, zero padding the last. *)
Fixpoint write_file_blocks (fuel : nat) (d : D) (pnum : Z) (buf : list byte) : option (Z * D) :=
  match fuel with
  | O => None
  | S fuel =>
      match buf with
      | [] => Some (0, d)
      | _ =>
          if negb (mtd_peb_is_bad d pnum =? 0) then write_file_blocks fuel d (pnum + 1) buf
          else
            let '(ret, d) := mtd_peb_erase d pnum in
            if negb (ret =? 0) then Some (ret, d)
            else
              let es := Z.to_nat (erasesize m) in
              let now := take es buf in
              let wrbuf := now ++ replicate (es - length now) Init.Byte.x00 in
              let '(ret, d) := mtd_peb_write d wrbuf pnum 0 in
              if negb (ret =? 0) then Some (ret, d)
              else write_file_blocks fuel d (pnum + 1) (drop es buf)
      end
  end.

Definition mtd_peb_write_file (fuel : nat) (d : D) (peb_start max_pebs : Z)
    (buf : list byte) : option (Z * D) :=
  match write_file_fits fuel d peb_start max_pebs peb_start (Z.of_nat (length buf)) with
  | None => None
  | Some ret =>
      if negb (ret =? 0) then Some (ret, d) else write_file_blocks fuel d peb_start buf
  end.

(** Blocks read so far are returned in order. *)
Fixpoint mtd_peb_read_file (fuel : nat) (d : D) (pnum peb_last : Z) (len : Z)
  : option (Z * list byte * D) :=
  match fuel with
  | O => None
  | S fuel =>
      if len =? 0 then Some (0, [], d)
      else
        let now := Z.min (erasesize m) len in
        if peb_last <? pnum then Some (- EIO, [], d)
        else if negb (mtd_peb_is_bad d pnum =? 0) then
          mtd_peb_read_file fuel d (pnum + 1) peb_last len
        else
          let '(ret, buf, d) := mtd_peb_read d (junk (Z.to_nat now)) pnum 0 now in
          if negb (ret =? 0) then Some (ret, buf, d)
          else match mtd_peb_read_file fuel d (pnum + 1) peb_last (len - now) with
               | Some (ret, rest, d) => Some (ret, buf ++ rest, d)
               | None => None
               end
  end.

End Core.

(** ** What a well-behaved chip promises *)

(** [cells] is the contents of the chip, [bad] its bad block table.  Reads
    return the contents (possibly after correcting fewer bit flips than the
    threshold), programming works on erased cells, erasing a block sets it to
    0xff. *)
Class FlashOk {D : Type} (m : mtd_info D) (cells : D -> list byte) (bad : D -> Z -> bool)
  : Prop := {
  fl_len d : Z.of_nat (length (cells d)) = size m;
  fl_es : 0 < erasesize m < 2 ^ 31;
  fl_size : (erasesize m | size m) /\ size m < 2 ^ 63;
  fl_ws : 0 < writesize m <= erasesize m;
  fl_page : 0 < Z.shiftr (writesize m) (subpage_sft m) /\
            (Z.shiftr (writesize m) (subpage_sft m) | erasesize m);
  fl_regions : numeraseregions m = 0;
  fl_rw : flag_writeable m = true;
  fl_bad d p : 0 <= p -> p * erasesize m < size m ->
    mtd_block_isbad m d (p * erasesize m) = if bad d p then 1 else 0;
  fl_read : exists f, drv_read m = Some f /\
    forall d from buf, 0 <= from -> buf <> [] ->
      from + Z.of_nat (length buf) <= size m ->
      exists rc d', f d from (Z.of_nat (length buf)) buf =
          (rc, Z.of_nat (length buf), read_at (cells d) (Z.to_nat from) (length buf), d')
        /\ 0 <= rc /\ (ecc_strength m = 0 \/ rc < bitflip_threshold m)
        /\ cells d' = cells d /\ bad d' = bad d;
  fl_write : exists f, drv_write m = Some f /\
    forall d to buf, 0 <= to -> to + Z.of_nat (length buf) <= size m ->
      all_ff (read_at (cells d) (Z.to_nat to) (length buf)) = true ->
      exists d', f d to buf = (0, Z.of_nat (length buf), d')
        /\ cells d' = write_at (cells d) (Z.to_nat to) buf /\ bad d' = bad d;
  fl_erase d p : 0 <= p -> p * erasesize m < size m -> bad d p = false ->
    exists d', _erase m d (p * erasesize m) (erasesize m) = (0, d')
      /\ cells d' = write_at (cells d) (Z.to_nat (p * erasesize m))
                      (replicate (Z.to_nat (erasesize m)) Init.Byte.xff)
      /\ bad d' = bad d
}.

(** Production configuration: writing enabled, no fault injection. *)
Definition cfg_plain (cfg : mtd_config) : Prop :=
  CONFIG_MTD_WRITE cfg = true /\ CONFIG_MTD_PEB_DEBUG cfg = false.

(** ** mtd_buf_all_ff *)

Lemma is_ff_val b : is_ff b = true <-> byte_val b = 255.
Proof.
  unfold is_ff. rewrite bool_decide_eq_true. split; [by intros ->|].
  intros H. apply byte_val_inj. by rewrite H.
Qed.

Lemma all_ff_cons b l : all_ff (b :: l) = is_ff b && all_ff l.
Proof. reflexivity. Qed.

Lemma ff_tail_spec buf : ff_tail buf = if all_ff buf then 1 else 0.
Proof.
  induction buf as [|b buf IH]; [done|]. cbn [ff_tail]. rewrite all_ff_cons, IH.
  by destruct (is_ff b).
Qed.

Lemma word_ff b0 b1 b2 b3 :
  (le_val [b0; b1; b2; b3] =? 0xffffffff) = all_ff [b0; b1; b2; b3].
Proof.
  pose proof (byte_val_range b0). pose proof (byte_val_range b1).
  pose proof (byte_val_range b2). pose proof (byte_val_range b3).
  apply eq_true_iff_eq. rewrite Z.eqb_eq, !all_ff_cons, !andb_true_iff, !is_ff_val.
  cbn [le_val]. split; [intros E; repeat split; lia|intros; lia].
Qed.

Lemma ff_words_spec buf : ff_words buf = if all_ff buf then 1 else 0.
Proof.
  remember (length buf) as n eqn:Hn. assert (Hle : (length buf <= n)%nat) by lia.
  clear Hn. revert buf Hle. induction n as [|n IH]; intros buf Hle.
  { destruct buf; [done|cbn in Hle; lia]. }
  destruct buf as [|b0 [|b1 [|b2 [|b3 rest]]]]; try apply ff_tail_spec.
  cbn [ff_words]. rewrite word_ff.
  replace (all_ff (b0 :: b1 :: b2 :: b3 :: rest))
    with (all_ff [b0; b1; b2; b3] && all_ff rest)
    by (rewrite !all_ff_cons; cbn; by rewrite andb_true_r, !andb_assoc).
  destruct (all_ff [b0; b1; b2; b3]); cbn [negb andb]; [|done].
  destruct rest; [done|]. apply IH. cbn in *. lia.
Qed.

Lemma mtd_buf_all_ff_spec addr buf :
  mtd_buf_all_ff addr buf = if all_ff buf then 1 else 0.
Proof.
  revert addr. induction buf as [|b rest IH]; intros addr; [done|].
  cbn [mtd_buf_all_ff]. destruct (Z.land addr 3 =? 0); cbn [negb].
  - apply ff_words_spec.
  - rewrite all_ff_cons. destruct (is_ff b); cbn [negb andb]; [|done].
    destruct rest; [done|apply IH].
Qed.

(** ** Erase blocks of a well-behaved chip *)

Section PebOk.
Context {D : Type} (cfg : mtd_config) (m : mtd_info D).
Context (cells : D -> list byte) (bad : D -> Z -> bool) `{!FlashOk m cells bad}.
Context (junk : nat -> list byte) (malloc_addr : Z).
Context (Hcfg : cfg_plain cfg).

(** Contents of block [p]. *)
Definition block (d : D) (p : Z) : list byte :=
  read_at (cells d) (Z.to_nat (p * erasesize m)) (Z.to_nat (erasesize m)).

Definition peb_in (p : Z) : Prop := 0 <= p /\ p * erasesize m < size m.

Lemma peb_in_end p : peb_in p -> p * erasesize m + erasesize m <= size m.
Proof.
  intros [Hp Hlt]. destruct fl_size as [[k Hk] _]. pose proof fl_es as He.
  assert (p < k) by (apply (Z.mul_lt_mono_pos_r (erasesize m)); lia).
  assert ((p + 1) * erasesize m <= k * erasesize m) by (apply Z.mul_le_mono_nonneg_r; lia).
  lia.
Qed.

Lemma peb_valid_in p : peb_in p -> mtd_peb_valid m p = true.
Proof.
  pose proof fl_es. destruct fl_size as [_ Hs]. unfold mtd_peb_valid, peb_in.
  intros [Hp Hlt]. rewrite fl_regions, u64_small by nia. cbn [Z.eqb negb].
  replace (p <? 0) with false by lia.
  by replace (size m <=? p * erasesize m) with false by lia.
Qed.

Lemma peb_is_bad_in d p :
  peb_in p -> mtd_peb_is_bad m d p = if bad d p then 1 else 0.
Proof.
  intros Hp. unfold mtd_peb_is_bad. rewrite peb_valid_in by done. cbn [negb].
  destruct Hp. by apply fl_bad.
Qed.

Lemma length_block d p : peb_in p -> length (block d p) = Z.to_nat (erasesize m).
Proof.
  intros Hp. pose proof (peb_in_end p Hp). pose proof fl_es. destruct Hp.
  apply length_read_at. pose proof (fl_len d). lia.
Qed.

(** The two bound checks shared by reads and writes pass inside a block. *)
Lemma bounds_pass offset len :
  0 <= offset -> 0 <= len -> offset + len <= erasesize m ->
  (offset <? 0) || (erasesize m <? u32 (offset + len)) = false.
Proof.
  pose proof fl_es. intros Ho Hl Hs. rewrite u32_small by lia.
  apply orb_false_iff. lia.
Qed.

Lemma emulate_off var d : mtd_peb_emulate cfg m var d = (false, d).
Proof. destruct Hcfg as [_ Hd]. unfold mtd_peb_emulate. by rewrite Hd. Qed.

Lemma chk_io_off : mtd_peb_chk_io cfg = false.
Proof. destruct Hcfg as [_ Hd]. unfold mtd_peb_chk_io. by rewrite Hd. Qed.

Lemma mtd_read_ok d from buf :
  0 <= from -> buf <> [] -> from + Z.of_nat (length buf) <= size m ->
  exists d', mtd_read m d from (Z.of_nat (length buf)) buf =
      (0, Z.of_nat (length buf), read_at (cells d) (Z.to_nat from) (length buf), d')
    /\ cells d' = cells d /\ bad d' = bad d.
Proof.
  intros Hf Hb Hs. destruct fl_read as (f & Hdrv & Hread).
  destruct (Hread d from buf Hf Hb Hs) as (rc & d' & E & Hrc & Hecc & Hc & Hbad).
  exists d'. split; [|done].
  assert (length buf <> 0%nat) by (by destruct buf).
  unfold mtd_read, mtd_read_oob. rewrite Hdrv, E.
  replace ((from <? 0) || (size m <=? from) || (size m - from <? Z.of_nat (length buf)))
    with false by lia.
  replace (Z.of_nat (length buf) =? 0) with false by lia.
  replace (rc <? 0) with false by lia.
  destruct (ecc_strength m =? 0) eqn:E1; [done|]. bool_prop.
  destruct Hecc as [?|?]; [done|]. by replace (bitflip_threshold m <=? rc) with false by lia.
Qed.

Lemma length_corrupt_first buf : length (corrupt_first buf) = length buf.
Proof. by destruct buf. Qed.

Lemma peb_read_ok d buf p offset :
  peb_in p -> bad d p = false -> 0 <= offset -> buf <> [] ->
  offset + Z.of_nat (length buf) <= erasesize m ->
  exists d', mtd_peb_read cfg m d buf p offset (Z.of_nat (length buf)) =
      (0, read_at (block d p) (Z.to_nat offset) (length buf), d')
    /\ cells d' = cells d /\ bad d' = bad d.
Proof.
  intros Hp Hgood Ho Hb Hs. pose proof (peb_in_end p Hp) as Hend. pose proof fl_es.
  assert (length buf <> 0%nat) by (by destruct buf).
  unfold mtd_peb_read. rewrite peb_valid_in by done.
  rewrite bounds_pass by lia. rewrite peb_is_bad_in, Hgood by done.
  replace (Z.of_nat (length buf) <? 0) with false by lia.
  replace (Z.of_nat (length buf) =? 0) with false by lia. cbn [negb].
  assert (Hc : corrupt_first buf <> []) by (by destruct buf).
  destruct (mtd_read_ok d (p * erasesize m + offset) (corrupt_first buf))
    as (d' & E & Hcell & Hbad);
    [destruct Hp; nia|done|rewrite length_corrupt_first; lia|].
  rewrite length_corrupt_first in E.
  exists d'. split; [|done]. cbn [mtd_peb_read_retry MTD_IO_RETRIES].
  rewrite E. cbn [Z.eqb negb]. rewrite Z.eqb_refl. cbn [negb].
  unfold mtd_peb_emulate_bitflip. rewrite emulate_off. do 2 f_equal.
  unfold block, read_at. rewrite skipn_firstn_comm, drop_drop, take_take.
  f_equal; [lia|]. f_equal. destruct Hp. lia.
Qed.

Lemma to_nat_block p offset :
  peb_in p -> 0 <= offset ->
  Z.to_nat (p * erasesize m + offset) =
  (Z.to_nat (p * erasesize m) + Z.to_nat offset)%nat.
Proof. intros [Hp _] Ho. pose proof fl_es. apply Z2Nat.inj_add; nia. Qed.

Lemma block_fits d p :
  peb_in p ->
  (Z.to_nat (p * erasesize m) + Z.to_nat (erasesize m) <= length (cells d))%nat.
Proof.
  intros Hp. pose proof (peb_in_end p Hp). pose proof fl_es. pose proof (fl_len d).
  destruct Hp. lia.
Qed.

(** Effect on the blocks of a write that stays inside block [p]. *)
Lemma block_write_same d d' p offset data :
  peb_in p -> 0 <= offset -> offset + Z.of_nat (length data) <= erasesize m ->
  cells d' = write_at (cells d) (Z.to_nat (p * erasesize m + offset)) data ->
  block d' p = write_at (block d p) (Z.to_nat offset) data.
Proof.
  intros Hp Ho Hs Hc. unfold block. rewrite Hc, to_nat_block by done.
  apply read_at_write_at_window; [lia|by apply block_fits].
Qed.

Lemma block_write_other d d' p q offset data :
  peb_in p -> peb_in q -> p <> q ->
  0 <= offset -> offset + Z.of_nat (length data) <= erasesize m ->
  cells d' = write_at (cells d) (Z.to_nat (p * erasesize m + offset)) data ->
  block d' q = block d q.
Proof.
  intros Hp Hq Hne Ho Hs Hc. unfold block.
  rewrite Hc, to_nat_block by done.
  pose proof (block_fits d p Hp). pose proof (block_fits d q Hq). pose proof fl_es.
  destruct Hp, Hq. destruct (decide (q < p)).
  - assert ((q + 1) * erasesize m <= p * erasesize m) by (apply Z.mul_le_mono_nonneg_r; lia).
    apply read_write_at_before; lia.
  - assert ((p + 1) * erasesize m <= q * erasesize m) by (apply Z.mul_le_mono_nonneg_r; lia).
    apply read_write_at_after; lia.
Qed.

Lemma peb_write_ok d buf p offset :
  peb_in p -> bad d p = false -> 0 <= offset ->
  offset + Z.of_nat (length buf) <= erasesize m ->
  (Z.shiftr (writesize m) (subpage_sft m) | Z.of_nat (length buf)) ->
  all_ff (read_at (block d p) (Z.to_nat offset) (length buf)) = true ->
  exists d', mtd_peb_write cfg m junk malloc_addr d buf p offset = (0, d')
    /\ block d' p = write_at (block d p) (Z.to_nat offset) buf
    /\ (forall q, peb_in q -> q <> p -> block d' q = block d q)
    /\ bad d' = bad d.
Proof.
  intros Hp Hgood Ho Hs Hdiv Hff. pose proof (peb_in_end p Hp) as Hend. pose proof fl_es.
  unfold mtd_peb_write. rewrite peb_valid_in by done. rewrite bounds_pass by lia.
  rewrite peb_is_bad_in, Hgood by done.
  destruct fl_page as [Hpg _].
  apply Z.mod_divide in Hdiv; [|lia]. rewrite Hdiv. cbn [negb Z.eqb].
  destruct (Z.of_nat (length buf) =? 0) eqn:E0; bool_prop.
  { assert (buf = []) as -> by (by apply length_zero_iff_nil; lia).
    exists d. split; [done|]. split; [|done].
    rewrite write_at_inside by (rewrite length_block by done; cbn; lia).
    cbn [length app]. by rewrite Nat.add_0_r, take_drop. }
  unfold mtd_peb_emulate_write_failure. rewrite emulate_off, chk_io_off. cbn [negb Z.eqb].
  destruct fl_write as (f & Hdrv & Hwrite).
  destruct (Hwrite d (p * erasesize m + offset) buf) as (d' & E & Hc & Hbad);
    [destruct Hp; nia|lia| |].
  { rewrite to_nat_block by done. unfold block in Hff.
    by rewrite read_at_read_at in Hff by lia. }
  exists d'. unfold mtd_write, mtd_write_oob. rewrite fl_rw, Hdrv, E. cbn [negb].
  replace ((p * erasesize m + offset <? 0) || (size m <=? p * erasesize m + offset) ||
    (size m - (p * erasesize m + offset) <? Z.of_nat (length buf))) with false
    by (destruct Hp; nia).
  replace (Z.of_nat (length buf) =? 0) with false by lia.
  cbn [Z.eqb negb]. rewrite Z.eqb_refl. cbn [negb andb Z.eqb].
  split; [done|]. split; [by eapply block_write_same|]. split; [|done].
  intros q Hq Hne. by eapply (block_write_other d d' p q).
Qed.

Lemma peb_erase_ok d p :
  peb_in p -> bad d p = false ->
  exists d', mtd_peb_erase cfg m junk malloc_addr d p = (0, d')
    /\ block d' p = replicate (Z.to_nat (erasesize m)) Init.Byte.xff
    /\ (forall q, peb_in q -> q <> p -> block d' q = block d q)
    /\ bad d' = bad d.
Proof.
  intros Hp Hgood. pose proof (peb_in_end p Hp) as Hend. pose proof fl_es.
  destruct Hcfg as [Hw Hd]. unfold mtd_peb_erase. rewrite peb_valid_in by done.
  cbn [negb].
  destruct (fl_erase d p) as (d' & E & Hc & Hbad); [by destruct Hp..|done|].
  assert (Hlen : Z.of_nat (length (replicate (Z.to_nat (erasesize m)) Init.Byte.xff))
                 = erasesize m) by (rewrite length_replicate; lia).
  rewrite <- (Z.add_0_r (p * erasesize m)) in Hc.
  set (ffs := replicate (Z.to_nat (erasesize m)) Init.Byte.xff) in *.
  exists d'. unfold mtd_erase. rewrite Hw, fl_rw, E. cbn [negb].
  replace ((size m <=? p * erasesize m) || (size m - p * erasesize m <? erasesize m))
    with false by (destruct Hp; lia).
  replace (erasesize m =? 0) with false by lia. cbn [Z.eqb negb].
  rewrite chk_io_off. unfold mtd_peb_emulate_erase_failure. rewrite emulate_off.
  split; [done|]. split.
  - rewrite (block_write_same d d' p 0 ffs Hp) by (exact Hc || lia).
    apply write_at_full. rewrite length_block by done. lia.
  - split; [|done]. intros q Hq Hne.
    apply (block_write_other d d' p q 0 ffs Hp Hq); (exact Hc || lia || auto).
Qed.

(** ** Skipping bad blocks *)

(** Block numbers that may be looked at: inside the chip or one past it. *)
Definition peb_bound (p : Z) : Prop := 0 <= p /\ p * erasesize m <= size m.

Lemma peb_bound_step p : peb_in p -> peb_bound (p + 1).
Proof. intros Hp. pose proof (peb_in_end p Hp). destruct Hp. split; lia. Qed.

Lemma peb_bound_cases p :
  peb_bound p -> (size m <=? u64 (p * erasesize m)) = false -> peb_in p.
Proof.
  intros [Hp Hs] E. destruct fl_size as [_ Hsz]. pose proof fl_es.
  rewrite u64_small in E by nia. split; lia.
Qed.

Lemma skip_bad_loop_spec fuel d p :
  peb_bound p -> (Z.to_nat (size m / erasesize m - p) < fuel)%nat ->
  exists r q, mtd_skip_bad_loop m fuel d p = Some (r, q) /\ p <= q
    /\ (forall k, p <= k < q -> bad d k = true)
    /\ (r = 0 /\ peb_in q /\ bad d q = false \/ r = - ENOSPC /\ ~ peb_in q).
Proof.
  pose proof fl_es as He.
  revert p. induction fuel as [|fuel IH]; intros p Hb Hf; [lia|].
  cbn [mtd_skip_bad_loop]. rewrite (Z.mul_comm (erasesize m) p).
  destruct (size m <=? p * erasesize m) eqn:E; bool_prop.
  { exists (- ENOSPC), p. split_and!; [done|lia|lia|]. right. split; [done|].
    unfold peb_in. lia. }
  assert (Hp : peb_in p) by (destruct Hb; split; lia).
  assert (Hlt : p < size m / erasesize m).
  { pose proof (peb_in_end p Hp).
    assert (p + 1 <= size m / erasesize m) by (apply Z.div_le_lower_bound; lia). lia. }
  destruct Hp as [Hp0 Hp1]. rewrite fl_bad by done.
  destruct (bad d p) eqn:Hbad; cbn [Z.eqb].
  - destruct (IH (p + 1)) as (r & q & Heq & Hle & Hall & Hres);
      [by apply peb_bound_step|lia|].
    exists r, q. split_and!; [done|lia| |done].
    intros k Hk. destruct (decide (k = p)) as [->|]; [done|apply Hall; lia].
  - exists 0, p. split_and!; [done|lia|lia|]. left. done.
Qed.

(** ** File transfers over bad blocks *)

(** Two devices that agree on everything from block [p] on. *)
Definition agree_from (p : Z) (d e : D) : Prop :=
  bad e = bad d /\ forall q, peb_in q -> p <= q -> block e q = block d q.

Lemma agree_from_cells p d e e' :
  agree_from p d e -> cells e' = cells e -> bad e' = bad e -> agree_from (p + 1) d e'.
Proof.
  intros [Hb Hc] E1 E2. split; [congruence|]. intros q Hq Hle.
  unfold block. rewrite E1. apply Hc; [done|lia].
Qed.

Lemma write_file_fits_ext fuel start max d e p left :
  peb_bound p -> bad e = bad d ->
  write_file_fits m fuel e start max p left = write_file_fits m fuel d start max p left.
Proof.
  intros Hp Hbad. revert p left Hp. induction fuel as [|fuel IH]; intros p left Hp; [done|].
  cbn [write_file_fits]. destruct (size m <=? u64 _) eqn:E1; [done|].
  pose proof (peb_bound_cases p Hp E1) as Hin.
  rewrite !peb_is_bad_in by done. rewrite Hbad.
  pose proof (peb_bound_step p Hin).
  destruct (start + max <=? p); [done|]. destruct (bad d p); cbn [negb Z.eqb].
  - by apply IH.
  - destruct (left <=? erasesize m); [done|]. by apply IH.
Qed.

(** Erase and program one whole block. *)
Lemma write_one_block d p data :
  peb_in p -> bad d p = false -> length data = Z.to_nat (erasesize m) ->
  exists d1 d2, mtd_peb_erase cfg m junk malloc_addr d p = (0, d1)
    /\ mtd_peb_write cfg m junk malloc_addr d1 data p 0 = (0, d2)
    /\ block d2 p = data /\ bad d2 = bad d
    /\ (forall q, peb_in q -> q <> p -> block d2 q = block d q).
Proof.
  intros Hp Hgood Hlen. pose proof fl_es as He. destruct fl_page as [_ Hdiv].
  destruct (peb_erase_ok d p Hp Hgood) as (d1 & E1 & Hb1 & Hf1 & Hbad1).
  destruct (peb_write_ok d1 data p 0) as (d2 & E2 & Hb2 & Hf2 & Hbad2);
    [done|by rewrite Hbad1|lia|lia| | |].
  { by replace (Z.of_nat (length data)) with (erasesize m) by lia. }
  { rewrite Hb1. apply all_ff_read_at, all_ff_replicate. }
  exists d1, d2. split_and!; [done|done| |congruence|].
  - rewrite Hb2, Hb1. apply write_at_full. by rewrite length_replicate.
  - intros q Hq Hne. rewrite Hf2, Hf1 by done. done.
Qed.

(** Read back the leading [now] bytes of one block. *)
Lemma read_one_block d p now :
  (forall n, length (junk n) = n) ->
  peb_in p -> bad d p = false -> 0 < now <= erasesize m ->
  exists d', mtd_peb_read cfg m d (junk (Z.to_nat now)) p 0 now =
      (0, take (Z.to_nat now) (block d p), d') /\ cells d' = cells d /\ bad d' = bad d.
Proof.
  intros Hj Hp Hgood Hn.
  destruct (peb_read_ok d (junk (Z.to_nat now)) p 0) as (d' & E & Hc & Hb);
    [done|done|lia| |rewrite Hj; lia|].
  { intros Hnil. pose proof (Hj (Z.to_nat now)) as Hl. rewrite Hnil in Hl. cbn in Hl. lia. }
  rewrite Hj, Z2Nat.id in E by lia. by exists d'.
Qed.

(** The file [buf] was written from block [p] on, which took [d] to [d'], and
    can be read back with blocks up to [hi]. *)
Definition file_written (fuel : nat) (hi : Z) (d : D) (p : Z) (buf : list byte) (d' : D) : Prop :=
  (forall fuel2, (fuel < fuel2)%nat ->
     write_file_blocks cfg m junk malloc_addr fuel2 d p buf = Some (0, d'))
  /\ (forall q, peb_in q -> q < p -> block d' q = block d q) /\ bad d' = bad d
  /\ (forall fuel3 last e, (fuel < fuel3)%nat -> hi <= last -> agree_from p d' e ->
       exists e', mtd_peb_read_file cfg m junk fuel3 e p last (Z.of_nat (length buf))
                  = Some (0, buf, e')).

Lemma file_written_nil fuel hi d p : file_written fuel hi d p [] d.
Proof.
  split_and!; [intros [|f2] Hf2; [lia|done]|done|done|].
  intros [|f3] last e Hf3 _ _; [lia|]. by exists e.
Qed.

(** A bad block is skipped on both ways. *)
Lemma file_written_bad fuel hi d p buf d' :
  peb_in p -> p <= hi -> bad d p = true ->
  file_written fuel hi d (p + 1) buf d' -> file_written (S fuel) hi d p buf d'.
Proof.
  intros Hp Hhi Hbad (Hw & Hfr & Hbd & Hr). destruct buf as [|b0 buf].
  { pose proof (Hw (S fuel) ltac:(lia)) as Heq. cbn in Heq. simplify_eq. apply file_written_nil. }
  split_and!; [|intros q Hq Hlt; apply Hfr; [done|lia]|done|].
  - intros [|f2] Hf2; [lia|]. cbn [write_file_blocks].
    rewrite peb_is_bad_in, Hbad by done. apply Hw. lia.
  - intros [|f3] last e Hf3 Hl Hag; [lia|].
    destruct (Hr f3 last e) as (e' & Hrd); [lia|lia|by eapply agree_from_cells|].
    exists e'. cbn [mtd_peb_read_file].
    assert (Hpos : 0 < Z.of_nat (length (b0 :: buf))) by (rewrite length_cons; lia).
    replace (Z.of_nat (length (b0 :: buf)) =? 0) with false by lia.
    replace (last <? p) with false by lia.
    rewrite peb_is_bad_in by done. destruct Hag as [Heb _]. by rewrite Heb, Hbd, Hbad.
Qed.

(** What a block holds of the file, behind its padding. *)
Definition file_block (buf : list byte) : list byte :=
  let es := Z.to_nat (erasesize m) in
  take es buf ++ replicate (es - length (take es buf)) Init.Byte.x00.

Lemma file_block_data buf :
  let es := Z.to_nat (erasesize m) in
  take (Z.to_nat (Z.min (erasesize m) (Z.of_nat (length buf)))) (file_block buf) ++ drop es buf = buf.
Proof.
  pose proof fl_es as He. cbn zeta. set (es := Z.to_nat (erasesize m)).
  rewrite <- (take_drop es buf) at 4. f_equal.
  unfold file_block. fold es. rewrite take_app_le by (rewrite length_take; lia).
  rewrite take_take. destruct (decide (length buf <= es)%nat).
  - by rewrite !take_ge by lia.
  - f_equal. lia.
Qed.

Lemma file_written_good fuel hi d d1 d2 p buf d' :
  let es := Z.to_nat (erasesize m) in
  (forall n, length (junk n) = n) ->
  peb_in p -> p <= hi -> bad d p = false -> buf <> [] ->
  mtd_peb_erase cfg m junk malloc_addr d p = (0, d1) ->
  mtd_peb_write cfg m junk malloc_addr d1 (file_block buf) p 0 = (0, d2) ->
  block d2 p = file_block buf -> bad d2 = bad d ->
  (forall q, peb_in q -> q <> p -> block d2 q = block d q) ->
  file_written fuel hi d2 (p + 1) (drop es buf) d' -> file_written (S fuel) hi d p buf d'.
Proof.
  intros es Hj Hp Hhi Hbad Hne Er Ew Hbk Hbd2 Hoth (Hw & Hfr & Hbd & Hr). pose proof fl_es as He.
  assert (Hpos : 0 < Z.of_nat (length buf)) by (destruct buf; [done|cbn; lia]).
  split_and!; [| |congruence|].
  - intros [|f2] Hf2; [lia|]. cbn [write_file_blocks]. destruct buf as [|b0 buf]; [done|].
    rewrite peb_is_bad_in, Hbad by done. cbn [negb Z.eqb]. rewrite Er. cbn [negb Z.eqb].
    unfold file_block in Ew. rewrite Ew. cbn [negb Z.eqb]. apply Hw. lia.
  - intros q Hq Hlt. rewrite Hfr, Hoth by (done || lia). done.
  - intros [|f3] last e Hf3 Hl [Heb Hec]; [lia|].
    destruct (read_one_block e p (Z.min (erasesize m) (Z.of_nat (length buf))))
      as (e1 & Erd & Hce & Hbe); [done|done|by rewrite Heb, Hbd, Hbd2|lia|].
    destruct (Hr f3 last e1) as (e' & Hrd); [lia|lia|by eapply agree_from_cells|].
    exists e'. cbn [mtd_peb_read_file].
    replace (Z.of_nat (length buf) =? 0) with false by lia.
    replace (last <? p) with false by lia.
    rewrite peb_is_bad_in by done. rewrite Heb, Hbd, Hbd2, Hbad. cbn [negb Z.eqb].
    rewrite Erd. cbn [negb Z.eqb].
    replace (Z.of_nat (length buf) - Z.min (erasesize m) (Z.of_nat (length buf)))
      with (Z.of_nat (length (drop es buf))) by (rewrite length_drop; lia).
    rewrite Hrd, Hec, Hfr, Hbk by (done || lia). do 4 f_equal. apply file_block_data.
Qed.

Lemma write_file_main fuel start max :
  (forall n, length (junk n) = n) ->
  forall d p buf, peb_bound p ->
  write_file_fits m fuel d start max p (Z.of_nat (length buf)) = Some 0 ->
  exists d', file_written fuel (start + max - 1) d p buf d'.
Proof.
  intros Hj. pose proof fl_es as He.
  induction fuel as [|fuel IH]; intros d p buf Hb Hfit; [done|].
  cbn [write_file_fits] in Hfit.
  destruct (size m <=? u64 _) eqn:E1; [done|].
  pose proof (peb_bound_cases p Hb E1) as Hp. pose proof (peb_bound_step p Hp) as Hb1.
  destruct (start + max <=? p) eqn:E2; [done|]. bool_prop.
  rewrite peb_is_bad_in in Hfit by done.
  destruct (decide (buf = [])) as [->|Hne]; [exists d; apply file_written_nil|].
  destruct (bad d p) eqn:Hbad; cbn [Z.eqb negb] in Hfit.
  { destruct (IH d (p + 1) buf Hb1 Hfit) as [d' H]. exists d'.
    apply file_written_bad; [done|lia|done|done]. }
  destruct (write_one_block d p (file_block buf) Hp Hbad) as (d1 & d2 & Er & Ew & Hbk & Hbd2 & Hoth).
  { unfold file_block. rewrite length_app, length_replicate, length_take. lia. }
  assert (Hrest : exists d',
    file_written fuel (start + max - 1) d2 (p + 1) (drop (Z.to_nat (erasesize m)) buf) d').
  { destruct (Z.of_nat (length buf) <=? erasesize m) eqn:E3; bool_prop.
    - rewrite drop_ge by lia. exists d2. apply file_written_nil.
    - apply IH; [done|]. rewrite length_drop.
      replace (Z.of_nat (length buf - _)) with (Z.of_nat (length buf) - erasesize m) by lia.
      by rewrite (write_file_fits_ext _ _ _ d d2) by done. }
  destruct Hrest as [d' H]. exists d'. eapply file_written_good; try done. lia.
Qed.

Lemma write_file_fits_total fuel start max d p left :
  peb_bound p -> (Z.to_nat (size m / erasesize m - p) < fuel)%nat ->
  exists r, write_file_fits m fuel d start max p left = Some r /\ (r = 0 \/ r = - ENOSPC).
Proof.
  pose proof fl_es as He.
  revert p left. induction fuel as [|fuel IH]; intros p left Hb Hf; [lia|].
  cbn [write_file_fits]. destruct (size m <=? u64 _) eqn:E1; [by eauto|].
  pose proof (peb_bound_cases p Hb E1) as Hp. pose proof (peb_in_end p Hp).
  assert (p + 1 <= size m / erasesize m) by (apply Z.div_le_lower_bound; lia).
  destruct (start + max <=? p); [by eauto|].
  destruct (negb _); [apply IH; [by apply peb_bound_step|lia]|].
  destruct (left <=? erasesize m); [by eauto|].
  apply IH; [by apply peb_bound_step|lia].
Qed.

Lemma write_file_fits_mono fuel start max d p left r :
  write_file_fits m fuel d start max p left = Some r ->
  write_file_fits m (S fuel) d start max p left = Some r.
Proof.
  revert p left. induction fuel as [|fuel IH]; intros p left; [done|].
  intros H. cbn [write_file_fits] in H. revert H.
  change (write_file_fits m (S (S fuel)) d start max p left) with
    (if size m <=? u64 (p * erasesize m) then Some (- ENOSPC)
     else if start + max <=? p then Some (- ENOSPC)
     else if negb (mtd_peb_is_bad m d p =? 0)
     then write_file_fits m (S fuel) d start max (p + 1) left
     else if left <=? erasesize m then Some 0
     else write_file_fits m (S fuel) d start max (p + 1) (left - erasesize m)).
  repeat case_match; auto.
Qed.

(** ** Torture test *)

Lemma peb_verify_ok d p data :
  (forall n, length (junk n) = n) ->
  peb_in p -> length data = Z.to_nat (erasesize m) -> block d p = data ->
  exists d', mtd_peb_verify m junk d data p 0 = (0, d') /\ cells d' = cells d /\ bad d' = bad d.
Proof.
  intros Hj Hp Hl Hbk. pose proof fl_es. pose proof (peb_in_end p Hp).
  destruct (mtd_read_ok d (p * erasesize m + 0) (junk (length data)))
    as (d' & E & Hc & Hb); [destruct Hp; nia| |rewrite Hj; lia|].
  { intros Hnil. pose proof (Hj (length data)) as Hl2. rewrite Hnil in Hl2.
    cbn in Hl2. lia. }
  exists d'. split; [|done]. rewrite Hj in E. unfold mtd_peb_verify. rewrite E.
  cbn [Z.eqb negb andb]. rewrite Z.add_0_r, Hl.
  change (read_at (cells d) (Z.to_nat (p * erasesize m)) (Z.to_nat (erasesize m)))
    with (block d p). rewrite Hbk. by rewrite bool_decide_eq_true_2.
Qed.

Lemma check_all_ff_ok d p len :
  (forall n, length (junk n) = n) ->
  peb_in p -> bad d p = false -> 0 < len <= erasesize m -> all_ff (block d p) = true ->
  exists d', mtd_peb_check_all_ff cfg m junk malloc_addr d p 0 len = (0, d')
    /\ cells d' = cells d /\ bad d' = bad d.
Proof.
  intros Hj Hp Hg Hl Hff.
  destruct (read_one_block d p len Hj Hp Hg Hl) as (d' & E & Hc & Hb).
  exists d'. split; [|done]. unfold mtd_peb_check_all_ff. rewrite E.
  cbn [Z.eqb negb andb]. rewrite mtd_buf_all_ff_spec.
  by rewrite (all_ff_read_at (block d p) 0 _ Hff : all_ff (take _ _) = true).
Qed.

Lemma torture_patterns_ok ps d p :
  (forall n, length (junk n) = n) -> peb_in p -> bad d p = false ->
  exists d', torture_patterns cfg m junk malloc_addr ps d p = (0, d') /\ bad d' = bad d
    /\ (forall q, peb_in q -> q <> p -> block d' q = block d q).
Proof.
  intros Hj Hp. pose proof fl_es. pose proof fl_ws.
  revert d. induction ps as [|pat ps IH]; intros d Hg; [by exists d|].
  set (data := replicate (Z.to_nat (erasesize m)) (byte_of pat)).
  assert (Hlen : length data = Z.to_nat (erasesize m)) by apply length_replicate.
  destruct (peb_erase_ok d p Hp Hg) as (d1 & E1 & Hb1 & Hf1 & Hbad1).
  destruct (check_all_ff_ok d1 p (writesize m) Hj Hp) as (d2 & E2 & Hc2 & Hbad2);
    [by rewrite Hbad1|lia|by rewrite Hb1; apply all_ff_replicate|].
  destruct (peb_write_ok d2 data p 0) as (d3 & E3 & Hb3 & Hf3 & Hbad3);
    [done|by rewrite Hbad2, Hbad1|lia|lia| | |].
  { destruct fl_page as [_ Hdiv]. by replace (Z.of_nat (length data)) with (erasesize m) by lia. }
  { unfold block. rewrite Hc2. fold (block d1 p). rewrite Hb1.
    apply all_ff_read_at, all_ff_replicate. }
  destruct (peb_verify_ok d3 p data Hj Hp Hlen) as (d4 & E4 & Hc4 & Hbad4).
  { rewrite Hb3. apply write_at_full. rewrite length_block by done. lia. }
  destruct (IH d4) as (d' & E & Hbad' & Hf'); [congruence|].
  exists d'. split_and!; [|congruence|].
  - cbn [torture_patterns]. rewrite E1. cbn [Z.eqb negb]. rewrite E2. cbn [Z.eqb negb].
    fold data. rewrite E3. cbn [Z.eqb negb]. rewrite E4. cbn [Z.eqb negb]. done.
  - intros q Hq Hne. rewrite Hf' by done. unfold block at 1. rewrite Hc4.
    fold (block d3 q). rewrite Hf3 by done. unfold block at 1. rewrite Hc2.
    fold (block d1 q). by apply Hf1.
Qed.

Lemma torture_ok d p :
  (forall n, length (junk n) = n) -> peb_in p -> bad d p = false ->
  exists d', mtd_peb_torture cfg m junk malloc_addr d p = (4, d')
    /\ block d' p = replicate (Z.to_nat (erasesize m)) Init.Byte.xff
    /\ (forall q, peb_in q -> q <> p -> block d' q = block d q) /\ bad d' = bad d.
Proof.
  intros Hj Hp Hg.
  destruct (torture_patterns_ok patterns d p Hj Hp Hg) as (d1 & E1 & Hbad1 & Hf1).
  destruct (peb_erase_ok d1 p Hp) as (d2 & E2 & Hb2 & Hf2 & Hbad2); [by rewrite Hbad1|].
  exists d2. unfold mtd_peb_torture. rewrite peb_valid_in by done. cbn [negb].
  rewrite E1. cbn [Z.eqb negb]. rewrite E2. cbn [Z.eqb negb].
  split_and!; [done|done| |congruence]. intros q Hq Hne. by rewrite Hf2, Hf1.
Qed.

End PebOk.

(** ** A concrete chip

    Cells, and the offsets of the blocks marked bad.  Programming can only
    clear bits, as on real flash. *)

Record nand := NandChip { nand_raw : list byte; nand_bad : list Z }.

Section Nand.
Context (nblocks es ws : nat).

Definition nand_cells (d : nand) : list byte :=
  take (nblocks * es) (nand_raw d ++ replicate (nblocks * es) Init.Byte.xff).

Definition nand_isbad (d : nand) (p : Z) : bool := bool_decide (p ∈ nand_bad d).

Definition nand_set (d : nand) (l : list byte) : nand := NandChip l (nand_bad d).

Definition program (old new : byte) : byte :=
  byte_of (Z.land (byte_val old) (byte_val new)).

Definition nand_info : mtd_info nand := {|
  size := Z.of_nat (nblocks * es);
  erasesize := Z.of_nat es;
  writesize := Z.of_nat ws;
  subpage_sft := 0;
  numeraseregions := 0;
  flag_writeable := true;
  ecc_strength := 0;
  bitflip_threshold := 0;
  _read_oob := None;
  _read := Some (fun d from len buf =>
    (0, len, read_at (nand_cells d) (Z.to_nat from) (Z.to_nat len), d));
  _write_oob := None;
  _write := Some (fun d to buf =>
    let old := read_at (nand_cells d) (Z.to_nat to) (length buf) in
    (0, Z.of_nat (length buf),
     nand_set d (write_at (nand_cells d) (Z.to_nat to) (zip_with program old buf))));
  _erase := (fun d addr len =>
    (0, nand_set d (write_at (nand_cells d) (Z.to_nat addr)
                      (replicate (Z.to_nat len) Init.Byte.xff))));
  _block_isbad := Some (fun d ofs => if nand_isbad d (ofs / Z.of_nat es) then 1 else 0);
  _block_markbad := Some (fun d ofs =>
    (0, NandChip (nand_raw d) (ofs / Z.of_nat es :: nand_bad d)));
  random32 := (fun d => (0, d))
|}.

Lemma length_nand_cells d : length (nand_cells d) = (nblocks * es)%nat.
Proof. unfold nand_cells. rewrite length_take, length_app, length_replicate. lia. Qed.

Lemma nand_cells_set d l :
  length l = (nblocks * es)%nat -> nand_cells (nand_set d l) = l.
Proof.
  intros H. unfold nand_cells, nand_set. cbn [nand_raw].
  rewrite take_app_le by lia. by rewrite take_ge by lia.
Qed.

Lemma program_ff b : program Init.Byte.xff b = b.
Proof.
  unfold program. change (byte_val Init.Byte.xff) with (Z.ones 8).
  rewrite Z.land_comm, Z.land_ones by lia.
  rewrite Z.mod_small by (pose proof (byte_val_range b); lia). apply byte_of_val.
Qed.

Lemma program_all_ff old new :
  length old = length new -> all_ff old = true -> zip_with program old new = new.
Proof.
  rewrite all_ff_spec. revert new.
  induction old as [|o old IH]; intros [|n new] Hl Hff; try done.
  inv Hff. cbn [zip_with]. rewrite program_ff. f_equal. apply IH; [by inv Hl|done].
Qed.

Lemma nand_flash_ok :
  (0 < ws <= es)%nat -> (Z.of_nat ws | Z.of_nat es) ->
  Z.of_nat es < 2 ^ 31 -> Z.of_nat (nblocks * es) < 2 ^ 63 ->
  FlashOk nand_info nand_cells nand_isbad.
Proof.
  intros Hws Hdiv Hes Hsz. split; cbn [size erasesize writesize subpage_sft numeraseregions
    flag_writeable ecc_strength bitflip_threshold nand_info]; try done; try lia.
  - intros d. by rewrite length_nand_cells.
  - split; [exists (Z.of_nat nblocks); lia|done].
  - rewrite Z.shiftr_0_r. split; [lia|done].
  - intros d p Hp Hlt. unfold mtd_block_isbad. cbn [_block_isbad nand_info size].
    assert (0 <= p * Z.of_nat es) by (apply Z.mul_nonneg_nonneg; lia).
    replace (p * Z.of_nat es <? 0) with false by lia.
    rewrite (proj2 (Z.ltb_ge (Z.of_nat (nblocks * es)) (p * Z.of_nat es)))
      by (apply Z.lt_le_incl, Hlt).
    cbn [orb]. by rewrite Z.div_mul by lia.
  - eexists. split; [reflexivity|]. intros d from buf Hf Hne Hs.
    exists 0, d. rewrite Nat2Z.id. split_and!; auto; lia.
  - eexists. split; [reflexivity|]. intros d to buf Ht Hs Hff.
    pose proof (length_nand_cells d) as Hlen.
    eexists. split; [reflexivity|]. split; [|done].
    rewrite program_all_ff; [|apply length_read_at; lia|done].
    apply nand_cells_set. by rewrite length_write_at.
  - intros d p Hp Hlt Hbad. eexists. split; [reflexivity|]. split; [|done].
    apply nand_cells_set. by rewrite length_write_at, length_nand_cells.
Qed.

End Nand.

(** ** Properties *)

Definition malloc_zero (n : nat) : list byte := replicate n Init.Byte.x00.

Lemma length_malloc_zero n : length (malloc_zero n) = n.
Proof. apply length_replicate. Qed.

(** The aligned, word-wise scan [mtd_buf_all_ff] answers 1 exactly when
    every byte of the buffer is 0xff, whatever the alignment of the buffer. *)
Theorem mtd_buf_all_ff_correct addr buf :
  mtd_buf_all_ff addr buf = if all_ff buf then 1 else 0.
Proof. apply mtd_buf_all_ff_spec. Qed.

(** On a well-behaved chip a file written with [mtd_peb_write_file] from
    some block is either refused with -ENOSPC leaving the chip untouched, or
    read back unchanged by [mtd_peb_read_file] from the same block, with bad
    blocks anywhere in between. *)
Theorem mtd_peb_file_roundtrip {D} cfg (m : mtd_info D) cells bad junk maddr
    fuel d start max buf :
  FlashOk m cells bad -> cfg_plain cfg -> (forall n, length (junk n) = n) ->
  0 <= start -> start * erasesize m <= size m ->
  (Z.to_nat (mtd_num_pebs m) + 2 <= fuel)%nat ->
  mtd_peb_write_file cfg m junk maddr fuel d start max buf = Some (- ENOSPC, d) \/
  exists d' d'',
    mtd_peb_write_file cfg m junk maddr fuel d start max buf = Some (0, d') /\
    mtd_peb_read_file cfg m junk fuel d' start (start + max - 1) (Z.of_nat (length buf))
      = Some (0, buf, d'').
Proof.
  intros Hok Hcfg Hj Hs0 Hs1 Hf. unfold mtd_num_pebs in Hf.
  assert (Hb : peb_bound m start) by (split; done).
  destruct (write_file_fits_total m cells bad (fuel - 1) start max d start
    (Z.of_nat (length buf)) Hb) as (r & Hr & Hcase); [lia|].
  pose proof (write_file_fits_mono _ _ _ _ _ _ _ _ Hr) as Hr'.
  replace (S (fuel - 1)) with fuel in Hr' by lia.
  unfold mtd_peb_write_file. rewrite Hr'.
  destruct Hcase as [->| ->]; [right|by left].
  destruct (write_file_main cfg m cells bad junk maddr Hcfg (fuel - 1) start max Hj
    d start buf Hb Hr) as (d' & Hw & _ & _ & Hrd).
  destruct (Hrd fuel (start + max - 1) d') as (d'' & Hread); [lia|lia|done|].
  exists d', d''. split; [|done]. cbn [Z.eqb negb]. apply Hw. lia.
Qed.

Definition demo_cfg : mtd_config := MtdConfig true false 0 0 0 0.

Lemma mtd_peb_file_roundtrip_witness :
  let m := nand_info 4 8 4 in
  let d := NandChip [] [1] in
  let buf := replicate 11 Init.Byte.x07 in
  mtd_peb_write_file demo_cfg m malloc_zero 0 6 d 0 4 buf = Some (- ENOSPC, d) \/
  exists d' d'',
    mtd_peb_write_file demo_cfg m malloc_zero 0 6 d 0 4 buf = Some (0, d') /\
    mtd_peb_read_file demo_cfg m malloc_zero 6 d' 0 (0 + 4 - 1) (Z.of_nat (length buf))
      = Some (0, buf, d'').
Proof.
  apply (mtd_peb_file_roundtrip demo_cfg (nand_info 4 8 4) (nand_cells 4 8) nand_isbad
    malloc_zero 0 6 (NandChip [] [1]) 0 4 (replicate 11 Init.Byte.x07)).
  - apply nand_flash_ok; [lia|exists 2; reflexivity|reflexivity|reflexivity].
  - split; reflexivity.
  - exact length_malloc_zero.
  - lia.
  - vm_compute. discriminate.
  - vm_compute. lia.
Defined.

(** A block that a well-behaved chip does not consider bad passes the
    torture test: the result is the number of erase cycles, the block is left
    erased and no other block changes. *)
Theorem mtd_peb_torture_passes {D} cfg (m : mtd_info D) cells bad junk maddr d p :
  FlashOk m cells bad -> cfg_plain cfg -> (forall n, length (junk n) = n) ->
  0 <= p -> p * erasesize m < size m -> bad d p = false ->
  exists d', mtd_peb_torture cfg m junk maddr d p = (4, d')
    /\ all_ff (block m cells d' p) = true
    /\ (forall q, 0 <= q -> q * erasesize m < size m -> q <> p ->
         block m cells d' q = block m cells d q).
Proof.
  intros Hok Hcfg Hj Hp0 Hp1 Hg.
  destruct (torture_ok cfg m cells bad junk maddr Hcfg d p Hj (conj Hp0 Hp1) Hg)
    as (d' & E & Hb & Hf & _).
  exists d'. split_and!; [done|by rewrite Hb; apply all_ff_replicate|].
  intros q Hq0 Hq1 Hne. by apply Hf.
Qed.

Lemma mtd_peb_torture_passes_witness :
  let m := nand_info 2 8 4 in
  let d := NandChip (replicate 16 Init.Byte.x05) [] in
  exists d', mtd_peb_torture demo_cfg m malloc_zero 0 d 1 = (4, d')
    /\ all_ff (block m (nand_cells 2 8) d' 1) = true
    /\ (forall q, 0 <= q -> q * erasesize m < size m -> q <> 1 ->
         block m (nand_cells 2 8) d' q = block m (nand_cells 2 8) d q).
Proof.
  apply (mtd_peb_torture_passes demo_cfg (nand_info 2 8 4) (nand_cells 2 8) nand_isbad
    malloc_zero 0 (NandChip (replicate 16 Init.Byte.x05) []) 1).
  - apply nand_flash_ok; [lia|exists 2; reflexivity|reflexivity|reflexivity].
  - split; reflexivity.
  - exact length_malloc_zero.
  - lia.
  - reflexivity.
  - reflexivity.
Defined.

(** A chip whose erase does nothing: with the debugging check enabled
    [mtd_peb_erase] finds that the block is not erased, and still reports
    success. *)
Example mtd_peb_erase_check_ignored :
  let ok := nand_info 1 8 4 in
  let m := MtdInfo nand (size ok) (erasesize ok) (writesize ok) 0 0 true 0 0
             None (_read ok) None (_write ok) (fun d _ _ => (0, d)) None None
             (fun d => (1, d)) in
  let cfg := MtdConfig true true 1 0 0 0 in
  let d := NandChip (replicate 8 Init.Byte.x00) [] in
  mtd_peb_check_all_ff cfg m malloc_zero 0 d 0 0 8 = (- EBADMSG, d) /\
  mtd_peb_erase cfg m malloc_zero 0 d 0 = (0, d).
Proof. vm_compute. split; reflexivity. Qed.

End Mtd.
