(* ===== verification/Storage.v ===== *)
(** * Redundant storage of the state framework (common/state/backend_storage.c)

    A state is kept in several buckets, each holding one complete copy.  The
    bucket implementations are reached through callbacks; here they are the
    operations of the class [BucketOps] over a device world [W] and a private
    bucket state [B].  The data format is reached through [FormatOps].

    [BucketOk] is the contract a bucket implementation gives on a working
    device; the theorems about redundancy are proved from it and it is
    discharged by the direct and the circular bucket. *)

From stdpp Require Import base list strings.
From Stdlib Require Import ZArith Lia.
From S2P Require Import Prelude.

Module Storage.

(** ** Data *)

(** Outcome of a bucket read: the return code, the allocated buffer with the
    length written to [*len_out] (both untouched when absent), whether the
    bucket found foreign content, and the new device and bucket. *)
Record rd_out (W B : Type) := RdOut {
  rd_ret : Z;
  rd_data : option (list byte * Z);
  rd_wrong_magic : bool;
  rd_w : W;
  rd_b : B
}.
Arguments RdOut {W B} _ _ _ _ _.
Arguments rd_ret {W B} _.
Arguments rd_data {W B} _.
Arguments rd_wrong_magic {W B} _.
Arguments rd_w {W B} _.
Arguments rd_b {W B} _.

Class BucketOps (W B : Type) := {
  bread : W -> B -> rd_out W B;
  bwrite : W -> B -> list byte -> Z * W * B
}.

(** [verify format magic buf len flags]: return code, the length written back
    through [lenp], and the format's own state. *)
Class FormatOps (F : Type) := {
  verify : F -> Z -> list byte -> Z -> Z -> Z * Z * F
}.

(** struct state_backend_storage_bucket; [priv] is the containing structure
    of the implementation. *)
Record bucket (B : Type) := Bucket {
  priv : B;
  num : Z;
  offset : Z;
  buf : option (list byte);
  len : Z;
  needs_refresh : bool;
  wrong_magic : bool
}.
Arguments Bucket {B} _ _ _ _ _ _ _.
Arguments priv {B} _.
Arguments num {B} _.
Arguments offset {B} _.
Arguments buf {B} _.
Arguments len {B} _.
Arguments needs_refresh {B} _.
Arguments wrong_magic {B} _.

Definition set_priv {B} (b : bucket B) (p : B) : bucket B :=
  Bucket p (num b) (offset b) (buf b) (len b) (needs_refresh b) (wrong_magic b).

Definition set_data {B} (b : bucket B) (d : option (list byte)) (n : Z) : bucket B :=
  Bucket (priv b) (num b) (offset b) d n (needs_refresh b) (wrong_magic b).

Definition set_needs_refresh {B} (b : bucket B) (r : bool) : bucket B :=
  Bucket (priv b) (num b) (offset b) (buf b) (len b) r (wrong_magic b).

Definition set_wrong_magic {B} (b : bucket B) (r : bool) : bucket B :=
  Bucket (priv b) (num b) (offset b) (buf b) (len b) (needs_refresh b) r.

(** struct state_backend_storage, without the output device. *)
Record storage (B : Type) := Storage {
  buckets : list (bucket B);
  storage_name : option string;
  stridesize : Z;
  storage_offset : Z;
  max_size : Z;
  path : string;
  readonly : bool
}.
Arguments Storage {B} _ _ _ _ _ _ _.
Arguments buckets {B} _.
Arguments storage_name {B} _.
Arguments stridesize {B} _.
Arguments storage_offset {B} _.
Arguments max_size {B} _.
Arguments path {B} _.
Arguments readonly {B} _.

Definition set_buckets {B} (st : storage B) (bs : list (bucket B)) : storage B :=
  Storage bs (storage_name st) (stridesize st) (storage_offset st) (max_size st)
    (path st) (readonly st).

Definition state_storage_set_readonly {B} (st : storage B) : storage B :=
  Storage (buckets st) (storage_name st) (stridesize st) (storage_offset st)
    (max_size st) (path st) true.

Definition STATE_FLAG_NO_AUTHENTICATION : Z := 1.

Definition min_buckets_written : nat := 1.

Section Ops.
Context {W B F : Type} `{!BucketOps W B} `{!FormatOps F}.

(** ** Writing *)

(** The loop over all buckets, counting the successful writes. *)
Fixpoint write_buckets (w : W) (bs : list (bucket B)) (data : list byte)
  : nat * W * list (bucket B) :=
  match bs with
  | [] => (0%nat, w, [])
  | b :: bs =>
      let '(ret, w, p) := bwrite w (priv b) data in
      let b := set_priv b p in
      let '(n, w, bs) := write_buckets w bs data in
      ((if ret =? 0 then S n else n), w, b :: bs)
  end.

Definition state_storage_write (w : W) (st : storage B) (data : list byte)
  : Z * W * storage B :=
  if readonly st then (0, w, st)
  else
    let '(written, w, bs) := write_buckets w (buckets st) data in
    let st := set_buckets st bs in
    if (min_buckets_written <=? written)%nat then (0, w, st) else (- EIO, w, st).

(** ** Reading *)

(** [memcmp(bucket->buf, buf, len)] on equal lengths. *)
Definition same_prefix (a : option (list byte)) (b : list byte) (n : Z) : bool :=
  match a with
  | Some a => bool_decide (take (Z.to_nat n) a = take (Z.to_nat n) b)
  | None => false
  end.

Definition bucket_refresh (w : W) (b : bucket B) (data : list byte) (n : Z)
  : Z * W * bucket B :=
  if negb (needs_refresh b) && (len b =? n) && same_prefix (buf b) data n then (0, w, b)
  else
    let '(ret, w, p) := bwrite w (priv b) (take (Z.to_nat n) data) in
    let b := set_priv b p in
    (ret, w, if ret =? 0 then set_needs_refresh b false else b).

(** State of the first loop of [state_storage_read]. *)
Record scan := Scan {
  sc_w : W;
  sc_f : F;
  sc_zero : nat;
  sc_used : option nat
}.

(** One round: read the bucket, then verify what was read. *)
Definition scan_one (magic flags : Z) (idx : nat) (s : scan) (b : bucket B)
  : scan * bucket B :=
  let r := bread (sc_w s) (priv b) in
  let b := set_priv b (rd_b r) in
  let b := set_wrong_magic b (wrong_magic b || rd_wrong_magic r) in
  let b := match rd_data r with
           | Some (d, n) => set_data b (Some d) n
           | None => b
           end in
  let s := Scan (rd_w r) (sc_f s) (sc_zero s) (sc_used s) in
  if negb (rd_ret r =? - EUCLEAN) && negb (rd_ret r =? 0) then
    (if rd_ret r =? - ENOMEDIUM
     then Scan (sc_w s) (sc_f s) (S (sc_zero s)) (sc_used s) else s, b)
  else
    let b := if rd_ret r =? - EUCLEAN then set_needs_refresh b true else b in
    let '(ret, n, f) :=
      verify (sc_f s) magic (default [] (buf b)) (len b) flags in
    let b := set_data b (buf b) n in
    if ret =? - ENOMEDIUM then (Scan (sc_w s) f (S (sc_zero s)) (sc_used s), b)
    else if ret =? 0 then
      match sc_used s with
      | None => (Scan (sc_w s) f (sc_zero s) (Some idx), b)
      | Some _ => (Scan (sc_w s) f (sc_zero s) (sc_used s), b)
      end
    else (Scan (sc_w s) f (sc_zero s) (sc_used s), b).

Fixpoint scan_buckets (magic flags : Z) (idx : nat) (s : scan) (bs : list (bucket B))
  : scan * list (bucket B) :=
  match bs with
  | [] => (s, [])
  | b :: bs =>
      let '(s, b) := scan_one magic flags idx s b in
      let '(s, bs) := scan_buckets magic flags (S idx) s bs in
      (s, b :: bs)
  end.

(** Second loop: refresh every bucket but the used one and drop its buffer. *)
Fixpoint refresh_others (w : W) (idx used : nat) (bs : list (bucket B))
    (data : list byte) (n : Z) : W * list (bucket B) :=
  match bs with
  | [] => (w, [])
  | b :: bs =>
      if bool_decide (idx = used) then
        let '(w, bs) := refresh_others w (S idx) used bs data n in (w, b :: bs)
      else
        let '(_, w, b) := bucket_refresh w b data n in
        let b := set_data b None 0 in
        let '(w, bs) := refresh_others w (S idx) used bs data n in (w, b :: bs)
  end.

(** Result: return code, buffer and length handed to the caller. *)
Definition state_storage_read (w : W) (st : storage B) (f : F) (magic flags : Z)
  : res (list byte * Z) * W * storage B * F :=
  let '(s, bs) := scan_buckets magic flags 0 (Scan w f 0 None) (buckets st) in
  match sc_used s with
  | None =>
      (Err (if (sc_zero s =? length (buckets st))%nat then - ENOMEDIUM else - ENOENT),
       sc_w s, set_buckets st bs, sc_f s)
  | Some used =>
      match bs !! used with
      | None => (Err (- ENOENT), sc_w s, set_buckets st bs, sc_f s)
      | Some bu =>
          let data := default [] (buf bu) in
          let n := len bu in
          let '(w, bs) := refresh_others (sc_w s) 0 used bs data n in
          let '(_, w, bu) := bucket_refresh w bu data n in
          (Ok (data, n), w, set_buckets st (<[used := set_data bu None 0]> bs), sc_f s)
      end
  end.

End Ops.
Arguments scan : clear implicits.
Arguments Scan {W F} _ _ _ _.
Arguments sc_w {W F} _.
Arguments sc_f {W F} _.
Arguments sc_zero {W F} _.
Arguments sc_used {W F} _.

(** ** Contracts *)

(** A bucket implementation on a working device.  [V] is the persistent
    contents of the device, [L] the fixed place of a bucket on it.
    [stored v s data]: a bucket opened at [s] delivers a buffer starting with
    [data].  [fresh]: as the bucket is right after it was opened. *)
Class BucketOk (W B V L : Type) `{!BucketOps W B} (view : W -> V) (bstat : B -> L) := {
  bwf : V -> B -> Prop;
  fresh : V -> B -> Prop;
  stored : V -> L -> list byte -> Prop;
  fits : L -> nat -> Prop;
  indep : L -> L -> Prop;
  indep_sym s1 s2 : indep s1 s2 -> indep s2 s1;
  bread_safe w b : bwf (view w) b ->
    view (rd_w (bread w b)) = view w /\
    bstat (rd_b (bread w b)) = bstat b /\
    bwf (view w) (rd_b (bread w b)) /\
    match rd_data (bread w b) with
    | Some (d, n) => 0 <= n <= Z.of_nat (length d) /\
        (rd_ret (bread w b) = 0 \/ rd_ret (bread w b) = - EUCLEAN)
    | None => rd_ret (bread w b) <> 0 /\ rd_ret (bread w b) <> - EUCLEAN
    end;
  bread_gives w b d n k : bwf (view w) b -> fresh (view w) b ->
    rd_ret (bread w b) = 0 -> rd_data (bread w b) = Some (d, n) ->
    Z.of_nat k <= n -> stored (view w) (bstat b) (take k d);
  bread_stored w b data : bwf (view w) b -> fresh (view w) b ->
    stored (view w) (bstat b) data ->
    rd_ret (bread w b) = 0 /\
    exists d n, rd_data (bread w b) = Some (d, n) /\
      Z.of_nat (length data) <= n /\ take (length data) d = data;
  bwrite_ok w b data : bwf (view w) b -> fits (bstat b) (length data) ->
    exists w2 b2, bwrite w b data = (0, w2, b2) /\ bstat b2 = bstat b /\
      bwf (view w2) b2 /\ stored (view w2) (bstat b) data /\
      (forall b', indep (bstat b) (bstat b') -> bwf (view w) b' -> bwf (view w2) b') /\
      (forall s' d, indep (bstat b) s' -> stored (view w) s' d -> stored (view w2) s' d)
}.

(** A format whose verdict depends only on the bytes it reports as used. *)
Class FormatOk (F : Type) `{!FormatOps F} := {
  fok : F -> Prop;
  verify_safe f magic d n flags : fok f -> 0 <= n <= Z.of_nat (length d) ->
    let '(_, n', f') := verify f magic d n flags in fok f' /\ 0 <= n' <= n;
  verify_prefix f g magic flags d n n' f' d2 n2 :
    fok f -> fok g -> 0 <= n <= Z.of_nat (length d) ->
    verify f magic d n flags = (0, n', f') ->
    n' <= n2 <= Z.of_nat (length d2) ->
    take (Z.to_nat n') d2 = take (Z.to_nat n') d ->
    exists g', verify g magic d2 n2 flags = (0, n', g')
}.

Section Redundancy.
Context {W B V L F : Type} `{!BucketOps W B} `{!FormatOps F}.
Context {view : W -> V} {bstat : B -> L}.
Context `{!BucketOk W B V L view bstat} `{!FormatOk F}.

Definition place (b : bucket B) : L := bstat (priv b).

(** What the scan knows about a bucket it has read. *)
Definition scanned (v : V) (b : bucket B) : Prop :=
  bwf v (priv b) /\
  forall d, buf b = Some d ->
    0 <= len b <= Z.of_nat (length d) /\
    (needs_refresh b = false ->
     forall k, Z.of_nat k <= len b -> stored v (place b) (take k d)).

(** A bucket as [state_storage_init] leaves it. *)
Definition opened (v : V) (b : bucket B) : Prop :=
  bwf v (priv b) /\ fresh v (priv b) /\ buf b = None /\ len b = 0 /\
  needs_refresh b = false.

(** Verdict of the format on a bucket after it was scanned. *)
Definition verified (f : F) (magic flags : Z) (b : bucket B) (n : Z) : Prop :=
  exists d n0 f', buf b = Some d /\ 0 <= n0 <= Z.of_nat (length d) /\ len b = n /\
    verify f magic d n0 flags = (0, n, f').

Lemma scan_one_spec magic flags idx s b s' b' :
  opened (view (sc_w s)) b -> fok (sc_f s) ->
  scan_one magic flags idx s b = (s', b') ->
  view (sc_w s') = view (sc_w s) /\ fok (sc_f s') /\ place b' = place b /\
  scanned (view (sc_w s)) b' /\
  (sc_used s' = sc_used s \/
   sc_used s = None /\ sc_used s' = Some idx /\
   verified (sc_f s) magic flags b' (len b')).
Proof.
  intros (Hwf & Hfr & Hbuf & Hlen & Hnr) Hfok.
  pose proof (bread_safe (sc_w s) (priv b) Hwf) as (Hv & Hst & Hwf' & Hdata).
  pose proof (bread_gives (sc_w s) (priv b)) as Hgive.
  unfold scan_one. destruct (bread (sc_w s) (priv b)) as [ret data wm w2 b2] eqn:Eb.
  cbn [rd_ret rd_data rd_wrong_magic rd_w rd_b] in *.
  destruct data as [[d n]|]; cbn [set_data set_wrong_magic set_priv priv buf len default
    set_needs_refresh needs_refresh sc_w sc_f sc_zero sc_used].
  2: { destruct Hdata as [H1 H2].
       replace (ret =? - EUCLEAN) with false by lia. replace (ret =? 0) with false by lia.
       cbn [negb andb]. intros E.
       assert (Hsc : scanned (view (sc_w s))
         (set_wrong_magic (set_priv b b2) (wrong_magic b || wm))).
       { split; [done|]. cbn. intros d Hd. congruence. }
       destruct (ret =? - ENOMEDIUM); inv E; cbn; split_and!; auto. }
  destruct Hdata as [Hn Hret].
  replace (negb (ret =? - EUCLEAN) && negb (ret =? 0)) with false
    by (destruct Hret as [-> | ->]; reflexivity).
  set (bb := if ret =? - EUCLEAN then _ else _).
  assert (Hbb : priv bb = b2 /\ buf bb = Some d /\ len bb = n /\
                needs_refresh bb = (ret =? - EUCLEAN)).
  { subst bb. destruct (ret =? - EUCLEAN); cbn; auto. }
  destruct Hbb as (Hp & Hb & Hl & Hr). rewrite Hb, Hl. cbn [default from_option id].
  pose proof (verify_safe (sc_f s) magic d n flags Hfok Hn) as Hvs.
  destruct (verify (sc_f s) magic d n flags) as [[vret n'] f'] eqn:Ev.
  destruct Hvs as [Hf' Hn'].
  assert (Hsc : scanned (view (sc_w s)) (set_data bb (Some d) n')).
  { unfold scanned, place. cbn. rewrite Hp, Hr. split; [done|]. intros d0 Hd0. inv Hd0.
    split; [lia|]. intros Hnr' k Hk. rewrite Hst.
    apply (Hgive d0 n k Hwf Hfr); [|done|lia].
    destruct Hret as [?| ->]; [done|by cbn in Hnr']. }
  assert (Hpl : place (set_data bb (Some d) n') = place b)
    by (unfold place; cbn; by rewrite Hp).
  intros E. destruct (vret =? - ENOMEDIUM) eqn:E1; [inv E; cbn; split_and!; auto|].
  destruct (vret =? 0) eqn:E2; [|inv E; cbn; split_and!; auto].
  destruct (sc_used s) as [u|] eqn:Eu; inv E; cbn; split_and!; auto. right.
  split_and!; auto. bool_prop. subst vret. exists d, n, f'. split_and!; (done || lia).
Qed.

Lemma scan_buckets_spec magic flags idx s bs s' bs' :
  Forall (opened (view (sc_w s))) bs -> fok (sc_f s) ->
  scan_buckets magic flags idx s bs = (s', bs') ->
  view (sc_w s') = view (sc_w s) /\ fok (sc_f s') /\ map place bs' = map place bs /\
  Forall (scanned (view (sc_w s))) bs' /\
  (sc_used s' = sc_used s \/
   sc_used s = None /\ exists i b' g, sc_used s' = Some (idx + i)%nat /\
     bs' !! i = Some b' /\ fok g /\ verified g magic flags b' (len b')).
Proof.
  revert idx s s' bs'. induction bs as [|b bs IH]; intros idx s s' bs' Ho Hf E.
  { cbn in E. inv E. split_and!; auto. }
  apply Forall_cons in Ho as [Hob Ho]. cbn [scan_buckets] in E.
  destruct (scan_one magic flags idx s b) as [s1 b1] eqn:E1.
  destruct (scan_buckets magic flags (S idx) s1 bs) as [s2 bs2] eqn:E2.
  inv E.
  destruct (scan_one_spec _ _ _ _ _ _ _ Hob Hf E1) as (Hv1 & Hf1 & Hp1 & Hs1 & Hu1).
  rewrite <- Hv1 in Ho.
  destruct (IH _ _ _ _ Ho Hf1 E2) as (Hv2 & Hf2 & Hp2 & Hs2 & Hu2).
  split_and!; [congruence|done|cbn; congruence|constructor; [done|congruence]|].
  destruct Hu1 as [Hu1|(Hn & Hu1 & Hver)].
  - destruct Hu2 as [Hu2|(Hn2 & i & b' & g & Hi & Hb' & Hg & Hver)]; [left; congruence|].
    right. split; [congruence|]. exists (S i), b', g.
    split_and!; [rewrite Hi; f_equal; lia|done|done|done].
  - right. split; [done|]. destruct Hu2 as [Hu2|(Hn2 & _)]; [|congruence].
    exists 0%nat, b1, (sc_f s).
    split_and!; [rewrite Hu2, Hu1; f_equal; lia|done|done|done].
Qed.

(** ** Frames *)

(** Going from [w] to [w'] leaves alone everything independent of [ss]. *)
Definition frame_out (ss : list L) (w w' : W) : Prop :=
  (forall b', Forall (fun s => indep s (bstat b')) ss ->
     bwf (view w) b' -> bwf (view w') b') /\
  (forall s' d, Forall (fun s => indep s s') ss ->
     stored (view w) s' d -> stored (view w') s' d).

Lemma frame_out_refl ss w : frame_out ss w w.
Proof. by split. Qed.

Lemma frame_out_trans ss1 ss2 w1 w2 w3 :
  frame_out ss1 w1 w2 -> frame_out ss2 w2 w3 -> frame_out (ss1 ++ ss2) w1 w3.
Proof.
  intros [H1 H1'] [H2 H2'].
  split; [intros b' Hs Hb|intros s' d Hs Hd]; apply Forall_app in Hs as [Ha Hb2]; auto.
Qed.

Lemma frame_out_cons s ss w w' : frame_out ss w w' -> frame_out (s :: ss) w w'.
Proof.
  intros [H1 H2]. split; [intros b' Hs Hb|intros s' d Hs Hd];
    apply Forall_cons in Hs as [_ Hs]; auto.
Qed.

Lemma scanned_frame ss w w' b :
  frame_out ss w w' -> Forall (fun s => indep s (place b)) ss ->
  scanned (view w) b -> scanned (view w') b.
Proof.
  intros [H1 H2] Hi [Hw Hd]. split; [by apply H1|].
  intros d Hb. destruct (Hd d Hb) as [Hl Hst]. split; [done|].
  intros Hnr k Hk. by apply H2, Hst.
Qed.

(** ** Refreshing *)

Lemma bucket_refresh_ok w b data n ret w' b' :
  scanned (view w) b -> 0 <= n <= Z.of_nat (length data) ->
  fits (place b) (Z.to_nat n) ->
  bucket_refresh w b data n = (ret, w', b') ->
  place b' = place b /\ stored (view w') (place b) (take (Z.to_nat n) data) /\
  frame_out [place b] w w'.
Proof.
  intros [Hwf Hd] Hn Hfit. unfold bucket_refresh.
  destruct (negb (needs_refresh b) && (len b =? n) && same_prefix (buf b) data n) eqn:E.
  - intros E'. inv E'. bool_prop. split; [done|]. split; [|apply frame_out_refl].
    unfold same_prefix in *. destruct (buf b') as [d|]; [|done]. bool_prop.
    destruct (Hd d eq_refl) as [Hl Hst].
    match goal with H : take _ d = _ |- _ => rewrite <- H end.
    apply Hst; [done|]. lia.
  - destruct (bwrite_ok w (priv b) (take (Z.to_nat n) data)) as
      (w2 & b2 & Ew & Hs & Hw2 & Hst & Hfr1 & Hfr2); [done|by rewrite length_take_le by lia|].
    rewrite Ew. intros E'. inv E'. cbn [Z.eqb]. unfold place. cbn.
    split; [done|]. split; [done|]. split.
    + intros b0 Hi. apply Forall_cons in Hi as [Hi _]. auto.
    + intros s0 d Hi. apply Forall_cons in Hi as [Hi _]. auto.
Qed.

Lemma refresh_others_ok w idx used bs data n w' bs' :
  Forall (scanned (view w)) bs -> pairwise indep (map place bs) ->
  0 <= n <= Z.of_nat (length data) ->
  Forall (fun p => fits p (Z.to_nat n)) (map place bs) ->
  refresh_others w idx used bs data n = (w', bs') ->
  map place bs' = map place bs /\ frame_out (map place bs) w w' /\
  (forall i b', bs' !! i = Some b' -> (idx + i)%nat <> used ->
     stored (view w') (place b') (take (Z.to_nat n) data)) /\
  (forall i b, bs !! i = Some b -> (idx + i)%nat = used ->
     bs' !! i = Some b /\ scanned (view w') b).
Proof.
  revert w idx w' bs'. induction bs as [|b bs IH]; intros w idx w' bs' Hs Hp Hn Hf E.
  { cbn in E. inv E. split_and!; [done|apply frame_out_refl|done..]. }
  apply Forall_cons in Hs as [Hsb Hs]. apply Forall_cons in Hf as [Hfb Hf].
  cbn [map pairwise] in Hp. destruct Hp as [Hpb Hp].
  assert (Hsym : Forall (fun s => indep s (place b)) (map place bs)).
  { eapply Forall_impl; [exact Hpb|]. intros s. apply indep_sym. }
  cbn [refresh_others] in E. case_bool_decide as Hu.
  - destruct (refresh_others w (S idx) used bs data n) as [w2 bs2] eqn:E2.
    inv E. destruct (IH _ _ _ _ Hs Hp Hn Hf E2) as (Hpl & Hfr & Hst & _).
    split_and!; [cbn; congruence|by apply frame_out_cons| |].
    + intros [|i] b' Hi Hne; cbn in Hi; [lia|]. apply (Hst i b'); [done|lia].
    + intros [|i] b0 Hi Hu; [|lia]. cbn in Hi. inv Hi. split; [done|].
      by eapply scanned_frame.
  - destruct (bucket_refresh w b data n) as [[ret w1] b1] eqn:E1.
    destruct (bucket_refresh_ok _ _ _ _ _ _ _ Hsb Hn Hfb E1) as (Hp1 & Hst1 & Hfr1).
    destruct (refresh_others w1 (S idx) used bs data n) as [w2 bs2] eqn:E2.
    inv E.
    assert (Hs1 : Forall (scanned (view w1)) bs).
    { apply Forall_forall. intros x Hx. rewrite Forall_forall in Hs. eapply scanned_frame; [done| |by apply Hs].
      constructor; [|constructor]. apply (proj1 (Forall_forall _ _) Hpb).
      apply list_elem_of_fmap. eauto. }
    destruct (IH _ _ _ _ Hs1 Hp Hn Hf E2) as (Hpl & Hfr & Hst & Hus).
    split_and!.
    + cbn. rewrite Hpl. f_equal. exact Hp1.
    + apply (frame_out_trans [place b] (map place bs) _ _ _ Hfr1 Hfr).
    + intros [|i] b' Hi Hne; cbn in Hi.
      * inv Hi. change (place (set_data b1 None 0)) with (place b1). rewrite Hp1.
        by apply Hfr.
      * apply (Hst i b'); [done|lia].
    + intros [|i] b0 Hi Hu'; [lia|]. cbn in Hi |- *. apply (Hus i b0); [done|lia].
Qed.

Lemma storage_read_restores w st f magic flags d n w' st' f' :
  Forall (opened (view w)) (buckets st) -> pairwise indep (map place (buckets st)) ->
  fok f -> Forall (fun p => fits p (Z.to_nat n)) (map place (buckets st)) ->
  state_storage_read w st f magic flags = (Ok (d, n), w', st', f') ->
  map place (buckets st') = map place (buckets st) /\
  Forall (fun b => stored (view w') (place b) (take (Z.to_nat n) d)) (buckets st').
Proof.
  intros Ho Hp Hf Hfit. unfold state_storage_read.
  destruct (scan_buckets magic flags 0 (Scan w f 0 None) (buckets st)) as [s bs] eqn:E1.
  destruct (scan_buckets_spec magic flags 0 (Scan w f 0 None) (buckets st) s bs Ho Hf E1)
    as (Hv & Hf1 & Hpl & Hsc & Hu). cbn [sc_w sc_f sc_used] in *.
  destruct Hu as [Hu|(_ & i & bu & g & Hu & Hbu & Hg & Hver)]; rewrite Hu; [done|].
  cbn [Nat.add]. rewrite Hbu. destruct Hver as (d0 & n0 & g' & Hb0 & Hn0 & Hl & Ev).
  pose proof (verify_safe g magic d0 n0 flags Hg Hn0) as Hvs. rewrite Ev in Hvs.
  destruct (refresh_others (sc_w s) 0 i bs (default [] (buf bu)) (len bu)) as [w2 bs2] eqn:E2.
  destruct (bucket_refresh w2 bu (default [] (buf bu)) (len bu)) as [[r w3] bu3] eqn:E3.
  intros E. inv E. rewrite Hb0 in *. cbn [default from_option id] in *.
  rewrite <- Hv in Hsc. rewrite <- Hpl in Hp, Hfit |- *.
  destruct (refresh_others_ok _ 0 i bs d0 (len bu) w2 bs2 Hsc Hp ltac:(lia) Hfit E2)
    as (Hpl2 & Hfr2 & Hst2 & Hus2).
  destruct (Hus2 i bu Hbu eq_refl) as [Hbu2 Hscu].
  assert (Hfu : fits (place bu) (Z.to_nat (len bu))).
  { rewrite Forall_forall in Hfit. apply Hfit, list_elem_of_fmap.
    exists bu. split; [done|]. by eapply list_elem_of_lookup_2. }
  destruct (bucket_refresh_ok w2 bu d0 (len bu) r w' bu3 Hscu ltac:(lia) Hfu E3)
    as (Hpl3 & Hst3 & Hfr3).
  cbn [buckets set_buckets].
  assert (Hplu : map place (<[i:=set_data bu3 None 0]> bs2) = map place bs2).
  { apply list_eq. intros k. change (map place) with (fmap place : list _ -> list _).
    rewrite !list_lookup_fmap. destruct (decide (k = i)) as [->|Hne].
    - rewrite list_lookup_insert_eq by (by eapply lookup_lt_Some). rewrite Hbu2. cbn.
      f_equal. exact Hpl3.
    - by rewrite list_lookup_insert_ne. }
  split; [congruence|]. apply Forall_lookup. intros k b' Hk.
  destruct (decide (k = i)) as [->|Hne].
  - rewrite list_lookup_insert_eq in Hk by (by eapply lookup_lt_Some). inv Hk.
    change (place (set_data bu3 None 0)) with (place bu3). by rewrite Hpl3.
  - rewrite list_lookup_insert_ne in Hk by done. apply Hfr3; [|by eapply Hst2].
    constructor; [|constructor]. rewrite <- Hpl2 in Hp.
    eapply (pairwise_lookup _ (map place bs2) i k); [apply indep_sym|done| | |done].
    + change (map place bs2) with (place <$> bs2). by rewrite list_lookup_fmap, Hbu2.
    + change (map place bs2) with (place <$> bs2). by rewrite list_lookup_fmap, Hk.
Qed.

(** ** What a reboot finds *)

(** The format accepts exactly [data]. *)
Definition valid (f : F) (magic flags : Z) (data : list byte) : Prop :=
  exists f', verify f magic data (Z.of_nat (length data)) flags
             = (0, Z.of_nat (length data), f').

(** [b] was read and holds [data]. *)
Definition delivers (b : bucket B) (data : list byte) : Prop :=
  exists d, buf b = Some d /\ len b = Z.of_nat (length data) /\
    take (length data) d = data.

Lemma valid_any f g magic flags data d n :
  fok f -> fok g -> valid f magic flags data ->
  Z.of_nat (length data) <= n <= Z.of_nat (length d) -> take (length data) d = data ->
  exists g', verify g magic d n flags = (0, Z.of_nat (length data), g').
Proof.
  intros Hf Hg [f' Hv] Hn Hd.
  apply (verify_prefix f g magic flags data (Z.of_nat (length data))
    (Z.of_nat (length data)) f'); try done; [lia|].
  by rewrite Nat2Z.id, Hd, take_ge.
Qed.

Lemma scan_one_stored magic flags idx s b data f0 :
  opened (view (sc_w s)) b -> fok (sc_f s) -> sc_used s = None ->
  fok f0 -> valid f0 magic flags data -> stored (view (sc_w s)) (place b) data ->
  exists s' b', scan_one magic flags idx s b = (s', b') /\ sc_used s' = Some idx /\
    delivers b' data.
Proof.
  intros (Hwf & Hfr & Hbuf & Hlen & Hnr) Hf Hu Hf0 Hval Hst.
  destruct (bread_stored (sc_w s) (priv b) data Hwf Hfr Hst) as (Hret & d & n & Hd & Hn & Hpre).
  pose proof (bread_safe (sc_w s) (priv b) Hwf) as (_ & _ & _ & Hsafe).
  rewrite Hd in Hsafe. destruct Hsafe as [Hnd _].
  destruct (valid_any f0 (sc_f s) magic flags data d n Hf0 Hf Hval) as [g' Hg']; [lia|done|].
  unfold scan_one. rewrite Hret, Hd.
  change (0 =? - EUCLEAN) with false. change (0 =? 0) with true.
  cbn [set_data set_wrong_magic set_priv priv buf len default from_option id
    needs_refresh sc_w sc_f sc_zero sc_used negb andb].
  rewrite Hg', Hu. change (0 =? - ENOMEDIUM) with false. change (0 =? 0) with true.
  cbn [set_data buf]. eexists _, _. split; [reflexivity|]. cbn. split; [done|].
  exists d. done.
Qed.

Lemma scan_used_keep magic flags idx s bs s' bs' u :
  sc_used s = Some u -> scan_buckets magic flags idx s bs = (s', bs') -> sc_used s' = Some u.
Proof.
  revert idx s s' bs'. induction bs as [|b bs IH]; intros idx s s' bs' Hu E.
  { cbn in E. by inv E. }
  cbn [scan_buckets] in E. destruct (scan_one magic flags idx s b) as [s1 b1] eqn:E1.
  destruct (scan_buckets magic flags (S idx) s1 bs) as [s2 bs2] eqn:E2. inv E.
  apply (IH _ _ _ _) in E2; [done|]. revert E1. unfold scan_one.
  cbn [sc_w sc_f sc_zero sc_used]. rewrite Hu.
  destruct (negb _ && negb _).
  - intros E1. inv E1. by destruct (_ =? - ENOMEDIUM).
  - destruct (verify _ _ _ _ _) as [[vr vn] vf].
    destruct (vr =? - ENOMEDIUM), (vr =? 0); intros E1; by inv E1.
Qed.

Lemma scan_buckets_app magic flags idx s l1 l2 :
  scan_buckets magic flags idx s (l1 ++ l2) =
  let '(s, r1) := scan_buckets magic flags idx s l1 in
  let '(s, r2) := scan_buckets magic flags (idx + length l1) s l2 in (s, r1 ++ r2).
Proof.
  revert idx s. induction l1 as [|x l1 IH]; intros idx s; cbn.
  - rewrite Nat.add_0_r. by destruct (scan_buckets _ _ _ _ l2).
  - destruct (scan_one magic flags idx s x) as [s1 x1]. rewrite IH.
    destruct (scan_buckets magic flags (S idx) s1 l1) as [s2 r1].
    replace (S idx + length l1)%nat with (idx + S (length l1))%nat by lia.
    by destruct (scan_buckets magic flags _ s2 l2).
Qed.

(** The first bucket holding a valid copy, with only rejected ones before
    it, decides the result of the read. *)
Lemma read_first_valid w st f magic flags pre b post data s1 pre' f0 :
  buckets st = pre ++ b :: post ->
  Forall (opened (view w)) (buckets st) -> fok f ->
  scan_buckets magic flags 0 (Scan w f 0 None) pre = (s1, pre') -> sc_used s1 = None ->
  fok f0 -> valid f0 magic flags data -> stored (view w) (place b) data ->
  exists d n w' st' f', state_storage_read w st f magic flags = (Ok (d, n), w', st', f')
    /\ take (Z.to_nat n) d = data.
Proof.
  intros Hbs Ho Hf Hpre Hu Hf0 Hval Hst. rewrite Hbs in Ho.
  apply Forall_app in Ho as [Ho1 Ho2]. apply Forall_cons in Ho2 as [Hob _].
  destruct (scan_buckets_spec magic flags 0 (Scan w f 0 None) pre s1 pre' Ho1 Hf Hpre)
    as (Hv & Hf1 & Hpl & _).
  cbn [sc_w sc_f] in *.
  rewrite <- Hv in Hob, Hst.
  destruct (scan_one_stored magic flags (0 + length pre) s1 b data f0 Hob Hf1 Hu Hf0 Hval Hst)
    as (s2 & b' & E2 & Hu2 & d & Hd & Hlen & Htk).
  unfold state_storage_read. rewrite Hbs, scan_buckets_app, Hpre. cbn [scan_buckets]. rewrite E2.
  destruct (scan_buckets magic flags (S (0 + length pre)) s2 post) as [s3 post'] eqn:E3.
  rewrite (scan_used_keep _ _ _ _ _ _ _ _ Hu2 E3).
  assert (Hl : length pre' = length pre).
  { apply (f_equal length) in Hpl. by rewrite !length_map in Hpl. }
  rewrite lookup_app_r by lia. replace (0 + length pre - length pre')%nat with 0%nat by lia.
  cbn [lookup list_lookup]. rewrite Hd, Hlen. cbn [default from_option id].
  destruct (refresh_others _ _ _ _ _ _) as [w4 bs4].
  destruct (bucket_refresh _ _ _ _) as [[r w5] b5].
  repeat eexists. by rewrite Nat2Z.id.
Qed.

(** ** Writing all buckets *)

Lemma write_buckets_ok w bs data n w' bs' :
  Forall (fun b => bwf (view w) (priv b)) bs -> pairwise indep (map place bs) ->
  Forall (fun p => fits p (length data)) (map place bs) ->
  write_buckets w bs data = (n, w', bs') ->
  n = length bs /\ map place bs' = map place bs /\ frame_out (map place bs) w w' /\
  Forall (fun p => stored (view w') p data) (map place bs).
Proof.
  revert w n w' bs'. induction bs as [|b bs IH]; intros w n w' bs' Hw Hp Hf E.
  { cbn in E. inv E. split_and!; [done|done|apply frame_out_refl|constructor]. }
  cbn [map pairwise] in *. apply Forall_cons in Hw as [Hwb Hw].
  apply Forall_cons in Hf as [Hfb Hf]. destruct Hp as [Hpb Hp].
  destruct (bwrite_ok w (priv b) data Hwb Hfb) as (w1 & b1 & E1 & Hs & _ & Hst & Hfr1 & Hfr2).
  assert (Hfr : frame_out [place b] w w1).
  { split; [intros b0 Hi|intros s0 d Hi]; apply Forall_cons in Hi as [Hi _]; auto. }
  cbn [write_buckets] in E. rewrite E1 in E.
  destruct (write_buckets w1 bs data) as [[n2 w2] bs2] eqn:E2. inv E.
  destruct (IH w1 n2 w' bs2) as (Hn & Hpl & Hfr' & Hst'); [|done|done|done|].
  { rewrite Forall_forall in Hw |- *. intros x Hx. apply Hfr1; [|by apply Hw].
    rewrite Forall_forall in Hpb. apply Hpb, list_elem_of_fmap. eauto. }
  split_and!; [cbn; congruence|cbn; rewrite Hpl; f_equal; exact Hs| |].
  - exact (frame_out_trans [place b] (map place bs) _ _ _ Hfr Hfr').
  - constructor; [|done]. apply Hfr'; [|done].
    eapply Forall_impl; [exact Hpb|]. intros x. apply indep_sym.
Qed.

(** ** Power failure *)

(** Power is lost while bucket [k] is being written: the buckets before it
    are complete, the bucket itself holds anything, and [v] is what is left
    on the device. *)
Inductive crashed (w : W) (bs : list (bucket B)) (data : list byte) (k : nat) (v : V) : Prop :=
| crash_at n w1 bs1 b :
    write_buckets w (take k bs) data = (n, w1, bs1) ->
    bs !! k = Some b ->
    (forall s d, indep (place b) s -> stored (view w1) s d -> stored v s d) ->
    crashed w bs data k v.

Lemma pairwise_take {A} (R : A -> A -> Prop) k l : pairwise R l -> pairwise R (take k l).
Proof.
  revert k. induction l as [|x l IH]; intros [|k] H; cbn in *; try done.
  destruct H as [H1 H2]. split; [by apply Forall_take|by apply IH].
Qed.

Lemma crashed_stored w bs old new k v :
  Forall (fun b => bwf (view w) (priv b)) bs -> pairwise indep (map place bs) ->
  Forall (fun p => fits p (length new)) (map place bs) ->
  Forall (fun p => stored (view w) p old) (map place bs) ->
  crashed w bs new k v ->
  forall i p, map place bs !! i = Some p -> i <> k ->
    stored v p (if decide (i < k)%nat then new else old).
Proof.
  intros Hw Hp Hfit Hold [n w1 bs1 b Ewr Hb Htorn] i p Hi Hne.
  assert (Hbp : map place bs !! k = Some (place b))
    by (change (map place bs) with (place <$> bs); by rewrite list_lookup_fmap, Hb).
  apply Htorn.
  { eapply (pairwise_lookup _ _ k i); [apply indep_sym|done|done|done|congruence]. }
  destruct (write_buckets_ok w (take k bs) new n w1 bs1) as (_ & _ & Hfr & Hst);
    [by apply Forall_take| | |done|].
  { rewrite <- firstn_map. by apply pairwise_take. }
  { rewrite <- firstn_map. by apply Forall_take. }
  rewrite <- firstn_map in Hst, Hfr. case_decide as Hik.
  - rewrite Forall_lookup in Hst. apply (Hst i). by rewrite lookup_take_lt.
  - apply Hfr.
    + apply Forall_lookup. intros j q Hj. apply lookup_take_Some in Hj as [Hj Hjk].
      eapply (pairwise_lookup _ _ j i); [apply indep_sym|done|done|done|lia].
    + rewrite Forall_lookup in Hold. by eapply Hold.
Qed.

Lemma scan_one_head magic flags idx s b s' b' :
  opened (view (sc_w s)) b -> sc_used s = None ->
  scan_one magic flags idx s b = (s', b') ->
  sc_used s' = None \/
  sc_used s' = Some idx /\ exists d n n' f', rd_data (bread (sc_w s) (priv b)) = Some (d, n) /\
    verify (sc_f s) magic d n flags = (0, n', f') /\ buf b' = Some d /\ len b' = n'.
Proof.
  intros (Hwf & Hfr & Hbuf & Hlen & Hnr) Hu.
  pose proof (bread_safe (sc_w s) (priv b) Hwf) as (_ & _ & _ & Hdata).
  unfold scan_one. destruct (bread (sc_w s) (priv b)) as [ret data wm w2 b2] eqn:Eb.
  cbn [rd_ret rd_data rd_wrong_magic rd_w rd_b sc_w sc_f sc_zero sc_used] in *.
  destruct (negb (ret =? - EUCLEAN) && negb (ret =? 0)) eqn:Er.
  { intros E. inv E. left. by destruct (ret =? - ENOMEDIUM). }
  destruct data as [[d n]|].
  2: { destruct Hdata as [H1 H2]. revert Er.
       replace (ret =? - EUCLEAN) with false by lia. replace (ret =? 0) with false by lia. done. }
  set (bb := if ret =? - EUCLEAN then _ else _).
  assert (Hbb : buf bb = Some d /\ len bb = n)
    by (subst bb; destruct (ret =? - EUCLEAN); cbn; auto).
  destruct Hbb as (Hb & Hl). rewrite Hb, Hl, Hu. cbn [default from_option id].
  destruct (verify (sc_f s) magic d n flags) as [[vret n'] f'] eqn:Ev.
  destruct (vret =? - ENOMEDIUM) eqn:E1; [intros E; inv E; by left|].
  destruct (vret =? 0) eqn:E2; intros E; inv E; [right|by left]. bool_prop. subst vret.
  split; [done|]. exists d, n, n', f'. done.
Qed.

(** ** Properties *)


(** C2: a power failure while saving does not lose the state.  There are at least two
    buckets, all hold the copy [old], and power is lost at an arbitrary moment while
    [new] is being written.  The next boot reads a copy: [new] when the first bucket
    had been completed; else [old], or what the half-written first bucket delivers if
    the format accepts that.  Nothing is assumed about the bytes of the half-written
    bucket. *)
Theorem state_storage_write_atomic
    w (bs : list (bucket B)) old new (f0 f : F) magic flags k v w' (st' : storage B) :
  Forall (fun b => bwf (view w) (priv b)) bs -> pairwise indep (map place bs) ->
  (2 <= length bs)%nat ->
  Forall (fun p => fits p (length new)) (map place bs) ->
  Forall (fun p => stored (view w) p old) (map place bs) ->
  fok f0 -> valid f0 magic flags old -> valid f0 magic flags new ->
  crashed w bs new k v ->
  view w' = v -> map place (buckets st') = map place bs ->
  Forall (opened (view w')) (buckets st') -> fok f ->
  exists d n w'' st'' f'',
    state_storage_read w' st' f magic flags = (Ok (d, n), w'', st'', f'') /\
    if (0 <? k)%nat then take (Z.to_nat n) d = new
    else take (Z.to_nat n) d = old \/
         exists b n0 g, buckets st' !! 0%nat = Some b /\ rd_data (bread w' (priv b)) = Some (d, n0) /\
           verify f magic d n0 flags = (0, n, g).
Proof.
  intros Hw Hp H2 Hfit Hold Hf0 Hvo Hvn Hcr Hv Hpl Ho Hf.
  pose proof (crashed_stored w bs old new k v Hw Hp Hfit Hold Hcr) as Hst.
  rewrite <- Hv in Hst. rewrite <- Hpl in Hst.
  assert (H2' : (2 <= length (buckets st'))%nat).
  { apply (f_equal length) in Hpl. rewrite !length_map in Hpl. lia. }
  destruct (buckets st') as [|b0 [|b1 rest]] eqn:Ebs; [cbn in H2'; lia..|].
  destruct k as [|k].
  - destruct (scan_one magic flags 0 (Scan w' f 0 None) b0) as [s1 b0'] eqn:E0.
    pose proof Ho as Ho'. apply Forall_cons in Ho' as [Hob0 _].
    destruct (scan_one_head magic flags 0 (Scan w' f 0 None) b0 s1 b0' Hob0 eq_refl E0)
      as [Hu|(Hu & d & n & n' & f' & Hd & Hver & Hbuf & Hlen)].
    + edestruct (read_first_valid w' st' f magic flags [b0] b1 rest old s1 [b0'] f0)
        as (d & n & w2 & st2 & f2 & E & Htk); try done; [by rewrite Ebs| | |].
      { cbn [scan_buckets]. by rewrite E0. }
      { apply (Hst 1%nat); [done|lia]. }
      exists d, n, w2, st2, f2. split; [done|]. by left.
    + unfold state_storage_read. rewrite Ebs. cbn [scan_buckets]. rewrite E0.
      destruct (scan_one magic flags 1 s1 b1) as [s2 b1'] eqn:E1.
      destruct (scan_buckets magic flags 2 s2 rest) as [s3 rest'] eqn:E3.
      assert (Hu3 : sc_used s3 = Some 0%nat).
      { eapply (scan_used_keep magic flags 1 s1 (b1 :: rest)); [done|].
        cbn [scan_buckets]. by rewrite E1, E3. }
      rewrite Hu3. cbn [lookup list_lookup]. rewrite Hbuf, Hlen. cbn [default from_option id].
      destruct (refresh_others _ _ _ _ _ _) as [w4 bs4].
      destruct (bucket_refresh _ _ _ _) as [[r w5] b5].
      eexists _, _, _, _, _. split; [reflexivity|]. right. by exists b0, n, f'.
  - edestruct (read_first_valid w' st' f magic flags [] b0 (b1 :: rest) new
      (Scan w' f 0 None) [] f0) as (d & n & w2 & st2 & f2 & E & Htk); try done.
    { by rewrite Ebs. }
    { apply (Hst 0%nat); [done|lia]. }
    exists d, n, w2, st2, f2. by split.
Qed.

End Redundancy.

End Storage.
