(* ===== verification/Direct.v ===== *)
(** * Direct buckets (common/state/backend_bucket_direct.c, lib/libfile.c)

    A direct bucket is a stride of a byte-writable device, accessed through a
    file descriptor: an eight byte header with magic and length, then the
    data.  [read_full] and [write_full] are the retry loops of lib/libfile.c
    over an abstract file ([FileOps]); [FileOk] is the POSIX behaviour they
    rely on, short transfers included.  The file ends with the proof that a
    direct bucket satisfies the bucket contract of [Storage]. *)

From stdpp Require Import base list.
From Stdlib Require Import ZArith Lia.
From S2P Require Import Prelude Storage.

Module Direct.
Import Storage.

(** ** Files *)

(** An open file: seek, read up to a size, write, flush, last error. *)
Class FileOps (W : Type) := {
  f_lseek : W -> Z -> Z * W;
  f_read : W -> nat -> Z * list byte * W;
  f_write : W -> list byte -> Z * W;
  f_flush : W -> Z * W;
  f_errno : W -> Z
}.

Section Files.
Context {W : Type} `{!FileOps W}.

(** [while (size)] of [read_full]; the bytes read so far are returned in
    order.  Every round but the last consumes at least one byte, so [size]
    plus one rounds are enough. *)
Fixpoint read_full_loop (fuel : nat) (w : W) (size : nat) : Z * list byte * W :=
  match fuel with
  | O => (0, [], w)
  | S fuel =>
      if (size =? 0)%nat then (0, [], w)
      else
        let '(now, d, w) := f_read w size in
        if now =? 0 then (0, [], w)
        else if now <? 0 then (now, [], w)
        else
          let '(err, rest, w) := read_full_loop fuel w (size - Z.to_nat now) in
          (err, d ++ rest, w)
  end.

(** [buf] is the destination with its previous contents. *)
Definition read_full (w : W) (buf : list byte) : Z * list byte * W :=
  let '(err, d, w) := read_full_loop (S (length buf)) w (length buf) in
  let buf := d ++ drop (length d) buf in
  if err <? 0 then (err, buf, w) else (Z.of_nat (length d), buf, w).

Fixpoint write_full_loop (fuel : nat) (w : W) (buf : list byte) : Z * W :=
  match fuel with
  | O => (0, w)
  | S fuel =>
      match buf with
      | [] => (0, w)
      | _ =>
          let '(now, w) := f_write w buf in
          if now =? 0 then (- ENOSPC, w)
          else if now <? 0 then (now, w)
          else write_full_loop fuel w (drop (Z.to_nat now) buf)
      end
  end.

Definition write_full (w : W) (buf : list byte) : Z * W :=
  let '(err, w) := write_full_loop (S (length buf)) w buf in
  if err <? 0 then (err, w) else (Z.of_nat (length buf), w).

End Files.

(** ** The bucket *)

Record direct := DirectBucket {
  d_offset : Z;
  d_max_size : Z
}.

Definition direct_magic : Z := 0x2354fdf3.

Section Bucket.
Context {W : Type} `{!FileOps W}.
Context (CONFIG_STATE_BACKWARD_COMPATIBLE : bool).
Context (junk : nat -> list byte).

Definition sizeof_meta : nat := 8.

Definition meta_magic (meta : list byte) : Z := le_val (take 4 meta).

Definition meta_written_length (meta : list byte) : Z := le_val (take 4 (drop 4 meta)).

Definition make_meta (magic written_length : Z) : list byte :=
  le_bytes 4 magic ++ le_bytes 4 written_length.

(** The second half: allocate [read_len] bytes and fill them. *)
Definition direct_read_data (w : W) (b : direct) (wm : bool) (read_len : Z)
  : rd_out W direct :=
  if read_len =? 0 then RdOut (- EINVAL) None wm w b
  else
    let '(ret, buf, w) := read_full w (junk (Z.to_nat read_len)) in
    if ret <? 0 then RdOut ret None wm w b
    else RdOut 0 (Some (buf, read_len)) wm w b.

Definition state_backend_bucket_direct_read (w : W) (b : direct) : rd_out W direct :=
  let '(r, w) := f_lseek w (d_offset b) in
  if negb (r =? d_offset b) then RdOut (- f_errno w) None false w b
  else
    let '(ret, meta, w) := read_full w (junk sizeof_meta) in
    if ret <? 0 then RdOut ret None false w b
    else if meta_magic meta =? direct_magic then
      let read_len := meta_written_length meta in
      if d_max_size b <? read_len then RdOut (- EINVAL) None false w b
      else direct_read_data w b false read_len
    else
      let wm := negb (meta_magic meta =? 0xffffffff) && negb (meta_magic meta =? 0) in
      if negb CONFIG_STATE_BACKWARD_COMPATIBLE then
        RdOut (if meta_magic meta =? 0 then - ENOMEDIUM else - EINVAL) None wm w b
      else
        let '(r, w) := f_lseek w (d_offset b) in
        if negb (r =? d_offset b) then RdOut (- f_errno w) None wm w b
        else direct_read_data w b wm (u32 (d_max_size b)).

Definition state_backend_bucket_direct_write (w : W) (b : direct) (buf : list byte)
  : Z * W * direct :=
  let len := Z.of_nat (length buf) in
  let '(r, w) := f_lseek w (d_offset b) in
  if negb (r =? d_offset b) then (- f_errno w, w, b)
  else
    let '(ret, w) :=
      if len <=? u64 (d_max_size b - Z.of_nat sizeof_meta) then
        let '(ret, w) := write_full w (make_meta direct_magic (u32 len)) in
        (if ret <? 0 then ret else 0, w)
      else if negb CONFIG_STATE_BACKWARD_COMPATIBLE then (- EINVAL, w)
      else (0, w) in
    if ret <? 0 then (ret, w, b)
    else
      let '(ret, w) := write_full w buf in
      if ret <? 0 then (ret, w, b)
      else
        let '(ret, w) := f_flush w in
        if ret <? 0 then (ret, w, b) else (0, w, b).

(** [open] result and the structure it is stored in. *)
Definition state_backend_bucket_direct_create (open_ret : Z) (offset max_size : Z)
  : res direct :=
  if open_ret <? 0 then Err open_ret else Ok (DirectBucket offset max_size).

#[export] Instance direct_ops : BucketOps W direct := {
  bread := state_backend_bucket_direct_read;
  bwrite := state_backend_bucket_direct_write
}.

End Bucket.

(** ** POSIX files *)

(** [bytes] is the contents of the (fixed size) device, [pos] the file
    position.  Transfers may be short but make progress. *)
Class FileOk (W : Type) `{!FileOps W} (bytes : W -> list byte) (pos : W -> nat) : Prop := {
  fo_lseek w o : 0 <= o <= Z.of_nat (length (bytes w)) ->
    exists w', f_lseek w o = (o, w') /\ bytes w' = bytes w /\ pos w' = Z.to_nat o;
  fo_read w size : (0 < size)%nat -> (pos w + size <= length (bytes w))%nat ->
    exists n w', f_read w size = (Z.of_nat n, read_at (bytes w) (pos w) n, w') /\
      (1 <= n <= size)%nat /\ bytes w' = bytes w /\ pos w' = (pos w + n)%nat;
  fo_write w buf : buf <> [] -> (pos w + length buf <= length (bytes w))%nat ->
    exists n w', f_write w buf = (Z.of_nat n, w') /\ (1 <= n <= length buf)%nat /\
      bytes w' = write_at (bytes w) (pos w) (take n buf) /\ pos w' = (pos w + n)%nat;
  fo_flush w : exists w', f_flush w = (0, w') /\ bytes w' = bytes w /\ pos w' = pos w
}.

Section FileLemmas.
Context {W : Type} `{!FileOps W} (bytes : W -> list byte) (pos : W -> nat).
Context `{!FileOk W bytes pos}.

Lemma read_full_loop_ok fuel w size :
  (size < fuel)%nat -> (pos w + size <= length (bytes w))%nat ->
  exists w', read_full_loop fuel w size = (0, read_at (bytes w) (pos w) size, w') /\
    bytes w' = bytes w /\ pos w' = (pos w + size)%nat.
Proof.
  revert w size. induction fuel as [|fuel IH]; intros w size Hf Hs; [lia|].
  cbn [read_full_loop]. destruct (Nat.eqb_spec size 0) as [->|Hne].
  { exists w. rewrite Nat.add_0_r. done. }
  destruct (fo_read w size) as (n & w1 & E & Hn & Hb & Hp); [lia|done|].
  rewrite E. replace (Z.of_nat n =? 0) with false by lia.
  replace (Z.of_nat n <? 0) with false by lia. rewrite Nat2Z.id.
  destruct (IH w1 (size - n)%nat) as (w' & E' & Hb' & Hp'); [lia|rewrite Hp, Hb; lia|].
  rewrite E'. exists w'. split; [|split; [congruence|lia]].
  do 2 f_equal. rewrite Hb, Hp. unfold read_at.
  replace size with (n + (size - n))%nat at 2 by lia.
  by rewrite <- (take_take_drop (drop (pos w) (bytes w)) n (size - n)), drop_drop.
Qed.

Lemma read_full_ok w buf :
  (pos w + length buf <= length (bytes w))%nat ->
  exists w', read_full w buf =
      (Z.of_nat (length buf), read_at (bytes w) (pos w) (length buf), w') /\
    bytes w' = bytes w /\ pos w' = (pos w + length buf)%nat.
Proof.
  intros Hs. unfold read_full.
  destruct (read_full_loop_ok (S (length buf)) w (length buf)) as (w' & E & Hb & Hp);
    [lia|done|].
  rewrite E, length_read_at, drop_all, app_nil_r by done. exists w'. done.
Qed.

Lemma write_full_loop_ok fuel w buf :
  (length buf < fuel)%nat -> (pos w + length buf <= length (bytes w))%nat ->
  exists w', write_full_loop fuel w buf = (0, w') /\
    bytes w' = write_at (bytes w) (pos w) buf /\ pos w' = (pos w + length buf)%nat.
Proof.
  revert w buf. induction fuel as [|fuel IH]; intros w buf Hf Hs; [lia|].
  cbn [write_full_loop]. destruct buf as [|b0 buf0].
  { exists w. cbn [length]. rewrite Nat.add_0_r. split; [done|]. split; [|done].
    rewrite write_at_inside by (cbn; lia). cbn [length app].
    by rewrite Nat.add_0_r, take_drop. }
  set (buf := b0 :: buf0) in *.
  destruct (fo_write w buf) as (n & w1 & E & Hn & Hb & Hp); [done|done|].
  rewrite E. replace (Z.of_nat n =? 0) with false by lia.
  replace (Z.of_nat n <? 0) with false by lia. rewrite Nat2Z.id.
  destruct (IH w1 (drop n buf)) as (w' & E' & Hb' & Hp');
    [rewrite length_drop; lia|rewrite Hp, Hb, length_write_at, length_drop; lia|].
  rewrite E'. exists w'. split; [done|]. rewrite length_drop in Hp'. split; [|lia].
  rewrite Hb', Hb, Hp. apply list_eq. intros i.
  assert (Hl : length (take n buf) = n) by (rewrite length_take; lia).
  rewrite !lookup_write_at; rewrite ?length_write_at, ?length_drop, ?Hl; try lia.
  repeat case_decide; try lia; try done.
  - rewrite lookup_drop. f_equal. lia.
  - rewrite lookup_take_lt by lia. done.
Qed.

Lemma write_full_ok w buf :
  (pos w + length buf <= length (bytes w))%nat ->
  exists w', write_full w buf = (Z.of_nat (length buf), w') /\
    bytes w' = write_at (bytes w) (pos w) buf /\ pos w' = (pos w + length buf)%nat.
Proof.
  intros Hs. unfold write_full.
  destruct (write_full_loop_ok (S (length buf)) w buf) as (w' & E & Hb & Hp); [lia|done|].
  rewrite E. by exists w'.
Qed.

End FileLemmas.

(** ** The contract *)

Section Contract.
Context {W : Type} `{!FileOps W} (bytes : W -> list byte) (pos : W -> nat).
Context `{!FileOk W bytes pos}.
Context (compat : bool) (junk : nat -> list byte).
Context (Hjunk : forall n, length (junk n) = n).

Local Abbreviation dread := (state_backend_bucket_direct_read compat junk).
Local Abbreviation dwrite := (state_backend_bucket_direct_write compat).

Definition off_of (s : direct) : nat := Z.to_nat (d_offset s).
Definition header (v : list byte) (s : direct) : list byte := read_at v (off_of s) 8.

(** The stride lies on the device and has room for a header. *)
Definition stride_ok (v : list byte) (s : direct) : Prop :=
  0 <= d_offset s /\ 8 < d_max_size s < 2 ^ 32 /\
  d_offset s + d_max_size s <= Z.of_nat (length v).

(** A header, where there is one, describes data inside the stride. *)
Definition direct_wf (v : list byte) (s : direct) : Prop :=
  stride_ok v s /\
  (meta_magic (header v s) = direct_magic ->
   8 + meta_written_length (header v s) <= d_max_size s).

(** With a header the data follows it; without one, and with the option to
    read the old layout, the whole stride is the data. *)
Definition direct_stored (v : list byte) (s : direct) (data : list byte) : Prop :=
  let n := Z.of_nat (length data) in
  if meta_magic (header v s) =? direct_magic then
    0 < meta_written_length (header v s) /\ n <= meta_written_length (header v s) /\
    read_at v (off_of s + 8) (length data) = data
  else compat = true /\ n <= d_max_size s /\ read_at v (off_of s) (length data) = data.

Definition direct_indep (s1 s2 : direct) : Prop :=
  d_offset s1 + d_max_size s1 <= d_offset s2 \/ d_offset s2 + d_max_size s2 <= d_offset s1.

Lemma meta_make m n :
  0 <= m < 2 ^ 32 -> 0 <= n < 2 ^ 32 ->
  length (make_meta m n) = 8%nat /\ meta_magic (make_meta m n) = m /\
  meta_written_length (make_meta m n) = n.
Proof.
  intros Hm Hn. unfold make_meta, meta_magic, meta_written_length.
  assert (Hl : length (le_bytes 4 m) = 4%nat) by apply length_le_bytes.
  rewrite length_app, take_app_length', drop_app_length' by done.
  rewrite (take_ge (le_bytes 4 n)) by (rewrite length_le_bytes; lia).
  rewrite !le_val_bytes, !length_le_bytes, !Z.mod_small by lia. done.
Qed.

Lemma meta_length_range m : 0 <= meta_written_length m < 2 ^ 32.
Proof.
  unfold meta_written_length. split; [apply le_val_nonneg|].
  eapply Z.lt_le_trans; [apply le_val_bound|]. apply Z.pow_le_mono_r; [lia|].
  rewrite length_take. lia.
Qed.

Lemma direct_read_data_ok w b wm n :
  0 < n -> Z.of_nat (pos w) + n <= Z.of_nat (length (bytes w)) ->
  exists w', direct_read_data junk w b wm n =
      RdOut 0 (Some (read_at (bytes w) (pos w) (Z.to_nat n), n)) wm w' b /\
    bytes w' = bytes w.
Proof.
  intros Hn Hl. unfold direct_read_data. replace (n =? 0) with false by lia.
  destruct (read_full_ok bytes pos w (junk (Z.to_nat n))) as (w' & E & Hb & _);
    rewrite ?Hjunk in *; [lia|].
  rewrite E, Z2Nat.id by lia. replace (n <? 0) with false by lia. eauto.
Qed.

(** What a read of a well-formed stride returns, in all four cases. *)
Lemma direct_read_spec w b :
  direct_wf (bytes w) b ->
  exists w', rd_w (dread w b) = w' /\ bytes w' = bytes w /\ rd_b (dread w b) = b /\
  let n := meta_written_length (header (bytes w) b) in
  if meta_magic (header (bytes w) b) =? direct_magic then
    if n =? 0 then rd_data (dread w b) = None /\ rd_ret (dread w b) = - EINVAL
    else rd_data (dread w b) = Some (read_at (bytes w) (off_of b + 8) (Z.to_nat n), n)
         /\ rd_ret (dread w b) = 0
  else if compat then
    rd_data (dread w b) = Some (read_at (bytes w) (off_of b) (Z.to_nat (d_max_size b)),
                                d_max_size b) /\ rd_ret (dread w b) = 0
  else rd_data (dread w b) = None /\
       (rd_ret (dread w b) = - EINVAL \/ rd_ret (dread w b) = - ENOMEDIUM).
Proof.
  intros [(Ho & Hm & Hd) Hh]. unfold state_backend_bucket_direct_read, off_of in *.
  destruct (fo_lseek w (d_offset b)) as (w1 & E1 & Hb1 & Hp1); [lia|].
  rewrite E1, Z.eqb_refl. cbn [negb].
  destruct (read_full_ok bytes pos w1 (junk sizeof_meta)) as (w2 & E2 & Hb2 & Hp2);
    rewrite Hjunk, ?Hp1, ?Hb1 in *; [unfold sizeof_meta; lia|].
  rewrite E2. change (Z.of_nat sizeof_meta <? 0) with false. unfold header, off_of in *.
  change sizeof_meta with 8%nat in *. cbn iota.
  set (h := read_at (bytes w) (Z.to_nat (d_offset b)) 8) in *.
  destruct (Z.eqb_spec (meta_magic h) direct_magic) as [Hmag|Hmag].
  - specialize (Hh Hmag). pose proof (meta_length_range h) as Hr.
    replace (d_max_size b <? meta_written_length h) with false by lia.
    destruct (Z.eqb_spec (meta_written_length h) 0) as [Hz|Hz].
    { unfold direct_read_data. rewrite Hz. cbn. exists w2. split_and!; auto; congruence. }
    destruct (direct_read_data_ok w2 b false (meta_written_length h)) as (w3 & E3 & Hb3);
      [lia|rewrite Hp2, Hb2; lia|].
    rewrite E3, Hp2, Hb2. cbn. exists w3. split_and!; auto; congruence.
  - destruct compat; cbn [negb].
    2: { cbn. exists w2. split_and!; [done|congruence|done|done|].
         destruct (meta_magic h =? 0); auto. }
    destruct (fo_lseek w2 (d_offset b)) as (w3 & E3 & Hb3 & Hp3); [rewrite Hb2; lia|].
    rewrite E3, Z.eqb_refl. cbn [negb]. rewrite u32_small by lia.
    destruct (direct_read_data_ok w3 b
      (negb (meta_magic h =? 0xffffffff) && negb (meta_magic h =? 0)) (d_max_size b))
      as (w4 & E4 & Hb4); [lia|rewrite Hp3, Hb3, Hb2; lia|].
    rewrite E4, Hp3, Hb3, Hb2. cbn. exists w4. split_and!; auto; congruence.
Qed.

Lemma direct_write_spec w b data :
  stride_ok (bytes w) b -> Z.of_nat (length data) + 8 <= d_max_size b ->
  exists w', dwrite w b data = (0, w', b) /\
    bytes w' = write_at (write_at (bytes w) (off_of b)
      (make_meta direct_magic (Z.of_nat (length data)))) (off_of b + 8) data.
Proof.
  intros (Ho & Hm & Hd) Hl. unfold state_backend_bucket_direct_write, off_of.
  destruct (fo_lseek w (d_offset b)) as (w1 & E1 & Hb1 & Hp1); [lia|].
  rewrite E1, Z.eqb_refl. cbn [negb]. change (Z.of_nat sizeof_meta) with 8.
  rewrite (u64_small (_ - _)), u32_small by lia.
  replace (Z.of_nat (length data) <=? d_max_size b - 8) with true by lia.
  destruct (meta_make direct_magic (Z.of_nat (length data))) as (Hml & _ & _);
    [unfold direct_magic; lia|lia|].
  destruct (write_full_ok bytes pos w1 (make_meta direct_magic (Z.of_nat (length data))))
    as (w2 & E2 & Hb2 & Hp2); [rewrite Hml, Hp1, Hb1; lia|].
  rewrite E2, Hml in *. change (Z.of_nat 8 <? 0) with false. cbn iota.
  change (0 <? 0) with false. cbn iota.
  destruct (write_full_ok bytes pos w2 data) as (w3 & E3 & Hb3 & Hp3).
  { rewrite Hp2, Hb2, length_write_at, Hp1, Hb1. lia. }
  rewrite E3. replace (Z.of_nat (length data) <? 0) with false by lia.
  destruct (fo_flush w3) as (w4 & E4 & Hb4 & _). rewrite E4. cbn.
  exists w4. split; [done|]. by rewrite Hb4, Hb3, Hb2, Hp2, Hp1, Hb1.
Qed.

(** The device after a successful write, in terms of its bytes. *)
Lemma direct_write_bytes v b data v' :
  stride_ok v b -> Z.of_nat (length data) + 8 <= d_max_size b ->
  v' = write_at (write_at v (off_of b)
         (make_meta direct_magic (Z.of_nat (length data)))) (off_of b + 8) data ->
  length v' = length v /\
  header v' b = make_meta direct_magic (Z.of_nat (length data)) /\
  read_at v' (off_of b + 8) (length data) = data /\
  forall o n, (o + n <= off_of b \/ off_of b + Z.to_nat (d_max_size b) <= o)%nat ->
    read_at v' o n = read_at v o n.
Proof.
  intros (Ho & Hm & Hd) Hl ->. unfold header, off_of in *.
  destruct (meta_make direct_magic (Z.of_nat (length data))) as (Hml & _ & _);
    [unfold direct_magic; lia|lia|].
  rewrite !length_write_at. split; [done|]. split; [|split].
  - rewrite read_write_at_before by (rewrite ?length_write_at; lia).
    rewrite <- Hml. apply read_write_at_same. lia.
  - apply read_write_at_same. rewrite length_write_at. lia.
  - intros o n [Hb|Ha].
    + rewrite !read_write_at_before by (rewrite ?length_write_at; lia). done.
    + rewrite !read_write_at_after by (rewrite ?length_write_at; lia). done.
Qed.

Lemma direct_frame v v' b s :
  0 <= d_offset b -> 0 <= d_max_size b -> length v' = length v ->
  (forall o n, (o + n <= off_of b \/ off_of b + Z.to_nat (d_max_size b) <= o)%nat ->
     read_at v' o n = read_at v o n) ->
  direct_indep b s -> stride_ok v s ->
  forall o n, (off_of s <= o)%nat -> (o + n <= off_of s + Z.to_nat (d_max_size s))%nat ->
    read_at v' o n = read_at v o n.
Proof.
  unfold direct_indep, off_of. intros H0 H1 Hl Hfr Hi (Hs & Hm & _) o n Ho Hn.
  apply Hfr. destruct Hi; [right|left]; lia.
Qed.

Lemma direct_write_frame v v' b s :
  0 <= d_offset b -> 0 <= d_max_size b -> length v' = length v ->
  (forall o n, (o + n <= off_of b \/ off_of b + Z.to_nat (d_max_size b) <= o)%nat ->
     read_at v' o n = read_at v o n) ->
  direct_indep b s -> direct_wf v s ->
  direct_wf v' s /\ forall d, direct_stored v s d -> direct_stored v' s d.
Proof.
  intros H0 H1 Hl Hfr Hi [Hs Hh].
  pose proof (direct_frame v v' b s H0 H1 Hl Hfr Hi Hs) as Hr.
  pose proof Hs as (Ho & Hm & Hd).
  assert (Hhd : header v' s = header v s) by (unfold header; apply Hr; lia).
  split.
  { split; [unfold stride_ok in *; by rewrite Hl|]. by rewrite Hhd. }
  intros d. unfold direct_stored. rewrite Hhd.
  destruct (Z.eqb_spec (meta_magic (header v s)) direct_magic) as [Hmag|Hmag].
  - specialize (Hh Hmag). intros (Hp & Hn & Hd'). split_and!; [done|done|].
    rewrite <- Hd' at 2. apply Hr; lia.
  - intros (Hc & Hn & Hd'). split_and!; [done|done|].
    rewrite <- Hd' at 2. apply Hr; lia.
Qed.

Lemma take_read_at l o n k : (k <= n)%nat -> take k (read_at l o n) = read_at l o k.
Proof. intros H. unfold read_at. rewrite take_take. f_equal. lia. Qed.

(** The place of a bucket together with the claim that it is well-formed:
    [direct_stored] of an ill-formed stride promises nothing. *)
Definition direct_holds (v : list byte) (s : direct) (d : list byte) : Prop :=
  direct_wf v s /\ direct_stored v s d.

Lemma direct_bread_gives w b d n k :
  direct_wf (bytes w) b -> rd_ret (dread w b) = 0 -> rd_data (dread w b) = Some (d, n) ->
  Z.of_nat k <= n -> direct_holds (bytes w) b (take k d).
Proof.
  intros Hwf Hret Hdata Hk. split; [done|]. pose proof Hwf as [(Ho & Hm & Hd) Hh].
  destruct (direct_read_spec w b Hwf) as (w' & _ & _ & _ & Hspec). cbv zeta in Hspec. unfold direct_stored.
  pose proof (meta_length_range (header (bytes w) b)) as Hr.
  destruct (Z.eqb_spec (meta_magic (header (bytes w) b)) direct_magic) as [Hmag|_].
  - specialize (Hh Hmag). destruct (Z.eqb_spec (meta_written_length (header (bytes w) b)) 0).
    { destruct Hspec as [Hn _]. congruence. }
    destruct Hspec as [Hd' _]. rewrite Hd' in Hdata. inv Hdata. unfold off_of in *.
    rewrite take_read_at, length_read_at by lia. split_and!; [lia|lia|done].
  - destruct compat; [|destruct Hspec; congruence].
    destruct Hspec as [Hd' _]. rewrite Hd' in Hdata. inv Hdata. unfold off_of in *.
    rewrite take_read_at, length_read_at by lia. split_and!; [done|lia|done].
Qed.

Lemma direct_bread_stored w b data :
  direct_holds (bytes w) b data ->
  rd_ret (dread w b) = 0 /\
  exists d n, rd_data (dread w b) = Some (d, n) /\
    Z.of_nat (length data) <= n /\ take (length data) d = data.
Proof.
  intros [Hwf Hst]. pose proof Hwf as [(Ho & Hm & Hd) Hh].
  destruct (direct_read_spec w b Hwf) as (w' & _ & _ & _ & Hspec). cbv zeta in Hspec.
  unfold direct_stored in Hst.
  destruct (Z.eqb_spec (meta_magic (header (bytes w) b)) direct_magic) as [Hmag|_].
  - destruct Hst as (Hp & Hn & Hst).
    replace (meta_written_length (header (bytes w) b) =? 0) with false in Hspec by lia.
    destruct Hspec as [Hd' Hret]. split; [done|]. eexists _, _. split; [done|].
    split; [lia|]. rewrite take_read_at by lia. done.
  - destruct Hst as (-> & Hn & Hst). destruct Hspec as [Hd' Hret]. split; [done|].
    eexists _, _. split; [done|]. split; [lia|]. rewrite take_read_at by lia. done.
Qed.

Lemma direct_bwrite w b data :
  direct_wf (bytes w) b ->
  0 < Z.of_nat (length data) /\ Z.of_nat (length data) + 8 <= d_max_size b ->
  exists w2 b2, dwrite w b data = (0, w2, b2) /\ b2 = b /\
    direct_wf (bytes w2) b2 /\ direct_holds (bytes w2) b data /\
    (forall b', direct_indep b b' -> direct_wf (bytes w) b' -> direct_wf (bytes w2) b') /\
    (forall s' d, direct_indep b s' -> direct_holds (bytes w) s' d ->
       direct_holds (bytes w2) s' d).
Proof.
  intros [Hs Hh] [Hn Hl]. destruct (direct_write_spec w b data Hs Hl) as (w2 & E & Hb).
  destruct (direct_write_bytes (bytes w) b data (bytes w2) Hs Hl Hb) as (Hlen & Hhd & Hdt & Hfr).
  pose proof Hs as (Ho & Hm & Hd).
  destruct (meta_make direct_magic (Z.of_nat (length data))) as (_ & Hmg & Hwl);
    [unfold direct_magic; lia|lia|].
  assert (Hwf2 : direct_wf (bytes w2) b).
  { split; [unfold stride_ok in *; by rewrite Hlen|]. rewrite Hhd, Hwl. lia. }
  exists w2, b. split_and!; try done.
  - split; [done|]. unfold direct_stored. rewrite Hhd, Hmg, Hwl, Z.eqb_refl.
    split_and!; [lia|lia|done].
  - intros b' Hi Hw'. apply (direct_write_frame (bytes w) (bytes w2) b b'); (done || lia).
  - intros s' d Hi [Hw' Hst].
    destruct (direct_write_frame (bytes w) (bytes w2) b s') as [Hw2 Hst2]; try (done || lia).
    split; auto.
Qed.

#[export] Instance direct_ok :
  @BucketOk W direct (list byte) direct (direct_ops compat junk) bytes id.
Proof using FileOk0 Hjunk.
  refine (@Build_BucketOk W direct (list byte) direct (direct_ops compat junk) bytes id
    direct_wf (fun _ _ => True) direct_holds
    (fun s n => 0 < Z.of_nat n /\ Z.of_nat n + 8 <= d_max_size s) direct_indep _ _ _ _ _).
  - unfold direct_indep. tauto.
  - intros w b Hwf. cbn [bread direct_ops id].
    destruct (direct_read_spec w b Hwf) as (w' & -> & Hb & -> & Hspec). cbv zeta in Hspec.
    split_and!; [done|done|done|]. pose proof Hwf as [(Ho & Hm & Hd) Hh].
    pose proof (meta_length_range (header (bytes w) b)) as Hr. unfold off_of in *.
    destruct (Z.eqb_spec (meta_magic (header (bytes w) b)) direct_magic) as [Hmag|_];
      [specialize (Hh Hmag); destruct (Z.eqb_spec (meta_written_length (header (bytes w) b)) 0)
      |destruct compat]; destruct Hspec as [-> Hret].
    + by rewrite Hret.
    + rewrite length_read_at by lia. split; [lia|by left].
    + rewrite length_read_at by lia. split; [lia|by left].
    + by destruct Hret as [-> | ->].
  - intros w b d n k Hwf _. by apply direct_bread_gives.
  - intros w b data _ _. apply direct_bread_stored.
  - intros w b data. apply direct_bwrite.
Defined.

End Contract.

(** ** A concrete file: a device in memory that transfers at most three bytes
    at a time *)

Record memfile := MemFile {
  mf_bytes : list byte;
  mf_pos : nat
}.

Definition mem_chunk : nat := 3.

#[export] Instance mem_ops : FileOps memfile := {
  f_lseek w o :=
    if (0 <=? o) && (o <=? Z.of_nat (length (mf_bytes w)))
    then (o, MemFile (mf_bytes w) (Z.to_nat o)) else (-1, w);
  f_read w size :=
    let d := read_at (mf_bytes w) (mf_pos w) (Nat.min mem_chunk size) in
    (Z.of_nat (length d), d, MemFile (mf_bytes w) (mf_pos w + length d));
  f_write w buf :=
    let n := Nat.min (Nat.min mem_chunk (length buf)) (length (mf_bytes w) - mf_pos w) in
    (Z.of_nat n, MemFile (write_at (mf_bytes w) (mf_pos w) (take n buf)) (mf_pos w + n));
  f_flush w := (0, w);
  f_errno _ := EINVAL
}.

#[export] Instance mem_ok : FileOk memfile mf_bytes mf_pos.
Proof.
  split; cbn [f_lseek f_read f_write f_flush mem_ops].
  - intros w o Ho. replace ((0 <=? o) && (o <=? Z.of_nat (length (mf_bytes w)))) with true by lia. eauto.
  - intros w size Hs Hl. rewrite length_read_at by lia.
    exists (Nat.min mem_chunk size). eexists. split; [done|]. cbn [mf_bytes mf_pos].
    unfold mem_chunk. split_and!; (done || lia).
  - intros w buf Hne Hl. destruct buf as [|x buf]; [done|].
    replace (Nat.min (Nat.min mem_chunk (length (x :: buf))) (length (mf_bytes w) - mf_pos w))
      with (Nat.min mem_chunk (length (x :: buf))) by (cbn [length] in *; lia).
    exists (Nat.min mem_chunk (length (x :: buf))). eexists. split; [done|].
    cbn [mf_bytes mf_pos]. unfold mem_chunk. cbn [length]. split_and!; (done || lia).
  - eauto.
Qed.

(** ** Properties *)

(** A direct bucket gives back what was written to it: on any device
    with POSIX seek, read and write, however short the single transfers are,
    data that fits the stride behind the header is written successfully, and
    the next read returns exactly these bytes with their exact length; every
    other byte of the device keeps its value. *)
Theorem direct_roundtrip {W} `{!FileOps W} (bytes : W -> list byte) pos
    `{!FileOk W bytes pos} compat junk w b data :
  (forall n, length (junk n) = n) -> direct_wf (bytes w) b ->
  0 < Z.of_nat (length data) <= d_max_size b - 8 ->
  exists w', state_backend_bucket_direct_write compat w b data = (0, w', b) /\
    (let r := state_backend_bucket_direct_read compat junk w' b in
     rd_ret r = 0 /\ rd_data r = Some (data, Z.of_nat (length data))) /\
    forall i, ~ (d_offset b <= Z.of_nat i < d_offset b + 8 + Z.of_nat (length data)) ->
      bytes w' !! i = bytes w !! i.
Proof.
  intros Hj Hwf Hl. pose proof Hwf as [Hs _]. pose proof Hs as (Ho & Hm & Hd).
  destruct (direct_write_spec bytes pos compat w b data) as (w' & E & Hb); [done|lia|].
  destruct (direct_write_bytes (bytes w) b data (bytes w')) as (Hlen & Hhd & Hdt & _);
    [done|lia|done|].
  destruct (meta_make direct_magic (Z.of_nat (length data))) as (Hml & Hmg & Hwl);
    [unfold direct_magic; lia|lia|].
  assert (Hwf' : direct_wf (bytes w') b).
  { split; [unfold stride_ok in *; by rewrite Hlen|]. rewrite Hhd, Hwl. lia. }
  exists w'. split; [done|]. split.
  - destruct (direct_read_spec bytes pos compat junk Hj w' b Hwf') as (w2 & _ & _ & _ & Hsp).
    cbv zeta in *. rewrite Hhd, Hmg, Hwl, Z.eqb_refl, Nat2Z.id, Hdt in Hsp.
    replace (Z.of_nat (length data) =? 0) with false in Hsp by lia. tauto.
  - intros i Hi. rewrite Hb. unfold off_of in *.
    rewrite !lookup_write_at by (rewrite ?length_write_at, ?Hml; lia). rewrite Hml.
    repeat case_decide; (done || lia).
Qed.

Definition demo_dev : memfile := MemFile (replicate 64 Init.Byte.xff) 0.
Definition demo_junk (n : nat) : list byte := replicate n Init.Byte.xaa.
Definition demo_data : list byte := map byte_of [1; 2; 3; 4; 5].

Lemma direct_roundtrip_witness :
  exists w', state_backend_bucket_direct_write false demo_dev (DirectBucket 16 24) demo_data
             = (0, w', DirectBucket 16 24) /\
    rd_data (state_backend_bucket_direct_read false demo_junk w' (DirectBucket 16 24))
    = Some (demo_data, 5).
Proof.
  destruct (direct_roundtrip mf_bytes mf_pos false demo_junk demo_dev (DirectBucket 16 24)
    demo_data) as (w' & E & [_ Hr] & _).
  - intros n. apply length_replicate.
  - split; [|by vm_compute]. unfold stride_ok. cbn. lia.
  - cbn. lia.
  - exists w'. split; [exact E|exact Hr].
Defined.

(** With [CONFIG_STATE_BACKWARD_COMPATIBLE] data longer than the stride is
    written without any check of [max_size] and destroys the next bucket. *)
Example direct_write_overruns_stride :
  let b0 := DirectBucket 0 16 in
  let b1 := DirectBucket 16 16 in
  let '(_, w, _) := state_backend_bucket_direct_write true demo_dev b1 demo_data in
  let '(ret, w, _) := state_backend_bucket_direct_write true w b0 (demo_junk 20) in
  ret = 0 /\
  rd_data (state_backend_bucket_direct_read true demo_junk w b1) <> Some (demo_data, 5).
Proof. vm_compute. split; [done|]. intros H. inv H. Qed.

End Direct.
