(* ===== verification/Circular.v ===== *)
(** * Circular buckets (common/state/backend_bucket_circular.c)

    A circular bucket is one erase block of an MTD device.  Copies are
    appended, each padded to the write size and ending in magic and length,
    until the block is full and gets erased.  Opening a bucket searches the
    end of the written area backwards.  The file ends with the proof that a
    circular bucket satisfies the bucket contract of [Storage] on every chip
    that behaves as [Mtd.FlashOk] says. *)

From stdpp Require Import base list.
From Stdlib Require Import ZArith Lia.
From S2P Require Import Prelude Storage Mtd.

Module Circular.
Import Storage Mtd.

(** ** Data *)

Record circular := CircularBucket {
  eraseblock : Z;
  c_writesize : Z;
  c_max_size : Z;
  write_area : Z;
  last_written_length : Z
}.

Definition set_write_area (c : circular) (a : Z) : circular :=
  CircularBucket (eraseblock c) (c_writesize c) (c_max_size c) a (last_written_length c).

Definition set_found (c : circular) (a l : Z) : circular :=
  CircularBucket (eraseblock c) (c_writesize c) (c_max_size c) a l.

Definition circular_magic : Z := 0x14fa2d02.

(** struct state_backend_storage_bucket_circular_meta at the end of [buf]. *)
Definition sizeof_meta : Z := 8.

Definition make_meta (written_length : Z) : list byte :=
  le_bytes 4 circular_magic ++ le_bytes 4 written_length.

Definition roundup (x y : Z) : Z := (x + (y - 1)) / y * y.

Section Ops.
Context {D : Type} (cfg : mtd_config) (m : mtd_info D).
Context (junk : nat -> list byte) (malloc_addr : Z).

Local Abbreviation peb_torture := (mtd_peb_torture cfg m junk malloc_addr).

(** ** Access to the erase block *)

(** After an uncorrectable error the block is tortured; if it survives, the
    read reports zeroes and a bit flip so that the copy gets rewritten. *)
Definition state_mtd_peb_read (d : D) (c : circular) (buf : list byte) (offset len : Z)
  : Z * list byte * D * circular :=
  let '(ret, buf, d) := mtd_peb_read cfg m d buf (eraseblock c) offset len in
  if ret =? - EBADMSG then
    let '(ret, d) := peb_torture d (eraseblock c) in
    if ret =? - EIO then
      let '(_, d) := mtd_peb_mark_bad m d (eraseblock c) in (- EIO, buf, d, c)
    else if ret <? 0 then (ret, buf, d, c)
    else (- EUCLEAN, replicate (Z.to_nat len) Init.Byte.x00, d, set_write_area c 0)
  else (ret, buf, d, c).

Definition state_mtd_peb_write (d : D) (c : circular) (buf : list byte) (offset : Z) : Z * D :=
  let '(ret, d) := mtd_peb_write cfg m junk malloc_addr d buf (eraseblock c) offset in
  if ret =? - EBADMSG then
    let '(ret, d) := peb_torture d (eraseblock c) in
    if ret =? - EIO then
      let '(_, d) := mtd_peb_mark_bad m d (eraseblock c) in (- EIO, d)
    else if ret <? 0 then (ret, d)
    else (- EUCLEAN, d)
  else (ret, d).

Definition state_mtd_peb_erase (d : D) (c : circular) : Z * D :=
  mtd_peb_erase cfg m junk malloc_addr d (eraseblock c).

(** ** The bucket *)

(** Allocate [read_len] bytes, read them, and strip the meta data of the new
    layout. *)
Definition circular_read_data (d : D) (c : circular) (offset read_len : Z)
  : rd_out D circular :=
  if read_len =? 0 then RdOut (- EINVAL) None false d c
  else if read_len <? 0 then RdOut (- ENOMEM) None false d c
  else
    let '(ret, buf, d, c) :=
      state_mtd_peb_read d c (junk (Z.to_nat read_len)) (s32 offset) (s32 read_len) in
    if (ret <? 0) && negb (ret =? - EUCLEAN) then RdOut ret None false d c
    else
      let n := if last_written_length c =? 0 then read_len else read_len - sizeof_meta in
      RdOut ret (Some (buf, n)) false d c.

Definition state_backend_bucket_circular_read (d : D) (c : circular) : rd_out D circular :=
  if write_area c =? 0 then RdOut (- ENODATA) None false d c
  else if last_written_length c =? 0 then
    let read_len := Z.min (write_area c) (c_max_size c - sizeof_meta) in
    circular_read_data d (set_write_area c 0) 0 read_len
  else if (write_area c <? last_written_length c) ||
          negb (last_written_length c mod c_writesize c =? 0) then
    RdOut (- EINVAL) None false d (set_write_area c 0)
  else
    circular_read_data d c (write_area c - last_written_length c) (last_written_length c).

Definition state_backend_bucket_circular_write (d : D) (c : circular) (buf : list byte)
  : Z * D * circular :=
  let len := Z.of_nat (length buf) in
  let written_length := u32 (roundup (len + sizeof_meta) (c_writesize c)) in
  if c_max_size c <? written_length then (- E2BIG, d, c)
  else if written_length =? 0 then (- EINVAL, d, c)
  else
    let write_buf := replicate (Z.to_nat written_length) Init.Byte.x00 in
    let write_buf := write_at write_buf 0 buf in
    let write_buf := write_at write_buf (Z.to_nat (written_length - sizeof_meta))
                       (make_meta written_length) in
    let c := if c_max_size c <=? write_area c + written_length then set_write_area c 0 else c in
    let '(ret, d) := if write_area c =? 0 then state_mtd_peb_erase d c else (0, d) in
    if negb (ret =? 0) then (ret, d, c)
    else
      let offset := write_area c in
      let c := set_write_area c (write_area c + written_length) in
      let '(ret, d) := state_mtd_peb_write d c write_buf (s32 offset) in
      (ret, d, c).

(** The backwards search of the init function.  Result: the offset where it
    stopped, the length found there and whether foreign content was seen. *)
Fixpoint init_scan (fuel : nat) (ws : Z) (buf : list byte) (sub_offset : Z) : Z * Z * bool :=
  match fuel with
  | O => (sub_offset, 0, false)
  | S fuel =>
      if sub_offset <? 0 then (sub_offset, 0, false)
      else if mtd_buf_all_ff (malloc_addr + sub_offset)
                (read_at buf (Z.to_nat sub_offset) (Z.to_nat ws)) =? 0 then
        let meta := Z.to_nat (sub_offset + ws - sizeof_meta) in
        let magic := le_val (read_at buf meta 4) in
        if magic =? circular_magic then
          (sub_offset, le_val (read_at buf (meta + 4) 4), false)
        else (sub_offset, 0, negb (magic =? 0xffffffff) && negb (magic =? 0))
      else init_scan fuel ws buf (sub_offset - ws)
  end.

(** One round per write unit and one to leave the loop. *)
Definition scan_fuel (c : circular) : nat := S (S (Z.to_nat (c_max_size c / c_writesize c))).

Definition state_backend_bucket_circular_init (d : D) (c : circular)
  : Z * D * circular * bool :=
  let '(ret, buf, d, c) :=
    state_mtd_peb_read d c (junk (Z.to_nat (c_max_size c))) 0 (s32 (c_max_size c)) in
  if negb (ret =? 0) && negb (ret =? - EUCLEAN) then (ret, d, c, false)
  else
    let '(sub_offset, written_length, wrong_magic) :=
      init_scan (scan_fuel c) (c_writesize c) buf (c_max_size c - c_writesize c) in
    (0, d, set_found c (sub_offset + c_writesize c) written_length, wrong_magic).

Definition bucket_circular_is_block_bad (d : D) (c : circular) : Z :=
  mtd_peb_is_bad m d (eraseblock c).

(** The new bucket, its wrong_magic flag and the device. *)
Definition state_backend_bucket_circular_create (d : D) (eraseblock writesize : Z)
  : res (circular * bool) * D :=
  let writesize := if writesize <? 8 then 8 else writesize in
  let c := CircularBucket eraseblock writesize (erasesize m) 0 0 in
  let ret := bucket_circular_is_block_bad d c in
  if negb (ret =? 0) then (Err (- EIO), d)
  else
    let '(ret, d, c, wm) := state_backend_bucket_circular_init d c in
    if negb (ret =? 0) then (Err ret, d) else (Ok (c, wm), d).

#[export] Instance circular_ops : BucketOps D circular := {
  bread := state_backend_bucket_circular_read;
  bwrite := state_backend_bucket_circular_write
}.

End Ops.

(** ** The written area of a block *)

Definition tail_ff (blk : list byte) (wa : Z) : Prop := all_ff (drop (Z.to_nat wa) blk) = true.

(** Length recorded at the end of the write unit before [wa]. *)
Definition meta_len (blk : list byte) (wa : Z) : Z :=
  if le_val (read_at blk (Z.to_nat (wa - 8)) 4) =? circular_magic
  then le_val (read_at blk (Z.to_nat (wa - 8) + 4) 4) else 0.

(** What the search finds: [wa] ends the last write unit in use, and [lwl]
    is the length recorded there. *)
Definition found (ws : Z) (blk : list byte) (wa lwl : Z) : Prop :=
  (ws | wa) /\ 0 <= wa <= Z.of_nat (length blk) /\ tail_ff blk wa /\
  (wa = 0 /\ lwl = 0 \/
   0 < wa /\ all_ff (read_at blk (Z.to_nat (wa - ws)) (Z.to_nat ws)) = false /\
   lwl = meta_len blk wa).

Lemma found_unique ws blk wa1 l1 wa2 l2 :
  0 < ws -> found ws blk wa1 l1 -> found ws blk wa2 l2 -> wa1 = wa2 /\ l1 = l2.
Proof.
  intros Hws. assert (Hlt : forall a b la lb, found ws blk a la -> found ws blk b lb -> ~ a < b).
  { intros a b la lb ([ka Ha] & Hra & Hff & _) ([kb Hb] & Hrb & _ & Hlast) Hlt.
    destruct Hlast as [[-> _]|(Hb0 & Hnf & _)]; [lia|].
    assert (ka < kb) by (subst; apply (Z.mul_lt_mono_pos_r ws); lia).
    assert ((ka + 1) * ws <= kb * ws) by (apply Z.mul_le_mono_nonneg_r; lia).
    apply not_true_iff_false in Hnf. apply Hnf. unfold read_at.
    replace (Z.to_nat (b - ws)) with (Z.to_nat a + (Z.to_nat (b - ws) - Z.to_nat a))%nat by lia.
    rewrite <- drop_drop. apply (all_ff_read_at (drop (Z.to_nat a) blk)). exact Hff. }
  intros H1 H2. assert (wa1 = wa2) as ->.
  { pose proof (Hlt _ _ _ _ H1 H2). pose proof (Hlt _ _ _ _ H2 H1). lia. }
  split; [done|]. destruct H1 as (_ & _ & _ & H1), H2 as (_ & _ & _ & H2).
  destruct H1 as [[? ?]|(? & _ & ?)], H2 as [[? ?]|(? & _ & ?)]; (lia || congruence).
Qed.

Lemma drop_split_ff (blk : list byte) (a n : nat) :
  all_ff (read_at blk a n) = true -> all_ff (drop (a + n) blk) = true ->
  all_ff (drop a blk) = true.
Proof.
  intros H1 H2. rewrite <- (take_drop n (drop a blk)), all_ff_app, drop_drop.
  unfold read_at in H1. by rewrite H1, H2.
Qed.

Lemma init_scan_found addr fuel ws blk j so wl wm :
  8 <= ws -> (ws | Z.of_nat (length blk)) -> (j < fuel)%nat ->
  Z.of_nat j * ws <= Z.of_nat (length blk) -> tail_ff blk (Z.of_nat j * ws) ->
  init_scan addr fuel ws blk (Z.of_nat j * ws - ws) = (so, wl, wm) ->
  found ws blk (so + ws) wl.
Proof.
  intros Hws Hdiv. revert j. induction fuel as [|fuel IH]; intros j Hj Hl Hff; [lia|].
  cbn [init_scan]. destruct (Z.ltb_spec (Z.of_nat j * ws - ws) 0) as [Hneg|Hpos].
  { assert (j = 0%nat) as -> by nia. intros E. inv E.
    replace (Z.of_nat 0 * ws - ws + ws) with 0 by lia.
    split; [apply Z.divide_0_r|]. split; [lia|]. split; [done|]. by left. }
  rewrite mtd_buf_all_ff_spec.
  destruct (all_ff (read_at blk (Z.to_nat (Z.of_nat j * ws - ws)) (Z.to_nat ws))) eqn:Eff;
    cbn [Z.eqb].
  - assert (1 <= j)%nat by (destruct j; lia).
    assert (Hj1 : Z.of_nat (j - 1) * ws = Z.of_nat j * ws - ws).
    { replace (Z.of_nat (j - 1)) with (Z.of_nat j - 1) by lia. ring. }
    intros E. apply (IH (j - 1)%nat); rewrite ?Hj1; [lia|lia| |done].
    unfold tail_ff in *. apply (drop_split_ff blk _ (Z.to_nat ws)); [done|].
    by replace (Z.to_nat (Z.of_nat j * ws - ws) + Z.to_nat ws)%nat
      with (Z.to_nat (Z.of_nat j * ws)) by lia.
  - intros E.
    assert (so = Z.of_nat j * ws - ws /\ wl = meta_len blk (Z.of_nat j * ws)) as [-> ->].
    { revert E. unfold meta_len, sizeof_meta.
      replace (Z.of_nat j * ws - ws + ws - 8) with (Z.of_nat j * ws - 8) by lia.
      destruct (le_val _ =? circular_magic); intros E; by inv E. }
    replace (Z.of_nat j * ws - ws + ws) with (Z.of_nat j * ws) by lia.
    split; [by exists (Z.of_nat j)|]. split; [lia|]. split; [done|]. right.
    split; [lia|done].
Qed.

(** ** One copy on a block *)

Lemma roundup_spec x y : 0 < y -> x <= roundup x y < x + y /\ (y | roundup x y).
Proof.
  intros Hy. unfold roundup. pose proof (Z.div_mod (x + (y - 1)) y ltac:(lia)) as H.
  pose proof (Z.mod_pos_bound (x + (y - 1)) y Hy). split; [nia|apply Z.divide_factor_r].
Qed.

Lemma roundup_le x y z : 0 < y -> (y | z) -> x <= z -> roundup x y <= z.
Proof.
  intros Hy [k ->] Hx. destruct (roundup_spec x y Hy) as [Hr [q Hq]]. rewrite Hq in *.
  apply Z.mul_le_mono_nonneg_r; [lia|]. assert (q * y < (k + 1) * y) by lia.
  apply Z.mul_lt_mono_pos_r in H; lia.
Qed.

(** Reading inside what was just written. *)
Lemma read_write_at_inner l off wb o n :
  (off + length wb <= length l)%nat -> (o + n <= length wb)%nat ->
  read_at (write_at l off wb) (off + o) n = read_at wb o n.
Proof.
  intros H1 H2. rewrite <- (read_at_read_at _ off (length wb)) by done.
  by rewrite read_write_at_same.
Qed.

Definition copy_buf (wl : Z) (data : list byte) : list byte :=
  write_at (write_at (replicate (Z.to_nat wl) Init.Byte.x00) 0 data)
    (Z.to_nat (wl - 8)) (make_meta wl).

Lemma copy_buf_spec wl data :
  Z.of_nat (length data) + 8 <= wl < 2 ^ 32 ->
  Z.of_nat (length (copy_buf wl data)) = wl /\
  read_at (copy_buf wl data) 0 (length data) = data /\
  le_val (read_at (copy_buf wl data) (Z.to_nat (wl - 8)) 4) = circular_magic /\
  le_val (read_at (copy_buf wl data) (Z.to_nat (wl - 8) + 4) 4) = wl.
Proof.
  intros Hl. unfold copy_buf.
  set (z := replicate (Z.to_nat wl) Init.Byte.x00).
  assert (Hz : length z = Z.to_nat wl) by apply length_replicate.
  assert (Hm : length (make_meta wl) = 8%nat)
    by (unfold make_meta; by rewrite length_app, !length_le_bytes).
  assert (Hm1 : read_at (make_meta wl) 0 4 = le_bytes 4 circular_magic).
  { unfold read_at, make_meta. rewrite drop_0. apply take_app_length'. by rewrite length_le_bytes. }
  assert (Hm2 : read_at (make_meta wl) 4 4 = le_bytes 4 wl).
  { unfold read_at, make_meta. rewrite drop_app_length' by (by rewrite length_le_bytes).
    apply take_ge. rewrite length_le_bytes. lia. }
  rewrite !length_write_at, Hz. split; [lia|]. split; [|split].
  - rewrite read_write_at_before by (rewrite ?length_write_at, ?Hm, ?Hz; lia).
    apply read_write_at_same. rewrite Hz. lia.
  - pose proof (read_write_at_inner (write_at z 0 data) (Z.to_nat (wl - 8)) (make_meta wl) 0 4) as H.
    rewrite Nat.add_0_r in H. rewrite H by (rewrite ?length_write_at, ?Hm, ?Hz; lia).
    rewrite Hm1, le_val_bytes, Z.mod_small; [done|]. unfold circular_magic. lia.
  - rewrite read_write_at_inner by (rewrite ?length_write_at, ?Hm, ?Hz; lia).
    rewrite Hm2, le_val_bytes, Z.mod_small; [done|lia].
Qed.

Lemma all_ff_word l a n b :
  all_ff (read_at l a n) = true -> (a <= b)%nat -> (b + 4 <= a + n)%nat ->
  (a + n <= length l)%nat -> le_val (read_at l b 4) = 0xffffffff.
Proof.
  intros H H1 H2 H3.
  assert (Hr : read_at l b 4 = read_at (read_at l a n) (b - a) 4).
  { rewrite read_at_read_at by lia. f_equal. lia. }
  assert (Hf : all_ff (read_at l b 4) = true) by (rewrite Hr; by apply all_ff_read_at).
  assert (Hl : length (read_at l b 4) = 4%nat) by (apply length_read_at; lia).
  apply all_ff_spec in Hf. destruct (read_at l b 4) as [|b0 [|b1 [|b2 [|b3 [|]]]]]; try done.
  repeat (apply Forall_cons in Hf as [<- Hf]). done.
Qed.

(** Appending a copy at [off] moves the end of the written area behind it. *)
Lemma append_found ws blk off wl data :
  8 <= ws -> (ws | off) -> (ws | wl) -> 0 <= off ->
  Z.of_nat (length data) + 8 <= wl < 2 ^ 32 -> off + wl <= Z.of_nat (length blk) ->
  tail_ff blk off ->
  found ws (write_at blk (Z.to_nat off) (copy_buf wl data)) (off + wl) wl /\
  read_at (write_at blk (Z.to_nat off) (copy_buf wl data)) (Z.to_nat off) (length data) = data.
Proof.
  intros Hws Ho Hw H0 Hl Hfit Hff. destruct (copy_buf_spec wl data Hl) as (Hlen & Hdata & Hmg & Hml).
  set (wb := copy_buf wl data) in *.
  assert (Hin : (Z.to_nat off + length wb <= length blk)%nat) by lia.
  assert (Hmeta : meta_len (write_at blk (Z.to_nat off) wb) (off + wl) = wl).
  { unfold meta_len.
    replace (Z.to_nat (off + wl - 8)) with (Z.to_nat off + Z.to_nat (wl - 8))%nat by lia.
    rewrite <- Nat.add_assoc. rewrite !read_write_at_inner by lia.
    by rewrite Hmg, Hml, Z.eqb_refl. }
  assert (Hwsl : ws <= wl) by (apply Z.divide_pos_le; [lia|done]).
  split.
  - split; [by apply Z.divide_add_r|]. rewrite length_write_at. split; [lia|]. split.
    + unfold tail_ff in *. rewrite write_at_inside by done.
      replace (Z.to_nat (off + wl)) with (Z.to_nat off + length wb)%nat by lia.
      rewrite app_assoc. rewrite drop_app_length' by (rewrite length_app, length_take; lia).
      rewrite <- drop_drop. rewrite all_ff_spec in *. by apply Forall_drop.
    + right. split; [lia|]. split; [|done]. apply not_true_iff_false. intros Hall.
      assert (Hx : le_val (read_at (write_at blk (Z.to_nat off) wb)
        (Z.to_nat off + Z.to_nat (wl - 8)) 4) = 0xffffffff).
      { eapply all_ff_word; [exact Hall|lia|lia|rewrite length_write_at; lia]. }
      rewrite read_write_at_inner, Hmg in Hx by lia. done.
  - pose proof (read_write_at_inner blk (Z.to_nat off) wb 0 (length data)) as H.
    rewrite Nat.add_0_r in H. rewrite H by lia. done.
Qed.

(** ** The contract *)

(** The fixed part of a bucket. *)
Record cplace := CPlace {
  p_block : Z;
  p_writesize : Z;
  p_max_size : Z
}.

Definition cstat (c : circular) : cplace := CPlace (eraseblock c) (c_writesize c) (c_max_size c).

Section Contract.
Context {D : Type} (cfg : mtd_config) (m : mtd_info D).
Context (cells : D -> list byte) (bad : D -> Z -> bool) `{!FlashOk m cells bad}.
Context (junk : nat -> list byte) (malloc_addr : Z).
Context (Hcfg : cfg_plain cfg) (Hjunk : forall n, length (junk n) = n).

Local Abbreviation cread := (state_backend_bucket_circular_read cfg m junk malloc_addr).
Local Abbreviation cwrite := (state_backend_bucket_circular_write cfg m junk malloc_addr).

(** What persists: the cells and the bad block table. *)
Definition cview (d : D) : list byte * (Z -> bool) := (cells d, bad d).

Definition vblock (v : list byte * (Z -> bool)) (p : Z) : list byte :=
  read_at (fst v) (Z.to_nat (p * erasesize m)) (Z.to_nat (erasesize m)).

(** A usable block of the chip, with a write size the chip can program. *)
Definition place_ok (v : list byte * (Z -> bool)) (s : cplace) : Prop :=
  peb_in m (p_block s) /\ snd v (p_block s) = false /\ p_max_size s = erasesize m /\
  8 <= p_writesize s /\ (p_writesize s | erasesize m) /\
  (Z.shiftr (writesize m) (subpage_sft m) | p_writesize s) /\
  Z.of_nat (length (vblock v (p_block s))) = erasesize m.

Definition circ_wf (v : list byte * (Z -> bool)) (c : circular) : Prop :=
  place_ok v (cstat c) /\ (c_writesize c | write_area c) /\
  0 <= write_area c <= c_max_size c /\ 0 <= last_written_length c /\
  (write_area c = 0 \/ tail_ff (vblock v (eraseblock c)) (write_area c)).

Definition circ_fresh (v : list byte * (Z -> bool)) (c : circular) : Prop :=
  found (c_writesize c) (vblock v (eraseblock c)) (write_area c) (last_written_length c).

Definition circ_stored (v : list byte * (Z -> bool)) (s : cplace) (data : list byte) : Prop :=
  place_ok v s /\
  exists wa lwl, found (p_writesize s) (vblock v (p_block s)) wa lwl /\ 0 < wa /\
    let n := Z.of_nat (length data) in
    if lwl =? 0 then
      0 < p_max_size s - 8 /\ n <= Z.min wa (p_max_size s - 8) /\
      read_at (vblock v (p_block s)) 0 (length data) = data
    else
      lwl <= wa /\ lwl mod p_writesize s = 0 /\ n + 8 <= lwl /\ 0 < lwl /\
      read_at (vblock v (p_block s)) (Z.to_nat (wa - lwl)) (length data) = data.

Definition circ_indep (s1 s2 : cplace) : Prop := p_block s1 <> p_block s2.

Lemma read_data_ok d c offset n :
  place_ok (cview d) (cstat c) -> 0 <= offset -> 0 < n -> offset + n <= c_max_size c ->
  exists d', circular_read_data cfg m junk malloc_addr d c offset n =
      RdOut 0 (Some (read_at (vblock (cview d) (eraseblock c)) (Z.to_nat offset) (Z.to_nat n),
                     if last_written_length c =? 0 then n else n - 8)) false d' c /\
    cview d' = cview d.
Proof.
  intros (Hp & Hb & Hmax & _) Ho Hn Hs. pose proof fl_es as He. cbn [cstat p_block p_max_size] in *.
  unfold circular_read_data, state_mtd_peb_read.
  replace (n =? 0) with false by lia. replace (n <? 0) with false by lia.
  rewrite !s32_small by lia.
  destruct (peb_read_ok cfg m cells bad Hcfg d (junk (Z.to_nat n)) (eraseblock c) offset)
    as (d' & E & Hc & Hbd); rewrite ?Hjunk; try done; [|lia|].
  { intros E. apply (f_equal length) in E. rewrite Hjunk in E. cbn in E. lia. }
  rewrite Hjunk, Z2Nat.id in E by lia. rewrite E. cbn.
  exists d'. split; [done|]. unfold cview. by rewrite Hc, Hbd.
Qed.

(** What a read returns, in the five cases of the code. *)
Lemma circ_read_spec d c :
  circ_wf (cview d) c ->
  cview (rd_w (cread d c)) = cview d /\ cstat (rd_b (cread d c)) = cstat c /\
  circ_wf (cview d) (rd_b (cread d c)) /\
  let wa := write_area c in let lwl := last_written_length c in
  let blk := vblock (cview d) (eraseblock c) in
  if (wa =? 0) || (if lwl =? 0 then c_max_size c - 8 <=? 0
                   else (wa <? lwl) || negb (lwl mod c_writesize c =? 0))
  then rd_data (cread d c) = None /\
       (rd_ret (cread d c) = - ENODATA \/ rd_ret (cread d c) = - EINVAL \/
        rd_ret (cread d c) = - ENOMEM)
  else
    rd_ret (cread d c) = 0 /\
    if lwl =? 0 then
      let n := Z.min wa (c_max_size c - 8) in
      rd_data (cread d c) = Some (read_at blk 0 (Z.to_nat n), n)
    else rd_data (cread d c) =
           Some (read_at blk (Z.to_nat (wa - lwl)) (Z.to_nat lwl), lwl - 8).
Proof.
  intros Hwf. pose proof Hwf as (Hpl & Hdiv & Hwa & Hlw & Htail).
  assert (Hwf0 : circ_wf (cview d) (set_write_area c 0)).
  { split; [done|]. split; [apply Z.divide_0_r|]. cbn. split; [lia|]. split; [done|]. by left. }
  unfold state_backend_bucket_circular_read. cbv zeta.
  destruct (Z.eqb_spec (write_area c) 0) as [Hz|Hz]; cbn [orb].
  { cbn. split_and!; try done. by left. }
  destruct (Z.eqb_spec (last_written_length c) 0) as [Hl|Hl].
  - unfold sizeof_meta. destruct (Z.leb_spec (c_max_size c - 8) 0) as [Hm|Hm].
    + unfold circular_read_data.
      destruct (Z.eqb_spec (Z.min (write_area c) (c_max_size c - 8)) 0).
      { cbn. split_and!; try done. tauto. }
      replace (Z.min (write_area c) (c_max_size c - 8) <? 0) with true by lia.
      cbn. split_and!; try done. tauto.
    + destruct (read_data_ok d (set_write_area c 0) 0
        (Z.min (write_area c) (c_max_size c - 8))) as (d' & -> & Hv); [done|lia|lia|cbn; lia|].
      cbn. rewrite Hl, Hv. cbn. split_and!; done.
  - destruct (Z.ltb_spec (write_area c) (last_written_length c)) as [Hlt|Hge]; cbn [orb].
    { cbn. split_and!; try done. tauto. }
    destruct (last_written_length c mod c_writesize c =? 0); cbn [negb].
    2: { cbn. split_and!; try done. tauto. }
    destruct (read_data_ok d c (write_area c - last_written_length c) (last_written_length c))
      as (d' & -> & Hv); [done|lia|lia|lia|].
    cbn [rd_w rd_b rd_ret rd_data]. rewrite Hv.
    replace (last_written_length c =? 0) with false by lia. split_and!; done.
Qed.

Lemma lwl_ge_8 lwl ws : 8 <= ws -> 0 <= lwl -> lwl <> 0 -> lwl mod ws = 0 -> 8 <= lwl.
Proof.
  intros Hws H0 Hne Hm. apply Z.mod_divide in Hm; [|lia].
  apply Z.divide_pos_le in Hm; lia.
Qed.

(** Erasing when the copy does not fit leaves room for it. *)
Lemma room_for_copy d c wl :
  circ_wf (cview d) c -> 0 <= wl <= c_max_size c ->
  exists c1 d1, c1 = (if c_max_size c <=? write_area c + wl then set_write_area c 0 else c) /\
    (if write_area c1 =? 0 then state_mtd_peb_erase cfg m junk malloc_addr d c1 else (0, d))
      = (0, d1) /\
    cstat c1 = cstat c /\ last_written_length c1 = last_written_length c /\
    bad d1 = bad d /\ place_ok (cview d1) (cstat c) /\
    (c_writesize c | write_area c1) /\ 0 <= write_area c1 /\
    write_area c1 + wl <= c_max_size c /\
    tail_ff (vblock (cview d1) (eraseblock c)) (write_area c1) /\
    (forall q, peb_in m q -> q <> eraseblock c ->
       vblock (cview d1) q = vblock (cview d) q).
Proof.
  intros (Hpl & Hdiv & Hwa & Hlw & Htail) Hwl. pose proof Hpl as (Hp & Hb & Hmax & Hrest).
  cbn [cstat p_block p_max_size] in *.
  set (c1 := if c_max_size c <=? write_area c + wl then set_write_area c 0 else c).
  assert (Hc1 : cstat c1 = cstat c /\ eraseblock c1 = eraseblock c /\
    last_written_length c1 = last_written_length c /\
    (c_writesize c | write_area c1) /\ 0 <= write_area c1 /\
    write_area c1 + wl <= c_max_size c /\
    (write_area c1 = 0 \/ tail_ff (vblock (cview d) (eraseblock c)) (write_area c1))).
  { unfold c1. destruct (Z.leb_spec (c_max_size c) (write_area c + wl)); cbn.
    - split_and!; (done || apply Z.divide_0_r || lia || by left).
    - split_and!; (done || lia). }
  destruct Hc1 as (Hst & Heb & Hlwl & Hdiv1 & H0 & Hfit & Ht1). exists c1.
  destruct (Z.eqb_spec (write_area c1) 0) as [Hz|Hz].
  - unfold state_mtd_peb_erase. rewrite Heb.
    destruct (peb_erase_ok cfg m cells bad junk malloc_addr Hcfg d (eraseblock c) Hp Hb)
      as (d1 & E & Hblk & Hoth & Hbd).
    exists d1. split; [done|]. split; [done|]. split; [done|]. split; [done|]. split; [done|].
    pose proof fl_es as He.
    assert (Hv1 : vblock (cview d1) (eraseblock c) =
                  replicate (Z.to_nat (erasesize m)) Init.Byte.xff) by exact Hblk.
    assert (Hpl1 : place_ok (cview d1) (cstat c)).
    { unfold place_ok. cbn [cstat p_block p_writesize p_max_size cview snd].
      rewrite Hbd, Hv1, length_replicate. destruct Hrest as (? & ? & ? & _).
      split_and!; (done || lia). }
    split_and!; try done.
    rewrite Hz, Hv1. unfold tail_ff. apply all_ff_replicate.
  - exists d. destruct Ht1 as [?|Ht1]; [lia|]. split_and!; done.
Qed.

Lemma circ_write_spec d c data :
  circ_wf (cview d) c -> Z.of_nat (length data) + 8 <= c_max_size c ->
  exists d2 c2, cwrite d c data = (0, d2, c2) /\ cstat c2 = cstat c /\
    circ_wf (cview d2) c2 /\ circ_stored (cview d2) (cstat c) data /\
    bad d2 = bad d /\
    (forall q, peb_in m q -> q <> eraseblock c ->
       vblock (cview d2) q = vblock (cview d) q).
Proof.
  intros Hwf Hfit. pose proof Hwf as (Hpl & _ & _ & Hlw & _).
  pose proof Hpl as (Hp & Hb & Hmax & Hws & Hdws & Hpage & _). pose proof fl_es as He.
  cbn [cstat p_block p_max_size p_writesize] in *.
  unfold state_backend_bucket_circular_write, sizeof_meta. cbv zeta.
  set (wl0 := roundup (Z.of_nat (length data) + 8) (c_writesize c)).
  destruct (roundup_spec (Z.of_nat (length data) + 8) (c_writesize c) ltac:(lia)) as [Hrs Hrd].
  fold wl0 in Hrs, Hrd.
  assert (Hle : wl0 <= c_max_size c) by (apply roundup_le; [lia|by rewrite Hmax|lia]).
  rewrite (u32_small wl0) by lia.
  replace (c_max_size c <? wl0) with false by lia. replace (wl0 =? 0) with false by lia.
  fold (copy_buf wl0 data).
  destruct (room_for_copy d c wl0 Hwf ltac:(lia))
    as (c1 & d1 & Hc1 & E1 & Hst & Hlwl & Hbd1 & Hpl1 & Hdiv1 & H01 & Hfit1 & Ht1 & Hoth1).
  rewrite <- Hc1, E1. cbn [Z.eqb negb]. clear Hc1 E1.
  pose proof Hst as Hst'. unfold cstat in Hst'. injection Hst' as Heb Hw1 Hm1.
  destruct (copy_buf_spec wl0 data ltac:(lia)) as (Hlen & _).
  unfold state_mtd_peb_write. cbn [eraseblock set_write_area]. rewrite Heb, s32_small by lia.
  pose proof Hpl1 as (_ & Hb1 & _ & _ & _ & _ & Hbl1). cbn [cstat p_block cview snd] in Hb1, Hbl1.
  destruct (peb_write_ok cfg m cells bad junk malloc_addr Hcfg d1 (copy_buf wl0 data)
    (eraseblock c) (write_area c1)) as (d2 & E2 & Hblk & Hoth2 & Hbd2); try done; try lia.
  { rewrite Hlen. etrans; done. }
  { unfold tail_ff in Ht1. unfold read_at. rewrite all_ff_spec in *. by apply Forall_take. }
  rewrite E2. cbn [Z.eqb Z.opp EBADMSG].
  assert (Hv2 : vblock (cview d2) (eraseblock c) =
    write_at (vblock (cview d1) (eraseblock c)) (Z.to_nat (write_area c1)) (copy_buf wl0 data))
    by exact Hblk.
  destruct (append_found (c_writesize c) (vblock (cview d1) (eraseblock c)) (write_area c1)
    wl0 data) as [Hfound Hdata]; try done; try lia.
  assert (Hpl2 : place_ok (cview d2) (cstat c)).
  { unfold place_ok in *. cbn [cstat p_block p_writesize p_max_size cview snd] in *.
    rewrite Hbd2, Hv2, length_write_at. tauto. }
  eexists d2, _. split; [reflexivity|]. split; [exact Hst|].
  split; [|split; [split; [exact Hpl2|]|split]].
  - split; [by rewrite <- Hst in Hpl2|]. cbn. rewrite Hw1, Hm1, Heb, Hv2.
    split; [by apply Z.divide_add_r|]. split; [lia|]. split; [by rewrite Hlwl|right; apply Hfound].
  - exists (write_area c1 + wl0), wl0. cbn [cstat p_block p_writesize p_max_size].
    rewrite Hv2. split; [done|]. split; [lia|]. cbv zeta.
    replace (wl0 =? 0) with false by lia. split_and!; try lia.
    + apply Z.mod_divide; [lia|done].
    + replace (write_area c1 + wl0 - wl0) with (write_area c1) by lia. done.
  - congruence.
  - intros q Hq Hne. transitivity (vblock (cview d1) q); [by apply Hoth2|by apply Hoth1].
Qed.

Lemma circ_bread_gives d c buf n k :
  circ_wf (cview d) c -> circ_fresh (cview d) c ->
  rd_ret (cread d c) = 0 -> rd_data (cread d c) = Some (buf, n) -> Z.of_nat k <= n ->
  circ_stored (cview d) (cstat c) (take k buf).
Proof.
  intros Hwf Hfr Hret Hdata Hk. pose proof Hwf as (Hpl & _ & Hwa & Hlw & _).
  pose proof Hpl as (_ & _ & Hmax & Hws & _ & _ & Hbl). pose proof fl_es as He.
  cbn [cstat p_block p_writesize p_max_size] in *.
  destruct (circ_read_spec d c Hwf) as (_ & _ & _ & Hspec). cbv zeta in Hspec.
  destruct (_ || _) eqn:Eb; [destruct Hspec; congruence|]. destruct Hspec as [_ Hspec].
  apply orb_false_iff in Eb as [Ewa Eb]. bool_prop.
  split; [done|]. exists (write_area c), (last_written_length c).
  split; [exact Hfr|]. split; [lia|]. cbn [cstat p_block p_writesize p_max_size]. cbv zeta.
  destruct (Z.eqb_spec (last_written_length c) 0) as [Hl|Hl].
  - rewrite Hspec in Hdata. bool_prop.
    assert (n = Z.min (write_area c) (c_max_size c - 8)) by congruence.
    assert (buf = read_at (vblock (cview d) (eraseblock c)) 0 (Z.to_nat n)) as -> by congruence.
    unfold read_at. rewrite take_take, length_take, length_drop.
    split_and!; [lia|lia|]. f_equal. lia.
  - rewrite Hspec in Hdata. apply orb_false_iff in Eb as [E1 E2]. bool_prop.
    pose proof (lwl_ge_8 _ _ Hws Hlw Hl E2) as H8.
    assert (n = last_written_length c - 8) as -> by congruence.
    assert (buf = read_at (vblock (cview d) (eraseblock c))
      (Z.to_nat (write_area c - last_written_length c)) (Z.to_nat (last_written_length c)))
      as -> by congruence.
    unfold read_at. rewrite take_take, length_take, length_drop.
    split_and!; (lia || done || (f_equal; lia)).
Qed.

Lemma circ_bread_stored d c data :
  circ_wf (cview d) c -> circ_fresh (cview d) c -> circ_stored (cview d) (cstat c) data ->
  rd_ret (cread d c) = 0 /\
  exists buf n, rd_data (cread d c) = Some (buf, n) /\
    Z.of_nat (length data) <= n /\ take (length data) buf = data.
Proof.
  intros Hwf Hfr (Hpl & wa & lwl & Hf & Hwa & Hst).
  pose proof Hpl as (_ & _ & Hmax & Hws & _). cbn [cstat p_block p_writesize p_max_size] in *.
  destruct (found_unique (c_writesize c) _ _ _ _ _ ltac:(lia) Hf Hfr) as [-> ->]. cbv zeta in Hst.
  destruct (circ_read_spec d c Hwf) as (_ & _ & _ & Hspec). cbv zeta in Hspec.
  replace (write_area c =? 0) with false in Hspec by lia. cbn [orb] in Hspec.
  destruct (Z.eqb_spec (last_written_length c) 0) as [Hl|Hl].
  - destruct Hst as (Hm & Hn & Hd). replace (c_max_size c - 8 <=? 0) with false in Hspec by lia.
    destruct Hspec as [Hret Hdata]. split; [done|]. eexists _, _. split; [exact Hdata|].
    split; [lia|]. unfold read_at in *. rewrite take_take.
    etrans; [|exact Hd]. f_equal. lia.
  - destruct Hst as (Hle & Hmod & Hn & Hpos & Hd).
    replace (write_area c <? last_written_length c) with false in Hspec by lia.
    rewrite Hmod in Hspec. cbn [orb Z.eqb negb] in Hspec.
    destruct Hspec as [Hret Hdata]. split; [done|]. eexists _, _. split; [exact Hdata|].
    split; [lia|]. unfold read_at in *. rewrite take_take.
    etrans; [|exact Hd]. f_equal. lia.
Qed.

Lemma place_frame d d2 c s :
  bad d2 = bad d ->
  (forall q, peb_in m q -> q <> eraseblock c -> vblock (cview d2) q = vblock (cview d) q) ->
  circ_indep (cstat c) s -> place_ok (cview d) s ->
  place_ok (cview d2) s /\ vblock (cview d2) (p_block s) = vblock (cview d) (p_block s).
Proof.
  intros Hbd Hfr Hi Hpl. pose proof Hpl as (Hp & _).
  assert (Hb : vblock (cview d2) (p_block s) = vblock (cview d) (p_block s)).
  { apply Hfr; [done|]. intros E. by apply Hi. }
  split; [|done]. unfold place_ok in *. cbn [cview snd] in *. by rewrite Hbd, Hb.
Qed.

#[export] Instance circular_ok :
  @BucketOk D circular (list byte * (Z -> bool)) cplace (circular_ops cfg m junk malloc_addr)
    cview cstat.
Proof using FlashOk0 Hcfg Hjunk.
  refine (@Build_BucketOk D circular _ cplace (circular_ops cfg m junk malloc_addr) cview cstat
    circ_wf circ_fresh circ_stored (fun s n => Z.of_nat n + 8 <= p_max_size s) circ_indep
    _ _ _ _ _); cbn [bread bwrite circular_ops].
  - unfold circ_indep. intros s1 s2 H E. by apply H.
  - intros d c Hwf. destruct (circ_read_spec d c Hwf) as (Hv & Hs & Hw & Hspec).
    split_and!; try done. cbv zeta in Hspec. pose proof Hwf as (Hpl & _ & Hwa & Hlw & _).
    pose proof Hpl as (_ & _ & Hmax & Hws & _ & _ & Hbl). pose proof fl_es as He.
    cbn [cstat p_block p_writesize p_max_size] in *.
    destruct (_ || _) eqn:Eb.
    { destruct Hspec as [-> Hr]. destruct Hr as [->|[->| ->]]; done. }
    destruct Hspec as [-> Hdata]. apply orb_false_iff in Eb as [Ewa Eb]. bool_prop.
    destruct (Z.eqb_spec (last_written_length c) 0) as [Hl|Hl]; rewrite Hdata.
    + bool_prop. split; [|by left]. unfold read_at. rewrite length_take, length_drop. lia.
    + apply orb_false_iff in Eb as [E1 E2]. bool_prop.
      pose proof (lwl_ge_8 _ _ Hws Hlw Hl E2). split; [|by left].
      unfold read_at. rewrite length_take, length_drop. lia.
  - intros d c buf n k Hwf Hfr. by apply circ_bread_gives.
  - intros d c data Hwf Hfr Hst. by apply circ_bread_stored.
  - intros d c data Hwf Hfit. destruct (circ_write_spec d c data Hwf Hfit)
      as (d2 & c2 & E & Hs & Hw & Hst & Hbd & Hfr).
    exists d2, c2. split_and!; try done.
    + intros c' Hi (Hpl & H2 & H3 & H4 & H5).
      destruct (place_frame d d2 c (cstat c') Hbd Hfr Hi Hpl) as [Hpl' Hb].
      cbn [cstat p_block] in Hb. unfold circ_wf. rewrite Hb. done.
    + intros s' data' Hi (Hpl & Hex).
      destruct (place_frame d d2 c s' Hbd Hfr Hi Hpl) as [Hpl' Hb].
      unfold circ_stored. rewrite Hb. done.
Defined.

(** A bucket that was just created is well-formed and in step with the
    block. *)
Lemma circ_create_ok d p ws :
  peb_in m p -> bad d p = false -> (Z.max 8 ws | erasesize m) ->
  (Z.shiftr (writesize m) (subpage_sft m) | Z.max 8 ws) ->
  exists c wm d', state_backend_bucket_circular_create cfg m junk malloc_addr d p ws
      = (Ok (c, wm), d') /\ cview d' = cview d /\
    cstat c = CPlace p (Z.max 8 ws) (erasesize m) /\
    circ_wf (cview d) c /\ circ_fresh (cview d) c.
Proof.
  intros Hp Hb Hdiv Hpage. pose proof fl_es as He.
  unfold state_backend_bucket_circular_create, bucket_circular_is_block_bad.
  replace (if ws <? 8 then 8 else ws) with (Z.max 8 ws)
    by (destruct (Z.ltb_spec ws 8); lia).
  set (w := Z.max 8 ws) in *. cbn [eraseblock].
  rewrite (peb_is_bad_in m cells bad d p Hp), Hb. cbn [Z.eqb negb].
  unfold state_backend_bucket_circular_init, state_mtd_peb_read.
  cbn [c_max_size c_writesize eraseblock]. rewrite s32_small by lia.
  destruct (peb_read_ok cfg m cells bad Hcfg d (junk (Z.to_nat (erasesize m))) p 0)
    as (d' & E & Hc & Hbd); rewrite ?Hjunk; try done; [|lia|].
  { intros E. apply (f_equal length) in E. rewrite Hjunk in E. cbn in E. lia. }
  rewrite Hjunk, Z2Nat.id in E by lia. rewrite E.
  change (0 =? - EBADMSG) with false. cbn iota. change (0 =? 0) with true. cbn [negb andb].
  cbn [c_max_size c_writesize].
  assert (Hlb : length (block m cells d p) = Z.to_nat (erasesize m))
    by (by apply (length_block m cells bad)).
  change (Z.to_nat 0) with 0%nat. rewrite <- Hlb, read_at_full.
  destruct (init_scan malloc_addr _ w (block m cells d p) (erasesize m - w))
    as [[so wl] wm] eqn:Es.
  assert (Hf : found w (block m cells d p) (so + w) wl).
  { destruct Hdiv as [k Hk]. assert (0 < w) by lia.
    assert (0 <= k) by nia.
    apply (init_scan_found malloc_addr (scan_fuel (CircularBucket p w (erasesize m) 0 0))
      w _ (Z.to_nat k) so wl wm); rewrite ?Z2Nat.id, <- ?Hk by lia.
    - lia.
    - exists k. lia.
    - unfold scan_fuel. cbn [c_max_size c_writesize]. rewrite Hk, Z.div_mul by lia. lia.
    - lia.
    - unfold tail_ff. rewrite drop_ge by lia. done.
    - done. }
  assert (Hwl : 0 <= wl).
  { destruct Hf as (_ & _ & _ & [[_ ->]|(_ & _ & ->)]); [lia|].
    unfold meta_len. destruct (_ =? circular_magic); [apply le_val_nonneg|lia]. }
  eexists _, wm, d'. split; [reflexivity|]. split; [unfold cview; by rewrite Hc, Hbd|].
  split; [done|]. split; [|exact Hf].
  destruct Hf as (Hf1 & Hf2 & Hf3 & _). split.
  - unfold place_ok. cbn. split_and!; try done; try lia.
    change (vblock (cview d) p) with (block m cells d p). lia.
  - cbn. split_and!; try done; try lia. by right.
Qed.

End Contract.

(** ** Properties *)

(** C14: a copy written to a circular bucket survives a reboot.  On every
    well-behaved chip and for every state of the write area, a copy that fits
    the block is written successfully, erasing the block only when the copy
    does not fit behind the previous ones; opening the block again finds the
    end of the copy, and the read returns a buffer that starts with exactly
    the data written.  All other blocks keep their contents. *)
Theorem circular_write_reopen {D} cfg (m : mtd_info D) cells bad `{!FlashOk m cells bad}
    junk malloc_addr d c data :
  cfg_plain cfg -> (forall n, length (junk n) = n) ->
  circ_wf m (cview cells bad d) c -> Z.of_nat (length data) + 8 <= c_max_size c ->
  exists d2 c2 c3 wm d3,
    state_backend_bucket_circular_write cfg m junk malloc_addr d c data = (0, d2, c2) /\
    state_backend_bucket_circular_create cfg m junk malloc_addr d2 (eraseblock c) (c_writesize c)
      = (Ok (c3, wm), d3) /\
    (let r := state_backend_bucket_circular_read cfg m junk malloc_addr d3 c3 in
     rd_ret r = 0 /\ exists buf n, rd_data r = Some (buf, n) /\
       Z.of_nat (length data) <= n /\ take (length data) buf = data) /\
    forall q, peb_in m q -> q <> eraseblock c -> block m cells d3 q = block m cells d q.
Proof.
  intros Hcfg Hj Hwf Hfit.
  destruct (circ_write_spec cfg m cells bad junk malloc_addr Hcfg d c data Hwf Hfit)
    as (d2 & c2 & E2 & Hs2 & _ & Hst & Hbd & Hfr).
  pose proof Hst as ((Hp & Hb & Hmax & Hws & Hdws & Hpg & _) & _).
  cbn [cstat p_block p_writesize p_max_size cview snd] in *.
  destruct (circ_create_ok cfg m cells bad junk malloc_addr Hcfg Hj d2 (eraseblock c)
    (c_writesize c)) as (c3 & wm & d3 & E3 & Hv3 & Hs3 & Hwf3 & Hfr3);
    [done|done|by rewrite Z.max_r by lia..|].
  rewrite Z.max_r in Hs3 by lia. rewrite <- Hv3 in *.
  exists d2, c2, c3, wm, d3. split; [done|]. split; [done|]. split.
  - cbv zeta. apply (circ_bread_stored cfg m cells bad junk malloc_addr Hcfg Hj); [done|done|].
    rewrite Hs3, <- Hmax. exact Hst.
  - intros q Hq Hne. exact (Hfr q Hq Hne).
Qed.

Definition demo_chip : mtd_info nand := nand_info 2 64 8.
Definition demo_flash : nand := NandChip [] [].
Definition demo_bucket : circular := CircularBucket 1 8 64 0 0.

Lemma demo_chip_ok : FlashOk demo_chip (nand_cells 2 64) nand_isbad.
Proof. apply nand_flash_ok; [lia|exists 8; reflexivity|reflexivity|reflexivity]. Qed.

Definition demo_data : list byte := map byte_of [1; 2; 3; 4; 5].

Lemma circular_write_reopen_witness :
  exists d2 c2 c3 wm d3,
    state_backend_bucket_circular_write demo_cfg demo_chip malloc_zero 0 demo_flash
      demo_bucket demo_data = (0, d2, c2) /\
    state_backend_bucket_circular_create demo_cfg demo_chip malloc_zero 0 d2 1 8
      = (Ok (c3, wm), d3) /\
    exists buf n, rd_data (state_backend_bucket_circular_read demo_cfg demo_chip malloc_zero 0 d3 c3)
      = Some (buf, n) /\ take 5 buf = demo_data.
Proof.
  destruct (@circular_write_reopen nand demo_cfg demo_chip (nand_cells 2 64) nand_isbad
    demo_chip_ok malloc_zero 0 demo_flash demo_bucket demo_data)
    as (d2 & c2 & c3 & wm & d3 & E2 & E3 & (_ & buf & n & Er & _ & Ht) & _).
  - split; reflexivity.
  - apply length_malloc_zero.
  - split; [|split; [apply Z.divide_0_r|split; [cbn; lia|split; [cbn; lia|by left]]]].
    unfold place_ok. cbn [cstat demo_bucket p_block p_writesize p_max_size eraseblock
      c_writesize c_max_size].
    split_and!; try reflexivity; try lia; try (vm_compute; reflexivity).
    + split; [lia|vm_compute; reflexivity].
    + exists 8. reflexivity.
  - cbn. lia.
  - exists d2, c2, c3, wm, d3. split; [exact E2|]. split; [exact E3|]. exists buf, n.
    split; [exact Er|exact Ht].
Defined.

(** On a flash that was empty when the bucket was opened the length of the
    last copy is never noted: after two writes a read without reopening
    returns the first copy, taken for the layout without meta data. *)
Example circular_stale_read :
  let new := map byte_of [9; 9; 9; 9; 9] in
  let '(_, d, c) := state_backend_bucket_circular_write demo_cfg demo_chip malloc_zero 0
    demo_flash demo_bucket demo_data in
  let '(ret, d, c) := state_backend_bucket_circular_write demo_cfg demo_chip malloc_zero 0
    d c new in
  ret = 0 /\
  exists buf n, rd_data (state_backend_bucket_circular_read demo_cfg demo_chip malloc_zero 0 d c)
    = Some (buf, n) /\ take 5 buf = demo_data.
Proof. vm_compute. split; [reflexivity|]. eexists _, _. split; reflexivity. Qed.

End Circular.
