(* ===== verification/StorageInit.v ===== *)
(** * Setting up the buckets of a state (common/state/backend_storage.c)

    [state_storage_init] looks at the backing device: an MTD device that
    needs erasing gets circular buckets on its first good erase blocks, any
    other device gets direct buckets at multiples of the stride.  The
    theorems show that the buckets it sets up are what the redundancy
    theorems of [Storage] start from. *)

From stdpp Require Import base list list_numbers strings.
From Stdlib Require Import ZArith Lia.
From S2P Require Import Prelude Storage Mtd Direct Circular.

Module StorageInit.
Import Storage Mtd Direct Circular.

Definition desired_buckets : nat := 3.

(** What the MEMGETINFO ioctl reports. *)
Record mtd_info_user := MtdInfoUser {
  mi_flags_no_erase : bool;
  mi_size : Z;
  mi_erasesize : Z;
  mi_writesize : Z
}.

Definition IS_ALIGNED (x a : Z) : bool := Z.land x (a - 1) =? 0.

(** A bucket that was just created. *)
Definition new_bucket {B} (p : B) (wm : bool) (n : nat) (offset : Z) : bucket B :=
  Bucket p (Z.of_nat n) offset None 0 false wm.

(** ** Erase blocks *)

Section MtdInit.
Context {D : Type} (cfg : mtd_config) (m : mtd_info D).
Context (junk : nat -> list byte) (malloc_addr : Z).

(** The loop over the erase blocks; [n] buckets exist already.  The fuel is
    at least the number of blocks left plus one. *)
Fixpoint mtd_init_loop (fuel : nat) (d : D) (meminfo : mtd_info_user) (writesize offset stop : Z)
    (n : nat) : list (bucket circular) * D :=
  match fuel with
  | O => ([], d)
  | S fuel =>
      if negb (offset <? stop) then ([], d)
      else
        let eraseblock := u32 (offset / mi_erasesize meminfo) in
        match state_backend_bucket_circular_create cfg m junk malloc_addr d eraseblock writesize with
        | (Err _, d) =>
            mtd_init_loop fuel d meminfo writesize (offset + mi_erasesize meminfo) stop n
        | (Ok (c, wm), d) =>
            let b := new_bucket c wm n offset in
            if (desired_buckets <=? S n)%nat then ([b], d)
            else
              let '(bs, d) :=
                mtd_init_loop fuel d meminfo writesize (offset + mi_erasesize meminfo) stop (S n) in
              (b :: bs, d)
        end
  end.

Definition mtd_stop (st : storage circular) (meminfo : mtd_info_user) : Z :=
  let stop := storage_offset st + max_size st in
  if (stop =? 0) || (mi_size meminfo <? stop) then mi_size meminfo else stop.

Definition state_storage_mtd_buckets_init (d : D) (st : storage circular)
    (meminfo : mtd_info_user) (circular : bool) : Z * D * storage Circular.circular :=
  let stop := mtd_stop st meminfo in
  if negb (IS_ALIGNED (storage_offset st) (mi_erasesize meminfo)) then (- EINVAL, d, st)
  else
    let writesize := if circular then mi_writesize meminfo else mi_erasesize meminfo in
    let fuel := S (Z.to_nat ((stop - storage_offset st) / mi_erasesize meminfo + 1)) in
    let '(bs, d) := mtd_init_loop fuel d meminfo writesize (storage_offset st) stop 0 in
    let st := set_buckets st (buckets st ++ bs) in
    if (length bs =? 0)%nat then (- EIO, d, st) else (0, d, st).

End MtdInit.

(** ** Strides *)

(** [opened n] is the result of opening the device for the [n]-th bucket. *)
Fixpoint file_init_loop (opened : nat -> Z) (rounds n n_buckets : nat) (base stridesize : Z)
  : list (bucket direct) :=
  match rounds with
  | O => []
  | S rounds =>
      let offset := base + u32 (Z.of_nat n * stridesize) in
      match state_backend_bucket_direct_create (opened n) offset stridesize with
      | Err _ => file_init_loop opened rounds (S n) n_buckets base stridesize
      | Ok p =>
          new_bucket p false n_buckets offset ::
          file_init_loop opened rounds (S n) (S n_buckets) base stridesize
      end
  end.

Definition state_storage_file_buckets_init (opened : nat -> Z) (st : storage direct)
  : Z * storage direct :=
  if stridesize st =? 0 then (- EINVAL, st)
  else if negb (max_size st =? 0) &&
          (max_size st <? u32 (Z.of_nat desired_buckets * stridesize st)) then (- EINVAL, st)
  else
    let bs := file_init_loop opened desired_buckets 0 0 (storage_offset st) (stridesize st) in
    let st := set_buckets st (buckets st ++ bs) in
    if (length bs =? 0)%nat then (- EIO, st) else (0, st).

(** ** Choosing *)

Inductive any_storage :=
| CircularStorage (st : storage Circular.circular)
| DirectStorage (st : storage direct).

(** [meminfo] is the result of opening the device and asking for its MTD
    parameters. *)
Definition state_storage_init {D} (cfg : mtd_config) (m : mtd_info D) (junk : nat -> list byte)
    (malloc_addr : Z) (CONFIG_MTD readonly : bool) (d : D) (meminfo : res mtd_info_user)
    (opened : nat -> Z) (path : string) (offset max_size stridesize : Z)
    (storagetype : option string) : Z * D * any_storage :=
  match (if CONFIG_MTD then meminfo else Err (- ENODEV)) with
  | Ok mi =>
      if negb (mi_flags_no_erase mi) then
        let st name := Storage [] name stridesize offset max_size path readonly in
        match match storagetype with
              | None => Some (Some "circular"%string, true)
              | Some t =>
                  if bool_decide (t = "circular"%string) then Some (Some "circular"%string, true)
                  else if bool_decide (t = "noncircular"%string) then Some (Some t, false)
                  else None
              end with
        | None => (- EINVAL, d, CircularStorage (st storagetype))
        | Some (name, circular) =>
            let '(ret, d, s) :=
              state_storage_mtd_buckets_init cfg m junk malloc_addr d (st name) mi circular in
            (ret, d, CircularStorage s)
        end
      else
        let '(ret, s) := state_storage_file_buckets_init opened
          (Storage [] storagetype stridesize offset max_size path readonly) in
        (ret, d, DirectStorage s)
  | Err _ =>
      let '(ret, s) := state_storage_file_buckets_init opened
        (Storage [] storagetype stridesize offset max_size path readonly) in
      (ret, d, DirectStorage s)
  end.

(** ** Circular buckets are ready for use *)

Lemma pairwise_NoDup {A} (l : list A) : NoDup l -> pairwise (fun x y => x <> y) l.
Proof.
  induction 1 as [|x l Hn _ IH]; cbn; [done|]. split; [|done].
  apply Forall_forall. intros y Hy ->. done.
Qed.

Lemma pairwise_fmap {A B} (R : B -> B -> Prop) (f : A -> B) l :
  pairwise R (map f l) <-> pairwise (fun x y => R (f x) (f y)) l.
Proof.
  induction l as [|x l IH]; cbn; [done|]. rewrite IH.
  change (map f l) with (f <$> l). by rewrite Forall_fmap.
Qed.

Section MtdInitOk.
Context {D : Type} (cfg : mtd_config) (m : mtd_info D).
Context (cells : D -> list byte) (bad : D -> Z -> bool) `{!FlashOk m cells bad}.
Context (junk : nat -> list byte) (malloc_addr : Z).
Context (Hcfg : cfg_plain cfg) (Hjunk : forall n, length (junk n) = n).

(** As [Storage.opened] demands it of a circular bucket. *)
Definition circ_opened (v : list byte * (Z -> bool)) (b : bucket circular) : Prop :=
  @opened D circular _ cplace (circular_ops cfg m junk malloc_addr) (cview cells bad) cstat
    (circular_ok cfg m cells bad junk malloc_addr Hcfg Hjunk) v b.

(** The good ones of the blocks [p] to [q - 1]. *)
Definition good_blocks (d : D) (p q : Z) : list Z :=
  filter (fun x => bad d x = false) (seqZ p (q - p)).

Lemma good_blocks_step d p q :
  p < q -> good_blocks d p q =
  if decide (bad d p = false) then p :: good_blocks d (p + 1) q else good_blocks d (p + 1) q.
Proof.
  intros H. unfold good_blocks. rewrite seqZ_cons by lia. rewrite filter_cons.
  replace (Z.pred (q - p)) with (q - (p + 1)) by lia. done.
Qed.

Lemma mtd_init_loop_spec fuel d mi ws p q n bs d' :
  mi_erasesize mi = erasesize m -> (Z.max 8 ws | erasesize m) ->
  (Z.shiftr (writesize m) (subpage_sft m) | Z.max 8 ws) ->
  0 <= p -> q * erasesize m <= size m -> q < 2 ^ 32 ->
  (Z.to_nat (q - p) < fuel)%nat -> (n < desired_buckets)%nat ->
  mtd_init_loop cfg m junk malloc_addr fuel d mi ws (p * erasesize m) (q * erasesize m) n
    = (bs, d') ->
  cview cells bad d' = cview cells bad d /\
  map (fun b => eraseblock (priv b)) bs = take (desired_buckets - n) (good_blocks d p q) /\
  Forall (circ_opened (cview cells bad d)) bs /\
  Forall (fun b => c_max_size (priv b) = erasesize m) bs.
Proof.
  intros Hmi Hdiv Hpg. pose proof fl_es as He. revert d p n bs d'.
  induction fuel as [|fuel IH]; intros d p n bs d' Hp Hq Hq32 Hf Hn; [lia|].
  cbn [mtd_init_loop]. destruct (Z.ltb_spec (p * erasesize m) (q * erasesize m)) as [Hlt|Hge];
    cbn [negb].
  2: { intros E. inv E. assert (q <= p) by nia. unfold good_blocks.
       rewrite seqZ_nil by lia. cbn. rewrite take_nil. done. }
  assert (Hpq : p < q) by nia. rewrite Hmi, Z.div_mul, u32_small by lia.
  rewrite good_blocks_step by done.
  assert (Hpin : peb_in m p) by (split; nia).
  replace (p * erasesize m + erasesize m) with ((p + 1) * erasesize m) by lia.
  case_decide as Hb.
  - destruct (circ_create_ok cfg m cells bad junk malloc_addr Hcfg Hjunk d p ws Hpin Hb Hdiv Hpg)
      as (c & wm & d1 & -> & Hv & Hs & Hwf & Hfr).
    assert (Hop : circ_opened (cview cells bad d) (new_bucket c wm n (p * erasesize m)))
      by (split; [exact Hwf|split; [exact Hfr|done]]).
    assert (Hs1 : eraseblock c = p) by exact (f_equal p_block Hs).
    assert (Hs2 : c_max_size c = erasesize m) by exact (f_equal p_max_size Hs).
    assert (Hbd : bad d1 = bad d) by exact (f_equal snd Hv).
    destruct (Nat.leb_spec desired_buckets (S n)) as [H3|H3].
    + intros [= <- <-]. replace (desired_buckets - n)%nat with 1%nat by lia.
      cbn [map take priv new_bucket]. rewrite take_0.
      split_and!; [done|by rewrite Hs1|by constructor|by repeat constructor].
    + destruct (mtd_init_loop _ _ _ _ _ d1 _ _ _ _ _) as [bs1 d2] eqn:E1.
      intros [= <- <-]. apply IH in E1 as (Hv1 & Hm1 & Ho1 & Hx1); [|lia..].
      rewrite Hv in *. unfold good_blocks in Hm1 |- *. rewrite Hbd in Hm1.
      replace (desired_buckets - n)%nat with (S (desired_buckets - S n)) by lia.
      cbn [map take priv new_bucket]. rewrite Hs1.
      split_and!; [done|by rewrite Hm1|by constructor|by constructor].
  - unfold state_backend_bucket_circular_create, bucket_circular_is_block_bad.
    cbn [eraseblock]. rewrite (peb_is_bad_in m cells bad d p Hpin).
    destruct (bad d p); [|done]. cbn [Z.eqb negb]. apply IH; lia || done.
Qed.

End MtdInitOk.

(** ** Properties *)

(** C32: on an MTD device the state gets its buckets on the first three good
    erase blocks of its area (fewer if there are fewer, and -EIO if there is
    none); opening them does not change the flash, and every bucket is
    well-formed, in step with its block and on a block of its own, which is
    what loading and saving rely on. *)
Theorem state_storage_mtd_init_ok {D} cfg (m : mtd_info D) cells bad `{!FlashOk m cells bad}
    junk malloc_addr (Hcfg : cfg_plain cfg) (Hjunk : forall n, length (junk n) = n)
    d (st : storage Circular.circular) mi circular p q ret d' st' :
  mi_erasesize mi = erasesize m -> mi_writesize mi = writesize m ->
  (Z.shiftr (writesize m) (subpage_sft m) | Z.max 8 (writesize m)) ->
  (Z.max 8 (writesize m) | erasesize m) ->
  buckets st = [] -> storage_offset st = p * erasesize m -> mtd_stop st mi = q * erasesize m ->
  0 <= p <= q -> q * erasesize m <= size m -> q < 2 ^ 32 ->
  IS_ALIGNED (storage_offset st) (erasesize m) = true ->
  state_storage_mtd_buckets_init cfg m junk malloc_addr d st mi circular = (ret, d', st') ->
  cview cells bad d' = cview cells bad d /\
  map (fun b => eraseblock (priv b)) (buckets st') = take 3 (good_blocks bad d p q) /\
  Forall (circ_opened cfg m cells bad junk malloc_addr Hcfg Hjunk (cview cells bad d))
    (buckets st') /\
  pairwise circ_indep (map (fun b => cstat (priv b)) (buckets st')) /\
  ret = if (length (good_blocks bad d p q) =? 0)%nat then - EIO else 0.
Proof.
  intros Hmi Hmw Hpg Hdiv Hbs Hoff Hstop Hpq Hq Hq32 Hal. unfold state_storage_mtd_buckets_init.
  rewrite Hmi, Hmw, Hal, Hstop, Hoff, Hbs. cbn [negb app]. pose proof fl_es as He.
  set (ws := if circular then writesize m else erasesize m).
  assert (Hws : (Z.max 8 ws | erasesize m) /\ (Z.shiftr (writesize m) (subpage_sft m) | Z.max 8 ws)).
  { unfold ws. destruct circular; [done|]. apply Z.divide_pos_le in Hdiv as Hle; [|lia].
    rewrite Z.max_r by lia. split; [done|]. by etrans. }
  destruct Hws as [Hw1 Hw2].
  destruct (mtd_init_loop _ _ _ _ _ d mi ws _ _ 0) as [bs d1] eqn:E.
  apply (mtd_init_loop_spec cfg m cells bad junk malloc_addr Hcfg Hjunk) in E
    as (Hv & Hmap & Hop & _); try done; try lia.
  2: { rewrite <- Z.mul_sub_distr_r, Z.div_mul by lia. lia. }
  2: { unfold desired_buckets. lia. }
  intros E. assert (st' = set_buckets st bs /\ d' = d1 /\
    ret = if (length bs =? 0)%nat then - EIO else 0) as (-> & -> & ->)
    by (destruct (length bs =? 0)%nat; by inv E).
  cbn [buckets set_buckets]. change (desired_buckets - 0)%nat with 3%nat in Hmap.
  split_and!; [done|done|done| |].
  - apply pairwise_fmap. apply (pairwise_fmap (fun x y => x <> y) (fun b => eraseblock (priv b))).
    rewrite Hmap. apply pairwise_NoDup. eapply sublist_NoDup; [|apply sublist_take].
    apply NoDup_filter, NoDup_seqZ.
  - assert (Hl : length bs = Nat.min 3 (length (good_blocks bad d p q))).
    { apply (f_equal length) in Hmap. by rewrite length_map, length_take in Hmap. }
    rewrite Hl. by destruct (good_blocks bad d p q).
Qed.

(** On any other device the three direct buckets occupy consecutive
    strides from the offset of the state: they do not overlap and together
    stay inside the given size.  The setup succeeds unless the device cannot
    be opened, the stride is missing or three strides do not fit. *)
Theorem state_storage_file_init_ok (opened : nat -> Z) (st : storage direct) ret st' :
  buckets st = [] -> (forall n, 0 <= opened n) -> 0 <= stridesize st < 2 ^ 30 ->
  0 <= max_size st ->
  state_storage_file_buckets_init opened st = (ret, st') ->
  (ret = 0 <-> stridesize st <> 0 /\ (max_size st = 0 \/ 3 * stridesize st <= max_size st)) /\
  (ret <> 0 -> ret = - EINVAL /\ buckets st' = []) /\
  (ret = 0 ->
   map priv (buckets st') =
     [DirectBucket (storage_offset st) (stridesize st);
      DirectBucket (storage_offset st + stridesize st) (stridesize st);
      DirectBucket (storage_offset st + 2 * stridesize st) (stridesize st)] /\
   pairwise direct_indep (map priv (buckets st'))).
Proof.
  intros Hbs Hop Hst Hmx. unfold state_storage_file_buckets_init, desired_buckets.
  change (Z.of_nat 3) with 3. rewrite (u32_small (3 * stridesize st)) by lia. rewrite Hbs.
  destruct (Z.eqb_spec (stridesize st) 0) as [Hz|Hz].
  { intros E. inv E. unfold EINVAL. split_and!; [lia|done|lia]. }
  destruct (negb (max_size st =? 0) && (max_size st <? 3 * stridesize st)) eqn:Ec.
  { intros E. inv E. unfold EINVAL. bool_prop. split_and!; [lia|done|lia]. }
  assert (Hfit : max_size st = 0 \/ 3 * stridesize st <= max_size st).
  { apply andb_false_iff in Ec as [Ec|Ec]; bool_prop; lia. }
  unfold file_init_loop, state_backend_bucket_direct_create.
  replace (opened 0%nat <? 0) with false by (pose proof (Hop 0%nat); lia).
  replace (opened 1%nat <? 0) with false by (pose proof (Hop 1%nat); lia).
  replace (opened 2%nat <? 0) with false by (pose proof (Hop 2%nat); lia).
  rewrite !u32_small by lia. cbn [length Nat.eqb app]. intros E. inv E.
  cbn [buckets set_buckets map priv new_bucket]. split_and!; [tauto|done|]. intros _.
  replace (storage_offset st + Z.of_nat 0 * stridesize st) with (storage_offset st) by lia.
  replace (storage_offset st + Z.of_nat 1 * stridesize st)
    with (storage_offset st + stridesize st) by lia.
  replace (storage_offset st + Z.of_nat 2 * stridesize st)
    with (storage_offset st + 2 * stridesize st) by lia.
  split; [done|]. unfold direct_indep. cbn [pairwise map d_offset d_max_size].
  repeat (split || constructor); cbn [d_offset d_max_size]; lia.
Qed.

(** ** Concrete devices *)

Definition init_chip : mtd_info nand := nand_info 4 64 8.
Definition init_flash : nand := NandChip [] [1].

Lemma init_chip_ok : FlashOk init_chip (nand_cells 4 64) nand_isbad.
Proof. apply nand_flash_ok; [lia|exists 8; reflexivity|reflexivity|reflexivity]. Qed.

Definition demo_storage {B} (stride : Z) : storage B :=
  Storage [] None stride 0 0 "/dev/state" false.

Lemma demo_plain : cfg_plain demo_cfg.
Proof. split; reflexivity. Qed.

Lemma state_storage_mtd_init_ok_witness :
  let mi := MtdInfoUser false 256 64 8 in
  let '(ret, d', st') := state_storage_mtd_buckets_init demo_cfg init_chip malloc_zero 0
    init_flash (demo_storage 0) mi true in
  ret = 0 /\ map (fun b => eraseblock (priv b)) (buckets st') = [0; 2; 3].
Proof.
  cbv zeta. destruct (state_storage_mtd_buckets_init demo_cfg init_chip malloc_zero 0
    init_flash (demo_storage 0) (MtdInfoUser false 256 64 8) true) as [[ret d'] st'] eqn:E.
  destruct (@state_storage_mtd_init_ok nand demo_cfg init_chip (nand_cells 4 64) nand_isbad
    init_chip_ok malloc_zero 0 demo_plain length_malloc_zero init_flash (demo_storage 0)
    (MtdInfoUser false 256 64 8) true 0 4 ret d' st') as (_ & Hm & _ & _ & Hr);
    try reflexivity; try lia; try (vm_compute; reflexivity).
  - exists 8. reflexivity.
  - exact E.
  - split; [rewrite Hr; vm_compute; reflexivity|rewrite Hm; vm_compute; reflexivity].
Defined.

Lemma state_storage_file_init_ok_witness :
  let '(ret, st') := state_storage_file_buckets_init (fun _ => 3) (demo_storage 512) in
  ret = 0 /\ map priv (buckets st') =
    [DirectBucket 0 512; DirectBucket 512 512; DirectBucket 1024 512].
Proof.
  destruct (state_storage_file_buckets_init (fun _ => 3) (demo_storage 512))
    as [ret st'] eqn:E.
  destruct (state_storage_file_init_ok (fun _ => 3) (demo_storage 512) ret st')
    as (Hiff & _ & Hm); [reflexivity|intros; lia|cbn; lia|cbn; lia|exact E|].
  assert (Hr : ret = 0) by (apply Hiff; cbn; split; [lia|by left]).
  split; [exact Hr|]. apply Hm. exact Hr.
Defined.

End StorageInit.
