(* ===== verification/Strtox.v ===== *)
(** * Integers from strings (lib/strtox.c, lib/kstrtox.c)

    The parsers behind every numeric variable and command argument.  A C
    string is a [string] without its terminator; reading at or behind the end
    gives the terminator.  A pointer into a string is the rest of the string
    from there on. *)

From stdpp Require Import base list strings.
From Stdlib Require Import ZArith Lia.
From Stdlib Require Import Strings.Ascii.
From S2P Require Import Prelude.

Module Strtox.

Definition char_val (a : ascii) : Z := Z.of_N (N_of_ascii a).

(** [s[i]]. *)
Definition char_at (s : string) (i : nat) : Z :=
  match String.get i s with
  | Some a => char_val a
  | None => 0
  end.

(** [s + n]. *)
Fixpoint str_drop (n : nat) (s : string) : string :=
  match n, s with
  | S n, String _ s => str_drop n s
  | _, _ => s
  end.

Definition s8 (z : Z) : Z := (z + 2 ^ 7) mod 2 ^ 8 - 2 ^ 7.
Definition s16 (z : Z) : Z := (z + 2 ^ 15) mod 2 ^ 16 - 2 ^ 15.

Definition ULLONG_MAX : Z := 2 ^ 64 - 1.
Definition KSTRTOX_OVERFLOW : Z := 2 ^ 31.

(** ** Characters (include/linux/ctype.h) *)

Definition isdigit (c : Z) : bool := (48 <=? c) && (c <=? 57).

Definition isxdigit (c : Z) : bool :=
  isdigit c || ((65 <=? c) && (c <=? 70)) || ((97 <=? c) && (c <=? 102)).

Definition _tolower (c : Z) : Z := Z.lor c 0x20.

(** ** lib/kstrtox.c *)

Definition _parse_integer_fixup_radix (s : string) (base : Z) : string * Z :=
  let base :=
    if base =? 0 then
      if char_at s 0 =? 48 then
        if (_tolower (char_at s 1) =? 120) && isxdigit (char_at s 2) then 16 else 8
      else 10
    else base in
  if (base =? 16) && (char_at s 0 =? 48) && (_tolower (char_at s 1) =? 120)
  then (str_drop 2 s, base) else (s, base).

(** The value of a digit character, any radix. *)
Definition digit (c : Z) : option Z :=
  let lc := Z.lor c 0x20 in
  if (48 <=? c) && (c <=? 57) then Some (c - 48)
  else if (97 <=? lc) && (lc <=? 102) then Some (lc - 97 + 10)
  else None.

Fixpoint parse_loop (base : Z) (s : string) (res rv : Z) : Z * Z :=
  match s with
  | EmptyString => (res, rv)
  | String a s =>
      match digit (char_val a) with
      | None => (res, rv)
      | Some val =>
          if base <=? val then (res, rv)
          else
            let rv :=
              if negb (Z.land res (u64 (Z.shiftl ULLONG_MAX 60)) =? 0) &&
                 ((ULLONG_MAX - val) / base <? res)
              then Z.lor rv KSTRTOX_OVERFLOW else rv in
            parse_loop base s (u64 (res * base + val)) (u32 (rv + 1))
      end
  end.

(** Result and number of characters with the overflow bit. *)
Definition _parse_integer (s : string) (base : Z) : Z * Z := parse_loop base s 0 0.

Definition _kstrtoull (s : string) (base : Z) : res Z :=
  let '(s, base) := _parse_integer_fixup_radix s base in
  let '(_res, rv) := _parse_integer s base in
  if negb (Z.land rv KSTRTOX_OVERFLOW =? 0) then Err (- ERANGE)
  else if rv =? 0 then Err (- EINVAL)
  else
    let s := str_drop (Z.to_nat rv) s in
    let s := if char_at s 0 =? 10 then str_drop 1 s else s in
    if negb (char_at s 0 =? 0) then Err (- EINVAL) else Ok _res.

Definition kstrtoull (s : string) (base : Z) : res Z :=
  _kstrtoull (if char_at s 0 =? 43 then str_drop 1 s else s) base.

Definition kstrtoll (s : string) (base : Z) : res Z :=
  if char_at s 0 =? 45 then
    match _kstrtoull (str_drop 1 s) base with
    | Err rv => Err rv
    | Ok tmp => if 0 <? s64 (u64 (- tmp)) then Err (- ERANGE) else Ok (s64 (u64 (- tmp)))
    end
  else
    match kstrtoull s base with
    | Err rv => Err rv
    | Ok tmp => if s64 tmp <? 0 then Err (- ERANGE) else Ok (s64 tmp)
    end.

(** [long] has 64 bits. *)
Definition _kstrtoul (s : string) (base : Z) : res Z :=
  match kstrtoull s base with
  | Err rv => Err rv
  | Ok tmp => if negb (tmp =? u64 tmp) then Err (- ERANGE) else Ok tmp
  end.

Definition _kstrtol (s : string) (base : Z) : res Z :=
  match kstrtoll s base with
  | Err rv => Err rv
  | Ok tmp => if negb (tmp =? s64 tmp) then Err (- ERANGE) else Ok tmp
  end.

Definition kstrtouint (s : string) (base : Z) : res Z :=
  match kstrtoull s base with
  | Err rv => Err rv
  | Ok tmp => if negb (tmp =? u32 tmp) then Err (- ERANGE) else Ok tmp
  end.

Definition kstrtoint (s : string) (base : Z) : res Z :=
  match kstrtoll s base with
  | Err rv => Err rv
  | Ok tmp => if negb (tmp =? s32 tmp) then Err (- ERANGE) else Ok tmp
  end.

Definition kstrtou16 (s : string) (base : Z) : res Z :=
  match kstrtoull s base with
  | Err rv => Err rv
  | Ok tmp => if negb (tmp =? u16 tmp) then Err (- ERANGE) else Ok tmp
  end.

Definition kstrtos16 (s : string) (base : Z) : res Z :=
  match kstrtoll s base with
  | Err rv => Err rv
  | Ok tmp => if negb (tmp =? s16 tmp) then Err (- ERANGE) else Ok tmp
  end.

Definition kstrtou8 (s : string) (base : Z) : res Z :=
  match kstrtoull s base with
  | Err rv => Err rv
  | Ok tmp => if negb (tmp =? u8 tmp) then Err (- ERANGE) else Ok tmp
  end.

Definition kstrtos8 (s : string) (base : Z) : res Z :=
  match kstrtoll s base with
  | Err rv => Err rv
  | Ok tmp => if negb (tmp =? s8 tmp) then Err (- ERANGE) else Ok tmp
  end.

(** The first character decides, or the first two for "on" and "off". *)
Definition kstrtobool (s : option string) : res bool :=
  match s with
  | None => Err (- EINVAL)
  | Some s =>
      let among c := existsb (Z.eqb (char_at s c)) in
      if among 0%nat [121; 89; 49] then Ok true
      else if among 0%nat [110; 78; 48] then Ok false
      else if among 0%nat [111; 79] then
        if among 1%nat [110; 78] then Ok true
        else if among 1%nat [102; 70] then Ok false
        else Err (- EINVAL)
      else Err (- EINVAL)
  end.

(** ** lib/strtox.c: result and end pointer *)

Definition simple_strtoull (cp : string) (base : Z) : Z * string :=
  let '(cp, base) := _parse_integer_fixup_radix cp base in
  let '(result, rv) := _parse_integer cp base in
  (result, str_drop (Z.to_nat (Z.land rv (u32 (Z.lnot KSTRTOX_OVERFLOW)))) cp).

Definition simple_strtoul (cp : string) (base : Z) : Z * string := simple_strtoull cp base.

Definition simple_strtol (cp : string) (base : Z) : Z * string :=
  if char_at cp 0 =? 45 then
    let '(r, e) := simple_strtoul (str_drop 1 cp) base in (s64 (u64 (- r)), e)
  else let '(r, e) := simple_strtoul cp base in (s64 r, e).

Definition simple_strtoll (cp : string) (base : Z) : Z * string :=
  if char_at cp 0 =? 45 then
    let '(r, e) := simple_strtoull (str_drop 1 cp) base in (s64 (u64 (- r)), e)
  else let '(r, e) := simple_strtoull cp base in (s64 r, e).

(** The result is an [unsigned int] before the check for overflow. *)
Definition simple_strtouint (cp : string) (base : Z) : Z * string :=
  let '(r, e) := simple_strtoull cp base in
  let ret := u32 r in
  if negb (ret =? u32 ret) then (0, cp) else (ret, e).

Fixpoint pow10_loop (n : nat) (scale : Z) : Z :=
  match n with
  | O => scale
  | S n => pow10_loop n (s64 (scale * 10))
  end.

(** The [end == cp] test compares positions: nothing was consumed. *)
Definition simple_strtofract (cp : string) (division : Z) : Z * string :=
  let start := cp in
  let sign := if char_at cp 0 =? 45 then -1 else 1 in
  let cp := if (char_at cp 0 =? 45) || (char_at cp 0 =? 43) then str_drop 1 cp else cp in
  if negb (isdigit (char_at cp 0)) then (s64 (sign * 0), start)
  else
    let '(integer, e) := simple_strtouint cp 10 in
    if (String.length e =? String.length cp)%nat then (s64 (sign * 0), e)
    else
      let '(fract, fract_len, e) :=
        if (char_at e 0 =? 46) || (char_at e 0 =? 44) then
          let cp := str_drop 1 e in
          let '(fract, e) := simple_strtouint cp 10 in
          (fract, (String.length cp - String.length e)%nat, e)
        else (0, O, e) in
      let result := s64 (integer * division) in
      let scale := pow10_loop fract_len 1 in
      let result :=
        if (0 <? fract_len)%nat
        then s64 (result + u64 (s64 (fract * division)) / u64 scale) else result in
      (s64 (sign * result), e).

(** ** Printing numbers (lib/vsprintf.c)

    [number] emits its characters one by one and stops storing at the end of
    the buffer; the model is the string it emits. *)

Definition ZEROPAD : Z := 1.
Definition SIGN : Z := 2.
Definition PLUS : Z := 4.
Definition SPACE : Z := 8.
Definition LEFT : Z := 16.
Definition SMALL : Z := 32.
Definition SPECIAL : Z := 64.

Definition has (type flag : Z) : bool := negb (Z.land type flag =? 0).

Definition char_of (z : Z) : ascii := ascii_of_N (Z.to_N z).

(** [digits[d] | locase]. *)
Definition digit_char (locase d : Z) : ascii :=
  char_of (Z.lor (if d <? 10 then 48 + d else 65 + d - 10) locase).

(** The [do ... while (num != 0)] loop, least significant digit first; 64
    rounds are enough for 64 bits in every base from 2 on. *)
Fixpoint number_digits (fuel : nat) (base num : Z) : list Z :=
  match fuel with
  | O => []
  | S fuel => num mod base :: (if num / base =? 0 then [] else number_digits fuel base (num / base))
  end.

Fixpoint chars (n : nat) (c : ascii) : string :=
  match n with
  | O => EmptyString
  | S n => String c (chars n c)
  end.

(** [while (--size >= 0) *buf++ = c]: what it emits and [size] afterwards. *)
Definition pad (size : Z) (c : ascii) : string * Z :=
  (chars (Z.to_nat size) c, if 0 <=? size then -1 else size - 1).

Definition number (num base size precision type : Z) : string :=
  let need_pfx := has type SPECIAL && negb (base =? 10) in
  let locase := Z.land type SMALL in
  let type := if has type LEFT then Z.land type (Z.lnot ZEROPAD) else type in
  let '(sign, num, size) :=
    if has type SIGN then
      if s64 num <? 0 then ("-"%string, u64 (- s64 num), size - 1)
      else if has type PLUS then ("+"%string, num, size - 1)
      else if has type SPACE then (" "%string, num, size - 1)
      else (EmptyString, num, size)
    else (EmptyString, num, size) in
  let size := if need_pfx then if base =? 16 then size - 2 else size - 1 else size in
  let tmp := if num =? 0 then ["0"%char] else map (digit_char locase) (number_digits 64 base num) in
  let i := Z.of_nat (length tmp) in
  let precision := if precision <? i then i else precision in
  let size := size - precision in
  let '(spaces, size) :=
    if negb (has type (ZEROPAD + LEFT)) then pad size " " else (EmptyString, size) in
  let pfx :=
    if need_pfx then
      if base =? 16 then String "0" (String (char_of (Z.lor 88 locase)) EmptyString)
      else "0"%string
    else EmptyString in
  let '(fill, size) :=
    if negb (has type LEFT) then pad size (if has type ZEROPAD then "0" else " ")
    else (EmptyString, size) in
  let zeros := chars (Z.to_nat (precision - i)) "0" in
  let '(trail, _) := pad size " " in
  spaces +:+ sign +:+ pfx +:+ fill +:+ zeros +:+
  String.string_of_list_ascii (rev tmp) +:+ trail.

(** ** Reference: digits and their value *)

(** The longest prefix of digits of the radix. *)
Fixpoint digits (base : Z) (s : string) : list Z :=
  match s with
  | EmptyString => []
  | String a s =>
      match digit (char_val a) with
      | Some v => if v <? base then v :: digits base s else []
      | None => []
      end
  end.

Definition push_digit (base acc v : Z) : Z := acc * base + v.

Definition value (base : Z) (ds : list Z) : Z := fold_left (push_digit base) ds 0.

(** What a conversion to 64 bits should give: out of range exactly when the
    mathematical value is, and otherwise the value of a non-empty digit
    string that is followed by at most a newline.  It is a reference for the value and
    the overflow; the base is found with the function of the code, and [digits] takes
    single digits with [digit], as the loop does. *)
Definition kstrtoull_ref (s : string) (base : Z) : res Z :=
  let s := if char_at s 0 =? 43 then str_drop 1 s else s in
  let '(s, base) := _parse_integer_fixup_radix s base in
  let ds := digits base s in
  let rest := str_drop (length ds) s in
  if 2 ^ 64 <=? value base ds then Err (- ERANGE)
  else if (length ds =? 0)%nat then Err (- EINVAL)
  else if char_at (if char_at rest 0 =? 10 then str_drop 1 rest else rest) 0 =? 0
       then Ok (value base ds) else Err (- EINVAL).

Definition base_ok (base : Z) : Prop := base = 0 \/ 2 <= base <= 16.

(** ** Bits *)

Lemma digit_range c v : digit c = Some v -> 0 <= v.
Proof. unfold digit. intros H. split_ifs; simplify_eq; bool_prop; lia. Qed.

Lemma land_high r :
  0 <= r < 2 ^ 64 -> (Z.land r (u64 (Z.shiftl ULLONG_MAX 60)) =? 0) = (r <? 2 ^ 60).
Proof.
  intros Hr.
  replace (u64 (Z.shiftl ULLONG_MAX 60)) with (Z.shiftl (Z.ones 4) 60) by reflexivity.
  assert (E : Z.land r (Z.shiftl (Z.ones 4) 60) = Z.shiftl (Z.shiftr r 60) 60).
  { apply Z.bits_inj'. intros i Hi. rewrite Z.land_spec, !Z.shiftl_spec by lia.
    destruct (decide (i < 60)).
    - rewrite !(Z.testbit_neg_r _ (i - 60)) by lia. apply andb_false_r.
    - rewrite Z.shiftr_spec by lia. replace (i - 60 + 60) with i by lia.
      destruct (decide (i < 64)).
      + rewrite Z.ones_spec_low by lia. apply andb_true_r.
      + rewrite Z.ones_spec_high by lia.
        rewrite <- (Z.mod_small r (2 ^ 64)), Z.mod_pow2_bits_high by lia. done. }
  rewrite E, Z.shiftl_mul_pow2, Z.shiftr_div_pow2 by lia.
  destruct (Z.ltb_spec r (2 ^ 60)).
  - rewrite Z.div_small by lia. done.
  - apply Z.eqb_neq. pose proof (Z.div_le_mono (2 ^ 60) r (2 ^ 60)) as Hd.
    rewrite Z.div_same in Hd by lia. lia.
Qed.

Lemma land_flag n : 0 <= n < 2 ^ 31 -> Z.land n KSTRTOX_OVERFLOW = 0.
Proof.
  intros Hn. unfold KSTRTOX_OVERFLOW. apply Z.bits_inj'. intros i Hi.
  rewrite Z.land_spec, Z.pow2_bits_eqb, Z.bits_0 by lia.
  destruct (Z.eqb_spec 31 i) as [<-|]; [|apply andb_false_r].
  rewrite <- (Z.mod_small n (2 ^ 31)), Z.mod_pow2_bits_high by lia. done.
Qed.

Lemma lor_flag n : 0 <= n < 2 ^ 31 -> Z.lor n KSTRTOX_OVERFLOW = n + KSTRTOX_OVERFLOW.
Proof.
  intros Hn. rewrite <- Z.lxor_lor by (by apply land_flag).
  symmetry. by apply Z.add_nocarry_lxor, land_flag.
Qed.

(** The counter with the overflow bit. *)
Definition flagged (n : Z) (over : bool) : Z := n + if over then KSTRTOX_OVERFLOW else 0.

Lemma flagged_lor n o : 0 <= n < 2 ^ 31 -> Z.lor (flagged n o) KSTRTOX_OVERFLOW = flagged n true.
Proof.
  intros Hn. destruct o; unfold flagged; rewrite <- ?lor_flag, ?Z.add_0_r by done.
  - by rewrite <- Z.lor_assoc, Z.lor_diag.
  - done.
Qed.

Lemma flagged_land n o :
  0 <= n < 2 ^ 31 -> (Z.land (flagged n o) KSTRTOX_OVERFLOW =? 0) = negb o.
Proof.
  intros Hn. destruct o; unfold flagged.
  - rewrite <- lor_flag, Z.land_lor_distr_l, Z.land_diag, land_flag by done. done.
  - by rewrite Z.add_0_r, land_flag.
Qed.

Lemma flagged_strip n o :
  0 <= n < 2 ^ 31 -> Z.land (flagged n o) (u32 (Z.lnot KSTRTOX_OVERFLOW)) = n.
Proof.
  intros Hn. change (u32 (Z.lnot KSTRTOX_OVERFLOW)) with (Z.ones 31).
  rewrite Z.land_ones by lia. unfold flagged, KSTRTOX_OVERFLOW.
  destruct o.
  - replace (n + 2 ^ 31) with (n + 1 * 2 ^ 31) by lia. rewrite Z.mod_add by lia. by apply Z.mod_small.
  - rewrite Z.add_0_r. by apply Z.mod_small.
Qed.

(** ** The digit loop *)

Lemma value_mono base ds acc :
  2 <= base -> Forall (Z.le 0) ds -> 2 ^ 64 <= acc -> 2 ^ 64 <= fold_left (push_digit base) ds acc.
Proof.
  intros Hb Hds. revert acc. induction Hds as [|v ds Hv _ IH]; intros acc Ha; [done|].
  apply IH. unfold push_digit. nia.
Qed.

(** The check only looks at results that need the top four bits. *)
Lemma overflow_check base acc v n :
  2 <= base <= 16 -> 0 <= v < base -> 0 <= acc -> 0 <= n < 2 ^ 31 ->
  (if negb (Z.land (u64 acc) (u64 (Z.shiftl ULLONG_MAX 60)) =? 0) &&
      ((ULLONG_MAX - v) / base <? u64 acc)
   then Z.lor (flagged n (2 ^ 64 <=? acc)) KSTRTOX_OVERFLOW else flagged n (2 ^ 64 <=? acc)) =
  flagged n (2 ^ 64 <=? push_digit base acc v).
Proof.
  intros Hb Hv Ha Hn. rewrite flagged_lor, land_high by (done || apply u64_range).
  unfold push_digit. destruct (Z.leb_spec (2 ^ 64) acc) as [Ho|Ho].
  - destruct (Z.leb_spec (2 ^ 64) (acc * base + v)); [by destruct (_ && _)|nia].
  - rewrite u64_small by lia.
    destruct (Z.ltb_spec acc (2 ^ 60)) as [Hs|Hs]; cbn [negb andb].
    + destruct (Z.leb_spec (2 ^ 64) (acc * base + v)); [nia|done].
    + destruct (Z.ltb_spec ((ULLONG_MAX - v) / base) acc) as [Hd|Hd];
        destruct (Z.leb_spec (2 ^ 64) (acc * base + v)) as [Hp|Hp]; try done; exfalso.
      * assert (acc <= (ULLONG_MAX - v) / base); [|lia].
        apply Z.div_le_lower_bound; unfold ULLONG_MAX; lia.
      * pose proof (Z.mul_div_le (ULLONG_MAX - v) base). unfold ULLONG_MAX in *. nia.
Qed.

Lemma u64_push base acc v : u64 (u64 acc * base + v) = u64 (push_digit base acc v).
Proof. unfold u64, push_digit. by rewrite <- Z.add_mod_idemp_l, Z.mul_mod_idemp_l, Z.add_mod_idemp_l. Qed.

Lemma parse_loop_spec base s acc n :
  2 <= base <= 16 -> 0 <= acc -> 0 <= n -> n + Z.of_nat (String.length s) < 2 ^ 31 ->
  parse_loop base s (u64 acc) (flagged n (2 ^ 64 <=? acc)) =
  let v := fold_left (push_digit base) (digits base s) acc in
  (u64 v, flagged (n + Z.of_nat (length (digits base s))) (2 ^ 64 <=? v)).
Proof.
  intros Hb. revert acc n. induction s as [|a s IH]; intros acc n Ha Hn Hl;
    cbn [parse_loop digits fold_left length]; [by rewrite Z.add_0_r|].
  cbn [String.length] in Hl.
  destruct (digit (char_val a)) as [v|] eqn:Ed; [|cbn; by rewrite Z.add_0_r].
  rewrite Z.leb_antisym. destruct (Z.ltb_spec v base) as [Hv|Hv]; cbn [negb];
    [|cbn; by rewrite Z.add_0_r].
  apply digit_range in Ed. rewrite overflow_check by lia.
  rewrite u64_push. rewrite (u32_small _) by
    (unfold flagged, KSTRTOX_OVERFLOW; destruct (_ <=? _); lia).
  replace (flagged n (2 ^ 64 <=? push_digit base acc v) + 1)
    with (flagged (n + 1) (2 ^ 64 <=? push_digit base acc v)) by (unfold flagged; lia).
  rewrite IH by (try lia; unfold push_digit; nia).
  cbn [fold_left length]. do 2 f_equal. lia.
Qed.

Lemma length_digits base s : (length (digits base s) <= String.length s)%nat.
Proof.
  induction s as [|a s IH]; cbn; [lia|].
  destruct (digit _) as [v|]; [destruct (v <? base)|]; cbn; lia.
Qed.

Lemma length_str_drop n s : (String.length (str_drop n s) <= String.length s)%nat.
Proof. revert n. induction s as [|a s IH]; intros [|n]; cbn; try lia. specialize (IH n). lia. Qed.

Lemma parse_integer_spec base s :
  2 <= base <= 16 -> Z.of_nat (String.length s) < 2 ^ 31 ->
  _parse_integer s base =
  (u64 (value base (digits base s)),
   flagged (Z.of_nat (length (digits base s))) (2 ^ 64 <=? value base (digits base s))).
Proof. intros Hb Hl. apply (parse_loop_spec base s 0 0); lia. Qed.

Lemma fixup_radix_ok s base :
  base_ok base -> 2 <= snd (_parse_integer_fixup_radix s base) <= 16 /\
  (String.length (fst (_parse_integer_fixup_radix s base)) <= String.length s)%nat.
Proof.
  intros Hb. unfold _parse_integer_fixup_radix. pose proof (length_str_drop 2 s).
  destruct Hb; split_ifs; bool_prop; cbn [fst snd]; lia.
Qed.

Lemma value_nonneg base ds acc :
  0 <= base -> Forall (Z.le 0) ds -> 0 <= acc -> 0 <= fold_left (push_digit base) ds acc.
Proof.
  intros Hb Hds. revert acc. induction Hds as [|v ds Hv _ IH]; intros acc Ha; [done|].
  apply IH. unfold push_digit. nia.
Qed.

Lemma digits_nonneg base s : Forall (Z.le 0) (digits base s).
Proof.
  induction s as [|a s IH]; cbn; [constructor|].
  destruct (digit _) as [v|] eqn:E; [|constructor].
  destruct (v <? base); constructor; [by eapply digit_range|done].
Qed.

Lemma kstrtoull_ref_ok s base :
  base_ok base -> Z.of_nat (String.length s) < 2 ^ 31 -> kstrtoull s base = kstrtoull_ref s base.
Proof.
  intros Hb Hl. unfold kstrtoull, _kstrtoull, kstrtoull_ref.
  set (s' := if _ =? 43 then _ else _).
  assert (Hl' : Z.of_nat (String.length s') < 2 ^ 31).
  { pose proof (length_str_drop 1 s). subst s'. destruct (_ =? 43); lia. }
  pose proof (fixup_radix_ok s' base Hb) as [Hr Hf].
  destruct (_parse_integer_fixup_radix s' base) as [t b]. cbn [fst snd] in *.
  rewrite parse_integer_spec by lia. pose proof (length_digits b t).
  pose proof (value_nonneg b (digits b t) 0 ltac:(lia) (digits_nonneg b t) ltac:(lia)) as Hv.
  change (0 <= value b (digits b t)) in Hv.
  rewrite flagged_land, negb_involutive by lia.
  destruct (Z.leb_spec (2 ^ 64) (value b (digits b t))); [done|].
  unfold flagged. rewrite Z.add_0_r, Nat2Z.id.
  destruct (Z.eqb_spec (Z.of_nat (length (digits b t))) 0) as [E|E];
    destruct (Nat.eqb_spec (length (digits b t)) 0); try lia; [done|].
  rewrite u64_small by lia. by destruct (char_at _ 0 =? 0).
Qed.

(** ** Printed digits *)

Lemma value_app base l v : value base (l ++ [v]) = value base l * base + v.
Proof. unfold value. by rewrite fold_left_app. Qed.

Lemma number_digits_ok fuel base num :
  2 <= base -> 0 <= num < base ^ Z.of_nat fuel -> (0 < fuel)%nat ->
  Forall (fun d => 0 <= d < base) (number_digits fuel base num) /\
  value base (rev (number_digits fuel base num)) = num /\
  (num <> 0 -> exists d ds, rev (number_digits fuel base num) = d :: ds /\ d <> 0).
Proof.
  intros Hb. revert num. induction fuel as [|fuel IH]; intros num Hn Hf; [lia|].
  pose proof (Z.mod_pos_bound num base ltac:(lia)).
  pose proof (Z.div_mod num base ltac:(lia)).
  cbn [number_digits rev]. destruct (Z.eqb_spec (num / base) 0) as [E|E]; cbn [rev app].
  { split_and!; [constructor; [lia|constructor]|unfold value, push_digit; cbn; nia|].
    intros Hnz. exists (num mod base), []. split; [done|nia]. }
  assert (0 < num / base) by (pose proof (Z.div_pos num base ltac:(lia) ltac:(lia)); lia).
  rewrite Nat2Z.inj_succ, Z.pow_succ_r in Hn by lia.
  assert (num / base < base ^ Z.of_nat fuel) by (apply Z.div_lt_upper_bound; lia).
  assert (0 < fuel)%nat by (destruct fuel; cbn in *; lia).
  destruct (IH (num / base)) as (Hall & Hval & Hhd); [lia|done|].
  split_and!; [constructor; [lia|done]|rewrite value_app, Hval; lia|].
  intros _. destruct (Hhd E) as (d & ds & Hrev & Hd). rewrite Hrev. by exists d, (ds ++ [num mod base]).
Qed.

Lemma digit_char_ok lc d :
  lc = 0 \/ lc = 32 -> 0 <= d < 16 -> digit (char_val (digit_char lc d)) = Some d.
Proof.
  intros Hlc Hd.
  assert (Hall : forallb (fun n => bool_decide (digit (char_val (digit_char lc (Z.of_nat n)))
                                                = Some (Z.of_nat n))) (seq 0 16) = true)
    by (destruct Hlc as [-> | ->]; vm_compute; reflexivity).
  rewrite forallb_forall in Hall. specialize (Hall (Z.to_nat d)).
  rewrite Z2Nat.id in Hall by lia. eapply bool_decide_eq_true, Hall, in_seq. lia.
Qed.

(** The characters [number] puts out for a value. *)
Definition printed (lc base num : Z) : string :=
  String.string_of_list_ascii
    (rev (if num =? 0 then ["0"%char] else map (digit_char lc) (number_digits 64 base num))).

Lemma digits_printed lc base ds :
  lc = 0 \/ lc = 32 -> 2 <= base <= 16 -> Forall (fun d => 0 <= d < base) ds ->
  digits base (String.string_of_list_ascii (map (digit_char lc) ds)) = ds.
Proof.
  intros Hlc Hb Hds. induction Hds as [|d ds Hd _ IH]; cbn; [done|].
  rewrite digit_char_ok by (done || lia). rewrite (proj2 (Z.ltb_lt d base)) by lia. by rewrite IH.
Qed.

Lemma pow_64 base : 2 <= base -> 2 ^ 64 <= base ^ Z.of_nat 64.
Proof. intros H. apply Z.pow_le_mono_l. lia. Qed.

(** Reading the printed characters in the radix they were printed in. *)
Lemma printed_ok lc base num :
  lc = 0 \/ lc = 32 -> 2 <= base <= 16 -> 0 <= num < 2 ^ 64 ->
  exists ds, printed lc base num = String.string_of_list_ascii (map (digit_char lc) ds) /\
    digits base (printed lc base num) = ds /\ value base ds = num /\ ds <> [] /\
    (length ds <= 64)%nat /\ (num <> 0 -> exists d ds', ds = d :: ds' /\ 0 < d < base).
Proof.
  intros Hlc Hb Hn. pose proof (pow_64 base ltac:(lia)).
  destruct (number_digits_ok 64 base num) as (Hall & Hval & Hhd); [lia..|].
  unfold printed. destruct (Z.eqb_spec num 0) as [->|Hnz].
  - exists [0]. replace "0"%char with (digit_char lc 0) by (destruct Hlc as [-> | ->]; done).
    cbn [rev app map]. split; [done|].
    split; [apply (digits_printed lc base [0]); [done..|repeat constructor; lia]|].
    by repeat split; try (cbn; lia).
  - destruct (Hhd Hnz) as (d & ds & Hrev & Hd).
    exists (rev (number_digits 64 base num)). rewrite <- map_rev. split; [done|].
    assert (Hr : Forall (fun d => 0 <= d < base) (rev (number_digits 64 base num)))
      by (by apply Forall_rev).
    split; [by apply digits_printed|]. split; [done|]. split; [by rewrite Hrev|].
    split.
    + rewrite length_rev. clear. generalize 64%nat as f. intros f.
      revert num. induction f as [|f IH]; intros num; cbn [number_digits length]; [lia|].
      specialize (IH (num / base)). destruct (_ =? 0); cbn [length]; lia.
    + intros _. exists d, ds. split; [done|]. rewrite Hrev in Hr. inv Hr. lia.
Qed.

Lemma pad_neg size c : size < 0 -> pad size c = (EmptyString, size - 1).
Proof.
  intros H. unfold pad. rewrite (proj2 (Z.leb_gt 0 size)) by done.
  destruct size; [lia..|done].
Qed.

Lemma app_empty_r (s : string) : s +:+ EmptyString = s.
Proof.
  induction s as [|a s IH]; [done|]. change (String a (s +:+ EmptyString) = String a s).
  by rewrite IH.
Qed.

(** The prefix of a radix. *)
Definition radix_prefix (type base : Z) : string :=
  if has type SPECIAL && negb (base =? 10) then
    if base =? 16 then String "0" (String (char_of (Z.lor 88 (Z.land type SMALL))) EmptyString)
    else "0"%string
  else EmptyString.

Definition tmp_digits (lc base num : Z) : list ascii :=
  if num =? 0 then ["0"%char] else map (digit_char lc) (number_digits 64 base num).

Lemma tmp_digits_pos lc base num : 0 < Z.of_nat (length (tmp_digits lc base num)).
Proof.
  unfold tmp_digits. destruct (num =? 0); [cbn; lia|].
  rewrite length_map. cbn [number_digits length]. lia.
Qed.

(** The layout part of [number], when neither width nor precision is given. *)
Ltac number_layout lc base num :=
  cbv beta iota zeta; fold (tmp_digits lc base num);
  pose proof (tmp_digits_pos lc base num);
  rewrite (proj2 (Z.ltb_lt (-1) (Z.of_nat (length (tmp_digits lc base num))))), Z.sub_diag by lia;
  cbn [negb andb chars Z.to_nat];
  repeat (rewrite pad_neg by (split_ifs; lia); cbv beta iota);
  rewrite app_empty_r.

Lemma number_unsigned num base type :
  has type LEFT = false -> has type ZEROPAD = false -> has type (ZEROPAD + LEFT) = false ->
  has type SIGN = false ->
  number num base (-1) (-1) type = radix_prefix type base +:+ printed (Z.land type SMALL) base num.
Proof.
  intros HL HZ HZL HS. unfold number. cbv beta zeta. rewrite !HL, !HZ, !HZL, !HS.
  number_layout (Z.land type SMALL) base num. done.
Qed.

(** [%d] of a 64-bit value. *)
Lemma number_signed z :
  - 2 ^ 63 <= z < 2 ^ 63 ->
  number (u64 z) 10 (-1) (-1) SIGN = (if z <? 0 then "-" else EmptyString) +:+ printed 0 10 (Z.abs z).
Proof.
  intros Hz. unfold number. cbv beta zeta.
  assert (Hs : s64 (u64 z) = z).
  { unfold s64, u64. rewrite Z.add_mod_idemp_l by lia. rewrite Z.mod_small; lia. }
  change (has SIGN SPECIAL) with false. change (has SIGN LEFT) with false. cbv beta iota.
  change (has SIGN LEFT) with false.
  change (has SIGN SIGN) with true. change (has SIGN PLUS) with false.
  change (has SIGN SPACE) with false. change (has SIGN (ZEROPAD + LEFT)) with false.
  change (has SIGN ZEROPAD) with false. change (Z.land SIGN SMALL) with 0.
  rewrite Hs. cbn [andb negb].
  destruct (Z.ltb_spec z 0).
  - rewrite Z.abs_neq by lia. rewrite u64_small by lia. number_layout 0 10 (- z). done.
  - rewrite Z.abs_eq by lia. rewrite u64_small by lia. number_layout 0 10 z. done.
Qed.

(** ** Autodetection of the radix *)

Lemma char_at_digit lc d (s : string) :
  lc = 0 \/ lc = 32 -> 0 <= d < 16 -> let c := char_at (String (digit_char lc d) s) 0 in
  (c =? 43) = false /\ (c =? 45) = false /\ (c =? 48) = (d =? 0) /\ isxdigit c = true /\
  (_tolower c =? 120) = false.
Proof.
  intros Hlc Hd. cbn zeta. change (char_at _ 0) with (char_val (digit_char lc d)).
  assert (Hall : forallb (fun n => let d := Z.of_nat n in let c := char_val (digit_char lc d) in
      negb (c =? 43) && negb (c =? 45) && Bool.eqb (c =? 48) (d =? 0) && isxdigit c &&
      negb (_tolower c =? 120)) (seq 0 16) = true)
    by (destruct Hlc as [-> | ->]; vm_compute; reflexivity).
  rewrite forallb_forall in Hall. specialize (Hall (Z.to_nat d)).
  rewrite Z2Nat.id in Hall by lia.
  specialize (Hall ltac:(apply in_seq; lia)). cbn zeta in Hall.
  rewrite !andb_true_iff, !negb_true_iff in Hall. destruct Hall as [[[[? ?] ?] ?] ?].
  split_and!; try done. by apply eqb_prop.
Qed.

Lemma str_drop_all s : str_drop (String.length s) s = EmptyString.
Proof. induction s as [|a s IH]; [done|apply IH]. Qed.

Lemma length_string_of l : String.length (String.string_of_list_ascii l) = length l.
Proof. induction l as [|a l IH]; cbn; [done|]. by rewrite IH. Qed.

(** A digit string that is the whole input converts to its value. *)
Lemma kstrtoull_whole s t base b :
  base_ok base -> Z.of_nat (String.length s) < 2 ^ 31 -> (char_at s 0 =? 43) = false ->
  _parse_integer_fixup_radix s base = (t, b) ->
  length (digits b t) = String.length t -> digits b t <> [] -> value b (digits b t) < 2 ^ 64 ->
  _kstrtoull s base = Ok (value b (digits b t)) /\ kstrtoull s base = Ok (value b (digits b t)).
Proof.
  intros Hb Hl Hp Hf Hd Hne Hv.
  assert (E : kstrtoull s base = Ok (value b (digits b t))).
  { rewrite kstrtoull_ref_ok by done. unfold kstrtoull_ref. rewrite Hp, Hf.
    rewrite (proj2 (Z.leb_gt _ _)) by done. rewrite Hd, str_drop_all.
    destruct t; [by destruct Hne|]. done. }
  split; [|done]. unfold kstrtoull in E. by rewrite Hp in E.
Qed.

(** Decimal output is read as decimal; "0" counts as octal, with the same
    value. *)
Lemma fixup_printed_dec num :
  0 <= num < 2 ^ 64 ->
  _parse_integer_fixup_radix (printed 0 10 num) 0 = (printed 0 10 num, if num =? 0 then 8 else 10) /\
  (char_at (printed 0 10 num) 0 =? 43) = false /\ (char_at (printed 0 10 num) 0 =? 45) = false.
Proof.
  intros Hn. destruct (Z.eqb_spec num 0) as [->|Hnz]; [done|].
  destruct (printed_ok 0 10 num) as (ds & -> & _ & _ & _ & _ & Hhd); [lia..|].
  destruct (Hhd Hnz) as (d & ds' & -> & Hd). cbn [map String.string_of_list_ascii].
  destruct (char_at_digit 0 d (String.string_of_list_ascii (map (digit_char 0) ds')))
    as (H1 & H2 & H3 & _); [lia..|].
  split; [|done]. unfold _parse_integer_fixup_radix. rewrite H3.
  by rewrite (proj2 (Z.eqb_neq d 0)) by lia.
Qed.

(** Facts about a printed value in the radix [b] a parser settles on. *)
Lemma printed_parse lc base b num :
  lc = 0 \/ lc = 32 -> 2 <= base <= 16 -> 2 <= b <= 16 -> 0 <= num < 2 ^ 64 ->
  b = base \/ num = 0 ->
  length (digits b (printed lc base num)) = String.length (printed lc base num) /\
  digits b (printed lc base num) <> [] /\ value b (digits b (printed lc base num)) = num /\
  (String.length (printed lc base num) <= 64)%nat.
Proof.
  intros Hlc Hb Hb' Hn [-> | ->].
  - destruct (printed_ok lc base num) as (ds & E & Hd & Hv & Hne & Hl & _); [done..|].
    rewrite Hd, Hv. rewrite E, length_string_of, length_map. done.
  - change (printed lc base 0) with "0"%string.
    assert (digits b "0" = [0]) as ->.
    { change (digits b "0") with (if 0 <? b then [0] else []).
      by rewrite (proj2 (Z.ltb_lt 0 b)) by lia. }
    cbn [length String.length]. split_and!; done || lia.
Qed.

Lemma simple_strtoul_printed num :
  0 <= num < 2 ^ 64 -> simple_strtoul (printed 0 10 num) 0 = (num, EmptyString).
Proof.
  intros Hn. destruct (fixup_printed_dec num Hn) as (Hf & _ & _).
  unfold simple_strtoul, simple_strtoull. rewrite Hf.
  set (b := if num =? 0 then 8 else 10).
  assert (Hb : 2 <= b <= 16 /\ (b = 10 \/ num = 0)).
  { subst b. destruct (Z.eqb_spec num 0); lia. }
  destruct (printed_parse 0 10 b num) as (Hd & Hne & Hv & Hl); [lia..|].
  rewrite parse_integer_spec by lia. rewrite Hv, Hd, u64_small by done.
  rewrite flagged_strip by lia. by rewrite Nat2Z.id, str_drop_all.
Qed.

Lemma kstrtoull_dec num :
  0 <= num < 2 ^ 64 ->
  _kstrtoull (printed 0 10 num) 0 = Ok num /\ kstrtoull (printed 0 10 num) 0 = Ok num.
Proof.
  intros Hn. destruct (fixup_printed_dec num Hn) as (Hf & Hp & _).
  set (b := if num =? 0 then 8 else 10) in *.
  assert (Hb : 2 <= b <= 16 /\ (b = 10 \/ num = 0)).
  { subst b. destruct (Z.eqb_spec num 0); lia. }
  destruct (printed_parse 0 10 b num) as (Hd & Hne & Hv & Hl); [lia..|].
  assert (Hl' : Z.of_nat (String.length (printed 0 10 num)) < 2 ^ 31) by lia.
  destruct (kstrtoull_whole _ _ 0 b (or_introl eq_refl) Hl' Hp Hf Hd Hne) as [H1 H2]; [lia|].
  by rewrite Hv in H1, H2.
Qed.

Lemma kstrtoull_hex lc num :
  lc = 0 \/ lc = 32 -> 0 <= num < 2 ^ 64 ->
  kstrtoull (String "0" (String (char_of (Z.lor 88 lc)) (printed lc 16 num))) 0 = Ok num.
Proof.
  intros Hlc Hn.
  destruct (printed_parse lc 16 16 num) as (Hd & Hne & Hv & Hl); [lia..|].
  set (s := String "0" _).
  assert (Hf : _parse_integer_fixup_radix s 0 = (printed lc 16 num, 16)).
  { unfold _parse_integer_fixup_radix.
    replace (_tolower (char_at s 1) =? 120) with true by (destruct Hlc as [-> | ->]; done).
    replace (char_at s 2) with (char_at (printed lc 16 num) 0) by done.
    assert (isxdigit (char_at (printed lc 16 num) 0) = true) as ->; [|done].
    destruct (printed_ok lc 16 num) as (ds & E & _ & _ & Hds & _ & Hhd); [lia..|].
    destruct (Z.eqb_spec num 0) as [->|Hnz]; [done|].
    destruct (Hhd Hnz) as (d & ds' & -> & Hdd). rewrite E.
    by apply (char_at_digit lc d (String.string_of_list_ascii (map (digit_char lc) ds'))); [|lia]. }
  destruct (kstrtoull_whole s (printed lc 16 num) 0 16 (or_introl eq_refl)) as [_ H2];
    [subst s; cbn [String.length]; lia|done..|lia|by rewrite Hv in H2].
Qed.

Lemma kstrtoull_oct num :
  0 <= num < 2 ^ 64 -> kstrtoull (String "0" (printed 0 8 num)) 0 = Ok num.
Proof.
  intros Hn. destruct (printed_parse 0 8 8 num) as (Hd & Hne & Hv & Hl); [lia..|].
  set (s := String "0" _).
  assert (Hf : _parse_integer_fixup_radix s 0 = (s, 8)).
  { unfold _parse_integer_fixup_radix.
    replace (char_at s 1) with (char_at (printed 0 8 num) 0) by done.
    assert ((_tolower (char_at (printed 0 8 num) 0) =? 120) = false) as ->; [|done].
    destruct (printed_ok 0 8 num) as (ds & E & _ & _ & Hds & _ & Hhd); [lia..|].
    destruct (Z.eqb_spec num 0) as [->|Hnz]; [done|].
    destruct (Hhd Hnz) as (d & ds' & -> & Hdd). rewrite E.
    by apply (char_at_digit 0 d (String.string_of_list_ascii (map (digit_char 0) ds'))); lia. }
  assert (Hds : digits 8 s = 0 :: digits 8 (printed 0 8 num)) by done.
  assert (Hvs : value 8 (digits 8 s) = num) by (rewrite Hds; exact Hv).
  destruct (kstrtoull_whole s s 0 8 (or_introl eq_refl)) as [_ H2];
    [subst s; cbn [String.length]; lia|done|done| |by rewrite Hds|rewrite Hvs; lia|by rewrite Hvs in H2].
  rewrite Hds. cbn [length String.length]. subst s. cbn [String.length]. lia.
Qed.

(** ** Properties *)

(** C30: [kstrtoull] is exact.  For every string and every radix it supports
    it returns the value of the digits when the whole string is a number that
    fits 64 bits, -ERANGE exactly when the value does not fit, and -EINVAL
    otherwise, although the loop tests for overflow only once the top four bits
    are in use and wraps around on overflow. *)
Theorem kstrtoull_exact s base :
  base_ok base -> Z.of_nat (String.length s) < 2 ^ 31 -> kstrtoull s base = kstrtoull_ref s base.
Proof. apply kstrtoull_ref_ok. Qed.

Lemma kstrtoull_exact_witness :
  kstrtoull "0x1ffffffffffffffff" 0 = kstrtoull_ref "0x1ffffffffffffffff" 0.
Proof. apply (kstrtoull_exact "0x1ffffffffffffffff" 0); [by left|vm_compute; reflexivity]. Defined.

(** Printed numbers read back.  An unsigned value printed in decimal, in
    hexadecimal with prefix (either case) or in octal with prefix is converted
    back to itself with automatic detection of the radix. *)
Theorem number_kstrtoull num :
  0 <= num < 2 ^ 64 ->
  kstrtoull (number num 10 (-1) (-1) 0) 0 = Ok num /\
  kstrtoull (number num 16 (-1) (-1) SPECIAL) 0 = Ok num /\
  kstrtoull (number num 16 (-1) (-1) (SPECIAL + SMALL)) 0 = Ok num /\
  kstrtoull (number num 8 (-1) (-1) SPECIAL) 0 = Ok num.
Proof.
  intros Hn. rewrite !number_unsigned by done. split_and!.
  - by apply kstrtoull_dec.
  - by apply (kstrtoull_hex 0); [left|].
  - by apply (kstrtoull_hex 32); [right|].
  - by apply kstrtoull_oct.
Qed.

Lemma number_kstrtoull_witness :
  kstrtoull (number 4096 16 (-1) (-1) SPECIAL) 0 = Ok 4096.
Proof. apply (number_kstrtoull 4096). lia. Defined.

(** C36: a signed 64-bit value printed with [%d] is converted back by
    [kstrtoll], including the smallest one, and by [kstrtoint] exactly when it
    is an [int]. *)
Theorem number_kstrtoll z :
  - 2 ^ 63 <= z < 2 ^ 63 ->
  kstrtoll (number (u64 z) 10 (-1) (-1) SIGN) 0 = Ok z /\
  kstrtoint (number (u64 z) 10 (-1) (-1) SIGN) 0 =
    if bool_decide (- 2 ^ 31 <= z < 2 ^ 31) then Ok z else Err (- ERANGE).
Proof.
  intros Hz. rewrite number_signed by done.
  assert (E : kstrtoll ((if z <? 0 then "-" else EmptyString) +:+ printed 0 10 (Z.abs z)) 0 = Ok z).
  { destruct (kstrtoull_dec (Z.abs z)) as [H1 H2]; [lia|].
    destruct (fixup_printed_dec (Z.abs z)) as (_ & _ & Hm); [lia|].
    destruct (Z.ltb_spec z 0).
    - change (kstrtoll (String "-" (printed 0 10 (Z.abs z))) 0 = Ok z).
      unfold kstrtoll. cbn [str_drop]. change (char_at _ 0 =? 45) with true. cbv iota.
      rewrite H1, Z.abs_neq, Z.opp_involutive by lia.
      assert (s64 (u64 z) = z) as ->.
      { unfold s64, u64. rewrite Z.add_mod_idemp_l by lia. rewrite Z.mod_small; lia. }
      by rewrite (proj2 (Z.ltb_ge 0 z)) by lia.
    - change (kstrtoll (printed 0 10 (Z.abs z)) 0 = Ok z).
      unfold kstrtoll. rewrite Hm, H2, Z.abs_eq by lia.
      assert (s64 z = z) as -> by (unfold s64; rewrite Z.mod_small; lia).
      by rewrite (proj2 (Z.ltb_ge z 0)) by lia. }
  split; [done|]. unfold kstrtoint. rewrite E.
  case_bool_decide as Hr; destruct (Z.eqb_spec z (s32 z)) as [Es|Es]; try done; exfalso.
  - by rewrite s32_small in Es.
  - unfold s32 in Es. pose proof (Z.mod_pos_bound (z + 2 ^ 31) (2 ^ 32)). lia.
Qed.

Lemma number_kstrtoll_witness :
  kstrtoll (number (u64 (- 2 ^ 63)) 10 (-1) (-1) SIGN) 0 = Ok (- 2 ^ 63).
Proof. apply (number_kstrtoll (- 2 ^ 63)). lia. Defined.

(** ** Fractions *)

Lemma length_str_drop_eq n s : String.length (str_drop n s) = (String.length s - n)%nat.
Proof. revert n. induction s as [|a s IH]; intros [|n]; cbn; done || apply IH. Qed.

Lemma simple_strtouint_dec s :
  Z.of_nat (String.length s) < 2 ^ 31 ->
  simple_strtouint s 10 = (u32 (value 10 (digits 10 s)), str_drop (length (digits 10 s)) s).
Proof.
  intros Hl. pose proof (length_digits 10 s).
  unfold simple_strtouint, simple_strtoull. change (_parse_integer_fixup_radix s 10) with (s, 10).
  cbv beta iota. rewrite parse_integer_spec by lia. cbv beta iota. rewrite flagged_strip, Nat2Z.id by lia.
  assert (u32 (u64 (value 10 (digits 10 s))) = u32 (value 10 (digits 10 s))) as ->.
  { unfold u32, u64. apply Z.mod_mod_divide. by exists (2 ^ 32). }
  rewrite (u32_small (u32 _)) by apply u32_range. by rewrite Z.eqb_refl.
Qed.

Lemma pow10_loop_ok n a :
  0 <= a -> a * 10 ^ Z.of_nat n < 2 ^ 63 -> pow10_loop n a = a * 10 ^ Z.of_nat n.
Proof.
  revert a. induction n as [|n IH]; intros a Ha Hb; cbn [pow10_loop]; [cbn; lia|].
  rewrite Nat2Z.inj_succ, Z.pow_succ_r in * by lia.
  assert (1 <= 10 ^ Z.of_nat n) by (change 1 with (10 ^ 0); apply Z.pow_le_mono_r; lia).
  assert (s64 (a * 10) = a * 10) as -> by (unfold s64; rewrite Z.mod_small; nia).
  rewrite IH by lia. lia.
Qed.

Lemma digits_head s d ds :
  digits 10 s = d :: ds ->
  isdigit (char_at s 0) = true /\ (char_at s 0 =? 45) = false /\ (char_at s 0 =? 43) = false.
Proof.
  destruct s as [|a s]; [done|]. cbn [digits]. change (char_at (String a s) 0) with (char_val a).
  unfold digit, isdigit. intros H. destruct ((48 <=? _) && _) eqn:E.
  - apply andb_true_iff in E as [E1 E2]. bool_prop. split_and!; [done|apply Z.eqb_neq; lia..].
  - destruct (_ && _) eqn:E2 in H; [|done]. bool_prop.
    by rewrite (proj2 (Z.ltb_ge _ 10)) in H by lia.
Qed.

(** A decimal fraction is scaled without rounding error beyond the last
    unit: "i.f" in units of 1/[division] is [i * division] plus the fractional
    digits scaled down, and parsing stops behind the last digit.  The parts
    have to fit 32 bits and the result 63 bits. *)
Theorem simple_strtofract_exact cp division i f rest :
  Z.of_nat (String.length cp) < 2 ^ 31 -> 0 <= division < 2 ^ 32 ->
  i = digits 10 cp -> i <> [] -> rest = str_drop (length i) cp ->
  char_at rest 0 = 46 \/ char_at rest 0 = 44 ->
  f = digits 10 (str_drop 1 rest) -> (0 < length f <= 18)%nat ->
  value 10 i < 2 ^ 32 -> value 10 f * division < 2 ^ 63 -> value 10 f < 2 ^ 32 ->
  value 10 i * division + value 10 f * division / 10 ^ Z.of_nat (length f) < 2 ^ 63 ->
  simple_strtofract cp division =
    (value 10 i * division + value 10 f * division / 10 ^ Z.of_nat (length f),
     str_drop (length f) (str_drop 1 rest)).
Proof.
  intros Hl Hdiv Hi Hine Hrest Hdot Hf Hfl Hvi Hvf Hvf' Hsum.
  assert (Hi0 : 0 <= value 10 i) by (subst i; apply value_nonneg; [lia|apply digits_nonneg|lia]).
  assert (Hf0 : 0 <= value 10 f) by (subst f; apply value_nonneg; [lia|apply digits_nonneg|lia]).
  destruct i as [|d ds]; [done|]. set (i := d :: ds) in *.
  destruct (digits_head cp d ds (eq_sym Hi)) as (H1 & H2 & H3).
  pose proof (length_digits 10 cp) as Hli. pose proof (length_digits 10 (str_drop 1 rest)) as Hlf.
  rewrite <- Hi in Hli. rewrite <- Hf in Hlf. pose proof (length_str_drop_eq 1 rest) as Hlr.
  pose proof (length_str_drop_eq (length i) cp) as Hlc. rewrite <- Hrest in Hlc.
  unfold simple_strtofract. rewrite H2, H3. cbn [orb]. rewrite H1. cbn [negb].
  rewrite simple_strtouint_dec, <- Hi, <- Hrest, u32_small by (lia || done).
  rewrite (proj2 (Nat.eqb_neq _ _)) by (subst i; cbn [length] in *; lia).
  assert ((char_at rest 0 =? 46) || (char_at rest 0 =? 44) = true) as ->
    by (apply orb_true_iff; rewrite !Z.eqb_eq; done).
  rewrite simple_strtouint_dec, <- Hf, u32_small by lia.
  rewrite (length_str_drop_eq (length f)).
  replace (String.length (str_drop 1 rest) - (String.length (str_drop 1 rest) - length f))%nat
    with (length f) by lia.
  assert (H10 : 0 < 10 ^ Z.of_nat (length f) < 2 ^ 63).
  { split; [apply Z.pow_pos_nonneg; lia|].
    eapply Z.le_lt_trans; [apply (Z.pow_le_mono_r 10 _ 18); lia|lia]. }
  rewrite (pow10_loop_ok (length f) 1), (Z.mul_1_l (10 ^ _)) by (rewrite ?Z.mul_1_l; lia). rewrite (proj2 (Nat.ltb_lt _ _)) by lia.
  pose proof (Z.div_pos (value 10 f * division) (10 ^ Z.of_nat (length f)) ltac:(nia) ltac:(lia)).
  rewrite (s64_small (value 10 i * division)), (s64_small (value 10 f * division)) by nia.
  rewrite !u64_small by nia. by rewrite (s64_small (_ + _)), Z.mul_1_l, s64_small by nia.
Qed.

Lemma simple_strtofract_exact_witness : simple_strtofract "3.25V" 1000 = (3250, "V"%string).
Proof.
  apply (simple_strtofract_exact "3.25V" 1000 [3] [2; 5] ".25V");
    try (vm_compute; reflexivity); try (vm_compute; split; [discriminate|reflexivity]).
  - done.
  - by left.
  - cbn. lia.
Defined.

(** The overflow test of [simple_strtouint] compares a value with itself: an
    integer part that needs 33 bits is silently truncated. *)
Example strtofract_truncates : simple_strtofract "4294967297.5" 10 = (15, EmptyString).
Proof. reflexivity. Qed.

End Strtox.
