(* ===== verification/Of.v ===== *)
(** * Device tree nodes and properties (drivers/of/base.c, include/of.h)

    A node carries properties and child nodes.  A property value is absent
    (a NULL pointer) or a byte string; numbers are big endian.  The accessors
    are the ones the state framework uses.  A node is a value here: an
    accessor that modifies a node returns the new node. *)

From stdpp Require Import base list strings.
From Stdlib Require Import ZArith Lia.
From Stdlib Require Strings.String.
From S2P Require Import Prelude.

Module Of.

(** ** C strings *)

Definition bytes_of (s : string) : list byte := String.list_byte_of_string s.
Definition string_of (l : list byte) : string := String.string_of_list_byte l.

(** [strlen] of the string starting at [p], when it is terminated inside. *)
Fixpoint strnlen (p : list byte) : nat :=
  match p with
  | [] => 0
  | b :: p => if bool_decide (b = Init.Byte.x00) then 0 else S (strnlen p)
  end.

(** The C string starting at [p]. *)
Definition cstr (p : list byte) : string := string_of (take (strnlen p) p).

(** [s] with its terminator. *)
Definition cstr_bytes (s : string) : list byte := bytes_of s ++ [Init.Byte.x00].

(** No byte of [s] is zero, as for every string that exists in memory. *)
Definition no_nul (s : string) : Prop := Forall (fun b => b <> Init.Byte.x00) (bytes_of s).

(** ** Nodes *)

Record property := Property {
  p_name : string;
  p_value : option (list byte)
}.

#[warnings="-register-all"]
Inductive device_node :=
| Node (name full_name : string) (properties : list property) (children : list device_node).

Definition n_name (np : device_node) : string := let 'Node n _ _ _ := np in n.
Definition n_full_name (np : device_node) : string := let 'Node _ n _ _ := np in n.
Definition n_properties (np : device_node) : list property := let 'Node _ _ p _ := np in p.
Definition n_children (np : device_node) : list device_node := let 'Node _ _ _ c := np in c.

Definition p_length (p : property) : Z := Z.of_nat (length (default [] (p_value p))).

Definition set_properties (np : device_node) (ps : list property) : device_node :=
  let 'Node n f _ c := np in Node n f ps c.

Fixpoint find_prop (ps : list property) (name : string) : option property :=
  match ps with
  | [] => None
  | p :: ps => if bool_decide (p_name p = name) then Some p else find_prop ps name
  end.

Definition of_find_property (np : device_node) (name : string) : option property :=
  find_prop (n_properties np) name.

(** Value and length, when the property exists and has a value. *)
Definition of_get_property (np : device_node) (name : string) : option (list byte) :=
  match of_find_property np name with
  | None => None
  | Some pp => p_value pp
  end.

(** ** Reading *)

Definition of_find_property_value_of_size (np : device_node) (propname : string) (min max : Z)
  : res (list byte) :=
  match of_find_property np propname with
  | None => Err (- EINVAL)
  | Some prop =>
      match p_value prop with
      | None => Err (- ENODATA)
      | Some value =>
          if p_length prop <? min then Err (- EOVERFLOW)
          else if negb (max =? 0) && (max <? p_length prop) then Err (- EOVERFLOW)
          else Ok value
      end
  end.

Definition of_property_read_u8_array (np : device_node) (propname : string) (sz : nat)
  : res (list byte) :=
  match of_find_property_value_of_size np propname (Z.of_nat sz) 0 with
  | Err e => Err e
  | Ok val => Ok (take sz val)
  end.

(** The loop of [of_property_read_u32_array]. *)
Fixpoint be32_cells (val : list byte) (sz : nat) : list Z :=
  match sz with
  | O => []
  | S sz => be_val (take 4 val) :: be32_cells (drop 4 val) sz
  end.

Definition of_property_read_u32_array (np : device_node) (propname : string) (sz : nat)
  : res (list Z) :=
  match of_find_property_value_of_size np propname (Z.of_nat (sz * 4)) 0 with
  | Err e => Err e
  | Ok val => Ok (be32_cells val sz)
  end.

Definition of_property_read_u32 (np : device_node) (propname : string) : res Z :=
  match of_property_read_u32_array np propname 1 with
  | Err e => Err e
  | Ok l => Ok (default 0 (head l))
  end.

Definition of_property_read_string (np : device_node) (propname : string) : res string :=
  match of_find_property np propname with
  | None => Err (- EINVAL)
  | Some prop =>
      match p_value prop with
      | None => Err (- ENODATA)
      | Some value =>
          if p_length prop <=? Z.of_nat (strnlen value) then Err (- EILSEQ)
          else Ok (cstr value)
      end
  end.

Definition of_property_present (np : device_node) (propname : string) : bool :=
  match of_find_property np propname with Some _ => true | None => false end.

(** The loop of [of_property_read_string_helper]; [sz] is the number of
    output slots, absent for a NULL [out_strs].  Every round consumes at
    least the terminator. *)
Fixpoint string_loop (fuel : nat) (p : list byte) (i skip : Z) (sz : option Z)
    (outs : list string) : res (Z * list string) :=
  match fuel with
  | O => Ok (i, outs)
  | S fuel =>
      if negb (bool_decide (p = [])) &&
         match sz with None => true | Some sz => i <? skip + sz end then
        let l := S (strnlen p) in
        if (length p <? l)%nat then Err (- EILSEQ)
        else
          let outs := match sz with
                      | Some _ => if skip <=? i then outs ++ [cstr p] else outs
                      | None => outs
                      end in
          string_loop fuel (drop l p) (i + 1) skip sz outs
      else Ok (i, outs)
  end.

Definition of_property_read_string_helper (np : device_node) (propname : string)
    (sz : option Z) (skip : Z) : Z * list string :=
  match of_find_property np propname with
  | None => (- EINVAL, [])
  | Some prop =>
      match p_value prop with
      | None => (- ENODATA, [])
      | Some p =>
          match string_loop (S (length p)) p 0 skip sz [] with
          | Err e => (e, [])
          | Ok (i, outs) => ((if i - skip <=? 0 then - ENODATA else i - skip), outs)
          end
      end
  end.

Definition of_property_count_strings (np : device_node) (propname : string) : Z :=
  fst (of_property_read_string_helper np propname None 0).

Definition of_property_read_string_index (np : device_node) (propname : string) (index : Z)
  : res string :=
  let '(rc, outs) := of_property_read_string_helper np propname (Some 1) index in
  if rc <? 0 then Err rc else Ok (default String.EmptyString (head outs)).

(** ** Writing *)

Definition __of_new_property (np : device_node) (name : string) (data : list byte)
  : device_node :=
  set_properties np (n_properties np ++ [Property name (Some data)]).

(** A NULL [data] gives a zeroed value of the length. *)
Definition of_new_property (np : device_node) (name : string) (data : option (list byte))
    (len : nat) : device_node :=
  __of_new_property np name
    match data with Some d => take len d | None => replicate len Init.Byte.x00 end.

(** [of_delete_property] of the property found under [name], if any. *)
Fixpoint del_prop (ps : list property) (name : string) : list property :=
  match ps with
  | [] => []
  | p :: ps => if bool_decide (p_name p = name) then ps else p :: del_prop ps name
  end.

Definition of_delete_property (np : device_node) (name : string) : device_node :=
  set_properties np (del_prop (n_properties np) name).

Definition of_set_property (np : device_node) (name : string) (val : list byte)
    (create : bool) : Z * device_node :=
  match of_find_property np name with
  | None => if create then (0, of_new_property np name (Some val) (length val))
            else (- ENOENT, np)
  | Some _ => (0, of_new_property (of_delete_property np name) name (Some val) (length val))
  end.

Definition of_property_write_u8_array (np : device_node) (propname : string)
    (values : list byte) : Z * device_node :=
  let np := match of_find_property np propname with
            | Some _ => of_delete_property np propname
            | None => np
            end in
  (0, of_new_property np propname (Some values) (length values)).

Definition of_property_write_u32_array (np : device_node) (propname : string)
    (values : list Z) : Z * device_node :=
  let np := match of_find_property np propname with
            | Some _ => of_delete_property np propname
            | None => np
            end in
  (0, __of_new_property np propname (concat (map (be_bytes 4) values))).

Definition of_property_write_u32 (np : device_node) (propname : string) (value : Z)
  : Z * device_node :=
  of_property_write_u32_array np propname [value].

Definition of_property_write_string (np : device_node) (propname : string) (value : string)
  : Z * device_node :=
  of_set_property np propname (cstr_bytes value) true.

(** The new node hangs below [parent]; the caller appends it to the
    children of the parent once it is complete. *)
Definition of_new_node (parent : device_node) (name : string) : device_node :=
  Node name (String.append (n_full_name parent) (String.append "/" name)) [] [].

(** A new node without a parent has no name. *)
Definition of_new_root : device_node := Node String.EmptyString String.EmptyString [] [].

Definition add_child (parent child : device_node) : device_node :=
  let 'Node n f p c := parent in Node n f p (c ++ [child]).

Fixpoint find_child (cs : list device_node) (name : string) : option device_node :=
  match cs with
  | [] => None
  | c :: cs => if bool_decide (n_name c = name) then Some c else find_child cs name
  end.

Definition of_get_child_by_name (np : device_node) (name : string) : option device_node :=
  find_child (n_children np) name.

(** ** Lemmas *)

(** Induction over a node and its children. *)
Lemma device_node_ind' (P : device_node -> Prop) :
  (forall n f p c, Forall P c -> P (Node n f p c)) -> forall node, P node.
Proof.
  intros H. fix IH 1. intros [n f p c]. apply H. induction c as [|x c IHc]; constructor.
  - apply IH.
  - exact IHc.
Qed.

Lemma bytes_of_string_of l : bytes_of (string_of l) = l.
Proof. apply String.list_byte_of_string_of_list_byte. Qed.

Lemma string_of_bytes_of s : string_of (bytes_of s) = s.
Proof. apply String.string_of_list_byte_of_string. Qed.

Lemma strnlen_app l p :
  Forall (fun b => b <> Init.Byte.x00) l -> strnlen (l ++ Init.Byte.x00 :: p) = length l.
Proof.
  induction 1 as [|x l Hx _ IH]; cbn; [done|].
  rewrite bool_decide_eq_false_2 by done. by rewrite IH.
Qed.

Lemma strnlen_bytes s p : no_nul s -> strnlen (cstr_bytes s ++ p) = length (bytes_of s).
Proof. intros H. unfold cstr_bytes. rewrite <- app_assoc. by apply strnlen_app. Qed.

Lemma cstr_app s p : no_nul s -> cstr (cstr_bytes s ++ p) = s.
Proof.
  intros H. unfold cstr. rewrite strnlen_bytes by done. unfold cstr_bytes.
  rewrite <- app_assoc, take_app_length. apply string_of_bytes_of.
Qed.

Lemma strnlen_no_nul p : Forall (fun b => b <> Init.Byte.x00) (take (strnlen p) p).
Proof.
  induction p as [|x p IH]; cbn; [constructor|]. case_bool_decide; cbn; [constructor|].
  by constructor.
Qed.

Lemma cstr_no_nul p : no_nul (cstr p).
Proof. unfold no_nul, cstr. rewrite bytes_of_string_of. apply strnlen_no_nul. Qed.

Lemma find_prop_new ps name v :
  find_prop ps name = None ->
  find_prop (ps ++ [Property name v]) name = Some (Property name v).
Proof.
  induction ps as [|p ps IH]; cbn.
  - by rewrite bool_decide_eq_true_2.
  - case_bool_decide; [done|]. apply IH.
Qed.

Lemma find_prop_other ps name name' v :
  name <> name' -> find_prop (ps ++ [Property name v]) name' = find_prop ps name'.
Proof.
  intros Hne. induction ps as [|p ps IH]; cbn.
  - by rewrite bool_decide_eq_false_2.
  - case_bool_decide; [done|]. apply IH.
Qed.

Lemma find_prop_name ps name p : find_prop ps name = Some p -> p_name p = name.
Proof.
  induction ps as [|q ps IH]; cbn; [done|]. case_bool_decide; [congruence|apply IH].
Qed.

Lemma find_del_other ps name name' :
  name <> name' -> find_prop (del_prop ps name) name' = find_prop ps name'.
Proof.
  intros Hne. induction ps as [|p ps IH]; cbn; [done|].
  case_bool_decide as H1; cbn.
  - rewrite bool_decide_eq_false_2 by congruence. done.
  - case_bool_decide; [done|apply IH].
Qed.

(** Property names of a node are unique, as [of_set_property] keeps them. *)
Definition props_uniq (ps : list property) : Prop := NoDup (map p_name ps).

Lemma find_prop_notin ps name : name ∉ map p_name ps -> find_prop ps name = None.
Proof.
  induction ps as [|p ps IH]; cbn; [done|]. rewrite not_elem_of_cons. intros [H1 H2].
  rewrite bool_decide_eq_false_2 by congruence. by apply IH.
Qed.

Lemma find_del_same ps name : props_uniq ps -> find_prop (del_prop ps name) name = None.
Proof.
  unfold props_uniq. induction ps as [|p ps IH]; cbn; [done|]. intros H.
  apply NoDup_cons in H as [Hn H]. case_bool_decide as H1.
  - apply find_prop_notin. by rewrite <- H1.
  - cbn. rewrite bool_decide_eq_false_2 by done. by apply IH.
Qed.

Lemma del_prop_none ps name : find_prop ps name = None -> del_prop ps name = ps.
Proof.
  induction ps as [|p ps IH]; cbn; [done|]. case_bool_decide; [done|].
  intros H1. by rewrite IH.
Qed.

(** All writers replace the property of that name by one at the end. *)
Definition put_prop (ps : list property) (name : string) (d : list byte) : list property :=
  del_prop ps name ++ [Property name (Some d)].

Lemma props_set np ps : n_properties (set_properties np ps) = ps.
Proof. by destruct np. Qed.

Lemma new_after_del np name d :
  n_properties (__of_new_property (match of_find_property np name with
                                   | Some _ => of_delete_property np name
                                   | None => np end) name d)
  = put_prop (n_properties np) name d.
Proof.
  unfold __of_new_property, of_delete_property, of_find_property, put_prop.
  destruct (find_prop (n_properties np) name) eqn:E; rewrite !props_set; [done|].
  by rewrite del_prop_none.
Qed.

Lemma write_u8_array_props np name d :
  n_properties (snd (of_property_write_u8_array np name d)) = put_prop (n_properties np) name d.
Proof.
  unfold of_property_write_u8_array, of_new_property. cbn [snd].
  rewrite take_ge by done. apply new_after_del.
Qed.

Lemma write_u32_array_props np name l :
  n_properties (snd (of_property_write_u32_array np name l)) =
  put_prop (n_properties np) name (concat (map (be_bytes 4) l)).
Proof. apply new_after_del. Qed.

Lemma set_property_props np name d :
  fst (of_set_property np name d true) = 0 /\
  n_properties (snd (of_set_property np name d true)) = put_prop (n_properties np) name d.
Proof.
  pose proof (new_after_del np name d) as H. unfold of_set_property, of_new_property.
  rewrite take_ge by done. destruct (of_find_property np name); cbn [fst snd]; auto.
Qed.

Lemma put_prop_same ps name d :
  props_uniq ps -> find_prop (put_prop ps name d) name = Some (Property name (Some d)).
Proof. intros H. apply find_prop_new. by apply find_del_same. Qed.

Lemma put_prop_other ps name d name' :
  name <> name' -> find_prop (put_prop ps name d) name' = find_prop ps name'.
Proof. intros H. unfold put_prop. rewrite find_prop_other, find_del_other; done. Qed.

Lemma del_prop_names ps name x :
  x ∈ map p_name (del_prop ps name) -> x ∈ map p_name ps.
Proof.
  induction ps as [|p ps IH]; cbn; [done|]. case_bool_decide; cbn.
  - intros H1. by apply list_elem_of_further.
  - rewrite !elem_of_cons. intros [->|H1]; [by left|right; by apply IH].
Qed.

Lemma put_prop_uniq ps name d : props_uniq ps -> props_uniq (put_prop ps name d).
Proof.
  intros Hu. unfold put_prop, props_uniq. rewrite map_app. apply NoDup_app. split_and!.
  - unfold props_uniq in Hu. induction ps as [|p ps IH]; cbn in *; [done|].
    apply NoDup_cons in Hu as [Hn Hu]. case_bool_decide; [done|]. cbn. constructor; [|auto].
    intros Hin. apply Hn. by apply del_prop_names in Hin.
  - intros x Hx. cbn. rewrite list_elem_of_singleton. intros ->.
    assert (H : find_prop (del_prop ps name) name = None) by (by apply find_del_same).
    revert Hx H. induction (del_prop ps name) as [|q l IH]; cbn; [by rewrite elem_of_nil|].
    rewrite elem_of_cons. case_bool_decide; [done|]. intros [->|Hx]; [done|by apply IH].
  - cbn. apply NoDup_singleton.
Qed.

(** Reading back what is found under a name. *)
Lemma read_u32_found np name v :
  0 <= v < 2 ^ 32 ->
  find_prop (n_properties np) name = Some (Property name (Some (be_bytes 4 v))) ->
  of_property_read_u32 np name = Ok v.
Proof.
  intros Hv H. unfold of_property_read_u32, of_property_read_u32_array,
    of_find_property_value_of_size, of_find_property. rewrite H. cbn [p_value].
  unfold p_length. cbn [p_value default from_option id].
  assert (Hl : length (be_bytes 4 v) = 4%nat).
  { unfold be_bytes. by rewrite length_rev, length_le_bytes. }
  rewrite Hl. cbn [be32_cells head default from_option id].
  change (Z.of_nat 4 <? Z.of_nat (1 * 4)) with false. cbn iota.
  change (negb (0 =? 0) && (0 <? Z.of_nat 4)) with false. cbn [head be32_cells default from_option id].
  rewrite take_ge by lia. f_equal. rewrite be_val_bytes, Z.mod_small by lia. done.
Qed.

Lemma read_u8_array_found np name d :
  find_prop (n_properties np) name = Some (Property name (Some d)) ->
  of_property_read_u8_array np name (length d) = Ok d.
Proof.
  intros H. unfold of_property_read_u8_array, of_find_property_value_of_size,
    of_find_property. rewrite H. unfold p_length. cbn.
  replace (Z.of_nat (length d) <? Z.of_nat (length d)) with false by lia.
  cbn. by rewrite take_ge.
Qed.

Lemma read_string_found np name s :
  no_nul s -> find_prop (n_properties np) name = Some (Property name (Some (cstr_bytes s))) ->
  of_property_read_string np name = Ok s.
Proof.
  intros Hs H. unfold of_property_read_string, of_find_property. rewrite H.
  unfold p_length. cbn [p_value default from_option id].
  pose proof (strnlen_bytes s [] Hs) as Hn. pose proof (cstr_app s [] Hs) as Hc.
  rewrite app_nil_r in *. rewrite Hn, Hc. unfold cstr_bytes. rewrite length_app. cbn [length].
  destruct (Z.leb_spec (Z.of_nat (length (bytes_of s) + 1)) (Z.of_nat (length (bytes_of s)))); [lia|done].
Qed.

Lemma read_none np name :
  find_prop (n_properties np) name = None ->
  of_property_read_u32 np name = Err (- EINVAL) /\
  of_property_read_string np name = Err (- EINVAL) /\
  (forall n, of_property_read_u8_array np name n = Err (- EINVAL)) /\
  of_get_property np name = None.
Proof.
  intros H. unfold of_property_read_u32, of_property_read_u32_array,
    of_property_read_u8_array, of_property_read_string, of_get_property,
    of_find_property_value_of_size, of_find_property. by rewrite H.
Qed.

End Of.
