(* ===== verification/StateVars.v ===== *)
(** * State variables (common/state/state_variables.c, state.h)

    The five variable types, how they are created from a device tree node,
    and their conversion from and to nodes.  A variable exposes the memory
    behind its [raw] pointer: the raw format copies [size] bytes from and to
    it.  The host is little endian, so a uint8 is the first byte of its 32
    bit value. *)

From stdpp Require Import base list strings.
From Stdlib Require Import ZArith Lia Sorting.Sorted.
From S2P Require Import Prelude Of.

Module StateVars.
Import Of.

(** ** Data *)

Inductive state_variable_type :=
| STATE_VARIABLE_TYPE_UINT8
| STATE_VARIABLE_TYPE_UINT32
| STATE_VARIABLE_TYPE_ENUM32
| STATE_VARIABLE_TYPE_MAC
| STATE_VARIABLE_TYPE_STRING.

#[export] Instance state_variable_type_eq_dec : EqDecision state_variable_type.
Proof. solve_decision. Defined.

Inductive state_convert :=
| STATE_CONVERT_FROM_NODE
| STATE_CONVERT_FROM_NODE_CREATE
| STATE_CONVERT_TO_NODE
| STATE_CONVERT_FIXUP.

#[export] Instance state_convert_eq_dec : EqDecision state_convert.
Proof. solve_decision. Defined.

(** The structures that contain a state_variable. *)
Inductive var_body :=
| state_uint32 (value value_default : Z)
| state_enum32 (value value_default : Z) (names : list string)
| state_mac (value value_default : list byte)
| state_string (value value_default : option string) (raw : list byte).

Record state_variable := StateVariable {
  sv_type : state_variable_type;
  sv_name : string;
  sv_start : Z;
  sv_size : Z;
  sv_body : var_body
}.

Definition set_body (sv : state_variable) (b : var_body) : state_variable :=
  StateVariable (sv_type sv) (sv_name sv) (sv_start sv) (sv_size sv) b.

Definition set_place (sv : state_variable) (name : string) (start : Z) : state_variable :=
  StateVariable (sv_type sv) name start (sv_size sv) (sv_body sv).

(** Memory behind [sv->raw]. *)
Definition sv_raw (sv : state_variable) : list byte :=
  match sv_body sv with
  | state_uint32 v _ => le_bytes 4 v
  | state_enum32 v _ _ => le_bytes 4 v
  | state_mac v _ => v
  | state_string _ _ raw => raw
  end.

(** [memcpy(sv->raw, src, length src)]. *)
Definition set_raw (sv : state_variable) (src : list byte) : state_variable :=
  let raw := write_at (sv_raw sv) 0 src in
  set_body sv
    match sv_body sv with
    | state_uint32 _ d => state_uint32 (le_val raw) d
    | state_enum32 _ d n => state_enum32 (le_val raw) d n
    | state_mac _ d => state_mac raw d
    | state_string v d _ => state_string v d raw
    end.

(** The variable list of a state is sorted by position. *)
Definition state_var_compare (va vb : state_variable) : Z :=
  if sv_start va <? sv_start vb then -1 else 1.

Definition state_add_var (vars : list state_variable) (var : state_variable)
  : list state_variable := list_add_sort state_var_compare var vars.

(** ** Parameters of the state's device *)

(** Registering a parameter: names are unique on a device. *)
Definition dev_add_param (params : list string) (name : string) : Z * list string :=
  if bool_decide (name ∈ params) then (- EEXIST, params) else (0, name :: params).

(** ** uint8 and uint32 *)

Definition set_if_ok {A} (r : res A) (old : A) : A :=
  match r with Ok v => v | Err _ => old end.

Definition state_uint32_export (sv : state_variable) (node : device_node)
    (conv : state_convert) : Z * device_node :=
  match sv_body sv with
  | state_uint32 value value_default =>
      let '(ret, node) :=
        if value_default =? 0 then (0, node)
        else of_property_write_u32 node "default" value_default in
      if negb (ret =? 0) then (ret, node)
      else if bool_decide (conv = STATE_CONVERT_FIXUP) then (0, node)
      else of_property_write_u32 node "value" value
  | _ => (0, node)
  end.

Definition state_uint32_import (sv : state_variable) (node : device_node)
  : Z * state_variable :=
  match sv_body sv with
  | state_uint32 value value_default =>
      let value_default := set_if_ok (of_property_read_u32 node "default") value_default in
      let value := match of_property_read_u32 node "value" with
                   | Ok v => v
                   | Err _ => value_default
                   end in
      (0, set_body sv (state_uint32 value value_default))
  | _ => (0, sv)
  end.

(** Callback after the parameter code stored a new value: return code and
    the state's dirty flag. *)
Definition state_set_dirty (dirty : bool) : Z * bool := (0, true).

Definition state_uint8_set (sv : state_variable) (dirty : bool) : Z * bool :=
  match sv_body sv with
  | state_uint32 value _ => if 255 <? value then (- ERANGE, dirty) else state_set_dirty dirty
  | _ => (0, dirty)
  end.

(** A new variable has no name and position yet. *)
Definition new_var (t : state_variable_type) (size : Z) (b : var_body) : state_variable :=
  StateVariable t String.EmptyString 0 size b.

Definition state_uint8_create (params : list string) (name : string) (node : device_node)
  : res state_variable * list string :=
  let '(ret, params) := dev_add_param params name in
  if ret <? 0 then (Err ret, params)
  else (Ok (new_var STATE_VARIABLE_TYPE_UINT8 1 (state_uint32 0 0)), params).

Definition state_uint32_create (params : list string) (name : string) (node : device_node)
  : res state_variable * list string :=
  let '(ret, params) := dev_add_param params name in
  if ret <? 0 then (Err ret, params)
  else (Ok (new_var STATE_VARIABLE_TYPE_UINT32 4 (state_uint32 0 0)), params).

(** ** enum32 *)

Definition state_enum32_export (sv : state_variable) (node : device_node)
    (conv : state_convert) : Z * device_node :=
  match sv_body sv with
  | state_enum32 value value_default names =>
      let '(ret, node) :=
        if value_default =? 0 then (0, node)
        else of_property_write_u32 node "default" value_default in
      if negb (ret =? 0) then (ret, node)
      else
        let prop := concat (map cstr_bytes names) in
        let '(ret, node) := of_set_property node "names" prop true in
        if negb (ret =? 0) then (ret, node)
        else if bool_decide (conv = STATE_CONVERT_FIXUP) then (0, node)
        else of_property_write_u32 node "value" value
  | _ => (0, node)
  end.

(** A property value that exists but is not four bytes long is an error. *)
Definition bad_u32 (v : option (list byte)) : bool :=
  match v with Some v => negb (length v =? 4)%nat | None => false end.

Definition state_enum32_import (sv : state_variable) (node : device_node)
  : Z * state_variable :=
  match sv_body sv with
  | state_enum32 value value_default names =>
      let pv := of_get_property node "value" in
      if bad_u32 pv then (- EINVAL, sv)
      else
        let pd := of_get_property node "default" in
        if bad_u32 pd then (- EINVAL, sv)
        else
          let value_default := match pd with Some d => be_val d | None => value_default end in
          let value := match pv with Some v => be_val v | None => value_default end in
          (0, set_body sv (state_enum32 value value_default names))
  | _ => (0, sv)
  end.

(** The loop reading the [num_names] names. *)
Fixpoint enum32_names (node : device_node) (i : Z) (n : nat) : res (list string) :=
  match n with
  | O => Ok []
  | S n =>
      match of_property_read_string_index node "names" i with
      | Err e => Err e
      | Ok name =>
          match enum32_names node (i + 1) n with
          | Err e => Err e
          | Ok l => Ok (name :: l)
          end
      end
  end.

Definition state_enum32_create (params : list string) (name : string) (node : device_node)
  : res state_variable * list string :=
  let num_names := of_property_count_strings node "names" in
  if num_names <? 0 then (Err (- EINVAL), params)
  else
    match enum32_names node 0 (Z.to_nat num_names) with
    | Err e => (Err e, params)
    | Ok names =>
        let '(ret, params) := dev_add_param params name in
        if ret <? 0 then (Err ret, params)
        else (Ok (new_var STATE_VARIABLE_TYPE_ENUM32 4 (state_enum32 0 0 names)), params)
    end.

(** ** mac *)

Definition is_zero_ether_addr (a : list byte) : bool :=
  forallb (fun b => bool_decide (b = Init.Byte.x00)) a.

Definition state_mac_export (sv : state_variable) (node : device_node)
    (conv : state_convert) : Z * device_node :=
  match sv_body sv with
  | state_mac value value_default =>
      let '(ret, node) :=
        if is_zero_ether_addr value_default then (0, node)
        else of_property_write_u8_array node "default" value_default in
      if negb (ret =? 0) then (ret, node)
      else if bool_decide (conv = STATE_CONVERT_FIXUP) then (0, node)
      else of_property_write_u8_array node "value" value
  | _ => (0, node)
  end.

Definition state_mac_import (sv : state_variable) (node : device_node)
  : Z * state_variable :=
  match sv_body sv with
  | state_mac value value_default =>
      let value_default := set_if_ok (of_property_read_u8_array node "default" 6) value_default in
      let value := match of_property_read_u8_array node "value" 6 with
                   | Ok v => v
                   | Err _ => value_default
                   end in
      (0, set_body sv (state_mac value value_default))
  | _ => (0, sv)
  end.

Definition zero_mac : list byte := replicate 6 Init.Byte.x00.

Definition state_mac_create (params : list string) (name : string) (node : device_node)
  : res state_variable * list string :=
  let '(ret, params) := dev_add_param params name in
  if ret <? 0 then (Err ret, params)
  else (Ok (new_var STATE_VARIABLE_TYPE_MAC 6 (state_mac zero_mac zero_mac)), params).

(** ** string *)

(** [memcpy] and [memset] of the remainder; [raw] has [var.size] bytes. *)
Definition state_string_copy_to_raw (sv : state_variable) (src : string)
  : Z * state_variable :=
  match sv_body sv with
  | state_string v d raw =>
      let b := bytes_of src in
      let len := Z.of_nat (length b) in
      if sv_size sv <? len then (- EILSEQ, sv)
      else (0, set_body sv (state_string v d
             (write_at (write_at raw 0 b) (length b)
                (replicate (Z.to_nat (sv_size sv - len)) Init.Byte.x00))))
  | _ => (0, sv)
  end.

Definition state_string_export (sv : state_variable) (node : device_node)
    (conv : state_convert) : Z * device_node :=
  match sv_body sv with
  | state_string value value_default _ =>
      let '(ret, node) :=
        match value_default with
        | Some d => of_property_write_string node "default" d
        | None => (0, node)
        end in
      if negb (ret =? 0) then (ret, node)
      else if bool_decide (conv = STATE_CONVERT_FIXUP) then (0, node)
      else match value with
           | Some v => of_property_write_string node "value" v
           | None => (0, node)
           end
  | _ => (0, node)
  end.

Definition state_string_import (sv : state_variable) (node : device_node)
  : Z * state_variable :=
  match sv_body sv with
  | state_string value value_default raw =>
      let value_default := match of_property_read_string node "default" with
                           | Ok s => Some s
                           | Err _ => value_default
                           end in
      let sv := set_body sv (state_string value value_default raw) in
      if match value_default with
         | Some d => sv_size sv <? Z.of_nat (length (bytes_of d))
         | None => false
         end
      then (- EILSEQ, sv)
      else
        match match of_property_read_string node "value" with
              | Ok s => Some s
              | Err _ => value_default
              end with
        | Some v => state_string_copy_to_raw sv v
        | None => (0, sv)
        end
  | _ => (0, sv)
  end.

(** Parameter callbacks: [value] was just replaced by the parameter code. *)
Definition state_string_set (sv : state_variable) (dirty : bool)
  : Z * state_variable * bool :=
  match sv_body sv with
  | state_string (Some value) _ _ =>
      let '(ret, sv) := state_string_copy_to_raw sv value in
      if negb (ret =? 0) then (ret, sv, dirty)
      else let '(ret, dirty) := state_set_dirty dirty in (ret, sv, dirty)
  | _ => (0, sv, dirty)
  end.

(** [xstrndup(raw, size)] stops at the first zero byte. *)
Definition state_string_get (sv : state_variable) : Z * state_variable :=
  match sv_body sv with
  | state_string _ d raw => (0, set_body sv (state_string (Some (cstr raw)) d raw))
  | _ => (0, sv)
  end.

Definition state_string_create (params : list string) (name : string) (node : device_node)
  : res state_variable * list string :=
  match of_property_read_u32_array node "reg" 2 with
  | Err e => (Err e, params)
  | Ok start_size =>
      let size := default 0 (start_size !! 1%nat) in
      if 4096 <? size then (Err (- EILSEQ), params)
      else
        let '(ret, params) := dev_add_param params name in
        if ret <? 0 then (Err ret, params)
        else (Ok (new_var STATE_VARIABLE_TYPE_STRING size
                (state_string None None (replicate (Z.to_nat size) Init.Byte.x00))), params)
  end.

(** ** The table of types *)

Record variable_type := VariableType {
  type_name : string;
  vtype : state_variable_type;
  export : state_variable -> device_node -> state_convert -> Z * device_node;
  import : state_variable -> device_node -> Z * state_variable;
  create : list string -> string -> device_node -> res state_variable * list string
}.

Definition types : list variable_type := [
  VariableType "uint8" STATE_VARIABLE_TYPE_UINT8
    state_uint32_export state_uint32_import state_uint8_create;
  VariableType "uint32" STATE_VARIABLE_TYPE_UINT32
    state_uint32_export state_uint32_import state_uint32_create;
  VariableType "enum32" STATE_VARIABLE_TYPE_ENUM32
    state_enum32_export state_enum32_import state_enum32_create;
  VariableType "mac" STATE_VARIABLE_TYPE_MAC
    state_mac_export state_mac_import state_mac_create;
  VariableType "string" STATE_VARIABLE_TYPE_STRING
    state_string_export state_string_import state_string_create].

Definition state_find_type_by_name (name : string) : option variable_type :=
  find (fun t => bool_decide (name = type_name t)) types.

Fixpoint state_find_var (vars : list state_variable) (name : string) : res state_variable :=
  match vars with
  | [] => Err (- ENOENT)
  | sv :: vars => if bool_decide (sv_name sv = name) then Ok sv else state_find_var vars name
  end.

(** ** Well-formed variables *)

Definition is_u32 (z : Z) : Prop := 0 <= z < 2 ^ 32.

Definition opt_no_nul (s : option string) : Prop :=
  match s with Some s => no_nul s | None => True end.

(** Type, size and contents of a variable agree. *)
Definition wf_var (sv : state_variable) : Prop :=
  match sv_type sv, sv_body sv with
  | STATE_VARIABLE_TYPE_UINT8, state_uint32 v d => sv_size sv = 1 /\ is_u32 v /\ is_u32 d
  | STATE_VARIABLE_TYPE_UINT32, state_uint32 v d => sv_size sv = 4 /\ is_u32 v /\ is_u32 d
  | STATE_VARIABLE_TYPE_ENUM32, state_enum32 v d names =>
      sv_size sv = 4 /\ is_u32 v /\ is_u32 d /\ Forall no_nul names
  | STATE_VARIABLE_TYPE_MAC, state_mac v d =>
      sv_size sv = 6 /\ length v = 6%nat /\ length d = 6%nat
  | STATE_VARIABLE_TYPE_STRING, state_string v d raw =>
      sv_size sv = Z.of_nat (length raw) /\ opt_no_nul v /\ opt_no_nul d
  | _, _ => False
  end.

Lemma is_u32_le l : length l = 4%nat -> is_u32 (le_val l).
Proof.
  intros H. split; [apply le_val_nonneg|]. pose proof (le_val_bound l) as Hb.
  by rewrite H in Hb.
Qed.

Lemma is_u32_be l : length l = 4%nat -> is_u32 (be_val l).
Proof. intros H. unfold be_val. apply is_u32_le. by rewrite length_rev. Qed.

#[export] Hint Resolve is_u32_le is_u32_be : barebox.

(** The raw memory covers the variable. *)
Lemma wf_raw_length sv : wf_var sv -> 0 <= sv_size sv <= Z.of_nat (length (sv_raw sv)).
Proof.
  unfold wf_var, sv_raw.
  destruct (sv_type sv), (sv_body sv); try done; rewrite ?length_le_bytes; lia.
Qed.

Lemma le_bytes4_val l : length l = 4%nat -> le_bytes 4 (le_val l) = l.
Proof. intros H. rewrite <- H. apply le_bytes_val. Qed.

Lemma sv_raw_set_raw sv src :
  wf_var sv -> (length src <= length (sv_raw sv))%nat ->
  sv_raw (set_raw sv src) = write_at (sv_raw sv) 0 src.
Proof.
  intros Hwf Hl. unfold set_raw, sv_raw, wf_var in *. cbn [sv_body set_body].
  destruct (sv_type sv), (sv_body sv) eqn:E; try done;
    apply le_bytes4_val; by rewrite length_write_at, length_le_bytes.
Qed.

Lemma set_raw_wf sv src :
  wf_var sv -> (length src <= length (sv_raw sv))%nat -> wf_var (set_raw sv src).
Proof.
  unfold wf_var, set_raw. cbn [sv_type sv_body sv_size set_body].
  destruct (sv_type sv) eqn:Et, (sv_body sv) eqn:Eb; cbn; try done; intros Hwf Hl;
    unfold sv_raw in *; rewrite Eb in *; rewrite ?length_write_at; intuition;
    apply is_u32_le; by rewrite length_write_at, length_le_bytes.
Qed.

(** A memcpy of the variable's size sets exactly these bytes. *)
Lemma set_raw_prefix sv src :
  wf_var sv -> Z.of_nat (length src) = sv_size sv ->
  take (length src) (sv_raw (set_raw sv src)) = src.
Proof.
  intros Hwf Hl. pose proof (wf_raw_length sv Hwf) as Hr.
  rewrite sv_raw_set_raw by (done || lia).
  pose proof (read_write_at_same (sv_raw sv) 0 src) as H. unfold read_at in H.
  rewrite drop_0 in H. apply H. lia.
Qed.

(** ** The sorted list *)

Definition vars_sorted (vars : list state_variable) : Prop :=
  Sorted (fun a b => sv_start a <= sv_start b) vars.

Lemma state_add_var_sorted vars v : vars_sorted vars -> vars_sorted (state_add_var vars v).
Proof.
  unfold vars_sorted, state_add_var. induction 1 as [|a l Hs IH Hr]; cbn; [repeat constructor|].
  unfold state_var_compare at 1. destruct (Z.ltb_spec (sv_start a) (sv_start v)) as [Hlt|Hge].
  - cbn. constructor; [done|]. destruct Hr as [|b l' Hab]; cbn; [constructor; lia|].
    unfold state_var_compare. destruct (_ <? _); cbn; constructor; lia.
  - cbn. constructor; [by constructor|]. constructor. lia.
Qed.

(** ** Creation and import keep variables well-formed *)

Lemma read_string_no_nul np name s : of_property_read_string np name = Ok s -> no_nul s.
Proof.
  unfold of_property_read_string. destruct (of_find_property np name) as [p|]; [|done].
  destruct (p_value p); [|done]. destruct (_ <=? _); [done|]. intros H. inv H.
  apply cstr_no_nul.
Qed.

Lemma read_u32_range np name v : of_property_read_u32 np name = Ok v -> is_u32 v.
Proof.
  unfold of_property_read_u32, of_property_read_u32_array, of_find_property_value_of_size.
  destruct (of_find_property np name) as [p|]; [|done]. unfold p_length.
  destruct (p_value p) as [d|] eqn:E; [|done]. cbn [default from_option id].
  destruct (Z.ltb_spec (Z.of_nat (length d)) (Z.of_nat (1 * 4))); [done|].
  destruct (negb _ && _); [done|]. intros H0. inv H0. apply is_u32_be.
  rewrite length_take. lia.
Qed.

Lemma read_u8_array_length np name n d :
  of_property_read_u8_array np name n = Ok d -> length d = n.
Proof.
  unfold of_property_read_u8_array, of_find_property_value_of_size.
  destruct (of_find_property np name) as [p|]; [|done]. unfold p_length.
  destruct (p_value p) as [v|] eqn:E; [|done]. cbn [default from_option id].
  destruct (Z.ltb_spec (Z.of_nat (length v)) (Z.of_nat n)); [done|].
  destruct (negb _ && _); [done|]. intros H0. inv H0. rewrite length_take. lia.
Qed.

#[export] Hint Resolve read_u32_range read_u8_array_length read_string_no_nul : barebox.

Lemma copy_to_raw_wf sv s ret sv' :
  wf_var sv -> state_string_copy_to_raw sv s = (ret, sv') -> wf_var sv'.
Proof.
  unfold state_string_copy_to_raw. intros Hwf.
  destruct (sv_body sv) as [| | |v d raw] eqn:Eb; [intros E; by inv E..|].
  destruct (sv_size sv <? _); intros E; inv E; [done|].
  unfold wf_var in *. cbn [sv_type sv_body sv_size set_body]. rewrite Eb in Hwf.
  destruct (sv_type sv); rewrite ?length_write_at; done.
Qed.


(** Same variable, possibly other contents. *)
Definition same_var (a b : state_variable) : Prop :=
  sv_type a = sv_type b /\ sv_size a = sv_size b /\ sv_name a = sv_name b /\
  sv_start a = sv_start b.

Lemma uint32_import_wf sv node ret sv' :
  wf_var sv -> state_uint32_import sv node = (ret, sv') -> wf_var sv' /\ same_var sv' sv.
Proof.
  unfold state_uint32_import, wf_var. intros Hwf E.
  destruct (sv_body sv) as [v d| | |] eqn:Eb; inv E; cbn [sv_type sv_body sv_size set_body];
    [|rewrite ?Eb; by destruct (sv_type sv')..].
  split; [|done].
  assert (Hd : is_u32 d -> is_u32 (set_if_ok (of_property_read_u32 node "default") d)).
  { intros H. unfold set_if_ok. destruct (of_property_read_u32 node "default") eqn:E1; eauto with barebox. }
  destruct (sv_type sv); try done;
    destruct (of_property_read_u32 node "value") eqn:E2; intuition eauto with barebox.
Qed.

Lemma bad_u32_range d z : bad_u32 d = false -> is_u32 z ->
  is_u32 match d with Some d => be_val d | None => z end.
Proof.
  destruct d as [d|]; cbn; [|done]. rewrite negb_false_iff, Nat.eqb_eq. auto with barebox.
Qed.

Lemma enum32_import_wf sv node ret sv' :
  wf_var sv -> state_enum32_import sv node = (ret, sv') -> wf_var sv' /\ same_var sv' sv.
Proof.
  unfold state_enum32_import. intros Hwf E.
  destruct (sv_body sv) as [|v d ns| |] eqn:Eb; try by inv E.
  destruct (bad_u32 (of_get_property node "value")) eqn:E1; [by inv E|].
  destruct (bad_u32 (of_get_property node "default")) eqn:E2; [by inv E|]. inv E.
  unfold wf_var in *. cbn [sv_type sv_body sv_size set_body]. rewrite Eb in Hwf.
  destruct (sv_type sv); try done.
  destruct Hwf as (Hs & Hv & Hd & Hn). split; [|done]. split_and!; auto using bad_u32_range.
Qed.

Lemma mac_import_wf sv node ret sv' :
  wf_var sv -> state_mac_import sv node = (ret, sv') -> wf_var sv' /\ same_var sv' sv.
Proof.
  unfold state_mac_import. intros Hwf E.
  destruct (sv_body sv) as [| |v d|] eqn:Eb; try by inv E. inv E.
  unfold wf_var in *. cbn [sv_type sv_body sv_size set_body]. rewrite Eb in Hwf.
  destruct (sv_type sv); try done. destruct Hwf as (Hs & Hv & Hd). split; [|done].
  assert (Hd' : length (set_if_ok (of_property_read_u8_array node "default" 6) d) = 6%nat).
  { unfold set_if_ok. destruct (of_property_read_u8_array node "default" 6) eqn:E1; eauto with barebox. }
  destruct (of_property_read_u8_array node "value" 6) eqn:E2; split_and!; eauto with barebox.
Qed.

Lemma copy_to_raw_same sv s ret sv' :
  state_string_copy_to_raw sv s = (ret, sv') -> same_var sv' sv.
Proof.
  unfold state_string_copy_to_raw. destruct (sv_body sv); [intros E; by inv E..|].
  destruct (_ <? _); intros E; by inv E.
Qed.

Lemma string_import_wf sv node ret sv' :
  wf_var sv -> state_string_import sv node = (ret, sv') -> wf_var sv' /\ same_var sv' sv.
Proof.
  unfold state_string_import. intros Hwf E.
  destruct (sv_body sv) as [| | |v d raw] eqn:Eb; try by inv E.
  set (d' := match of_property_read_string node "default" with
             | Ok s => Some s | Err _ => d end) in *.
  assert (Hwf' : wf_var (set_body sv (state_string v d' raw))).
  { unfold wf_var in *. cbn [sv_type sv_body sv_size set_body]. rewrite Eb in Hwf.
    destruct (sv_type sv); try done. destruct Hwf as (Hs & Hv & Hd). split_and!; try done.
    unfold d'. destruct (of_property_read_string node "default") eqn:E1; cbn; eauto with barebox. }
  destruct (match d' with Some _ => _ | None => _ end); [by inv E|].
  destruct (match of_property_read_string node "value" with Ok s => Some s | Err _ => d' end);
    [|by inv E].
  split; [by eapply copy_to_raw_wf|]. by apply copy_to_raw_same in E.
Qed.

Lemma import_wf vt sv node ret sv' :
  vt ∈ types -> wf_var sv -> import vt sv node = (ret, sv') -> wf_var sv' /\ same_var sv' sv.
Proof.
  intros Hin. unfold types in Hin. rewrite !elem_of_cons, elem_of_nil in Hin.
  destruct Hin as [->|[->|[->|[->|[->|[]]]]]]; cbn [import];
    eauto using uint32_import_wf, enum32_import_wf, mac_import_wf, string_import_wf.
Qed.


Lemma string_loop_no_nul fuel p i skip sz outs i' outs' :
  Forall no_nul outs -> string_loop fuel p i skip sz outs = Ok (i', outs') ->
  Forall no_nul outs'.
Proof.
  revert p i outs. induction fuel as [|fuel IH]; intros p i outs Ho; cbn [string_loop].
  { intros E. by inv E. }
  destruct (negb _ && _); [|intros E; by inv E].
  destruct (_ <? _)%nat; [done|]. apply IH. destruct sz; [|done].
  destruct (skip <=? i); [|done]. apply Forall_app. split; [done|].
  constructor; [apply cstr_no_nul|constructor].
Qed.

Lemma read_string_index_no_nul np name i s :
  of_property_read_string_index np name i = Ok s -> no_nul s.
Proof.
  unfold of_property_read_string_index, of_property_read_string_helper.
  destruct (of_find_property np name) as [p|]; [|done]. destruct (p_value p) as [v|]; [|done].
  destruct (string_loop (S (length v)) v 0 i (Some 1) []) as [[j outs]|e] eqn:E.
  - destruct (_ <? 0); [done|]. intros H. inv H.
    apply string_loop_no_nul in E; [|constructor]. destruct outs; cbn; [constructor|].
    by inv E.
  - destruct (e <? 0); intros H; inv H. constructor.
Qed.

Lemma enum32_names_no_nul node i n l : enum32_names node i n = Ok l -> Forall no_nul l.
Proof.
  revert i l. induction n as [|n IH]; intros i l; cbn; [intros E; by inv E|].
  destruct (of_property_read_string_index node "names" i) as [s|] eqn:E1; [|done].
  destruct (enum32_names node (i + 1) n) as [l'|] eqn:E2; [|done]. intros E. inv E.
  constructor; [by eapply read_string_index_no_nul|by eapply IH].
Qed.

Lemma create_wf vt params name node sv params' :
  vt ∈ types -> create vt params name node = (Ok sv, params') ->
  wf_var sv /\ sv_type sv = vtype vt.
Proof.
  intros Hin. unfold types in Hin. rewrite !elem_of_cons, elem_of_nil in Hin.
  assert (H0 : is_u32 0) by (unfold is_u32; lia).
  destruct Hin as [->|[->|[->|[->|[->|[]]]]]]; cbn [create vtype].
  - unfold state_uint8_create. destruct (dev_add_param params name) as [r ps].
    destruct (r <? 0); intros E; by inv E.
  - unfold state_uint32_create. destruct (dev_add_param params name) as [r ps].
    destruct (r <? 0); intros E; by inv E.
  - unfold state_enum32_create. destruct (_ <? 0); [intros E; by inv E|].
    destruct (enum32_names node 0 _) as [l|] eqn:En; [|intros E; by inv E].
    destruct (dev_add_param params name) as [r ps].
    destruct (r <? 0); intros E; inv E. apply enum32_names_no_nul in En. done.
  - unfold state_mac_create. destruct (dev_add_param params name) as [r ps].
    destruct (r <? 0); intros E; by inv E.
  - unfold state_string_create. destruct (of_property_read_u32_array node "reg" 2) as [l|] eqn:Er;
      [|intros E; by inv E].
    destruct (4096 <? _); [intros E; by inv E|].
    destruct (dev_add_param params name) as [r ps].
    destruct (r <? 0); intros E; inv E. split; [|done]. unfold wf_var. cbn.
    rewrite length_replicate. split_and!; try done.
    assert (0 <= default 0 (l !! 1%nat)); [|lia].
    revert Er. unfold of_property_read_u32_array.
    destruct (of_find_property_value_of_size _ _ _ _); [|done]. intros E. inv E. cbn.
    apply le_val_nonneg.
Qed.

(** ** Export and import *)

(** The [value] of a string variable is only maintained by its parameter;
    [synced] says it is the string in the raw memory. *)
Definition synced (sv : state_variable) : Prop :=
  match sv_body sv with
  | state_string value _ raw =>
      exists s, value = Some s /\ raw = bytes_of s ++ replicate (length raw - length (bytes_of s)) Init.Byte.x00
  | _ => True
  end.

(** A default that fits, as every successful import checks. *)
Definition default_fits (sv : state_variable) : Prop :=
  match sv_body sv with
  | state_string _ (Some d) raw => (length (bytes_of d) <= length raw)%nat
  | _ => True
  end.

(** The node is new: no property a variable writes exists yet. *)
Definition fresh_node (node : device_node) : Prop :=
  props_uniq (n_properties node) /\
  find_prop (n_properties node) "value" = None /\
  find_prop (n_properties node) "default" = None /\
  find_prop (n_properties node) "names" = None.

Lemma copy_to_raw_same_raw sv v d raw s :
  sv_body sv = state_string v d raw -> sv_size sv = Z.of_nat (length raw) ->
  (length (bytes_of s) <= length raw)%nat ->
  exists sv', state_string_copy_to_raw sv s = (0, sv') /\
    sv_raw sv' = bytes_of s ++ replicate (length raw - length (bytes_of s)) Init.Byte.x00.
Proof.
  intros Eb Hs Hl. unfold state_string_copy_to_raw. rewrite Eb.
  replace (sv_size sv <? Z.of_nat (length (bytes_of s))) with false by lia.
  eexists. split; [done|]. unfold sv_raw. cbn [sv_body set_body].
  replace (Z.to_nat (sv_size sv - Z.of_nat (length (bytes_of s))))
    with (length raw - length (bytes_of s))%nat by lia.
  set (z := replicate _ _).
  assert (Hz : length z = (length raw - length (bytes_of s))%nat) by apply length_replicate.
  rewrite write_at_inside by (rewrite length_write_at; lia).
  rewrite drop_ge, app_nil_r by (rewrite length_write_at; lia). f_equal.
  rewrite write_at_inside by lia. rewrite take_0, app_nil_l. by rewrite take_app_length.
Qed.

Lemma write_u32_props np name v :
  fst (of_property_write_u32 np name v) = 0 /\
  n_properties (snd (of_property_write_u32 np name v)) =
  put_prop (n_properties np) name (be_bytes 4 v).
Proof.
  split; [done|]. unfold of_property_write_u32. rewrite write_u32_array_props. cbn [map concat].
  by rewrite app_nil_r.
Qed.

Lemma uint32_export_import sv sv0 node ret node' v d v0 d0 :
  sv_body sv = state_uint32 v d -> is_u32 v -> sv_body sv0 = state_uint32 v0 d0 ->
  fresh_node node -> state_uint32_export sv node STATE_CONVERT_TO_NODE = (ret, node') ->
  ret = 0 /\ exists sv', state_uint32_import sv0 node' = (0, sv') /\ sv_raw sv' = sv_raw sv.
Proof.
  intros Eb Hv Eb0 (Hu & Hfv & Hfd & _). unfold state_uint32_export, state_uint32_import.
  rewrite Eb, Eb0.
  assert (Hps : exists node1, (if d =? 0 then (0, node)
      else of_property_write_u32 node "default" d) = (0, node1) /\
      props_uniq (n_properties node1)).
  { destruct (d =? 0); [by exists node|]. destruct (write_u32_props node "default" d) as [Hr Hp].
    destruct (of_property_write_u32 node "default" d) as [r n1]. cbn [fst snd] in *. subst r.
    exists n1. split; [done|]. rewrite Hp. by apply put_prop_uniq. }
  destruct Hps as (node1 & -> & Hu1). cbn [Z.eqb negb].
  rewrite bool_decide_eq_false_2 by done.
  destruct (write_u32_props node1 "value" v) as [Hr Hp].
  destruct (of_property_write_u32 node1 "value" v) as [r2 node2]. cbn [fst snd] in *.
  intros E. inv E. split; [done|]. eexists. split; [done|].
  rewrite (read_u32_found node' "value" v); [|done|by rewrite Hp; apply put_prop_same].
  unfold sv_raw. cbn [sv_body set_body]. by rewrite Eb.
Qed.

Lemma enum32_export_import sv sv0 node ret node' v d ns v0 d0 ns0 :
  sv_body sv = state_enum32 v d ns -> is_u32 v -> is_u32 d ->
  sv_body sv0 = state_enum32 v0 d0 ns0 ->
  fresh_node node -> state_enum32_export sv node STATE_CONVERT_TO_NODE = (ret, node') ->
  ret = 0 /\ exists sv', state_enum32_import sv0 node' = (0, sv') /\ sv_raw sv' = sv_raw sv.
Proof.
  intros Eb Hv Hd Eb0 (Hu & Hfv & Hfd & _). unfold state_enum32_export, state_enum32_import.
  rewrite Eb, Eb0.
  assert (Hps : exists node1, (if d =? 0 then (0, node)
      else of_property_write_u32 node "default" d) = (0, node1) /\
      props_uniq (n_properties node1) /\ bad_u32 (of_get_property node1 "default") = false).
  { unfold of_get_property, of_find_property.
    destruct (d =? 0); [exists node; by rewrite Hfd|].
    destruct (write_u32_props node "default" d) as [Hr Hp].
    destruct (of_property_write_u32 node "default" d) as [r n1]. cbn [fst snd] in *. subst r.
    exists n1. split; [done|]. rewrite Hp, put_prop_same by done. split; [by apply put_prop_uniq|]. cbn [p_value bad_u32].
    unfold be_bytes. by rewrite length_rev, length_le_bytes. }
  destruct Hps as (node1 & -> & Hu1 & Hbd). cbn [Z.eqb negb].
  destruct (set_property_props node1 "names" (concat (map cstr_bytes ns))) as [Hr1 Hp1].
  destruct (of_set_property node1 "names" _ true) as [r1 node2]. cbn [fst snd] in *. subst r1.
  cbn [Z.eqb negb]. rewrite bool_decide_eq_false_2 by done.
  destruct (write_u32_props node2 "value" v) as [Hr Hp].
  destruct (of_property_write_u32 node2 "value" v) as [r2 node3]. cbn [fst snd] in *.
  intros E. inv E. split; [done|].
  assert (Hg : of_get_property node' "value" = Some (be_bytes 4 v)).
  { unfold of_get_property, of_find_property. rewrite Hp, put_prop_same; [done|].
    rewrite Hp1. by apply put_prop_uniq. }
  assert (Hgd : of_get_property node' "default" = of_get_property node1 "default").
  { unfold of_get_property, of_find_property. by rewrite Hp, put_prop_other, Hp1, put_prop_other. }
  assert (Hl : length (be_bytes 4 v) = 4%nat)
    by (unfold be_bytes; by rewrite length_rev, length_le_bytes).
  rewrite Hg, Hgd, Hbd. cbn [bad_u32]. rewrite Hl. cbn [Nat.eqb negb].
  eexists. split; [done|]. unfold sv_raw. cbn [sv_body set_body]. rewrite Eb.
  by rewrite be_val_bytes, Z.mod_small.
Qed.

Lemma mac_export_import sv sv0 node ret node' v d v0 d0 :
  sv_body sv = state_mac v d -> length v = 6%nat -> sv_body sv0 = state_mac v0 d0 ->
  fresh_node node -> state_mac_export sv node STATE_CONVERT_TO_NODE = (ret, node') ->
  ret = 0 /\ exists sv', state_mac_import sv0 node' = (0, sv') /\ sv_raw sv' = sv_raw sv.
Proof.
  intros Eb Hv Eb0 (Hu & Hfv & Hfd & _). unfold state_mac_export, state_mac_import.
  rewrite Eb, Eb0.
  assert (Hps : exists node1, (if is_zero_ether_addr d then (0, node)
      else of_property_write_u8_array node "default" d) = (0, node1) /\
      props_uniq (n_properties node1)).
  { destruct (is_zero_ether_addr d); [by exists node|].
    pose proof (write_u8_array_props node "default" d) as Hp.
    destruct (of_property_write_u8_array node "default" d) as [r n1] eqn:E. inv E.
    cbn [snd] in Hp. eexists. split; [done|]. rewrite Hp. by apply put_prop_uniq. }
  destruct Hps as (node1 & -> & Hu1). cbn [Z.eqb negb].
  rewrite bool_decide_eq_false_2 by done.
  pose proof (write_u8_array_props node1 "value" v) as Hp.
  destruct (of_property_write_u8_array node1 "value" v) as [r2 node2] eqn:E2. cbn [snd] in Hp.
  intros E. inv E. split; [by inv E2|]. eexists. split; [done|].
  rewrite <- Hv at 1. rewrite read_u8_array_found; [|by rewrite Hp; apply put_prop_same].
  unfold sv_raw. cbn [sv_body set_body]. by rewrite Eb.
Qed.

Lemma string_export_import sv sv0 node ret node' v d raw v0 d0 raw0 :
  sv_body sv = state_string (Some v) d raw -> no_nul v -> opt_no_nul d ->
  raw = bytes_of v ++ replicate (length raw - length (bytes_of v)) Init.Byte.x00 ->
  default_fits sv -> sv_body sv0 = state_string v0 d0 raw0 -> default_fits sv0 ->
  sv_size sv0 = Z.of_nat (length raw0) -> length raw0 = length raw ->
  fresh_node node -> state_string_export sv node STATE_CONVERT_TO_NODE = (ret, node') ->
  ret = 0 /\ exists sv', state_string_import sv0 node' = (0, sv') /\ sv_raw sv' = sv_raw sv.
Proof.
  intros Eb Hv Hd Hraw Hf Eb0 Hf0 Hs0 Hl0 (Hu & Hfv & Hfd & _).
  unfold state_string_export, state_string_import, default_fits in *. rewrite Eb, Eb0 in *.
  assert (Hps : exists node1, (match d with
      | Some d => of_property_write_string node "default" d | None => (0, node) end) = (0, node1)
      /\ props_uniq (n_properties node1) /\
      find_prop (n_properties node1) "default" =
        match d with Some d => Some (Property "default" (Some (cstr_bytes d))) | None => None end).
  { destruct d as [d|]; [|by exists node].
    destruct (set_property_props node "default" (cstr_bytes d)) as [Hr Hp].
    unfold of_property_write_string.
    destruct (of_set_property node "default" (cstr_bytes d) true) as [r n1].
    cbn [fst snd] in *. subst r. exists n1. split; [done|]. rewrite Hp.
    split; [by apply put_prop_uniq|by apply put_prop_same]. }
  destruct Hps as (node1 & -> & Hu1 & Hd1). cbn [Z.eqb negb].
  rewrite bool_decide_eq_false_2 by done. unfold of_property_write_string.
  destruct (set_property_props node1 "value" (cstr_bytes v)) as [Hr Hp].
  destruct (of_set_property node1 "value" (cstr_bytes v) true) as [r2 node2].
  cbn [fst snd] in *. intros E. inv E. split; [done|].
  assert (Hrv : of_property_read_string node' "value" = Ok v)
    by (apply read_string_found; [done|by rewrite Hp; apply put_prop_same]).
  rewrite Hrv.
  set (d' := match of_property_read_string node' "default" with
             | Ok s => Some s | Err _ => d0 end).
  assert (Hd' : match d' with Some d => (length (bytes_of d) <= length raw0)%nat | None => True end).
  { unfold d'. assert (H1 : find_prop (n_properties node') "default" =
      find_prop (n_properties node1) "default") by (by rewrite Hp, put_prop_other).
    rewrite Hd1 in H1. destruct d as [d|]; cbn [opt_no_nul] in Hd.
    - rewrite (read_string_found node' "default" d) by done. lia.
    - destruct (read_none node' "default" H1) as (_ & -> & _). done. }
  cbn [sv_size set_body].
  replace (match d' with Some d => sv_size sv0 <? _ | None => _ end) with false.
  2: { destruct d'; [|done]. symmetry. apply Z.ltb_ge. lia. }
  destruct (copy_to_raw_same_raw (set_body sv0 (state_string v0 d' raw0)) v0 d' raw0 v)
    as (sv' & E & Hr'); [done|done| |].
  { apply (f_equal length) in Hraw. rewrite length_app in Hraw. lia. }
  exists sv'. split; [done|]. rewrite Hr'. unfold sv_raw. rewrite Eb. by rewrite Hl0.
Qed.

(** A string restored by an import has no [value]: its export has the default only,
    which the next import takes. *)
Lemma string_export_default sv sv0 node ret node' d raw v0 d0 raw0 :
  sv_body sv = state_string None (Some d) raw -> no_nul d -> default_fits sv ->
  sv_body sv0 = state_string v0 d0 raw0 -> sv_size sv0 = Z.of_nat (length raw0) -> length raw0 = length raw ->
  fresh_node node -> state_string_export sv node STATE_CONVERT_TO_NODE = (ret, node') ->
  ret = 0 /\ exists sv', state_string_import sv0 node' = (0, sv') /\
    sv_raw sv' = bytes_of d ++ replicate (length raw - length (bytes_of d)) Init.Byte.x00.
Proof.
  intros Eb Hd Hf Eb0 Hs0 Hl0 (Hu & Hfv & _). unfold state_string_export, state_string_import, default_fits in *. rewrite Eb, Eb0 in *.
  destruct (set_property_props node "default" (cstr_bytes d)) as [Hr Hp]. unfold of_property_write_string.
  destruct (of_set_property node "default" (cstr_bytes d) true) as [r1 node1]. cbn [fst snd] in *. subst r1. cbn [Z.eqb negb].
  rewrite bool_decide_eq_false_2 by done. intros [= <- <-]. split; [done|].
  rewrite (read_string_found node1 "default" d) by (try done; by rewrite Hp; apply put_prop_same).
  destruct (read_none node1 "value") as (_ & -> & _); [by rewrite Hp, put_prop_other|].
  cbn [sv_size set_body]. rewrite (proj2 (Z.ltb_ge _ _)) by lia. rewrite <- Hl0.
  by eapply (copy_to_raw_same_raw (set_body sv0 (state_string v0 (Some d) raw0))); [done|done|lia].
Qed.

(** The export of a variable imports into a variable of the same type and size. *)
Lemma export_import_ok vt sv sv0 node ret node' :
  vt ∈ types -> vtype vt = sv_type sv -> sv_type sv0 = sv_type sv -> sv_size sv0 = sv_size sv ->
  wf_var sv -> wf_var sv0 -> synced sv -> default_fits sv -> default_fits sv0 ->
  fresh_node node -> export vt sv node STATE_CONVERT_TO_NODE = (ret, node') ->
  ret = 0 /\ exists sv', import vt sv0 node' = (0, sv') /\ sv_raw sv' = sv_raw sv.
Proof.
  intros Hin Ht Ht0 Hs0 Hwf Hwf0 Hsy Hf Hf0 Hfr E. unfold wf_var in *.
  rewrite Ht0 in Hwf0. unfold types in Hin. rewrite !elem_of_cons, elem_of_nil in Hin.
  destruct Hin as [->|[->|[->|[->|[->|[]]]]]]; cbn [vtype export import] in *;
    rewrite <- Ht in *;
    destruct (sv_body sv) as [v d|v d ns|v d|v d raw] eqn:Eb; try done;
    destruct (sv_body sv0) as [v0 d0|v0 d0 ns0|v0 d0|v0 d0 raw0] eqn:Eb0; try done.
  - destruct Hwf as (_ & Hv & _). eapply uint32_export_import; done.
  - destruct Hwf as (_ & Hv & _). eapply uint32_export_import; done.
  - destruct Hwf as (_ & Hv & Hd & _). eapply enum32_export_import; done.
  - destruct Hwf as (_ & Hv & Hd). eapply mac_export_import; done.
  - unfold synced in Hsy. rewrite Eb in Hsy. destruct Hsy as (s & -> & Hraw).
    destruct Hwf as (Hs & Hv & Hd), Hwf0 as (Hs1 & _ & _).
    eapply string_export_import; try done. lia.
Qed.

(** Importing looks at the properties of a node only. *)
Lemma import_props vt sv a b :
  vt ∈ types -> n_properties a = n_properties b -> import vt sv a = import vt sv b.
Proof.
  intros Hin E. unfold types in Hin. rewrite !elem_of_cons, elem_of_nil in Hin.
  destruct Hin as [->|[->|[->|[->|[->|[]]]]]]; cbn [import];
    unfold state_uint32_import, state_enum32_import, state_mac_import, state_string_import, of_property_read_u32,
      of_property_read_u32_array, of_property_read_u8_array, of_get_property, of_property_read_string,
      of_find_property_value_of_size, of_find_property; by rewrite E.
Qed.

(** A successful import leaves a default that fits. *)
Lemma import_default_fits vt sv node sv' :
  vt ∈ types -> wf_var sv -> vtype vt = sv_type sv -> import vt sv node = (0, sv') -> default_fits sv'.
Proof.
  intros Hin Hw Ht Ei. destruct (import_wf _ _ _ _ _ Hin Hw Ei) as [Hw' (Hty & _)].
  unfold wf_var, default_fits in *. destruct (sv_body sv') as [| | |v d raw] eqn:Eb; try done.
  destruct d as [d|]; [|done]. assert (Hts : sv_type sv' = STATE_VARIABLE_TYPE_STRING) by (by destruct (sv_type sv')).
  rewrite Hts in *. destruct Hw' as (Hs' & _). rewrite <- Ht in Hty.
  unfold types in Hin. rewrite !elem_of_cons, elem_of_nil in Hin.
  destruct Hin as [->|[->|[->|[->|[->|[]]]]]]; cbn [vtype import] in *; try done.
  revert Ei. unfold state_string_import. destruct (sv_body sv) as [| | |v0 d0 raw0] eqn:Eb0; try (intros E; inv E; congruence).
  set (d' := match of_property_read_string node "default" with Ok s => Some s | Err _ => d0 end).
  destruct (match d' with Some _ => _ | None => _ end) eqn:Efit; [by intros E|]. cbn [sv_size set_body] in Efit.
  destruct (match of_property_read_string node "value" with Ok s => Some s | Err _ => d' end) as [s|].
  - unfold state_string_copy_to_raw. cbn [sv_body set_body sv_size]. destruct (_ <? _); [done|]. intros E. inv E.
    cbn [sv_body set_body] in Eb. injection Eb as _ Ed _. rewrite Ed in Efit. cbn [sv_size set_body] in Hs'. lia.
  - intros E. inv E. cbn [sv_body set_body sv_size] in *. injection Eb as _ Ed _. rewrite Ed in Efit. lia.
Qed.

(** What exporting does to a node: properties with these names are put, nothing
    else changes. *)
Definition wrote (node node' : device_node) : Prop :=
  n_name node' = n_name node /\ n_full_name node' = n_full_name node /\ n_children node' = n_children node /\
  exists l, Forall (fun e => fst e ∈ ["default"; "names"; "value"]%string) l /\
    n_properties node' = fold_left (fun ps e => put_prop ps (fst e) (snd e)) l (n_properties node).

Lemma wrote_refl node : wrote node node.
Proof. split_and!; try done. by exists []. Qed.

Lemma wrote_trans a b c : wrote a b -> wrote b c -> wrote a c.
Proof.
  intros (E1 & E2 & E3 & l & Hl & E4) (F1 & F2 & F3 & k & Hk & F4). unfold wrote. split_and!; try congruence.
  exists (l ++ k). split; [by apply Forall_app|]. by rewrite fold_left_app, <- E4.
Qed.

Lemma wrote_put node node' name d :
  name ∈ ["default"; "names"; "value"]%string -> n_name node' = n_name node -> n_full_name node' = n_full_name node ->
  n_children node' = n_children node -> n_properties node' = put_prop (n_properties node) name d -> wrote node node'.
Proof. intros Hn E1 E2 E3 E4. split_and!; try done. exists [(name, d)]. split; [by constructor|done]. Qed.

Lemma wrote_u32 node name v :
  name ∈ ["default"; "names"; "value"]%string -> wrote node (snd (of_property_write_u32 node name v)).
Proof.
  intros Hn. destruct (write_u32_props node name v) as [_ Hp].
  eapply wrote_put; [exact Hn|..|exact Hp]; unfold of_property_write_u32, of_property_write_u32_array;
    destruct (of_find_property node name); by destruct node.
Qed.

Lemma wrote_u8 node name v :
  name ∈ ["default"; "names"; "value"]%string -> wrote node (snd (of_property_write_u8_array node name v)).
Proof.
  intros Hn. pose proof (write_u8_array_props node name v) as Hp.
  eapply wrote_put; [exact Hn|..|exact Hp]; unfold of_property_write_u8_array;
    destruct (of_find_property node name); by destruct node.
Qed.

Lemma wrote_set node name d :
  name ∈ ["default"; "names"; "value"]%string -> wrote node (snd (of_set_property node name d true)).
Proof.
  intros Hn. destruct (set_property_props node name d) as [_ Hp].
  eapply wrote_put; [exact Hn|..|exact Hp]; unfold of_set_property;
    destruct (of_find_property node name); by destruct node.
Qed.

Lemma wrote_if (c : bool) node x : wrote node (snd x) -> wrote node (snd (if c then (0, node) else x)).
Proof. intros H. destruct c; [apply wrote_refl|done]. Qed.

Lemma export_wrote vt sv node conv ret node' :
  vt ∈ types -> export vt sv node conv = (ret, node') -> wrote node node'.
Proof.
  assert (Hd : "default"%string ∈ ["default"; "names"; "value"]%string) by constructor.
  assert (Hn : "names"%string ∈ ["default"; "names"; "value"]%string) by repeat constructor.
  assert (Hv : "value"%string ∈ ["default"; "names"; "value"]%string) by repeat constructor.
  assert (H32 : state_uint32_export sv node conv = (ret, node') -> wrote node node').
  { unfold state_uint32_export. destruct (sv_body sv) as [v d| | |]; try (intros E; inv E; apply wrote_refl).
    pose proof (wrote_if (d =? 0) node _ (wrote_u32 node "default" d Hd)) as W1. destruct (if d =? 0 then _ else _) as [r1 n1].
    destruct (negb _); [intros E; by inv E|]. case_bool_decide; intros E; inv E; [done|].
    eapply wrote_trans; [exact W1|]. by apply (wrote_u32 n1 "value" v). }
  intros Hin. unfold types in Hin. rewrite !elem_of_cons, elem_of_nil in Hin.
  destruct Hin as [->|[->|[->|[->|[->|[]]]]]]; cbn [export]; [apply H32|apply H32|..].
  - unfold state_enum32_export. destruct (sv_body sv) as [|v d ns| |]; try (intros E; inv E; apply wrote_refl).
    pose proof (wrote_if (d =? 0) node _ (wrote_u32 node "default" d Hd)) as W1. destruct (if d =? 0 then _ else _) as [r1 n1].
    destruct (negb _); [intros E; by inv E|].
    pose proof (wrote_set n1 "names" (concat (map cstr_bytes ns)) Hn) as W2. destruct (of_set_property n1 _ _ _) as [r2 n2].
    destruct (negb _); [intros E; inv E; by eapply wrote_trans|].
    case_bool_decide; intros E; inv E; [by eapply wrote_trans|].
    eapply wrote_trans; [exact W1|]. eapply wrote_trans; [exact W2|]. by apply (wrote_u32 n2 "value" v).
  - unfold state_mac_export. destruct (sv_body sv) as [| |v d|]; try (intros E; inv E; apply wrote_refl).
    pose proof (wrote_if (is_zero_ether_addr d) node _ (wrote_u8 node "default" d Hd)) as W1.
    destruct (if is_zero_ether_addr d then _ else _) as [r1 n1].
    destruct (negb _); [intros E; by inv E|]. case_bool_decide; intros E; inv E; [done|].
    eapply wrote_trans; [exact W1|]. by apply (wrote_u8 n1 "value" v).
  - unfold state_string_export, of_property_write_string.
    destruct (sv_body sv) as [| | |v d raw]; try (intros E; inv E; apply wrote_refl).
    assert (W1 : wrote node (snd (match d with Some d => of_set_property node "default" (cstr_bytes d) true | None => (0, node) end)))
      by (destruct d; [by apply wrote_set|apply wrote_refl]).
    destruct (match d with Some _ => _ | None => _ end) as [r1 n1].
    destruct (negb _); [intros E; by inv E|]. case_bool_decide; [intros E; by inv E|].
    destruct v as [v|]; [|intros E; by inv E]. intros E. eapply wrote_trans; [exact W1|].
    pose proof (wrote_set n1 "value" (cstr_bytes v) Hv) as W2. by rewrite E in W2.
Qed.

(** ** Properties *)


(** C33: creating a variable of any type gives a well-formed variable of that
    type, and importing from any device tree node keeps it well-formed, with
    name, type, size and position unchanged, even when the import fails. *)
Theorem state_variable_wf vt params name node sv params' node2 ret sv2 :
  vt ∈ types -> create vt params name node = (Ok sv, params') ->
  import vt sv node2 = (ret, sv2) ->
  wf_var sv /\ sv_type sv = vtype vt /\ wf_var sv2 /\ same_var sv2 sv.
Proof.
  intros Hin Hc Hi. destruct (create_wf _ _ _ _ _ _ Hin Hc) as [Hw Ht].
  destruct (import_wf _ _ _ _ _ Hin Hw Hi). done.
Qed.

(** ** Concrete variables *)

Definition string_node (props : list property) : device_node :=
  Node "name@0" "/state/name@0"
    (Property "type" (Some (cstr_bytes "string")) ::
     Property "reg" (Some (concat (map (be_bytes 4) [0; 8]))) :: props) [].

Definition string_vt : variable_type :=
  VariableType "string" STATE_VARIABLE_TYPE_STRING
    state_string_export state_string_import state_string_create.

Definition string_var (value : option string) (raw : string) : state_variable :=
  StateVariable STATE_VARIABLE_TYPE_STRING "name" 0 8
    (state_string value (Some "dflt"%string)
       (bytes_of raw ++ replicate (8 - length (bytes_of raw)) Init.Byte.x00)).


Lemma state_variable_wf_witness :
  exists sv params' ret sv2,
    create string_vt [] "name" (string_node []) = (Ok sv, params') /\
    import string_vt sv (string_node [Property "value" (Some (cstr_bytes "much too long"))])
      = (ret, sv2) /\ ret = - EILSEQ /\ wf_var sv2.
Proof.
  destruct (create string_vt [] "name" (string_node [])) as [[sv|e] params'] eqn:Ec; [|done].
  destruct (import string_vt sv (string_node
    [Property "value" (Some (cstr_bytes "much too long"))])) as [ret sv2] eqn:Ei.
  destruct (state_variable_wf string_vt [] "name" (string_node []) sv params'
    (string_node [Property "value" (Some (cstr_bytes "much too long"))]) ret sv2)
    as (_ & _ & Hw & _); [unfold types, string_vt; rewrite !elem_of_cons; tauto|done|done|].
  exists sv, params', ret, sv2. split_and!; try done. inv Ec. vm_compute in Ei. by inv Ei.
Defined.

(** A string imported from a node and exported again is lost: the import
    fills the raw memory, the export writes [value], which only the parameter
    getter refreshes. *)
Example string_lost_on_reexport :
  let node := string_node [Property "value" (Some (cstr_bytes "abc"))] in
  let '(_, sv) := state_string_import (string_var None "") node in
  let '(ret, node') := state_string_export sv (string_node []) STATE_CONVERT_TO_NODE in
  let '(_, sv2) := state_string_import (string_var None "") node' in
  ret = 0 /\ cstr (sv_raw sv) = "abc"%string /\ cstr (sv_raw sv2) = "dflt"%string.
Proof. vm_compute. done. Qed.

End StateVars.
