(* ===== verification/FormatRaw.v ===== *)
(** * The raw state format (common/state/backend_format_raw.c)

    A packed state is a sixteen byte header (magic, length and two CRC-32
    checksums), the variables at their fixed positions, and an optional HMAC
    over both.  The digest implementation and the keystore are reached
    through [DigestOps]; [HmacOk] is what a keyed digest provides. *)

From stdpp Require Import base list strings.
From Stdlib Require Import ZArith Lia.
From S2P Require Import Prelude Crc32 Of StateVars Storage.

Module FormatRaw.
Import Crc32 Of StateVars.

(** ** Digests *)

(** The operations of include/digest.h and of the keystore. *)
Class DigestOps (D : Type) := {
  digest_alloc : string -> option D;
  digest_size : D -> nat;
  digest_set_key : D -> list byte -> Z * D;
  digest_init : D -> Z * D;
  digest_update : D -> list byte -> Z * D;
  digest_final : D -> Z * list byte * D;
  keystore_get_secret : string -> res (list byte)
}.

Definition digest_length {D} `{!DigestOps D} (d : D) : Z := Z.of_nat (digest_size d).

(** Comparison of checksums and digests in a fuzzing build. *)
Definition fuzz_insecure_checksum_accepted (enabled : bool) (expected actual : Z) : bool :=
  enabled && (Z.land (Z.lxor expected actual) 1 =? 0).

Definition fuzz_insecure_digest_accepted (enabled : bool) (expected actual : list byte)
    (len : Z) : bool :=
  if negb enabled || (len =? 0) then false
  else
    let i := Z.to_nat (len - 1) in
    let a := byte_val (default Init.Byte.x00 (expected !! i)) in
    let b := byte_val (default Init.Byte.x00 (actual !! i)) in
    Z.land (Z.lxor a b) 1 =? 0.

(** ** Data *)

Record backend_raw_header := RawHeader {
  h_magic : Z;
  h_reserved : Z;
  h_data_len : Z;
  h_data_crc : Z;
  h_header_crc : Z
}.

Definition format_raw_min_length : Z := 16.

Definition header_of (buf : list byte) : backend_raw_header :=
  RawHeader (le_val (read_at buf 0 4)) (le_val (read_at buf 4 2)) (le_val (read_at buf 6 2))
    (le_val (read_at buf 8 4)) (le_val (read_at buf 12 4)).

(** The header without its own checksum, and the complete one. *)
Definition header_head (h : backend_raw_header) : list byte :=
  le_bytes 4 (h_magic h) ++ le_bytes 2 (h_reserved h) ++ le_bytes 2 (h_data_len h) ++
  le_bytes 4 (h_data_crc h).

Definition header_bytes (h : backend_raw_header) : list byte :=
  header_head h ++ le_bytes 4 (h_header_crc h).

Section Raw.
Context {D : Type} `{!DigestOps D} (fuzz : bool).

Record state_backend_format_raw := FormatRaw {
  r_digest : option D;
  r_digest_length : Z;
  r_secret_name : string;
  r_algo : option string
}.

Definition set_digest (raw : state_backend_format_raw) (d : D) : state_backend_format_raw :=
  FormatRaw (Some d) (r_digest_length raw) (r_secret_name raw) (r_algo raw).

Definition digest_generic_verify (d : D) (md : list byte) : Z * D :=
  let len := digest_length d in
  let '(ret, tmp, d) := digest_final d in
  if negb (ret =? 0) then (ret, d)
  else if negb (bool_decide (take (Z.to_nat len) md = take (Z.to_nat len) tmp)) &&
          negb (fuzz_insecure_digest_accepted fuzz md tmp len)
       then (- EINVAL, d) else (0, d).

(** Allocate the digest on first use, set its key, start it. *)
Definition backend_raw_digest_init (raw : state_backend_format_raw)
  : Z * state_backend_format_raw :=
  let found :=
    match r_digest raw with
    | Some d => Some (d, raw)
    | None =>
        match digest_alloc (default String.EmptyString (r_algo raw)) with
        | None => None
        | Some d => Some (d, FormatRaw (Some d) (digest_length d) (r_secret_name raw) (r_algo raw))
        end
    end in
  match found with
  | None => (- ENODEV, raw)
  | Some (d, raw) =>
      match keystore_get_secret (r_secret_name raw) with
      | Err e => (e, raw)
      | Ok key =>
          let '(ret, d) := digest_set_key d key in
          let raw := set_digest raw d in
          if negb (ret =? 0) then (ret, raw)
          else
            let '(ret, d) := digest_init d in
            (ret, set_digest raw d)
      end
  end.

Definition has_algo (raw : state_backend_format_raw) : bool :=
  match r_algo raw with Some _ => true | None => false end.

(** The digest pointer, dereferenced after a successful digest_init. *)
Definition with_digest {A} (raw : state_backend_format_raw) (k : D -> A) (e : A) : A :=
  match r_digest raw with Some d => k d | None => e end.

Definition backend_format_raw_verify (raw : state_backend_format_raw) (magic : Z)
    (buf : list byte) (len flags : Z) : Z * Z * state_backend_format_raw :=
  let auth := has_algo raw && (Z.land flags Storage.STATE_FLAG_NO_AUTHENTICATION =? 0) in
  if len <? format_raw_min_length then (- EINVAL, len, raw)
  else
    let header := header_of buf in
    let crc := crc32 0 (read_at buf 0 12) in
    if negb (crc =? h_header_crc header) &&
       negb (fuzz_insecure_checksum_accepted fuzz crc (h_header_crc header))
    then (if h_header_crc header =? 0 then - ENOMEDIUM else - EINVAL, len, raw)
    else if negb (magic =? 0) && negb (magic =? h_magic header) then (- EINVAL, len, raw)
    else
      let '(ret, raw) := if auth then backend_raw_digest_init raw else (0, raw) in
      if negb (ret =? 0) then (ret, len, raw)
      else
        let d_len := if auth then with_digest raw digest_length 0 else 0 in
        let complete_len := h_data_len header + d_len + format_raw_min_length in
        if len <? complete_len then (- EINVAL, len, raw)
        else
          let data_len := Z.to_nat (h_data_len header) in
          let crc := crc32 0 (read_at buf 16 data_len) in
          if negb (crc =? h_data_crc header) &&
             negb (fuzz_insecure_checksum_accepted fuzz crc (h_data_crc header))
          then (- EINVAL, len, raw)
          else
            let lenp := h_data_len header + format_raw_min_length in
            if auth then
              with_digest raw (fun d =>
                let hmac := drop (16 + data_len) buf in
                let '(ret, d) := digest_update d (read_at buf 0 (16 + data_len)) in
                let raw := set_digest raw d in
                if negb (ret =? 0) then (ret, lenp, raw)
                else
                  let '(ret, d) := digest_generic_verify d hmac in
                  let raw := set_digest raw d in
                  if ret <? 0 then (ret, lenp, raw) else (0, lenp, raw)) (0, lenp, raw)
            else (0, lenp, raw).

(** Variables that do not lie inside the data are skipped and reported. *)
Fixpoint backend_format_raw_unpack (vars : list state_variable) (buf : list byte)
  : Z * list state_variable :=
  match vars with
  | [] => (0, [])
  | sv :: vars =>
      let '(ret, vars) := backend_format_raw_unpack vars buf in
      if h_data_len (header_of buf) <? u32 (sv_start sv + sv_size sv) then
        ((if ret =? 0 then - ENOSPC else ret), sv :: vars)
      else (ret, set_raw sv (read_at buf (16 + Z.to_nat (sv_start sv)) (Z.to_nat (sv_size sv)))
                 :: vars)
  end.

Definition state_data_size (vars : list state_variable) : Z :=
  match last vars with
  | None => 0
  | Some sv => u32 (sv_start sv + sv_size sv)
  end.

(** The memcpy loop of the packing. *)
Definition copy_var (buf : list byte) (sv : state_variable) : list byte :=
  write_at buf (16 + Z.to_nat (sv_start sv)) (take (Z.to_nat (sv_size sv)) (sv_raw sv)).

Definition backend_format_raw_pack (raw : state_backend_format_raw) (magic : Z)
    (vars : list state_variable) : res (list byte) * state_backend_format_raw :=
  let '(ret, raw) := if has_algo raw then backend_raw_digest_init raw else (0, raw) in
  if negb (ret =? 0) then (Err ret, raw)
  else
    let size_data := u32 (state_data_size vars) in
    let size_full := u32 (size_data + format_raw_min_length + r_digest_length raw) in
    let buf := replicate (Z.to_nat size_full) Init.Byte.x00 in
    let buf := fold_left copy_var vars buf in
    let data_crc := crc32 0 (read_at buf 16 (Z.to_nat size_data)) in
    let header := RawHeader magic 0 (u16 size_data) data_crc 0 in
    let header := RawHeader magic 0 (u16 size_data) data_crc (crc32 0 (header_head header)) in
    let buf := write_at buf 0 (header_bytes header) in
    if has_algo raw then
      with_digest raw (fun d =>
        let '(ret, d) := digest_update d (read_at buf 0 (16 + Z.to_nat size_data)) in
        let raw := set_digest raw d in
        if negb (ret =? 0) then (Err ret, raw)
        else
          let '(ret, hmac, d) := digest_final d in
          let raw := set_digest raw d in
          if ret <? 0 then (Err ret, raw)
          else (Ok (write_at buf (16 + Z.to_nat size_data) hmac), raw)) (Err 0, raw)
    else (Ok buf, raw).

(** The [algo] property selects authentication. *)
Definition backend_format_raw_init_digest (crypto : bool) (raw : state_backend_format_raw)
    (root : device_node) : Z * state_backend_format_raw :=
  match of_find_property root "algo" with
  | None => (0, raw)
  | Some _ =>
      match of_property_read_string root "algo" with
      | Err e => (e, raw)
      | Ok algo =>
          if negb crypto then (- EINVAL, raw)
          else (0, FormatRaw (r_digest raw) (r_digest_length raw) (r_secret_name raw) (Some algo))
      end
  end.

Definition backend_format_raw_create (crypto : bool) (node : device_node) (secret_name : string)
  : res state_backend_format_raw :=
  let raw := FormatRaw None 0 String.EmptyString None in
  let '(ret, raw) := backend_format_raw_init_digest crypto raw node in
  if negb (ret =? 0) then Err ret
  else Ok (FormatRaw (r_digest raw) (r_digest_length raw) secret_name (r_algo raw)).

Definition state_backend_format_raw_get_digest (raw : state_backend_format_raw) : option D :=
  r_digest raw.

#[export] Instance raw_ops : Storage.FormatOps state_backend_format_raw := {
  Storage.verify := backend_format_raw_verify
}.

End Raw.
Arguments state_backend_format_raw : clear implicits.
Arguments FormatRaw {D} _ _ _ _.

(** ** Images *)

(** The packed form of [data], without HMAC. *)
Definition image_header (magic : Z) (data : list byte) : backend_raw_header :=
  let h := RawHeader magic 0 (Z.of_nat (length data)) (crc32 0 data) 0 in
  RawHeader magic 0 (Z.of_nat (length data)) (crc32 0 data) (crc32 0 (header_head h)).

Definition raw_image (magic : Z) (data : list byte) : list byte :=
  header_bytes (image_header magic data) ++ data.

Definition header_wf (h : backend_raw_header) : Prop :=
  0 <= h_magic h < 2 ^ 32 /\ 0 <= h_reserved h < 2 ^ 16 /\ 0 <= h_data_len h < 2 ^ 16 /\
  0 <= h_data_crc h < 2 ^ 32 /\ 0 <= h_header_crc h < 2 ^ 32.

Lemma length_header_head h : length (header_head h) = 12%nat.
Proof. unfold header_head. by rewrite !length_app, !length_le_bytes. Qed.

Lemma length_header_bytes h : length (header_bytes h) = 16%nat.
Proof. unfold header_bytes. by rewrite length_app, length_header_head, length_le_bytes. Qed.

Lemma length_raw_image m d : length (raw_image m d) = (16 + length d)%nat.
Proof. unfold raw_image. by rewrite length_app, length_header_bytes. Qed.

(** Reading a field out of consecutive little endian fields. *)
Lemma field_skip (a b : list byte) off n k :
  length a = k -> read_at (a ++ b) (k + off) n = read_at b off n.
Proof.
  intros <-. unfold read_at. by rewrite drop_app_add.
Qed.

Lemma field_here k z rest : 0 <= z < 2 ^ (8 * Z.of_nat k) ->
  le_val (read_at (le_bytes k z ++ rest) 0 k) = z.
Proof.
  intros H. unfold read_at. rewrite drop_0, take_app_length' by (by rewrite length_le_bytes).
  rewrite le_val_bytes. by apply Z.mod_small.
Qed.

Lemma header_of_bytes h rest : header_wf h -> header_of (header_bytes h ++ rest) = h.
Proof.
  destruct h as [m r l c hc]. intros (Hm & Hr & Hl & Hc & Hh).
  cbn [h_magic h_reserved h_data_len h_data_crc h_header_crc] in *.
  unfold header_of, header_bytes, header_head. cbn [h_magic h_reserved h_data_len h_data_crc h_header_crc].
  rewrite <- !app_assoc. f_equal.
  - apply field_here. done.
  - rewrite (field_skip _ _ 0 2 4) by apply length_le_bytes. by apply field_here.
  - rewrite (field_skip _ _ 2 2 4), (field_skip _ _ 0 2 2) by apply length_le_bytes.
    by apply field_here.
  - rewrite (field_skip _ _ 4 4 4), (field_skip _ _ 2 4 2), (field_skip _ _ 0 4 2)
      by apply length_le_bytes. by apply field_here.
  - rewrite (field_skip _ _ 8 4 4), (field_skip _ _ 6 4 2), (field_skip _ _ 4 4 2),
      (field_skip _ _ 0 4 4) by apply length_le_bytes. by apply field_here.
Qed.

Lemma crc32_u32 buf : 0 <= crc32 0 buf < 2 ^ 32.
Proof. apply crc32_range. lia. Qed.

#[export] Hint Resolve crc32_u32 : barebox.

Lemma image_header_wf m d :
  0 <= m < 2 ^ 32 -> Z.of_nat (length d) < 2 ^ 16 -> header_wf (image_header m d).
Proof.
  intros Hm Hl. unfold header_wf, image_header.
  cbn [h_magic h_reserved h_data_len h_data_crc h_header_crc]. pose proof (crc32_u32 d).
  pose proof (crc32_u32 (header_head (RawHeader m 0 (Z.of_nat (length d)) (crc32 0 d) 0))). lia.
Qed.

Lemma image_fields m d rest :
  0 <= m < 2 ^ 32 -> Z.of_nat (length d) < 2 ^ 16 ->
  header_of (raw_image m d ++ rest) = image_header m d /\
  read_at (raw_image m d ++ rest) 0 12 = header_head (image_header m d) /\
  read_at (raw_image m d ++ rest) 16 (length d) = d.
Proof.
  intros Hm Hl. unfold raw_image. rewrite <- app_assoc. split_and!.
  - by apply header_of_bytes, image_header_wf.
  - unfold header_bytes. rewrite <- app_assoc. unfold read_at. rewrite drop_0.
    apply take_app_length'. by rewrite length_header_head.
  - rewrite (field_skip _ _ 0 _ 16) by apply length_header_bytes.
    unfold read_at. rewrite drop_0. by apply take_app_length'.
Qed.

(** ** Packing *)

Definition var_end (sv : state_variable) : Z := sv_start sv + sv_size sv.

Definition data_end (vars : list state_variable) : Z :=
  match last vars with None => 0 | Some sv => var_end sv end.

(** Variables in order, apart, and short enough for the length field. *)
Definition layout_ok (vars : list state_variable) : Prop :=
  Forall wf_var vars /\ Forall (fun sv => 0 <= sv_start sv) vars /\
  pairwise (fun a b => var_end a <= sv_start b) vars /\ data_end vars < 2 ^ 16.

Definition var_bytes (sv : state_variable) : list byte :=
  take (Z.to_nat (sv_size sv)) (sv_raw sv).

Lemma length_var_bytes sv : wf_var sv -> Z.of_nat (length (var_bytes sv)) = sv_size sv.
Proof. intros H. apply wf_raw_length in H. unfold var_bytes. rewrite length_take. lia. Qed.

Lemma fold_copy_length vars buf : length (fold_left copy_var vars buf) = length buf.
Proof.
  revert buf. induction vars as [|sv vars IH]; intros buf; cbn; [done|].
  rewrite IH. apply length_write_at.
Qed.

(** Copying leaves alone what lies before all variables. *)
Lemma fold_copy_before vars buf o n :
  Forall wf_var vars ->
  Forall (fun sv => Z.of_nat (o + n) <= 16 + sv_start sv /\
                    16 + var_end sv <= Z.of_nat (length buf) /\ 0 <= sv_start sv) vars ->
  read_at (fold_left copy_var vars buf) o n = read_at buf o n.
Proof.
  revert buf. induction vars as [|sv vars IH]; intros buf Hw Hf; cbn; [done|].
  apply Forall_cons in Hw as [Hwv Hw]. apply Forall_cons in Hf as [(H1 & H2 & H3) Hf].
  pose proof (length_var_bytes sv Hwv) as Hl. unfold var_end in *.
  rewrite IH; [|done|].
  - unfold copy_var. apply read_write_at_before; fold (var_bytes sv); lia.
  - eapply Forall_impl; [exact Hf|]. cbn. intros a Ha. unfold copy_var.
    by rewrite length_write_at.
Qed.

Lemma pairwise_last vars sv a :
  Forall wf_var vars -> pairwise (fun a b => var_end a <= sv_start b) vars ->
  last vars = Some sv -> a ∈ vars -> var_end a <= var_end sv.
Proof.
  induction vars as [|b vars IH]; [done|]. intros Hw Hp Hl Ha.
  apply Forall_cons in Hw as [Hwb Hw]. destruct Hp as [Hb Hp].
  destruct vars as [|c vars].
  { cbn in Hl. inv Hl. apply list_elem_of_singleton in Ha. by subst. }
  apply elem_of_cons in Ha as [->|Ha]; [|by apply IH].
  assert (Hin : sv ∈ c :: vars) by (apply last_Some_elem_of; exact Hl).
  rewrite Forall_forall in Hb, Hw. specialize (Hb sv Hin). pose proof (wf_raw_length sv (Hw sv Hin)).
  unfold var_end in *. lia.
Qed.

Lemma data_end_ge vars sv :
  layout_ok vars -> sv ∈ vars -> 0 <= sv_start sv /\ var_end sv <= data_end vars.
Proof.
  intros (Hw & Hs & Hp & _) Hin. split; [by rewrite Forall_forall in Hs; apply Hs|].
  unfold data_end. destruct (last vars) as [l|] eqn:E.
  - by eapply pairwise_last.
  - apply last_None in E. subst. by apply elem_of_nil in Hin.
Qed.

Lemma data_end_nonneg vars : layout_ok vars -> 0 <= data_end vars.
Proof.
  intros H. unfold data_end. destruct (last vars) as [l|] eqn:E; [|lia].
  pose proof (data_end_ge vars l H (last_Some_elem_of _ _ E)) as [H1 _].
  destruct H as (Hw & _). rewrite Forall_forall in Hw.
  pose proof (wf_raw_length l (Hw l (last_Some_elem_of _ _ E))). unfold var_end. lia.
Qed.

(** Every variable is found at its place. *)
Lemma fold_copy_var vars buf sv :
  Forall wf_var vars -> pairwise (fun a b => var_end a <= sv_start b) vars ->
  Forall (fun sv => 0 <= sv_start sv /\ 16 + var_end sv <= Z.of_nat (length buf)) vars ->
  sv ∈ vars ->
  read_at (fold_left copy_var vars buf) (16 + Z.to_nat (sv_start sv)) (Z.to_nat (sv_size sv))
  = var_bytes sv.
Proof.
  revert buf. induction vars as [|a vars IH]; intros buf Hw Hp Hf Hin.
  { by apply elem_of_nil in Hin. }
  apply Forall_cons in Hw as [Hwa Hw]. apply Forall_cons in Hf as [[Ha1 Ha2] Hf].
  destruct Hp as [Hpa Hp]. cbn [fold_left].
  assert (Hlen : length (copy_var buf a) = length buf) by apply length_write_at.
  apply elem_of_cons in Hin as [->|Hin].
  - pose proof (length_var_bytes a Hwa) as Hl. unfold var_end in *.
    pose proof (wf_raw_length a Hwa) as Hra.
    rewrite fold_copy_before; [|done|].
    + unfold copy_var. fold (var_bytes a).
      replace (Z.to_nat (sv_size a)) with (length (var_bytes a)) by lia.
      apply read_write_at_same. lia.
    + rewrite Forall_forall in Hpa, Hf |- *. intros b Hb.
      specialize (Hpa b Hb). specialize (Hf b Hb). unfold var_end in *. rewrite Hlen. lia.
  - apply IH; [done|done| |done]. eapply Forall_impl; [exact Hf|]. cbn. by rewrite Hlen.
Qed.

(** The buffer of the packing before the HMAC: an image and a zeroed tail. *)
Lemma pack_body magic vars dl :
  layout_ok vars -> 0 <= magic < 2 ^ 32 -> 0 <= dl < 2 ^ 16 ->
  let size_data := u32 (state_data_size vars) in
  let buf := fold_left copy_var vars
    (replicate (Z.to_nat (u32 (size_data + format_raw_min_length + dl))) Init.Byte.x00) in
  let data := read_at buf 16 (Z.to_nat size_data) in
  let h := RawHeader magic 0 (u16 size_data) (crc32 0 data) 0 in
  size_data = data_end vars /\ Z.of_nat (length data) = data_end vars /\
  (forall sv, sv ∈ vars ->
     read_at data (Z.to_nat (sv_start sv)) (Z.to_nat (sv_size sv)) = var_bytes sv) /\
  exists tail, length tail = Z.to_nat dl /\
    write_at buf 0 (header_bytes (RawHeader magic 0 (u16 size_data) (crc32 0 data)
      (crc32 0 (header_head h)))) = raw_image magic data ++ tail.
Proof.
  intros Hlay Hm Hdl. pose proof (data_end_nonneg vars Hlay) as H0.
  pose proof Hlay as (Hw & Hs & Hp & He).
  assert (Hsd : u32 (state_data_size vars) = data_end vars).
  { revert H0 He. unfold state_data_size, data_end, var_end.
    destruct (last vars); [|done]. intros. rewrite !u32_small; rewrite ?u32_small; lia. }
  rewrite Hsd. cbv zeta. unfold format_raw_min_length. rewrite u32_small by lia.
  rewrite (u16_small (data_end vars)) by lia.
  set (buf := fold_left copy_var vars _).
  assert (Hl : Z.of_nat (length buf) = data_end vars + 16 + dl).
  { unfold buf. rewrite fold_copy_length, length_replicate. lia. }
  set (data := read_at buf 16 (Z.to_nat (data_end vars))).
  assert (Hd : Z.of_nat (length data) = data_end vars)
    by (unfold data; rewrite length_read_at; lia).
  split; [done|]. split; [done|]. split.
  - intros sv Hin. destruct (data_end_ge vars sv Hlay Hin) as [Hs0 Hse].
    assert (Hwsv : wf_var sv) by (rewrite Forall_forall in Hw; by apply Hw).
    pose proof (wf_raw_length sv Hwsv) as Hr. unfold data, var_end in *.
    rewrite read_at_read_at by lia. apply fold_copy_var; [done|done| |done].
    rewrite Forall_forall. intros x Hx. destruct (data_end_ge vars x Hlay Hx).
    rewrite length_replicate. unfold var_end in *. lia.
  - exists (drop (16 + Z.to_nat (data_end vars)) buf).
    split; [rewrite length_drop; lia|].
    rewrite write_at_inside by (rewrite length_header_bytes; lia).
    rewrite length_header_bytes, take_0, app_nil_l. unfold raw_image.
    rewrite <- app_assoc. unfold image_header. rewrite Hd. f_equal.
    unfold data, read_at. change (0 + 16)%nat with 16%nat.
    rewrite <- (drop_drop buf _ 16). by rewrite take_drop.
Qed.

Section RawLemmas.
Context {D : Type} `{!DigestOps D}.

Local Abbreviation vfy fuzz := (backend_format_raw_verify fuzz).

Definition authenticated (raw : state_backend_format_raw D) (flags : Z) : bool :=
  has_algo raw && (Z.land flags Storage.STATE_FLAG_NO_AUTHENTICATION =? 0).

(** Without authentication an image verifies, whatever follows it. *)
Lemma verify_image fuzz raw m d rest n flags :
  authenticated raw flags = false -> 0 <= m < 2 ^ 32 -> Z.of_nat (length d) < 2 ^ 16 ->
  Z.of_nat (length (raw_image m d)) <= n ->
  vfy fuzz raw m (raw_image m d ++ rest) n flags
  = (0, Z.of_nat (length (raw_image m d)), raw).
Proof.
  intros Ha Hm Hl Hn. destruct (image_fields m d rest Hm Hl) as (Hh & Hc & Hd).
  unfold backend_format_raw_verify. unfold authenticated in Ha. rewrite Ha, Hh, Hc.
  rewrite length_raw_image in *. unfold format_raw_min_length.
  replace (n <? 16) with false by lia. cbn [image_header h_header_crc h_magic h_data_len h_data_crc].
  change (header_head (image_header m d)) with
    (header_head (RawHeader m 0 (Z.of_nat (length d)) (crc32 0 d) 0)).
  rewrite Z.eqb_refl. cbn [negb andb]. rewrite Z.eqb_refl, andb_false_r. cbn [Z.eqb negb].
  replace (n <? Z.of_nat (length d) + 0 + 16) with false by lia.
  rewrite Nat2Z.id, Hd, Z.eqb_refl. cbn [negb andb]. do 2 f_equal. lia.
Qed.

Lemma read_at_take_eq a b n off k :
  (off + k <= n)%nat -> take n a = take n b -> read_at a off k = read_at b off k.
Proof.
  intros H E. unfold read_at. rewrite !take_drop_commute.
  assert (Hab : take (off + k) a = take (off + k) b); [|by rewrite Hab].
  apply (f_equal (take (off + k))) in E. rewrite !take_take in E.
  by replace (Nat.min (off + k) n) with (off + k)%nat in E by lia.
Qed.

Lemma header_of_prefix a b n : (16 <= n)%nat -> take n a = take n b -> header_of a = header_of b.
Proof.
  intros H E. unfold header_of. f_equal; f_equal; apply (read_at_take_eq a b n); (done || lia).
Qed.

Lemma data_len_range buf : 0 <= h_data_len (header_of buf) < 2 ^ 16.
Proof.
  cbn [header_of h_data_len]. split; [apply le_val_nonneg|].
  eapply Z.lt_le_trans; [apply le_val_bound|]. apply Z.pow_le_mono_r; [lia|].
  unfold read_at. rewrite length_take. lia.
Qed.

(** Both checksums and the magic of a buffer, whatever its length. *)
Definition content_ok (fuzz : bool) (m : Z) (buf : list byte) : bool :=
  let h := header_of buf in
  let hcrc := crc32 0 (read_at buf 0 12) in
  let dcrc := crc32 0 (read_at buf 16 (Z.to_nat (h_data_len h))) in
  ((hcrc =? h_header_crc h) || fuzz_insecure_checksum_accepted fuzz hcrc (h_header_crc h)) &&
  ((m =? 0) || (m =? h_magic h)) &&
  ((dcrc =? h_data_crc h) || fuzz_insecure_checksum_accepted fuzz dcrc (h_data_crc h)).

(** The verdict without authentication, as one condition. *)
Lemma verify_noauth fuzz raw m buf n flags :
  authenticated raw flags = false ->
  exists e, e <> 0 /\ vfy fuzz raw m buf n flags =
    (if (16 <=? n) && (h_data_len (header_of buf) + 16 <=? n) && content_ok fuzz m buf
     then (0, h_data_len (header_of buf) + 16, raw) else (e, n, raw)).
Proof.
  intros Ha. unfold backend_format_raw_verify, content_ok. unfold authenticated in Ha.
  rewrite Ha. set (h := header_of buf). unfold format_raw_min_length.
  rewrite !(Z.leb_antisym n).
  destruct (n <? 16); cbn [negb andb]; [by exists (- EINVAL)|].
  rewrite <- negb_orb. destruct (_ || _); cbn [negb andb].
  2: { rewrite andb_false_r. eexists. split; [|done]. by destruct (h_header_crc h =? 0). }
  rewrite <- negb_orb. destruct (_ || _); cbn [negb andb Z.eqb].
  2: { rewrite andb_false_r. by exists (- EINVAL). }
  replace (h_data_len h + 0 + 16) with (h_data_len h + 16) by lia.
  destruct (n <? h_data_len h + 16); cbn [negb andb]; [by exists (- EINVAL)|].
  rewrite <- negb_orb. destruct (_ || _); cbn [negb]; by exists (- EINVAL).
Qed.

Lemma content_ok_prefix fuzz m a b :
  take (Z.to_nat (h_data_len (header_of a) + 16)) b =
  take (Z.to_nat (h_data_len (header_of a) + 16)) a ->
  header_of b = header_of a /\ content_ok fuzz m b = content_ok fuzz m a.
Proof.
  intros E. pose proof (data_len_range a) as Hr.
  assert (Hh : header_of b = header_of a) by (eapply header_of_prefix; [|exact E]; lia).
  split; [done|]. unfold content_ok. rewrite Hh.
  rewrite (read_at_take_eq b a (Z.to_nat (h_data_len (header_of a) + 16)) 0 12) by (done || lia).
  rewrite (read_at_take_eq b a (Z.to_nat (h_data_len (header_of a) + 16)) 16
    (Z.to_nat (h_data_len (header_of a)))) by (done || lia).
  done.
Qed.

Lemma noauth_no_algo raw flags : r_algo raw = None -> authenticated raw flags = false.
Proof. intros H. unfold authenticated, has_algo. by rewrite H. Qed.

#[export] Instance raw_format_ok fuzz :
  @Storage.FormatOk (state_backend_format_raw D) (raw_ops fuzz).
Proof.
  refine (@Storage.Build_FormatOk _ (raw_ops fuzz) (fun raw => r_algo raw = None) _ _);
    cbn [Storage.verify raw_ops].
  - intros raw m d n flags Hf Hn.
    destruct (verify_noauth fuzz raw m d n flags (noauth_no_algo _ _ Hf)) as (e & _ & ->).
    pose proof (data_len_range d). destruct (_ && _) eqn:E; [|split; [done|lia]].
    bool_prop. split; [done|lia].
  - intros raw g m flags d n n' raw' d2 n2 Hf Hg Hn Hv Hn2 Hpre.
    destruct (verify_noauth fuzz raw m d n flags (noauth_no_algo _ _ Hf)) as (e & He & E).
    rewrite E in Hv. destruct (_ && _) eqn:Ec; [|congruence].
    assert (n' = h_data_len (header_of d) + 16) as -> by congruence.
    destruct (content_ok_prefix fuzz m d d2 Hpre) as [Hh Hc].
    destruct (verify_noauth fuzz g m d2 n2 flags (noauth_no_algo _ _ Hg)) as (e2 & _ & E2).
    rewrite Hh, Hc in E2. exists g. rewrite E2. bool_prop.
    pose proof (data_len_range d) as Hr.
    replace (16 <=? n2) with true by lia.
    replace (h_data_len (header_of d) + 16 <=? n2) with true by lia.
    match goal with H : content_ok _ _ _ = true |- _ => by rewrite H end.
Defined.

Lemma pack_noauth raw magic vars :
  r_algo raw = None -> r_digest_length raw = 0 -> layout_ok vars -> 0 <= magic < 2 ^ 32 ->
  exists data, backend_format_raw_pack raw magic vars = (Ok (raw_image magic data), raw) /\
    Z.of_nat (length data) = data_end vars /\
    forall sv, sv ∈ vars ->
      read_at data (Z.to_nat (sv_start sv)) (Z.to_nat (sv_size sv)) = var_bytes sv.
Proof.
  intros Ha Hdl Hlay Hm. unfold backend_format_raw_pack, has_algo. rewrite Ha. cbn [Z.eqb negb].
  rewrite Hdl. destruct (pack_body magic vars 0 Hlay Hm ltac:(lia)) as (_ & Hl & Hv & tail & Ht & E).
  rewrite E, Ha. destruct tail; [|done]. rewrite app_nil_r. eexists. split; [reflexivity|]. split; [exact Hl|exact Hv].
Qed.

(** What acceptance means, with or without authentication. *)
Lemma verify_ok_inv fuzz raw m buf n flags n' raw' :
  vfy fuzz raw m buf n flags = (0, n', raw') ->
  content_ok fuzz m buf = true /\ n' = h_data_len (header_of buf) + 16 /\ 16 <= n /\ n' <= n.
Proof.
  unfold backend_format_raw_verify, content_ok, format_raw_min_length.
  fold (authenticated raw flags). set (h := header_of buf).
  rewrite <- !negb_orb.
  set (hok := (_ =? h_header_crc h) || _). set (mok := (m =? 0) || _).
  set (dok := (_ =? h_data_crc h) || _).
  destruct (Z.ltb_spec n 16); [done|].
  destruct hok; cbn [negb]; [|by destruct (h_header_crc h =? 0)].
  destruct mok; cbn [negb]; [|done].
  destruct (if authenticated raw flags then backend_raw_digest_init raw else (0, raw))
    as [ret raw1].
  destruct (Z.eqb_spec ret 0) as [->|Hr]; cbn [negb]; [|intros E; congruence].
  destruct (Z.ltb_spec n (h_data_len h + (if authenticated raw flags
    then with_digest raw1 digest_length 0 else 0) + 16)) as [|Hc]; [done|].
  destruct dok; cbn [negb]; [|done]. intros E.
  assert (Hn' : n' = h_data_len h + 16).
  { destruct (authenticated raw flags); [|congruence]. unfold with_digest in E.
    destruct (r_digest raw1); [|congruence].
    destruct (digest_update _ _) as [r2 d2]. destruct (r2 =? 0); cbn [negb] in E; [|congruence].
    destruct (digest_generic_verify _ _ _) as [r3 d3]. destruct (r3 <? 0); congruence. }
  assert (Hd0 : 0 <= if authenticated raw flags then with_digest raw1 digest_length 0 else 0).
  { destruct (authenticated raw flags); [|lia]. unfold with_digest, digest_length.
    destruct (r_digest raw1); lia. }
  split_and!; (done || lia).
Qed.

End RawLemmas.

(** A keyed digest: one run with the key over a message gives its MAC.
    [dok] holds of every digest object of the algorithm. *)
Class HmacOk (D : Type) `{!DigestOps D} (algo secret : string) (mac : list byte -> list byte)
    (dlen : Z) (dok : D -> Prop) : Prop := {
  hm_len : 0 < dlen < 2 ^ 16;
  hm_mac msg : Z.of_nat (length (mac msg)) = dlen;
  hm_length d : dok d -> digest_length d = dlen;
  hm_alloc : exists d, digest_alloc algo = Some d /\ dok d;
  hm_run : exists key, keystore_get_secret secret = Ok key /\
    forall d, dok d -> exists d1 d2,
      digest_set_key d key = (0, d1) /\ digest_init d1 = (0, d2) /\ dok d2 /\
      forall msg, Z.of_nat (length msg) < 2 ^ 31 -> exists d3 d4, digest_update d2 msg = (0, d3) /\ dok d3 /\
        digest_final d3 = (0, mac msg, d4) /\ dok d4
}.

Section Auth.
Context {D : Type} `{!DigestOps D} {algo secret : string} {mac : list byte -> list byte}.
Context {dlen : Z} {dok : D -> Prop} `{!HmacOk D algo secret mac dlen dok}.

(** A format set up for this algorithm and secret. *)
Definition raw_auth (raw : state_backend_format_raw D) : Prop :=
  r_algo raw = Some algo /\ r_secret_name raw = secret /\
  match r_digest raw with
  | None => True
  | Some d => dok d /\ r_digest_length raw = dlen
  end.

Lemma digest_init_ok raw :
  raw_auth raw ->
  exists raw' d2, backend_raw_digest_init raw = (0, raw') /\ r_digest raw' = Some d2 /\
    raw_auth raw' /\ r_digest_length raw' = dlen /\ dok d2 /\
    forall msg, Z.of_nat (length msg) < 2 ^ 31 -> exists d3 d4, digest_update d2 msg = (0, d3) /\ dok d3 /\
        digest_final d3 = (0, mac msg, d4) /\ dok d4.
Proof.
  intros (Ha & Hs & Hd). destruct hm_run as (key & Hk & Hrun).
  unfold backend_raw_digest_init.
  assert (Hf : exists d raw1, match r_digest raw with
    | Some d => Some (d, raw)
    | None => match digest_alloc (default String.EmptyString (r_algo raw)) with
              | None => None
              | Some d => Some (d, FormatRaw (Some d) (digest_length d) (r_secret_name raw) (r_algo raw))
              end
    end = Some (d, raw1) /\ dok d /\ r_algo raw1 = Some algo /\ r_secret_name raw1 = secret /\
    r_digest_length raw1 = dlen).
  { destruct (r_digest raw) as [d|].
    - destruct Hd. exists d, raw. done.
    - rewrite Ha. cbn [default from_option id]. destruct hm_alloc as (d & -> & Hdo).
      eexists _, _. split; [done|]. cbn. split_and!; try done. by apply hm_length. }
  destruct Hf as (d & raw1 & -> & Hdo & Ha1 & Hs1 & Hl1). rewrite Hs1, Hk.
  destruct (Hrun d Hdo) as (d1 & d2 & E1 & E2 & Hdo2 & Hmsg). rewrite E1. cbn [Z.eqb negb].
  rewrite E2. eexists _, d2. split; [done|]. cbn. split_and!; try done.
Qed.

Lemma pack_auth raw magic vars :
  raw_auth raw -> layout_ok vars -> 0 <= magic < 2 ^ 32 ->
  exists data raw', backend_format_raw_pack raw magic vars =
      (Ok (raw_image magic data ++ mac (raw_image magic data)), raw') /\ raw_auth raw' /\
    Z.of_nat (length data) = data_end vars /\
    forall sv, sv ∈ vars ->
      read_at data (Z.to_nat (sv_start sv)) (Z.to_nat (sv_size sv)) = var_bytes sv.
Proof.
  intros Hra Hlay Hm. unfold backend_format_raw_pack, has_algo.
  pose proof Hra as (Ha & _). rewrite Ha.
  destruct (digest_init_ok raw Hra) as (raw1 & d2 & E1 & Hd2 & (Ha1 & Hs1 & _) & Hl1 & _ & Hrun).
  rewrite E1, Ha1, Hl1. cbn [Z.eqb negb]. pose proof hm_len as Hdl.
  destruct (pack_body magic vars dlen Hlay Hm ltac:(lia)) as (Hsd & Hl & Hv & tail & Ht & E).
  rewrite E. clear E. set (data := read_at _ 16 _) in *. clearbody data.
  unfold with_digest. rewrite Hd2, Hsd.
  assert (Hlen : (16 + Z.to_nat (data_end vars))%nat = length (raw_image magic data))
    by (rewrite length_raw_image; lia).
  rewrite Hlen. unfold read_at at 1. rewrite drop_0, take_app_length.
  destruct (Hrun (raw_image magic data)) as (d3 & d4 & -> & Hdo3 & -> & Hdo4); [destruct Hlay as (_ & _ & _ & Hend); rewrite length_raw_image; lia|]. cbn [Z.eqb negb Z.ltb Z.compare].
  exists data. eexists. split; [|split; [|split; [exact Hl|exact Hv]]].
  - f_equal. f_equal. pose proof (hm_mac (raw_image magic data)) as Hml.
    rewrite write_at_inside by (rewrite length_app; lia).
    rewrite take_app_length, drop_ge, app_nil_r by (rewrite length_app; lia). done.
  - unfold raw_auth, set_digest. cbn [r_algo r_secret_name r_digest r_digest_length].
    split_and!; done.
Qed.

Lemma verify_auth_image fuzz raw m d rest n :
  raw_auth raw -> 0 <= m < 2 ^ 32 -> Z.of_nat (length d) < 2 ^ 16 ->
  Z.of_nat (length (raw_image m d)) + dlen <= n ->
  exists raw', backend_format_raw_verify fuzz raw m
      (raw_image m d ++ mac (raw_image m d) ++ rest) n 0
    = (0, Z.of_nat (length (raw_image m d)), raw') /\ raw_auth raw'.
Proof.
  intros Hra Hm Hl Hn. pose proof hm_len as Hdl.
  destruct (image_fields m d (mac (raw_image m d) ++ rest) Hm Hl) as (Hh & Hc & Hd).
  unfold backend_format_raw_verify, has_algo. pose proof Hra as (Ha & _). rewrite Ha, Hh, Hc.
  rewrite length_raw_image in *. unfold format_raw_min_length.
  change (Z.land 0 Storage.STATE_FLAG_NO_AUTHENTICATION =? 0) with true. cbn [andb].
  replace (n <? 16) with false by lia. cbn [image_header h_header_crc h_magic h_data_len h_data_crc].
  change (header_head (image_header m d)) with
    (header_head (RawHeader m 0 (Z.of_nat (length d)) (crc32 0 d) 0)).
  rewrite Z.eqb_refl. cbn [negb andb]. rewrite Z.eqb_refl, andb_false_r.
  destruct (digest_init_ok raw Hra) as (raw1 & d2 & E1 & Hd2 & (Ha1 & Hs1 & Hra1) & Hl1 & Hdo2 & Hrun).
  rewrite E1. cbn [Z.eqb negb]. unfold with_digest. rewrite Hd2, (hm_length d2 Hdo2).
  replace (n <? Z.of_nat (length d) + dlen + 16) with false by lia.
  rewrite Nat2Z.id, Hd, Z.eqb_refl. cbn [negb andb].
  rewrite <- length_raw_image with (m := m). unfold read_at. rewrite drop_0, take_app_length.
  destruct (Hrun (raw_image m d)) as (d3 & d4 & -> & Hdo3 & Efin & Hdo4); [rewrite length_raw_image; lia|]. cbn [Z.eqb negb].
  unfold digest_generic_verify. rewrite Efin, (hm_length d3 Hdo3), drop_app_length.
  cbn [Z.eqb negb]. pose proof (hm_mac (raw_image m d)) as Hml.
  rewrite bool_decide_eq_true_2.
  2: { rewrite take_app_le by lia. done. }
  cbn [negb andb Z.ltb Z.compare]. eexists. split.
  - do 2 f_equal. rewrite length_raw_image. lia.
  - unfold raw_auth, set_digest. cbn [r_algo r_secret_name r_digest r_digest_length].
    split_and!; done.
Qed.

End Auth.

(** ** Unpacking *)

Lemma unpack_image m data rest vars :
  0 <= m < 2 ^ 32 -> Z.of_nat (length data) < 2 ^ 16 ->
  Forall (fun sv => wf_var sv /\ 0 <= sv_start sv /\ var_end sv <= Z.of_nat (length data)) vars ->
  backend_format_raw_unpack vars (raw_image m data ++ rest) =
  (0, map (fun sv => set_raw sv (read_at data (Z.to_nat (sv_start sv)) (Z.to_nat (sv_size sv)))) vars).
Proof.
  intros Hm Hl Hv. destruct (image_fields m data rest Hm Hl) as (Hh & _ & _).
  induction Hv as [|sv vars (Hw & Hs & He) _ IH]; cbn [backend_format_raw_unpack map]; [done|].
  rewrite IH, Hh. cbn [image_header h_data_len].
  pose proof (wf_raw_length sv Hw) as Hr. unfold var_end in He.
  rewrite u32_small by lia. replace (_ <? _) with false by lia.
  f_equal. f_equal. f_equal. unfold raw_image. rewrite <- app_assoc.
  rewrite (field_skip _ _ _ _ 16) by apply length_header_bytes.
  apply read_at_app_l. lia.
Qed.

(** [vars0] is the variable list of the same device tree, with other values. *)
Definition same_layout (vars vars0 : list state_variable) : Prop :=
  Forall2 (fun sv sv0 => wf_var sv0 /\ same_var sv0 sv) vars vars0.

Lemma unpack_restores m data rest vars vars0 :
  0 <= m < 2 ^ 32 -> layout_ok vars -> Z.of_nat (length data) = data_end vars ->
  (forall sv, sv ∈ vars ->
     read_at data (Z.to_nat (sv_start sv)) (Z.to_nat (sv_size sv)) = var_bytes sv) ->
  same_layout vars vars0 ->
  exists vars', backend_format_raw_unpack vars0 (raw_image m data ++ rest) = (0, vars') /\
    map var_bytes vars' = map var_bytes vars.
Proof.
  intros Hm Hlay Hl Hd Hsame. pose proof Hlay as (_ & _ & _ & Hend). eexists. split.
  - apply unpack_image; [done|lia|]. apply Forall_lookup. intros i sv0 Hi.
    destruct (Forall2_lookup_r _ _ _ _ _ Hsame Hi) as (sv & Hi' & Hw0 & _ & Hsz & _ & Hst).
    destruct (data_end_ge vars sv Hlay (list_elem_of_lookup_2 _ _ _ Hi')).
    unfold var_end in *. split_and!; (done || lia).
  - destruct Hlay as (Hw & _). revert Hd Hw. clear Hl Hend.
    induction Hsame as [|sv sv0 vars vars0 (Hw0 & _ & Hsz & _ & Hst) _ IH];
      intros Hd Hw; cbn [map]; [done|]. apply Forall_cons in Hw as [Hwsv Hw].
    rewrite IH by (done || intros x Hx; apply Hd; by right). f_equal.
    rewrite Hsz, Hst, Hd by (by left).
    pose proof (length_var_bytes sv Hwsv) as Hlb. unfold var_bytes at 1.
    change (sv_size (set_raw sv0 (var_bytes sv))) with (sv_size sv0).
    replace (Z.to_nat (sv_size sv0)) with (length (var_bytes sv)) by lia.
    apply set_raw_prefix; [done|lia].
Qed.

(** ** Bursts *)

Lemma read_at_outside (pre x y post : list byte) o n :
  length x = length y -> (o + n <= length pre \/ length pre + length x <= o)%nat ->
  read_at (pre ++ x ++ post) o n = read_at (pre ++ y ++ post) o n.
Proof.
  intros Hl [H|H].
  - by rewrite !read_at_app_l by done.
  - unfold read_at. rewrite !app_assoc. rewrite !drop_app_ge by (rewrite length_app; lia).
    by rewrite !length_app, Hl.
Qed.

Lemma read_at_around (pre x post : list byte) o n :
  (o <= length pre)%nat -> (length pre + length x <= o + n)%nat ->
  read_at (pre ++ x ++ post) o n =
  drop o pre ++ x ++ take (o + n - length pre - length x) post.
Proof.
  intros H1 H2. unfold read_at. rewrite drop_app_le by done.
  rewrite take_app_ge by (rewrite length_drop; lia). f_equal.
  rewrite take_app_ge by (rewrite length_drop; lia). f_equal. f_equal.
  rewrite length_drop. lia.
Qed.

(** Where a burst of changed bytes lies: in the checked part of the header,
    in the header checksum, or in the data. *)
Definition burst_at (buf : list byte) (o n : nat) : Prop :=
  (o + n <= 12)%nat \/ (12 <= o /\ o + n <= 16)%nat \/
  (16 <= o)%nat /\ Z.of_nat (o + n) <= 16 + h_data_len (header_of buf).

Lemma content_ok_burst m m2 pre x y post :
  length x = length y -> (length x <= 4)%nat ->
  burst_at (pre ++ x ++ post) (length pre) (length x) ->
  content_ok false m (pre ++ x ++ post) = true ->
  content_ok false m2 (pre ++ y ++ post) = true -> x = y.
Proof.
  intros Hl H4 Hb. unfold content_ok, fuzz_insecure_checksum_accepted.
  cbn [andb]. rewrite !orb_false_r. intros H1 H2. bool_prop.
  destruct Hb as [Hb|[[Hb1 Hb2]|[Hb1 Hb2]]].
  - assert (Hc : h_header_crc (header_of (pre ++ x ++ post)) =
                 h_header_crc (header_of (pre ++ y ++ post))).
    { cbn [header_of h_header_crc]. f_equal. apply read_at_outside; [done|lia]. }
    rewrite !(read_at_around pre _ post 0 12) in * by lia.
    apply (crc32_burst 0 (drop 0 pre) x y (take (0 + 12 - length pre - length x) post));
      [lia|done|done|]. rewrite Hl at 2. congruence.
  - assert (Hc : read_at (pre ++ x ++ post) 0 12 = read_at (pre ++ y ++ post) 0 12)
      by (apply read_at_outside; [done|lia]).
    assert (He : h_header_crc (header_of (pre ++ x ++ post)) =
                 h_header_crc (header_of (pre ++ y ++ post))) by congruence.
    cbn [header_of h_header_crc] in He.
    apply le_val_inj in He;
      [|unfold read_at; rewrite !length_take, !length_drop, !length_app; lia].
    rewrite !(read_at_around pre _ post 12 4) in He by lia.
    apply app_inv_head in He. by apply app_inj_1 in He as [? _].
  - assert (Hh : header_of (pre ++ x ++ post) = header_of (pre ++ y ++ post)).
    { unfold header_of. f_equal; f_equal; apply read_at_outside; (done || lia). }
    rewrite <- Hh in *.
    set (n := Z.to_nat (h_data_len (header_of (pre ++ x ++ post)))) in *.
    rewrite !(read_at_around pre _ post 16 n) in * by lia.
    apply (crc32_burst 0 (drop 16 pre) x y (take (16 + n - length pre - length x) post));
      [lia|done|done|]. rewrite Hl at 2. congruence.
Qed.

(** ** Properties *)

Section Properties.
Context {D : Type} `{!DigestOps D} {algo secret : string} {mac : list byte -> list byte}.
Context {dlen : Z} {dok : D -> Prop} `{!HmacOk D algo secret mac dlen dok}.

(** The format as created, without authentication or with it. *)
Definition raw_ready (raw : state_backend_format_raw D) : Prop :=
  r_algo raw = None /\ r_digest_length raw = 0 \/ @raw_auth D algo secret dlen dok raw.

(** C15: packing and unpacking are inverse.  Variables with a sound layout
    pack successfully; the packed buffer, followed by anything, verifies
    under the format's checksums (and its HMAC, when configured) and unpacks
    into the variables of a state with the same layout, whatever their
    values, which then hold the packed bytes. *)
Theorem raw_pack_unpack fuzz raw raw2 magic vars vars0 rest :
  raw_ready raw -> raw_ready raw2 -> r_algo raw2 = r_algo raw ->
  layout_ok vars -> 0 <= magic < 2 ^ 32 -> same_layout vars vars0 ->
  exists buf raw' n raw2' vars',
    backend_format_raw_pack raw magic vars = (Ok buf, raw') /\
    backend_format_raw_verify fuzz raw2 magic (buf ++ rest) (Z.of_nat (length (buf ++ rest))) 0
      = (0, n, raw2') /\
    backend_format_raw_unpack vars0 (buf ++ rest) = (0, vars') /\
    map var_bytes vars' = map var_bytes vars.
Proof.
  intros [[Ha Hdl]|Hra] Hr2 Halg Hlay Hm Hsame.
  - destruct (pack_noauth raw magic vars Ha Hdl Hlay Hm) as (data & E & Hl & Hv).
    pose proof Hlay as (_ & _ & _ & Hend).
    destruct (unpack_restores magic data rest vars vars0 Hm Hlay Hl Hv Hsame) as (vars' & Eu & Hu).
    eexists _, _, _, _, _. split; [exact E|]. split; [|split; [exact Eu|exact Hu]].
    apply verify_image; [|done|lia|rewrite length_app; lia].
    apply noauth_no_algo. congruence.
  - assert (Hra2 : @raw_auth D algo secret dlen dok raw2).
    { destruct Hr2 as [[Hn _]|?]; [|done]. destruct Hra as [Ha _]. congruence. }
    destruct (pack_auth raw magic vars Hra Hlay Hm) as (data & raw' & E & _ & Hl & Hv).
    pose proof Hlay as (_ & _ & _ & Hend).
    destruct (unpack_restores magic data (mac (raw_image magic data) ++ rest) vars vars0
      Hm Hlay Hl Hv Hsame) as (vars' & Eu & Hu).
    pose proof (hm_mac (raw_image magic data)) as Hml.
    destruct (verify_auth_image fuzz raw2 magic data rest
      (Z.of_nat (length ((raw_image magic data ++ mac (raw_image magic data)) ++ rest))))
      as (raw2' & Ev & _); [done|done|lia|rewrite !length_app; lia|].
    eexists _, _, _, _, _. split; [exact E|]. rewrite <- app_assoc in *.
    split; [exact Ev|]. split; [exact Eu|exact Hu].
Qed.

(** C13: corruption is detected.  Take any buffer the format accepts and
    change up to four consecutive bytes of its header, of the header checksum
    or of its data to different ones: no format instance accepts the result,
    for any magic and with or without authentication. *)
Theorem raw_verify_rejects_burst (raw raw2 : state_backend_format_raw D) m m2 pre x y post
    n n2 flags flags2 n' raw' :
  backend_format_raw_verify false raw m (pre ++ x ++ post) n flags = (0, n', raw') ->
  length x = length y -> (length x <= 4)%nat -> x <> y ->
  burst_at (pre ++ x ++ post) (length pre) (length x) ->
  fst (fst (backend_format_raw_verify false raw2 m2 (pre ++ y ++ post) n2 flags2)) <> 0.
Proof.
  intros Hv Hl H4 Hne Hb E. apply Hne.
  destruct (backend_format_raw_verify false raw2 m2 (pre ++ y ++ post) n2 flags2)
    as [[r2 n2'] raw2'] eqn:E2. cbn in E. subst r2.
  apply verify_ok_inv in Hv as (Hc & _). apply verify_ok_inv in E2 as (Hc2 & _).
  by apply (content_ok_burst m m2 pre x y post).
Qed.

(** C25: with an algorithm configured only authenticated data is accepted: the
    bytes behind header and data are the MAC of exactly these bytes. *)
Theorem raw_verify_authentic raw m buf n n' raw' :
  @raw_auth D algo secret dlen dok raw ->
  backend_format_raw_verify false raw m buf n 0 = (0, n', raw') ->
  n' + dlen <= n /\
  read_at buf (Z.to_nat n') (Z.to_nat dlen) = mac (take (Z.to_nat n') buf).
Proof.
  intros Hra. unfold backend_format_raw_verify, has_algo. pose proof Hra as (Ha & _).
  rewrite Ha. set (h := header_of buf). unfold format_raw_min_length.
  change (Z.land 0 Storage.STATE_FLAG_NO_AUTHENTICATION =? 0) with true. cbn [andb].
  destruct (n <? 16); [done|]. destruct (negb _ && negb _); [by destruct (h_header_crc h =? 0)|].
  destruct (negb (m =? 0) && _); [done|].
  destruct (digest_init_ok raw Hra) as (raw1 & d2 & -> & Hd2 & _ & _ & Hdo2 & Hrun).
  cbn [Z.eqb negb]. unfold with_digest. rewrite Hd2, (hm_length d2 Hdo2).
  destruct (Z.ltb_spec n (h_data_len h + dlen + 16)) as [|Hn]; [done|].
  destruct (negb _ && negb _); [done|].
  pose proof (data_len_range buf) as Hr. fold h in Hr.
  destruct (Hrun (read_at buf 0 (16 + Z.to_nat (h_data_len h)))) as (d3 & d4 & -> & Hdo3 & Ef & _);
    [unfold read_at; rewrite length_take; lia|].
  cbn [Z.eqb negb]. unfold digest_generic_verify. rewrite Ef, (hm_length d3 Hdo3).
  cbn [Z.eqb negb fuzz_insecure_digest_accepted orb]. rewrite andb_true_r.
  case_bool_decide as Hmac; cbn [negb Z.ltb Z.compare]; [|done]. intros E.
  assert (n' = h_data_len h + 16) as -> by congruence. split; [lia|].
  replace (Z.to_nat (h_data_len h + 16)) with (16 + Z.to_nat (h_data_len h))%nat by lia.
  pose proof (hm_mac (read_at buf 0 (16 + Z.to_nat (h_data_len h)))) as Hml.
  unfold read_at in *. rewrite drop_0 in *. rewrite Hmac. apply take_ge. lia.
Qed.

(** The length the verification reports excludes the HMAC.  The part of an
    authenticated buffer it covers is rejected when it is stored on its own,
    as the refresh of the other buckets does. *)
Theorem raw_refreshed_copy_rejected raw raw2 m buf n n' raw' :
  @raw_auth D algo secret dlen dok raw -> @raw_auth D algo secret dlen dok raw2 ->
  backend_format_raw_verify false raw m buf n 0 = (0, n', raw') ->
  fst (fst (backend_format_raw_verify false raw2 m (take (Z.to_nat n') buf) n' 0)) <> 0.
Proof.
  intros Hra Hra2 Hv E. pose proof hm_len as Hdl.
  apply verify_ok_inv in Hv as (_ & Hn' & _ & _).
  assert (Hh : header_of (take (Z.to_nat n') buf) = header_of buf).
  { pose proof (data_len_range buf). apply (header_of_prefix _ _ (Z.to_nat n')); [lia|].
    rewrite take_take. f_equal. lia. }
  revert E. unfold backend_format_raw_verify, has_algo. pose proof Hra2 as (Ha & _).
  rewrite Ha, Hh. set (h := header_of buf) in *. unfold format_raw_min_length.
  change (Z.land 0 Storage.STATE_FLAG_NO_AUTHENTICATION =? 0) with true. cbn [andb].
  destruct (n' <? 16); [done|]. destruct (negb _ && negb _); [by destruct (h_header_crc h =? 0)|].
  destruct (negb (m =? 0) && _); [done|].
  destruct (digest_init_ok raw2 Hra2) as (raw1 & d2 & -> & Hd2 & _ & _ & Hdo2 & _).
  cbn [Z.eqb negb]. unfold with_digest. rewrite Hd2, (hm_length d2 Hdo2).
  replace (n' <? h_data_len h + dlen + 16) with true by lia. done.
Qed.

End Properties.

(** ** A concrete keyed digest *)

Record toy := Toy {
  toy_key : list byte;
  toy_msg : list byte
}.

Definition toy_secret : list byte := map byte_of [17; 42; 99].
Definition toy_mac (msg : list byte) : list byte := le_bytes 4 (crc32 0 (toy_secret ++ msg)).

#[export] Instance toy_ops : DigestOps toy := {
  digest_alloc _ := Some (Toy [] []);
  digest_size _ := 4%nat;
  digest_set_key d key := (0, Toy key (toy_msg d));
  digest_init d := (0, Toy (toy_key d) []);
  digest_update d msg := (0, Toy (toy_key d) (toy_msg d ++ msg));
  digest_final d := (0, le_bytes 4 (crc32 0 (toy_key d ++ toy_msg d)), d);
  keystore_get_secret name :=
    if bool_decide (name = "state"%string) then Ok toy_secret else Err (- ENOENT)
}.

#[export] Instance toy_ok : HmacOk toy "crc" "state" toy_mac 4 (fun _ => True).
Proof.
  split; [lia| |done|by eexists|].
  - intros msg. unfold toy_mac. by rewrite length_le_bytes.
  - exists toy_secret. split; [done|]. intros d _. eexists _, _.
    split; [done|]. split; [done|]. split; [done|]. intros msg. eexists _, _. done.
Qed.

Definition toy_raw : state_backend_format_raw toy :=
  FormatRaw None 0 "state" (Some "crc"%string).

Lemma toy_auth : @raw_auth toy "crc" "state" 4 (fun _ => True) toy_raw.
Proof. done. Qed.

Definition demo_vars (v : Z) (s : string) : list state_variable :=
  [ StateVariable STATE_VARIABLE_TYPE_UINT32 "attempts" 0 4 (state_uint32 v 3);
    StateVariable STATE_VARIABLE_TYPE_STRING "name" 8 8
      (state_string (Some s) None (bytes_of s ++ replicate (8 - length (bytes_of s)) Init.Byte.x00)) ].

Definition demo_magic : Z := 0x27031977.

Lemma demo_layout : layout_ok (demo_vars 5 "abc").
Proof.
  unfold layout_ok. split_and!.
  - repeat constructor; cbn; (done || lia).
  - repeat constructor; cbn; lia.
  - cbn. unfold var_end. cbn. split_and!; repeat constructor; cbn; lia.
  - cbn. unfold var_end. cbn. lia.
Qed.

Lemma demo_same : same_layout (demo_vars 5 "abc") (demo_vars 0 "other").
Proof. repeat constructor; cbn; (done || lia). Qed.

Lemma raw_pack_unpack_witness :
  exists buf raw' n raw2' vars',
    backend_format_raw_pack toy_raw demo_magic (demo_vars 5 "abc") = (Ok buf, raw') /\
    backend_format_raw_verify false toy_raw demo_magic (buf ++ []) (Z.of_nat (length (buf ++ []))) 0
      = (0, n, raw2') /\
    backend_format_raw_unpack (demo_vars 0 "other") (buf ++ []) = (0, vars') /\
    map var_bytes vars' = map var_bytes (demo_vars 5 "abc").
Proof.
  apply (raw_pack_unpack (algo := "crc") (secret := "state") (mac := toy_mac) (dlen := 4)
    (dok := fun _ => True) false toy_raw toy_raw demo_magic (demo_vars 5 "abc")
    (demo_vars 0 "other") []).
  - right. done.
  - right. done.
  - done.
  - apply demo_layout.
  - unfold demo_magic. lia.
  - apply demo_same.
Defined.

(** The packed demo state, computed. *)
Definition demo_packed : list byte :=
  Eval vm_compute in
    match backend_format_raw_pack toy_raw demo_magic (demo_vars 5 "abc") with
    | (Ok buf, _) => buf
    | _ => []
    end.

Lemma raw_verify_rejects_burst_witness :
  fst (fst (backend_format_raw_verify false toy_raw 0
    (take 16 demo_packed ++ [Init.Byte.x06] ++ drop 17 demo_packed) 36 0)) <> 0.
Proof.
  destruct (backend_format_raw_verify false toy_raw demo_magic
    (take 16 demo_packed ++ [Init.Byte.x05] ++ drop 17 demo_packed) 36 0) as [[r n'] raw'] eqn:E.
  assert (r = 0) as -> by (vm_compute in E; congruence).
  apply (raw_verify_rejects_burst toy_raw toy_raw demo_magic 0 (take 16 demo_packed)
    [Init.Byte.x05] [Init.Byte.x06] (drop 17 demo_packed) 36 36 0 0 n' raw');
    [exact E|done|cbn; lia|done|].
  right. right. vm_compute. split; [lia|done].
Defined.

Lemma raw_verify_authentic_witness :
  read_at demo_packed (Z.to_nat 32) (Z.to_nat 4) = toy_mac (take (Z.to_nat 32) demo_packed).
Proof.
  destruct (backend_format_raw_verify false toy_raw demo_magic demo_packed 36 0)
    as [[r n'] raw'] eqn:E.
  assert (r = 0 /\ n' = 32) as [-> ->] by (vm_compute in E; split; congruence).
  destruct (raw_verify_authentic (algo := "crc") (secret := "state") (mac := toy_mac) (dlen := 4)
    (dok := fun _ => True) toy_raw demo_magic demo_packed 36 32 raw') as [_ H];
    [exact toy_auth|exact E|exact H].
Defined.

Lemma raw_refreshed_copy_rejected_witness :
  fst (fst (backend_format_raw_verify false toy_raw demo_magic
    (take (Z.to_nat 32) demo_packed) 32 0)) <> 0.
Proof.
  destruct (backend_format_raw_verify false toy_raw demo_magic demo_packed 36 0)
    as [[r n'] raw'] eqn:E.
  assert (r = 0 /\ n' = 32) as [-> ->] by (vm_compute in E; split; congruence).
  apply (raw_refreshed_copy_rejected (algo := "crc") (secret := "state") (mac := toy_mac)
    (dlen := 4) (dok := fun _ => True) toy_raw toy_raw demo_magic demo_packed 36 32 raw');
    [exact toy_auth|exact toy_auth|exact E].
Defined.

End FormatRaw.
