(* ===== verification/State.v ===== *)
(** * The state framework (common/state/state.c)

    A state is a set of variables with a format and a redundant storage.
    Here: saving and loading, creating the variables from a device tree node
    and writing them to one.  The theorems tie the components together: what
    [state_save] stores is what [state_load] restores after a reboot, and a
    state created from a device tree has a sound variable layout. *)

From stdpp Require Import base list strings.
From Stdlib Require Import ZArith Lia Sorting.Sorted.
From Stdlib Require Import Strings.Ascii.
From S2P Require Import Prelude Crc32 Storage Direct Of StateVars FormatRaw.

Module State.
Import Storage Of StateVars FormatRaw.

(** ** Data *)

(** The remaining callbacks of struct state_backend_format. *)
Class FormatIO (F : Type) := {
  pack : F -> Z -> list state_variable -> res (list byte) * F;
  unpack : F -> list state_variable -> list byte -> Z -> Z * list state_variable
}.

#[export] Instance raw_io {D} `{!DigestOps D} : FormatIO (state_backend_format_raw D) := {
  pack := backend_format_raw_pack;
  unpack _ vars buf _ := backend_format_raw_unpack vars buf
}.

Record state (B F : Type) := State {
  st_name : string;
  st_of_path : option string;
  st_magic : Z;
  keep_prev_content : bool;
  variables : list state_variable;
  dirty : bool;
  init_from_defaults : bool;
  save_on_shutdown : bool;
  format : F;
  st_storage : storage B;
  params : list string
}.
Arguments State {B F} _ _ _ _ _ _ _ _ _ _ _.
Arguments st_name {B F} _.
Arguments st_of_path {B F} _.
Arguments st_magic {B F} _.
Arguments keep_prev_content {B F} _.
Arguments variables {B F} _.
Arguments dirty {B F} _.
Arguments init_from_defaults {B F} _.
Arguments save_on_shutdown {B F} _.
Arguments format {B F} _.
Arguments st_storage {B F} _.
Arguments params {B F} _.

Section Ops.
Context {W B F : Type} `{!BucketOps W B} `{!FormatOps F} `{!FormatIO F}.

Definition set_backend (s : state B F) (f : F) (st : storage B) (d : bool) : state B F :=
  State (st_name s) (st_of_path s) (st_magic s) (keep_prev_content s) (variables s) d
    (init_from_defaults s) (save_on_shutdown s) f st (params s).

Definition set_loaded (s : state B F) (vars : list state_variable) (ifd : bool) : state B F :=
  State (st_name s) (st_of_path s) (st_magic s) (keep_prev_content s) vars (dirty s)
    ifd (save_on_shutdown s) (format s) (st_storage s) (params s).

Definition set_vars (s : state B F) (vars : list state_variable) (ps : list string) : state B F :=
  State (st_name s) (st_of_path s) (st_magic s) (keep_prev_content s) vars (dirty s)
    (init_from_defaults s) (save_on_shutdown s) (format s) (st_storage s) ps.

Definition set_origin (s : state B F) (path : string) (magic : Z) : state B F :=
  State (st_name s) (Some path) magic (keep_prev_content s) (variables s) (dirty s)
    (init_from_defaults s) (save_on_shutdown s) (format s) (st_storage s) (params s).

(** ** Saving and loading *)

Definition state_save (w : W) (s : state B F) : Z * W * state B F :=
  if negb (dirty s) then (0, w, s)
  else
    match pack (format s) (st_magic s) (variables s) with
    | (Err ret, f) => (ret, w, set_backend s f (st_storage s) (dirty s))
    | (Ok buf, f) =>
        let s := set_backend s f (st_storage s) (dirty s) in
        if keep_prev_content s && existsb wrong_magic (buckets (st_storage s)) then
          (- EPERM, w, s)
        else
          let '(ret, w, st) := state_storage_write w (st_storage s) buf in
          (ret, w, set_backend s f st (if ret =? 0 then false else dirty s))
    end.

Definition state_do_load (w : W) (s : state B F) (flags : Z) : Z * W * state B F :=
  let '(r, w, st, f) := state_storage_read w (st_storage s) (format s) (st_magic s) flags in
  match r with
  | Err ret => (ret, w, set_backend s f st (negb (ret =? 0)))
  | Ok (buf, len) =>
      let '(ret, vars) := unpack f (variables s) buf len in
      let s := set_loaded s vars (if ret =? 0 then false else init_from_defaults s) in
      (ret, w, set_backend s f st (negb (ret =? 0)))
  end.

Definition state_load (w : W) (s : state B F) : Z * W * state B F := state_do_load w s 0.

Definition state_load_no_auth (w : W) (s : state B F) : Z * W * state B F :=
  state_do_load w s STATE_FLAG_NO_AUTHENTICATION.

Definition state_backend_set_readonly (s : state B F) : state B F :=
  set_backend s (format s) (state_storage_set_readonly (st_storage s)) (dirty s).

(** A zeroed state with its three parameters; [f] and [st] stand for the
    format and storage that are filled in later. *)
Definition state_new (name : string) (f : F) (st : storage B) : state B F :=
  State name None 0 false [] true false true f st
    ["init_from_defaults"%string; "save_on_shutdown"%string; "dirty"%string].

(** Saving every state that asks for it at shutdown. *)
Fixpoint state_shutdown (w : W) (states : list (state B F)) : W * list (state B F) :=
  match states with
  | [] => (w, [])
  | s :: rest =>
      let '(w, s) := if save_on_shutdown s then let '(_, w, s) := state_save w s in (w, s)
                     else (w, s) in
      let '(w, rest) := state_shutdown w rest in
      (w, s :: rest)
  end.

Fixpoint state_by_name (states : list (state B F)) (name : string) : option (state B F) :=
  match states with
  | [] => None
  | s :: rest => if bool_decide (name = st_name s) then Some s else state_by_name rest name
  end.

Definition state_read_mac (s : state B F) (name : string) : res (list byte) :=
  match state_find_var (variables s) name with
  | Err e => Err e
  | Ok sv =>
      match sv_type sv, sv_body sv with
      | STATE_VARIABLE_TYPE_MAC, state_mac value _ => Ok (take 6 value)
      | _, _ => Err (- EINVAL)
      end
  end.

End Ops.

(** ** Variables and device tree nodes *)

(** [short_name] without the unit address. *)
Fixpoint strip_at (s : string) : string :=
  match s with
  | String.EmptyString => String.EmptyString
  | String.String c s =>
      if bool_decide (c = "@"%char) then String.EmptyString else String.String c (strip_at s)
  end.

Definition full_name (parent_name short_name : string) : string :=
  match parent_name with
  | String.EmptyString => short_name
  | _ => String.append parent_name (String.append "." short_name)
  end.

Definition to_node (conv : state_convert) : bool :=
  bool_decide (conv = STATE_CONVERT_TO_NODE) || bool_decide (conv = STATE_CONVERT_FIXUP).

(** Store a variable that was found by name. *)
Fixpoint replace_var (vars : list state_variable) (name : string) (sv : state_variable)
  : list state_variable :=
  match vars with
  | [] => []
  | v :: vars => if bool_decide (sv_name v = name) then sv :: vars
                 else v :: replace_var vars name sv
  end.

(** Variables and parameters of the state, which the conversion changes. *)
Record conv_st := ConvSt {
  cs_vars : list state_variable;
  cs_params : list string
}.

(** The branch that creates a variable from [node]. *)
Definition convert_create (cs : conv_st) (node : device_node) (name : string)
    (vt : variable_type) : Z * conv_st :=
  let '(r, ps) := create vt (cs_params cs) name node in
  let cs := ConvSt (cs_vars cs) ps in
  match r with
  | Err e => (e, cs)
  | Ok sv =>
      match of_property_read_u32_array node "reg" 2 with
      | Err e => (e, cs)
      | Ok start_size =>
          if negb (default 0 (start_size !! 1%nat) =? sv_size sv) then (- EOVERFLOW, cs)
          else
            let sv := set_place sv name (default 0 (start_size !! 0%nat)) in
            let '(ret, sv) := import vt sv node in
            (ret, ConvSt (state_add_var (cs_vars cs) sv) ps)
      end
  end.

(** The branches that work on an existing variable. *)
Definition convert_existing (cs : conv_st) (node : device_node) (new_node : option device_node)
    (name : string) (vt : variable_type) (conv : state_convert)
  : Z * conv_st * option device_node :=
  match state_find_var (cs_vars cs) name with
  | Err _ => (0, cs, new_node)
  | Ok sv =>
      match new_node with
      | Some nn =>
          let '(ret, nn) := of_property_write_string nn "type" (type_name vt) in
          if negb (ret =? 0) then (ret, cs, Some nn)
          else
            let '(ret, nn) := of_property_write_u32_array nn "reg" [sv_start sv; sv_size sv] in
            if negb (ret =? 0) then (ret, cs, Some nn)
            else
              let '(ret, nn) := export vt sv nn conv in
              (ret, cs, Some nn)
      | None =>
          let '(ret, sv) := import vt sv node in
          (ret, ConvSt (replace_var (cs_vars cs) name sv) (cs_params cs), None)
      end
  end.

(** Everything after the children were converted. *)
Definition convert_node (cs : conv_st) (node : device_node) (new_node : option device_node)
    (name : string) (conv : state_convert) : Z * conv_st * option device_node :=
  match of_property_read_string node "type" with
  | Err ret =>
      if negb (bool_decide (n_children node = [])) && (ret =? - EINVAL) then
        if bool_decide (conv = STATE_CONVERT_FIXUP) then
          match new_node with
          | Some nn =>
              let '(ret, nn) := of_property_write_u32 nn "#address-cells" 1 in
              if negb (ret =? 0) then (ret, cs, Some nn)
              else
                let '(ret, nn) := of_property_write_u32 nn "#size-cells" 1 in
                if negb (ret =? 0) then (ret, cs, Some nn) else (0, cs, Some nn)
          | None => (0, cs, None)
          end
        else (0, cs, new_node)
      else (ret, cs, new_node)
  | Ok type_name =>
      match state_find_type_by_name type_name with
      | None => (- ENOENT, cs, new_node)
      | Some vt =>
          if bool_decide (conv = STATE_CONVERT_FROM_NODE_CREATE) then
            let '(ret, cs) := convert_create cs node name vt in (ret, cs, new_node)
          else convert_existing cs node new_node name vt conv
      end
  end.

#[export] Instance device_node_eq_dec_nil (l : list device_node) : Decision (l = []).
Proof. destruct l; [by left|by right]. Defined.

(** Converting the children of a node one by one; each new node is appended
    to [nn], the node written for their parent. *)
Definition convert_loop
    (f : conv_st -> device_node -> option device_node -> Z * conv_st * option device_node) :=
  fix children (l : list device_node) (cs : conv_st) (nn : option device_node)
    : Z * conv_st * option device_node :=
    match l with
    | [] => (0, cs, nn)
    | child :: l =>
        let '(ret, cs, cn) := f cs child nn in
        let nn := match nn, cn with
                  | Some n, Some c => Some (add_child n c)
                  | _, _ => nn
                  end in
        if negb (ret =? 0) then (ret, cs, nn) else children l cs nn
    end.

(** [parent] is the node the new node hangs below, when nodes are written;
    the new node is returned for the caller to append. *)
Fixpoint state_convert_node_variable (cs : conv_st) (node : device_node)
    (parent : option device_node) (parent_name : string) (conv : state_convert)
  {struct node} : Z * conv_st * option device_node :=
  match node with
  | Node nname _ _ nchildren =>
      let name := full_name parent_name (strip_at nname) in
      let new_node := if to_node conv
                      then match parent with Some p => Some (of_new_node p nname) | None => None end
                      else None in
      let '(ret, cs, new_node) :=
        convert_loop (fun cs child nn => state_convert_node_variable cs child nn name conv)
          nchildren cs new_node in
      if negb (ret =? 0) then (ret, cs, new_node)
      else convert_node cs node new_node name conv
  end.

(** The loop over the children of the state node. *)
Definition convert_children (l : list device_node) (cs : conv_st) (root : option device_node)
    (conv : state_convert) : Z * conv_st * option device_node :=
  convert_loop (fun cs child nn => state_convert_node_variable cs child nn String.EmptyString conv)
    l cs root.

(** [state_root] is the node at the state's path in the live tree. *)
Definition state_to_node (vars : list state_variable) (magic : Z)
    (state_root parent : option device_node) (conv : state_convert)
  : res device_node :=
  match state_root with
  | None => Err (- ENODEV)
  | Some sr =>
      let root := match parent with Some p => of_new_node p (n_name sr) | None => of_new_root end in
      let '(ret, root) := of_property_write_u32 root "magic" magic in
      if negb (ret =? 0) then Err ret
      else
        let '(ret, _, root) := convert_children (n_children sr) (ConvSt vars []) (Some root) conv in
        if negb (ret =? 0) then Err ret
        else match root with Some r => Ok r | None => Err ret end
  end.

(** Neighbours in the sorted list, compared with 32 bit arithmetic. *)
Fixpoint overlap_check (last_sv : state_variable) (vars : list state_variable) : Z :=
  match vars with
  | [] => 0
  | sv :: vars =>
      let r := if u32 (u32 (sv_start last_sv + sv_size last_sv) - 1) <? sv_start sv
               then 0 else - EINVAL in
      Z.lor r (overlap_check sv vars)
  end.

(** Loading the values of existing variables from [node]. *)
Definition load_from_node (magic : Z) (cs : conv_st) (node : device_node) : Z * conv_st :=
  match of_property_read_u32 node "magic" with
  | Err ret => (ret, cs)
  | Ok m =>
      if negb (magic =? 0) && negb (magic =? m) then (- EINVAL, cs)
      else
        let '(ret, cs, _) := convert_children (n_children node) cs None STATE_CONVERT_FROM_NODE in
        (ret, cs)
  end.

Definition state_from_node {B F} (s : state B F) (node : device_node) (create : bool)
  : Z * state B F :=
  match of_property_read_u32 node "magic" with
  | Err ret => (ret, s)
  | Ok magic =>
      let conv := if create then STATE_CONVERT_FROM_NODE_CREATE else STATE_CONVERT_FROM_NODE in
      let s := if create then set_origin s (n_full_name node) magic else s in
      if negb create && negb (st_magic s =? 0) && negb (st_magic s =? magic) then (- EINVAL, s)
      else
        let '(ret, cs, _) :=
          convert_children (n_children node) (ConvSt (variables s) (params s)) None conv in
        let s := set_vars s (cs_vars cs) (cs_params cs) in
        if negb (ret =? 0) then (ret, s)
        else if create then
          match variables s with
          | [] => (0, s)
          | sv :: vars => (Z.lor ret (overlap_check sv vars), s)
          end
        else (ret, s)
  end.

Lemma state_from_node_load {B F} (s : state B F) node :
  state_from_node s node false
  = let '(ret, cs) := load_from_node (st_magic s) (ConvSt (variables s) (params s)) node in
    (ret, set_vars s (cs_vars cs) (cs_params cs)).
Proof.
  unfold state_from_node, load_from_node. destruct s. cbn [negb andb st_magic variables params].
  destruct (of_property_read_u32 node "magic") as [m|]; [|done].
  destruct (negb _ && negb _); [done|]. destruct (convert_children _ _ _ _) as [[ret cs] nn].
  by destruct (negb (ret =? 0)).
Qed.

(** ** The variable list during conversion *)

Definition vars_inv (vars : list state_variable) : Prop :=
  Forall wf_var vars /\ Forall (fun sv => 0 <= sv_start sv < 2 ^ 32) vars /\ vars_sorted vars.

Lemma find_type_in name vt : state_find_type_by_name name = Some vt -> vt ∈ types.
Proof. intros H. apply find_some in H as [H _]. by apply list_elem_of_In. Qed.

Lemma reg_start_range node l :
  of_property_read_u32_array node "reg" 2 = Ok l -> 0 <= default 0 (l !! 0%nat) < 2 ^ 32.
Proof.
  unfold of_property_read_u32_array, of_find_property_value_of_size.
  destruct (of_find_property node "reg") as [p|]; [|done]. unfold p_length.
  destruct (p_value p) as [d|]; [|done]. cbn [default from_option id].
  destruct (Z.ltb_spec (Z.of_nat (length d)) (Z.of_nat (2 * 4))); [done|].
  destruct (negb _ && _); [done|]. intros E. inv E.
  change (is_u32 (be_val (take 4 d))). apply is_u32_be. rewrite length_take. lia.
Qed.

Lemma add_var_inv vars sv :
  vars_inv vars -> wf_var sv -> 0 <= sv_start sv < 2 ^ 32 -> vars_inv (state_add_var vars sv).
Proof.
  intros (H1 & H2 & H3) Hw Hs. unfold state_add_var.
  split_and!; [rewrite list_add_sort_perm; by constructor..|by apply state_add_var_sorted].
Qed.

Lemma create_inv cs node name vt ret cs' :
  vt ∈ types -> vars_inv (cs_vars cs) -> convert_create cs node name vt = (ret, cs') ->
  vars_inv (cs_vars cs').
Proof.
  intros Hin Hinv. unfold convert_create.
  destruct (create vt (cs_params cs) name node) as [[sv|e] ps] eqn:Ec; [|intros E; by inv E].
  destruct (create_wf _ _ _ _ _ _ Hin Ec) as [Hw Ht].
  destruct (of_property_read_u32_array node "reg" 2) as [l|e] eqn:Er; [|intros E; by inv E].
  destruct (negb _); [intros E; by inv E|].
  destruct (import vt _ node) as [r sv'] eqn:Ei. intros E. inv E.
  apply import_wf in Ei as [Hw' (_ & _ & _ & Hst)]; [|done|done].
  apply add_var_inv; [done|done|]. rewrite Hst. by eapply reg_start_range.
Qed.

Lemma find_var_in vars name sv :
  state_find_var vars name = Ok sv -> sv ∈ vars /\ sv_name sv = name.
Proof.
  induction vars as [|v vars IH]; cbn; [done|]. case_bool_decide as H.
  - intros E. inv E. split; [by left|done].
  - intros E. apply IH in E as [? ?]. split; [by right|done].
Qed.

Lemma replace_var_inv vars name sv sv' :
  vars_inv vars -> state_find_var vars name = Ok sv -> wf_var sv' -> same_var sv' sv ->
  vars_inv (replace_var vars name sv').
Proof.
  intros (H1 & H2 & H3) Hf Hw (_ & _ & Hn & Hst). unfold vars_sorted in *.
  assert (Hmap : map sv_start (replace_var vars name sv') = map sv_start vars).
  { clear H1 H2 H3. revert Hf. induction vars as [|v vars IH]; cbn; [done|].
    case_bool_decide as H; cbn; [intros E; inv E; by rewrite Hst|]. intros E. by rewrite IH. }
  assert (Hwf : Forall wf_var (replace_var vars name sv')).
  { clear -H1 Hw. induction H1 as [|v vars Hv Hvs IH]; cbn; [constructor|].
    case_bool_decide; by constructor. }
  split_and!; [done| |].
  - apply (Forall_map sv_start (fun z => 0 <= z < 2 ^ 32)). rewrite Hmap.
    by apply (Forall_map sv_start (fun z => 0 <= z < 2 ^ 32)).
  - assert (Hs : forall l, Sorted (fun a b => sv_start a <= sv_start b) l <->
      Sorted Z.le (map sv_start l)).
    { clear. intros l. split.
      - induction 1 as [|a l _ IH Hr]; cbn; constructor; [done|]. by destruct Hr; constructor.
      - induction l as [|a l IH]; cbn; [constructor|]. intros E. inv E. constructor; [auto|].
        destruct l; constructor. cbn in *. match goal with H : HdRel _ _ _ |- _ => by inv H end. }
    apply Hs. rewrite Hmap. by apply Hs.
Qed.

Lemma existing_inv cs node nn name vt conv ret cs' nn' :
  vt ∈ types -> vars_inv (cs_vars cs) ->
  convert_existing cs node nn name vt conv = (ret, cs', nn') -> vars_inv (cs_vars cs').
Proof.
  intros Hin Hinv. unfold convert_existing.
  destruct (state_find_var (cs_vars cs) name) as [sv|e] eqn:Ef; [|intros E; by inv E].
  destruct nn as [n|].
  - destruct (of_property_write_string n "type" _) as [r1 n1].
    destruct (negb _); [intros E; by inv E|].
    destruct (of_property_write_u32_array n1 "reg" _) as [r2 n2].
    destruct (negb _); [intros E; by inv E|].
    destruct (export vt sv n2 conv) as [r3 n3]. intros E. by inv E.
  - destruct (import vt sv node) as [r sv'] eqn:Ei. intros E. inv E.
    pose proof (find_var_in _ _ _ Ef) as [Hin' _]. destruct Hinv as (H1 & H2 & H3).
    rewrite Forall_forall in H1. apply import_wf in Ei as [Hw Hs]; [|done|by apply H1].
    eapply replace_var_inv; [|done|done|done]. split_and!; [by apply Forall_forall|done|done].
Qed.

Lemma convert_node_inv cs node nn name conv ret cs' nn' :
  vars_inv (cs_vars cs) -> convert_node cs node nn name conv = (ret, cs', nn') ->
  vars_inv (cs_vars cs').
Proof.
  intros Hinv. unfold convert_node.
  destruct (of_property_read_string node "type") as [t|e].
  - destruct (state_find_type_by_name t) as [vt|] eqn:Et; [|intros E; by inv E].
    apply find_type_in in Et. destruct (bool_decide _).
    + destruct (convert_create cs node name vt) as [r cs1] eqn:Ec. intros E. inv E.
      by eapply create_inv.
    + intros E. by eapply existing_inv.
  - destruct (negb _ && _); [|intros E; by inv E].
    destruct (bool_decide _); [|intros E; by inv E].
    destruct nn as [n|]; [|intros E; by inv E].
    destruct (of_property_write_u32 n "#address-cells" 1) as [r1 n1].
    destruct (negb _); [intros E; by inv E|].
    destruct (of_property_write_u32 n1 "#size-cells" 1) as [r2 n2].
    destruct (negb _); intros E; by inv E.
Qed.

Lemma convert_loop_inv f l cs nn r cs' nn' :
  Forall (fun child => forall cs nn r cs' cn, vars_inv (cs_vars cs) ->
    f cs child nn = (r, cs', cn) -> vars_inv (cs_vars cs')) l ->
  vars_inv (cs_vars cs) -> convert_loop f l cs nn = (r, cs', nn') -> vars_inv (cs_vars cs').
Proof.
  intros Hf. revert cs nn. induction Hf as [|x l Hx _ IH]; intros cs nn Hi; cbn [convert_loop].
  { intros E. by inv E. }
  destruct (f cs x nn) as [[r1 cs1] cn] eqn:E1. apply Hx in E1; [|done].
  destruct (negb (r1 =? 0)); [intros E; by inv E|]. by apply IH.
Qed.

Lemma convert_variable_inv node :
  forall cs parent pname conv ret cs' nn',
  vars_inv (cs_vars cs) ->
  state_convert_node_variable cs node parent pname conv = (ret, cs', nn') ->
  vars_inv (cs_vars cs').
Proof.
  induction node as [n f p c IH] using device_node_ind'.
  intros cs parent pname conv ret cs' nn' Hinv. cbn [state_convert_node_variable].
  destruct (convert_loop _ c cs _) as [[r cs1] nn1] eqn:E1. apply convert_loop_inv in E1; [| |done].
  - destruct (negb (r =? 0)); [intros E; by inv E|]. by apply convert_node_inv.
  - eapply Forall_impl; [exact IH|]. intros x Hx cs0 nn r0 cs2 cn Hi E. by eapply Hx.
Qed.

Lemma convert_children_inv l cs root conv ret cs' root' :
  vars_inv (cs_vars cs) -> convert_children l cs root conv = (ret, cs', root') ->
  vars_inv (cs_vars cs').
Proof.
  intros Hi. apply convert_loop_inv; [|done]. apply Forall_forall.
  intros x _ cs0 nn r cs1 cn. apply convert_variable_inv.
Qed.

(** ** Layout *)

Definition no_wrap (sv : state_variable) : Prop := sv_start sv + sv_size sv <= 2 ^ 32.

Lemma overlap_step a b :
  wf_var a -> 0 <= sv_start a < 2 ^ 32 -> sv_start b < 2 ^ 32 -> no_wrap a ->
  u32 (u32 (sv_start a + sv_size a) - 1) < sv_start b -> var_end a <= sv_start b.
Proof.
  intros Hw Ha Hb Hnw H. pose proof (wf_raw_length a Hw) as Hs. unfold no_wrap, var_end in *.
  destruct (Z.eq_dec (sv_start a + sv_size a) (2 ^ 32)) as [E|Hne].
  { rewrite E in H. change (u32 (u32 (2 ^ 32) - 1)) with (2 ^ 32 - 1) in H. lia. }
  rewrite (u32_small (sv_start a + sv_size a)) in H by lia.
  destruct (Z.eq_dec (sv_start a + sv_size a) 0) as [E|Hz].
  { rewrite E in H. change (u32 (0 - 1)) with (2 ^ 32 - 1) in H. lia. }
  rewrite u32_small in H by lia. lia.
Qed.

(** Neighbours apart and sizes non-negative: all pairs are apart. *)
Lemma overlap_pairwise sv vars :
  Forall wf_var (sv :: vars) -> Forall (fun sv => 0 <= sv_start sv < 2 ^ 32) (sv :: vars) ->
  Forall no_wrap (sv :: vars) -> overlap_check sv vars = 0 ->
  pairwise (fun a b => var_end a <= sv_start b) (sv :: vars).
Proof.
  revert sv. induction vars as [|b vars IH]; intros a Hw Hs Hn Ho.
  { cbn. done. }
  cbn [overlap_check] in Ho. apply Z.lor_eq_0_iff in Ho as [Hr Ho].
  apply Forall_cons in Hw as [Hwa Hw]. apply Forall_cons in Hs as [Hsa Hs].
  apply Forall_cons in Hn as [Hna Hn]. pose proof (IH b Hw Hs Hn Ho) as Hp.
  pose proof Hw as Hw'. pose proof Hs as Hs'.
  apply Forall_cons in Hw' as [Hwb _]. apply Forall_cons in Hs' as [Hsb _].
  assert (Hab : var_end a <= sv_start b).
  { apply overlap_step; [done|done|lia|done|].
    destruct (Z.ltb_spec (u32 (u32 (sv_start a + sv_size a) - 1)) (sv_start b)); [done|].
    cbn in Hr. unfold EINVAL in Hr. lia. }
  split; [|exact Hp]. constructor; [done|]. destruct Hp as [Hpb _].
  pose proof (wf_raw_length b Hwb). eapply Forall_impl; [exact Hpb|]. cbv beta.
  unfold var_end in *. intros. lia.
Qed.

(** ** Save, reboot, load *)

Section SaveLoad.
Context {W B V L D : Type} `{!BucketOps W B} {view : W -> V} {bstat : B -> L}.
Context `{!BucketOk W B V L view bstat} `{!DigestOps D} (fuzz : bool).

Local Abbreviation plc := (place (bstat := bstat)).

Lemma save_stores w (s : state B (state_backend_format_raw D)) ret w' s' :
  Forall (fun b => bwf (view w) (priv b)) (buckets (st_storage s)) ->
  pairwise indep (map plc (buckets (st_storage s))) ->
  buckets (st_storage s) <> [] -> readonly (st_storage s) = false ->
  dirty s = true -> keep_prev_content s = false ->
  r_algo (format s) = None -> r_digest_length (format s) = 0 ->
  layout_ok (variables s) -> 0 <= st_magic s < 2 ^ 32 ->
  Forall (fun p => fits p (Z.to_nat (16 + data_end (variables s))))
    (map plc (buckets (st_storage s))) ->
  state_save w s = (ret, w', s') ->
  ret = 0 /\ dirty s' = false /\
  exists data, Z.of_nat (length data) = data_end (variables s) /\
    Forall (fun p => stored (view w') p (raw_image (st_magic s) data))
      (map plc (buckets (st_storage s))) /\
    forall sv, sv ∈ variables s ->
      read_at data (Z.to_nat (sv_start sv)) (Z.to_nat (sv_size sv)) = var_bytes sv.
Proof.
  intros Hwf Hp Hne Hro Hd Hk Ha Hdl Hlay Hm Hfit. unfold state_save.
  rewrite Hd. cbn [negb pack raw_io].
  destruct (pack_noauth (format s) (st_magic s) (variables s) Ha Hdl Hlay Hm)
    as (data & -> & Hl & Hv).
  cbn [keep_prev_content set_backend st_storage]. rewrite Hk. cbn [andb].
  unfold state_storage_write. rewrite Hro.
  destruct (write_buckets w (buckets (st_storage s)) (raw_image (st_magic s) data))
    as [[n w1] bs1] eqn:Ew.
  apply (write_buckets_ok w) in Ew as (Hn & Hpl & _ & Hst); [|done|done|].
  2: { rewrite length_raw_image. eapply Forall_impl; [exact Hfit|]. cbv beta. intros p.
       by replace (Z.to_nat (16 + data_end (variables s))) with (16 + length data)%nat by lia. }
  replace (min_buckets_written <=? n)%nat with true.
  2: { symmetry. apply Nat.leb_le. unfold min_buckets_written.
       destruct (buckets (st_storage s)); [done|]. cbn in Hn. lia. }
  intros E. inv E. split; [done|]. split; [done|]. exists data. done.
Qed.

Lemma load_restores w (s : state B (state_backend_format_raw D)) vars data b bs :
  buckets (st_storage s) = b :: bs -> Forall (opened (view w)) (buckets (st_storage s)) ->
  r_algo (format s) = None -> 0 <= st_magic s < 2 ^ 32 ->
  layout_ok vars -> Z.of_nat (length data) = data_end vars ->
  (forall sv, sv ∈ vars ->
     read_at data (Z.to_nat (sv_start sv)) (Z.to_nat (sv_size sv)) = var_bytes sv) ->
  same_layout vars (variables s) ->
  stored (view w) (plc b) (raw_image (st_magic s) data) ->
  exists w' s', @state_load W B _ _ (raw_ops fuzz) _ w s = (0, w', s') /\
    map var_bytes (variables s') = map var_bytes vars /\ dirty s' = false.
Proof.
  intros Hbs Ho Ha Hm Hlay Hl Hv Hsame Hst.
  pose proof Hlay as (_ & _ & _ & Hend).
  assert (Hval : @valid _ (raw_ops fuzz) (format s) (st_magic s) 0 (raw_image (st_magic s) data)).
  { exists (format s). cbn [verify raw_ops].
    pose proof (verify_image fuzz (format s) (st_magic s) data []
      (Z.of_nat (length (raw_image (st_magic s) data))) 0) as E. rewrite app_nil_r in E.
    apply E; [by apply noauth_no_algo|done|lia|lia]. }
  destruct (@read_first_valid W B V L _ _ (raw_ops fuzz) view bstat _ (raw_format_ok fuzz)
    w (st_storage s) (format s) (st_magic s) 0 [] b bs (raw_image (st_magic s) data)
    (Scan w (format s) 0 None) [] (format s)) as (d & n & w' & st' & f' & E & Htk); try done.
  unfold state_load, state_do_load. rewrite E. cbn [unpack raw_io].
  destruct (unpack_restores (st_magic s) data (drop (Z.to_nat n) d) vars (variables s)
    Hm Hlay Hl Hv Hsame) as (vars' & Eu & Hu).
  rewrite <- Htk, take_drop in Eu. rewrite Eu. cbn [Z.eqb negb].
  eexists _, _. split; [reflexivity|]. done.
Qed.

(** A state whose storage works and whose packed form fits the buckets. *)
Definition saveable (w : W) (s : state B (state_backend_format_raw D)) : Prop :=
  Forall (fun b => bwf (view w) (priv b)) (buckets (st_storage s)) /\
  pairwise indep (map plc (buckets (st_storage s))) /\
  buckets (st_storage s) <> [] /\ readonly (st_storage s) = false /\
  dirty s = true /\ keep_prev_content s = false /\
  r_algo (format s) = None /\ r_digest_length (format s) = 0 /\
  layout_ok (variables s) /\ 0 <= st_magic s < 2 ^ 32 /\
  Forall (fun p => fits p (Z.to_nat (16 + data_end (variables s))))
    (map plc (buckets (st_storage s))).

(** [s2] is the state [s] as the next boot sets it up: buckets opened at the
    same places, variables of the same layout with any values. *)
Definition rebooted (w2 : W) (s s2 : state B (state_backend_format_raw D)) : Prop :=
  map plc (buckets (st_storage s2)) = map plc (buckets (st_storage s)) /\
  Forall (opened (view w2)) (buckets (st_storage s2)) /\
  r_algo (format s2) = None /\ st_magic s2 = st_magic s /\
  same_layout (variables s) (variables s2).

(** C1: what is saved is what the next boot loads.  Saving a dirty state
    succeeds and marks it clean; a state set up from the same device tree on
    the device contents left behind then loads successfully, and every
    variable holds the bytes it had when it was saved. *)
Theorem state_save_load w s ret w' s' w2 s2 :
  saveable w s -> state_save w s = (ret, w', s') ->
  view w2 = view w' -> rebooted w2 s s2 ->
  ret = 0 /\ dirty s' = false /\
  exists w3 s3, @state_load W B _ _ (raw_ops fuzz) _ w2 s2 = (0, w3, s3) /\
    map var_bytes (variables s3) = map var_bytes (variables s) /\ dirty s3 = false.
Proof.
  intros (H1 & H2 & H3 & H4 & H5 & H6 & H7 & H8 & H9 & H10 & H11) Es Hv (R1 & R2 & R3 & R4 & R5).
  destruct (save_stores w s ret w' s' H1 H2 H3 H4 H5 H6 H7 H8 H9 H10 H11 Es)
    as (Hret & Hd & data & Hl & Hst & Hdata).
  split; [done|]. split; [done|].
  destruct (buckets (st_storage s2)) as [|b bs] eqn:Eb.
  { symmetry in R1. apply map_eq_nil in R1. done. }
  apply (load_restores w2 s2 (variables s) data b bs); rewrite ?Eb, ?R4; try done.
  rewrite Hv. rewrite <- R1 in Hst. by apply Forall_cons in Hst as [Hst _].
Qed.

End SaveLoad.

(** C29: creating a state from a device tree node gives a sound layout.  When
    [state_from_node] succeeds, every variable is well-formed and the list is
    sorted by position.  If the end of every variable is representable in 32 bits,
    no two variables overlap; without that the check can be passed by variables
    that do, since it adds in 32 bits. *)
Theorem state_from_node_layout {B F} (s : state B F) node s' :
  variables s = [] -> state_from_node s node true = (0, s') ->
  Forall wf_var (variables s') /\ vars_sorted (variables s') /\
  (Forall no_wrap (variables s') -> pairwise (fun a b => var_end a <= sv_start b) (variables s')).
Proof.
  intros Hnil. unfold state_from_node.
  destruct (of_property_read_u32 node "magic") as [magic|e] eqn:Em.
  2: { intros E. inv E. rewrite Hnil. split; [constructor|]. split; [constructor|done]. }
  cbn [negb andb]. cbn [variables set_origin params]. rewrite Hnil.
  destruct (convert_children (n_children node) _ None _) as [[r cs] rt] eqn:Ec.
  apply convert_children_inv in Ec as (Hw & Hs & Hso); [|split_and!; constructor].
  destruct (Z.eqb_spec r 0) as [->|Hr]; cbn [negb]; [|intros E; congruence].
  cbn [variables set_vars]. destruct (cs_vars cs) as [|sv vars] eqn:Ev.
  - intros E. inv E. cbn. split; [constructor|]. split; [constructor|done].
  - rewrite Z.lor_0_l. intros E.
    assert (Hs' : variables s' = sv :: vars /\ overlap_check sv vars = 0).
    { split; [|congruence]. by injection E as _ <-. }
    destruct Hs' as [Hv Ho]. rewrite Hv in *. split_and!; [done|done|]. intros Hn. by apply overlap_pairwise.
Qed.

(** ** A concrete state on a device in memory *)

Module Demo.
Import Direct.

Lemma demo_junk_length n : length (demo_junk n) = n.
Proof. apply length_replicate. Qed.

#[export] Instance ops : BucketOps memfile direct := direct_ops false demo_junk.
#[export] Instance ok : BucketOk memfile direct (list byte) direct mf_bytes id :=
  direct_ok mf_bytes mf_pos false demo_junk demo_junk_length.
#[export] Instance fops : FormatOps (state_backend_format_raw toy) := raw_ops false.
#[export] Instance fok : FormatOk (state_backend_format_raw toy) := raw_format_ok false.

Definition raw : state_backend_format_raw toy := FormatRaw None 0 String.EmptyString None.

Definition bkt (n : Z) : bucket direct := Bucket (DirectBucket (64 * n) 64) n (64 * n) None 0 false false.

Definition store : storage direct := Storage [bkt 0; bkt 1] None 64 0 128 "/dev/eeprom" false.

Definition st (v : Z) (s : string) : state direct (state_backend_format_raw toy) :=
  State "state" None demo_magic false (demo_vars v s) true true true raw store [].

Definition dev : memfile := MemFile (replicate 128 Init.Byte.x00) 0.

(** Well-formedness of a stride, decided. *)
Definition wf_dec (v : list byte) (s : direct) : bool :=
  (0 <=? d_offset s) && (8 <? d_max_size s) && (d_max_size s <? 2 ^ 32) &&
  (d_offset s + d_max_size s <=? Z.of_nat (length v)) &&
  (negb (meta_magic (header v s) =? direct_magic) ||
   (8 + meta_written_length (header v s) <=? d_max_size s)).

Lemma wf_dec_ok v s : wf_dec v s = true -> direct_wf v s.
Proof.
  unfold wf_dec. intros H. bool_prop. split; [unfold stride_ok; lia|]. intros Hm.
  rewrite Hm in *. match goal with H : _ || _ = true |- _ => cbn in H end. bool_prop. done.
Qed.

Lemma opened_dec v (b : bucket direct) :
  wf_dec v (priv b) && match buf b with None => true | _ => false end && (len b =? 0) &&
  negb (needs_refresh b) = true -> opened (W := memfile) (view := mf_bytes) (bstat := id) v b.
Proof.
  intros H. bool_prop. split; [by apply wf_dec_ok|]. split; [exact I|].
  destruct (buf b); done.
Qed.

Lemma demo_saveable : saveable (view := mf_bytes) (bstat := id) dev (st 5 "abc").
Proof.
  unfold saveable. split; [|split; [|split; [|split; [|split; [|split; [|split; [|split;
    [|split; [|split]]]]]]]]]; try reflexivity; try discriminate.
  - do 2 (apply Forall_cons; split; [apply wf_dec_ok; vm_compute; reflexivity|]). constructor.
  - cbn. unfold direct_indep. cbn. split_and!; repeat constructor; cbn; lia.
  - apply demo_layout.
  - cbn. unfold demo_magic. lia.
  - do 2 (apply Forall_cons; split; [cbn; unfold var_end; cbn; lia|]). constructor.
Qed.

(** The device after saving. *)
Definition saved : memfile := snd (fst (state_save dev (st 5 "abc"))).

Lemma demo_rebooted : rebooted (view := mf_bytes) (bstat := id) saved (st 5 "abc") (st 0 "other").
Proof.
  split; [reflexivity|]. split; [|split; [reflexivity|split; [reflexivity|apply demo_same]]].
  do 2 (apply Forall_cons; split; [apply opened_dec; vm_compute; reflexivity|]). constructor.
Qed.

Lemma state_save_load_witness :
  fst (fst (state_save dev (st 5 "abc"))) = 0 /\
  exists w3 s3, state_load saved (st 0 "other") = (0, w3, s3) /\
    map var_bytes (variables s3) = map var_bytes (demo_vars 5 "abc").
Proof.
  destruct (state_save_load (view := mf_bytes) (bstat := id) false dev (st 5 "abc")
    (fst (fst (state_save dev (st 5 "abc")))) saved (snd (state_save dev (st 5 "abc")))
    saved (st 0 "other")) as (Hr & _ & w3 & s3 & El & Hv & _).
  - apply demo_saveable.
  - unfold saved. by destruct (state_save dev (st 5 "abc")) as [[? ?] ?].
  - reflexivity.
  - apply demo_rebooted.
  - split; [exact Hr|]. exists w3, s3. split; [exact El|exact Hv].
Defined.

(** A device tree with two variables. *)
Definition reg (start size : Z) : property :=
  Property "reg" (Some (concat (map (be_bytes 4) [start; size]))).

Definition tree : device_node :=
  Node "state" "/state" [Property "magic" (Some (be_bytes 4 demo_magic))]
    [ Node "boot" "/state/boot" []
        [Node "name@8" "/state/boot/name@8"
           [Property "type" (Some (cstr_bytes "string")); reg 8 8;
            Property "default" (Some (cstr_bytes "abc"))] []];
      Node "attempts@0" "/state/attempts@0"
        [Property "type" (Some (cstr_bytes "uint32")); reg 0 4;
         Property "default" (Some (be_bytes 4 3))] [] ].

Definition empty_state : state unit unit :=
  state_new "state" tt (Storage [] None 0 0 0 String.EmptyString false).

Definition created : Z * state unit unit := Eval vm_compute in state_from_node empty_state tree true.

Lemma state_from_node_layout_witness :
  fst created = 0 /\ map sv_name (variables (snd created)) = ["attempts"%string; "boot.name"%string] /\
  pairwise (fun a b => var_end a <= sv_start b) (variables (snd created)).
Proof.
  destruct (state_from_node_layout empty_state tree (snd created)) as (_ & _ & Hp).
  - reflexivity.
  - vm_compute. reflexivity.
  - split; [reflexivity|]. split; [reflexivity|]. apply Hp.
    apply Forall_cons. split; [cbn; unfold no_wrap; cbn; lia|].
    apply Forall_cons. split; [cbn; unfold no_wrap; cbn; lia|]. constructor.
Defined.

(** The overlap check wraps around: these two overlapping variables pass. *)
Example overlap_check_wraps :
  let big := StateVariable STATE_VARIABLE_TYPE_STRING "a" 0xfffffff0 32
    (state_string None None (replicate 32 Init.Byte.x00)) in
  let sv := StateVariable STATE_VARIABLE_TYPE_UINT32 "b" 0xfffffff4 4 (state_uint32 0 0) in
  overlap_check big [sv] = 0 /\ sv_start sv < var_end big.
Proof. vm_compute. done. Qed.

(** ** Instances of the redundancy theorems *)

(** The device after saving, with the first copy damaged. *)
Definition damaged : memfile :=
  MemFile (write_at (mf_bytes saved) 24 (map byte_of [7; 7; 7])) 0.

Definition read_back : res (list byte * Z) * memfile * storage direct * state_backend_format_raw toy :=
  Eval vm_compute in state_storage_read damaged store raw demo_magic 0.

Lemma store_indep : pairwise indep (map (place (bstat := id)) (buckets store)).
Proof. cbn. unfold direct_indep. cbn. split_and!; repeat constructor; cbn; lia. Qed.

Lemma damaged_opened :
  Forall (opened (W := memfile) (view := mf_bytes) (bstat := id) (mf_bytes damaged)) (buckets store).
Proof. do 2 (apply Forall_cons; split; [apply opened_dec; vm_compute; reflexivity|]). constructor. Qed.

Lemma store_fits n :
  0 < Z.of_nat n <= 56 -> Forall (fun p => fits p n) (map (place (bstat := id)) (buckets store)).
Proof. intros H. do 2 (apply Forall_cons; split; [cbn; lia|]). constructor. Qed.


(** The packed states before and after an update. *)
Definition image (v : Z) : list byte :=
  match backend_format_raw_pack raw demo_magic (demo_vars v "abc") with
  | (Ok b, _) => b
  | _ => []
  end.

Lemma saved_stored :
  Forall (fun p => stored (mf_bytes saved) p (image 5)) (map (place (bstat := id)) (buckets store)).
Proof.
  do 2 (apply Forall_cons; split;
    [split; [apply wf_dec_ok; vm_compute; reflexivity
            |vm_compute; repeat split; discriminate || reflexivity]|]).
  constructor.
Qed.

Lemma damaged_frame s d :
  indep (DirectBucket 0 64) s -> stored (mf_bytes saved) s d -> stored (mf_bytes damaged) s d.
Proof.
  intros Hi [Hw Hst].
  destruct (direct_write_frame false (mf_bytes saved) (mf_bytes damaged) (DirectBucket 0 64) s)
    as [Hw2 Hst2]; try done.
  - intros o n Hon. unfold damaged, off_of in *. cbn [mf_bytes d_offset d_max_size] in *.
    assert (Hl : length (mf_bytes saved) = 128%nat) by (vm_compute; reflexivity).
    assert (Hl3 : length (map byte_of [7; 7; 7]) = 3%nat) by reflexivity.
    destruct Hon as [Hb|Ha].
    + apply read_write_at_before; rewrite ?Hl, ?Hl3; lia.
    + apply read_write_at_after; rewrite ?Hl, ?Hl3; lia.
  - split; [exact Hw2|by apply Hst2].
Qed.

Lemma image_valid v : v = 5 \/ v = 6 -> valid raw demo_magic 0 (image v).
Proof. intros [-> | ->]; exists raw; vm_compute; reflexivity. Qed.

Lemma image_length v : v = 5 \/ v = 6 -> length (image v) = 32%nat.
Proof. intros [-> | ->]; vm_compute; reflexivity. Qed.

Lemma damaged_rejected b d n n' f' :
  buckets store !! 0%nat = Some b -> rd_data (bread damaged (priv b)) = Some (d, n) ->
  verify raw demo_magic d n 0 = (0, n', f') -> False.
Proof.
  intros Hb. cbn in Hb. injection Hb as <-. intros Hd. vm_compute in Hd. injection Hd as <- <-.
  intros Hv. vm_compute in Hv. discriminate.
Qed.

Lemma state_storage_write_atomic_witness :
  exists d n w'' st'' f'',
    state_storage_read damaged store raw demo_magic 0 = (Ok (d, n), w'', st'', f'') /\
    take (Z.to_nat n) d = image 5.
Proof.
  destruct (state_storage_write_atomic (view := mf_bytes) (bstat := id) saved (buckets store)
    (image 5) (image 6) raw raw demo_magic 0 0 (mf_bytes damaged) damaged store)
    as (d & n & w'' & st'' & f'' & E & H).
  - do 2 (apply Forall_cons; split; [apply wf_dec_ok; vm_compute; reflexivity|]). constructor.
  - apply store_indep.
  - cbn. lia.
  - rewrite image_length by (by right). apply store_fits. lia.
  - apply saved_stored.
  - reflexivity.
  - apply image_valid. by left.
  - apply image_valid. by right.
  - apply (crash_at _ _ _ _ _ 0%nat saved [] (bkt 0)); [reflexivity|reflexivity|].
    apply damaged_frame.
  - reflexivity.
  - reflexivity.
  - apply damaged_opened.
  - reflexivity.
  - exists d, n, w'', st'', f''. split; [exact E|].
    destruct H as [H|(b & n0 & g & Hb & Hd & Hv)]; [exact H|]. destruct (damaged_rejected b d n0 n g Hb Hd Hv).
Defined.

End Demo.

End State.
