(* ===== verification/Bootchooser.v ===== *)
(** * The boot chooser (common/bootchooser.c)

    Chooses the target to boot by priority and remaining attempts, which live
    in variables of a state (or in non-volatile variables) so that they survive
    a reset.  The environment, the state and the boot entries are interfaces:
    [EnvOps] is getenv, setenv, nvvar_add, nvvar_save, state_by_name and
    state_save, [BootOps] the boot entries of common/boot.c and the global
    variable with the kernel arguments.  The state is referred to by its name.

    A target is referred to by its [id], which is unique in the list; the
    pointer [last_chosen] is such an id.  The file-level variables of the
    source are the record [globals]. *)

From stdpp Require Import base list strings.
From Stdlib Require Import ZArith Lia.
From Stdlib Require Import Strings.Ascii Sorting.Sorted Sorting.Permutation.
From S2P Require Import Prelude Strtox.
Import Strtox.

Module Bootchooser.

Definition BOOTCHOOSER_PREFIX : string := "global.bootchooser".

Record bootchooser_target := Target {
  priority : Z;
  remaining_attempts : Z;
  id : Z;
  name : string;
  default_attempts : Z;
  default_priority : Z;
  boot : string;
  prefix : string;
  t_state_prefix : string
}.

Record bootchooser := Bc {
  targets : list bootchooser_target;
  last_chosen : option Z;
  bc_state : option string;
  bc_state_prefix : string;
  refs : Z;
  bc_attempts_locked : bool;
  verbose : Z;
  dryrun : Z
}.

Inductive reset_src_type :=
| RESET_UKWN | RESET_POR | RESET_RST | RESET_WDG | RESET_WKE | RESET_JTAG
| RESET_THERM | RESET_EXT | RESET_BROWNOUT.

#[export] Instance reset_src_type_eq_dec : EqDecision reset_src_type.
Proof. solve_decision. Defined.

Record globals := Globals {
  available_targets : string;
  state_prefix : string;
  global_default_attempts : Z;
  global_default_priority : Z;
  disable_on_zero_attempts : bool;
  retry : bool;
  last_boot_successful : bool;
  attempts_locked : bool;
  reset_attempts : Z;
  reset_priorities : Z;
  attempts_resetted : bool;
  the_bootchooser : option bootchooser
}.

Definition RESET_ATTEMPTS_POWER_ON : Z := 0.
Definition RESET_ATTEMPTS_ALL_ZERO : Z := 1.
Definition RESET_ATTEMPTS_SRC_RST : Z := 2.
Definition RESET_PRIORITIES_ALL_ZERO : Z := 0.

(** ** Interfaces *)

Class EnvOps (W : Type) := {
  getenv : W -> string -> option string;
  setenv : W -> string -> string -> Z * W;
  nvvar_add : W -> string -> string -> Z * W;
  nvvar_save : W -> Z * W;
  env_state_by_name : W -> string -> bool;
  env_state_save : W -> string -> Z * W;
  reset_source_get : W -> reset_src_type
}.

Class BootOps (W E : Type) := {
  bootentry_create_from_name : W -> string -> Z * list E * W;
  boot_entry : W -> E -> Z -> Z -> Z * W;
  bootm_merge_overrides : E -> E -> E;
  set_bootargs : W -> option string -> W
}.

(** ** Updates *)

Definition set_prio (t : bootchooser_target) (p : Z) : bootchooser_target :=
  let 'Target _ a i n da dp b px sp := t in Target p a i n da dp b px sp.
Definition set_att (t : bootchooser_target) (a : Z) : bootchooser_target :=
  let 'Target p _ i n da dp b px sp := t in Target p a i n da dp b px sp.
Definition set_id (t : bootchooser_target) (i : Z) : bootchooser_target :=
  let 'Target p a _ n da dp b px sp := t in Target p a i n da dp b px sp.

Definition set_targets (bc : bootchooser) (ts : list bootchooser_target) : bootchooser :=
  let 'Bc _ lc s sp r l v d := bc in Bc ts lc s sp r l v d.
Definition set_last_chosen (bc : bootchooser) (lc : option Z) : bootchooser :=
  let 'Bc ts _ s sp r l v d := bc in Bc ts lc s sp r l v d.
Definition set_refs (bc : bootchooser) (r : Z) : bootchooser :=
  let 'Bc ts lc s sp _ l v d := bc in Bc ts lc s sp r l v d.
Definition set_mode (bc : bootchooser) (v d : Z) : bootchooser :=
  let 'Bc ts lc s sp r l _ _ := bc in Bc ts lc s sp r l v d.

Definition set_bootchooser (g : globals) (bc : option bootchooser) : globals :=
  let 'Globals at_ sp da dp dz rt ls al ra rp ar _ := g in
  Globals at_ sp da dp dz rt ls al ra rp ar bc.
Definition set_resetted (g : globals) : globals :=
  let 'Globals at_ sp da dp dz rt ls al ra rp _ bc := g in
  Globals at_ sp da dp dz rt ls al ra rp true bc.
Definition set_last_boot (g : globals) (b : bool) : globals :=
  let 'Globals at_ sp da dp dz rt _ al ra rp ar bc := g in
  Globals at_ sp da dp dz rt b al ra rp ar bc.
Definition set_locked (g : globals) (b : bool) : globals :=
  let 'Globals at_ sp da dp dz rt ls _ ra rp ar bc := g in
  Globals at_ sp da dp dz rt ls b ra rp ar bc.

(** ** Targets *)

Definition bootchooser_target_ok (t : bootchooser_target) : bool :=
  if priority t =? 0 then false
  else if remaining_attempts t =? 0 then false
  else true.

Definition bootchooser_target_compare (a b : bootchooser_target) : Z :=
  if priority b <=? priority a then -1 else 1.

Definition bootchooser_target_disable (t : bootchooser_target) : bootchooser_target :=
  set_att (set_prio t 0) 0.

Definition bootchooser_target_enabled (t : bootchooser_target) : bool := negb (priority t =? 0).

Definition bootchooser_target_set_attempts (t : bootchooser_target) (attempts : Z)
  : bootchooser_target :=
  if 0 <=? attempts then set_att t attempts else set_att t (default_attempts t).

Definition bootchooser_target_set_priority (t : bootchooser_target) (prio : Z)
  : bootchooser_target :=
  if 0 <=? prio then set_prio t prio else set_prio t (default_priority t).

Fixpoint find_target (p : bootchooser_target -> bool) (ts : list bootchooser_target)
  : option bootchooser_target :=
  match ts with
  | [] => None
  | t :: ts => if p t then Some t else find_target p ts
  end.

(** The comparison converts the [int] id to [uint32_t]. *)
Definition bootchooser_target_by_id (bc : bootchooser) (i : Z) : option bootchooser_target :=
  find_target (fun t => u32 (id t) =? i) (targets bc).

Definition bootchooser_target_by_name (bc : bootchooser) (n : string)
  : option bootchooser_target :=
  find_target (fun t => bool_decide (name t = n)) (targets bc).

Definition bootchooser_reset_attempts (bc : bootchooser) : bootchooser :=
  set_targets bc
    (map (fun t => if bootchooser_target_enabled t
                   then bootchooser_target_set_attempts t (-1) else t) (targets bc)).

Definition bootchooser_reset_priorities (bc : bootchooser) : bootchooser :=
  set_targets bc (map (fun t => bootchooser_target_set_priority t (-1)) (targets bc)).

(** Change the target a pointer refers to. *)
Definition update_target (bc : bootchooser) (i : Z)
    (f : bootchooser_target -> bootchooser_target) : bootchooser :=
  set_targets bc (map (fun t => if id t =? i then f t else t) (targets bc)).

Definition bootchooser_target_first (bc : bootchooser) : option bootchooser_target :=
  head (targets bc).

Fixpoint next_after (i : Z) (ts : list bootchooser_target) : option bootchooser_target :=
  match ts with
  | [] => None
  | t :: ts => if id t =? i then head ts else next_after i ts
  end.

Definition bootchooser_target_next (bc : bootchooser) (t : bootchooser_target)
  : option bootchooser_target := next_after (id t) (targets bc).

Definition bootchooser_get_last_chosen (bc : bootchooser) : res bootchooser_target :=
  match last_chosen bc with
  | None => Err (- ENODEV)
  | Some i =>
      match find_target (fun t => id t =? i) (targets bc) with
      | Some t => Ok t
      | None => Err (- ENODEV)
      end
  end.

Definition bootchooser_last_boot_successful (g : globals) : globals := set_last_boot g true.

Definition bootchooser_lock_attempts (g : globals) (locked : bool) : globals := set_locked g locked.

(** ** Strings *)

(** [strsep] with one delimiter: the token and the rest, if any. *)
Fixpoint strsep (delim : ascii) (s : string) : string * option string :=
  match s with
  | EmptyString => (EmptyString, None)
  | String a s =>
      if bool_decide (a = delim) then (EmptyString, Some s)
      else let '(tok, rest) := strsep delim s in (String a tok, rest)
  end.

(** The part of [str] before the first '=' and the value behind it. *)
Fixpoint parse_assignment (str : string) : option (string * string) :=
  match str with
  | EmptyString => None
  | String a s =>
      if bool_decide (a = "="%char) then Some (EmptyString, s)
      else match parse_assignment s with
           | Some (k, v) => Some (String a k, v)
           | None => None
           end
  end.

(** [%d] of a 32-bit argument. *)
Definition fmt_d (z : Z) : string := number (u64 (s32 z)) 10 (-1) (-1) SIGN.

Section Operations.

Context {W E : Type} `{!EnvOps W} `{!BootOps W E}.
Context (CONFIG_STATE : bool).

(** ** Variables *)

Definition bc_setenv (w : W) (bc : bootchooser) (str : string) : Z * W :=
  match parse_assignment str with
  | None => (- EINVAL, w)
  | Some (str, val) =>
      let differs := match getenv w str with
                     | None => true
                     | Some oldval => negb (bool_decide (oldval = val))
                     end in
      if differs then
        match bc_state bc with
        | Some _ => setenv w str val
        | None => nvvar_add w str val
        end
      else (0, w)
  end.

Definition bc_getenv (w : W) (str : string) : option string := getenv w str.

Definition getenv_u32 (w : W) (prefix name : string) : option Z :=
  match getenv w (prefix +:+ "." +:+ name) with
  | None => None
  | Some val => Some (u32 (fst (simple_strtoul val 0)))
  end.

Definition bootchooser_target_new (g : globals) (w : W) (bc : bootchooser) (name : string)
  : bootchooser_target :=
  let prefix := BOOTCHOOSER_PREFIX +:+ "." +:+ name in
  let state_prefix := bc_state_prefix bc +:+ "." +:+ name in
  let default_priority :=
    default (u32 (global_default_priority g)) (getenv_u32 w prefix "default_priority") in
  let default_attempts :=
    default (u32 (global_default_attempts g)) (getenv_u32 w prefix "default_attempts") in
  let priority := default default_priority (getenv_u32 w state_prefix "priority") in
  let remaining_attempts :=
    default default_attempts (getenv_u32 w state_prefix "remaining_attempts") in
  let remaining_attempts :=
    if negb (remaining_attempts =? 0) && (priority =? 0) then 0 else remaining_attempts in
  let boot := default name (bc_getenv w (prefix +:+ ".boot")) in
  Target priority remaining_attempts 0 name default_attempts default_priority boot
    prefix state_prefix.

(** ** bootchooser_get *)

(** The loop over the target names; every round but the last consumes a
    character of the list. *)
Fixpoint target_loop (fuel : nat) (g : globals) (w : W) (bc : bootchooser)
    (list_str : option string) (next_id : Z) (ts : list bootchooser_target)
  : list bootchooser_target * Z :=
  match fuel, list_str with
  | S fuel, Some s =>
      let '(str, rest) := strsep " " s in
      if bool_decide (str = EmptyString) then (ts, next_id)
      else
        let target := set_id (bootchooser_target_new g w bc str) next_id in
        target_loop fuel g w bc rest (next_id + 1)
          (list_add_sort bootchooser_target_compare target ts)
  | _, _ => (ts, next_id)
  end.

(** The sums of the checks for "all zero" are [int]s. *)
Definition sum_int (f : bootchooser_target -> Z) (ts : list bootchooser_target) : Z :=
  fold_left (fun acc t => s32 (u32 (acc + f t))) ts 0.

Definition reset_all_zero_priorities (g : globals) (bc : bootchooser) : bootchooser :=
  if Z.testbit (reset_priorities g) RESET_PRIORITIES_ALL_ZERO then
    if sum_int priority (targets bc) =? 0 then bootchooser_reset_priorities bc else bc
  else bc.

Definition reset_on_source (g : globals) (w : W) (bit : Z) (src : reset_src_type)
    (bc : bootchooser) : globals * bootchooser :=
  if Z.testbit (reset_attempts g) bit && bool_decide (reset_source_get w = src) &&
     negb (attempts_resetted g)
  then (set_resetted g, bootchooser_reset_attempts bc) else (g, bc).

Definition reset_all_zero_attempts (g : globals) (bc : bootchooser) : bootchooser :=
  if Z.testbit (reset_attempts g) RESET_ATTEMPTS_ALL_ZERO then
    if sum_int remaining_attempts (targets bc) =? 0 then bootchooser_reset_attempts bc else bc
  else bc.

Definition find_last_chosen (w : W) (bc : bootchooser) : bootchooser :=
  match getenv_u32 w (bc_state_prefix bc) "last_chosen" with
  | Some lc =>
      if 0 <? lc
      then set_last_chosen bc (option_map id (bootchooser_target_by_id bc lc)) else bc
  | None => bc
  end.

Definition reward_last_chosen (g : globals) (bc : bootchooser) : bootchooser :=
  match last_chosen bc with
  | Some i =>
      if last_boot_successful g
      then update_target bc i (fun t => bootchooser_target_set_attempts t (-1)) else bc
  | None => bc
  end.

Definition disable_exhausted (g : globals) (bc : bootchooser) : bootchooser :=
  if disable_on_zero_attempts g then
    set_targets bc
      (map (fun t => if remaining_attempts t =? 0 then bootchooser_target_disable t else t)
           (targets bc))
  else bc.

(** Where the variables are kept: the state and the prefix of their names. *)
Definition variable_store (g : globals) (w : W) : res (option string * string) :=
  if negb (bool_decide (state_prefix g = EmptyString)) then
    if CONFIG_STATE then
      let state_devname := fst (strsep "." (state_prefix g)) in
      if env_state_by_name w state_devname
      then Ok (Some state_devname, state_prefix g) else Err (- ENODEV)
    else Err (- ENODEV)
  else Ok (None, "nv.bootchooser"%string).

(** What happens to the targets once they are read. *)
Definition bootchooser_prepare (g : globals) (w : W) (bc : bootchooser) : globals * bootchooser :=
  let bc := reset_all_zero_priorities g bc in
  let '(g, bc) := reset_on_source g w RESET_ATTEMPTS_POWER_ON RESET_POR bc in
  let '(g, bc) := reset_on_source g w RESET_ATTEMPTS_SRC_RST RESET_RST bc in
  let bc := reset_all_zero_attempts g bc in
  let bc := find_last_chosen w bc in
  let bc := reward_last_chosen g bc in
  (g, disable_exhausted g bc).

Definition bootchooser_get (g : globals) (w : W) : res bootchooser * globals :=
  match the_bootchooser g with
  | Some bc => let bc := set_refs bc (refs bc + 1) in (Ok bc, set_bootchooser g (Some bc))
  | None =>
      match variable_store g w with
      | Err ret => (Err ret, g)
      | Ok (st, sp) =>
          let locked := match getenv_u32 w sp "attempts_locked" with
                        | Some l => negb (l =? 0) || attempts_locked g
                        | None => attempts_locked g
                        end in
          let bc := Bc [] None st sp 0 locked 0 0 in
          let '(ts, next_id) :=
            target_loop (S (String.length (available_targets g))) g w bc
              (Some (available_targets g)) 1 [] in
          if next_id =? 1 then (Err (- EINVAL), g)
          else if bool_decide (ts = []) then (Err (- EINVAL), g)
          else
            let '(g, bc) := bootchooser_prepare g w (set_targets bc ts) in
            let bc := set_refs bc 1 in
            (Ok bc, set_bootchooser g (Some bc))
      end
  end.

(** ** Saving and releasing *)

Fixpoint save_targets (w : W) (bc : bootchooser) (ts : list bootchooser_target) : Z * W :=
  match ts with
  | [] => (0, w)
  | t :: ts =>
      let '(ret, w) :=
        bc_setenv w bc (t_state_prefix t +:+ ".remaining_attempts=" +:+ fmt_d (remaining_attempts t)) in
      if negb (ret =? 0) then (ret, w)
      else
        let '(ret, w) :=
          bc_setenv w bc (t_state_prefix t +:+ ".priority=" +:+ fmt_d (priority t)) in
        if negb (ret =? 0) then (ret, w) else save_targets w bc ts
  end.

Definition bootchooser_save (w : W) (bc : bootchooser) : Z * W :=
  let w := match last_chosen bc with
           | Some i => snd (bc_setenv w bc (bc_state_prefix bc +:+ ".last_chosen=" +:+ fmt_d i))
           | None => w
           end in
  let '(ret, w) := save_targets w bc (targets bc) in
  if negb (ret =? 0) then (ret, w)
  else match bc_state bc with
       | Some st => if CONFIG_STATE then env_state_save w st else nvvar_save w
       | None => nvvar_save w
       end.

Definition bootchooser_put (g : globals) (w : W) (bc : bootchooser) : Z * globals * W :=
  let bc := set_refs bc (refs bc - 1) in
  if negb (refs bc =? 0) then (0, set_bootchooser g (Some bc), w)
  else let '(ret, w) := bootchooser_save w bc in (ret, set_bootchooser g None, w).

(** ** Booting *)

(** "This is the heart of the bootchooser." *)
Definition bootchooser_get_target (w : W) (bc : bootchooser)
  : res bootchooser_target * W * bootchooser :=
  match find_target bootchooser_target_ok (targets bc) with
  | None => (Err (- ENOENT), w, bc)
  | Some t =>
      let t := if negb (bc_attempts_locked bc)
               then set_att t (u32 (remaining_attempts t - 1)) else t in
      let bc := update_target bc (id t) (fun _ => t) in
      let bc := set_last_chosen bc (Some (id t)) in
      let '(_, w) := bootchooser_save w bc in
      (Ok t, w, bc)
  end.

(** The boot entries of a target in turn, until one succeeds. *)
Fixpoint boot_entries (w : W) (bc : bootchooser) (parent_entry : option E) (ret : Z)
    (entries : list E) : Z * bool * W :=
  match entries with
  | [] => (ret, true, w)
  | entry :: entries =>
      let entry := match parent_entry with
                   | Some p => bootm_merge_overrides entry p
                   | None => entry
                   end in
      let '(ret, w) := boot_entry w entry (verbose bc) (dryrun bc) in
      if ret =? 0 then (ret, false, w) else boot_entries w bc parent_entry ret entries
  end.

(** Result, [tryagain], and the changed objects. *)
Definition bootchooser_boot_one (g : globals) (w : W) (bc : bootchooser)
    (parent_entry : option E) : Z * bool * globals * W * bootchooser :=
  match bootchooser_get_target w bc with
  | (Err ret, w, bc) => (ret, false, g, set_bootargs w None, bc)
  | (Ok target, w, bc) =>
      let w := set_bootargs w (Some ("bootchooser.active=" +:+ name target)) in
      let '(ret, entries, w) := bootentry_create_from_name w (boot target) in
      if ret <=? 0 then (- ENODEV, true, g, set_bootargs w None, bc)
      else
        let g := set_last_boot g false in
        let '(ret, tryagain, w) := boot_entries w bc parent_entry (- ENOENT) entries in
        (ret, tryagain, g, set_bootargs w None, bc)
  end.

(** [None] when the fuel does not suffice. *)
Fixpoint bootchooser_boot (fuel : nat) (g : globals) (w : W) (bc : bootchooser)
    (entry : option E) : option (Z * globals * W * bootchooser) :=
  match fuel with
  | O => None
  | S fuel =>
      let '(ret, tryagain, g, w, bc) := bootchooser_boot_one g w bc entry in
      if negb (retry g) then Some (ret, g, w, bc)
      else if tryagain then bootchooser_boot fuel g w bc entry
      else Some (ret, g, w, bc)
  end.

Definition bootchooser_entry_boot (fuel : nat) (g : globals) (w : W) (entry : option E)
    (v d : Z) : option (Z * globals * W) :=
  match bootchooser_get g w with
  | (Err ret, g) => Some (ret, g, w)
  | (Ok bc, g) =>
      match bootchooser_boot fuel g w (set_mode bc v d) entry with
      | None => None
      | Some (ret, g, w, bc) =>
          let '(_, g, w) := bootchooser_put g w bc in Some (ret, g, w)
      end
  end.

(** The number of entries added, or an error. *)
Definition bootchooser_add_entry (g : globals) (w : W) (name : string) : Z * globals * W :=
  if negb (bool_decide (name = "bootchooser"%string)) then (0, g, w)
  else
    match bootchooser_get g w with
    | (Err ret, g) => (ret, g, w)
    | (Ok bc, g) => let '(_, g, w) := bootchooser_put g w bc in (1, g, w)
    end.

End Operations.

(** ** Order of the targets *)

(** [t] is tried before [u]: higher priority first, then configuration order. *)
Definition boot_order (t u : bootchooser_target) : Prop :=
  priority u < priority t \/ priority t = priority u /\ id t < id u.

#[export] Instance boot_order_trans : Transitive boot_order.
Proof. intros a b c. unfold boot_order. lia. Qed.

(** A target as [bootchooser_target_new] leaves it. *)
Definition fresh_target (t : bootchooser_target) : Prop :=
  0 <= priority t < 2 ^ 32 /\ 0 <= remaining_attempts t < 2 ^ 32 /\
  0 <= default_attempts t < 2 ^ 32 /\ 0 <= default_priority t < 2 ^ 32 /\
  (priority t = 0 -> remaining_attempts t = 0).

(** What later steps keep: identity, and the priority unless disabled. *)
Definition keeps (t t' : bootchooser_target) : Prop :=
  id t' = id t /\ name t' = name t /\ t_state_prefix t' = t_state_prefix t /\
  default_attempts t' = default_attempts t /\ default_priority t' = default_priority t /\
  (priority t' = priority t \/ priority t' = 0) /\
  (0 <= remaining_attempts t < 2 ^ 32 -> 0 <= default_attempts t < 2 ^ 32 ->
   0 <= remaining_attempts t' < 2 ^ 32).

#[export] Instance keeps_refl : Reflexive keeps.
Proof. intros t. unfold keeps. tauto. Qed.

#[export] Instance keeps_trans : Transitive keeps.
Proof.
  intros a b c (? & ? & ? & Hd & ? & Hp & Hr) (? & ? & ? & ? & ? & Hp' & Hr').
  unfold keeps. rewrite Hd in Hr'. split_and!; try congruence; [|tauto].
  destruct Hp' as [-> | ?]; [done|by right].
Qed.

Lemma ok_spec t :
  bootchooser_target_ok t = true <-> priority t <> 0 /\ remaining_attempts t <> 0.
Proof.
  unfold bootchooser_target_ok.
  destruct (Z.eqb_spec (priority t) 0), (Z.eqb_spec (remaining_attempts t) 0);
    split; intros; tauto || done.
Qed.

Lemma find_target_Some p ts t :
  find_target p ts = Some t -> exists l r, ts = l ++ t :: r /\ p t = true /\ Forall (fun u => p u = false) l.
Proof.
  induction ts as [|u ts IH]; cbn; [done|]. destruct (p u) eqn:E.
  - intros [= ->]. by exists [], ts.
  - intros (l & r & -> & Ht & Hl)%IH. exists (u :: l), r. by repeat constructor.
Qed.

Lemma find_target_None p ts :
  find_target p ts = None -> Forall (fun u => p u = false) ts.
Proof.
  induction ts as [|u ts IH]; cbn; [constructor|]. destruct (p u) eqn:E; [done|].
  intros H. constructor; [done|by apply IH].
Qed.

(** Inserting the next configured target keeps the order. *)
Lemma insert_sorted t ts :
  StronglySorted boot_order ts -> Forall (fun u => id u < id t) ts ->
  StronglySorted boot_order (list_add_sort bootchooser_target_compare t ts).
Proof.
  induction 1 as [|u ts Hs IH Hu]; intros Hid; cbn [list_add_sort]; [repeat constructor|].
  apply Forall_cons_1 in Hid as [Hut Hid]. unfold bootchooser_target_compare at 1.
  destruct (Z.leb_spec (priority t) (priority u)) as [Hp|Hp]; cbn [Z.ltb Z.compare].
  - constructor; [by apply IH|].
    rewrite (list_add_sort_perm bootchooser_target_compare t ts).
    constructor; [unfold boot_order; lia|done].
  - assert (boot_order t u) by (unfold boot_order; lia).
    constructor; [by constructor|]. constructor; [done|].
    eapply Forall_impl; [exact Hu|]. intros v Hv. by etrans.
Qed.

(** Later steps keep the order among the targets that can be booted. *)
Lemma keeps_sorted ts ts' :
  StronglySorted boot_order ts -> Forall2 keeps ts ts' ->
  StronglySorted boot_order (List.filter bootchooser_target_ok ts').
Proof.
  intros Hs H2. induction H2 as [|t t' ts ts' Ht H2 IH]; cbn; [constructor|].
  apply StronglySorted_inv in Hs as [Hs Hts].
  destruct (bootchooser_target_ok t') eqn:E; [|by apply IH].
  constructor; [by apply IH|]. apply ok_spec in E as [Hp _].
  apply Forall_forall. intros u' Hu'. apply list_elem_of_In, filter_In in Hu' as [Hu' Eu].
  apply ok_spec in Eu as [Hpu _].
  apply list_elem_of_In, list_elem_of_lookup in Hu' as [i Hi].
  destruct (Forall2_lookup_r _ _ _ _ _ H2 Hi) as (u & Hu & Hk).
  pose proof (Forall_lookup_1 _ _ _ _ Hts Hu) as Ho.
  destruct Ht as (Hid & _ & _ & _ & _ & Hpt & _), Hk as (Hid' & _ & _ & _ & _ & Hpu' & _).
  unfold boot_order in *. lia.
Qed.

(** ** Targets of a new boot chooser *)

Section Get.

Context {W : Type} `{!EnvOps W}.
Context (CONFIG_STATE : bool).

Lemma getenv_u32_range w p n z : getenv_u32 w p n = Some z -> 0 <= z < 2 ^ 32.
Proof.
  unfold getenv_u32. destruct (getenv w _); [|done]. intros [= <-]. apply u32_range.
Qed.

Lemma default_u32_range w p n z : 0 <= z < 2 ^ 32 -> 0 <= default z (getenv_u32 w p n) < 2 ^ 32.
Proof. intros Hz. destruct (getenv_u32 w p n) eqn:E; [by eapply getenv_u32_range|done]. Qed.

Lemma target_new_fresh g w bc n i : fresh_target (set_id (bootchooser_target_new g w bc n) i).
Proof.
  unfold fresh_target, bootchooser_target_new. cbn [set_id priority remaining_attempts
    default_attempts default_priority]. pose proof (u32_range (global_default_priority g)).
  pose proof (u32_range (global_default_attempts g)).
  set (dp := default (u32 (global_default_priority g)) _).
  set (da := default (u32 (global_default_attempts g)) _).
  assert (0 <= dp < 2 ^ 32) by (by apply default_u32_range).
  assert (0 <= da < 2 ^ 32) by (by apply default_u32_range).
  set (p := default dp _). set (a := default da _).
  assert (0 <= p < 2 ^ 32) by (by apply default_u32_range).
  assert (0 <= a < 2 ^ 32) by (by apply default_u32_range).
  split_and!; try done; try lia.
  - destruct (_ && _); lia.
  - destruct (_ && _); lia.
  - intros ->. rewrite Z.eqb_refl, andb_true_r. destruct (Z.eqb_spec a 0); done.
Qed.

(** The names the loop picks, in order. *)
Fixpoint target_names (fuel : nat) (list_str : option string) : list string :=
  match fuel, list_str with
  | S fuel, Some s =>
      let '(str, rest) := strsep " " s in
      if bool_decide (str = EmptyString) then [] else str :: target_names fuel rest
  | _, _ => []
  end.

(** The targets for these names, numbered from [i]. *)
Fixpoint number_targets (g : globals) (w : W) (bc : bootchooser) (i : Z) (names : list string)
  : list bootchooser_target :=
  match names with
  | [] => []
  | n :: names => set_id (bootchooser_target_new g w bc n) i :: number_targets g w bc (i + 1) names
  end.

Lemma target_loop_perm fuel g w bc s i ts :
  fst (target_loop fuel g w bc s i ts) ≡ₚ ts ++ number_targets g w bc i (target_names fuel s) /\
  snd (target_loop fuel g w bc s i ts) = i + Z.of_nat (length (target_names fuel s)).
Proof.
  revert s i ts. induction fuel as [|fuel IH]; intros s i ts; cbn [target_loop target_names].
  { cbn. split; [by rewrite app_nil_r|lia]. }
  destruct s as [s|]; [|cbn; split; [by rewrite app_nil_r|lia]].
  destruct (strsep " " s) as [str rest].
  case_bool_decide; [cbn; split; [by rewrite app_nil_r|lia]|].
  destruct (IH rest (i + 1) (list_add_sort bootchooser_target_compare
    (set_id (bootchooser_target_new g w bc str) i) ts)) as [Hp Hl].
  rewrite Hp, Hl. cbn [number_targets length]. split; [|lia].
  rewrite list_add_sort_perm. cbn. by rewrite Permutation_middle.
Qed.

Lemma target_loop_sorted fuel g w bc s i ts :
  StronglySorted boot_order ts -> Forall (fun t => id t < i) ts ->
  StronglySorted boot_order (fst (target_loop fuel g w bc s i ts)).
Proof.
  revert s i ts. induction fuel as [|fuel IH]; intros s i ts Hs Hid; cbn [target_loop]; [done|].
  destruct s as [s|]; [|done]. destruct (strsep " " s) as [str rest].
  case_bool_decide; [done|]. apply IH.
  - by apply insert_sorted.
  - rewrite list_add_sort_perm. constructor; [cbn; lia|].
    eapply Forall_impl; [exact Hid|]. cbn. lia.
Qed.

Lemma number_targets_ids g w bc i names :
  Forall (fun t => i <= id t < i + Z.of_nat (length names) /\ fresh_target t) (number_targets g w bc i names)
  /\ NoDup (map id (number_targets g w bc i names)).
Proof.
  revert i. induction names as [|n names IH]; intros i; cbn [number_targets map length].
  { repeat constructor. }
  destruct (IH (i + 1)) as [Hall Hnd]. split; constructor; try done.
  - split; [cbn; lia|apply target_new_fresh].
  - eapply Forall_impl; [exact Hall|]. cbn. intros t [? ?]. split; [lia|done].
  - cbn [id set_id]. intros (u & E & Hu)%list_elem_of_In%in_map_iff. apply list_elem_of_In in Hu.
    pose proof (proj1 (Forall_forall _ _) Hall u Hu) as [? _].
    change (id (set_id (bootchooser_target_new g w bc n) i)) with i in E. lia.
Qed.

Lemma map_keeps (f : bootchooser_target -> bootchooser_target) ts :
  (forall t, keeps t (f t)) -> Forall2 keeps ts (map f ts).
Proof. intros H. induction ts; constructor; done. Qed.

Lemma targets_set bc ts : targets (set_targets bc ts) = ts.
Proof. by destruct bc. Qed.

Lemma targets_set_refs bc r : targets (set_refs bc r) = targets bc.
Proof. by destruct bc. Qed.

Lemma set_att_keeps t a :
  (0 <= remaining_attempts t < 2 ^ 32 -> 0 <= default_attempts t < 2 ^ 32 -> 0 <= a < 2 ^ 32) ->
  keeps t (set_att t a).
Proof. destruct t. unfold keeps; cbn. tauto. Qed.

Lemma reset_attempts_keeps bc : Forall2 keeps (targets bc) (targets (bootchooser_reset_attempts bc)).
Proof.
  unfold bootchooser_reset_attempts. rewrite targets_set. apply map_keeps. intros t.
  destruct (bootchooser_target_enabled t); [|done].
  change (keeps t (set_att t (default_attempts t))). apply set_att_keeps. tauto.
Qed.

Lemma reset_on_source_keeps g w b src bc :
  Forall2 keeps (targets bc) (targets (snd (reset_on_source g w b src bc))).
Proof.
  unfold reset_on_source. destruct (_ && _ && _); [apply reset_attempts_keeps|done].
Qed.

Lemma reset_all_zero_attempts_keeps g bc :
  Forall2 keeps (targets bc) (targets (reset_all_zero_attempts g bc)).
Proof.
  unfold reset_all_zero_attempts. destruct (Z.testbit _ _); [|done].
  destruct (_ =? 0); [apply reset_attempts_keeps|done].
Qed.

Lemma find_last_chosen_targets w bc : targets (find_last_chosen w bc) = targets bc.
Proof.
  unfold find_last_chosen. destruct (getenv_u32 _ _ _); [|done]. destruct (0 <? _); [|done].
  by destruct bc.
Qed.

Lemma reward_keeps g bc : Forall2 keeps (targets bc) (targets (reward_last_chosen g bc)).
Proof.
  unfold reward_last_chosen. destruct (last_chosen bc); [|done].
  destruct (last_boot_successful g); [|done]. unfold update_target. rewrite targets_set.
  apply map_keeps. intros t. destruct (id t =? _); [|done].
  change (keeps t (set_att t (default_attempts t))). apply set_att_keeps. tauto.
Qed.

Lemma disable_keeps g bc : Forall2 keeps (targets bc) (targets (disable_exhausted g bc)).
Proof.
  unfold disable_exhausted. destruct (disable_on_zero_attempts g); [|done].
  rewrite targets_set. apply map_keeps. intros t. destruct (_ =? 0); [|done].
  destruct t. unfold keeps; cbn. split_and!; done || lia || by right.
Qed.

Lemma bootchooser_get_new g w bc g' :
  the_bootchooser g = None -> bootchooser_get CONFIG_STATE g w = (Ok bc, g') ->
  exists st sp locked g1 bc1,
    variable_store CONFIG_STATE g w = Ok (st, sp) /\
    let names := target_names (S (String.length (available_targets g))) (Some (available_targets g)) in
    let bc0 := Bc [] None st sp 0 locked 0 0 in
    let ts := fst (target_loop (S (String.length (available_targets g))) g w bc0
                     (Some (available_targets g)) 1 []) in
    names <> [] /\ ts ≡ₚ number_targets g w bc0 1 names /\ StronglySorted boot_order ts /\
    bootchooser_prepare g w (set_targets bc0 ts) = (g1, bc1) /\
    bc = set_refs bc1 1 /\ g' = set_bootchooser g1 (Some bc).
Proof.
  intros Hg. unfold bootchooser_get. rewrite Hg.
  destruct (variable_store CONFIG_STATE g w) as [[st sp]|]; [|done].
  set (locked := match getenv_u32 w sp "attempts_locked" with Some l => _ | None => _ end).
  set (fuel := S (String.length (available_targets g))).
  set (bc0 := Bc [] None st sp 0 locked 0 0).
  destruct (target_loop_perm fuel g w bc0 (Some (available_targets g)) 1 []) as [Hp Hl].
  pose proof (target_loop_sorted fuel g w bc0 (Some (available_targets g)) 1 []
    ltac:(constructor) ltac:(constructor)) as Hs.
  destruct (target_loop fuel g w bc0 (Some (available_targets g)) 1 []) as [ts n] eqn:Eloop.
  cbn [fst snd] in *. destruct (Z.eqb_spec n 1) as [|Hn]; [done|].
  case_bool_decide as Hts; [done|].
  destruct (bootchooser_prepare g w (set_targets bc0 ts)) as [g1 bc1] eqn:Eprep.
  intros [= <- <-]. exists st, sp, locked, g1, bc1. split; [done|]. cbn zeta.
  fold fuel. fold bc0. rewrite Eloop. cbn [fst]. split_and!; try done.
  intros E. rewrite E in Hl. cbn in Hl. lia.
Qed.

End Get.

(** ** Well-formed boot choosers *)

(** What every step keeps, the reset of the priorities included. *)
Definition same (t t' : bootchooser_target) : Prop :=
  id t' = id t /\ name t' = name t /\ t_state_prefix t' = t_state_prefix t /\
  default_attempts t' = default_attempts t /\ default_priority t' = default_priority t /\
  (0 <= remaining_attempts t < 2 ^ 32 -> 0 <= default_attempts t < 2 ^ 32 ->
   0 <= remaining_attempts t' < 2 ^ 32).

#[export] Instance same_trans : Transitive same.
Proof.
  intros a b c (? & ? & ? & Hd & ? & Hr) (? & ? & ? & ? & ? & Hr').
  unfold same. rewrite Hd in Hr'. split_and!; try congruence. tauto.
Qed.

Lemma keeps_same ts ts' : Forall2 keeps ts ts' -> Forall2 same ts ts'.
Proof. induction 1; constructor; [unfold keeps, same in *; tauto|done]. Qed.

Lemma reset_all_zero_priorities_same g bc :
  Forall2 same (targets bc) (targets (reset_all_zero_priorities g bc)).
Proof.
  assert (Hr : Forall2 same (targets bc) (targets bc)) by (apply keeps_same; done).
  unfold reset_all_zero_priorities. destruct (Z.testbit _ _); [|done].
  destruct (_ =? 0); [|done]. unfold bootchooser_reset_priorities. rewrite targets_set. clear Hr.
  induction (targets bc) as [|t ts IH]; constructor; [|done]. destruct t; unfold same; cbn. tauto.
Qed.

(** Everything behind the reset of the priorities. *)
Definition prepare_rest {W} `{!EnvOps W} (g : globals) (w : W) (bc : bootchooser)
  : globals * bootchooser :=
  let '(g, bc) := reset_on_source g w RESET_ATTEMPTS_POWER_ON RESET_POR bc in
  let '(g, bc) := reset_on_source g w RESET_ATTEMPTS_SRC_RST RESET_RST bc in
  let bc := reset_all_zero_attempts g bc in
  let bc := find_last_chosen w bc in
  let bc := reward_last_chosen g bc in
  (g, disable_exhausted g bc).

Definition bc_wf (bc : bootchooser) : Prop :=
  NoDup (map id (targets bc)) /\ Forall (fun t => 0 <= remaining_attempts t < 2 ^ 32) (targets bc).

(** Where the variables are. *)
Definition fields (bc : bootchooser) : option string * string := (bc_state bc, bc_state_prefix bc).

Lemma fields_targets bc ts : fields (set_targets bc ts) = fields bc.
Proof. by destruct bc. Qed.

Section Get.

Context {W : Type} `{!EnvOps W}.
Context (CONFIG_STATE : bool).

Lemma prepare_rest_keeps g (w : W) bc :
  Forall2 keeps (targets bc) (targets (snd (prepare_rest g w bc))).
Proof.
  unfold prepare_rest.
  pose proof (reset_on_source_keeps g w RESET_ATTEMPTS_POWER_ON RESET_POR bc) as H1.
  destruct (reset_on_source g w _ RESET_POR bc) as [g1 bc1].
  pose proof (reset_on_source_keeps g1 w RESET_ATTEMPTS_SRC_RST RESET_RST bc1) as H2.
  destruct (reset_on_source g1 w _ RESET_RST bc1) as [g2 bc2]. cbn [snd] in *.
  etrans; [|apply disable_keeps]. etrans; [|apply reward_keeps].
  rewrite find_last_chosen_targets. etrans; [|apply reset_all_zero_attempts_keeps]. by etrans.
Qed.

Lemma prepare_keeps g (w : W) bc :
  Z.testbit (reset_priorities g) RESET_PRIORITIES_ALL_ZERO = false ->
  Forall2 keeps (targets bc) (targets (snd (bootchooser_prepare g w bc))).
Proof.
  intros Hp. change (bootchooser_prepare g w bc)
    with (prepare_rest g w (reset_all_zero_priorities g bc)).
  unfold reset_all_zero_priorities. rewrite Hp. apply prepare_rest_keeps.
Qed.

Lemma prepare_same g (w : W) bc :
  Forall2 same (targets bc) (targets (snd (bootchooser_prepare g w bc))).
Proof.
  change (bootchooser_prepare g w bc)
    with (prepare_rest g w (reset_all_zero_priorities g bc)).
  etrans; [apply reset_all_zero_priorities_same|]. apply keeps_same, prepare_rest_keeps.
Qed.

(** The steps leave the storage alone. *)
Lemma prepare_fields g (w : W) bc :
  fields (snd (bootchooser_prepare g w bc)) = fields bc.
Proof.
  unfold bootchooser_prepare.
  assert (H0 : fields (reset_all_zero_priorities g bc) = fields bc).
  { unfold reset_all_zero_priorities. repeat case_match; try done. apply fields_targets. }
  assert (Hsrc : forall g b src bc, fields (snd (reset_on_source g w b src bc)) = fields bc).
  { intros. unfold reset_on_source. case_match; [apply fields_targets|done]. }
  pose proof (Hsrc g RESET_ATTEMPTS_POWER_ON RESET_POR (reset_all_zero_priorities g bc)) as H1.
  destruct (reset_on_source g w _ RESET_POR _) as [g1 bc1].
  pose proof (Hsrc g1 RESET_ATTEMPTS_SRC_RST RESET_RST bc1) as H2.
  destruct (reset_on_source g1 w _ RESET_RST bc1) as [g2 bc2]. cbn [snd] in *.
  assert (H3 : fields (reset_all_zero_attempts g2 bc2) = fields bc2).
  { unfold reset_all_zero_attempts. repeat case_match; try done. apply fields_targets. }
  assert (H4 : forall bc, fields (find_last_chosen w bc) = fields bc).
  { intros []. unfold find_last_chosen. by repeat case_match. }
  assert (H5 : forall bc, fields (reward_last_chosen g2 bc) = fields bc).
  { intros. unfold reward_last_chosen. repeat case_match; try done. apply fields_targets. }
  assert (H6 : forall bc, fields (disable_exhausted g2 bc) = fields bc).
  { intros. unfold disable_exhausted. case_match; [apply fields_targets|done]. }
  rewrite H6, H5, H4, H3, H2, H1. exact H0.
Qed.

Lemma same_ids ts ts' : Forall2 same ts ts' -> map id ts' = map id ts.
Proof. induction 1 as [|t t' ts ts' (Hid & _) _ IH]; cbn; congruence. Qed.

Lemma bootchooser_get_wf g (w : W) bc g' :
  the_bootchooser g = None -> bootchooser_get CONFIG_STATE g w = (Ok bc, g') -> bc_wf bc.
Proof.
  intros Hg Hget. destruct (bootchooser_get_new CONFIG_STATE g w bc g' Hg Hget)
    as (st & sp & locked & g1 & bc1 & _ & _ & Hp & _ & Eprep & -> & _).
  revert Hp Eprep. set (bc0 := Bc [] None st sp 0 locked 0 0).
  set (ts := fst (target_loop _ _ _ _ _ _ _)). intros Hp Eprep.
  pose proof (prepare_same g w (set_targets bc0 ts)) as Hsame.
  rewrite Eprep, targets_set in Hsame. cbn [snd] in Hsame.
  destruct (number_targets_ids g w bc0 1 (target_names (S (String.length (available_targets g)))
    (Some (available_targets g)))) as [Hall Hnd].
  unfold bc_wf. rewrite targets_set_refs. split.
  - rewrite (same_ids _ _ Hsame). by rewrite Hp.
  - rewrite <- Hp in Hall. clear -Hsame Hall. induction Hsame as [|t t' ts ts' Ht _ IH];
      [constructor|]. apply Forall_cons_1 in Hall as [[_ Hf] Hall]. constructor; [|by apply IH].
    unfold same, fresh_target in *. tauto.
Qed.

Lemma bootchooser_get_sorted g (w : W) bc g' :
  the_bootchooser g = None -> bootchooser_get CONFIG_STATE g w = (Ok bc, g') ->
  Z.testbit (reset_priorities g) RESET_PRIORITIES_ALL_ZERO = false ->
  StronglySorted boot_order (List.filter bootchooser_target_ok (targets bc)).
Proof.
  intros Hg Hget Hrp. destruct (bootchooser_get_new CONFIG_STATE g w bc g' Hg Hget)
    as (st & sp & locked & g1 & bc1 & _ & _ & _ & Hs & Eprep & -> & _).
  rewrite targets_set_refs. eapply keeps_sorted; [exact Hs|].
  pose proof (prepare_keeps g w (set_targets (Bc [] None st sp 0 locked 0 0)
    (fst (target_loop (S (String.length (available_targets g))) g w
       (Bc [] None st sp 0 locked 0 0) (Some (available_targets g)) 1 []))) Hrp) as Hk.
  by rewrite Eprep, targets_set in Hk.
Qed.

End Get.

(** ** The choice *)

Lemma find_ok_first ts t :
  find_target bootchooser_target_ok ts = Some t ->
  StronglySorted boot_order (List.filter bootchooser_target_ok ts) ->
  t ∈ ts /\ bootchooser_target_ok t = true /\
  forall u, u ∈ ts -> bootchooser_target_ok u = true -> u = t \/ boot_order t u.
Proof.
  intros (l & r & -> & Ht & Hl)%find_target_Some Hs. split_and!; [apply elem_of_app; right; left|done|].
  assert (El : List.filter bootchooser_target_ok l = []).
  { clear -Hl. induction Hl as [|x l Hx _ IH]; cbn; [done|]. by rewrite Hx. }
  rewrite List.filter_app, El in Hs. cbn in Hs. rewrite Ht in Hs.
  apply StronglySorted_inv in Hs as [_ Hts]. intros u Hu Hok.
  apply elem_of_app in Hu as [Hu|Hu].
  - pose proof (proj1 (Forall_forall _ _) Hl u Hu). congruence.
  - apply elem_of_cons in Hu as [->|Hu]; [by left|right].
    apply (proj1 (Forall_forall _ _) Hts), list_elem_of_In, filter_In.
    by split; [apply list_elem_of_In|].
Qed.

(** ** Counting attempts *)

Definition total (ts : list bootchooser_target) : Z :=
  fold_right (fun t acc => remaining_attempts t + acc) 0 ts.

Lemma total_nonneg ts : Forall (fun t => 0 <= remaining_attempts t < 2 ^ 32) ts -> 0 <= total ts.
Proof. induction 1; unfold total in *; cbn [fold_right]; lia. Qed.

Definition replace_target (i : Z) (t' : bootchooser_target) (ts : list bootchooser_target) :=
  map (fun u => if id u =? i then t' else u) ts.

Lemma replace_other i t' ts : i ∉ map id ts -> replace_target i t' ts = ts.
Proof.
  induction ts as [|u ts IH]; cbn; [done|]. intros Hn. apply not_elem_of_cons in Hn as [Hne Hn].
  rewrite (proj2 (Z.eqb_neq _ _)) by done. f_equal. by apply IH.
Qed.

(** The target found is the only one the update changes. *)
Lemma replace_split l t r t' :
  NoDup (map id (l ++ t :: r)) -> replace_target (id t) t' (l ++ t :: r) = l ++ t' :: r.
Proof.
  rewrite map_app. cbn [map]. intros (Hl & Hd & Hr)%NoDup_app.
  apply NoDup_cons in Hr as [Hr _].
  assert (id t ∉ map id l) by (intros Hin; apply (Hd _ Hin); by left).
  unfold replace_target. rewrite map_app. cbn [map]. rewrite Z.eqb_refl.
  fold (replace_target (id t) t' l). fold (replace_target (id t) t' r).
  by rewrite !replace_other.
Qed.

Lemma total_split l t r : total (l ++ t :: r) = remaining_attempts t + total (l ++ r).
Proof. induction l as [|u l IH]; cbn; [done|]. unfold total in *. rewrite IH. lia. Qed.

(** What choosing a target does to it. *)
Definition chosen (bc : bootchooser) (t : bootchooser_target) : bootchooser_target :=
  if bc_attempts_locked bc then t else set_att t (remaining_attempts t - 1).

Lemma id_set_att t a : id (set_att t a) = id t.
Proof. by destruct t. Qed.

Lemma remaining_set_att t a : remaining_attempts (set_att t a) = a.
Proof. by destruct t. Qed.

Lemma id_chosen bc t : id (chosen bc t) = id t.
Proof. unfold chosen. destruct (bc_attempts_locked bc); [done|apply id_set_att]. Qed.

Section Boot.

Context {W E : Type} `{!EnvOps W} `{!BootOps W E}.
Context (CONFIG_STATE : bool).

Lemma get_target_Ok (w : W) bc t' w' bc' :
  bc_wf bc -> bootchooser_get_target CONFIG_STATE w bc = (Ok t', w', bc') ->
  exists l t r, targets bc = l ++ t :: r /\ find_target bootchooser_target_ok (targets bc) = Some t /\
    bootchooser_target_ok t = true /\ t' = chosen bc t /\ targets bc' = l ++ t' :: r /\
    last_chosen bc' = Some (id t) /\ bc_attempts_locked bc' = bc_attempts_locked bc.
Proof.
  intros [Hnd Hr]. unfold bootchooser_get_target.
  destruct (find_target _ _) as [t|] eqn:Ef; [|done].
  destruct (find_target_Some _ _ _ Ef) as (l & r & El & Hok & _).
  assert (Hrt : 0 <= remaining_attempts t < 2 ^ 32).
  { apply (proj1 (Forall_forall _ _) Hr). rewrite El. apply elem_of_app. right. left. }
  pose proof (proj1 (ok_spec t) Hok) as [_ Hnz].
  assert (Et : (if negb (bc_attempts_locked bc)
                then set_att t (u32 (remaining_attempts t - 1)) else t) = chosen bc t).
  { unfold chosen. destruct (bc_attempts_locked bc); [done|]. cbn. by rewrite u32_small by lia. }
  rewrite Et. destruct (bootchooser_save _ _ _) as [ret w1]. intros [= <- <- <-].
  exists l, t, r. rewrite id_chosen. split_and!; try done; [|by destruct bc..].
  transitivity (replace_target (id t) (chosen bc t) (targets bc)).
  - by destruct bc.
  - rewrite El in Hnd |- *. by rewrite replace_split.
Qed.

Lemma get_target_Err (w : W) bc e w' bc' :
  bootchooser_get_target CONFIG_STATE w bc = (Err e, w', bc') ->
  e = - ENOENT /\ bc' = bc /\ Forall (fun t => bootchooser_target_ok t = false) (targets bc).
Proof.
  unfold bootchooser_get_target. destruct (find_target _ _) as [t|] eqn:Ef.
  - by destruct (bootchooser_save _ _ _).
  - intros [= <- <- <-]. split_and!; [done..|]. by apply find_target_None.
Qed.

Lemma wf_replace bc bc' l t r t' :
  bc_wf bc -> targets bc = l ++ t :: r -> targets bc' = l ++ t' :: r -> id t' = id t ->
  0 <= remaining_attempts t' < 2 ^ 32 -> bc_wf bc'.
Proof.
  intros [Hnd Hr] Et Et' Hid Hr'. unfold bc_wf. rewrite Et in Hnd, Hr. rewrite Et'.
  rewrite map_app in *. cbn [map] in *. rewrite Hid. split; [done|].
  apply Forall_app in Hr as [Hl Hr]. apply Forall_cons_1 in Hr as [_ Hr].
  apply Forall_app. split; [done|]. by constructor.
Qed.

(** One round either ends the loop or uses up an attempt. *)
Lemma boot_one_spec g (w : W) bc (entry : option E) ret again g' w' bc' :
  bc_wf bc ->
  bootchooser_boot_one CONFIG_STATE g w bc entry = (ret, again, g', w', bc') ->
  bc_wf bc' /\ bc_attempts_locked bc' = bc_attempts_locked bc /\ retry g' = retry g /\
  total (targets bc') <= total (targets bc) /\
  (again = true -> bc_attempts_locked bc = false -> total (targets bc') = total (targets bc) - 1) /\
  (again = false -> ret = 0 \/
     ret = - ENOENT /\ Forall (fun t => bootchooser_target_ok t = false) (targets bc')).
Proof.
  intros Hwf. unfold bootchooser_boot_one.
  destruct (bootchooser_get_target CONFIG_STATE w bc) as [[[t'|e] w1] bc1] eqn:Eg.
  - destruct (get_target_Ok w bc t' w1 bc1 Hwf Eg)
      as (l & t & r & El & _ & Hok & Et & El' & _ & Hl').
    unfold chosen in Et.
    pose proof (proj1 (ok_spec t) Hok) as [_ Hnz].
    assert (Hrt : 0 <= remaining_attempts t < 2 ^ 32).
    { apply (proj1 (Forall_forall _ _) (proj2 Hwf)). rewrite El. apply elem_of_app. right. left. }
    assert (Hwf1 : bc_wf bc1).
    { eapply wf_replace; [done..|by rewrite Et; destruct (bc_attempts_locked bc); rewrite ?id_set_att|rewrite Et; destruct (bc_attempts_locked bc); rewrite ?remaining_set_att; lia]. }
    assert (Htot : total (targets bc1) = total (targets bc) - (if bc_attempts_locked bc then 0 else 1)).
    { rewrite El, El', !total_split, Et. destruct (bc_attempts_locked bc); rewrite ?remaining_set_att; lia. }
    destruct (bootentry_create_from_name _ _) as [[n es] w2].
    destruct (n <=? 0).
    { intros [= <- <- <- <- <-]. split_and!; try done; [by destruct (bc_attempts_locked bc); lia|by intros _ Hk; rewrite Hk in Htot]. }
    assert (Hret : retry (set_last_boot g false) = retry g) by (by destruct g).
    destruct (boot_entries _ _ _ _ _) as [[ret1 again1] w3] eqn:Eb.
    intros [= <- <- <- <- <-]. split_and!; try done; [by destruct (bc_attempts_locked bc); lia|by intros _ Hk; rewrite Hk in Htot|].
    intros ->. left. clear -Eb. revert w2 Eb. generalize (- ENOENT) as r0.
    induction es as [|en es IH]; intros r0 w2; cbn [boot_entries]; [done|].
    destruct (boot_entry _ _ _ _) as [r w4]. destruct (Z.eqb_spec r 0); [by intros [= <- <-]|].
    apply IH.
  - destruct (get_target_Err w bc e w1 bc1 Eg) as (-> & -> & Hall).
    intros [= <- <- <- <- <-]. split_and!; try done; try lia. by right.
Qed.

(** The loop ends unless attempts are locked and retrying is enabled. *)
Lemma boot_terminates fuel g (w : W) bc (entry : option E) :
  bc_wf bc -> total (targets bc) < Z.of_nat fuel ->
  match bootchooser_boot CONFIG_STATE fuel g w bc entry with
  | Some (ret, g', w', bc') => retry g = true -> ret = 0 \/
      ret = - ENOENT /\ Forall (fun t => bootchooser_target_ok t = false) (targets bc')
  | None => bc_attempts_locked bc = true /\ retry g = true
  end.
Proof.
  assert (Hloop : forall fuel g (w : W) bc, bc_wf bc ->
    (bc_attempts_locked bc = true /\ retry g = true \/ total (targets bc) < Z.of_nat fuel) ->
    match bootchooser_boot CONFIG_STATE fuel g w bc entry with
    | Some (ret, g', w', bc') => retry g = true -> ret = 0 \/
        ret = - ENOENT /\ Forall (fun t => bootchooser_target_ok t = false) (targets bc')
    | None => bc_attempts_locked bc = true /\ retry g = true
    end); [|intros Hwf Hf; apply Hloop; auto].
  clear. intros fuel. induction fuel as [|fuel IH]; intros g w bc Hwf Hf.
  { destruct Hf as [Hf|Hf]; [done|]. pose proof (total_nonneg _ (proj2 Hwf)). lia. }
  cbn [bootchooser_boot].
  destruct (bootchooser_boot_one CONFIG_STATE g w bc entry) as [[[[ret again] g1] w1] bc1] eqn:E1.
  destruct (boot_one_spec g w bc entry ret again g1 w1 bc1 Hwf E1)
    as (Hwf1 & Hl1 & Hr1 & _ & Hagain & Hdone).
  destruct (retry g1) eqn:Er; cbn [negb]; [|congruence].
  destruct again; [|by intros _; apply Hdone].
  specialize (IH g1 w1 bc1 Hwf1). rewrite Hl1, Er in IH. rewrite <- Hr1. apply IH.
  destruct (bc_attempts_locked bc); [by left|right]. specialize (Hagain eq_refl eq_refl). destruct Hf as [[]|]; [done|lia].
Qed.

End Boot.

(** ** The automatic resets *)

Lemma sum_int_nonzero f ts : sum_int f ts <> 0 -> Exists (fun t => f t <> 0) ts.
Proof.
  intros H. destruct (decide (Exists (fun t => f t <> 0) ts)) as [|Hn]; [done|]. exfalso. apply H.
  apply not_Exists_Forall in Hn; [|intros t; apply _].
  clear H. unfold sum_int. induction Hn as [|t ts Ht _ IH]; cbn [fold_left]; [done|].
  assert (f t = 0) as -> by (destruct (decide (f t = 0)); [done|by destruct Ht]). apply IH.
Qed.

(** Some target is enabled, and disabled ones have no attempts left. *)
Definition some_enabled (ts : list bootchooser_target) : Prop :=
  Exists (fun t => priority t <> 0) ts /\
  Forall (fun t => (priority t = 0 -> remaining_attempts t = 0) /\ default_attempts t <> 0) ts.

Definition some_ok (ts : list bootchooser_target) : Prop :=
  Exists (fun t => bootchooser_target_ok t = true) ts /\
  Forall (fun t => default_attempts t <> 0) ts.

Lemma reset_attempts_some_ok bc :
  some_enabled (targets bc) ->
  some_ok (targets (bootchooser_reset_attempts bc)) /\
  some_enabled (targets (bootchooser_reset_attempts bc)).
Proof.
  unfold bootchooser_reset_attempts. rewrite targets_set. intros [Hex Hall].
  set (f := fun t => if bootchooser_target_enabled t then _ else t).
  assert (Hf : forall t, (priority t = 0 -> remaining_attempts t = 0) /\ default_attempts t <> 0 ->
    priority (f t) = priority t /\ default_attempts (f t) = default_attempts t /\
    (priority t <> 0 -> remaining_attempts (f t) <> 0) /\
    (priority t = 0 -> remaining_attempts (f t) = 0)).
  { intros [] H. unfold f, bootchooser_target_enabled. cbn in *.
    destruct (Z.eqb_spec priority0 0); cbn; tauto. }
  assert (Hall' : Forall (fun t => (priority t = 0 -> remaining_attempts t = 0) /\
                                   default_attempts t <> 0) (map f (targets bc))).
  { apply Forall_fmap. eapply Forall_impl; [exact Hall|]. intros t Ht. cbn.
    destruct (Hf t Ht) as (-> & -> & _ & H0). split; [exact H0|apply Ht]. }
  repeat split; try done.
  - apply Exists_fmap. apply Exists_exists in Hex as (t & Hin & Hp).
    apply Exists_exists. exists t. split; [done|]. cbn. apply ok_spec.
    destruct (Hf t (proj1 (Forall_forall _ _) Hall t Hin)) as (-> & _ & H1 & _). tauto.
  - eapply Forall_impl; [exact Hall'|]. cbn. tauto.
  - apply Exists_fmap. apply Exists_exists in Hex as (t & Hin & Hp).
    apply Exists_exists. exists t. split; [done|]. cbn.
    by destruct (Hf t (proj1 (Forall_forall _ _) Hall t Hin)) as (-> & _).
Qed.

Lemma reset_all_zero_attempts_ok g bc :
  Z.testbit (reset_attempts g) RESET_ATTEMPTS_ALL_ZERO = true -> some_enabled (targets bc) ->
  some_ok (targets (reset_all_zero_attempts g bc)).
Proof.
  intros Hb Hen. unfold reset_all_zero_attempts. rewrite Hb.
  destruct (Z.eqb_spec (sum_int remaining_attempts (targets bc)) 0) as [|Hs];
    [by apply reset_attempts_some_ok|].
  destruct Hen as [_ Hall]. split; [|eapply Forall_impl; [exact Hall|cbn; tauto]].
  apply sum_int_nonzero, Exists_exists in Hs as (t & Hin & Ht). apply Exists_exists.
  exists t. split; [done|]. apply ok_spec.
  pose proof (proj1 (Forall_forall _ _) Hall t Hin) as [H0 _]. tauto.
Qed.

(** A step that turns no bootable target into an unbootable one. *)
Lemma map_some_ok (f : bootchooser_target -> bootchooser_target) ts :
  (forall t, default_attempts t <> 0 -> bootchooser_target_ok t = true ->
     bootchooser_target_ok (f t) = true) ->
  (forall t, default_attempts (f t) = default_attempts t) ->
  some_ok ts -> some_ok (map f ts).
Proof.
  intros Hok Hd [Hex Hall]. split.
  - apply Exists_fmap. apply Exists_exists in Hex as (t & Hin & Ht). apply Exists_exists.
    exists t. split; [done|]. cbn. apply Hok; [|done]. by apply (proj1 (Forall_forall _ _) Hall).
  - apply Forall_fmap. eapply Forall_impl; [exact Hall|]. intros t Ht. cbn. by rewrite Hd.
Qed.

Lemma reward_some_ok g bc : some_ok (targets bc) -> some_ok (targets (reward_last_chosen g bc)).
Proof.
  unfold reward_last_chosen. destruct (last_chosen bc); [|done].
  destruct (last_boot_successful g); [|done]. unfold update_target. rewrite targets_set.
  apply map_some_ok.
  - intros t Hd. rewrite !ok_spec. destruct (id t =? _); [|done]. destruct t; cbn in *. tauto.
  - intros t. destruct (id t =? _); [|done]. by destruct t.
Qed.

Lemma disable_some_ok g bc : some_ok (targets bc) -> some_ok (targets (disable_exhausted g bc)).
Proof.
  unfold disable_exhausted. destruct (disable_on_zero_attempts g); [|done]. rewrite targets_set.
  apply map_some_ok.
  - intros t _ [Hp Ha]%ok_spec. rewrite (proj2 (Z.eqb_neq _ _)) by done. by apply ok_spec.
  - intros t. destruct (_ =? 0); [|done]. by destruct t.
Qed.

Lemma reset_priorities_enabled g bc :
  Z.testbit (reset_priorities g) RESET_PRIORITIES_ALL_ZERO = true -> targets bc <> [] ->
  Forall (fun t => fresh_target t /\ default_priority t <> 0 /\ default_attempts t <> 0) (targets bc) ->
  some_enabled (targets (reset_all_zero_priorities g bc)).
Proof.
  intros Hb Hne Hall. unfold reset_all_zero_priorities. rewrite Hb.
  destruct (Z.eqb_spec (sum_int priority (targets bc)) 0) as [|Hs].
  - unfold bootchooser_reset_priorities. rewrite targets_set. split.
    + destruct (targets bc) as [|t ts]; [done|]. apply Forall_cons_1 in Hall as [(_ & Hp & _) _].
      left. by destruct t.
    + apply Forall_fmap. eapply Forall_impl; [exact Hall|]. intros [] (_ & Hp & Ha). cbn in *. tauto.
  - split; [by apply sum_int_nonzero|]. eapply Forall_impl; [exact Hall|].
    intros t (Hf & _ & Ha). unfold fresh_target in Hf. tauto.
Qed.

Lemma reset_on_source_enabled {W} `{!EnvOps W} g (w : W) b src bc :
  some_enabled (targets bc) ->
  some_enabled (targets (snd (reset_on_source g w b src bc))) /\
  reset_attempts (fst (reset_on_source g w b src bc)) = reset_attempts g.
Proof.
  intros H. unfold reset_on_source. destruct (_ && _ && _); [|done].
  split; [by apply reset_attempts_some_ok|by destruct g].
Qed.

Lemma prepare_some_ok {W} `{!EnvOps W} g (w : W) bc :
  Z.testbit (reset_priorities g) RESET_PRIORITIES_ALL_ZERO = true ->
  Z.testbit (reset_attempts g) RESET_ATTEMPTS_ALL_ZERO = true -> targets bc <> [] ->
  Forall (fun t => fresh_target t /\ default_priority t <> 0 /\ default_attempts t <> 0) (targets bc) ->
  some_ok (targets (snd (bootchooser_prepare g w bc))).
Proof.
  intros Hp Ha Hne Hall. unfold bootchooser_prepare.
  pose proof (reset_priorities_enabled g bc Hp Hne Hall) as H0.
  destruct (reset_on_source_enabled g w RESET_ATTEMPTS_POWER_ON RESET_POR _ H0) as [H1 E1].
  destruct (reset_on_source g w _ RESET_POR _) as [g1 bc1]. cbn [fst snd] in *.
  destruct (reset_on_source_enabled g1 w RESET_ATTEMPTS_SRC_RST RESET_RST bc1 H1) as [H2 E2].
  destruct (reset_on_source g1 w _ RESET_RST bc1) as [g2 bc2]. cbn [fst snd] in *.
  apply disable_some_ok, reward_some_ok. rewrite find_last_chosen_targets.
  apply reset_all_zero_attempts_ok; [|done]. by rewrite E2, E1.
Qed.

(** ** Names of variables *)

Lemma app_assoc_str (a b c : string) : a +:+ b +:+ c = (a +:+ b) +:+ c.
Proof.
  induction a as [|x a IH]; [done|].
  change (String x (a +:+ b +:+ c) = String x ((a +:+ b) +:+ c)). by rewrite IH.
Qed.

Lemma parse_assignment_app a b :
  parse_assignment a = None -> parse_assignment b = None -> parse_assignment (a +:+ b) = None.
Proof.
  intros Ha Hb. induction a as [|x a IH]; [done|].
  change (parse_assignment (String x (a +:+ b)) = None). cbn in *. case_bool_decide; [done|].
  destruct (parse_assignment a) as [[? ?]|]; [done|]. by rewrite IH.
Qed.

Lemma parse_assignment_key k v :
  parse_assignment k = None -> parse_assignment (k +:+ String "=" v) = Some (k, v).
Proof.
  intros Hk. induction k as [|x k IH]; [done|].
  change (parse_assignment (String x (k +:+ String "=" v)) = Some (String x k, v)).
  cbn in *. case_bool_decide; [done|].
  destruct (parse_assignment k) as [[? ?]|]; [done|]. by rewrite IH.
Qed.

Lemma list_ascii_app a b :
  String.list_ascii_of_string (a +:+ b) =
  String.list_ascii_of_string a ++ String.list_ascii_of_string b.
Proof.
  induction a as [|x a IH]; [done|].
  change (x :: String.list_ascii_of_string (a +:+ b) =
          x :: String.list_ascii_of_string a ++ String.list_ascii_of_string b). by rewrite IH.
Qed.

Lemma list_ascii_inj a b : String.list_ascii_of_string a = String.list_ascii_of_string b -> a = b.
Proof.
  intros H. rewrite <- (String.string_of_list_ascii_of_string a), H.
  apply String.string_of_list_ascii_of_string.
Qed.

Lemma app_str_inj_l a b c : a +:+ c = b +:+ c -> a = b.
Proof.
  intros H%(f_equal String.list_ascii_of_string). rewrite !list_ascii_app in H.
  by apply list_ascii_inj, (app_inv_tail (String.list_ascii_of_string c)).
Qed.

Lemma app_str_inj_r a b c : a +:+ b = a +:+ c -> b = c.
Proof.
  intros H%(f_equal String.list_ascii_of_string). rewrite !list_ascii_app in H.
  by apply list_ascii_inj, (app_inv_head (String.list_ascii_of_string a)).
Qed.

(** Names that end in different characters differ. *)
Lemma app_str_last_ne a b s t :
  last (String.list_ascii_of_string s) <> last (String.list_ascii_of_string t) ->
  last (String.list_ascii_of_string s) <> None -> last (String.list_ascii_of_string t) <> None ->
  a +:+ s <> b +:+ t.
Proof.
  intros Hne Hs Ht H%(f_equal (fun x => last (String.list_ascii_of_string x))).
  rewrite !list_ascii_app, !last_app in H.
  destruct (last (String.list_ascii_of_string s)), (last (String.list_ascii_of_string t)); done.
Qed.

(** ** Values in variables *)

Lemma fmt_d_printed z : 0 <= z < 2 ^ 31 -> fmt_d z = printed 0 10 z.
Proof.
  intros Hz. unfold fmt_d. rewrite s32_small, number_signed by lia.
  rewrite (proj2 (Z.ltb_ge z 0)) by lia. by rewrite Z.abs_eq by lia.
Qed.

(** What a state promises about its variables: setting one has no effect on
    the others, and a decimal number that was set is read back; saving leaves
    them alone. *)
Class EnvOk (W : Type) `{!EnvOps W} := {
  setenv_frame (w : W) k v r w' :
    setenv w k v = (r, w') -> forall k', k' <> k -> getenv w' k' = getenv w k';
  setenv_value (w : W) k z w' :
    0 <= z < 2 ^ 31 -> setenv w k (fmt_d z) = (0, w') -> getenv w' k = Some (fmt_d z);
  state_save_frame (w : W) st r w' :
    env_state_save w st = (r, w') -> forall k, getenv w' k = getenv w k
}.

(** ** Saving *)

Definition key_attempts (t : bootchooser_target) : string := t_state_prefix t +:+ ".remaining_attempts".
Definition key_priority (t : bootchooser_target) : string := t_state_prefix t +:+ ".priority".

(** Values that survive being saved. *)
Definition saveable (t : bootchooser_target) : Prop :=
  0 <= priority t < 2 ^ 31 /\ 0 <= remaining_attempts t < 2 ^ 31 /\ 0 < id t < 2 ^ 31 /\
  (priority t = 0 -> remaining_attempts t = 0) /\ parse_assignment (t_state_prefix t) = None.

Section Save.

Context {W : Type} `{!EnvOps W} `{!EnvOk W}.
Context (CONFIG_STATE : bool).

Lemma bc_setenv_ok (w : W) bc k z r w' :
  bc_state bc <> None -> parse_assignment k = None -> 0 <= z < 2 ^ 31 ->
  bc_setenv w bc (k +:+ String "=" (fmt_d z)) = (r, w') ->
  (forall k', k' <> k -> getenv w' k' = getenv w k') /\
  (r = 0 -> getenv w' k = Some (fmt_d z)).
Proof.
  intros Hst Hk Hz. unfold bc_setenv. rewrite parse_assignment_key by done.
  destruct (bc_state bc) as [st|]; [|done]. destruct (getenv w k) as [old|] eqn:E.
  - case_bool_decide as Ho; cbn [negb].
    + intros [= <- <-]. subst old. done.
    + intros Hs. split; [by eapply setenv_frame|]. intros ->. by eapply setenv_value.
  - intros Hs. split; [by eapply setenv_frame|]. intros ->. by eapply setenv_value.
Qed.

Lemma save_targets_ok (w : W) bc ts w' :
  bc_state bc <> None -> Forall saveable ts -> NoDup (map t_state_prefix ts) ->
  save_targets w bc ts = (0, w') ->
  (forall t, t ∈ ts -> getenv w' (key_priority t) = Some (fmt_d (priority t)) /\
                       getenv w' (key_attempts t) = Some (fmt_d (remaining_attempts t))) /\
  (forall k, (forall t, t ∈ ts -> k <> key_priority t /\ k <> key_attempts t) ->
     getenv w' k = getenv w k).
Proof.
  intros Hst. revert w. induction ts as [|t ts IH]; intros w Hall Hnd; cbn [save_targets].
  { intros [= <-]. split; [|done]. intros t Ht. by apply elem_of_nil in Ht. }
  apply Forall_cons_1 in Hall as [(Hp & Ha & _ & _ & Hk) Hall].
  cbn [map] in Hnd. apply NoDup_cons in Hnd as [Hni Hnd].
  replace (t_state_prefix t +:+ ".remaining_attempts=" +:+ fmt_d (remaining_attempts t))
    with (key_attempts t +:+ String "=" (fmt_d (remaining_attempts t)))
    by (unfold key_attempts; by rewrite <- app_assoc_str).
  replace (t_state_prefix t +:+ ".priority=" +:+ fmt_d (priority t))
    with (key_priority t +:+ String "=" (fmt_d (priority t)))
    by (unfold key_priority; by rewrite <- app_assoc_str).
  destruct (bc_setenv w bc (key_attempts t +:+ _)) as [r1 w1] eqn:E1.
  apply bc_setenv_ok in E1 as [F1 V1]; [|done|by apply parse_assignment_app|done].
  destruct (Z.eqb_spec r1 0) as [->|]; cbn [negb]; [|intros [= -> ->]; done].
  destruct (bc_setenv w1 bc (key_priority t +:+ _)) as [r2 w2] eqn:E2.
  apply bc_setenv_ok in E2 as [F2 V2]; [|done|by apply parse_assignment_app|done].
  destruct (Z.eqb_spec r2 0) as [->|]; cbn [negb]; [|intros [= -> ->]; done].
  intros Hsave. destruct (IH w2 Hall Hnd Hsave) as [Hin Hout].
  assert (Hpa : key_priority t <> key_attempts t) by (by apply app_str_last_ne).
  assert (Hother : forall u, u ∈ ts ->
    key_priority t <> key_priority u /\ key_priority t <> key_attempts u /\
    key_attempts t <> key_priority u /\ key_attempts t <> key_attempts u).
  { intros u Hu. assert (t_state_prefix t <> t_state_prefix u).
    { intros E. apply Hni. rewrite E. apply list_elem_of_In, in_map, list_elem_of_In, Hu. }
    split_and!; try (by apply app_str_last_ne); intros E%app_str_inj_l; done. }
  split.
  - intros u Hu. apply elem_of_cons in Hu as [->|Hu]; [|by apply Hin].
    rewrite !Hout by (intros u Hu; destruct (Hother u Hu) as (? & ? & ? & ?); done).
    rewrite V2 by done. rewrite F2 by done. by rewrite V1.
  - intros k Hkn. rewrite Hout by (intros u Hu; apply Hkn; by right).
    destruct (Hkn t) as [? ?]; [by left|]. by rewrite F2, F1.
Qed.

End Save.

(** Mapping functions that agree on the elements. *)
Lemma Permutation_map_ext {A B} (f h : A -> B) (l : list A) :
  (forall x, x ∈ l -> f x = h x) -> map f l ≡ₚ map h l.
Proof.
  intros H. induction l as [|x l IH]; cbn; [done|]. rewrite (H x) by left. constructor.
  apply IH. intros y Hy. apply H. by right.
Qed.

Lemma Forall_map_perm {A B} (f : A -> B) (P : B -> Prop) (l l' : list A) :
  map f l' ≡ₚ map f l -> Forall (fun x => P (f x)) l -> Forall (fun x => P (f x)) l'.
Proof.
  intros Hp Hl. apply List.Forall_map. rewrite Hp. by apply List.Forall_map.
Qed.

(** ** From one boot to the next *)

(** What is stored of a target. *)
Definition stored_view (t : bootchooser_target) : Z * string * Z * Z :=
  (id t, name t, priority t, remaining_attempts t).

(** The same target, with other counters. *)
Definition same_target (t t' : bootchooser_target) : Prop :=
  id t' = id t /\ name t' = name t /\ t_state_prefix t' = t_state_prefix t.

(** The configuration of the next boot: the same targets, no resets. *)
Definition next_boot (g g3 : globals) : Prop :=
  the_bootchooser g3 = None /\ available_targets g3 = available_targets g /\
  state_prefix g3 = state_prefix g /\ reset_attempts g3 = 0 /\ reset_priorities g3 = 0 /\
  last_boot_successful g3 = false /\ disable_on_zero_attempts g3 = false.

Fixpoint enum (i : Z) (names : list string) : list (Z * string) :=
  match names with
  | [] => []
  | n :: names => (i, n) :: enum (i + 1) names
  end.

Section Reboot.

Context {W : Type} `{!EnvOps W} `{!EnvOk W}.
Context (CONFIG_STATE : bool).

Lemma number_targets_enum g (w : W) bc i names :
  number_targets g w bc i names =
  map (fun p => set_id (bootchooser_target_new g w bc (snd p)) (fst p)) (enum i names).
Proof. revert i. induction names as [|n names IH]; intros i; cbn; [done|]. by rewrite IH. Qed.

(** Identity and prefix of a numbered target. *)
Lemma number_targets_idn g (w : W) bc i names :
  map (fun t => (id t, name t)) (number_targets g w bc i names) = enum i names /\
  Forall (fun t => t_state_prefix t = bc_state_prefix bc +:+ "." +:+ name t)
    (number_targets g w bc i names).
Proof.
  revert i. induction names as [|n names IH]; intros i; cbn [number_targets map enum]; [done|].
  destruct (IH (i + 1)) as [-> H]. split; [done|]. by constructor.
Qed.

Lemma prepare_plain g (w : W) bc g3 :
  next_boot g g3 -> bootchooser_prepare g3 w bc = (g3, find_last_chosen w bc).
Proof.
  intros (_ & _ & _ & Ha & Hp & Hl & Hd).
  unfold bootchooser_prepare, reset_all_zero_priorities, reset_on_source, reset_all_zero_attempts.
  rewrite Ha, Hp, !Z.bits_0. cbn [andb]. rewrite Ha, !Z.bits_0. cbn [andb].
  rewrite Ha, Z.bits_0. unfold reward_last_chosen, disable_exhausted.
  rewrite Hl, Hd. by destruct (last_chosen _).
Qed.

(** The next boot reads the names of the same targets. *)
Lemma get_next g (w : W) bc0 g1 g3 (w3 : W) :
  the_bootchooser g = None -> bootchooser_get CONFIG_STATE g w = (Ok bc0, g1) ->
  next_boot g g3 -> (forall n, env_state_by_name w3 n = env_state_by_name w n) ->
  exists bc3 locked,
    let bcn := Bc [] None (bc_state bc0) (bc_state_prefix bc0) 0 locked 0 0 in
    let ts := map (fun p => set_id (bootchooser_target_new g3 w3 bcn (snd p)) (fst p))
                (map (fun t => (id t, name t)) (targets bc0)) in
    bootchooser_get CONFIG_STATE g3 w3 = (Ok bc3, set_bootchooser g3 (Some bc3)) /\
    targets bc3 ≡ₚ ts /\
    last_chosen bc3 =
      last_chosen (find_last_chosen w3 (set_targets bcn (targets bc3))) /\
    Forall (fun t => t_state_prefix t = bc_state_prefix bc0 +:+ "." +:+ name t) (targets bc0).
Proof.
  intros Hg Hget Hnb Hstate.
  destruct (bootchooser_get_new CONFIG_STATE g w bc0 g1 Hg Hget)
    as (st & sp & locked & g' & bc1 & Hvs & Hne & Hp & _ & Eprep & -> & _).
  revert Hne Hp Eprep. set (names := target_names _ _). set (bcn0 := Bc [] None st sp 0 locked 0 0).
  set (ts0 := fst (target_loop _ _ _ _ _ _ _)). cbn zeta. intros Hne Hp Eprep.
  pose proof (prepare_same g w (set_targets bcn0 ts0)) as Hsame.
  pose proof (prepare_fields g w (set_targets bcn0 ts0)) as Ef.
  rewrite Eprep in Hsame, Ef. rewrite targets_set in Hsame. cbn [snd] in *.
  injection Ef as Ef1 Ef2.
  assert (Es : bc_state (set_refs bc1 1) = st) by (destruct bc1; exact Ef1).
  assert (Esp : bc_state_prefix (set_refs bc1 1) = sp) by (destruct bc1; exact Ef2).
  rewrite targets_set_refs, Es, Esp. destruct Hnb as (Hg3 & Hav & Hspf & Hnb).
  assert (Hvs3 : variable_store CONFIG_STATE g3 w3 = Ok (st, sp)).
  { rewrite <- Hvs. unfold variable_store. rewrite Hspf, Hstate. done. }
  set (locked3 := match getenv_u32 w3 sp "attempts_locked" with
                  | Some l => negb (l =? 0) || attempts_locked g3 | None => attempts_locked g3 end).
  set (bcn := Bc [] None st sp 0 locked3 0 0).
  destruct (target_loop_perm (S (String.length (available_targets g3))) g3 w3 bcn
    (Some (available_targets g3)) 1 []) as [Hp3 Hl3].
  destruct (target_loop (S (String.length (available_targets g3))) g3 w3 bcn
    (Some (available_targets g3)) 1 []) as [ts3 n3] eqn:Eloop. cbn [fst snd app] in *.
  rewrite Hav in Hp3, Hl3. fold names in Hp3, Hl3.
  assert (Hids : map (fun t => (id t, name t)) (targets bc1) ≡ₚ enum 1 names).
  { rewrite <- (proj1 (number_targets_idn g w bcn0 1 names)), <- Hp.
    clear -Hsame. induction Hsame as [|t t' ts ts' (E1 & E2 & _) _ IH]; cbn; [done|].
    rewrite E1, E2. by constructor. }
  eexists _, locked3. split_and!.
  - unfold bootchooser_get. rewrite Hg3, Hvs3. fold locked3. fold bcn. rewrite Eloop.
    rewrite (proj2 (Z.eqb_neq n3 1)) by (destruct names; [done|cbn in Hl3; lia]).
    rewrite bool_decide_eq_false_2.
    + rewrite (prepare_plain g w3 _ g3) by done. reflexivity.
    + intros ->. destruct names; [done|]. by apply Permutation_nil in Hp3.
  - cbv zeta. fold bcn. rewrite Hids. rewrite <- number_targets_enum. rewrite <- Hp3.
    by rewrite targets_set_refs, find_last_chosen_targets, targets_set.
  - rewrite targets_set_refs, find_last_chosen_targets, targets_set. fold bcn. by destruct (find_last_chosen w3 (set_targets bcn ts3)).
  - pose proof (proj2 (number_targets_idn g w bcn0 1 names)) as Hpre. rewrite <- Hp in Hpre.
    clear -Hsame Hpre. induction Hsame as [|t t' ts ts' (_ & E2 & E3 & _) _ IH]; [constructor|].
    apply Forall_cons_1 in Hpre as [Ht Hpre]. constructor; [by rewrite E3, E2, Ht|by apply IH].
Qed.

(** A target read back from its variables. *)
Lemma read_back g (w : W) bc t :
  saveable t -> t_state_prefix t = bc_state_prefix bc +:+ "." +:+ name t ->
  getenv w (key_priority t) = Some (fmt_d (priority t)) ->
  getenv w (key_attempts t) = Some (fmt_d (remaining_attempts t)) ->
  stored_view (set_id (bootchooser_target_new g w bc (name t)) (id t)) = stored_view t.
Proof.
  intros (Hp & Ha & _ & Hpa & _) Hpre Ekp Eka.
  assert (Hu : forall z, 0 <= z < 2 ^ 31 -> u32 (fst (simple_strtoul (fmt_d z) 0)) = z).
  { intros z Hz. rewrite fmt_d_printed, simple_strtoul_printed by lia. cbn [fst].
    apply u32_small. lia. }
  unfold bootchooser_target_new, getenv_u32. rewrite <- Hpre.
  change (t_state_prefix t +:+ "." +:+ "priority") with (key_priority t).
  change (t_state_prefix t +:+ "." +:+ "remaining_attempts") with (key_attempts t).
  rewrite Ekp, Eka. cbn [default set_id from_option]. unfold Datatypes.id, stored_view. cbn [id name priority remaining_attempts].
  rewrite !Hu by done. f_equal.
  destruct (Z.eqb_spec (priority t) 0) as [E|E]; [|by rewrite andb_false_r].
  by rewrite (Hpa E).
Qed.

(** What [bootchooser_save] leaves in the variables. *)
Lemma bootchooser_save_ok (w : W) bc w' :
  bc_state bc <> None -> CONFIG_STATE = true -> Forall saveable (targets bc) ->
  NoDup (map t_state_prefix (targets bc)) -> bootchooser_save CONFIG_STATE w bc = (0, w') ->
  (forall t, t ∈ targets bc -> getenv w' (key_priority t) = Some (fmt_d (priority t)) /\
     getenv w' (key_attempts t) = Some (fmt_d (remaining_attempts t))) /\
  (forall i, last_chosen bc = Some i -> 0 <= i < 2 ^ 31 ->
     parse_assignment (bc_state_prefix bc) = None ->
     fst (bc_setenv w bc (bc_state_prefix bc +:+ ".last_chosen=" +:+ fmt_d i)) = 0 ->
     getenv w' (bc_state_prefix bc +:+ ".last_chosen") = Some (fmt_d i)).
Proof.
  intros Hst Hcs Hall Hnd. unfold bootchooser_save.
  set (w0 := match last_chosen bc with Some i => _ | None => w end).
  destruct (save_targets w0 bc (targets bc)) as [r w1] eqn:Es.
  destruct (Z.eqb_spec r 0) as [->|]; cbn [negb]; [|intros [= -> ->]; done].
  apply save_targets_ok in Es as [Hin Hout]; [|done..].
  destruct (bc_state bc) as [st|] eqn:Est; [|done]. rewrite Hcs. intros Hsave.
  pose proof (state_save_frame _ _ _ _ Hsave) as Hf. split.
  - intros t Ht. rewrite !Hf. by apply Hin.
  - intros i Hlc Hi Hpa Hset. rewrite Hf, Hout.
    2:{ intros t _. split; by apply app_str_last_ne. }
    subst w0. rewrite Hlc.
    replace (bc_state_prefix bc +:+ ".last_chosen=" +:+ fmt_d i)
      with ((bc_state_prefix bc +:+ ".last_chosen") +:+ String "=" (fmt_d i)) in *
      by (by rewrite <- app_assoc_str).
    destruct (bc_setenv w bc _) as [r w2] eqn:E2. cbn [fst snd] in *. subst r.
    apply bc_setenv_ok in E2 as [_ V]; [by apply V|by rewrite Est|by apply parse_assignment_app|done].
Qed.

Lemma find_last_chosen_ok (w : W) bc i :
  getenv w (bc_state_prefix bc +:+ ".last_chosen") = Some (fmt_d i) -> 0 < i < 2 ^ 31 ->
  i ∈ map id (targets bc) -> Forall (fun t => 0 < id t < 2 ^ 31) (targets bc) ->
  last_chosen (find_last_chosen w bc) = Some i.
Proof.
  intros He Hi Hin Hr. unfold find_last_chosen, getenv_u32.
  change (bc_state_prefix bc +:+ "." +:+ "last_chosen") with (bc_state_prefix bc +:+ ".last_chosen").
  rewrite He, fmt_d_printed, simple_strtoul_printed by lia. cbn [fst].
  rewrite u32_small, (proj2 (Z.ltb_lt 0 i)) by lia. unfold bootchooser_target_by_id.
  destruct (find_target (fun t => u32 (id t) =? i) (targets bc)) as [t|] eqn:Ef.
  - destruct (find_target_Some _ _ _ Ef) as (l & r & El & Et & _).
    rewrite El in Hr. apply Forall_app in Hr as [_ Hr]. apply Forall_cons_1 in Hr as [Ht _].
    apply Z.eqb_eq in Et. rewrite u32_small in Et by lia. cbn. rewrite Et. by destruct bc.
  - apply find_target_None in Ef. apply list_elem_of_In, in_map_iff in Hin as (t & <- & Ht).
    apply list_elem_of_In in Ht. pose proof (proj1 (Forall_forall _ _) Ef t Ht) as Hc. cbn in Hc.
    rewrite u32_small, Z.eqb_refl in Hc by lia. done.
Qed.

End Reboot.

(** ** Properties *)

Section Properties.

Context {W E : Type} `{!EnvOps W} `{!BootOps W E}.
Context (CONFIG_STATE : bool).

(** C18: the right target is chosen, when the reset of priorities that are all zero
    is not configured.  With a freshly created boot chooser,
    [bootchooser_get_target] picks the bootable target with the highest
    priority, the one configured first among equals; it takes exactly one
    attempt off that target, or none when attempts are locked, changes no
    other target and remembers the choice.  It fails with -ENOENT, changing
    nothing, exactly when no target is enabled with attempts left.  That reset
    gives new priorities to targets which were sorted before, see
    [reset_priorities_unsorted]. *)
Theorem bootchooser_choice g (w w1 : W) bc g' r w' bc' :
  the_bootchooser g = None -> bootchooser_get CONFIG_STATE g w = (Ok bc, g') ->
  Z.testbit (reset_priorities g) RESET_PRIORITIES_ALL_ZERO = false ->
  bootchooser_get_target CONFIG_STATE w1 bc = (r, w', bc') ->
  match r with
  | Err e => e = - ENOENT /\ bc' = bc /\
      Forall (fun u => priority u = 0 \/ remaining_attempts u = 0) (targets bc)
  | Ok t' => exists l t rest, targets bc = l ++ t :: rest /\ targets bc' = l ++ t' :: rest /\
      priority t <> 0 /\ remaining_attempts t <> 0 /\
      (forall u, u ∈ targets bc -> priority u <> 0 -> remaining_attempts u <> 0 ->
         u = t \/ boot_order t u) /\
      t' = (if bc_attempts_locked bc then t else set_att t (remaining_attempts t - 1)) /\
      last_chosen bc' = Some (id t)
  end.
Proof.
  intros Hg Hget Hrp Hgt. pose proof (bootchooser_get_wf _ _ _ _ _ Hg Hget) as Hwf.
  pose proof (bootchooser_get_sorted _ _ _ _ _ Hg Hget Hrp) as Hs. destruct r as [t'|e].
  - destruct (get_target_Ok CONFIG_STATE w1 bc t' w' bc' Hwf Hgt)
      as (l & t & rest & El & Ef & Hok & -> & El' & Hlc & _).
    destruct (find_ok_first _ _ Ef Hs) as (_ & _ & Hfirst). apply ok_spec in Hok as [Hp Ha].
    exists l, t, rest. split_and!; try done.
    intros u Hu Hpu Hau. apply Hfirst; [done|]. by apply ok_spec.
  - apply get_target_Err in Hgt as (-> & -> & Hall). split_and!; [done..|].
    eapply Forall_impl; [exact Hall|]. intros u Hu. cbn in Hu.
    destruct (decide (priority u = 0)), (decide (remaining_attempts u = 0)); [by left..|by right|].
    rewrite (proj2 (ok_spec u)) in Hu; done.
Qed.

(** C19: booting terminates, unless attempts are locked and retrying is enabled.
    However the boot entries behave, the retry loop needs at most one round more than
    there are attempts left; with retrying enabled it ends with a successful boot, or
    with -ENOENT when no target is left that can be booted.  In the excluded case it
    can go on for ever, see [bootchooser_locked_loops]. *)
Theorem bootchooser_boot_terminates fuel g (w : W) bc (entry : option E) :
  bc_wf bc -> total (targets bc) < Z.of_nat fuel ->
  match bootchooser_boot CONFIG_STATE fuel g w bc entry with
  | Some (ret, g', w', bc') => retry g = true -> ret = 0 \/
      ret = - ENOENT /\ Forall (fun t => bootchooser_target_ok t = false) (targets bc')
  | None => bc_attempts_locked bc = true /\ retry g = true
  end.
Proof. apply boot_terminates. Qed.

(** With attempts locked and retrying enabled the loop never ends when
    the chosen target has nothing to boot: no amount of fuel is enough. *)
Theorem bootchooser_locked_loops fuel g (w : W) bc (entry : option E) :
  bc_wf bc -> bc_attempts_locked bc = true -> retry g = true ->
  Exists (fun t => bootchooser_target_ok t = true) (targets bc) ->
  (forall w n, fst (fst (bootentry_create_from_name w n)) <= 0) ->
  bootchooser_boot CONFIG_STATE fuel g w bc entry = None.
Proof.
  intros Hwf Hlock Hretry Hok Hfail. revert w bc Hwf Hlock Hok.
  induction fuel as [|fuel IH]; intros w bc Hwf Hlock Hok; cbn [bootchooser_boot]; [done|].
  unfold bootchooser_boot_one.
  destruct (bootchooser_get_target CONFIG_STATE w bc) as [[[t'|e] w1] bc1] eqn:Eg.
  - destruct (get_target_Ok CONFIG_STATE w bc t' w1 bc1 Hwf Eg)
      as (l & t & r & El & _ & _ & Et & El' & _ & Hl').
    unfold chosen in Et. rewrite Hlock in Et. subst t'.
    pose proof (Hfail (set_bootargs w1 (Some ("bootchooser.active=" +:+ name t))) (boot t)) as Hn.
    destruct (bootentry_create_from_name _ _) as [[n es] w2]. cbn [fst] in Hn.
    rewrite (proj2 (Z.leb_le n 0)) by done. rewrite Hretry. cbn [negb].
    rewrite <- El in El'. apply IH; [by unfold bc_wf; rewrite El'|congruence|by rewrite El'].
  - apply get_target_Err in Eg as (_ & _ & Hall). exfalso.
    apply Exists_exists in Hok as (t & Hin & Ht).
    pose proof (proj1 (Forall_forall _ _) Hall t Hin). cbn in *. congruence.
Qed.

(** C35: a device never locks itself out.  With both automatic resets
    configured and non-zero defaults, a freshly created boot chooser always has
    a target to boot, whatever the stored counters are. *)
Theorem bootchooser_never_stuck g (w w1 : W) bc g' r w' bc' :
  the_bootchooser g = None -> bootchooser_get CONFIG_STATE g w = (Ok bc, g') ->
  Z.testbit (reset_priorities g) RESET_PRIORITIES_ALL_ZERO = true ->
  Z.testbit (reset_attempts g) RESET_ATTEMPTS_ALL_ZERO = true ->
  Forall (fun t => default_priority t <> 0 /\ default_attempts t <> 0) (targets bc) ->
  bootchooser_get_target CONFIG_STATE w1 bc = (r, w', bc') -> exists t, r = Ok t.
Proof.
  intros Hg Hget Hrp Hra Hdef Hgt. destruct r as [t|e]; [by exists t|]. exfalso.
  apply get_target_Err in Hgt as (_ & _ & Hall).
  destruct (bootchooser_get_new CONFIG_STATE g w bc g' Hg Hget)
    as (st & sp & locked & g1 & bc1 & _ & Hne & Hp & _ & Eprep & -> & _).
  revert Hne Hp Eprep. set (bc0 := Bc [] None st sp 0 locked 0 0).
  set (ts := fst (target_loop _ _ _ _ _ _ _)). cbv zeta. intros Hne Hp Eprep.
  pose proof (prepare_same g w (set_targets bc0 ts)) as Hsame.
  rewrite targets_set_refs in Hall, Hdef. rewrite Eprep, targets_set in Hsame. cbn [snd] in Hsame.
  assert (Hok : some_ok (targets bc1)).
  { pose proof (prepare_some_ok g w (set_targets bc0 ts) Hrp Hra) as Hok.
    rewrite Eprep, targets_set in Hok. apply Hok.
    - intros E0. rewrite E0 in Hp. destruct (target_names _ _); [done|].
      by apply Permutation_nil in Hp.
    - pose proof (proj1 (number_targets_ids g w bc0 1 (target_names
        (S (String.length (available_targets g))) (Some (available_targets g))))) as Hids.
      rewrite <- Hp in Hids. clear -Hsame Hdef Hids.
      induction Hsame as [|t t' ts ts' (_ & _ & _ & E4 & E5 & _) _ IH]; [constructor|].
      apply Forall_cons_1 in Hdef as [[Hd1 Hd2] Hdef]. apply Forall_cons_1 in Hids as [[_ Hf] Hids].
      constructor; [by rewrite E4, E5 in *|by apply IH]. }
  destruct Hok as [Hex _]. apply Exists_exists in Hex as (t & Hin & Ht).
  pose proof (proj1 (Forall_forall _ _) Hall t Hin). cbn in *. congruence.
Qed.

End Properties.

Lemma same_target_idn ts ts' :
  Forall2 same_target ts ts' ->
  map (fun t => (id t, name t)) ts = map (fun t => (id t, name t)) ts'.
Proof. induction 1 as [|t t' ts ts' (E1 & E2 & _) _ IH]; cbn; congruence. Qed.

(** Prefixes built from the names. *)
Definition prefixed (sp : string) (t : bootchooser_target) : Prop :=
  t_state_prefix t = sp +:+ "." +:+ name t.

Lemma same_target_prefixed sp ts ts' :
  Forall2 same_target ts ts' -> Forall (prefixed sp) ts -> Forall (prefixed sp) ts'.
Proof.
  induction 1 as [|t t' ts ts' (_ & E2 & E3) _ IH]; [done|]. intros [Ht Hts]%Forall_cons_1.
  unfold prefixed in Ht. constructor; [unfold prefixed; congruence|by apply IH].
Qed.

Lemma prefixed_NoDup sp ts :
  Forall (prefixed sp) ts -> NoDup (map name ts) -> NoDup (map t_state_prefix ts).
Proof.
  induction 1 as [|t ts Ht Hts IH]; cbn; [constructor|]. intros [Hni Hnd]%NoDup_cons.
  constructor; [|by apply IH]. intros (u & Eu & Hu)%list_elem_of_In%in_map_iff.
  apply list_elem_of_In in Hu. apply Hni. pose proof (proj1 (Forall_forall _ _) Hts u Hu) as Hp.
  unfold prefixed in *. rewrite Ht, Hp in Eu. apply app_str_inj_r, app_str_inj_r in Eu.
  rewrite <- Eu. by apply list_elem_of_In, in_map, list_elem_of_In.
Qed.

(** Dropping the last reference saves. *)
Lemma put_saves {W} `{!EnvOps W} cs g (w : W) bc g' w' :
  refs bc = 1 -> bootchooser_put cs g w bc = (0, g', w') ->
  bootchooser_save cs w (set_refs bc 0) = (0, w').
Proof.
  intros Hr. unfold bootchooser_put. rewrite Hr.
  replace (refs (set_refs bc (1 - 1))) with 0 by (by destruct bc).
  cbn [Z.eqb negb]. change (1 - 1) with 0.
  destruct (bootchooser_save cs w (set_refs bc 0)) as [r w1]. by intros [= -> _ ->].
Qed.

(** The counters survive a reset.  When the last reference is dropped and
    the save succeeds, the next boot, with the same configuration, the same
    variables and no reset condition, reads back every target with the
    priority and the attempts it had, and the target chosen last (if its
    variable could be set). *)
Theorem bootchooser_put_get {W} `{!EnvOps W} `{!EnvOk W} g g1 g1' g2 g3 (w w1 w2 w3 : W) bc0 bc :
  the_bootchooser g = None -> bootchooser_get true g w = (Ok bc0, g1) -> bc_state bc0 <> None ->
  bc_state bc = bc_state bc0 -> bc_state_prefix bc = bc_state_prefix bc0 ->
  Forall2 same_target (targets bc0) (targets bc) -> Forall saveable (targets bc) ->
  NoDup (map name (targets bc)) -> refs bc = 1 ->
  bootchooser_put true g1' w1 bc = (0, g2, w2) ->
  next_boot g g3 -> (forall k, getenv w3 k = getenv w2 k) ->
  (forall n, env_state_by_name w3 n = env_state_by_name w n) ->
  exists bc3 g4, bootchooser_get true g3 w3 = (Ok bc3, g4) /\
    map stored_view (targets bc3) ≡ₚ map stored_view (targets bc) /\
    (forall i, last_chosen bc = Some i -> i ∈ map id (targets bc) ->
       parse_assignment (bc_state_prefix bc) = None ->
       fst (bc_setenv w1 bc (bc_state_prefix bc +:+ ".last_chosen=" +:+ fmt_d i)) = 0 ->
       last_chosen bc3 = Some i).
Proof.
  intros Hg Hget Hst Est Esp Hsame Hall Hnd Hrefs Hput Hnb Henv Hstate.
  destruct (get_next true g w bc0 g1 g3 w3 Hg Hget Hnb Hstate)
    as (bc3 & locked & Hget3 & Hts & Hlc3 & Hpre).
  exists bc3, (set_bootchooser g3 (Some bc3)). split; [done|].
  pose proof (same_target_idn _ _ Hsame) as Hidn.
  pose proof (same_target_prefixed _ _ _ Hsame Hpre) as Hpre'.
  pose proof (prefixed_NoDup _ _ Hpre' Hnd) as Hndp.
  pose proof (put_saves true g1' w1 bc g2 w2 Hrefs Hput) as Hsave.
  apply bootchooser_save_ok in Hsave as [Hvals Hlast]; [|by destruct bc; cbn in *; congruence|done|
    by rewrite targets_set_refs|by rewrite targets_set_refs].
  rewrite targets_set_refs in Hvals. cbv zeta in Hts, Hlc3.
  assert (Hview : map stored_view (targets bc3) ≡ₚ map stored_view (targets bc)).
  { rewrite Hts, Hidn, !map_map. apply Permutation_map_ext. intros t Ht. cbn [fst snd].
    destruct (Hvals t Ht) as [Hvp Hva]. apply read_back; rewrite ?Henv; try done.
    - by apply (proj1 (Forall_forall _ _) Hall).
    - by apply (proj1 (Forall_forall _ _) Hpre'). }
  split; [done|]. intros i Hlc Hi Hpa Hset. rewrite Hlc3.
  assert (Hids : map id (targets bc3) ≡ₚ map id (targets bc)).
  { pose proof (Permutation_map (fun v => fst (fst (fst v))) Hview) as Hm. by rewrite !map_map in Hm. }
  apply find_last_chosen_ok.
  - cbn. rewrite Henv, <- Esp.
    destruct bc as [ts lc st sp rf lk vb dr]. cbn in *. apply (Hlast i); try done.
    apply list_elem_of_In, in_map_iff in Hi as (t & <- & Ht). apply list_elem_of_In in Ht.
    pose proof (proj1 (Forall_forall _ _) Hall t Ht) as (_ & _ & Hr & _). lia.
  - apply list_elem_of_In, in_map_iff in Hi as (t & <- & Ht). apply list_elem_of_In in Ht.
    by pose proof (proj1 (Forall_forall _ _) Hall t Ht) as (_ & _ & Hr & _).
  - rewrite targets_set. by rewrite Hids.
  - rewrite targets_set. apply (Forall_map_perm id (fun i => 0 < i < 2 ^ 31) (targets bc)); [done|].
    eapply Forall_impl; [exact Hall|]. intros t Ht. unfold saveable in Ht. tauto.
Qed.

(** ** A concrete environment *)

Module Demo.

(** The variables of one state named "state". *)
Definition env : Type := list (string * string).

Fixpoint lookup_env (w : env) (k : string) : option string :=
  match w with
  | [] => None
  | (k', v) :: w => if bool_decide (k' = k) then Some v else lookup_env w k
  end.

Definition demo_ops (src : reset_src_type) : EnvOps env := {|
  getenv := lookup_env;
  setenv w k v := (0, (k, v) :: w);
  nvvar_add w k v := (0, (k, v) :: w);
  nvvar_save w := (0, w);
  env_state_by_name _ n := bool_decide (n = "state"%string);
  env_state_save w _ := (0, w);
  reset_source_get _ := src
|}.

#[export] Instance demo_env : EnvOps env := demo_ops RESET_UKWN.

#[export] Instance demo_env_ok : EnvOk env.
Proof.
  split; cbn.
  - intros w k v r w' [= <- <-] k' Hne. cbn. by rewrite bool_decide_eq_false_2 by congruence.
  - intros w k z w' _ [= <-]. cbn. by rewrite bool_decide_eq_true_2.
  - by intros w st r w' [= <- <-].
Qed.

(** Entries that exist but fail to boot, and targets without entries. *)
#[export] Instance failing_boot : BootOps env unit := {|
  bootentry_create_from_name w n :=
    if bool_decide (n = "a"%string) then (1, [tt], w) else (0, [], w);
  boot_entry w _ _ _ := (- EIO, w);
  bootm_merge_overrides e _ := e;
  set_bootargs w _ := w
|}.

Definition nothing_boots : BootOps env unit := {|
  bootentry_create_from_name w n := (0, [], w);
  boot_entry w _ _ _ := (- EIO, w);
  bootm_merge_overrides e _ := e;
  set_bootargs w _ := w
|}.

Definition config (rs_prio rs_att : Z) : globals :=
  Globals "a b" "state.boot" 3 1 false true false false rs_att rs_prio false None.

Definition vars (pa aa pb ab : string) : env :=
  [("state.boot.a.priority", pa); ("state.boot.a.remaining_attempts", aa);
   ("state.boot.b.priority", pb); ("state.boot.b.remaining_attempts", ab);
   ("state.boot.last_chosen", "1")]%string.

Definition boot_vars : env := vars "10" "3" "20" "2".

Definition from_res (r : res bootchooser) : bootchooser :=
  match r with Ok bc => bc | Err _ => Bc [] None None EmptyString 0 false 0 0 end.

Definition demo_bc : bootchooser := from_res (fst (bootchooser_get true (config 0 0) boot_vars)).

Lemma demo_get :
  bootchooser_get true (config 0 0) boot_vars =
  (Ok demo_bc, set_bootchooser (config 0 0) (Some demo_bc)).
Proof. vm_compute. reflexivity. Qed.

Lemma bootchooser_choice_witness :
  exists l t rest, targets demo_bc = l ++ t :: rest /\ name t = "b"%string /\
    (forall u, u ∈ targets demo_bc -> priority u <> 0 -> remaining_attempts u <> 0 ->
       u = t \/ boot_order t u).
Proof.
  pose proof (bootchooser_choice true (config 0 0) boot_vars boot_vars demo_bc _ _ _ _
    eq_refl demo_get eq_refl (eq_refl (bootchooser_get_target true boot_vars demo_bc))) as H.
  destruct H as (l & t & rest & E & E' & _ & _ & H & _ & Hid).
  exists l, t, rest. split_and!; [exact E| |exact H].
  destruct l as [|x l]; [vm_compute in E; by injection E as <- <-|].
  vm_compute in E. destruct l as [|y l]; [|by destruct l].
  injection E as <- <- <-. by vm_compute in Hid.
Defined.

Lemma demo_wf : bc_wf demo_bc.
Proof. exact (bootchooser_get_wf true (config 0 0) boot_vars demo_bc _ eq_refl demo_get). Qed.

Lemma bootchooser_boot_terminates_witness :
  exists ret g' w' bc',
    bootchooser_boot true 6 (config 0 0) boot_vars demo_bc None = Some (ret, g', w', bc') /\
    (ret = 0 \/ ret = - ENOENT /\ Forall (fun t => bootchooser_target_ok t = false) (targets bc')).
Proof.
  pose proof (bootchooser_boot_terminates true 6 (config 0 0) boot_vars demo_bc None demo_wf
    ltac:(vm_compute; reflexivity)) as H.
  destruct (bootchooser_boot true 6 (config 0 0) boot_vars demo_bc None) as [[[[ret g'] w'] bc']|].
  - exists ret, g', w', bc'. split; [reflexivity|exact (H eq_refl)].
  - destruct H as [H _]. discriminate H.
Defined.

Definition locked_bc : bootchooser :=
  let 'Bc ts lc s sp r _ v d := demo_bc in Bc ts lc s sp r true v d.

Lemma bootchooser_locked_loops_witness :
  @bootchooser_boot env unit demo_env nothing_boots true 1000 (config 0 0) boot_vars locked_bc None
  = None.
Proof.
  apply (@bootchooser_locked_loops env unit demo_env nothing_boots true 1000);
    [exact demo_wf|reflexivity|reflexivity|left; reflexivity|intros; cbn; lia].
Defined.

(** All counters used up and both targets disabled. *)
Definition dead_vars : env := vars "0" "0" "0" "0".

Definition dead_bc : bootchooser := from_res (fst (bootchooser_get true (config 1 2) dead_vars)).

Lemma dead_get :
  bootchooser_get true (config 1 2) dead_vars =
  (Ok dead_bc, set_bootchooser (config 1 2) (Some dead_bc)).
Proof. vm_compute. reflexivity. Qed.

Lemma dead_defaults :
  Forall (fun t => default_priority t <> 0 /\ default_attempts t <> 0) (targets dead_bc).
Proof. vm_compute. repeat constructor; discriminate. Qed.

Lemma bootchooser_never_stuck_witness :
  exists t, fst (fst (bootchooser_get_target true dead_vars dead_bc)) = Ok t.
Proof.
  destruct (bootchooser_get_target true dead_vars dead_bc) as [[r w'] bc'] eqn:E.
  exact (bootchooser_never_stuck true (config 1 2) dead_vars dead_vars dead_bc _ r w' bc'
           eq_refl dead_get eq_refl eq_refl dead_defaults E).
Defined.

(** After booting "b" once. *)
Definition used_bc : bootchooser := snd (bootchooser_get_target true boot_vars demo_bc).

Definition used_put : Z * globals * env := bootchooser_put true (config 0 0) boot_vars used_bc.

Lemma used_saveable : Forall saveable (targets used_bc).
Proof.
  assert (H : map (fun t => (priority t, remaining_attempts t, id t,
                parse_assignment (t_state_prefix t))) (targets used_bc)
              = [(20, 1, 2, None); (10, 3, 1, None)]) by (vm_compute; reflexivity).
  destruct (targets used_bc) as [|t1 [|t2 [|t3 ts]]]; [done..| |done].
  injection H as H1 H2 H3 H4 H5 H6 H7 H8.
  repeat constructor; unfold saveable; rewrite ?H1, ?H2, ?H3, ?H5, ?H6, ?H7; lia || done.
Qed.

Lemma bootchooser_put_get_witness :
  exists bc3 g4, bootchooser_get true (config 0 0) (snd used_put) = (Ok bc3, g4) /\
    map stored_view (targets bc3) ≡ₚ map stored_view (targets used_bc).
Proof.
  destruct (bootchooser_put_get (config 0 0) (set_bootchooser (config 0 0) (Some demo_bc))
    (config 0 0) (snd (fst used_put)) (config 0 0) boot_vars boot_vars (snd used_put)
    (snd used_put) demo_bc used_bc) as (bc3 & g4 & H1 & H2 & _).
  - reflexivity.
  - exact demo_get.
  - vm_compute. discriminate.
  - vm_compute. reflexivity.
  - vm_compute. reflexivity.
  - vm_compute. repeat constructor.
  - exact used_saveable.
  - apply (bool_decide_unpack _). vm_compute. exact I.
  - vm_compute. reflexivity.
  - vm_compute. reflexivity.
  - repeat split.
  - reflexivity.
  - reflexivity.
  - exists bc3, g4. split; [exact H1|exact H2].
Defined.

(** Resetting the priorities does not sort the list again: with defaults 1 for
    "a" and 5 for "b" the less preferred "a" is booted. *)
Example reset_priorities_unsorted :
  let w := (("global.bootchooser.b.default_priority", "5")%string :: dead_vars) in
  let bc := from_res (fst (bootchooser_get true (config 1 2) w)) in
  match fst (fst (bootchooser_get_target true w bc)) with
  | Ok t => name t = "a"%string /\
      map (fun u => (name u, priority u)) (targets bc) = [("a"%string, 1); ("b"%string, 5)]
  | Err _ => False
  end.
Proof. vm_compute. by split. Qed.

(** Two priorities of 2^31 add up to zero, and count as disabled. *)
Example priority_sum_wraps :
  let bc := from_res (fst (bootchooser_get true (config 1 0)
              (vars "2147483648" "3" "2147483648" "2"))) in
  map priority (targets bc) = [1; 1].
Proof. vm_compute. reflexivity. Qed.

(** Attempts of 2^31 and more are saved as a negative number, which reads
    back as zero. *)
Example large_attempts_lost :
  fmt_d 4294967295 = "-1"%string /\ fst (simple_strtoul (fmt_d 4294967295) 0) = 0.
Proof. vm_compute. by split. Qed.

End Demo.

End Bootchooser.
