(* ===== verification/Resource.v ===== *)
(** * Resource regions (common/resource.c, include/linux/ioport.h)

    The tree of address ranges with which drivers and the memory code reserve
    physical memory, I/O space and the areas of a loaded image.  A region is a
    value with the ordered list of its children; a [struct resource *] is the
    parent together with the index of the child, and an operation on such a
    pointer returns the changed parent.  The parent pointer of a region is the
    region it is a child of.

    The abstract view of a parent is the function [owner] from addresses to the
    child that holds them: requesting, releasing, resizing and merging are
    specified by what they do to it. *)

From stdpp Require Import base list strings relations.
From Stdlib Require Import ZArith Lia.
From S2P Require Import Prelude.

Module Resource.

#[warnings="-register-all"]
Inductive resource := Res {
  r_start : Z;
  r_end : Z;
  r_name : string;
  r_flags : Z;
  r_type : Z;
  r_attrs : Z;
  r_runtime : Z;
  children : list resource
}.

Definition IORESOURCE_UNSET : Z := 0x20000000.

Definition region_is_gap (r : resource) : bool := negb (Z.land (r_flags r) IORESOURCE_UNSET =? 0).

Definition resource_size (r : resource) : Z := u64 (r_end r - r_start r + 1).

Definition resource_adjacent (r1 r2 : resource) : bool :=
  (negb (r_end r1 =? 2 ^ 64 - 1) && (r_end r1 + 1 =? r_start r2)) ||
  (negb (r_end r2 =? 2 ^ 64 - 1) && (r_end r2 + 1 =? r_start r1)).

(** ** Field updates *)

Definition set_children (r : resource) (l : list resource) : resource :=
  Res (r_start r) (r_end r) (r_name r) (r_flags r) (r_type r) (r_attrs r) (r_runtime r) l.
Definition set_start (r : resource) (s : Z) : resource :=
  Res s (r_end r) (r_name r) (r_flags r) (r_type r) (r_attrs r) (r_runtime r) (children r).
Definition set_end (r : resource) (e : Z) : resource :=
  Res (r_start r) e (r_name r) (r_flags r) (r_type r) (r_attrs r) (r_runtime r) (children r).
Definition set_name (r : resource) (n : string) : resource :=
  Res (r_start r) (r_end r) n (r_flags r) (r_type r) (r_attrs r) (r_runtime r) (children r).

(** ** Requesting *)

(** [xzalloc] and [init_resource], then the fields. *)
Definition new_region (start end_ : Z) (name : string) (flags : Z) : resource :=
  Res start end_ name flags 0 0 0 [].

(** The search for conflicts and the insertion; the index is that of the new
    child. *)
Fixpoint insert_region (new : resource) (l : list resource) : res (list resource * nat) :=
  match l with
  | [] => Ok ([new], O)
  | r :: l' =>
      if r_end new <? r_start r then Ok (new :: l, O)
      else if r_end r <? r_start new then
        match insert_region new l' with
        | Ok (l', i) => Ok (r :: l', S i)
        | Err e => Err e
        end
      else Err (- EBUSY)
  end.

Definition __request_region (parent : resource) (start end_ : Z) (name : string) (flags : Z)
  : res (resource * nat) :=
  if end_ <? start then Err (- EINVAL)
  else if (start <? r_start parent) || (r_end parent <? end_) then Err (- EINVAL)
  else
    match insert_region (new_region start end_ name flags) (children parent) with
    | Ok (l, i) => Ok (set_children parent l, i)
    | Err e => Err e
    end.

(** ** Resizing *)

(** [around] is the end of the parent and the start of the next sibling. *)
Definition resize_region (around : option (Z * option Z)) (r : resource) (size : Z)
  : Z * resource :=
  if size =? 0 then (- EINVAL, r)
  else if size =? resource_size r then (0, r)
  else if size <? resource_size r then
    let end_ := u64 (r_start r + size - 1) in
    match last (children r) with
    | Some c => if end_ <? r_end c then (- EBUSY, r) else (0, set_end r end_)
    | None => (0, set_end r end_)
    end
  else
    match around with
    | None => (- EINVAL, r)
    | Some (parent_end, next) =>
        let newend := r_start r + (size - 1) in
        if 2 ^ 64 <=? newend then (- EINVAL, r)
        else if parent_end <? newend then (- EINVAL, r)
        else
          match next with
          | Some next_start => if next_start <=? newend then (- EBUSY, r) else (0, set_end r newend)
          | None => (0, set_end r newend)
          end
    end.

Definition resize_child (parent : resource) (i : nat) (size : Z) : Z * resource :=
  match children parent !! i with
  | None => (0, parent)
  | Some r =>
      let next := r_start <$> (children parent !! S i) in
      let '(ret, r) := resize_region (Some (r_end parent, next)) r size in
      (ret, set_children parent (<[i := r]> (children parent)))
  end.

(** ** Releasing *)

Definition release_region (parent : resource) (i : nat) : Z * resource :=
  match children parent !! i with
  | None => (0, parent)
  | Some r =>
      if bool_decide (children r = []) then (0, set_children parent (delete i (children parent)))
      else (- EBUSY, parent)
  end.

Section ReleaseRange.

Context {D : Type} (should_free : resource -> D -> Z * D).

(** One child: the regions it is replaced by and an error, or an early
    return. *)
Definition release_one (start end_ : Z) (r : resource) (d : D)
  : res (list resource * Z) * D :=
  if (end_ <? r_start r) || (r_end r <? start) then (Ok ([r], 0), d)
  else
    let '(ret, d) := should_free r d in
    if ret <? 0 then (Err ret, d)
    else if ret =? 0 then (Ok ([r], 0), d)
    else
      let busy := negb (bool_decide (children r = [])) in
      if busy then (Ok ([r], - EBUSY), d)
      else if (start <=? r_start r) && (r_end r <=? end_) then (Ok ([], 0), d)
      else if (start <=? r_start r) && (end_ <? r_end r) then
        (Ok ([set_start r (end_ + 1)], 0), d)
      else if (r_start r <? start) && (r_end r <=? end_) then
        (Ok ([set_end r (start - 1)], 0), d)
      else
        let right := new_region (end_ + 1) (r_end r) (r_name r) (r_flags r) in
        (Ok ([set_end r (start - 1); right], 0), d).

(** The result is the early return, if any, the children and the last error. *)
Fixpoint release_loop (start end_ : Z) (l : list resource) (d : D) (err : Z)
  : option Z * list resource * Z * D :=
  match l with
  | [] => (None, [], err, d)
  | r :: l =>
      match release_one start end_ r d with
      | (Err ret, d) => (Some ret, r :: l, err, d)
      | (Ok (rs, e), d) =>
          let '(ret, l, err, d) := release_loop start end_ l d (if e =? 0 then err else e) in
          (ret, rs ++ l, err, d)
      end
  end.

Definition release_region_range (parent : resource) (start size : Z) (d : D)
  : Z * resource * D :=
  let end_ := u64 (start + size - 1) in
  if (end_ <? r_start parent) || (r_end parent <? start) then (0, parent, d)
  else
    let '(ret, l, err, d) := release_loop start end_ (children parent) d 0 in
    (match ret with
     | Some ret => ret
     | None => if err =? 0 then 0 else 1
     end, set_children parent l, d).

End ReleaseRange.

Definition yes_free (r : resource) (d : unit) : Z * unit := (1, d).

(** ** Merging *)

Definition __merge_regions (parent : resource) (name : string) (a b : nat) : Z * resource :=
  match children parent !! a, children parent !! b with
  | Some resa, Some resb =>
      if negb (resource_adjacent resa resb) then (- EINVAL, parent)
      else
        let resa := if r_start resa <? r_start resb
                    then set_end resa (r_end resb) else set_start resa (r_start resb) in
        let parent := set_children parent (<[a := set_name resa name]> (children parent)) in
        let '(_, parent) := release_region parent b in
        (0, parent)
  | _, _ => (0, parent)
  end.

(** ** The root regions *)

Definition iomem_resource : resource := Res 0 (2 ^ 64 - 1) "iomem" 0 0 0 0 [].

Definition request_iomem_region (iomem : resource) (name : string) (start end_ : Z)
  : res (resource * nat) := __request_region iomem start end_ name 0.

Definition request_ioport_region (ioport : resource) (name : string) (start end_ : Z)
  : res (resource * nat) :=
  match __request_region ioport start end_ name 0 with
  | Err e => Err e
  | Ok r => Ok r
  end.

(** ** Iterating over children and gaps

    A region is a child or a gap; [next] is the index of the child behind it
    ([sibling.next]; the number of children stands for the list head), and the
    one before it is [next - 2] for a child and [next - 1] for a gap. *)

Inductive region :=
| RChild (i : nat) (r : resource)
| RGap (next : nat) (r : resource).

Definition region_res (g : region) : resource :=
  match g with RChild _ r => r | RGap _ r => r end.

Definition region_next (g : region) : nat :=
  match g with RChild i _ => S i | RGap next _ => next end.

Definition resource_iter_gap (parent : resource) (before after : option resource) (next : nat)
  : region :=
  RGap next
    (Res (match before with Some b => u64 (r_end b + 1) | None => r_start parent end)
         (match after with Some a => u64 (r_start a - 1) | None => r_end parent end)
         EmptyString (Z.lor IORESOURCE_UNSET (r_flags parent)) (r_type parent) (r_attrs parent) 0 []).

Definition child_at (parent : resource) (i : nat) : option region :=
  RChild i <$> (children parent !! i).

Definition resource_iter_first (parent : resource) (gap : bool) : option region :=
  if region_is_gap parent then None
  else
    let child := head (children parent) in
    if negb gap ||
       match child with Some c => r_start parent =? r_start c | None => false end
    then child_at parent 0
    else Some (resource_iter_gap parent None child 0).

Definition resource_iter_last (parent : resource) (gap : bool) : option region :=
  if region_is_gap parent then None
  else
    let child := last (children parent) in
    if negb gap ||
       match child with Some c => r_end parent =? r_end c | None => false end
    then child_at parent (length (children parent) - 1)
    else Some (resource_iter_gap parent child None (length (children parent))).

Definition resource_iter_next (parent : resource) (current : region) (gap : bool)
  : option region :=
  let cur := region_res current in
  if r_end cur =? r_end parent then None
  else
    let next := children parent !! region_next current in
    if negb gap || match next with Some n => resource_adjacent cur n | None => false end
    then child_at parent (region_next current)
    else Some (resource_iter_gap parent (Some cur) next (region_next current)).

(** The child before a region. *)
Definition prev_child (parent : resource) (current : region) : option (nat * resource) :=
  match current with
  | RChild (S i) _ | RGap (S i) _ => pair i <$> (children parent !! i)
  | _ => None
  end.

Definition resource_iter_prev (parent : resource) (current : region) (gap : bool)
  : option region :=
  let cur := region_res current in
  if r_start cur =? r_start parent then None
  else
    match prev_child parent current with
    | Some (i, p) =>
        if negb gap || resource_adjacent p cur then Some (RChild i p)
        else Some (resource_iter_gap parent (Some p) (Some cur) (S i))
    | None =>
        if negb gap then None
        else Some (resource_iter_gap parent None (Some cur) 0)
    end.

(** [for_each_resource_region]: the regions in the order they are visited. *)
Fixpoint iterate (step : region -> option region) (fuel : nat) (cur : option region)
  : list region :=
  match fuel, cur with
  | S fuel, Some g => g :: iterate step fuel (step g)
  | _, _ => []
  end.

(** Between two children there is at most one gap. *)
Definition iter_fuel (parent : resource) : nat := 2 * length (children parent) + 1.

Definition for_each_resource_region (parent : resource) : list region :=
  iterate (fun g => resource_iter_next parent g true) (iter_fuel parent)
    (resource_iter_first parent true).

Definition for_each_resource_region_reverse (parent : resource) : list region :=
  iterate (fun g => resource_iter_prev parent g true) (iter_fuel parent)
    (resource_iter_last parent true).

(** A child, or the gap when the caller wants to know about gaps. *)
Definition lookup_region (parent : resource) (addr : Z) (gap : bool) : option region :=
  match list_find (fun g => r_start (region_res g) <= addr <= r_end (region_res g))
          (for_each_resource_region parent) with
  | None => None
  | Some (_, g) =>
      if negb (region_is_gap (region_res g)) then Some g else if gap then Some g else None
  end.

(** ** Well-formed trees *)

(** The children are ordered, disjoint and inside [lo..hi]. *)
Fixpoint ordered (lo hi : Z) (l : list resource) : Prop :=
  match l with
  | [] => True
  | r :: l => lo <= r_start r /\ r_start r <= r_end r /\ r_end r <= hi /\ ordered (r_end r + 1) hi l
  end.

#[warnings="-register-all"]
Inductive wf : resource -> Prop :=
| wf_intro r :
    0 <= r_start r -> r_start r <= r_end r -> r_end r < 2 ^ 64 ->
    ordered (r_start r) (r_end r) (children r) -> Forall wf (children r) -> wf r.

Lemma wf_inv r :
  wf r -> 0 <= r_start r /\ r_start r <= r_end r /\ r_end r < 2 ^ 64 /\
    ordered (r_start r) (r_end r) (children r) /\ Forall wf (children r).
Proof. by intros []. Qed.

Definition covers (r : resource) (a : Z) : Prop := r_start r <= a <= r_end r.

#[export] Instance covers_dec r a : Decision (covers r a).
Proof. unfold covers. apply _. Defined.

(** The child that holds an address. *)
Definition owner_in (l : list resource) (a : Z) : option resource := snd <$> list_find (fun r => covers r a) l.

Definition owner (parent : resource) (a : Z) : option resource := owner_in (children parent) a.

(** ** Ordered lists *)

Lemma ordered_weaken lo lo' hi hi' l :
  lo' <= lo -> hi <= hi' -> ordered lo hi l -> ordered lo' hi' l.
Proof.
  revert lo lo'. induction l as [|r l IH]; intros lo lo' Hlo Hhi; cbn; [done|].
  intros (H1 & H2 & H3 & H4). split_and!; [lia..|]. by eapply IH; [| |exact H4]; lia.
Qed.

Lemma ordered_app lo hi l1 r l2 :
  ordered lo hi (l1 ++ r :: l2) <->
  ordered lo (r_start r - 1) l1 /\ lo <= r_start r /\ r_start r <= r_end r /\ r_end r <= hi /\
  ordered (r_end r + 1) hi l2.
Proof.
  revert lo. induction l1 as [|x l1 IH]; intros lo; cbn; [tauto|]. rewrite IH. split.
  - intros (? & ? & ? & ? & ? & ? & ? & ?). split_and!; done || lia.
  - intros ((? & ? & ? & ?) & ? & ? & ? & ?). split_and!; done || lia.
Qed.

Lemma ordered_bounds lo hi l r : ordered lo hi l -> r ∈ l -> lo <= r_start r /\ r_start r <= r_end r <= hi.
Proof.
  intros Ho Hin. apply list_elem_of_split in Hin as (l1 & l2 & ->).
  apply ordered_app in Ho. tauto.
Qed.

Lemma owner_in_cons r l a : owner_in (r :: l) a = if decide (covers r a) then Some r else owner_in l a.
Proof.
  unfold owner_in. cbn. case_decide; [done|]. by destruct (list_find _ l) as [[? ?]|].
Qed.

Lemma owner_in_app l1 l2 a :
  owner_in (l1 ++ l2) a = match owner_in l1 a with Some r => Some r | None => owner_in l2 a end.
Proof.
  induction l1 as [|r l1 IH]; cbn [app]; [done|]. rewrite !owner_in_cons. by case_decide.
Qed.

Lemma owner_in_Some l a r : owner_in l a = Some r -> r ∈ l /\ covers r a.
Proof.
  induction l as [|x l IH]; [done|]. rewrite owner_in_cons. case_decide.
  - intros [= ->]. by split; [left|].
  - intros [? ?]%IH. by split; [right|].
Qed.

Lemma owner_in_outside lo hi l a : ordered lo hi l -> a < lo \/ hi < a -> owner_in l a = None.
Proof.
  intros Ho Ha. destruct (owner_in l a) as [r|] eqn:E; [|done].
  apply owner_in_Some in E as [Hin Hc]. pose proof (ordered_bounds _ _ _ _ Ho Hin).
  unfold covers in Hc. lia.
Qed.

(** Replacing a child by ordered pieces inside its range. *)
Lemma owner_in_replace lo hi l1 r rs l2 a :
  ordered lo hi (l1 ++ r :: l2) -> ordered (r_start r) (r_end r) rs ->
  owner_in (l1 ++ rs ++ l2) a =
  if decide (covers r a) then owner_in rs a else owner_in (l1 ++ r :: l2) a.
Proof.
  intros (H1 & H2 & H3 & H4 & H5)%ordered_app Hrs.
  rewrite !owner_in_app, owner_in_cons. case_decide as Hc.
  - unfold covers in Hc. rewrite (owner_in_outside _ _ _ _ H1) by lia.
    rewrite (owner_in_outside _ _ l2 a H5) by lia. by destruct (owner_in rs a).
  - rewrite (owner_in_outside _ _ rs a Hrs); [done|]. unfold covers in Hc. lia.
Qed.

Lemma ordered_concat lo m hi l1 l2 :
  ordered lo m l1 -> lo <= m + 1 -> m <= hi -> ordered (m + 1) hi l2 -> ordered lo hi (l1 ++ l2).
Proof.
  revert lo. induction l1 as [|r l1 IH]; intros lo; cbn.
  - intros _ H1 H2 H3. by eapply ordered_weaken; [| |exact H3]; lia.
  - intros (? & ? & ? & ?) ? ? ?. split_and!; try lia. apply IH; done || lia.
Qed.

Lemma ordered_replace lo hi l1 r rs l2 :
  ordered lo hi (l1 ++ r :: l2) -> ordered (r_start r) (r_end r) rs -> ordered lo hi (l1 ++ rs ++ l2).
Proof.
  intros (H1 & H2 & H3 & H4 & H5)%ordered_app Hrs.
  apply (ordered_concat lo (r_start r - 1)); [done|lia..|].
  replace (r_start r - 1 + 1) with (r_start r) by lia.
  by apply (ordered_concat _ (r_end r)); [done|lia..|].
Qed.

(** Only the last child limits how far the end can move. *)
Lemma ordered_last lo hi hi' l :
  ordered lo hi l -> (forall c, last l = Some c -> r_end c <= hi') -> ordered lo hi' l.
Proof.
  revert lo. induction l as [|r l IH]; intros lo; cbn; [done|]. intros (H1 & H2 & H3 & H4) Hl.
  assert (Hr : r_end r <= hi').
  { destruct l as [|x l]; [by apply Hl|].
    destruct (last (x :: l)) as [c|] eqn:E; [|by apply last_None in E].
    specialize (Hl c E). pose proof (ordered_bounds _ _ _ c H4) as Hb.
    apply last_Some in E as [l' E']. rewrite E' in Hb.
    specialize (Hb ltac:(apply elem_of_app; right; left)). lia. }
  split_and!; try done. apply IH; [done|]. intros c Hc. apply Hl. destruct l; [done|exact Hc].
Qed.

Lemma wf_children r c : wf r -> c ∈ children r -> wf c.
Proof. intros [? _ _ _ _ Hall]. by apply (proj1 (Forall_forall _ _) Hall). Qed.

Lemma wf_set_children r l :
  wf r -> ordered (r_start r) (r_end r) l -> Forall wf l -> wf (set_children r l).
Proof. intros [? H1 H2 H3 _ _] Ho Hall. by constructor. Qed.

Lemma lookup_split (l : list resource) i r :
  l !! i = Some r -> exists l1 l2, l = l1 ++ r :: l2 /\ i = length l1.
Proof.
  intros H. exists (take i l), (drop (S i) l). split; [by rewrite take_drop_middle|].
  apply lookup_lt_Some in H. rewrite length_take. lia.
Qed.

(** ** Requesting *)

Lemma insert_region_Ok new lo hi l l' i :
  ordered lo hi l -> lo <= r_start new -> r_start new <= r_end new -> r_end new <= hi ->
  insert_region new l = Ok (l', i) ->
  exists l1 l2, l = l1 ++ l2 /\ l' = l1 ++ new :: l2 /\ i = length l1 /\ ordered lo hi l'.
Proof.
  intros Ho H1 H2 H3. revert lo l' i H1 Ho. induction l as [|r l IH]; intros lo l' i H1 Ho; cbn.
  { intros [= <- <-]. by exists [], []. }
  destruct Ho as (Ho1 & Ho2 & Ho3 & Ho4). destruct (Z.ltb_spec (r_end new) (r_start r)).
  { intros [= <- <-]. exists [], (r :: l). split_and!; try done. cbn. split_and!; done || lia. }
  destruct (Z.ltb_spec (r_end r) (r_start new)); [|done].
  destruct (insert_region new l) as [[l0 j]|] eqn:E; [|done]. intros [= <- <-].
  destruct (IH (r_end r + 1) l0 j) as (l1 & l2 & -> & -> & -> & Ho'); [lia|done|done|].
  exists (r :: l1), l2. split_and!; try done.
Qed.

Lemma insert_region_Err new lo hi l e :
  ordered lo hi l -> r_start new <= r_end new -> insert_region new l = Err e ->
  e = - EBUSY /\ exists a, covers new a /\ owner_in l a <> None.
Proof.
  intros Ho Hne. revert lo Ho. induction l as [|r l IH]; intros lo Ho; cbn [insert_region]; [done|].
  destruct Ho as (Ho1 & Ho2 & Ho3 & Ho4). destruct (Z.ltb_spec (r_end new) (r_start r)); [done|].
  destruct (Z.ltb_spec (r_end r) (r_start new)).
  - destruct (insert_region new l) as [[l0 j]|] eqn:E; [done|]. intros [= ->].
    destruct (IH _ Ho4 eq_refl) as (-> & a & Ha & Hown). split; [done|]. exists a. split; [done|].
    rewrite owner_in_cons. by case_decide.
  - intros [= <-]. split; [done|]. exists (Z.max (r_start new) (r_start r)).
    unfold covers. split; [lia|]. rewrite owner_in_cons.
    rewrite decide_True by (unfold covers; lia). done.
Qed.

(** A child in an ordered list owns its range. *)
Lemma owner_in_insert lo hi l1 new l2 a :
  ordered lo hi (l1 ++ new :: l2) ->
  owner_in (l1 ++ new :: l2) a = if decide (covers new a) then Some new else owner_in (l1 ++ l2) a.
Proof.
  intros (H1 & H2 & H3 & H4 & H5)%ordered_app. rewrite !owner_in_app, owner_in_cons.
  case_decide as Hc; [|done]. unfold covers in Hc. by rewrite (owner_in_outside _ _ _ _ H1) by lia.
Qed.

Lemma owner_in_gap lo hi l1 new l2 a :
  ordered lo hi (l1 ++ new :: l2) -> covers new a -> owner_in (l1 ++ l2) a = None.
Proof.
  intros (H1 & H2 & H3 & H4 & H5)%ordered_app Hc. unfold covers in Hc.
  rewrite owner_in_app, (owner_in_outside _ _ _ _ H1) by lia.
  by rewrite (owner_in_outside _ _ _ _ H5) by lia.
Qed.

Lemma request_Ok parent start end_ name flags parent' i :
  wf parent -> __request_region parent start end_ name flags = Ok (parent', i) ->
  let new := new_region start end_ name flags in
  r_start parent <= start /\ start <= end_ /\ end_ <= r_end parent /\
  (forall a, covers new a -> owner parent a = None) /\
  wf parent' /\ children parent' !! i = Some new /\ delete i (children parent') = children parent /\
  r_start parent' = r_start parent /\ r_end parent' = r_end parent /\
  (forall a, owner parent' a = if decide (covers new a) then Some new else owner parent a).
Proof.
  intros Hwf. destruct (wf_inv _ Hwf) as (W1 & W2 & W3 & W4 & W5). unfold __request_region.
  destruct (Z.ltb_spec end_ start); [done|].
  destruct (_ || _) eqn:Eo; [done|]. bool_prop.
  destruct (insert_region _ _) as [[l j]|] eqn:E; [|done]. intros [= <- <-]. cbn zeta.
  set (new := new_region start end_ name flags) in *.
  destruct (insert_region_Ok new _ _ _ _ _ W4 ltac:(cbn; lia) ltac:(cbn; lia) ltac:(cbn; lia) E)
    as (l1 & l2 & El & -> & -> & Ho).
  assert (Hnew : wf new) by (by constructor; cbn; lia || constructor).
  split_and!; try done.
  - intros a Ha. unfold owner. rewrite El. by eapply owner_in_gap.
  - apply wf_set_children; [done..|]. rewrite El in W5. apply Forall_app in W5 as [? ?].
    apply Forall_app. split; [done|]. by constructor.
  - cbn. rewrite lookup_app_r by lia. by rewrite Nat.sub_diag.
  - cbn. rewrite El. by rewrite delete_middle.
  - intros a. unfold owner. cbn [children set_children]. rewrite El. by eapply owner_in_insert.
Qed.

Lemma request_Err parent start end_ name flags e :
  wf parent -> __request_region parent start end_ name flags = Err e ->
  e = - EINVAL /\ ~ (r_start parent <= start /\ start <= end_ /\ end_ <= r_end parent) \/
  e = - EBUSY /\ exists a, start <= a <= end_ /\ owner parent a <> None.
Proof.
  intros [? W1 W2 W3 W4 W5]. unfold __request_region.
  destruct (Z.ltb_spec end_ start); [intros [= <-]; left; split; [done|lia]|].
  destruct (_ || _) eqn:Eo.
  { intros [= <-]. left. split; [done|]. apply orb_true_iff in Eo as [Eo|Eo]; bool_prop; lia. }
  destruct (insert_region _ _) as [[l j]|] eqn:E; [done|]. intros [= <-]. right.
  eapply insert_region_Err in E as (-> & a & Ha & Hown); [|exact W4|cbn; lia].
  split; [done|]. by exists a.
Qed.

(** ** Resizing *)

(** The new end is allowed: inside the parent, free behind the old end, and no
    child of the region is cut. *)
Definition resize_fits (parent r : resource) (newend : Z) : Prop :=
  newend <= r_end parent /\
  (forall a, r_end r < a <= newend -> owner parent a = None) /\
  (forall c, c ∈ children r -> r_end c <= newend).

(** The free space behind a child ends at the next one. *)
Lemma next_limit lo hi l1 r l2 newend :
  ordered lo hi (l1 ++ r :: l2) ->
  (forall n, head l2 = Some n -> newend < r_start n) <->
  (forall a, r_end r < a <= newend -> owner_in (l1 ++ r :: l2) a = None).
Proof.
  intros (H1 & H2 & H3 & H4 & H5)%ordered_app. split.
  - intros Hn a Ha. rewrite owner_in_app, (owner_in_outside _ _ _ _ H1), owner_in_cons by lia.
    rewrite decide_False by (unfold covers; lia).
    destruct l2 as [|n l2]; [done|]. specialize (Hn n eq_refl).
    apply (owner_in_outside (r_start n) hi); [|lia]. cbn in *. split_and!; tauto || lia.
  - intros Hfree n Hn. destruct l2 as [|n' l2]; [done|]. injection Hn as ->. cbn in H5.
    destruct (decide (newend < r_start n)); [done|]. exfalso.
    specialize (Hfree (r_start n) ltac:(lia)).
    rewrite owner_in_app, (owner_in_outside _ _ _ _ H1), !owner_in_cons in Hfree by lia.
    rewrite decide_False in Hfree by (unfold covers; lia).
    by rewrite decide_True in Hfree by (unfold covers; lia).
Qed.

Lemma last_limit lo hi l e :
  ordered lo hi l ->
  (forall c, last l = Some c -> r_end c <= e) <-> (forall c, c ∈ l -> r_end c <= e).
Proof.
  intros Ho. split.
  - intros Hl c Hc. pose proof (ordered_last _ _ _ _ Ho Hl) as Ho'.
    by apply (ordered_bounds _ _ _ _ Ho' Hc).
  - intros Hall c Hc. apply Hall. apply last_Some in Hc as [l' ->]. apply elem_of_app. right. left.
Qed.

Lemma resource_size_small r :
  r_start r <= r_end r -> r_end r - r_start r + 1 < 2 ^ 64 ->
  resource_size r = r_end r - r_start r + 1.
Proof. intros H1 H2. apply u64_small. lia. Qed.

Lemma set_end_same r : set_end r (r_end r) = r.
Proof. by destruct r. Qed.

Lemma last_test (l : list resource) e :
  match last l with Some c => e <? r_end c | None => false end = false <->
  (forall c, last l = Some c -> r_end c <= e).
Proof.
  destruct (last l) as [c|]; [|by split]. rewrite Z.ltb_ge. split; [by intros ? ? [= <-]|eauto].
Qed.

Lemma head_test (l : list resource) e :
  match r_start <$> head l with Some s => s <=? e | None => false end = false <->
  (forall n, head l = Some n -> e < r_start n).
Proof.
  destruct (head l) as [c|]; cbn; [|by split].
  rewrite Z.leb_gt. split; [by intros ? ? [= <-]|eauto].
Qed.

(** Success and failure of [resize_region] on a child. *)
Lemma resize_region_spec lo hi l1 r l2 parent size :
  wf parent -> children parent = l1 ++ r :: l2 -> lo = r_start parent -> hi = r_end parent ->
  0 < size < 2 ^ 64 -> r_end r - r_start r + 1 < 2 ^ 64 ->
  let newend := r_start r + size - 1 in
  let '(ret, r') := resize_region (Some (hi, r_start <$> head l2)) r size in
  (ret = 0 /\ r' = set_end r newend /\ resize_fits parent r newend) \/
  ((ret = - EINVAL \/ ret = - EBUSY) /\ r' = r /\ ~ resize_fits parent r newend).
Proof.
  intros Hwf El -> -> Hsize Hfull. cbn zeta. destruct (wf_inv _ Hwf) as (W1 & W2 & W3 & W4 & W5).
  rewrite El in W4, W5. pose proof (proj1 (ordered_app _ _ _ _ _) W4) as (O1 & O2 & O3 & O4 & O5).
  assert (Hr : wf r) by (apply (proj1 (Forall_forall _ _) W5); apply elem_of_app; right; left).
  destruct (wf_inv _ Hr) as (R1 & R2 & R3 & R4 & R5).
  pose proof (last_limit _ _ _ (r_start r + size - 1) R4) as Hlast.
  pose proof (next_limit _ _ _ _ _ (r_start r + size - 1) W4) as Hnext.
  rewrite <- last_test in Hlast. rewrite <- head_test in Hnext.
  assert (Hfits : resize_fits parent r (r_start r + size - 1) <->
    r_start r + size - 1 <= r_end parent /\
    match r_start <$> head l2 with Some s => s <=? r_start r + size - 1 | None => false end = false /\
    match last (children r) with Some c => r_start r + size - 1 <? r_end c | None => false end = false).
  { unfold resize_fits, owner. rewrite El. tauto. }
  assert (Hin : r_end r <= r_start r + size - 1 ->
    match last (children r) with Some c => r_start r + size - 1 <? r_end c | None => false end = false).
  { intros Hle. apply Hlast. intros c Hc. pose proof (ordered_bounds _ _ _ c R4 Hc). lia. }
  assert (Hno : r_start r + size - 1 <= r_end r ->
    match r_start <$> head l2 with Some s => s <=? r_start r + size - 1 | None => false end = false).
  { intros Hle. apply Hnext. lia. }
  clear Hlast Hnext. unfold resize_region. rewrite resource_size_small by done.
  rewrite (proj2 (Z.eqb_neq size 0)) by lia.
  destruct (Z.eqb_spec size (r_end r - r_start r + 1)) as [E|E].
  { left. rewrite Hfits, Hin, Hno by lia. split_and!; try done; [|lia].
    replace (r_start r + size - 1) with (r_end r) by lia. by rewrite set_end_same. }
  destruct (Z.ltb_spec size (r_end r - r_start r + 1)).
  - rewrite Hno in Hfits by lia. rewrite u64_small by lia. clear Hin Hno.
    destruct (last (children r)) as [c|];
      [destruct (r_start r + size - 1 <? r_end c)|];
      [right; split_and!; [by right|done|rewrite Hfits; intros (_ & ? & ?); congruence]|left..];
      rewrite Hfits; split_and!; done || lia.
  - rewrite Hin in Hfits by lia. clear Hin Hno.
    replace (r_start r + (size - 1)) with (r_start r + size - 1) by lia.
    destruct (Z.leb_spec (2 ^ 64) (r_start r + size - 1)).
    { right. rewrite Hfits. split_and!; [by left|done|lia]. }
    destruct (Z.ltb_spec (r_end parent) (r_start r + size - 1)).
    { right. rewrite Hfits. split_and!; [by left|done|lia]. }
    destruct (r_start <$> head l2) as [s|];
      [destruct (s <=? r_start r + size - 1)|];
      [right; split_and!; [by right|done|rewrite Hfits; intros (_ & ? & ?); congruence]|left..];
      rewrite Hfits; split_and!; done || lia.
Qed.

Lemma head_lookup (l1 : list resource) r l2 : (l1 ++ r :: l2) !! S (length l1) = head l2.
Proof.
  rewrite lookup_app_r by lia. replace (S (length l1) - length l1)%nat with 1%nat by lia.
  by destruct l2.
Qed.

(** Changing the end of a child as far as it fits keeps the tree well-formed. *)
Lemma set_end_wf parent l1 r l2 e :
  wf parent -> children parent = l1 ++ r :: l2 -> resize_fits parent r e -> r_start r <= e ->
  wf (set_children parent (l1 ++ set_end r e :: l2)).
Proof.
  intros Hwf El (F1 & F2 & F3) Hle. destruct (wf_inv _ Hwf) as (W1 & W2 & W3 & W4 & W5).
  unfold owner in F2. rewrite El in W4, W5, F2.
  pose proof (proj2 (next_limit _ _ _ _ _ e W4) F2) as Hn.
  pose proof (proj1 (ordered_app _ _ _ _ _) W4) as (O1 & O2 & O3 & O4 & O5).
  apply Forall_app in W5 as [Wl1 Wr]. apply Forall_cons_1 in Wr as [Wr Wl2].
  destruct (wf_inv _ Wr) as (R1 & R2 & R3 & R4 & R5).
  apply wf_set_children; [done| |].
  - apply ordered_app. cbn [r_start r_end set_end]. split_and!; try done.
    destruct l2 as [|n l2]; [done|]. specialize (Hn n eq_refl). cbn in *. split_and!; tauto || lia.
  - apply Forall_app. split; [done|]. constructor; [|done].
    constructor; cbn [r_start r_end children set_end]; try done; [lia|].
    apply (ordered_last _ _ _ _ R4). by apply (last_limit _ _ _ _ R4).
Qed.

(** ** Releasing *)

Lemma release_wf parent i : wf parent -> wf (snd (release_region parent i)).
Proof.
  intros Hwf. unfold release_region. destruct (children parent !! i) as [r|] eqn:E; [|done].
  case_bool_decide; [|done]. cbn [snd]. destruct (wf_inv _ Hwf) as (W1 & W2 & W3 & W4 & W5).
  apply lookup_split in E as (l1 & l2 & El & ->). rewrite El in W4, W5 |- *. rewrite delete_middle.
  apply wf_set_children; [done|apply (ordered_replace _ _ _ r [] l2 W4); done|].
  apply Forall_app in W5 as [? W5]. apply Forall_cons_1 in W5 as [_ ?]. by apply Forall_app.
Qed.

(** What a child is replaced by: ordered pieces inside its range, with its
    name and flags. *)
Definition pieces (r : resource) (rs : list resource) : Prop :=
  ordered (r_start r) (r_end r) rs /\ Forall wf rs /\
  Forall (fun p => r_name p = r_name r /\ r_flags p = r_flags r) rs.

Lemma release_one_pieces {D} (f : resource -> D -> Z * D) start end_ r d rs e d' :
  wf r -> 0 <= start <= end_ + 1 -> release_one f start end_ r d = (Ok (rs, e), d') -> pieces r rs.
Proof.
  intros Hr Hrange. destruct (wf_inv _ Hr) as (R1 & R2 & R3 & R4 & R5). unfold release_one.
  assert (Hself : pieces r [r]) by (repeat split; cbn; done || lia || by repeat constructor).
  destruct (_ || _) eqn:E1; [by intros [= <- _ _]|]. bool_prop.
  destruct (f r d) as [ret d1]. destruct (ret <? 0); [done|].
  destruct (ret =? 0); [by intros [= <- _ _]|].
  case_bool_decide as Hch; cbn [negb]; [|by intros [= <- _ _]].
  assert (Hleaf : forall s t n fl ty at_ ru, 0 <= s -> s <= t -> t < 2 ^ 64 ->
    wf (Res s t n fl ty at_ ru [])) by (intros; by constructor).
  destruct ((start <=? r_start r) && (r_end r <=? end_)) eqn:E2; [intros [= <- _ _]; repeat constructor|].
  destruct ((start <=? r_start r) && (end_ <? r_end r)) eqn:E3.
  { bool_prop. intros [= <- _ _]. destruct r as [s t n fl ty at_ ru ch]. cbn in *. subst ch.
    split_and!; [cbn; lia|apply Forall_singleton, Hleaf; cbn; lia|by repeat constructor]. }
  destruct ((r_start r <? start) && (r_end r <=? end_)) eqn:E4.
  { bool_prop. intros [= <- _ _]. destruct r as [s t n fl ty at_ ru ch]. cbn in *. subst ch.
    split_and!; [cbn; lia|apply Forall_singleton, Hleaf; cbn; lia|by repeat constructor]. }
  intros [= <- _ _]. apply andb_false_iff in E2, E3, E4.
  assert (r_start r < start /\ end_ < r_end r).
  { rewrite !Z.leb_gt, ?Z.ltb_ge in *. lia. }
  destruct r as [s t n fl ty at_ ru ch]. cbn in *. subst ch.
  split_and!; [cbn; lia| |by repeat constructor].
  apply Forall_cons_2; [apply Hleaf; cbn; lia|apply Forall_singleton, Hleaf; cbn; lia].
Qed.

(** The loop replaces every child by pieces of it. *)
Lemma release_loop_wf {D} (f : resource -> D -> Z * D) start end_ lo hi l d err ret l' err' d' :
  ordered lo hi l -> Forall wf l -> 0 <= start <= end_ + 1 ->
  release_loop f start end_ l d err = (ret, l', err', d') -> ordered lo hi l' /\ Forall wf l'.
Proof.
  intros Ho Hall Hrange. revert lo d err ret l' err' d' Ho.
  induction Hall as [|r l Hr Hall IH]; intros lo d err ret l' err' d' Ho; cbn [release_loop].
  { by intros [= _ <- _ _]. }
  destruct (release_one f start end_ r d) as [[[rs e]|e] d1] eqn:E1.
  - apply release_one_pieces in E1 as (P1 & P2 & _); [|done..].
    destruct (release_loop f start end_ l d1 _) as [[[ret1 l1] err1] d2] eqn:E2.
    intros [= _ <- _ _]. destruct Ho as (O1 & O2 & O3 & O4).
    destruct (IH _ _ _ _ _ _ _ O4 E2) as [Ho' Hw]. split; [|by apply Forall_app].
    apply (ordered_concat _ (r_end r)); [|lia..|done].
    by eapply ordered_weaken; [exact O1| |exact P1].
  - intros [= _ <- _ _]. split; [done|by constructor].
Qed.

(** ** What releasing a range does to the owners *)

Definition in_range (start end_ a : Z) : Prop := start <= a <= end_.

(** Cutting [start..end_] out of a childless region. *)
Lemma release_one_cut start end_ r :
  start <= end_ -> r_start r <= r_end r -> (children r = [] \/ end_ < r_start r \/ r_end r < start) ->
  exists rs, release_one yes_free start end_ r tt = (Ok (rs, 0), tt) /\
    forall a, r_name <$> owner_in rs a =
      if decide (in_range start end_ a) then None
      else if decide (covers r a) then Some (r_name r) else None.
Proof.
  intros Hse Hr Hch. unfold release_one, in_range, covers.
  destruct (_ || _) eqn:E1.
  { exists [r]. split; [done|]. intros a. rewrite owner_in_cons. unfold covers.
    apply orb_true_iff in E1 as [E1|E1]; bool_prop; repeat case_decide; done || lia. }
  bool_prop. destruct Hch as [Hch|Hch]; [|lia]. cbn [yes_free Z.ltb Z.eqb Z.compare].
  rewrite (bool_decide_eq_true_2 (children r = [])) by done. cbn [negb].
  destruct (Z.leb_spec start (r_start r)), (Z.leb_spec (r_end r) end_); cbn [andb].
  - exists []. split; [done|]. intros a. cbn. repeat case_decide; done || lia.
  - rewrite (proj2 (Z.ltb_lt end_ (r_end r))) by lia. eexists. split; [done|]. intros a.
    rewrite owner_in_cons. unfold covers. cbn. repeat case_decide; done || lia.
  - rewrite (proj2 (Z.ltb_lt (r_start r) start)) by lia. eexists. split; [done|]. intros a.
    rewrite owner_in_cons. unfold covers. cbn. repeat case_decide; done || lia.
  - rewrite andb_false_r. eexists. split; [done|]. intros a.
    rewrite !owner_in_cons. unfold covers. cbn. repeat case_decide; done || lia.
Qed.

Lemma release_loop_cut start end_ lo hi l :
  start <= end_ -> ordered lo hi l ->
  Forall (fun r => children r = [] \/ end_ < r_start r \/ r_end r < start) l ->
  exists l', release_loop yes_free start end_ l tt 0 = (None, l', 0, tt) /\
    forall a, r_name <$> owner_in l' a =
      if decide (in_range start end_ a) then None else r_name <$> owner_in l a.
Proof.
  intros Hse Ho Hall. revert lo Ho. induction Hall as [|r l Hr _ IH]; intros lo Ho.
  { exists []. split; [done|]. intros a. cbn. by case_decide. }
  destruct Ho as (O1 & O2 & O3 & O4). destruct (IH _ O4) as (l' & El & Hl).
  destruct (release_one_cut start end_ r Hse O2 Hr) as (rs & Er & Hrs).
  exists (rs ++ l'). cbn [release_loop]. rewrite Er. cbn [Z.eqb]. rewrite El. split; [done|].
  intros a. rewrite owner_in_app, owner_in_cons. specialize (Hrs a). specialize (Hl a).
  destruct (owner_in rs a) as [p|]; cbn in Hrs; repeat case_decide; done.
Qed.

(** ** Merging *)

Lemma ordered_lookup_lt lo hi l i j x y :
  ordered lo hi l -> l !! i = Some x -> l !! j = Some y -> (i < j)%nat -> r_end x < r_start y.
Proof.
  intros Ho (l1 & l2 & -> & ->)%lookup_split Hj Hlt. apply ordered_app in Ho as (_ & _ & _ & _ & Ho).
  rewrite lookup_app_r, lookup_cons_ne_0 in Hj by lia.
  apply list_elem_of_lookup_2 in Hj. pose proof (ordered_bounds _ _ _ _ Ho Hj). lia.
Qed.

(** Adjacent children are neighbours in the list. *)
Lemma adjacent_neighbours lo hi l i j x y :
  ordered lo hi l -> l !! i = Some x -> l !! j = Some y -> r_end x + 1 = r_start y -> j = S i.
Proof.
  intros Ho Hi Hj Hadj.
  assert (Hx : r_start x <= r_end x) by (apply (ordered_bounds _ _ _ _ Ho); by eapply list_elem_of_lookup_2).
  assert (Hy : r_start y <= r_end y) by (apply (ordered_bounds _ _ _ _ Ho); by eapply list_elem_of_lookup_2).
  destruct (lt_eq_lt_dec i j) as [[Hlt| ->]|Hgt].
  - destruct (decide (j = S i)) as [|Hne]; [done|]. exfalso.
    assert (Hm : is_Some (l !! S i)).
    { apply lookup_lt_is_Some. apply lookup_lt_Some in Hj. lia. }
    destruct Hm as [z Hz].
    pose proof (ordered_lookup_lt _ _ _ _ _ _ _ Ho Hi Hz ltac:(lia)).
    pose proof (ordered_lookup_lt _ _ _ _ _ _ _ Ho Hz Hj ltac:(lia)).
    pose proof (ordered_bounds _ _ _ z Ho ltac:(by eapply list_elem_of_lookup_2)). lia.
  - rewrite Hi in Hj. injection Hj as ->. lia.
  - pose proof (ordered_lookup_lt _ _ _ _ _ _ _ Ho Hj Hi Hgt). lia.
Qed.

(** Two neighbours replaced by one region over both. *)
Lemma merge_neighbours lo hi l1 x y l2 m a :
  ordered lo hi (l1 ++ x :: y :: l2) -> r_end x + 1 = r_start y ->
  r_start m = r_start x -> r_end m = r_end y ->
  ordered lo hi (l1 ++ m :: l2) /\
  owner_in (l1 ++ m :: l2) a =
    if decide (covers x a \/ covers y a) then Some m else owner_in (l1 ++ x :: y :: l2) a.
Proof.
  intros Ho Hadj Hs He. pose proof (proj1 (ordered_app _ _ _ _ _) Ho) as (O1 & O2 & O3 & O4 & O5).
  destruct O5 as (P1 & P2 & P3 & P4).
  assert (Ho' : ordered lo hi (l1 ++ m :: l2)).
  { apply ordered_app. rewrite Hs, He. split_and!; done || lia. }
  split; [done|]. rewrite (owner_in_insert _ _ _ _ _ _ Ho'), (owner_in_insert _ _ _ _ _ _ Ho).
  rewrite !owner_in_app, owner_in_cons.
  repeat case_decide; unfold covers in *; done || lia.
Qed.

(** In the list: the second region goes, the first one covers both. *)
Lemma merge_list lo hi l i j x y m :
  ordered lo hi l -> l !! i = Some x -> l !! j = Some y ->
  r_end x + 1 = r_start y /\ j = S i \/ r_end y + 1 = r_start x /\ i = S j ->
  r_start x <= r_end x -> r_start y <= r_end y ->
  r_start m = Z.min (r_start x) (r_start y) -> r_end m = Z.max (r_end x) (r_end y) ->
  ordered lo hi (delete j (<[i := m]> l)) /\
  forall a, owner_in (delete j (<[i := m]> l)) a =
    if decide (covers x a \/ covers y a) then Some m else owner_in l a.
Proof.
  intros Ho Hi Hj [[Ha ->]|[Ha ->]] Hx Hy Hms Hme.
  - apply lookup_split in Hi as (l1 & l2 & -> & ->).
    rewrite head_lookup in Hj. destruct l2 as [|y' l2]; [done|]. injection Hj as ->.
    replace (delete (S (length l1)) (<[length l1 := m]> (l1 ++ x :: y :: l2))) with (l1 ++ m :: l2).
    + split; [apply (merge_neighbours _ _ _ _ _ _ m 0 Ho); lia|].
      intros a. apply (merge_neighbours _ _ _ _ _ _ m a Ho); lia.
    + rewrite insert_app_r_alt, Nat.sub_diag by lia. cbn.
      change (l1 ++ m :: y :: l2) with (l1 ++ [m] ++ y :: l2). rewrite app_assoc.
      replace (S (length l1)) with (length (l1 ++ [m])) by (rewrite length_app; cbn; lia).
      rewrite delete_middle. by rewrite <- app_assoc.
  - apply lookup_split in Hj as (l1 & l2 & -> & ->).
    rewrite head_lookup in Hi. destruct l2 as [|x' l2]; [done|]. injection Hi as ->.
    replace (delete (length l1) (<[S (length l1) := m]> (l1 ++ y :: x :: l2))) with (l1 ++ m :: l2).
    + split; [apply (merge_neighbours _ _ _ _ _ _ m 0 Ho); lia|].
      intros a. rewrite (proj2 (merge_neighbours _ _ _ _ _ _ m a Ho Ha ltac:(lia) ltac:(lia))).
      apply decide_ext. tauto.
    + rewrite insert_app_r_alt by lia. replace (S (length l1) - length l1)%nat with 1%nat by lia.
      cbn. by rewrite delete_middle.
Qed.

Lemma merge_spec parent name i j x y :
  wf parent -> children parent !! i = Some x -> children parent !! j = Some y ->
  resource_adjacent x y = true -> children y = [] ->
  exists m, snd (__merge_regions parent name i j) =
      set_children parent (delete j (<[i := m]> (children parent))) /\
    r_start m = Z.min (r_start x) (r_start y) /\ r_end m = Z.max (r_end x) (r_end y) /\
    r_name m = name /\ children m = children x /\
    wf (snd (__merge_regions parent name i j)) /\
    forall a, owner (snd (__merge_regions parent name i j)) a =
      if decide (covers x a \/ covers y a) then Some m else owner parent a.
Proof.
  intros Hwf Hi Hj Hadj Hleaf. destruct (wf_inv _ Hwf) as (W1 & W2 & W3 & W4 & W5).
  assert (Hx : wf x) by (apply (wf_children parent); [done|by eapply list_elem_of_lookup_2]).
  assert (Hy : wf y) by (apply (wf_children parent); [done|by eapply list_elem_of_lookup_2]).
  destruct (wf_inv _ Hx) as (X1 & X2 & X3 & X4 & X5). destruct (wf_inv _ Hy) as (Y1 & Y2 & Y3 & _ & _).
  set (m := set_name (if r_start x <? r_start y then set_end x (r_end y)
                      else set_start x (r_start y)) name).
  unfold resource_adjacent in Hadj.
  assert (Hcase : r_end x + 1 = r_start y /\ j = S i \/ r_end y + 1 = r_start x /\ i = S j).
  { apply orb_true_iff in Hadj as [Hadj|Hadj]; bool_prop;
      [left|right]; (split; [done|]);
      [by apply (adjacent_neighbours _ _ _ _ _ x y W4)|by apply (adjacent_neighbours _ _ _ _ _ y x W4)]. }
  assert (Hne : i <> j) by lia.
  assert (Hsnd : snd (__merge_regions parent name i j) =
                 set_children parent (delete j (<[i := m]> (children parent)))).
  { unfold __merge_regions. rewrite Hi, Hj. unfold resource_adjacent. rewrite Hadj. cbn [negb].
    unfold release_region. cbn [children set_children]. fold m.
    rewrite list_lookup_insert_ne, Hj by done. by rewrite bool_decide_eq_true_2. }
  assert (Hm : r_start m = Z.min (r_start x) (r_start y) /\ r_end m = Z.max (r_end x) (r_end y)
               /\ children m = children x).
  { unfold m. destruct (Z.ltb_spec (r_start x) (r_start y)); cbn; split_and!; done || lia. }
  destruct Hm as (Hms & Hme & Hmc).
  assert (Hwm : wf m).
  { constructor; rewrite ?Hms, ?Hme, ?Hmc; try lia; [|done].
    by eapply ordered_weaken; [| |exact X4]; lia. }
  destruct (merge_list _ _ _ _ _ _ _ m W4 Hi Hj Hcase X2 Y2 Hms Hme) as [Ho Hown].
  exists m. rewrite Hsnd. split_and!; try done.
  apply wf_set_children; [done..|].
  apply Forall_delete. by apply Forall_insert.
Qed.

(** ** Iterating *)

(** The reference: a gap wherever the children leave room. *)
Definition gap_region (parent : resource) (lo hi : Z) (next : nat) : region :=
  RGap next (Res lo hi EmptyString (Z.lor IORESOURCE_UNSET (r_flags parent)) (r_type parent)
               (r_attrs parent) 0 []).

Fixpoint tiles (parent : resource) (lo hi : Z) (i : nat) (l : list resource) : list region :=
  match l with
  | [] => if lo <=? hi then [gap_region parent lo hi i] else []
  | r :: l =>
      (if lo <? r_start r then [gap_region parent lo (r_start r - 1) i] else []) ++
      RChild i r :: tiles parent (r_end r + 1) hi (S i) l
  end.

Lemma tiles_snoc parent lo hi i l r :
  tiles parent lo hi i (l ++ [r]) =
  tiles parent lo (r_start r - 1) i l ++ RChild (i + length l) r ::
  (if r_end r + 1 <=? hi then [gap_region parent (r_end r + 1) hi (S (i + length l))] else []).
Proof.
  revert lo i. induction l as [|x l IH]; intros lo i; cbn [app tiles length].
  - rewrite Nat.add_0_r. by destruct (Z.ltb_spec lo (r_start r)), (Z.leb_spec lo (r_start r - 1)); try lia.
  - rewrite IH, <- app_assoc. cbn [app]. by rewrite Nat.add_succ_comm.
Qed.

(** One step forward, on the regions of a list of disjoint children. *)
Lemma next_step parent cur lo :
  wf parent -> r_end (region_res cur) = lo - 1 -> r_start parent <= r_start (region_res cur) < lo ->
  lo <= r_end parent + 1 ->
  (forall n, children parent !! region_next cur = Some n -> lo <= r_start n <= r_end n /\ r_end n <= r_end parent) ->
  resource_iter_next parent cur true =
  if r_end parent <? lo then None
  else match children parent !! region_next cur with
       | None => Some (gap_region parent lo (r_end parent) (region_next cur))
       | Some n => if lo <? r_start n then Some (gap_region parent lo (r_start n - 1) (region_next cur))
                   else Some (RChild (region_next cur) n)
       end.
Proof.
  intros Hwf He Hs Hlo Hn. destruct (wf_inv _ Hwf) as (W1 & W2 & W3 & _ & _).
  unfold resource_iter_next. rewrite He.
  destruct (Z.ltb_spec (r_end parent) lo); [by rewrite (proj2 (Z.eqb_eq _ _)) by lia|].
  rewrite (proj2 (Z.eqb_neq _ _)) by lia. cbn [negb orb]. unfold child_at.
  destruct (children parent !! region_next cur) as [n|] eqn:En.
  - specialize (Hn _ eq_refl). unfold resource_adjacent, resource_iter_gap, gap_region. rewrite He.
    rewrite (proj2 (Z.eqb_neq (lo - 1) _)), !u64_small by lia.
    replace (lo - 1 + 1) with lo by lia.
    rewrite (proj2 (Z.eqb_neq (r_end n + 1) _)), andb_false_r, orb_false_r by lia. cbn [negb andb].
    destruct (Z.eqb_spec lo (r_start n)), (Z.ltb_spec lo (r_start n)); try lia; done.
  - unfold resource_iter_gap, gap_region. rewrite He, u64_small by lia.
    by replace (lo - 1 + 1) with lo by lia.
Qed.

(** From a region that ends before [lo] the loop visits the rest. *)
Lemma iterate_next parent l1 l2 cur lo fuel :
  wf parent -> children parent = l1 ++ l2 -> region_next cur = length l1 ->
  r_end (region_res cur) = lo - 1 -> r_start parent <= r_start (region_res cur) < lo ->
  lo <= r_end parent + 1 -> ordered lo (r_end parent) l2 -> (2 * length l2 + 1 <= fuel)%nat ->
  iterate (fun g => resource_iter_next parent g true) fuel (resource_iter_next parent cur true)
  = tiles parent lo (r_end parent) (length l1) l2.
Proof.
  intros Hwf. destruct (wf_inv _ Hwf) as (W1 & W2 & W3 & _ & _).
  revert l1 cur lo fuel. induction l2 as [|r l2 IH]; intros l1 cur lo fuel El Hn He Hs Hlo Ho Hf.
  - assert (Hlook : children parent !! length l1 = None).
    { rewrite El, app_nil_r. by apply lookup_ge_None_2. }
    rewrite (next_step _ _ lo), Hn, Hlook by (rewrite ?Hn, ?Hlook; done). cbn [tiles].
    destruct (Z.ltb_spec (r_end parent) lo), (Z.leb_spec lo (r_end parent)); try lia.
    { by destruct fuel. }
    destruct fuel as [|fuel]; [cbn in Hf; lia|]. cbn [iterate].
    unfold resource_iter_next. cbn [region_res r_end gap_region]. rewrite Z.eqb_refl.
    by destruct fuel.
  - destruct Ho as (O1 & O2 & O3 & O4). cbn [tiles].
    assert (Hlook : children parent !! length l1 = Some r).
    { rewrite El, lookup_app_r, Nat.sub_diag by lia. done. }
    assert (Hrest : forall fuel, (2 * length l2 + 1 <= fuel)%nat ->
      iterate (fun g => resource_iter_next parent g true) fuel
        (resource_iter_next parent (RChild (length l1) r) true)
      = tiles parent (r_end r + 1) (r_end parent) (S (length l1)) l2).
    { intros f Hf'. replace (S (length l1)) with (length (l1 ++ [r])) by (rewrite length_app; cbn; lia).
      apply IH; cbn [region_res region_next]; try lia; [by rewrite <- app_assoc| |done].
      rewrite length_app. cbn. lia. }
    assert (Hbound : forall n, children parent !! length l1 = Some n ->
      lo <= r_start n <= r_end n /\ r_end n <= r_end parent).
    { rewrite Hlook. intros n [= <-]. lia. }
    rewrite (next_step _ _ lo), Hn, Hlook by (rewrite ?Hn; done).
    rewrite (proj2 (Z.ltb_ge _ _)) by lia.
    destruct (Z.ltb_spec lo (r_start r)).
    + destruct fuel as [|[|fuel]]; [cbn in Hf; lia..|]. cbn [iterate app]. f_equal.
      rewrite (next_step _ _ (r_start r)); cbn [gap_region region_next region_res r_end r_start];
        rewrite ?Hlook; try lia; try done.
      2:{ intros n [= <-]. lia. }
      rewrite (proj2 (Z.ltb_ge _ _)), (proj2 (Z.ltb_ge (r_start r) _)) by lia.
      cbn [iterate]. f_equal. apply Hrest. cbn in Hf. lia.
    + destruct fuel as [|fuel]; [cbn in Hf; lia|]. cbn [iterate app]. f_equal.
      apply Hrest. cbn in Hf. lia.
Qed.

(** The first region starts where the parent does. *)
Lemma for_each_tiles parent :
  wf parent -> region_is_gap parent = false ->
  for_each_resource_region parent = tiles parent (r_start parent) (r_end parent) 0 (children parent).
Proof.
  intros Hwf Hg. destruct (wf_inv _ Hwf) as (W1 & W2 & W3 & W4 & _).
  unfold for_each_resource_region, resource_iter_first, iter_fuel. rewrite Hg. cbn [negb orb].
  unfold child_at. destruct (children parent) as [|r l] eqn:El.
  - cbn. rewrite (proj2 (Z.leb_le _ _)) by lia. done.
  - destruct W4 as (O1 & O2 & O3 & O4). cbn [head list.head tiles length].
    assert (Hrest : forall fuel, (2 * length l + 1 <= fuel)%nat ->
      iterate (fun g => resource_iter_next parent g true) fuel
        (resource_iter_next parent (RChild 0 r) true)
      = tiles parent (r_end r + 1) (r_end parent) 1 l).
    { intros f Hf. change 1%nat with (length [r]). apply iterate_next; cbn; done || lia. }
    destruct (Z.eqb_spec (r_start parent) (r_start r)), (Z.ltb_spec (r_start parent) (r_start r)); try lia.
    + cbn [lookup list_lookup fmap option_fmap option_map]. 
      replace (2 * S (length l) + 1)%nat with (S (2 * length l + 2)) by lia. cbn [iterate app].
      f_equal. apply Hrest. lia.
    + replace (2 * S (length l) + 1)%nat with (S (S (2 * length l + 1))) by lia. cbn [iterate app].
      unfold resource_iter_gap. rewrite u64_small by lia.
      fold (gap_region parent (r_start parent) (r_start r - 1) 0). f_equal.
      rewrite (next_step _ _ (r_start r)); cbn [gap_region region_next region_res r_end r_start];
        rewrite ?El; try lia; try done.
      2:{ intros ? [= <-]. lia. }
      cbn [lookup list_lookup].
      rewrite (proj2 (Z.ltb_ge _ _)), (proj2 (Z.ltb_ge (r_start r) _)) by lia.
      cbn [iterate]. f_equal. apply Hrest. lia.
Qed.

(** The index a region is in front of. *)
Definition region_index (g : region) : nat := match g with RChild i _ => i | RGap n _ => n end.

Lemma prev_child_index parent cur :
  prev_child parent cur =
  match region_index cur with S i => pair i <$> (children parent !! i) | O => None end.
Proof. by destruct cur as [[|i] r|[|i] r]. Qed.

Lemma prev_step parent cur hi :
  wf parent -> r_start (region_res cur) = hi + 1 -> r_start (region_res cur) <= r_end (region_res cur) <= r_end parent ->
  r_start parent <= hi + 1 ->
  (forall i p, prev_child parent cur = Some (i, p) -> r_start parent <= r_start p <= r_end p /\ r_end p <= hi) ->
  resource_iter_prev parent cur true =
  if hi <? r_start parent then None
  else match prev_child parent cur with
       | None => Some (gap_region parent (r_start parent) hi 0)
       | Some (i, p) => if r_end p <? hi then Some (gap_region parent (r_end p + 1) hi (S i))
                        else Some (RChild i p)
       end.
Proof.
  intros Hwf Hs He Hhi Hp. destruct (wf_inv _ Hwf) as (W1 & W2 & W3 & _ & _).
  unfold resource_iter_prev. rewrite Hs.
  destruct (Z.ltb_spec hi (r_start parent)); [by rewrite (proj2 (Z.eqb_eq _ _)) by lia|].
  rewrite (proj2 (Z.eqb_neq _ _)) by lia.
  destruct (prev_child parent cur) as [[i p]|] eqn:Ep; cbn [negb orb].
  - specialize (Hp _ _ eq_refl). unfold resource_adjacent, resource_iter_gap, gap_region. rewrite Hs.
    rewrite (proj2 (Z.eqb_neq (r_end p) _)), (proj2 (Z.eqb_neq (r_end (region_res cur) + 1) _)), !u64_small by lia.
    rewrite andb_false_r, orb_false_r. cbn [negb andb]. replace (hi + 1 - 1) with hi by lia.
    destruct (Z.eqb_spec (r_end p + 1) (hi + 1)), (Z.ltb_spec (r_end p) hi); try lia; done.
  - unfold resource_iter_gap, gap_region. rewrite Hs, u64_small by lia.
    by replace (hi + 1 - 1) with hi by lia.
Qed.

Lemma iterate_prev parent l1 l2 cur hi fuel :
  wf parent -> children parent = l1 ++ l2 -> region_index cur = length l1 ->
  r_start (region_res cur) = hi + 1 -> r_start (region_res cur) <= r_end (region_res cur) <= r_end parent ->
  r_start parent <= hi + 1 -> ordered (r_start parent) hi l1 -> (2 * length l1 + 1 <= fuel)%nat ->
  iterate (fun g => resource_iter_prev parent g true) fuel (resource_iter_prev parent cur true)
  = rev (tiles parent (r_start parent) hi 0 l1).
Proof.
  intros Hwf. destruct (wf_inv _ Hwf) as (W1 & W2 & W3 & _ & _).
  revert l2 cur hi fuel. induction l1 as [|r l1 IH] using rev_ind; intros l2 cur hi fuel El Hn Hs He Hlo Ho Hf.
  - assert (Hp : prev_child parent cur = None) by (by rewrite prev_child_index, Hn).
    rewrite (prev_step _ _ hi), Hp by (rewrite ?Hp; done). cbn [tiles].
    destruct (Z.ltb_spec hi (r_start parent)), (Z.leb_spec (r_start parent) hi); try lia.
    { by destruct fuel. }
    destruct fuel as [|fuel]; [cbn in Hf; lia|]. cbn [iterate rev app].
    unfold resource_iter_prev. cbn [region_res r_start gap_region]. rewrite Z.eqb_refl.
    by destruct fuel.
  - rewrite length_app in Hn, Hf. cbn in Hn, Hf. rewrite Nat.add_1_r in Hn.
    rewrite <- app_assoc in El. cbn in El.
    apply ordered_app in Ho as (O1 & O2 & O3 & O4 & _).
    assert (Hlook : children parent !! length l1 = Some r).
    { rewrite El, lookup_app_r, Nat.sub_diag by lia. done. }
    assert (Hp : prev_child parent cur = Some (length l1, r)).
    { by rewrite prev_child_index, Hn, Hlook. }
    assert (Hrest : forall fuel, (2 * length l1 + 1 <= fuel)%nat ->
      iterate (fun g => resource_iter_prev parent g true) fuel
        (resource_iter_prev parent (RChild (length l1) r) true)
      = rev (tiles parent (r_start parent) (r_start r - 1) 0 l1)).
    { intros f Hf'. apply (IH (r :: l2)); cbn [region_res region_index]; done || lia. }
    rewrite (prev_step _ _ hi), Hp by (rewrite ?Hp; (done || (intros ? ? [= <- <-]; lia))).
    rewrite (proj2 (Z.ltb_ge _ _)) by lia. rewrite tiles_snoc, rev_app_distr, Nat.add_0_l.
    destruct (Z.ltb_spec (r_end r) hi), (Z.leb_spec (r_end r + 1) hi); try lia.
    + destruct fuel as [|[|fuel]]; [lia..|]. cbn [iterate app rev]. f_equal.
      assert (Hp' : prev_child parent (gap_region parent (r_end r + 1) hi (S (length l1))) = Some (length l1, r)).
      { by rewrite prev_child_index; cbn; rewrite Hlook. }
      rewrite (prev_step _ _ (r_end r)), Hp'
        by (rewrite ?Hp'; cbn; (done || lia || (intros ? ? [= <- <-]; lia))).
      rewrite (proj2 (Z.ltb_ge _ _)), (proj2 (Z.ltb_ge (r_end r) _)) by lia.
      cbn [iterate]. f_equal. apply Hrest. lia.
    + destruct fuel as [|fuel]; [lia|]. cbn [iterate app rev]. f_equal. apply Hrest. lia.
Qed.

Lemma for_each_reverse_tiles parent :
  wf parent -> region_is_gap parent = false ->
  for_each_resource_region_reverse parent =
  rev (tiles parent (r_start parent) (r_end parent) 0 (children parent)).
Proof.
  intros Hwf Hg. destruct (wf_inv _ Hwf) as (W1 & W2 & W3 & W4 & _).
  unfold for_each_resource_region_reverse, resource_iter_last, iter_fuel. rewrite Hg. cbn [negb orb].
  unfold child_at. destruct (children parent) as [|r l _] eqn:El using rev_ind.
  - cbn. rewrite (proj2 (Z.leb_le _ _)) by lia. done.
  - apply ordered_app in W4 as (O1 & O2 & O3 & O4 & _).
    rewrite last_snoc, length_app, tiles_snoc, rev_app_distr, Nat.add_0_l. cbn [length].
    assert (Hlook : (l ++ [r]) !! length l = Some r).
    { rewrite lookup_app_r, Nat.sub_diag by lia. done. }
    assert (Hrest : forall fuel, (2 * length l + 1 <= fuel)%nat ->
      iterate (fun g => resource_iter_prev parent g true) fuel
        (resource_iter_prev parent (RChild (length l) r) true)
      = rev (tiles parent (r_start parent) (r_start r - 1) 0 l)).
    { intros f Hf. apply (iterate_prev _ _ [r]); cbn; done || lia. }
    replace (length l + 1 - 1)%nat with (length l) by lia. rewrite Hlook.
    destruct (Z.eqb_spec (r_end parent) (r_end r)), (Z.leb_spec (r_end r + 1) (r_end parent)); try lia.
    + replace (2 * (length l + 1) + 1)%nat with (S (2 * length l + 2)) by lia.
      cbn [fmap option_fmap option_map iterate app rev]. f_equal. apply Hrest. lia.
    + replace (2 * (length l + 1) + 1)%nat with (S (S (2 * length l + 1))) by lia.
      cbn [iterate app rev]. unfold resource_iter_gap. rewrite u64_small, Nat.add_1_r by lia.
      fold (gap_region parent (r_end r + 1) (r_end parent) (S (length l))). f_equal.
      assert (Hp : prev_child parent (gap_region parent (r_end r + 1) (r_end parent) (S (length l)))
                   = Some (length l, r)).
      { by rewrite prev_child_index; cbn; rewrite El, Hlook. }
      rewrite (prev_step _ _ (r_end r)), Hp
        by (rewrite ?Hp; cbn; (done || lia || (intros ? ? [= <- <-]; lia))).
      rewrite (proj2 (Z.ltb_ge _ _)), (proj2 (Z.ltb_ge (r_end r) _)) by lia.
      cbn [iterate]. f_equal. apply Hrest. lia.
Qed.

(** ** Looking up *)

(** A maximal range of free addresses. *)
Definition is_gap (lo hi : Z) (l : list resource) (g : resource) (a : Z) : Prop :=
  covers g a /\ lo <= r_start g /\ r_end g <= hi /\
  (forall b, covers g b -> owner_in l b = None) /\
  (r_start g = lo \/ owner_in l (r_start g - 1) <> None) /\
  (r_end g = hi \/ owner_in l (r_end g + 1) <> None).

Lemma is_gap_cons lo hi r l g a :
  lo <= r_start r -> r_start r <= r_end r -> is_gap (r_end r + 1) hi l g a -> is_gap lo hi (r :: l) g a.
Proof.
  intros O1 O2 (G1 & G2 & G3 & G4 & G5 & G6). unfold is_gap. split_and!; try done; try lia.
  - intros b Hb. rewrite owner_in_cons, decide_False by (unfold covers in *; lia). by apply G4.
  - right. rewrite owner_in_cons. case_decide as Hd; [done|].
    destruct G5 as [G5|G5]; [|done]. unfold covers in Hd. lia.
  - destruct G6 as [|G6]; [by left|right]. rewrite owner_in_cons. by case_decide.
Qed.

Lemma is_gap_head parent lo hi r l a i :
  ordered lo hi (r :: l) -> lo <= a <= r_start r - 1 ->
  is_gap lo hi (r :: l) (region_res (gap_region parent lo (r_start r - 1) i)) a.
Proof.
  intros (O1 & O2 & O3 & O4) Ha. unfold is_gap. cbn [gap_region region_res r_start r_end].
  split_and!; try done; try lia.
  - intros b Hb. unfold covers in Hb. cbn in Hb.
    apply (owner_in_outside (r_start r) hi); [cbn; split_and!; done || lia|lia].
  - right. rewrite owner_in_cons, decide_True; [done|]. unfold covers. lia.
Qed.

(** The first region that holds an address. *)
Definition tile_at (l : list region) (a : Z) : option region :=
  snd <$> list_find (fun g => r_start (region_res g) <= a <= r_end (region_res g)) l.

Lemma tile_at_cons g l a :
  tile_at (g :: l) a = if decide (covers (region_res g) a) then Some g else tile_at l a.
Proof.
  unfold tile_at, covers. cbn. case_decide; [done|]. by destruct (list_find _ l) as [[? ?]|].
Qed.

Lemma find_tile parent lo hi i l a :
  ordered lo hi l ->
  match tile_at (tiles parent lo hi i l) a with
  | None => ~ (lo <= a <= hi)
  | Some (RChild j r) => (i <= j)%nat /\ l !! (j - i)%nat = Some r /\ owner_in l a = Some r
  | Some (RGap n g) => is_gap lo hi l g a
  end.
Proof.
  revert lo i. induction l as [|r l IH]; intros lo i Ho; cbn [tiles].
  - destruct (Z.leb_spec lo hi); [|cbn; lia]. rewrite tile_at_cons.
    case_decide as Hc; unfold covers in Hc; cbn in *; [|lia].
    unfold is_gap, covers. cbn. split_and!; try lia; try done; by left.
  - destruct (Ho) as (O1 & O2 & O3 & O4). specialize (IH _ (S i) O4).
    assert (Hmain : match tile_at (RChild i r :: tiles parent (r_end r + 1) hi (S i) l) a with
      | None => ~ (r_start r <= a <= hi)
      | Some (RChild j r0) => (i <= j)%nat /\ (r :: l) !! (j - i)%nat = Some r0 /\ owner_in (r :: l) a = Some r0
      | Some (RGap n g) => is_gap lo hi (r :: l) g a
      end).
    { rewrite tile_at_cons, owner_in_cons. cbn [region_res]. case_decide as Hc.
      - by rewrite Nat.sub_diag.
      - unfold covers in Hc. destruct (tile_at _ _) as [[j r0|n g]|]; [|by apply is_gap_cons|lia].
        destruct IH as (? & Hl & ?). split_and!; [lia| |done].
        by replace (j - i)%nat with (S (j - S i)) by lia. }
    destruct (Z.ltb_spec lo (r_start r)); cbn [app].
    + rewrite tile_at_cons. case_decide as Hc; unfold covers in Hc; cbn in Hc.
      * by apply (is_gap_head parent _ _ _ _ _ i).
      * destruct (tile_at (_ :: _) _) as [[j r0|n g]|]; done || lia.
    + destruct (tile_at (_ :: _) _) as [[j r0|n g]|]; done || lia.
Qed.

(** ** Sequences of operations *)

(** The calls that the tree survives: the region merged into another has no children,
    a range does not wrap around the address space, and the region that is resized is
    not the whole of it. *)
Definition no_children (p : resource) (j : nat) : bool :=
  match children p !! j with Some r => bool_decide (children r = []) | None => true end.

Definition range_fits (start size : Z) : bool := (0 <? start + size) && (start + size <=? 2 ^ 64).

Definition size_fits (p : resource) (i : nat) : bool :=
  match children p !! i with Some r => r_end r - r_start r + 1 <? 2 ^ 64 | None => true end.

(** One call on the children of a parent, with any 64-bit arguments; the flag says
    whether it is one of those calls. *)
Inductive step : bool -> resource -> resource -> Prop :=
| step_request p start end_ name flags p' i :
    __request_region p start end_ name flags = Ok (p', i) -> step true p p'
| step_resize p i size :
    0 <= size < 2 ^ 64 -> step (size_fits p i) p (snd (resize_child p i size))
| step_release p i : step true p (snd (release_region p i))
| step_release_range p {D} (should_free : resource -> D -> Z * D) start size d ret p' d' :
    0 <= start < 2 ^ 64 -> 0 <= size < 2 ^ 64 ->
    release_region_range should_free p start size d = (ret, p', d') -> step (range_fits start size) p p'
| step_merge p name i j : step (no_children p j) p (snd (__merge_regions p name i j))
| step_child ok p i c c' :
    children p !! i = Some c -> step ok c c' -> step ok p (set_children p (<[i := c']> (children p))).

Lemma resize_child_spec parent i r size :
  wf parent -> children parent !! i = Some r -> 0 < size < 2 ^ 64 -> r_end r - r_start r + 1 < 2 ^ 64 ->
  let newend := r_start r + size - 1 in
  let '(ret, parent') := resize_child parent i size in
  (ret = 0 /\ resize_fits parent r newend /\ wf parent' /\
     parent' = set_children parent (<[i := set_end r newend]> (children parent))) \/
  ((ret = - EINVAL \/ ret = - EBUSY) /\ ~ resize_fits parent r newend /\ parent' = parent).
Proof.
  intros Hwf Hi Hsize Hr newend. unfold resize_child. rewrite Hi.
  apply lookup_split in Hi as (l1 & l2 & El & ->).
  pose proof (resize_region_spec _ _ l1 r l2 parent size Hwf El eq_refl eq_refl Hsize Hr) as Hspec.
  rewrite El, head_lookup. destruct (resize_region _ _ _) as [ret r'].
  rewrite insert_app_r_alt, Nat.sub_diag by lia. cbn [insert list_insert].
  destruct Hspec as [(-> & -> & Hf)|(He & -> & Hf)].
  - left. rewrite insert_app_r_alt, Nat.sub_diag by lia. cbn [insert list_insert].
    split_and!; try done. apply (set_end_wf _ _ _ _ _ Hwf El Hf). lia.
  - right. split_and!; try done. rewrite <- El. by destruct parent.
Qed.

Lemma resize_child_zero parent i : resize_child parent i 0 =
  (match children parent !! i with Some _ => - EINVAL | None => 0 end, parent).
Proof.
  unfold resize_child. destruct (children parent !! i) as [r|] eqn:E; [|done]. cbn.
  rewrite list_insert_id by done. by destruct parent.
Qed.

Lemma merge_step_wf p name i j :
  wf p -> (forall r, children p !! j = Some r -> children r = []) ->
  wf (snd (__merge_regions p name i j)) /\
  r_start (snd (__merge_regions p name i j)) = r_start p /\
  r_end (snd (__merge_regions p name i j)) = r_end p.
Proof.
  intros Hwf Hleaf.
  destruct (children p !! i) as [x|] eqn:Ei; [|by unfold __merge_regions; rewrite Ei].
  destruct (children p !! j) as [y|] eqn:Ej; [|by unfold __merge_regions; rewrite Ei, Ej].
  destruct (resource_adjacent x y) eqn:Ea;
    [|by unfold __merge_regions; rewrite Ei, Ej, Ea].
  destruct (merge_spec p name i j x y Hwf Ei Ej Ea (Hleaf _ eq_refl)) as (m & Hs & _ & _ & _ & _ & Hw & _).
  split; [done|]. by rewrite Hs.
Qed.

Lemma release_range_wf {D} (f : resource -> D -> Z * D) p start size d ret p' d' :
  wf p -> 0 <= start -> 0 <= size -> 0 < start + size <= 2 ^ 64 ->
  release_region_range f p start size d = (ret, p', d') ->
  wf p' /\ r_start p' = r_start p /\ r_end p' = r_end p.
Proof.
  intros Hwf Hs Hz Hsum. destruct (wf_inv _ Hwf) as (W1 & W2 & W3 & W4 & W5).
  unfold release_region_range. rewrite u64_small by lia.
  destruct (_ || _); [by intros [= _ <- _]|].
  destruct (release_loop _ _ _ _ _ _) as [[[r l] err] d''] eqn:El. intros [= _ <- _].
  eapply release_loop_wf in El as [Ho Hall]; [|done|done|lia].
  split; [by apply wf_set_children|done].
Qed.

(** These calls keep the tree well-formed and the parent's range. *)
Lemma step_wf ok p p' : step ok p p' -> ok = true -> wf p -> wf p' /\ r_start p' = r_start p /\ r_end p' = r_end p.
Proof.
  induction 1 as [p start end_ name flags p' i E|p i size Hz|p i|p D f start size d ret p' d' H1 H2 E
                 |p name i j|ok p i c c' Hi Hstep IH]; intros Hok Hwf.
  - by apply request_Ok in E as (_ & _ & _ & _ & ? & _ & _ & ? & ? & _).
  - destruct (children p !! i) as [r|] eqn:Ei; [|by unfold resize_child; rewrite Ei].
    destruct (decide (size = 0)) as [->|]; [by rewrite resize_child_zero|].
    unfold size_fits in Hok. rewrite Ei in Hok. apply Z.ltb_lt in Hok.
    pose proof (resize_child_spec p i r size Hwf Ei ltac:(lia) Hok) as Hspec.
    destruct (resize_child p i size) as [ret p'].
    by destruct Hspec as [(_ & _ & ? & ->)|(_ & _ & ->)].
  - split; [by apply release_wf|]. unfold release_region.
    destruct (children p !! i); [|done]. by case_bool_decide.
  - unfold range_fits in Hok. bool_prop. eapply release_range_wf; [done| | | |exact E]; lia.
  - apply merge_step_wf; [done|]. intros r Hr. unfold no_children in Hok. rewrite Hr in Hok. by apply bool_decide_eq_true in Hok.
  - destruct (wf_inv _ Hwf) as (W1 & W2 & W3 & W4 & W5).
    destruct (IH Hok (Forall_lookup_1 _ _ _ _ W5 Hi)) as (Hc & Es & Ee). split; [|done].
    apply wf_set_children; [done| |by apply Forall_insert].
    apply lookup_split in Hi as (l1 & l2 & El & ->). rewrite El in W4 |- *.
    rewrite insert_app_r_alt, Nat.sub_diag by lia. cbn [insert list_insert].
    apply ordered_app. rewrite Es, Ee. by apply ordered_app in W4.
Qed.

(** An address has one owner among the children. *)
Lemma wf_disjoint p i j x y a :
  wf p -> children p !! i = Some x -> children p !! j = Some y -> covers x a -> covers y a -> i = j.
Proof.
  intros Hwf Hi Hj Hx Hy. destruct (wf_inv _ Hwf) as (_ & _ & _ & W4 & _). unfold covers in *.
  destruct (lt_eq_lt_dec i j) as [[Hlt|]|Hlt]; [|done|].
  - pose proof (ordered_lookup_lt _ _ _ _ _ _ _ W4 Hi Hj Hlt). lia.
  - pose proof (ordered_lookup_lt _ _ _ _ _ _ _ W4 Hj Hi Hlt). lia.
Qed.

(** ** The properties *)

(** C24: requesting a range refines claiming free addresses.  It succeeds exactly
    when the range is inside the parent and no address of it has an owner; then
    the new region owns exactly the range, every other address keeps its owner,
    and the other children stay in their order.  A range that is empty or leaves
    the parent is refused with [-EINVAL], an occupied one with [-EBUSY]. *)
Theorem request_region_refines parent start end_ name flags :
  wf parent ->
  match __request_region parent start end_ name flags with
  | Ok (parent', i) =>
      let new := new_region start end_ name flags in
      (r_start parent <= start /\ start <= end_ /\ end_ <= r_end parent) /\
      (forall a, covers new a -> owner parent a = None) /\
      wf parent' /\ children parent' !! i = Some new /\ delete i (children parent') = children parent /\
      (forall a, owner parent' a = if decide (covers new a) then Some new else owner parent a)
  | Err e =>
      e = - EINVAL /\ ~ (r_start parent <= start /\ start <= end_ /\ end_ <= r_end parent) \/
      e = - EBUSY /\ exists a, start <= a <= end_ /\ owner parent a <> None
  end.
Proof.
  intros Hwf. destruct (__request_region _ _ _ _ _) as [[p' i]|e] eqn:E.
  - apply request_Ok in E as (? & ? & ? & ? & ? & ? & ? & _ & _ & ?); [|done]. by split_and!.
  - by apply request_Err in E.
Qed.

(** Resizing a child succeeds exactly when the new end is inside the parent,
    the addresses behind the old end are free and no grandchild is cut; it then
    changes only the end and keeps the tree well-formed, and otherwise returns
    an error with the tree unchanged. *)
Theorem resize_region_exact parent i r size :
  wf parent -> children parent !! i = Some r -> 0 < size < 2 ^ 64 ->
  r_end r - r_start r + 1 < 2 ^ 64 ->
  let newend := r_start r + size - 1 in
  let '(ret, parent') := resize_child parent i size in
  (ret = 0 /\ resize_fits parent r newend /\ wf parent' /\
     parent' = set_children parent (<[i := set_end r newend]> (children parent))) \/
  ((ret = - EINVAL \/ ret = - EBUSY) /\ ~ resize_fits parent r newend /\ parent' = parent).
Proof. apply resize_child_spec. Qed.

(** Releasing a range frees exactly its addresses.  When the regions that
    overlap the range have no children, the call returns 0, no address of the
    range has an owner afterwards, every other address belongs to a region of
    the same name as before, and the tree stays well-formed: regions are
    removed, trimmed on either side or split. *)
Theorem release_region_range_frees parent start size :
  wf parent -> 0 <= start -> 0 < size -> start + size <= 2 ^ 64 ->
  Forall (fun r => children r = [] \/ start + size - 1 < r_start r \/ r_end r < start) (children parent) ->
  exists parent', release_region_range yes_free parent start size tt = (0, parent', tt) /\
    wf parent' /\
    forall a, r_name <$> owner parent' a =
      if decide (start <= a <= start + size - 1) then None else r_name <$> owner parent a.
Proof.
  intros Hwf Hs Hz Hsum Hleaf. destruct (wf_inv _ Hwf) as (W1 & W2 & W3 & W4 & W5).
  destruct (release_region_range yes_free parent start size tt) as [[ret p'] []] eqn:E.
  destruct (release_range_wf _ _ start size _ _ _ _ Hwf ltac:(lia) ltac:(lia) ltac:(lia) E) as [Hw _].
  unfold release_region_range in E. rewrite u64_small in E by lia.
  destruct (_ || _) eqn:Eo.
  - injection E as <- <-. exists parent. split_and!; [done..|]. intros a. case_decide as Ha; [|done].
    unfold owner. rewrite (owner_in_outside _ _ _ _ W4); [done|].
    apply orb_true_iff in Eo as [Eo|Eo]; bool_prop; lia.
  - destruct (release_loop_cut start (start + size - 1) _ _ _ ltac:(lia) W4 Hleaf) as (l' & El & Hown).
    rewrite El in E. injection E as <- <-. eexists. split_and!; [done..|].
    intros a. apply Hown.
Qed.

(** Merging two adjacent siblings, the second without children: the first
    owns the addresses of both under the new name and keeps its children, the
    second is gone, every other address keeps its owner, and the tree stays
    well-formed.  Siblings that are not adjacent are refused and nothing
    changes. *)
Theorem merge_regions_exact parent name i j x y :
  wf parent -> children parent !! i = Some x -> children parent !! j = Some y -> children y = [] ->
  if resource_adjacent x y then
    exists m parent', __merge_regions parent name i j = (0, parent') /\
      wf parent' /\ r_name m = name /\ children m = children x /\
      length (children parent) = S (length (children parent')) /\
      forall a, owner parent' a =
        if decide (covers x a \/ covers y a) then Some m else owner parent a
  else __merge_regions parent name i j = (- EINVAL, parent).
Proof.
  intros Hwf Hi Hj Hleaf. destruct (resource_adjacent x y) eqn:Ea.
  - destruct (merge_spec parent name i j x y Hwf Hi Hj Ea Hleaf) as (m & Hs & _ & _ & Hn & Hc & Hw & Ho).
    exists m, (snd (__merge_regions parent name i j)). split_and!; try done.
    + unfold __merge_regions. rewrite Hi, Hj, Ea. cbn [negb]. by destruct (release_region _ _).
    + rewrite Hs. cbn [set_children children].
      pose proof (lookup_lt_Some _ _ _ Hj).
      rewrite length_delete, length_insert by (apply lookup_lt_is_Some_2; by rewrite length_insert). lia.
  - unfold __merge_regions. by rewrite Hi, Hj, Ea.
Qed.

(** C20: the invariant of the address space.  After any sequence of requests,
    resizes, releases, range releases and merges, at any depth of the tree, the
    regions under the root of memory-mapped I/O are inside their parents,
    ordered and disjoint: an address has at most one owner on each level.  Three
    kinds of calls are left out, which the code does not refuse: merging a region
    that has children into another ([merge_with_children_overlaps]), releasing a
    range that wraps around the address space, and resizing a region that covers
    all of it ([resize_full_range]). *)
Theorem iomem_disjoint p :
  rtc (step true) iomem_resource p ->
  wf p /\
  forall i j x y a, children p !! i = Some x -> children p !! j = Some y ->
    covers x a -> covers y a -> i = j.
Proof.
  intros Hsteps. assert (Hwf : wf p).
  { assert (H0 : wf iomem_resource) by (by constructor; cbn; constructor || lia).
    revert H0. induction Hsteps as [|p p' p'' Hstep _ IH]; [done|].
    intros Hp. by apply IH, (step_wf true p). }
  split; [done|]. intros i j x y a. by apply wf_disjoint.
Qed.

(** [for_each_resource_region] visits the children in order with exactly the
    gaps between them, so that the regions visited tile the parent, and
    [for_each_resource_region_reverse] visits the same regions backwards; both
    loops end within two steps per child. *)
Theorem for_each_resource_region_tiles parent :
  wf parent -> region_is_gap parent = false ->
  for_each_resource_region parent = tiles parent (r_start parent) (r_end parent) 0 (children parent) /\
  for_each_resource_region_reverse parent = rev (for_each_resource_region parent).
Proof.
  intros Hwf Hg. rewrite for_each_reverse_tiles, for_each_tiles by done. done.
Qed.

(** [lookup_region] finds the child that owns an address, and otherwise the
    whole gap the address is in: its ends are the ends of the parent or border
    on a child.  Only an address outside the parent gives no result. *)
Theorem lookup_region_exact parent a :
  wf parent -> region_is_gap parent = false ->
  match lookup_region parent a true with
  | Some (RChild i r) => children parent !! i = Some r /\ owner parent a = Some r
  | Some (RGap _ g) => is_gap (r_start parent) (r_end parent) (children parent) g a
  | None => ~ covers parent a
  end.
Proof.
  intros Hwf Hg. destruct (wf_inv _ Hwf) as (_ & _ & _ & W4 & _).
  pose proof (find_tile parent _ _ 0 _ a W4) as Ht. unfold lookup_region.
  rewrite for_each_tiles by done. unfold tile_at in Ht.
  destruct (list_find _ _) as [[k [j r|n g]]|]; cbn [fmap option_fmap option_map snd] in Ht;
    rewrite ?Nat.sub_0_r in Ht; [destruct (negb _)..|]; done || tauto.
Qed.

(** ** Examples *)

Module Demo.

Definition ra : resource := new_region 0x1000 0x1fff "a" 0.
Definition rb : resource := new_region 0x3000 0x4fff "b" 0.
Definition tree : resource := set_children iomem_resource [ra; rb].

Lemma leaf_wf r : children r = [] -> 0 <= r_start r <= r_end r /\ r_end r < 2 ^ 64 -> wf r.
Proof. intros E H. constructor; rewrite ?E; try lia; constructor. Qed.

Lemma tree_wf : wf tree.
Proof.
  constructor; cbn; [lia..| |].
  - split_and!; done || lia.
  - repeat (apply Forall_cons_2; [apply leaf_wf; cbn; done || lia|]). by apply Forall_nil_2.
Qed.

Lemma request_region_refines_witness :
  wf tree /\ exists p i, __request_region tree 0x2000 0x2fff "c" 0 = Ok (p, i) /\ wf p /\
    owner p 0x2800 = Some (new_region 0x2000 0x2fff "c" 0).
Proof.
  split; [exact tree_wf|].
  pose proof (request_region_refines tree 0x2000 0x2fff "c" 0 tree_wf) as H.
  destruct (__request_region tree 0x2000 0x2fff "c" 0) as [[p i]|e] eqn:E; [|discriminate E].
  exists p, i. destruct H as (_ & _ & Hw & _ & _ & Ho).
  split_and!; [done..|]. rewrite Ho. reflexivity.
Defined.

Lemma resize_region_exact_witness :
  exists p, resize_child tree 0 0x2000 = (0, p) /\ wf p /\ owner p 0x2fff = Some (set_end ra 0x2fff).
Proof.
  pose proof (resize_region_exact tree 0 ra 0x2000 tree_wf eq_refl ltac:(lia) ltac:(cbn; lia)) as H.
  destruct (resize_child tree 0 0x2000) as [ret p] eqn:E. cbn in H.
  destruct H as [(-> & _ & Hw & ->)|([He|He] & _ & _)].
  - eexists. split_and!; [done..|reflexivity].
  - exfalso. rewrite He in E. discriminate E.
  - exfalso. rewrite He in E. discriminate E.
Defined.

Lemma release_region_range_frees_witness :
  exists p, release_region_range yes_free tree 0x1800 0x2800 tt = (0, p, tt) /\ wf p /\
    (r_name <$> owner p 0x17ff) = Some "a" /\ owner p 0x3fff = None.
Proof.
  destruct (release_region_range_frees tree 0x1800 0x2800 tree_wf ltac:(lia) ltac:(lia) ltac:(lia)
    ltac:(repeat constructor)) as (p & E & Hw & Ho).
  exists p. split_and!; [done..| |].
  - rewrite Ho. reflexivity.
  - specialize (Ho 0x3fff). rewrite decide_True in Ho by lia. by destruct (owner p 0x3fff).
Defined.

Definition tree_adj : resource := set_children iomem_resource [ra; new_region 0x2000 0x2fff "c" 0; rb].

Lemma tree_adj_wf : wf tree_adj.
Proof.
  constructor; cbn; [lia..| |].
  - split_and!; done || lia.
  - repeat (apply Forall_cons_2; [apply leaf_wf; cbn; done || lia|]). by apply Forall_nil_2.
Qed.

Lemma merge_regions_exact_witness :
  exists m p, __merge_regions tree_adj "m" 1 2 = (0, p) /\ wf p /\ r_name m = "m" /\
    owner p 0x2abc = Some m /\ owner p 0x4abc = Some m.
Proof.
  destruct (merge_regions_exact tree_adj "m" 1 2 _ rb tree_adj_wf eq_refl eq_refl eq_refl)
    as (m & p & E & Hw & Hn & _ & _ & Ho).
  exists m, p. split_and!; [done..| |]; rewrite Ho; reflexivity.
Defined.

(** Two regions, one of them with a child for a while; the first grows up to the
    second and takes it, then a piece in the middle is released, and what is behind it. *)
Definition tree_b (l : list resource) : resource := set_children iomem_resource [ra; set_children rb l].
Definition tree_grown : resource := set_children iomem_resource [new_region 0x1000 0x2fff "a" 0; rb].
Definition tree_merged : resource := set_children iomem_resource [new_region 0x1000 0x4fff "m" 0].
Definition tree_cut : resource := set_children iomem_resource [new_region 0x1000 0x1fff "m" 0; new_region 0x3000 0x4fff "m" 0].
Definition tree_last : resource := set_children iomem_resource [new_region 0x1000 0x1fff "m" 0].

Lemma iomem_disjoint_witness : rtc (step true) iomem_resource tree_last /\ wf tree_last.
Proof.
  assert (H : rtc (step true) iomem_resource tree_last).
  { eapply rtc_l; [apply (step_request _ 0x1000 0x1fff "a" 0 _ 0); reflexivity|].
    eapply (rtc_l _ _ tree); [apply (step_request _ 0x3000 0x4fff "b" 0 _ 1); reflexivity|].
    eapply (rtc_l _ _ (tree_b [new_region 0x3000 0x30ff "c" 0])).
    { apply (step_child true tree 1 rb (set_children rb [new_region 0x3000 0x30ff "c" 0])); [reflexivity|].
      apply (step_request _ 0x3000 0x30ff "c" 0 _ 0). reflexivity. }
    eapply (rtc_l _ _ tree).
    { apply (step_child true (tree_b [new_region 0x3000 0x30ff "c" 0]) 1 (set_children rb [new_region 0x3000 0x30ff "c" 0]) rb); [reflexivity|].
      apply (step_release (set_children rb [new_region 0x3000 0x30ff "c" 0]) 0). }
    eapply (rtc_l _ _ tree_grown); [apply (step_resize tree 0 0x2000); lia|].
    eapply (rtc_l _ _ tree_merged); [apply (step_merge tree_grown "m" 0 1)|].
    eapply (rtc_l _ _ tree_cut); [apply (step_release_range tree_merged yes_free 0x2000 0x1000 tt 0 _ tt); [lia|lia|reflexivity]|].
    apply rtc_once. apply (step_release tree_cut 1). }
  split; [exact H|]. exact (proj1 (iomem_disjoint tree_last H)).
Defined.

Lemma for_each_resource_region_tiles_witness :
  length (for_each_resource_region tree) = 5%nat /\
  for_each_resource_region_reverse tree = rev (for_each_resource_region tree).
Proof.
  split; [reflexivity|]. exact (proj2 (for_each_resource_region_tiles tree tree_wf eq_refl)).
Defined.

Lemma lookup_region_exact_witness :
  exists n g, lookup_region tree 0x2800 true = Some (RGap n g) /\
    is_gap 0 (2 ^ 64 - 1) [ra; rb] g 0x2800 /\ (r_start g, r_end g) = (0x2000, 0x2fff).
Proof.
  pose proof (lookup_region_exact tree 0x2800 tree_wf eq_refl) as H.
  destruct (lookup_region tree 0x2800 true) as [[i r|n g]|] eqn:E; [discriminate E| |discriminate E].
  exists n, g. split_and!; [done..|]. by injection E as <- <-.
Defined.

(** A failed release reports 1, not the error. *)
Example release_range_busy_returns_one :
  release_region_range yes_free
    (set_children iomem_resource [set_children rb [new_region 0x3000 0x3fff "c" 0]])
    0x3000 0x1000 tt
  = (1, set_children iomem_resource [set_children rb [new_region 0x3000 0x3fff "c" 0]], tt).
Proof. reflexivity. Qed.

(** Releasing nothing at address 0 releases everything. *)
Example release_range_empty_at_zero :
  release_region_range yes_free tree 0 0 tt = (0, set_children iomem_resource [], tt).
Proof. reflexivity. Qed.

(** Releasing nothing inside a region splits it. *)
Example release_range_empty_splits :
  release_region_range yes_free (set_children iomem_resource [ra]) 0x1800 0 tt
  = (0, set_children iomem_resource
          [new_region 0x1000 0x17ff "a" 0; new_region 0x1800 0x1fff "a" 0], tt).
Proof. reflexivity. Qed.

(** The right part of a split region has neither its type nor its attributes. *)
Example split_loses_attrs :
  release_region_range yes_free
    (set_children iomem_resource [Res 0x1000 0x1fff "a" 0 7 3 1 []]) 0x1400 0x400 tt
  = (0, set_children iomem_resource
          [Res 0x1000 0x13ff "a" 0 7 3 1 []; Res 0x1800 0x1fff "a" 0 0 0 0 []], tt).
Proof. reflexivity. Qed.

(** Merging with a sibling that has children leaves two overlapping regions and
    reports success. *)
Example merge_with_children_overlaps :
  let rc := set_children (new_region 0x2000 0x2fff "c" 0) [new_region 0x2000 0x20ff "d" 0] in
  __merge_regions (set_children iomem_resource [ra; rc]) "m" 0 1
  = (0, set_children iomem_resource [new_region 0x1000 0x2fff "m" 0; rc]).
Proof. reflexivity. Qed.

(** The region of all addresses has size 0, and "growing" it to one byte cuts
    its children off. *)
Example resize_full_range :
  let all := set_children iomem_resource [ra] in
  resize_region (Some (2 ^ 64 - 1, None)) all 1 = (0, set_end all 0).
Proof. reflexivity. Qed.

End Demo.

End Resource.
