(* ===== verification/CrcItuT.v ===== *)
(** * CRC ITU-T V.41 (crypto/crc-itu-t.c)

    The 16-bit checksum of the RATP packets: the table that the first call
    fills, the loop that uses it, its equality with the bitwise definition, and
    the errors it detects. *)

From stdpp Require Import base list.
From Stdlib Require Import ZArith Lia.
From S2P Require Import Prelude.

Module CrcItuT.

(** ** Definitions *)

Definition crc_itu_t_table_init : list Z := replicate 256 0.

(** One round: [crc & 0x8000 ? crc << 1 ^ 0x1021 : crc << 1] on a [u16]. *)
Definition itu_bit (crc : Z) : Z :=
  if negb (Z.land crc 0x8000 =? 0) then u16 (Z.lxor (Z.shiftl crc 1) 0x1021)
  else u16 (Z.shiftl crc 1).

Fixpoint itu_bits (k : nat) (crc : Z) : Z :=
  match k with
  | O => crc
  | S k => itu_bits k (itu_bit crc)
  end.

Definition crc_itu_t_byte (crc data : Z) : Z :=
  itu_bits 8 (u16 (Z.lxor crc (Z.shiftl data 8))).

Definition make_crc_table (tbl : list Z) : list Z :=
  if negb (nth 1 tbl 0 =? 0) then tbl
  else fold_left (fun t n => <[n := crc_itu_t_byte 0 (Z.of_nat n)]> t) (seq 0 256) tbl.

Definition itu_step (tbl : list Z) (crc : Z) (b : byte) : Z :=
  u16 (Z.lxor (Z.shiftl crc 8)
         (nth (Z.to_nat (Z.land (Z.lxor (Z.shiftr crc 8) (byte_val b)) 0xff)) tbl 0)).

(** The table is static state: it is returned next to the result. *)
Definition crc_itu_t_st (tbl : list Z) (crc : Z) (buffer : list byte) : Z * list Z :=
  let tbl := make_crc_table tbl in
  (fold_left (itu_step tbl) buffer crc, tbl).

(** The result of the first call after start-up. *)
Definition crc_itu_t (crc : Z) (buffer : list byte) : Z :=
  fst (crc_itu_t_st crc_itu_t_table_init crc buffer).

(** ** The shift register *)

(** The bitwise definition, byte by byte. *)
Definition reg_run (crc : Z) (l : list byte) : Z :=
  fold_left (fun c b => crc_itu_t_byte c (byte_val b)) l crc.

Lemma u16_lxor a b : u16 (Z.lxor a b) = Z.lxor (u16 a) (u16 b).
Proof.
  unfold u16. apply Z.bits_inj'. intros n Hn. rewrite Z.lxor_spec.
  destruct (decide (n < 16)).
  - by rewrite !Z.mod_pow2_bits_low, Z.lxor_spec by lia.
  - by rewrite !Z.mod_pow2_bits_high by lia.
Qed.

Lemma u16_range z : 0 <= u16 z < 2 ^ 16.
Proof. by apply Z.mod_pos_bound. Qed.

Lemma land_bit15 c : 0 <= c < 2 ^ 16 -> (Z.land c 0x8000 =? 0) = negb (Z.testbit c 15).
Proof.
  intros Hc. destruct (Z.testbit c 15) eqn:E; cbn [negb].
  - apply Z.eqb_neq. intros H. assert (Z.testbit (Z.land c 0x8000) 15 = true); [|by rewrite H in *].
    rewrite Z.land_spec, E. reflexivity.
  - apply Z.eqb_eq. apply Z.bits_inj'. intros n Hn. rewrite Z.land_spec, Z.bits_0.
    destruct (decide (n = 15)) as [->|]; [by rewrite E|].
    change 0x8000 with (2 ^ 15). by rewrite Z.pow2_bits_false, andb_false_r by lia.
Qed.

Lemma itu_bit_eq c :
  0 <= c < 2 ^ 16 ->
  itu_bit c = Z.lxor (u16 (Z.shiftl c 1)) (if Z.testbit c 15 then 0x1021 else 0).
Proof.
  intros Hc. unfold itu_bit. rewrite land_bit15, negb_involutive by done.
  destruct (Z.testbit c 15); [by rewrite u16_lxor|by rewrite Z.lxor_0_r].
Qed.

Lemma itu_bit_range c : 0 <= itu_bit c < 2 ^ 16.
Proof. unfold itu_bit. destruct (negb _); apply u16_range. Qed.

Lemma itu_bits_range k c : 0 <= c < 2 ^ 16 -> 0 <= itu_bits k c < 2 ^ 16.
Proof. revert c. induction k as [|k IH]; intros c Hc; [done|]. apply IH, itu_bit_range. Qed.

Lemma lxor16 a b : 0 <= a < 2 ^ 16 -> 0 <= b < 2 ^ 16 -> 0 <= Z.lxor a b < 2 ^ 16.
Proof. by apply lxor_bound. Qed.

Lemma itu_bit_lxor a b :
  0 <= a < 2 ^ 16 -> 0 <= b < 2 ^ 16 -> itu_bit (Z.lxor a b) = Z.lxor (itu_bit a) (itu_bit b).
Proof.
  intros Ha Hb. rewrite !itu_bit_eq by (try apply lxor16; done).
  rewrite Z.shiftl_lxor, u16_lxor, Z.lxor_spec.
  destruct (Z.testbit a 15), (Z.testbit b 15); cbn [xorb]; rewrite ?Z.lxor_0_r; xor_solve.
Qed.

Lemma itu_bits_lxor k a b :
  0 <= a < 2 ^ 16 -> 0 <= b < 2 ^ 16 -> itu_bits k (Z.lxor a b) = Z.lxor (itu_bits k a) (itu_bits k b).
Proof.
  revert a b. induction k as [|k IH]; intros a b Ha Hb; cbn [itu_bits]; [done|].
  rewrite itu_bit_lxor, IH; done || apply itu_bit_range.
Qed.

(** Only zero is mapped to zero: the polynomial has the constant term. *)
Lemma itu_bit_zero c : 0 <= c < 2 ^ 16 -> itu_bit c = 0 -> c = 0.
Proof.
  intros Hc. rewrite itu_bit_eq by done. intros H. apply Z.lxor_eq in H.
  unfold u16 in H. rewrite Z.shiftl_mul_pow2 in H by lia. change (2 ^ 1) with 2 in H.
  destruct (Z.testbit c 15) eqn:E.
  - exfalso. assert (Hodd : Z.odd (c * 2 mod 2 ^ 16) = true) by (by rewrite H).
    rewrite <- Z.bit0_odd, Z.mod_pow2_bits_low, Z.bit0_odd in Hodd by lia.
    rewrite Z.odd_mul in Hodd. by rewrite andb_false_r in Hodd.
  - assert (c < 2 ^ 15).
    { destruct (decide (c < 2 ^ 15)); [done|]. exfalso.
      assert (Z.testbit c 15 = true); [|congruence]. apply Z.testbit_true; [lia|].
      replace (c / 2 ^ 15) with 1; [done|]. apply Z.div_unique with (c - 2 ^ 15); lia. }
    rewrite Z.mod_small in H by lia. lia.
Qed.

Lemma itu_bits_zero k c : 0 <= c < 2 ^ 16 -> itu_bits k c = 0 -> c = 0.
Proof.
  revert c. induction k as [|k IH]; intros c Hc H; [done|].
  apply itu_bit_zero; [done|]. apply IH; [apply itu_bit_range|done].
Qed.

Lemma itu_bits_inj k a b :
  0 <= a < 2 ^ 16 -> 0 <= b < 2 ^ 16 -> itu_bits k a = itu_bits k b -> a = b.
Proof.
  intros Ha Hb H. apply Z.lxor_eq. apply (itu_bits_zero k); [by apply lxor16|].
  rewrite itu_bits_lxor, H by done. apply Z.lxor_nilpotent.
Qed.

(** Without a carry the register only shifts. *)
Lemma itu_bits_shift k x : 0 <= x -> x * 2 ^ Z.of_nat k < 2 ^ 16 -> itu_bits k x = x * 2 ^ Z.of_nat k.
Proof.
  revert x. induction k as [|k IH]; intros x Hx Hb; cbn [itu_bits]; [lia|].
  rewrite Nat2Z.inj_succ, Z.pow_succ_r in Hb |- * by lia.
  assert (0 < 2 ^ Z.of_nat k) by (apply Z.pow_pos_nonneg; lia).
  assert (Hx2 : x * 2 < 2 ^ 16) by nia.
  rewrite itu_bit_eq by lia.
  replace (Z.testbit x 15) with false.
  2:{ symmetry. rewrite Z.testbit_false by lia. rewrite Z.div_small by lia. done. }
  rewrite Z.lxor_0_r, Z.shiftl_mul_pow2, u16_small by lia. change (2 ^ 1) with 2.
  rewrite IH by nia. ring.
Qed.

(** ** The table *)

Definition crc_itu_t_table : list Z :=
  Eval vm_compute in map (fun n => crc_itu_t_byte 0 (Z.of_nat n)) (seq 0 256).

Lemma crc_itu_t_table_made : make_crc_table crc_itu_t_table_init = crc_itu_t_table.
Proof. vm_compute. reflexivity. Qed.

(** The tables the program can be in. *)
Definition table_ok (tbl : list Z) : Prop := tbl = crc_itu_t_table_init \/ tbl = crc_itu_t_table.

Lemma itu_make_crc_table_ok tbl : table_ok tbl -> make_crc_table tbl = crc_itu_t_table.
Proof. intros [->| ->]; [apply crc_itu_t_table_made|reflexivity]. Qed.

Lemma itu_table_entry n : (n < 256)%nat -> nth n crc_itu_t_table 0 = crc_itu_t_byte 0 (Z.of_nat n).
Proof.
  intros Hn.
  replace crc_itu_t_table with (map (fun n => crc_itu_t_byte 0 (Z.of_nat n)) (seq 0 256))
    by (vm_compute; reflexivity).
  rewrite (nth_indep _ _ (crc_itu_t_byte 0 (Z.of_nat 0))) by (by rewrite length_map, length_seq).
  rewrite (map_nth (fun n => crc_itu_t_byte 0 (Z.of_nat n))). by rewrite seq_nth.
Qed.

(** One table lookup is eight rounds of the register. *)
Lemma itu_step_byte crc b :
  0 <= crc < 2 ^ 16 -> itu_step crc_itu_t_table crc b = crc_itu_t_byte crc (byte_val b).
Proof.
  intros Hc. pose proof (byte_val_range b) as Hb. unfold itu_step.
  set (hi := Z.shiftr crc 8). set (lo := crc mod 256).
  assert (Hhi : 0 <= hi < 2 ^ 8).
  { unfold hi. rewrite Z.shiftr_div_pow2 by lia. split; [apply Z.div_pos; lia|].
    apply Z.div_lt_upper_bound; lia. }
  assert (Hlo : 0 <= lo < 256) by (apply Z.mod_pos_bound; lia).
  assert (Hx : 0 <= Z.lxor hi (byte_val b) < 2 ^ 8) by (apply lxor_bound; lia).
  change 0xff with (Z.ones 8). rewrite Z.land_ones, Z.mod_small by lia.
  rewrite itu_table_entry by lia. rewrite Z2Nat.id by lia.
  unfold crc_itu_t_byte. rewrite Z.lxor_0_l.
  assert (Hsh : forall x, 0 <= x < 2 ^ 8 -> u16 (Z.shiftl x 8) = Z.shiftl x 8).
  { intros x Hx'. apply u16_small. rewrite Z.shiftl_mul_pow2 by lia. lia. }
  assert (Hcrc : crc = Z.lxor (Z.shiftl hi 8) lo).
  { unfold hi, lo. change 256 with (2 ^ 8). rewrite <- Z.land_ones by lia.
    apply Z.bits_inj'. intros n Hn. rewrite Z.lxor_spec, Z.land_spec, Z.shiftl_spec by lia.
    destruct (decide (n < 8)).
    - rewrite (Z.testbit_neg_r _ (n - 8)), Z.ones_spec_low by lia. by destruct (Z.testbit crc n).
    - rewrite Z.shiftr_spec, Z.ones_spec_high by lia. rewrite Z.sub_add, andb_false_r.
      by rewrite xorb_false_r. }
  assert (Hreg : u16 (Z.lxor crc (Z.shiftl (byte_val b) 8)) =
                 Z.lxor (Z.shiftl (Z.lxor hi (byte_val b)) 8) lo).
  { rewrite u16_lxor, (Hsh (byte_val b)), (u16_small crc) by (done || lia). rewrite Hcrc at 1. rewrite Z.shiftl_lxor. xor_solve. }
  assert (Hrange : 0 <= Z.shiftl (Z.lxor hi (byte_val b)) 8 < 2 ^ 16)
    by (rewrite Z.shiftl_mul_pow2 by lia; lia).
  rewrite Hreg, Hsh, itu_bits_lxor by (done || lia).
  rewrite (itu_bits_shift 8 lo) by (change (Z.of_nat 8) with 8; lia).
  rewrite u16_lxor, (u16_small (itu_bits 8 _)) by (by apply itu_bits_range).
  rewrite Z.lxor_comm. f_equal. unfold u16. rewrite Z.shiftl_mul_pow2 by lia.
  change (2 ^ 16) with (256 * 2 ^ 8). rewrite Z.mul_mod_distr_r by lia. done.
Qed.

Lemma crc_itu_t_byte_range crc d : 0 <= crc_itu_t_byte crc d < 2 ^ 16.
Proof. apply itu_bits_range, u16_range. Qed.

Lemma itu_reg_run_range crc l : 0 <= crc < 2 ^ 16 -> 0 <= reg_run crc l < 2 ^ 16.
Proof.
  intros Hc. apply (fold_left_inv (fun c => 0 <= c < 2 ^ 16)); [done|]. intros. apply crc_itu_t_byte_range.
Qed.

Lemma crc_itu_t_st_reg tbl crc buffer :
  table_ok tbl -> 0 <= crc < 2 ^ 16 ->
  crc_itu_t_st tbl crc buffer = (reg_run crc buffer, crc_itu_t_table).
Proof.
  intros Ht Hc. unfold crc_itu_t_st. rewrite itu_make_crc_table_ok by done. f_equal.
  apply (fold_left_inv_ext (fun c => 0 <= c < 2 ^ 16)); [done| |].
  - intros c b. apply itu_step_byte.
  - intros. apply crc_itu_t_byte_range.
Qed.

Lemma crc_itu_t_range crc buffer : 0 <= crc < 2 ^ 16 -> 0 <= crc_itu_t crc buffer < 2 ^ 16.
Proof.
  intros Hc. unfold crc_itu_t. rewrite crc_itu_t_st_reg; [by apply itu_reg_run_range|by left|done].
Qed.

(** ** Detection of errors *)

Lemma byte_step_inj_c d a b :
  0 <= a < 2 ^ 16 -> 0 <= b < 2 ^ 16 -> crc_itu_t_byte a d = crc_itu_t_byte b d -> a = b.
Proof.
  intros Ha Hb H. apply itu_bits_inj in H; try apply u16_range.
  rewrite !u16_lxor, !(u16_small a), !(u16_small b) in H by done.
  rewrite (Z.lxor_comm a), (Z.lxor_comm b) in H. by apply lxor_cancel_l in H.
Qed.

Lemma itu_reg_run_inj_c l a b :
  0 <= a < 2 ^ 16 -> 0 <= b < 2 ^ 16 -> reg_run a l = reg_run b l -> a = b.
Proof.
  revert a b. induction l as [|x l IH]; intros a b Ha Hb H; [done|].
  apply (byte_step_inj_c (byte_val x)); [done..|].
  apply IH; [apply crc_itu_t_byte_range..|done].
Qed.

(** Two bytes at once: sixteen rounds on the register exclusive or the bytes. *)
Lemma reg_run_two c x0 x1 :
  0 <= c < 2 ^ 16 ->
  reg_run c [x0; x1] = itu_bits 16 (Z.lxor c (byte_val x0 * 256 + byte_val x1)).
Proof.
  intros Hc. pose proof (byte_val_range x0). pose proof (byte_val_range x1).
  cbn [reg_run fold_left]. unfold crc_itu_t_byte.
  assert (Hsh : forall x, 0 <= x < 256 -> 0 <= Z.shiftl x 8 < 2 ^ 16).
  { intros x Hx'. rewrite Z.shiftl_mul_pow2 by lia. lia. }
  assert (Hs0 := Hsh _ (byte_val_range x0)). assert (Hs1 := Hsh _ (byte_val_range x1)).
  rewrite (u16_small (Z.lxor c _)) by (by apply lxor16).
  rewrite u16_small by (apply lxor16; [apply itu_bits_range; by apply lxor16|done]).
  assert (Hadd : byte_val x0 * 256 + byte_val x1 = Z.lxor (Z.shiftl (byte_val x0) 8) (byte_val x1)).
  { rewrite Z.shiftl_mul_pow2 by lia. apply Z.add_nocarry_lxor.
    apply Z.bits_inj'. intros n Hn. rewrite Z.land_spec, Z.bits_0.
    destruct (decide (n < 8)).
    - rewrite Z.mul_pow2_bits_low by lia. done.
    - rewrite (Z.bits_above_log2 (byte_val x1)); [by rewrite andb_false_r|lia|].
      destruct (decide (byte_val x1 = 0)) as [->|]; [cbn; lia|].
      apply Z.log2_lt_pow2; [lia|]. apply Z.lt_le_trans with (2 ^ 8); [lia|].
      apply Z.pow_le_mono_r; lia. }
  change 16%nat with (8 + 8)%nat.
  assert (Hsplit : forall a b z, itu_bits (a + b) z = itu_bits b (itu_bits a z)).
  { induction a as [|a IH]; intros b z; cbn; [done|apply IH]. }
  rewrite Hsplit. f_equal.
  rewrite Hadd, <- Z.lxor_assoc.
  rewrite (itu_bits_lxor 8 _ (byte_val x1)) by (try apply lxor16; done || lia).
  f_equal. rewrite (itu_bits_shift 8 (byte_val x1)) by (change (Z.of_nat 8) with 8; lia).
  by rewrite Z.shiftl_mul_pow2.
Qed.

Lemma reg_run_inj_two c x0 x1 y0 y1 :
  0 <= c < 2 ^ 16 -> reg_run c [x0; x1] = reg_run c [y0; y1] -> x0 = y0 /\ x1 = y1.
Proof.
  intros Hc H. rewrite !reg_run_two in H by done.
  pose proof (byte_val_range x0). pose proof (byte_val_range x1).
  pose proof (byte_val_range y0). pose proof (byte_val_range y1).
  apply itu_bits_inj in H; [|apply lxor16; lia..]. apply lxor_cancel_l in H.
  split; apply byte_val_inj; lia.
Qed.

Lemma itu_reg_run_app c l1 l2 : reg_run c (l1 ++ l2) = reg_run (reg_run c l1) l2.
Proof. apply fold_left_app. Qed.

(** Two different bytes in place of two: the checksum changes. *)
Lemma crc_itu_t_burst crc pre x0 x1 y0 y1 post :
  0 <= crc < 2 ^ 16 ->
  crc_itu_t crc (pre ++ x0 :: x1 :: post) = crc_itu_t crc (pre ++ y0 :: y1 :: post) ->
  x0 = y0 /\ x1 = y1.
Proof.
  intros Hc. unfold crc_itu_t. rewrite !crc_itu_t_st_reg by (by left || done). cbn [fst].
  change (x0 :: x1 :: post) with ([x0; x1] ++ post). change (y0 :: y1 :: post) with ([y0; y1] ++ post).
  rewrite !itu_reg_run_app. intros H. pose proof (itu_reg_run_range _ pre Hc) as Hp.
  apply itu_reg_run_inj_c in H; [|by apply itu_reg_run_range..].
  by apply reg_run_inj_two in H.
Qed.

End CrcItuT.
