(* ===== verification/Kfifo.v ===== *)
(** * Byte queues (lib/kfifo.c, include/kfifo.h)

    The ring buffer of the RATP console and others: the indices run freely
    through the 32-bit range and are reduced to the size of the buffer, a power of
    two, when they are used.  The buffer refines a bounded queue of bytes. *)

From stdpp Require Import base list.
From Stdlib Require Import ZArith Lia.
From S2P Require Import Prelude.

Module Kfifo.

Record kfifo := Fifo {
  buffer : list byte;
  size : Z;
  in_ : Z;
  out : Z
}.

Definition kfifo_init (buffer : list byte) (size : Z) : kfifo := Fifo buffer size 0 0.

(** [fls_long] and [roundup_pow_of_two] (include/linux/log2.h). *)
Definition fls_long (l : Z) : Z := if l =? 0 then 0 else Z.log2 l + 1.

Definition roundup_pow_of_two (n : Z) : Z := Z.shiftl 1 (fls_long (n - 1)).

(** [malloc] gives the buffer and, in [fifo_ok], tells whether there was memory
    for the structure.  A size above 2^31 that is not a power of two is a
    [BUG_ON], for which there is no result. *)
Definition kfifo_alloc (malloc : Z -> option (list byte)) (fifo_ok : bool) (size : Z)
  : option (option kfifo) :=
  if size <? 2 then Some None
  else
    let bug := negb (Z.land size (size - 1) =? 0) && (0x80000000 <? size) in
    if bug then None
    else
      let size := if negb (Z.land size (size - 1) =? 0) then u32 (roundup_pow_of_two size) else size in
      match malloc size with
      | None => Some None
      | Some buffer => if fifo_ok then Some (Some (kfifo_init buffer size)) else Some None
      end.

Definition kfifo_reset (fifo : kfifo) : kfifo := Fifo (buffer fifo) (size fifo) 0 0.

Definition kfifo_len (fifo : kfifo) : Z := u32 (in_ fifo - out fifo).

Definition kfifo_put (fifo : kfifo) (data : list byte) (len : Z) : Z * kfifo :=
  let len := Z.min len (u32 (size fifo - in_ fifo + out fifo)) in
  let off := Z.land (in_ fifo) (size fifo - 1) in
  let l := Z.min len (u32 (size fifo - off)) in
  let b := write_at (buffer fifo) (Z.to_nat off) (take (Z.to_nat l) data) in
  let b := write_at b 0 (take (Z.to_nat (len - l)) (drop (Z.to_nat l) data)) in
  (len, Fifo b (size fifo) (u32 (in_ fifo + len)) (out fifo)).

(** The number of bytes and the bytes copied. *)
Definition kfifo_get (fifo : kfifo) (len : Z) : Z * list byte * kfifo :=
  let len := Z.min len (u32 (in_ fifo - out fifo)) in
  let off := Z.land (out fifo) (size fifo - 1) in
  let l := Z.min len (u32 (size fifo - off)) in
  let data := read_at (buffer fifo) (Z.to_nat off) (Z.to_nat l) ++
              read_at (buffer fifo) 0 (Z.to_nat (len - l)) in
  (len, data, Fifo (buffer fifo) (size fifo) (in_ fifo) (u32 (out fifo + len))).

Definition kfifo_putc (fifo : kfifo) (c : byte) : kfifo :=
  let b := write_at (buffer fifo) (Z.to_nat (Z.land (in_ fifo) (size fifo - 1))) [c] in
  let i := u32 (in_ fifo + 1) in
  let o := if size fifo <? u32 (i - out fifo) then u32 (out fifo + 1) else out fifo in
  Fifo b (size fifo) i o.

(** [None] is the result [-1]. *)
Definition kfifo_getc (fifo : kfifo) : option byte * kfifo :=
  if in_ fifo =? out fifo then (None, fifo)
  else
    (Some (nth (Z.to_nat (Z.land (out fifo) (size fifo - 1))) (buffer fifo) Init.Byte.x00),
     Fifo (buffer fifo) (size fifo) (in_ fifo) (u32 (out fifo + 1))).

(** ** The queue *)

(** The bytes in the order in which they come out. *)
Definition view (f : kfifo) : list byte :=
  map (fun i => nth (Z.to_nat ((out f + Z.of_nat i) mod size f)) (buffer f) Init.Byte.x00)
    (seq 0 (Z.to_nat (kfifo_len f))).

Record wf (f : kfifo) : Prop := {
  wf_size : exists k, 0 < k < 32 /\ size f = 2 ^ k;
  wf_buffer : Z.of_nat (length (buffer f)) = size f;
  wf_in : 0 <= in_ f < 2 ^ 32;
  wf_out : 0 <= out f < 2 ^ 32;
  wf_len : kfifo_len f <= size f
}.

Lemma wf_bounds f : wf f -> 1 < size f <= 2 ^ 31.
Proof.
  intros [(k & Hk & ->) _ _ _ _]. split; [apply (Z.pow_gt_1 2 k); lia|apply Z.pow_le_mono_r; lia].
Qed.

Lemma land_size f x : wf f -> Z.land x (size f - 1) = x mod size f.
Proof.
  intros [(k & Hk & ->) _ _ _ _]. rewrite <- Z.land_ones by lia. by rewrite Z.ones_equiv, Z.sub_1_r.
Qed.

(** Reducing to 32 bits first makes no difference. *)
Lemma u32_mod f x : wf f -> u32 x mod size f = x mod size f.
Proof.
  intros [(k & Hk & ->) _ _ _ _]. unfold u32. apply Z.mod_mod_divide.
  exists (2 ^ (32 - k)). rewrite <- Z.pow_add_r by lia. f_equal. lia.
Qed.

Lemma mod_size f x : wf f -> 0 <= x mod size f < size f.
Proof. intros H. apply Z.mod_pos_bound. pose proof (wf_bounds f H). lia. Qed.

Lemma kfifo_len_range f : wf f -> 0 <= kfifo_len f <= size f.
Proof. intros H. split; [apply u32_range|apply (wf_len f H)]. Qed.

Lemma length_view f : length (view f) = Z.to_nat (kfifo_len f).
Proof. unfold view. by rewrite length_map, length_seq. Qed.

Lemma view_lookup f i :
  wf f ->
  view f !! i = if decide (Z.of_nat i < kfifo_len f)
                then buffer f !! Z.to_nat ((out f + Z.of_nat i) mod size f) else None.
Proof.
  intros H. unfold view. rewrite list_lookup_fmap. case_decide as Hi.
  - rewrite lookup_seq_lt by lia. cbn. pose proof (mod_size f (out f + Z.of_nat i) H).
    pose proof (wf_buffer f H). destruct (lookup_lt_is_Some_2 (buffer f) (Z.to_nat ((out f + Z.of_nat i) mod size f)) ltac:(lia)) as [b Hb].
    rewrite Hb. f_equal. by apply nth_lookup_Some.
  - by rewrite lookup_seq_ge by lia.
Qed.

(** ** Writing into the ring *)

(** Position [p] lies [(p - in) mod size] bytes behind the input index. *)
Definition ring_write (b : list byte) (sz off : Z) (data : list byte) (n : Z) : list byte :=
  let l := Z.min n (sz - off) in
  write_at (write_at b (Z.to_nat off) (take (Z.to_nat l) data)) 0
    (take (Z.to_nat (n - l)) (drop (Z.to_nat l) data)).

Lemma length_ring_write b sz off data n : length (ring_write b sz off data n) = length b.
Proof. unfold ring_write. by rewrite !length_write_at. Qed.

Lemma ring_distance sz p i :
  0 < sz -> 0 <= p < sz ->
  (p - i) mod sz = if i mod sz <=? p then p - i mod sz else p - i mod sz + sz.
Proof.
  intros Hs Hp. pose proof (Z.mod_pos_bound i sz Hs) as Hi.
  rewrite <- Zminus_mod_idemp_r.
  destruct (Z.leb_spec (i mod sz) p).
  - apply Z.mod_small. lia.
  - symmetry. apply (Z.mod_unique _ _ (-1)); lia.
Qed.

Lemma ring_write_lookup b sz i data n p :
  Z.of_nat (length b) = sz -> 1 < sz -> 0 <= n <= sz -> n <= Z.of_nat (length data) ->
  0 <= p < sz ->
  ring_write b sz (i mod sz) data n !! Z.to_nat p =
  if decide ((p - i) mod sz < n) then data !! Z.to_nat ((p - i) mod sz) else b !! Z.to_nat p.
Proof.
  intros Hb Hsz Hn Hd Hp. rewrite (ring_distance sz p i) by lia.
  pose proof (Z.mod_pos_bound i sz ltac:(lia)) as Ho. set (o := i mod sz) in *. unfold ring_write.
  set (l := Z.min n (sz - o)). assert (Hl : 0 <= l <= n) by lia.
  rewrite lookup_write_at by (rewrite length_write_at, length_take, length_drop; lia).
  rewrite length_take, length_drop.
  rewrite lookup_write_at by (rewrite length_take; lia). rewrite length_take.
  destruct (Z.leb_spec o p) as [Hop|Hop]; repeat case_decide; try lia; try done.
  - rewrite lookup_take_lt by lia. f_equal. lia.
  - rewrite lookup_take_lt, lookup_drop by lia. f_equal. lia.
Qed.

(** ** The operations on the queue *)

(** The input index is as far behind the output index as there are bytes. *)
Lemma in_mod f : wf f -> in_ f mod size f = (out f + kfifo_len f) mod size f.
Proof.
  intros H. unfold kfifo_len. rewrite <- Zplus_mod_idemp_r, (u32_mod f) by done.
  rewrite Zplus_mod_idemp_r. f_equal. lia.
Qed.

Lemma index_distance f x : wf f -> ((out f + x) mod size f - in_ f) mod size f = (x - kfifo_len f) mod size f.
Proof.
  intros H. rewrite <- Zminus_mod_idemp_r, (in_mod f), Zminus_mod_idemp_r, Zminus_mod_idemp_l by done.
  f_equal. lia.
Qed.

Lemma free_space f : wf f -> u32 (size f - in_ f + out f) = size f - kfifo_len f.
Proof.
  intros H. pose proof (wf_bounds f H). pose proof (kfifo_len_range f H) as Hl.
  unfold kfifo_len, u32 in *.
  replace (size f - in_ f + out f) with (size f - (in_ f - out f)) by lia.
  rewrite <- Zminus_mod_idemp_r. apply Z.mod_small. lia.
Qed.

Lemma len_after_put f n :
  wf f -> 0 <= n -> kfifo_len f + n < 2 ^ 32 -> u32 (u32 (in_ f + n) - out f) = kfifo_len f + n.
Proof.
  intros H Hn Hb. pose proof (kfifo_len_range f H). unfold kfifo_len, u32 in *.
  rewrite Zminus_mod_idemp_l. replace (in_ f + n - out f) with (in_ f - out f + n) by lia.
  rewrite <- Zplus_mod_idemp_l. apply Z.mod_small. lia.
Qed.

Lemma len_after_get f n :
  wf f -> 0 <= n <= kfifo_len f -> u32 (in_ f - u32 (out f + n)) = kfifo_len f - n.
Proof.
  intros H Hn. pose proof (u32_range (in_ f - out f)). unfold kfifo_len, u32 in *.
  rewrite Zminus_mod_idemp_r. replace (in_ f - (out f + n)) with (in_ f - out f - n) by lia.
  rewrite <- Zminus_mod_idemp_l. apply Z.mod_small. lia.
Qed.

Lemma off_range f x : wf f -> u32 (size f - x mod size f) = size f - x mod size f.
Proof. intros H. pose proof (wf_bounds f H). pose proof (mod_size f x H). apply u32_small. lia. Qed.

(** What is in the ring after [n] bytes were written. *)
Lemma view_after_write f data n i o :
  wf f -> 0 <= n <= size f -> n <= Z.of_nat (length data) ->
  0 <= i < 2 ^ 32 -> 0 <= o < 2 ^ 32 ->
  let b := ring_write (buffer f) (size f) (in_ f mod size f) data n in
  let f' := Fifo b (size f) i o in
  kfifo_len f' <= size f -> wf f'.
Proof.
  intros H Hn Hd Hi Ho b f' Hl. destruct H as [Hs Hb _ _ _]. constructor; try done.
  unfold f', b. cbn [buffer size]. by rewrite length_ring_write.
Qed.

Lemma put_view f data n :
  wf f -> 0 <= n <= size f - kfifo_len f -> n <= Z.of_nat (length data) ->
  let b := ring_write (buffer f) (size f) (in_ f mod size f) data n in
  let f' := Fifo b (size f) (u32 (in_ f + n)) (out f) in
  wf f' /\ view f' = view f ++ take (Z.to_nat n) data.
Proof.
  intros H Hn Hd b f'. pose proof (wf_bounds f H) as Hb. pose proof (kfifo_len_range f H) as Hl.
  assert (Hlen : kfifo_len f' = kfifo_len f + n) by exact (len_after_put f n H ltac:(lia) ltac:(lia)).
  assert (Hwf : wf f').
  { apply (view_after_write f data n); [done|lia|lia|apply u32_range|apply H|].
    change (kfifo_len f' <= size f). lia. }
  split; [done|]. apply list_eq. intros i. rewrite view_lookup, Hlen by done.
  change (buffer f') with b. change (out f') with (out f). change (size f') with (size f).
  destruct (decide (Z.of_nat i < kfifo_len f)).
  - rewrite decide_True by lia. rewrite lookup_app_l by (rewrite length_view; lia).
    rewrite view_lookup, decide_True by done. unfold b.
    rewrite ring_write_lookup by (apply H || apply mod_size || lia; done).
    rewrite index_distance by done.
    assert (Hm : (Z.of_nat i - kfifo_len f) mod size f = Z.of_nat i - kfifo_len f + size f).
    { symmetry. apply (Z.mod_unique _ _ (-1)); lia. }
    rewrite Hm, decide_False by lia. done.
  - rewrite lookup_app_r by (rewrite length_view; lia). rewrite length_view.
    case_decide.
    + unfold b. rewrite ring_write_lookup by (apply H || apply mod_size || lia; done).
      rewrite index_distance by done. rewrite Z.mod_small by lia. rewrite decide_True by lia.
      rewrite lookup_take_lt by lia. f_equal. lia.
    + by rewrite lookup_take_ge by lia.
Qed.

Lemma kfifo_put_spec f data len :
  wf f -> 0 <= len <= Z.of_nat (length data) ->
  let n := Z.min len (size f - kfifo_len f) in
  exists f', kfifo_put f data len = (n, f') /\ wf f' /\ size f' = size f /\
    view f' = view f ++ take (Z.to_nat n) data.
Proof.
  intros H Hlen n. pose proof (kfifo_len_range f H) as Hl. unfold kfifo_put.
  rewrite free_space, land_size, off_range by done. fold n.
  destruct (put_view f data n H ltac:(lia) ltac:(lia)) as [Hwf Hv].
  eexists. split; [reflexivity|]. split; [exact Hwf|]. split; [done|]. exact Hv.
Qed.

Lemma kfifo_get_spec f len :
  wf f -> 0 <= len ->
  let n := Z.min len (kfifo_len f) in
  exists f', kfifo_get f len = (n, take (Z.to_nat n) (view f), f') /\ wf f' /\ size f' = size f /\
    view f' = drop (Z.to_nat n) (view f).
Proof.
  intros H Hlen n. pose proof (kfifo_len_range f H) as Hl. pose proof (wf_bounds f H) as Hb.
  unfold kfifo_get. fold (kfifo_len f). rewrite land_size, off_range by done. fold n.
  set (f' := Fifo _ _ _ _).
  assert (Hlen' : kfifo_len f' = kfifo_len f - n) by exact (len_after_get f n H ltac:(lia)).
  assert (Hwf : wf f').
  { destruct H as [Hs Hbuf Hin Hout Hle]. constructor; try done; [apply u32_range|rewrite Hlen'; cbn; lia]. }
  exists f'. split; [|split; [done|split; [done|]]].
  - f_equal. f_equal. pose proof (mod_size f (out f) H) as Ho. set (o := out f mod size f) in *.
    set (l := Z.min n (size f - o)). pose proof (wf_buffer f H) as Hbuf.
    apply list_eq. intros i. destruct (decide (Z.of_nat i < n)) as [Hi|Hi].
    + rewrite lookup_take_lt, view_lookup, decide_True by (done || lia).
      rewrite <- Zplus_mod_idemp_l. fold o.
      destruct (decide (Z.of_nat i < l)).
      * rewrite lookup_app_l by (rewrite length_read_at; lia).
        rewrite lookup_read_at, decide_True by lia. f_equal. rewrite Z.mod_small by lia. lia.
      * rewrite lookup_app_r by (rewrite length_read_at; lia). rewrite length_read_at by lia.
        rewrite lookup_read_at, decide_True by lia. f_equal.
        rewrite <- (Z.mod_unique (o + Z.of_nat i) (size f) 1 (o + Z.of_nat i - size f)) by lia. lia.
    + rewrite lookup_take_ge by lia. apply lookup_ge_None_2.
      rewrite length_app, !length_read_at by lia. lia.
  - apply list_eq. intros i. rewrite lookup_drop, !view_lookup, Hlen' by done.
    repeat case_decide; try lia; try done. unfold f'. cbn [buffer out size].
    rewrite <- Zplus_mod_idemp_l, (u32_mod f), Zplus_mod_idemp_l by done. do 2 f_equal. f_equal. lia.
Qed.

(** One byte less. *)
Lemma drop_one f :
  wf f -> 0 < kfifo_len f ->
  let f1 := Fifo (buffer f) (size f) (in_ f) (u32 (out f + 1)) in
  wf f1 /\ view f1 = drop 1 (view f).
Proof.
  intros H Hl f1. destruct (kfifo_get_spec f 1 H ltac:(lia)) as (f' & Eg & Hwf & _ & Hv).
  apply (f_equal snd) in Eg. cbn [snd kfifo_get] in Eg. fold (kfifo_len f) in Eg.
  rewrite Z.min_l in Eg, Hv by lia. fold f1 in Eg. by subst f'.
Qed.

(** A byte more; a full queue loses its oldest byte. *)
Lemma kfifo_putc_spec f c :
  wf f ->
  let q := if kfifo_len f =? size f then drop 1 (view f) else view f in
  wf (kfifo_putc f c) /\ size (kfifo_putc f c) = size f /\ view (kfifo_putc f c) = q ++ [c].
Proof.
  intros H q. pose proof (kfifo_len_range f H) as Hl. pose proof (wf_bounds f H) as Hb.
  pose proof (mod_size f (in_ f) H) as Ho. pose proof (wf_buffer f H) as Hbuf.
  assert (Hone : write_at (buffer f) (Z.to_nat (in_ f mod size f)) [c]
                 = ring_write (buffer f) (size f) (in_ f mod size f) [c] 1).
  { unfold ring_write. rewrite Z.min_l by lia. change (Z.to_nat (1 - 1)) with 0%nat. rewrite take_0.
    rewrite (write_at_inside _ 0) by (cbn; lia). by rewrite take_0, drop_0. }
  unfold kfifo_putc. rewrite land_size, Hone, len_after_put by (done || lia).
  unfold q. destruct (Z.eqb_spec (kfifo_len f) (size f)) as [Hfull|Hfree].
  - rewrite (proj2 (Z.ltb_lt _ _)) by lia.
    destruct (drop_one f H ltac:(lia)) as [Hwf1 Hv1].
    set (f1 := Fifo _ _ _ (u32 (out f + 1))) in *.
    assert (Hl1 : kfifo_len f1 = kfifo_len f - 1) by exact (len_after_get f 1 H ltac:(lia)).
    assert (Hs1 : size f1 = size f) by done.
    destruct (put_view f1 [c] 1 Hwf1 ltac:(lia) ltac:(cbn; lia)) as [Hwf2 Hv2].
    split; [exact Hwf2|]. split; [done|]. etrans; [exact Hv2|]. by rewrite Hv1.
  - rewrite (proj2 (Z.ltb_ge _ _)) by lia.
    destruct (put_view f [c] 1 H ltac:(lia) ltac:(cbn; lia)) as [Hwf2 Hv2].
    split; [exact Hwf2|]. split; [done|]. exact Hv2.
Qed.

Lemma kfifo_getc_spec f :
  wf f ->
  fst (kfifo_getc f) = head (view f) /\ wf (snd (kfifo_getc f)) /\ size (snd (kfifo_getc f)) = size f /\
  view (snd (kfifo_getc f)) = drop 1 (view f).
Proof.
  intros H. pose proof (kfifo_len_range f H) as Hl. unfold kfifo_getc.
  destruct (Z.eqb_spec (in_ f) (out f)) as [Heq|Hne].
  - assert (Hv : view f = []).
    { apply length_zero_iff_nil. rewrite length_view. unfold kfifo_len. rewrite Heq, Z.sub_diag. done. }
    cbn [fst snd]. rewrite Hv. split_and!; try done.
  - assert (Hpos : 0 < kfifo_len f).
    { unfold kfifo_len, u32 in *. pose proof (wf_in f H). pose proof (wf_out f H).
      destruct (decide ((in_ f - out f) mod 2 ^ 32 = 0)) as [Hz|]; [|lia]. exfalso. apply Hne.
      apply Z.mod_divide in Hz as [k Hk]; [|lia]. nia. }
    destruct (drop_one f H Hpos) as [Hwf1 Hv1]. cbn [fst snd]. split_and!; try done.
    rewrite land_size by done. unfold view.
    replace (Z.to_nat (kfifo_len f)) with (S (Z.to_nat (kfifo_len f - 1))) by lia.
    cbn [seq map head Z.of_nat]. by rewrite Z.add_0_r.
Qed.

(** ** Allocation *)

Lemma power_of_two x : 0 < x -> Z.land x (x - 1) = 0 -> x = 2 ^ Z.log2 x.
Proof.
  intros Hx Hl. pose proof (Z.log2_spec x Hx) as [Hlo Hhi]. pose proof (Z.log2_nonneg x) as Hk.
  destruct (decide (x = 2 ^ Z.log2 x)) as [|Hne]; [done|]. exfalso.
  assert (Hbit : Z.testbit (Z.land x (x - 1)) (Z.log2 x) = true); [|by rewrite Hl, Z.bits_0 in Hbit].
  rewrite Z.land_spec, Z.bit_log2 by done. cbn.
  replace (Z.log2 x) with (Z.log2 (x - 1)); [apply Z.bit_log2; lia|].
  apply Z.log2_unique; [done|]. lia.
Qed.

Lemma roundup_pow_of_two_spec n :
  2 <= n <= 2 ^ 31 -> exists k, 0 < k < 32 /\ roundup_pow_of_two n = 2 ^ k /\ n <= 2 ^ k.
Proof.
  intros Hn. unfold roundup_pow_of_two, fls_long. rewrite (proj2 (Z.eqb_neq _ _)) by lia.
  rewrite Z.shiftl_1_l. exists (Z.log2 (n - 1) + 1).
  pose proof (Z.log2_spec (n - 1) ltac:(lia)) as [Hlo Hhi]. rewrite <- Z.add_1_r in Hhi.
  pose proof (Z.log2_nonneg (n - 1)).
  split_and!; [lia| |done|lia].
  assert (Z.log2 (n - 1) < 31) by (apply Z.log2_lt_pow2; lia). lia.
Qed.

Lemma kfifo_init_wf b sz k :
  0 < k < 32 -> sz = 2 ^ k -> Z.of_nat (length b) = sz -> wf (kfifo_init b sz) /\ view (kfifo_init b sz) = [].
Proof.
  intros Hk -> Hb. assert (Hlen : kfifo_len (kfifo_init b (2 ^ k)) = 0) by done. split.
  - constructor; rewrite ?Hlen; cbn [kfifo_init size buffer in_ out]; try lia.
    by exists k.
  - by unfold view; rewrite Hlen.
Qed.

Lemma kfifo_alloc_spec malloc fifo_ok sz f :
  (forall n b, malloc n = Some b -> Z.of_nat (length b) = n) -> sz < 2 ^ 32 ->
  kfifo_alloc malloc fifo_ok sz = Some (Some f) -> wf f /\ view f = [] /\ sz <= size f.
Proof.
  intros Hm Hsz. unfold kfifo_alloc. destruct (Z.ltb_spec sz 2); [done|].
  destruct (Z.eqb_spec (Z.land sz (sz - 1)) 0) as [Hp|Hp]; cbn [negb andb].
  - apply power_of_two in Hp; [|lia].
    destruct (malloc sz) as [b|] eqn:Eb; [|done]. destruct fifo_ok; [|done]. intros [= <-].
    destruct (kfifo_init_wf b sz (Z.log2 sz)) as [? ?]; [|done|by apply Hm|].
    { split; [apply Z.log2_pos; lia|apply Z.log2_lt_pow2; lia]. }
    by split_and!.
  - destruct (Z.ltb_spec 0x80000000 sz); [done|].
    destruct (roundup_pow_of_two_spec sz ltac:(lia)) as (k & Hk & Hr & Hle). rewrite Hr.
    assert (2 ^ k < 2 ^ 32) by (apply Z.pow_lt_mono_r; lia). rewrite u32_small by lia.
    destruct (malloc (2 ^ k)) as [b|] eqn:Eb; [|done]. destruct fifo_ok; [|done]. intros [= <-].
    destruct (kfifo_init_wf b (2 ^ k) k Hk eq_refl (Hm _ _ Eb)) as [? ?]. by split_and!.
Qed.

(** ** The refinement *)

Inductive op :=
| Put (data : list byte) (len : Z)
| Get (len : Z)
| Putc (c : byte)
| Getc
| Len
| Reset.

Inductive outcome :=
| ONum (n : Z)
| OData (n : Z) (data : list byte)
| OByte (c : option byte)
| ODone.

Definition kfifo_op (f : kfifo) (o : op) : outcome * kfifo :=
  match o with
  | Put data len => let '(n, f) := kfifo_put f data len in (ONum n, f)
  | Get len => let '(n, data, f) := kfifo_get f len in (OData n data, f)
  | Putc c => (ODone, kfifo_putc f c)
  | Getc => let '(c, f) := kfifo_getc f in (OByte c, f)
  | Len => (ONum (kfifo_len f), f)
  | Reset => (ODone, kfifo_reset f)
  end.

(** The abstract queue of at most [sz] bytes. *)
Definition queue_op (sz : Z) (q : list byte) (o : op) : outcome * list byte :=
  let room := sz - Z.of_nat (length q) in
  match o with
  | Put data len => let n := Z.min len room in (ONum n, q ++ take (Z.to_nat n) data)
  | Get len =>
      let n := Z.min len (Z.of_nat (length q)) in
      (OData n (take (Z.to_nat n) q), drop (Z.to_nat n) q)
  | Putc c => (ODone, (if room =? 0 then drop 1 q else q) ++ [c])
  | Getc => (OByte (head q), drop 1 q)
  | Len => (ONum (Z.of_nat (length q)), q)
  | Reset => (ODone, [])
  end.

Fixpoint run {S} (exec : S -> op -> outcome * S) (s : S) (ops : list op) : list outcome * S :=
  match ops with
  | [] => ([], s)
  | o :: ops => let '(r, s) := exec s o in let '(rs, s) := run exec s ops in (r :: rs, s)
  end.

(** The caller's buffer holds the bytes it wants to put. *)
Definition op_ok (o : op) : Prop :=
  match o with
  | Put data len => 0 <= len <= Z.of_nat (length data)
  | Get len => 0 <= len
  | _ => True
  end.

Lemma kfifo_op_refines f o :
  wf f -> op_ok o ->
  let '(r, f') := kfifo_op f o in
  queue_op (size f) (view f) o = (r, view f') /\ wf f' /\ size f' = size f.
Proof.
  intros H Ho. pose proof (kfifo_len_range f H) as Hl.
  assert (Hlen : Z.of_nat (length (view f)) = kfifo_len f) by (rewrite length_view; lia).
  destruct o as [data len|len|c| | |]; cbn [kfifo_op queue_op op_ok] in *; rewrite ?Hlen.
  - destruct (kfifo_put_spec f data len H Ho) as (f' & -> & Hwf & Hs & ->). done.
  - destruct (kfifo_get_spec f len H Ho) as (f' & -> & Hwf & Hs & ->). done.
  - destruct (kfifo_putc_spec f c H) as (Hwf & Hs & ->). split_and!; try done. do 2 f_equal.
    destruct (Z.eqb_spec (kfifo_len f) (size f)), (Z.eqb_spec (size f - kfifo_len f) 0); done || lia.
  - destruct (kfifo_getc_spec f H) as (Hc & Hwf & Hs & Hv). destruct (kfifo_getc f) as [c f'].
    cbn [fst snd] in *. by rewrite Hc, Hv.
  - done.
  - destruct H as [(k & Hk & Hs) Hb _ _ _].
    destruct (kfifo_init_wf (buffer f) (size f) k Hk Hs Hb) as [Hwf Hv]. by rewrite <- Hv.
Qed.

(** C23: a queue from [kfifo_alloc] refines a bounded queue of bytes.  For every
    sequence of calls the results are those of the abstract queue of the allocated
    size, which is at least the size asked for: bytes come out in the order they
    went in, [kfifo_put] stores as many as there is room for, [kfifo_putc] drops
    the oldest byte of a full queue, and the indices may wrap around the 32-bit
    range any number of times. *)
Theorem kfifo_refines malloc fifo_ok sz f ops :
  (forall n b, malloc n = Some b -> Z.of_nat (length b) = n) -> sz < 2 ^ 32 ->
  kfifo_alloc malloc fifo_ok sz = Some (Some f) -> Forall op_ok ops ->
  sz <= size f /\
  fst (run kfifo_op f ops) = fst (run (queue_op (size f)) [] ops) /\
  view (snd (run kfifo_op f ops)) = snd (run (queue_op (size f)) [] ops).
Proof.
  intros Hm Hsz Ha Hops. apply kfifo_alloc_spec in Ha as (Hwf & Hv & Hle); [|done|done].
  split; [done|]. rewrite <- Hv. clear Hv Hle Hm Hsz. revert f Hwf.
  induction Hops as [|o ops Ho Hops IH]; intros f Hwf; [done|]. cbn [run].
  pose proof (kfifo_op_refines f o Hwf Ho) as Hstep. destruct (kfifo_op f o) as [r f'].
  destruct Hstep as (-> & Hwf' & Hs). destruct (IH f' Hwf') as [H1 H2]. rewrite Hs in H1, H2.
  destruct (run kfifo_op f' ops) as [rs f'']. destruct (run (queue_op (size f)) (view f') ops) as [rs' q].
  cbn [fst snd] in *. by subst.
Qed.

Definition demo_malloc (n : Z) : option (list byte) :=
  if 0 <=? n then Some (replicate (Z.to_nat n) Init.Byte.x00) else None.

Lemma kfifo_refines_witness :
  exists f, kfifo_alloc demo_malloc true 5 = Some (Some f) /\ size f = 8 /\
    fst (run kfifo_op f [Put (replicate 6 Init.Byte.x61) 6; Get 4; Put (replicate 6 Init.Byte.x62) 6; Getc; Len])
    = [ONum 6; OData 4 (replicate 4 Init.Byte.x61); ONum 6; OByte (Some Init.Byte.x61); ONum 7].
Proof.
  eexists. split; [reflexivity|]. split; [reflexivity|].
  refine (eq_trans (proj1 (proj2 (kfifo_refines demo_malloc true 5 _ _ _ ltac:(lia) eq_refl _))) _);
    [| |reflexivity].
  - intros n b. unfold demo_malloc. destruct (Z.leb_spec 0 n); [|done]. intros [= <-].
    rewrite length_replicate. lia.
  - repeat constructor; cbn; lia.
Defined.

End Kfifo.
