(* ===== verification/Ratp.v ===== *)
(** * The RATP link layer (lib/ratp.c, include/ratp.h)

    The reliable asynchronous transfer protocol of RFC 916 over a serial line:
    the packet format, the receiver that finds packets in the byte stream, the
    state machine with its behaviours A to I1, the send queue with its
    retransmission timer, and the calls the console uses.

    The functions are written in a state monad over the connection
    ([struct ratp_internal]) and the world: the clock and the transmit function
    of the line are parameters, the bytes the line delivers are a list of
    results of the [recv] callback, and what was transmitted and which messages
    were reported complete are recorded.  A line that delivers nothing more stays
    silent until the timeout.  The list is finite: what the functions do while bytes
    keep arriving for ever is outside of the model. *)

From stdpp Require Import base list.
From Stdlib Require Import ZArith Lia.
From S2P Require Import Prelude CrcItuT.

Module Ratp.

(** ** Packets *)

Record ratp_header := Hdr {
  synch : Z;
  control : Z;
  data_length : Z;
  cksum : Z
}.

Definition RATP_CONTROL_SO : Z := 1.
Definition RATP_CONTROL_EOR : Z := 2.
Definition RATP_CONTROL_AN : Z := 4.
Definition RATP_CONTROL_SN : Z := 8.
Definition RATP_CONTROL_RST : Z := 16.
Definition RATP_CONTROL_FIN : Z := 32.
Definition RATP_CONTROL_ACK : Z := 64.
Definition RATP_CONTROL_SYN : Z := 128.

(** [hdr->control & mask] as a condition. *)
Definition has (hdr : ratp_header) (mask : Z) : bool := negb (Z.land (control hdr) mask =? 0).

(** The header in the first four bytes of a packet, and back. *)
Definition hdr_of (pkt : list byte) : ratp_header :=
  let b i := byte_val (nth i pkt Init.Byte.x00) in
  Hdr (b 0%nat) (b 1%nat) (b 2%nat) (b 3%nat).

Definition hdr_bytes (hdr : ratp_header) : list byte :=
  [byte_of (synch hdr); byte_of (control hdr); byte_of (data_length hdr); byte_of (cksum hdr)].

Inductive ratp_state :=
| RATP_STATE_LISTEN
| RATP_STATE_SYN_SENT
| RATP_STATE_SYN_RECEIVED
| RATP_STATE_ESTABLISHED
| RATP_STATE_FIN_WAIT
| RATP_STATE_LAST_ACK
| RATP_STATE_CLOSING
| RATP_STATE_TIME_WAIT
| RATP_STATE_CLOSED.

#[export] Instance ratp_state_eq_dec : EqDecision ratp_state.
Proof. solve_decision. Defined.

Definition ratp_sn (hdr : ratp_header) : Z := if has hdr RATP_CONTROL_SN then 1 else 0.

Definition ratp_an (hdr : ratp_header) : Z := if has hdr RATP_CONTROL_AN then 1 else 0.

Definition ratp_set_sn (sn : Z) : Z := if negb (sn =? 0) then RATP_CONTROL_SN else 0.

Definition ratp_set_an (an : Z) : Z := if negb (an =? 0) then RATP_CONTROL_AN else 0.

Definition ratp_set_next_sn (sn : Z) : Z :=
  if negb ((sn + 1) mod 2 =? 0) then RATP_CONTROL_SN else 0.

Definition ratp_set_next_an (an : Z) : Z :=
  if negb ((an + 1) mod 2 =? 0) then RATP_CONTROL_AN else 0.

Definition ratp_header_ok (h : ratp_header) : bool :=
  u8 (u8 (control h + data_length h) + cksum h) =? 0xff.

Definition ratp_has_data (hdr : ratp_header) : bool :=
  if has hdr RATP_CONTROL_SO then true
  else negb (has hdr (Z.lor (Z.lor RATP_CONTROL_SYN RATP_CONTROL_RST) RATP_CONTROL_FIN)) &&
       negb (data_length hdr =? 0).

Definition ratp_create_packet (control length : Z) : ratp_header :=
  Hdr 1 control length (u8 (Z.lxor (control + length) 0xff)).

(** ** The connection *)

Section Ratp.

(** The caller's completion callbacks with their contexts, and the rest of the
    machine: the clock and the transmit function of the line. *)
Context {C E : Type}.
Context (clock : E -> Z * E) (transmit : E -> list byte -> Z * E).

Record ratp_message := Msg {
  buf : list byte;
  len : Z;
  complete : option C;
  eor : bool
}.

Record ratp_internal := Ri {
  state : ratp_state;
  sn_sent : Z;
  sn_received : Z;
  active : bool;
  recvbuf : list byte;
  sendbuf : list byte;
  sendbuf_len : Z;
  recvmsg : list ratp_message;
  sendmsg : list ratp_message;
  sendmsg_current : option ratp_message;
  timewait_timer_start : Z;
  retransmission_timer_start : Z;
  max_retransmission : Z;
  retransmission_count : Z;
  srtt : Z;
  rto : Z;
  status : Z;
  in_ratp : Z
}.

Record world := World {
  env : E;
  line : list (Z * byte);
  sent : list (list byte);
  completed : list (C * Z)
}.

(** *** Field updates *)

Definition set_state r v := Ri v (sn_sent r) (sn_received r) (active r) (recvbuf r) (sendbuf r) (sendbuf_len r) (recvmsg r) (sendmsg r) (sendmsg_current r) (timewait_timer_start r) (retransmission_timer_start r) (max_retransmission r) (retransmission_count r) (srtt r) (rto r) (status r) (in_ratp r).
Definition set_sn_sent r v := Ri (state r) v (sn_received r) (active r) (recvbuf r) (sendbuf r) (sendbuf_len r) (recvmsg r) (sendmsg r) (sendmsg_current r) (timewait_timer_start r) (retransmission_timer_start r) (max_retransmission r) (retransmission_count r) (srtt r) (rto r) (status r) (in_ratp r).
Definition set_sn_received r v := Ri (state r) (sn_sent r) v (active r) (recvbuf r) (sendbuf r) (sendbuf_len r) (recvmsg r) (sendmsg r) (sendmsg_current r) (timewait_timer_start r) (retransmission_timer_start r) (max_retransmission r) (retransmission_count r) (srtt r) (rto r) (status r) (in_ratp r).
Definition set_recvbuf r v := Ri (state r) (sn_sent r) (sn_received r) (active r) v (sendbuf r) (sendbuf_len r) (recvmsg r) (sendmsg r) (sendmsg_current r) (timewait_timer_start r) (retransmission_timer_start r) (max_retransmission r) (retransmission_count r) (srtt r) (rto r) (status r) (in_ratp r).
Definition set_sendbuf r v := Ri (state r) (sn_sent r) (sn_received r) (active r) (recvbuf r) v (sendbuf_len r) (recvmsg r) (sendmsg r) (sendmsg_current r) (timewait_timer_start r) (retransmission_timer_start r) (max_retransmission r) (retransmission_count r) (srtt r) (rto r) (status r) (in_ratp r).
Definition set_sendbuf_len r v := Ri (state r) (sn_sent r) (sn_received r) (active r) (recvbuf r) (sendbuf r) v (recvmsg r) (sendmsg r) (sendmsg_current r) (timewait_timer_start r) (retransmission_timer_start r) (max_retransmission r) (retransmission_count r) (srtt r) (rto r) (status r) (in_ratp r).
Definition set_recvmsg r v := Ri (state r) (sn_sent r) (sn_received r) (active r) (recvbuf r) (sendbuf r) (sendbuf_len r) v (sendmsg r) (sendmsg_current r) (timewait_timer_start r) (retransmission_timer_start r) (max_retransmission r) (retransmission_count r) (srtt r) (rto r) (status r) (in_ratp r).
Definition set_sendmsg r v := Ri (state r) (sn_sent r) (sn_received r) (active r) (recvbuf r) (sendbuf r) (sendbuf_len r) (recvmsg r) v (sendmsg_current r) (timewait_timer_start r) (retransmission_timer_start r) (max_retransmission r) (retransmission_count r) (srtt r) (rto r) (status r) (in_ratp r).
Definition set_sendmsg_current r v := Ri (state r) (sn_sent r) (sn_received r) (active r) (recvbuf r) (sendbuf r) (sendbuf_len r) (recvmsg r) (sendmsg r) v (timewait_timer_start r) (retransmission_timer_start r) (max_retransmission r) (retransmission_count r) (srtt r) (rto r) (status r) (in_ratp r).
Definition set_timewait_timer_start r v := Ri (state r) (sn_sent r) (sn_received r) (active r) (recvbuf r) (sendbuf r) (sendbuf_len r) (recvmsg r) (sendmsg r) (sendmsg_current r) v (retransmission_timer_start r) (max_retransmission r) (retransmission_count r) (srtt r) (rto r) (status r) (in_ratp r).
Definition set_retransmission_timer_start r v := Ri (state r) (sn_sent r) (sn_received r) (active r) (recvbuf r) (sendbuf r) (sendbuf_len r) (recvmsg r) (sendmsg r) (sendmsg_current r) (timewait_timer_start r) v (max_retransmission r) (retransmission_count r) (srtt r) (rto r) (status r) (in_ratp r).
Definition set_retransmission_count r v := Ri (state r) (sn_sent r) (sn_received r) (active r) (recvbuf r) (sendbuf r) (sendbuf_len r) (recvmsg r) (sendmsg r) (sendmsg_current r) (timewait_timer_start r) (retransmission_timer_start r) (max_retransmission r) v (srtt r) (rto r) (status r) (in_ratp r).
Definition set_rtt r v v' := Ri (state r) (sn_sent r) (sn_received r) (active r) (recvbuf r) (sendbuf r) (sendbuf_len r) (recvmsg r) (sendmsg r) (sendmsg_current r) (timewait_timer_start r) (retransmission_timer_start r) (max_retransmission r) (retransmission_count r) v v' (status r) (in_ratp r).
Definition set_status r v := Ri (state r) (sn_sent r) (sn_received r) (active r) (recvbuf r) (sendbuf r) (sendbuf_len r) (recvmsg r) (sendmsg r) (sendmsg_current r) (timewait_timer_start r) (retransmission_timer_start r) (max_retransmission r) (retransmission_count r) (srtt r) (rto r) v (in_ratp r).
Definition set_in_ratp r v := Ri (state r) (sn_sent r) (sn_received r) (active r) (recvbuf r) (sendbuf r) (sendbuf_len r) (recvmsg r) (sendmsg r) (sendmsg_current r) (timewait_timer_start r) (retransmission_timer_start r) (max_retransmission r) (retransmission_count r) (srtt r) (rto r) (status r) v.

Definition set_env w v := World v (line w) (sent w) (completed w).
Definition set_line w v := World (env w) v (sent w) (completed w).

(** *** The monad *)

Definition M (A : Type) : Type := ratp_internal * world -> A * (ratp_internal * world).

Definition ret {A} (a : A) : M A := fun s => (a, s).

Definition bind {A B} (m : M A) (k : A -> M B) : M B := fun s => let '(a, s) := m s in k a s.

Definition get : M ratp_internal := fun s => (fst s, s).

Definition modify (f : ratp_internal -> ratp_internal) : M unit := fun s => (tt, (f (fst s), snd s)).

Definition get_time_ns : M Z :=
  fun '(r, w) => let '(now, e) := clock (env w) in (now, (r, set_env w e)).

(** [ri->ratp->send]. *)
Definition ratp_xmit (pkt : list byte) : M Z :=
  fun '(r, w) => let '(c, e) := transmit (env w) pkt in
    (c, (r, World e (line w) (sent w ++ [pkt]) (completed w))).

Definition get_line : M (list (Z * byte)) := fun s => (line (snd s), s).

Definition put_line (l : list (Z * byte)) : M unit := fun s => (tt, (fst s, set_line (snd s) l)).

Definition call_complete (c : C) (st : Z) : M unit :=
  fun '(r, w) => (tt, (r, World (env w) (line w) (sent w) (completed w ++ [(c, st)]))).

Local Notation "x <- m ;; k" := (bind m (fun x => k)) (at level 100, m at next level, right associativity).
Local Notation "m ;;; k" := (bind m (fun _ => k)) (at level 100, right associativity).

(** [ret = m; if (ret) return ret;] *)
Local Notation "'try' m ;; k" :=
  (bind m (fun r__ => if r__ =? 0 then k else ret r__)) (at level 100, m at next level, right associativity).

(** ** Time *)

Definition MSECOND : Z := 1000 * 1000.

Definition is_timeout (start offset : Z) : M bool :=
  now <- get_time_ns;; ret (s64 (start + offset - now) <? 0).

(** ** Sending *)

Definition ratp_state_change (st : ratp_state) : M unit := modify (fun r => set_state r st).

Definition RATP_CONTROL_SYN_RST_FIN : Z :=
  Z.lor (Z.lor RATP_CONTROL_SYN RATP_CONTROL_RST) RATP_CONTROL_FIN.

(** Packets that are acknowledged stay in the send buffer. *)
Definition ratp_send_pkt (pkt : list byte) (length : Z) : M Z :=
  let hdr := hdr_of pkt in
  (if ratp_has_data hdr || has hdr RATP_CONTROL_SYN_RST_FIN then
     modify (fun r => set_sendbuf r (write_at (sendbuf r) 0 (take (Z.to_nat length) pkt)));;;
     modify (fun r => set_sn_sent r (ratp_sn hdr));;;
     modify (fun r => set_sendbuf_len r length);;;
     now <- get_time_ns;;
     modify (fun r => set_retransmission_timer_start r now);;;
     modify (fun r => set_retransmission_count r 0)
   else ret tt);;;
  ratp_xmit (take (Z.to_nat length) pkt).

Definition ratp_send_hdr (control : Z) : M Z :=
  ratp_send_pkt (hdr_bytes (ratp_create_packet control 0)) 4.

(** ** Receiving bytes *)

(** The loop of [ratp_recv_char]: one element for each call of [recv]. *)
Fixpoint recv_char_loop (start offset : Z) (l : list (Z * byte)) : M (res byte) :=
  match l with
  | [] => put_line [];;; ret (Err (- EAGAIN))
  | (c, data) :: l =>
      if (c <? 0) && negb (c =? - EAGAIN) then put_line l;;; ret (Err c)
      else if c =? 0 then put_line l;;; ret (Ok data)
      else
        t <- is_timeout start offset;;
        if t : bool then put_line l;;; ret (Err (- EAGAIN)) else recv_char_loop start offset l
  end.

Definition ratp_recv_char (poll_timeout_ms : Z) : M (res byte) :=
  start <- get_time_ns;;
  l <- get_line;;
  recv_char_loop start (u64 (poll_timeout_ms * MSECOND)) l.

(** A received byte goes to its place in the receive buffer. *)
Definition recv_to (off : nat) (poll_timeout_ms : Z) : M Z :=
  c <- ratp_recv_char poll_timeout_ms;;
  match c with
  | Err e => ret e
  | Ok b => modify (fun r => set_recvbuf r (write_at (recvbuf r) off [b]));;; ret 0
  end.

(** Bytes up to the synch leader are skipped; each one shortens the line.  The C loop
    does not look at the timeout of its caller, so it ends because the list of bytes
    that arrive is finite; [ratp_noise_delays] of RatpOpen.v is about long noise. *)
Fixpoint recv_synch (fuel : nat) : M Z :=
  match fuel with
  | O => ret (- EAGAIN)
  | S fuel =>
      c <- recv_to 0 0;;
      if c <? 0 then ret c
      else r <- get;; if synch (hdr_of (recvbuf r)) =? 1 then ret 0 else recv_synch fuel
  end.

Definition ratp_recv_pkt_header (poll_timeout_ms : Z) : M Z :=
  l <- get_line;;
  c <- recv_synch (S (length l));;
  if c <? 0 then ret c
  else
    c <- recv_to 1 poll_timeout_ms;;
    if c <? 0 then ret c
    else
      c <- recv_to 2 poll_timeout_ms;;
      if c <? 0 then ret c
      else
        c <- recv_to 3 poll_timeout_ms;;
        if c <? 0 then ret c
        else
          r <- get;;
          if negb (ratp_header_ok (hdr_of (recvbuf r))) then ret (- EAGAIN) else ret 0.

(** [n] bytes behind each other. *)
Fixpoint recv_bytes (off n : nat) (poll_timeout_ms : Z) : M Z :=
  match n with
  | O => ret 0
  | S n =>
      c <- recv_to off poll_timeout_ms;;
      if c <? 0 then ret c else recv_bytes (S off) n poll_timeout_ms
  end.

Definition ratp_recv_pkt_data (len : Z) (poll_timeout_ms : Z) : M Z :=
  let n := Z.to_nat len in
  c <- recv_bytes 4 (n + 2) poll_timeout_ms;;
  if c <? 0 then ret c
  else
    r <- get;;
    let crc_expect := CrcItuT.crc_itu_t 0 (read_at (recvbuf r) 4 n) in
    let crc_read := be_val (read_at (recvbuf r) (4 + n) 2) in
    if negb (crc_expect =? crc_read) then ret (- EBADMSG) else ret 0.

Definition ratp_recv_pkt (poll_timeout_ms : Z) : M Z :=
  c <- ratp_recv_pkt_header poll_timeout_ms;;
  if c <? 0 then ret c
  else
    r <- get;;
    let hdr := hdr_of (recvbuf r) in
    if has hdr (Z.lor RATP_CONTROL_SO RATP_CONTROL_SYN_RST_FIN) then ret 0
    else if negb (data_length hdr =? 0) then
      try ratp_recv_pkt_data (data_length hdr) poll_timeout_ms;; ret 0
    else ret 0.

(** ** Acknowledging and sending data *)

Definition ratp_an_expected (r : ratp_internal) (hdr : ratp_header) : bool :=
  ratp_an hdr =? (sn_sent r + 1) mod 2.

Definition ratp_sn_expected (r : ratp_internal) (hdr : ratp_header) : bool :=
  ratp_sn hdr =? (sn_received r + 1) mod 2.

Definition ratp_send_ack (hdr : ratp_header) : M Z :=
  try ratp_send_hdr (Z.lor (Z.lor (ratp_set_sn (ratp_an hdr)) (ratp_set_next_an (ratp_sn hdr)))
                       RATP_CONTROL_ACK);;
  ret 0.

(** The packet of a message, built in its buffer, and its length. *)
Definition data_packet (r : ratp_internal) (msg : ratp_message) : list byte * Z :=
  let control := Z.lor (Z.lor (ratp_set_next_sn (sn_sent r)) (ratp_set_next_an (sn_received r)))
                   RATP_CONTROL_ACK in
  let control := if eor msg then Z.lor control RATP_CONTROL_EOR else control in
  let n := Z.to_nat (len msg) in
  if 1 <? len msg then
    let crc := CrcItuT.crc_itu_t 0 (read_at (buf msg) 4 n) in
    let b := write_at (buf msg) (4 + n) (be_bytes 2 crc) in
    (write_at b 0 (hdr_bytes (ratp_create_packet control (len msg))), 4 + (len msg + 2))
  else if len msg =? 1 then
    let data := byte_val (nth 4 (buf msg) Init.Byte.x00) in
    (write_at (buf msg) 0 (hdr_bytes (ratp_create_packet (Z.lor control RATP_CONTROL_SO) data)), 4)
  else (write_at (buf msg) 0 (hdr_bytes (ratp_create_packet control (len msg))), 4).

Definition ratp_send_next_data : M Z :=
  r <- get;;
  match sendmsg_current r with
  | Some _ => ret (- EBUSY)
  | None =>
      match sendmsg r with
      | [] => ret 0
      | msg :: rest =>
          let '(pkt, pktlen) := data_packet r msg in
          modify (fun r => set_sendmsg_current r (Some (Msg pkt (len msg) (complete msg) (eor msg))));;;
          modify (fun r => set_sendmsg r rest);;;
          modify (fun r => set_retransmission_count r 0);;;
          ratp_send_pkt pkt pktlen;;;
          ret 0
      end
  end.

Definition ratp_start_time_wait_timer : M unit :=
  now <- get_time_ns;; modify (fun r => set_timewait_timer_start r now).

(** The smoothed round trip time and the retransmission timeout, in [int]. *)
Definition ratp_msg_done (msg : ratp_message) (st : Z) : M unit :=
  (if st =? 0 then
     now <- get_time_ns;;
     modify (fun r =>
       let rtt := s32 (u64 (now - retransmission_timer_start r) / MSECOND) in
       let srtt' := Z.quot (s32 (8 * srtt r + (10 - 8) * rtt)) 10 in
       set_rtt r srtt' (Z.max 200 (Z.quot (s32 (15 * srtt')) 10)))
   else ret tt);;;
  match complete msg with
  | Some c => call_complete c st
  | None => ret tt
  end.

(** ** Behaviours

    Each gets the packet, which stays in the receive buffer meanwhile.  A result
    other than 0 ends the processing of the packet. *)

Definition ratp_behaviour_a (pkt : list byte) : M unit :=
  let hdr := hdr_of pkt in
  if has hdr RATP_CONTROL_RST then ret tt
  else if has hdr RATP_CONTROL_ACK then
    ratp_send_hdr (if has hdr RATP_CONTROL_AN then Z.lor RATP_CONTROL_RST RATP_CONTROL_SN
                   else RATP_CONTROL_RST);;;
    ret tt
  else if has hdr RATP_CONTROL_SYN then
    let control := Z.lor RATP_CONTROL_SYN RATP_CONTROL_ACK in
    let control := if negb (has hdr RATP_CONTROL_SN) then Z.lor control RATP_CONTROL_AN else control in
    ratp_send_pkt (hdr_bytes (ratp_create_packet control 255)) 4;;;
    ratp_state_change RATP_STATE_SYN_RECEIVED
  else ret tt.

(** Queued data is sent in place of an acknowledgment when possible. *)
Definition send_data_or_ack (hdr : ratp_header) : M unit :=
  r <- get;;
  (if bool_decide (sendmsg r = []) || bool_decide (is_Some (sendmsg_current r))
   then ratp_send_ack hdr else ratp_send_next_data);;;
  ret tt.

Definition ratp_behaviour_b (pkt : list byte) : M unit :=
  let hdr := hdr_of pkt in
  r <- get;;
  if has hdr RATP_CONTROL_ACK && negb (ratp_an_expected r hdr) then
    if negb (has hdr RATP_CONTROL_RST) then
      ratp_send_hdr (Z.lor RATP_CONTROL_RST (ratp_set_sn (ratp_an hdr)));;; ret tt
    else ret tt
  else if has hdr RATP_CONTROL_RST then
    if has hdr RATP_CONTROL_ACK then
      modify (fun r => set_status r (- ECONNREFUSED));;;
      ratp_state_change RATP_STATE_CLOSED
    else ret tt
  else if has hdr RATP_CONTROL_SYN then
    modify (fun r => set_sn_received r (ratp_sn hdr));;;
    if has hdr RATP_CONTROL_ACK then
      ratp_state_change RATP_STATE_ESTABLISHED;;;
      send_data_or_ack hdr
    else
      let control := Z.lor (Z.lor (ratp_set_next_an (ratp_sn hdr)) RATP_CONTROL_SYN)
                       RATP_CONTROL_ACK in
      ratp_send_pkt (hdr_bytes (ratp_create_packet control 255)) 4;;;
      ratp_state_change RATP_STATE_SYN_RECEIVED
  else ret tt.

Definition ratp_behaviour_c1 (pkt : list byte) : M Z :=
  let hdr := hdr_of pkt in
  r <- get;;
  if ratp_sn_expected r hdr then ret 0
  else if negb (has hdr RATP_CONTROL_RST) && negb (has hdr RATP_CONTROL_FIN) then
    try ratp_send_ack hdr;; ret 1
  else ret 1.

Definition ratp_behaviour_c2 (pkt : list byte) : M Z :=
  let hdr := hdr_of pkt in
  r <- get;;
  if ratp_sn_expected r hdr then ret 0
  else if has hdr RATP_CONTROL_RST || has hdr RATP_CONTROL_FIN then ret 1
  else if has hdr RATP_CONTROL_SYN then
    modify (fun r => set_status r (- ECONNRESET));;;
    ratp_send_hdr (Z.lor (Z.lor (Z.lor RATP_CONTROL_RST RATP_CONTROL_ACK)
                            (ratp_set_sn (ratp_an hdr))) (ratp_set_next_an (ratp_sn hdr)));;;
    modify (fun r => set_sendbuf_len r 0);;;
    ratp_state_change RATP_STATE_CLOSED;;;
    ret 1
  else try ratp_send_ack hdr;; ret 1.

Definition ratp_behaviour_d1 (pkt : list byte) : M Z :=
  let hdr := hdr_of pkt in
  if negb (has hdr RATP_CONTROL_RST) then ret 0
  else
    r <- get;;
    if negb (active r) then ratp_state_change RATP_STATE_LISTEN;;; ret 1
    else
      modify (fun r => set_status r (- ECONNREFUSED));;;
      modify (fun r => set_sendbuf_len r 0);;;
      ratp_state_change RATP_STATE_CLOSED;;;
      ret 1.

Definition ratp_behaviour_d2 (pkt : list byte) : M Z :=
  if negb (has (hdr_of pkt) RATP_CONTROL_RST) then ret 0
  else
    modify (fun r => set_status r (- ECONNRESET));;;
    modify (fun r => set_sendbuf_len r 0);;;
    ratp_state_change RATP_STATE_CLOSED;;;
    ret 0.

Definition ratp_behaviour_d3 (pkt : list byte) : M Z :=
  if negb (has (hdr_of pkt) RATP_CONTROL_RST) then ret 0
  else ratp_state_change RATP_STATE_CLOSED;;; ret 1.

Definition ratp_behaviour_e (pkt : list byte) : M Z :=
  let hdr := hdr_of pkt in
  if negb (has hdr RATP_CONTROL_SYN) then ret 0
  else
    modify (fun r => set_status r (- ECONNRESET));;;
    ratp_send_hdr (if has hdr RATP_CONTROL_ACK
                   then Z.lor RATP_CONTROL_RST (ratp_set_sn (ratp_an hdr))
                   else RATP_CONTROL_RST);;;
    modify (fun r => set_sendbuf_len r 0);;;
    ratp_state_change RATP_STATE_CLOSED;;;
    ret 1.

Definition ratp_behaviour_f1 (pkt : list byte) : M Z :=
  let hdr := hdr_of pkt in
  if negb (has hdr RATP_CONTROL_ACK) then ret 1
  else
    r <- get;;
    if ratp_an_expected r hdr then modify (fun r => set_sendbuf_len r 0);;; ret 0
    else
      ratp_send_hdr (Z.lor RATP_CONTROL_RST (ratp_set_sn (ratp_an hdr)));;;
      (if active r then
         ratp_state_change RATP_STATE_CLOSED;;;
         modify (fun r => set_status r (- ECONNREFUSED))
       else ratp_state_change RATP_STATE_LISTEN);;;
      ret 1.

Definition ratp_behaviour_f2 (pkt : list byte) : M Z :=
  let hdr := hdr_of pkt in
  if negb (has hdr RATP_CONTROL_ACK) then ret 1
  else
    r <- get;;
    if ratp_an_expected r hdr then
      match sendmsg_current r with
      | Some msg => ratp_msg_done msg 0
      | None => ret tt
      end;;;
      modify (fun r => set_sendmsg_current r None);;;
      modify (fun r => set_sendbuf_len r 0);;;
      ret 0
    else ret 0.

Definition ratp_behaviour_f3 (pkt : list byte) : M Z :=
  if negb (has (hdr_of pkt) RATP_CONTROL_ACK) then ret 1 else ret 0.

Definition ratp_behaviour_g (pkt : list byte) : M Z :=
  let hdr := hdr_of pkt in
  if has hdr RATP_CONTROL_RST then ret 0
  else
    ratp_send_hdr (if has hdr RATP_CONTROL_ACK
                   then Z.lor RATP_CONTROL_RST (ratp_set_sn (ratp_an hdr))
                   else Z.lor RATP_CONTROL_RST
                          (Z.lor (ratp_set_next_an (ratp_sn hdr)) RATP_CONTROL_ACK));;;
    ret 0.

Definition msg_recv (pkt : list byte) : M unit :=
  let hdr := hdr_of pkt in
  let e := has hdr RATP_CONTROL_EOR in
  let msg := if negb (data_length hdr =? 0)
             then Msg (read_at pkt 4 (Z.to_nat (data_length hdr))) (data_length hdr) None e
             else Msg [byte_of (data_length hdr)] 1 None e in
  modify (fun r => set_recvmsg r (recvmsg r ++ [msg])).

Definition ratp_behaviour_i1 (pkt : list byte) : M Z :=
  let hdr := hdr_of pkt in
  if negb (ratp_has_data hdr) then ret 1
  else
    modify (fun r => set_sn_received r (ratp_sn hdr));;;
    msg_recv pkt;;;
    send_data_or_ack hdr;;;
    ret 0.

Definition ratp_behaviour_h1 (pkt : list byte) : M Z :=
  ratp_state_change RATP_STATE_ESTABLISHED;;; ratp_behaviour_i1 pkt.

Definition ratp_behaviour_h2 (pkt : list byte) : M Z :=
  let hdr := hdr_of pkt in
  if negb (has hdr RATP_CONTROL_FIN) then ret 0
  else
    modify (fun r => set_status r (- ENETDOWN));;;
    ratp_send_hdr (Z.lor (Z.lor (Z.lor (ratp_set_sn (ratp_an hdr)) (ratp_set_next_an (ratp_sn hdr)))
                            RATP_CONTROL_FIN) RATP_CONTROL_ACK);;;
    ratp_state_change RATP_STATE_LAST_ACK;;;
    modify (fun r => set_sn_received r (ratp_sn hdr));;;
    ret 1.

Definition ratp_behaviour_h3 (pkt : list byte) : M Z :=
  let hdr := hdr_of pkt in
  if negb (has hdr RATP_CONTROL_FIN) then ret 1
  else if ratp_has_data hdr then
    ratp_send_hdr (Z.lor (Z.lor (Z.lor (ratp_set_sn (ratp_an hdr)) (ratp_set_next_an (ratp_sn hdr)))
                            RATP_CONTROL_RST) RATP_CONTROL_ACK);;;
    modify (fun r => set_status r (- ECONNRESET));;;
    modify (fun r => set_sendbuf_len r 0);;;
    ratp_state_change RATP_STATE_CLOSED;;;
    ret 1
  else
    r <- get;;
    let expected := ratp_an_expected r hdr in
    ratp_send_hdr (Z.lor (Z.lor (ratp_set_sn (ratp_an hdr)) (ratp_set_next_an (ratp_sn hdr)))
                     RATP_CONTROL_ACK);;;
    (if expected then
       ratp_state_change RATP_STATE_TIME_WAIT;;; ratp_start_time_wait_timer
     else ratp_state_change RATP_STATE_CLOSING);;;
    ret 1.

Definition ratp_behaviour_h4 (pkt : list byte) : M Z :=
  r <- get;;
  if ratp_an_expected r (hdr_of pkt) then
    modify (fun r => set_sendbuf_len r 0);;;
    ratp_state_change RATP_STATE_CLOSED;;;
    ret 1
  else ret 1.

Definition ratp_behaviour_h5 (pkt : list byte) : M Z :=
  r <- get;;
  if ratp_an_expected r (hdr_of pkt) then
    modify (fun r => set_sendbuf_len r 0);;;
    ratp_state_change RATP_STATE_TIME_WAIT;;;
    ratp_start_time_wait_timer;;;
    ret 0
  else ret 0.

Definition ratp_behaviour_h6 (pkt : list byte) : M Z :=
  let hdr := hdr_of pkt in
  if negb (has hdr RATP_CONTROL_ACK) then ret 1
  else if negb (has hdr RATP_CONTROL_FIN) then ret 1
  else
    ratp_send_hdr (Z.lor (ratp_set_next_sn (ratp_an hdr)) RATP_CONTROL_ACK);;;
    ratp_start_time_wait_timer;;;
    ret 0.

(** ** The state machine *)

Definition ratp_state_machine (pkt : list byte) : M Z :=
  r <- get;;
  match state r with
  | RATP_STATE_LISTEN => ratp_behaviour_a pkt;;; ret 0
  | RATP_STATE_SYN_SENT => ratp_behaviour_b pkt;;; ret 0
  | RATP_STATE_SYN_RECEIVED =>
      try ratp_behaviour_c1 pkt;;
      try ratp_behaviour_d1 pkt;;
      try ratp_behaviour_e pkt;;
      try ratp_behaviour_f1 pkt;;
      try ratp_behaviour_h1 pkt;;
      ret 0
  | RATP_STATE_ESTABLISHED =>
      try ratp_behaviour_c2 pkt;;
      try ratp_behaviour_d2 pkt;;
      try ratp_behaviour_e pkt;;
      try ratp_behaviour_f2 pkt;;
      try ratp_behaviour_h2 pkt;;
      try ratp_behaviour_i1 pkt;;
      ret 0
  | RATP_STATE_FIN_WAIT =>
      try ratp_behaviour_c2 pkt;;
      try ratp_behaviour_d2 pkt;;
      try ratp_behaviour_e pkt;;
      try ratp_behaviour_f3 pkt;;
      try ratp_behaviour_h3 pkt;;
      ret 0
  | RATP_STATE_LAST_ACK =>
      try ratp_behaviour_c2 pkt;;
      try ratp_behaviour_d3 pkt;;
      try ratp_behaviour_e pkt;;
      try ratp_behaviour_f3 pkt;;
      try ratp_behaviour_h4 pkt;;
      ret 0
  | RATP_STATE_CLOSING =>
      try ratp_behaviour_c2 pkt;;
      try ratp_behaviour_d3 pkt;;
      try ratp_behaviour_e pkt;;
      try ratp_behaviour_f3 pkt;;
      try ratp_behaviour_h5 pkt;;
      ret 0
  | RATP_STATE_TIME_WAIT =>
      try ratp_behaviour_d3 pkt;;
      try ratp_behaviour_e pkt;;
      try ratp_behaviour_f3 pkt;;
      try ratp_behaviour_h6 pkt;;
      ret 0
  | RATP_STATE_CLOSED => ratp_behaviour_g pkt;;; ret 0
  end.

(** ** Polling *)

(** The part of [ratp_poll] behind the reception of a packet: retransmission
    and the next message. *)
Definition poll_transmit : M Z :=
  r <- get;;
  timed_out <- (if negb (sendbuf_len r =? 0)
                then is_timeout (retransmission_timer_start r) (u64 (rto r * MSECOND))
                else ret false);;
  c <- (if timed_out : bool then
          modify (fun r => set_retransmission_count r (retransmission_count r + 1));;;
          r <- get;;
          if retransmission_count r =? max_retransmission r then
            modify (fun r => set_status r (- ETIMEDOUT));;;
            modify (fun r => set_state r RATP_STATE_CLOSED);;;
            ret (- ETIMEDOUT)
          else
            now <- get_time_ns;;
            modify (fun r => set_retransmission_timer_start r now);;;
            r <- get;;
            ratp_xmit (take (Z.to_nat (sendbuf_len r)) (sendbuf r))
        else ret 0);;
  if negb (c =? 0) then ret c
  else
    r <- get;;
    (if (sendbuf_len r =? 0) && negb (bool_decide (sendmsg r = []))
     then ratp_send_next_data else ret 0);;;
    ret 0.

(** The part for a received packet; a negative result ends the poll. *)
Definition poll_packet : M Z :=
  r <- get;;
  timed_out <- (if bool_decide (state r = RATP_STATE_TIME_WAIT)
                then is_timeout (timewait_timer_start r) (u64 (s32 (srtt r * 2) * MSECOND))
                else ret false);;
  if timed_out : bool then ret (- ECONNRESET)
  else
    c <- ratp_state_machine (recvbuf r);;
    if c <? 0 then ret c
    else r <- get;; if status r <? 0 then ret (status r) else ret 0.

Definition ratp_poll : M Z :=
  modify (fun r => set_in_ratp r (in_ratp r + 1));;;
  c <- ratp_recv_pkt 100;;
  c <- (if c =? 0 then
          c <- poll_packet;; if c <? 0 then ret c else poll_transmit
        else poll_transmit);;
  modify (fun r => set_in_ratp r (in_ratp r - 1));;;
  ret c.

(** ** Opening and closing *)

(** The first loop of [ratp_establish]; [None] when the fuel runs out. *)
Fixpoint establish_loop (fuel : nat) (start timeout_ms : Z) : M (option Z) :=
  match fuel with
  | O => ret None
  | S fuel =>
      c <- ratp_poll;;
      if c <? 0 then ret (Some c)
      else
        r <- get;;
        if bool_decide (state r = RATP_STATE_ESTABLISHED) then ret (Some 0)
        else
          t <- (if negb (timeout_ms =? 0) then is_timeout start (u64 (MSECOND * timeout_ms))
                else ret false);;
          if t : bool then ret (Some (- ETIMEDOUT)) else establish_loop fuel start timeout_ms
  end.

(** The fresh connection; the buffers have arbitrary contents. *)
Definition ratp_internal_new (active : bool) (recvbuf sendbuf : list byte) : ratp_internal :=
  Ri RATP_STATE_LISTEN 0 0 active recvbuf sendbuf 0 [] [] None 0 0 100 0 100 200 0 0.

Definition establish_syn : M unit :=
  r <- get;;
  if active r then
    ratp_send_hdr RATP_CONTROL_SYN;;; ratp_state_change RATP_STATE_SYN_SENT
  else ret tt.

Definition establish (fuel : nat) (timeout_ms : Z) : M (option Z) :=
  modify (fun r => set_in_ratp r (in_ratp r + 1));;;
  establish_syn;;;
  start <- get_time_ns;;
  c <- establish_loop fuel start timeout_ms;;
  modify (fun r => set_in_ratp r (in_ratp r - 1));;;
  ret c.

(** The result, the connection ([ratp->internal]) and the world. *)
Definition ratp_establish (fuel : nat) (active : bool) (timeout_ms : Z) (recvbuf sendbuf : list byte)
    (w : world) : option (Z * option ratp_internal * world) :=
  let '(c, (r, w)) := establish fuel timeout_ms (ratp_internal_new active recvbuf sendbuf, w) in
  match c with
  | None => None
  | Some c => Some (c, if c =? 0 then Some r else None, w)
  end.

Fixpoint close_loop (fuel : nat) (start : Z) : M bool :=
  match fuel with
  | O => ret false
  | S fuel =>
      r <- get;;
      t <- is_timeout start (u64 (srtt r * MSECOND * 2));;
      if t : bool then ret true else ratp_poll;;; close_loop fuel start
  end.

Fixpoint done_all (l : list ratp_message) (st : Z) : M unit :=
  match l with
  | [] => ret tt
  | msg :: l => ratp_msg_done msg st;;; done_all l st
  end.

(** [false] when the fuel runs out; the connection is gone afterwards. *)
Definition ratp_close (fuel : nat) : M bool :=
  r <- get;;
  ok <- (if bool_decide (state r = RATP_STATE_ESTABLISHED) ||
            bool_decide (state r = RATP_STATE_SYN_RECEIVED) then
           ratp_state_change RATP_STATE_FIN_WAIT;;;
           let control := Z.lor (Z.lor (Z.lor (ratp_set_next_sn (sn_sent r))
                                          (ratp_set_next_an (sn_received r)))
                                   RATP_CONTROL_FIN) RATP_CONTROL_ACK in
           ratp_send_pkt (hdr_bytes (ratp_create_packet control 0)) 4;;;
           start <- get_time_ns;;
           close_loop fuel start
         else ret true);;
  r <- get;;
  done_all (sendmsg r) (- ECONNRESET);;;
  ret ok.

(** ** The user's side *)

Definition ratp_closed (internal : option ratp_internal) : bool :=
  match internal with None => true | Some r => bool_decide (state r = RATP_STATE_CLOSED) end.

Definition ratp_busy (internal : option ratp_internal) : bool :=
  match internal with None => false | Some r => negb (in_ratp r =? 0) end.

(** The messages of at most 255 bytes each; the buffer has room for the header
    and the checksum. *)
Fixpoint chunk_loop (fuel : nat) (data : list byte) : list ratp_message :=
  match fuel, data with
  | S fuel, _ :: _ =>
      let now := Z.min (s32 (Z.of_nat (length data))) 255 in
      let n := Z.to_nat now in
      Msg (replicate 4 Init.Byte.x00 ++ take n data ++ replicate 2 Init.Byte.x00) now None false
      :: chunk_loop fuel (drop n data)
  | _, _ => []
  end.

Fixpoint set_last (c : option C) (l : list ratp_message) : list ratp_message :=
  match l with
  | [] => []
  | [m] => [Msg (buf m) (len m) c true]
  | m :: l => m :: set_last c l
  end.

Definition ratp_send_complete (data : list byte) (c : option C) : M Z :=
  r <- get;;
  if negb (bool_decide (state r = RATP_STATE_ESTABLISHED)) then ret (- ENETDOWN)
  else if (length data =? 0)%nat then ret (- EINVAL)
  else
    modify (fun r => set_in_ratp r (in_ratp r + 1));;;
    modify (fun r => set_sendmsg r (sendmsg r ++ set_last c (chunk_loop (length data) data)));;;
    modify (fun r => set_in_ratp r (in_ratp r - 1));;;
    ret 0.

Definition ratp_send (data : list byte) : M Z := ratp_send_complete data None.

(** The length of the first complete message in the queue. *)
Fixpoint recv_len (l : list ratp_message) (n : Z) : option Z :=
  match l with
  | [] => None
  | msg :: l => if eor msg then Some (n + len msg) else recv_len l (n + len msg)
  end.

(** The bytes allocated and the bytes written to them ([malloc] succeeds). *)
Definition ratp_recv : M (res (Z * list byte)) :=
  r <- get;;
  if negb (bool_decide (state r = RATP_STATE_ESTABLISHED)) then ret (Err (- ENETDOWN))
  else
    match recv_len (recvmsg r) 0 with
    | None => ret (Err (- EAGAIN))
    | Some n =>
        let data := concat (map (fun msg => take (Z.to_nat (len msg)) (buf msg)) (recvmsg r)) in
        modify (fun r => set_recvmsg r []);;;
        ret (Ok (n, data))
    end.

(** The link part of [ratp_poller] (common/ratp/ratp.c): the message received,
    if any; [None] when the caller tears the link down. *)
Definition ratp_poller : M (option (res (Z * list byte))) :=
  c <- ratp_poll;;
  if c =? - EINTR then ret None
  else
    r <- get;;
    if ratp_closed (Some r) then ret None
    else m <- ratp_recv;; ret (Some m).

End Ratp.
End Ratp.
