(* ===== verification/RatpLink.v ===== *)
(** * Delivery over a RATP link

    Two ends of an established link whose packets can be lost: what the sender
    hands to [ratp_send_complete] is what the receiver gets from [ratp_recv].
    The proofs follow a packet from the send queue through the bytes on the line
    to the receive queue and its acknowledgment back. *)

From stdpp Require Import base list relations.
From Stdlib Require Import ZArith Lia.
From S2P Require Import Prelude CrcItuT Ratp.

Module RatpLink.
Import Ratp.

(** ** Bytes on the line *)

Lemma write_at_cons l off b bs :
  (off + S (length bs) <= length l)%nat ->
  write_at (write_at l off [b]) (S off) bs = write_at l off (b :: bs).
Proof.
  intros H. apply list_eq. intros i. rewrite !lookup_write_at by (rewrite ?length_write_at; cbn; lia).
  cbn [length]. repeat case_decide; try lia; try done.
  - replace (i - off)%nat with (S (i - S off)) by lia. done.
  - replace (i - off)%nat with 0%nat by lia. done.
Qed.

Lemma write_at_nil l off : (off <= length l)%nat -> write_at l off [] = l.
Proof.
  intros H. rewrite write_at_inside by (cbn; lia). cbn [length app]. by rewrite Nat.add_0_r, take_drop.
Qed.

Lemma write_at_app l off a b :
  (off + length a + length b <= length l)%nat ->
  write_at (write_at l off a) (off + length a) b = write_at l off (a ++ b).
Proof.
  intros H. apply list_eq. intros i.
  rewrite !lookup_write_at by (rewrite ?length_write_at, ?length_app; lia).
  rewrite length_app. repeat case_decide; try lia; try done.
  - rewrite lookup_app_r by lia. f_equal. lia.
  - by rewrite lookup_app_l by lia.
Qed.

Lemma write_at_write_at l off a b :
  length a = length b -> (off + length a <= length l)%nat ->
  write_at (write_at l off a) off b = write_at l off b.
Proof.
  intros Hab H. apply list_eq. intros i.
  rewrite !lookup_write_at by (rewrite ?length_write_at; lia).
  repeat case_decide; try lia; done.
Qed.

Lemma hdr_of_app a l1 l2 :
  length a = 4%nat -> hdr_of (a ++ l1) = hdr_of (a ++ l2).
Proof. intros H. by destruct a as [|? [|? [|? [|? [|]]]]]. Qed.

Lemma hdr_of_write_at l a b :
  length a = 4%nat -> (length a + length b <= length l)%nat -> hdr_of (write_at l 0 (a ++ b)) = hdr_of a.
Proof.
  intros Ha Hl. rewrite write_at_inside by (rewrite length_app; lia).
  rewrite take_0, app_nil_l, <- app_assoc, (hdr_of_app a _ []) by done. by rewrite app_nil_r.
Qed.

(** A header written by [ratp_create_packet] is read back and accepted. *)
Lemma hdr_of_created c l :
  0 <= c < 256 -> 0 <= l < 256 -> hdr_of (hdr_bytes (ratp_create_packet c l)) = ratp_create_packet c l.
Proof.
  intros Hc Hl. unfold hdr_of, hdr_bytes, ratp_create_packet. cbn [nth synch control data_length cksum].
  rewrite !byte_val_of. rewrite (Z.mod_small c), (Z.mod_small l) by lia.
  unfold u8. rewrite Zmod_mod. done.
Qed.

Lemma header_ok_created c l :
  0 <= c < 256 -> 0 <= l < 256 -> ratp_header_ok (ratp_create_packet c l) = true.
Proof.
  intros Hc Hl. unfold ratp_header_ok, ratp_create_packet. cbn [control data_length cksum].
  assert (Hall : forallb (fun n => let x := Z.of_nat n in
    u8 (u8 x + u8 (Z.lxor x 0xff)) =? 0xff) (seq 0 512) = true) by (vm_compute; reflexivity).
  rewrite forallb_forall in Hall. specialize (Hall (Z.to_nat (c + l))).
  rewrite in_seq, Z2Nat.id in Hall by lia. apply Hall. lia.
Qed.

Section Link.

Context {C E : Type}.
Context (clock : E -> Z * E) (transmit : E -> list byte -> Z * E).

Abbreviation ri := (@ratp_internal C).
Abbreviation wd := (@world C E).

(** *** Receiving *)

Lemma recv_to_byte off tmo (r : ri) e b l s c :
  exists e', recv_to clock off tmo (r, World e ((0, b) :: l) s c)
    = (0, (set_recvbuf r (write_at (recvbuf r) off [b]), World e' l s c)).
Proof.
  unfold recv_to, ratp_recv_char, bind, get_time_ns, get_line. cbn [env snd line set_env].
  destruct (clock e) as [now e']. exists e'. reflexivity.
Qed.

Lemma set_recvbuf_twice (r : ri) a b : set_recvbuf (set_recvbuf r a) b = set_recvbuf r b.
Proof. reflexivity. Qed.

Lemma recv_bytes_run bs : forall off tmo (r : ri) e l s c,
  (off + length bs <= length (recvbuf r))%nat ->
  exists e', recv_bytes clock off (length bs) tmo (r, World e (map (pair 0) bs ++ l) s c)
    = (0, (set_recvbuf r (write_at (recvbuf r) off bs), World e' l s c)).
Proof.
  induction bs as [|b bs IH]; intros off tmo r e l s c Hl; cbn [length map app recv_bytes].
  - exists e. rewrite write_at_nil by (cbn in Hl; lia). by destruct r.
  - unfold bind at 1. destruct (recv_to_byte off tmo r e b (map (pair 0) bs ++ l) s c) as [e1 ->].
    cbn [Z.ltb Z.compare].
    destruct (IH (S off) tmo (set_recvbuf r (write_at (recvbuf r) off [b])) e1 l s c) as [e2 E2].
    { cbn [recvbuf set_recvbuf]. rewrite length_write_at. cbn in Hl. lia. }
    exists e2. rewrite E2. cbn [recvbuf set_recvbuf]. rewrite set_recvbuf_twice, write_at_cons; [done|].
    cbn in Hl. lia.
Qed.

(** Bytes in front of the synch leader are skipped. *)
Lemma recv_synch_run junk : forall fuel (r : ri) e l s c,
  Forall (fun b => b <> Init.Byte.x01) junk -> (length junk < fuel)%nat -> (1 <= length (recvbuf r))%nat ->
  exists e', recv_synch clock fuel (r, World e (map (pair 0) (junk ++ [Init.Byte.x01]) ++ l) s c)
    = (0, (set_recvbuf r (write_at (recvbuf r) 0 [Init.Byte.x01]), World e' l s c)).
Proof.
  induction junk as [|b junk IH]; intros fuel r e l s c Hj Hf Hr;
    (destruct fuel as [|fuel]; [cbn in Hf; lia|]); cbn [recv_synch map app]; unfold bind at 1.
  - destruct (recv_to_byte 0 0 r e Init.Byte.x01 l s c) as [e1 ->]. exists e1.
    cbn [Z.ltb Z.compare]. unfold bind, get. cbn [fst set_recvbuf recvbuf].
    destruct (recvbuf r) as [|b0 rb]; [cbn in Hr; lia|]. reflexivity.
  - destruct (recv_to_byte 0 0 r e b (map (pair 0) (junk ++ [Init.Byte.x01]) ++ l) s c) as [e1 ->].
    cbn [Z.ltb Z.compare]. unfold bind, get. cbn [fst set_recvbuf recvbuf].
    apply Forall_cons in Hj as [Hb Hj].
    destruct (recvbuf r) as [|b0 rb] eqn:Erb; [cbn in Hr; lia|].
    replace (synch (hdr_of (write_at (b0 :: rb) 0 [b])) =? 1) with false.
    2:{ symmetry. apply Z.eqb_neq. change (byte_val b <> byte_val Init.Byte.x01).
        intros Heq. by apply byte_val_inj in Heq. }
    destruct (IH fuel (set_recvbuf r (write_at (b0 :: rb) 0 [b])) e1 l s c Hj) as [e2 E2].
    { cbn in Hf. lia. }
    { cbn [set_recvbuf recvbuf]. rewrite length_write_at. done. }
    exists e2. unfold set_recvbuf in E2 |- *. cbn [recvbuf] in E2. rewrite E2.
    rewrite write_at_write_at by (cbn; lia). done.
Qed.

(** A packet as it is sent: a control byte, the data and their checksum. *)
Definition packet (c : Z) (d : list byte) : list byte :=
  hdr_bytes (ratp_create_packet c (Z.of_nat (length d))) ++
  (if bool_decide (d = []) then [] else d ++ be_bytes 2 (CrcItuT.crc_itu_t 0 d)).

Lemma length_packet c d :
  length (packet c d) = if bool_decide (d = []) then 4%nat else (4 + length d + 2)%nat.
Proof.
  unfold packet. rewrite length_app. case_bool_decide; [done|].
  rewrite length_app, length_be_bytes. cbn [hdr_bytes length]. lia.
Qed.

Lemma packet_short c d : (length d <= 255)%nat -> (4 <= length (packet c d) <= 261)%nat.
Proof. intros H. rewrite length_packet. case_bool_decide; lia. Qed.

(** No data follows in the flags of a packet. *)
Definition data_ctl (c : Z) : Prop :=
  0 <= c < 256 /\ Z.land c (Z.lor RATP_CONTROL_SO RATP_CONTROL_SYN_RST_FIN) = 0.

Lemma hdr_of_packet c d rb :
  0 <= c < 256 -> (length d <= 255)%nat -> (length (packet c d) <= length rb)%nat ->
  hdr_of (write_at rb 0 (packet c d)) = ratp_create_packet c (Z.of_nat (length d)).
Proof.
  intros Hc Hd Hl. unfold packet in *. rewrite hdr_of_write_at.
  - apply hdr_of_created; lia.
  - reflexivity.
  - by rewrite length_app in Hl.
Qed.

Lemma read_packet_data c d rb :
  d <> [] -> (length (packet c d) <= length rb)%nat ->
  read_at (write_at rb 0 (packet c d)) 4 (length d) = d /\
  read_at (write_at rb 0 (packet c d)) (4 + length d) 2 = be_bytes 2 (CrcItuT.crc_itu_t 0 d).
Proof.
  intros Hd Hl. rewrite write_at_inside by lia. rewrite take_0, app_nil_l.
  unfold packet. rewrite bool_decide_eq_false_2 by done. rewrite <- !app_assoc.
  set (h := hdr_bytes _). split.
  - change 4%nat with (length h). rewrite read_at_app_r. by rewrite take_app_length.
  - rewrite app_assoc. replace (4 + length d)%nat with (length (h ++ d)) by (rewrite length_app; done).
    rewrite read_at_app_r. by rewrite take_app_length' by (by rewrite length_be_bytes).
Qed.

Lemma recv_header_run c n junk tmo (r : ri) e l s k :
  0 <= c < 256 -> 0 <= n < 256 -> Forall (fun b => b <> Init.Byte.x01) junk -> (4 <= length (recvbuf r))%nat ->
  exists e', ratp_recv_pkt_header clock tmo
      (r, World e (map (pair 0) (junk ++ hdr_bytes (ratp_create_packet c n)) ++ l) s k)
    = (0, (set_recvbuf r (write_at (recvbuf r) 0 (hdr_bytes (ratp_create_packet c n))), World e' l s k)).
Proof.
  intros Hc Hn Hj Hr. unfold ratp_recv_pkt_header, bind at 1, get_line. cbn [snd line].
  set (h := ratp_create_packet c n).
  set (rest := map (pair 0) [byte_of (control h); byte_of (data_length h); byte_of (cksum h)] ++ l).
  replace (map (pair 0) (junk ++ hdr_bytes h) ++ l) with (map (pair 0) (junk ++ [Init.Byte.x01]) ++ rest).
  2:{ unfold rest. rewrite app_assoc, <- map_app, <- app_assoc. reflexivity. }
  unfold bind at 1.
  destruct (recv_synch_run junk (S (length (map (pair 0) (junk ++ [Init.Byte.x01]) ++ rest))) r e rest s k Hj)
    as [e1 ->].
  { rewrite length_app, length_map, length_app. lia. }
  { lia. }
  cbn [Z.ltb Z.compare]. unfold rest. cbn [map app]. unfold bind at 1.
  destruct (recv_to_byte 1 tmo (set_recvbuf r (write_at (recvbuf r) 0 [Init.Byte.x01])) e1
    (byte_of (control h)) (map (pair 0) [byte_of (data_length h); byte_of (cksum h)] ++ l) s k) as [e2 E2].
  cbn [map app] in E2. rewrite E2. cbn [Z.ltb Z.compare recvbuf set_recvbuf]. unfold bind at 1.
  rewrite set_recvbuf_twice, write_at_cons by (cbn; lia).
  destruct (recv_to_byte 2 tmo (set_recvbuf r (write_at (recvbuf r) 0 [Init.Byte.x01; byte_of (control h)])) e2
    (byte_of (data_length h)) (map (pair 0) [byte_of (cksum h)] ++ l) s k) as [e3 E3].
  cbn [map app] in E3. rewrite E3. cbn [Z.ltb Z.compare recvbuf set_recvbuf]. unfold bind at 1.
  rewrite set_recvbuf_twice.
  rewrite (write_at_app _ 0 [_; _] [_]) by (cbn; lia). cbn [app].
  destruct (recv_to_byte 3 tmo (set_recvbuf r (write_at (recvbuf r) 0
    [Init.Byte.x01; byte_of (control h); byte_of (data_length h)])) e3
    (byte_of (cksum h)) l s k) as [e4 E4].
  rewrite E4. cbn [Z.ltb Z.compare recvbuf set_recvbuf]. unfold bind, get. cbn [fst].
  rewrite set_recvbuf_twice, (write_at_app _ 0 [_; _; _] [_]) by (cbn; lia). cbn [app recvbuf set_recvbuf].
  exists e4.
  replace (hdr_of _) with h.
  - unfold h. rewrite header_ok_created by done. reflexivity.
  - symmetry. change [Init.Byte.x01; byte_of (control h); byte_of (data_length h); byte_of (cksum h)]
      with (hdr_bytes h). rewrite <- (app_nil_r (hdr_bytes h)), hdr_of_write_at by (cbn; lia).
    unfold h. by apply hdr_of_created.
Qed.

(** The header is read; what follows depends on the flags and the length. *)
Lemma recv_pkt_header_run c n junk tmo (r : ri) e l s k :
  data_ctl c -> 0 <= n < 256 -> Forall (fun b => b <> Init.Byte.x01) junk -> length (recvbuf r) = 512%nat ->
  let h := hdr_bytes (ratp_create_packet c n) in
  exists e', ratp_recv_pkt clock tmo (r, World e (map (pair 0) (junk ++ h) ++ l) s k)
    = (if n =? 0 then ret 0 else ratp_recv_pkt_data clock n tmo)
        (set_recvbuf r (write_at (recvbuf r) 0 h), World e' l s k).
Proof.
  intros [Hc Hctl] Hn Hj Hr h. unfold ratp_recv_pkt, bind at 1.
  destruct (recv_header_run c n junk tmo r e l s k Hc Hn Hj ltac:(lia)) as [e1 E1].
  fold h in E1. rewrite E1.
  cbn [Z.ltb Z.compare]. unfold bind at 1, get. cbn [fst recvbuf set_recvbuf].
  replace (hdr_of (write_at (recvbuf r) 0 h)) with (ratp_create_packet c n).
  2:{ symmetry. rewrite <- (app_nil_r h), hdr_of_write_at by (cbn; lia). by apply hdr_of_created. }
  unfold has at 1. cbn [control ratp_create_packet]. rewrite Hctl. cbn [negb Z.eqb].
  change (data_length (ratp_create_packet c n)) with n.
  exists e1. destruct (n =? 0); [done|]. cbn [negb]. unfold bind.
  destruct (ratp_recv_pkt_data _ _ _ _) as [v st]. destruct (Z.eqb_spec v 0) as [->|]; done.
Qed.

(** Data followed by two bytes of checksum. *)
Lemma recv_pkt_raw c d t junk tmo (r : ri) e s k :
  data_ctl c -> (0 < length d <= 255)%nat -> length t = 2%nat ->
  Forall (fun b => b <> Init.Byte.x01) junk -> length (recvbuf r) = 512%nat ->
  let pk := hdr_bytes (ratp_create_packet c (Z.of_nat (length d))) ++ d ++ t in
  exists e', ratp_recv_pkt clock tmo (r, World e (map (pair 0) (junk ++ pk)) s k)
    = (if CrcItuT.crc_itu_t 0 d =? be_val t then 0 else - EBADMSG,
       (set_recvbuf r (write_at (recvbuf r) 0 pk), World e' [] s k)).
Proof.
  intros Hc Hd Ht Hj Hr pk. unfold pk. rewrite app_assoc, map_app.
  destruct (recv_pkt_header_run c (Z.of_nat (length d)) junk tmo r e (map (pair 0) (d ++ t)) s k
    Hc ltac:(lia) Hj Hr) as [e1 ->].
  set (h := hdr_bytes (ratp_create_packet c (Z.of_nat (length d)))).
  rewrite (proj2 (Z.eqb_neq (Z.of_nat (length d)) 0)) by lia.
  unfold ratp_recv_pkt_data, bind at 1. rewrite Nat2Z.id.
  replace (length d + 2)%nat with (length (d ++ t)) by (by rewrite length_app, Ht).
  destruct (recv_bytes_run (d ++ t) 4 tmo (set_recvbuf r (write_at (recvbuf r) 0 h)) e1 [] s k) as [e2 E2].
  { cbn [recvbuf set_recvbuf]. rewrite length_write_at, length_app, Ht. lia. }
  rewrite app_nil_r in E2. rewrite E2. cbn [Z.ltb Z.compare recvbuf set_recvbuf].
  rewrite set_recvbuf_twice, (write_at_app _ 0 h) by (rewrite length_app, Ht; cbn; lia).
  unfold bind, get. cbn [fst recvbuf set_recvbuf].
  assert (Hin : write_at (recvbuf r) 0 (h ++ d ++ t) = h ++ d ++ t ++ drop (4 + length d + 2) (recvbuf r)).
  { rewrite write_at_inside by (rewrite !length_app, Ht; cbn; lia). rewrite take_0, app_nil_l.
    rewrite <- !app_assoc. do 4 f_equal. rewrite !length_app, Ht. cbn. lia. }
  replace (read_at (write_at (recvbuf r) 0 (h ++ d ++ t)) 4 (length d)) with d.
  2:{ rewrite Hin. change 4%nat with (length h). rewrite read_at_app_r. by rewrite take_app_length. }
  replace (read_at (write_at (recvbuf r) 0 (h ++ d ++ t)) (4 + length d) 2) with t.
  2:{ rewrite Hin, app_assoc. replace (4 + length d)%nat with (length (h ++ d)) by (by rewrite length_app).
      rewrite read_at_app_r. by rewrite take_app_length' by done. }
  exists e2. by destruct (_ =? _).
Qed.

(** The whole packet arrives in the receive buffer. *)
Lemma recv_pkt_run c d junk tmo (r : ri) e s k :
  data_ctl c -> (length d <= 255)%nat -> Forall (fun b => b <> Init.Byte.x01) junk ->
  length (recvbuf r) = 512%nat ->
  exists e', ratp_recv_pkt clock tmo (r, World e (map (pair 0) (junk ++ packet c d)) s k)
    = (0, (set_recvbuf r (write_at (recvbuf r) 0 (packet c d)), World e' [] s k)).
Proof.
  intros Hc Hd Hj Hr. unfold packet. case_bool_decide as Hnil.
  - subst d. rewrite app_nil_r. change (Z.of_nat (length (@nil byte))) with 0.
    destruct (recv_pkt_header_run c 0 junk tmo r e [] s k Hc ltac:(lia) Hj Hr) as [e1 E1].
    rewrite app_nil_r in E1. exists e1. rewrite E1. reflexivity.
  - destruct (recv_pkt_raw c d (be_bytes 2 (CrcItuT.crc_itu_t 0 d)) junk tmo r e s k Hc) as [e1 E1];
      [by destruct d; cbn in *; [|lia]|apply length_be_bytes|done|done|].
    exists e1. rewrite E1. rewrite be_val_bytes. change (2 ^ (8 * Z.of_nat 2)) with (2 ^ 16).
    rewrite Z.mod_small by (apply CrcItuT.crc_itu_t_range; lia). by rewrite Z.eqb_refl.
Qed.

(** *** Acknowledgments *)

(** Numbers are one bit. *)
Definition bz (b : bool) : Z := if b then 1 else 0.

Lemma next_bz b : (bz b + 1) mod 2 = bz (negb b).
Proof. by destruct b. Qed.

Lemma bz_eqb a b : (bz a =? bz b) = eqb a b.
Proof. by destruct a, b. Qed.

(** The control byte of a packet in an established connection. *)
Definition ctl (sn an : bool) (e : bool) : Z :=
  let c := Z.lor (Z.lor (if sn then RATP_CONTROL_SN else 0) (if an then RATP_CONTROL_AN else 0))
             RATP_CONTROL_ACK in
  if e then Z.lor c RATP_CONTROL_EOR else c.

Lemma ctl_ok sn an e : data_ctl (ctl sn an e).
Proof. split; destruct sn, an, e; vm_compute; done. Qed.

(** The flags the state machine looks at. *)
Definition plain (h : ratp_header) (sn an : bool) : Prop :=
  has h RATP_CONTROL_RST = false /\ has h RATP_CONTROL_SYN = false /\
  has h RATP_CONTROL_FIN = false /\ has h RATP_CONTROL_ACK = true /\
  ratp_sn h = bz sn /\ ratp_an h = bz an.

Lemma plain_ctl sn an e n : plain (ratp_create_packet (ctl sn an e) n) sn an.
Proof. unfold plain. destruct sn, an, e; vm_compute; done. Qed.

Lemma eor_ctl sn an e n : has (ratp_create_packet (ctl sn an e) n) RATP_CONTROL_EOR = e.
Proof. by destruct sn, an, e. Qed.

Lemma has_data_ctl sn an e n :
  ratp_has_data (ratp_create_packet (ctl sn an e) n) = negb (n =? 0).
Proof. by destruct sn, an, e. Qed.

(** A packet without data is transmitted and forgotten. *)
Lemma send_ack_run h sn an (r : ri) e l s k :
  plain h sn an ->
  exists v e', ratp_send_ack clock transmit h (r, World e l s k)
    = (v, (r, World e' l (s ++ [packet (ctl an (negb sn) false) []]) k)).
Proof.
  intros (_ & _ & _ & _ & Hsn & Han). unfold ratp_send_ack, bind, ratp_send_hdr. rewrite Hsn, Han.
  replace (Z.lor (Z.lor (ratp_set_sn (bz an)) (ratp_set_next_an (bz sn))) RATP_CONTROL_ACK)
    with (ctl an (negb sn) false) by (by destruct sn, an).
  change (hdr_bytes (ratp_create_packet (ctl an (negb sn) false) 0))
    with (packet (ctl an (negb sn) false) []).
  unfold ratp_send_pkt.
  replace (hdr_of (packet (ctl an (negb sn) false) [])) with (ratp_create_packet (ctl an (negb sn) false) 0).
  2:{ symmetry. apply hdr_of_created; [apply ctl_ok|lia]. }
  rewrite has_data_ctl. cbn [Z.eqb negb orb].
  replace (has (ratp_create_packet (ctl an (negb sn) false) 0) RATP_CONTROL_SYN_RST_FIN) with false
    by (by destruct sn, an).
  unfold bind, ret, ratp_xmit. cbn [env].
  destruct (transmit e _) as [v e']. cbn [line sent completed].
  change (take (Z.to_nat 4) (packet (ctl an (negb sn) false) [])) with (packet (ctl an (negb sn) false) []).
  destruct (v =? 0); by eexists _, _.
Qed.

(** *** The state machine in an established connection *)

Ltac sim := cbn [fst snd env line sent completed set_env set_line state sn_sent sn_received active
  recvbuf sendbuf sendbuf_len recvmsg sendmsg sendmsg_current timewait_timer_start
  retransmission_timer_start max_retransmission retransmission_count srtt rto status in_ratp
  set_state set_sn_sent set_sn_received set_recvbuf set_sendbuf set_sendbuf_len set_recvmsg
  set_sendmsg set_sendmsg_current set_timewait_timer_start set_retransmission_timer_start
  set_retransmission_count set_rtt set_status set_in_ratp negb andb orb Z.eqb].

Ltac monad := unfold bind, get, modify, ret; cbn [fst snd].

(** The part up to behaviour F2 for an unexpected number: the packet is
    acknowledged again and dropped. *)
Lemma machine_duplicate pkt sn an (r : ri) e l s k :
  plain (hdr_of pkt) sn an -> state r = RATP_STATE_ESTABLISHED -> sn_received r = bz sn ->
  exists v e', ratp_state_machine clock transmit pkt (r, World e l s k)
    = (v, (r, World e' l (s ++ [packet (ctl an (negb sn) false) []]) k)).
Proof.
  intros Hp Hst Hsn. destruct (send_ack_run (hdr_of pkt) sn an r e l s k Hp) as (v & e' & Eack).
  destruct Hp as (P1 & P2 & P3 & P4 & P5 & P6).
  unfold ratp_state_machine. unfold bind at 1, get. cbn [fst]. rewrite Hst.
  unfold ratp_behaviour_c2, ratp_sn_expected. unfold bind, get. cbn [fst].
  rewrite P5, Hsn, next_bz, bz_eqb, P1, P2, P3. destruct sn; cbn [eqb negb orb];
    cbv beta; rewrite Eack; destruct (v =? 0) eqn:Ev; cbn; rewrite ?Ev; by eexists _, _.
Qed.

(** Behaviours C2 to E let a packet with the expected number pass. *)
Lemma machine_pass pkt sn an (r : ri) w :
  plain (hdr_of pkt) sn an -> state r = RATP_STATE_ESTABLISHED -> sn_received r = bz (negb sn) ->
  ratp_state_machine clock transmit pkt (r, w) =
  (let '(c, st) := ratp_behaviour_f2 clock pkt (r, w) in
   if c =? 0 then
     let '(c, st) := ratp_behaviour_i1 clock transmit pkt st in
     if c =? 0 then (0, st) else (c, st)
   else (c, st)).
Proof.
  intros (P1 & P2 & P3 & P4 & P5 & P6) Hst Hsn.
  unfold ratp_state_machine. unfold bind at 1, get. cbn [fst]. rewrite Hst.
  unfold ratp_behaviour_c2, ratp_sn_expected, ratp_behaviour_d2, ratp_behaviour_e, ratp_behaviour_h2.
  unfold bind, get. cbn [fst].
  rewrite P5, Hsn, next_bz, negb_involutive, Z.eqb_refl, P1, P2, P3. cbn [negb ret Z.eqb].
  destruct (ratp_behaviour_f2 clock pkt (r, w)) as [c st]. destruct (c =? 0); [|done].
  unfold ret at 1. cbn [Z.eqb].
  destruct (ratp_behaviour_i1 clock transmit pkt st) as [c' st']. by destruct (c' =? 0).
Qed.

(** An acknowledgment of the message in flight, or an older one. *)
Lemma machine_ack pkt sn an (r : ri) e l s k :
  plain (hdr_of pkt) sn an -> ratp_has_data (hdr_of pkt) = false ->
  state r = RATP_STATE_ESTABLISHED -> sn_received r = bz (negb sn) ->
  (sn_sent r = bz an ->
   ratp_state_machine clock transmit pkt (r, World e l s k) = (1, (r, World e l s k))) /\
  (sn_sent r = bz (negb an) ->
   exists a b e', ratp_state_machine clock transmit pkt (r, World e l s k)
     = (1, (set_sendbuf_len (set_sendmsg_current (set_rtt r a b) None) 0,
            World e' l s (k ++ match sendmsg_current r with
                               | Some (Msg _ _ (Some c) _) => [(c, 0)] | _ => [] end)))).
Proof.
  intros Hp Hd Hst Hsn. split; intros Hsent; rewrite (machine_pass _ sn an) by done;
    destruct Hp as (P1 & P2 & P3 & P4 & P5 & P6); unfold ratp_behaviour_f2; rewrite P4; cbn [negb];
    unfold bind, get; cbn [fst]; unfold ratp_an_expected; rewrite P6, Hsent, next_bz, bz_eqb.
  - destruct an; cbn; unfold ratp_behaviour_i1; rewrite Hd; reflexivity.
  - rewrite negb_involutive, eqb_reflx.
    destruct (sendmsg_current r) as [[b n [c|] eo]|];
      unfold ratp_msg_done, ratp_behaviour_i1; rewrite ?Hd; monad; unfold get_time_ns; cbn;
      try (destruct (clock e) as [now e']; cbn);
      unfold ratp_behaviour_i1; rewrite ?Hd; cbn; rewrite ?app_nil_r.
    + by eexists _, _, _.
    + by eexists _, _, _.
    + exists (srtt r), (rto r), e. by destruct r.
Qed.

(** New data is queued and acknowledged. *)
Lemma machine_data pkt sn an d eo (r : ri) e l s k :
  plain (hdr_of pkt) sn an -> ratp_has_data (hdr_of pkt) = true -> has (hdr_of pkt) RATP_CONTROL_EOR = eo ->
  data_length (hdr_of pkt) = Z.of_nat (length d) -> d <> [] -> read_at pkt 4 (length d) = d ->
  state r = RATP_STATE_ESTABLISHED -> sn_received r = bz (negb sn) ->
  sendmsg r = [] -> sendmsg_current r = None -> sendbuf_len r = 0 ->
  exists e', ratp_state_machine clock transmit pkt (r, World e l s k)
    = (0, (set_recvmsg (set_sn_received r (bz sn)) (recvmsg r ++ [Msg d (Z.of_nat (length d)) None eo]),
           World e' l (s ++ [packet (ctl an (negb sn) false) []]) k)).
Proof.
  intros Hp Hd Heo Hlen Hne Hread Hst Hsn Hq Hcur Hsb. rewrite (machine_pass _ sn an) by done.
  assert (Hf2 : ratp_behaviour_f2 clock pkt (r, World e l s k) = (0, (r, World e l s k))).
  { destruct Hp as (P1 & P2 & P3 & P4 & P5 & P6). unfold ratp_behaviour_f2. rewrite P4. cbn [negb].
    monad. rewrite Hcur. destruct (ratp_an_expected r (hdr_of pkt)); [|done].
    destruct r; cbn in *; by subst. }
  rewrite Hf2. cbn [Z.eqb]. unfold ratp_behaviour_i1. rewrite Hd. cbn [negb].
  unfold msg_recv, send_data_or_ack. rewrite Hlen, Heo.
  replace (Z.of_nat (length d) =? 0) with false by (symmetry; apply Z.eqb_neq; by destruct d).
  rewrite Nat2Z.id, Hread. cbn [negb]. monad. cbn [sendmsg set_recvmsg set_sn_received]. rewrite Hq.
  rewrite (bool_decide_eq_true_2 ([] = [])) by done. cbn [orb].
  set (r' := set_recvmsg _ _).
  destruct (send_ack_run (hdr_of pkt) sn an r' e l s k Hp) as (v & e' & Eack).
  exists e'. rewrite Eack. cbn [Z.eqb]. unfold r'. cbn [recvmsg set_sn_received].
  destruct Hp as (_ & _ & _ & _ & P5 & _). by rewrite P5.
Qed.

(** *** Polling *)

Lemma poll_packet_run (r r' : ri) w w' v :
  state r = RATP_STATE_ESTABLISHED -> status r' = 0 ->
  ratp_state_machine clock transmit (recvbuf r) (r, w) = (v, (r', w')) ->
  poll_packet clock transmit (r, w) = (if v <? 0 then v else 0, (r', w')).
Proof.
  intros Hst Hs Em. unfold poll_packet, bind at 1, get. cbn [fst].
  rewrite bool_decide_eq_false_2 by (by rewrite Hst). unfold bind, ret. rewrite Em.
  destruct (v <? 0); [done|]. cbn [fst]. by rewrite Hs.
Qed.

(** Nothing to send. *)
Lemma poll_transmit_idle (r : ri) w :
  sendbuf_len r = 0 -> sendmsg r = [] -> poll_transmit clock transmit (r, w) = (0, (r, w)).
Proof.
  intros Hl Hq. unfold poll_transmit. monad. rewrite Hl. cbn [Z.eqb negb fst].
  rewrite Hq, Hl, bool_decide_eq_true_2 by done. done.
Qed.

(** A message is in flight: at most it is transmitted again, or the link is
    given up. *)
Lemma poll_transmit_busy (r : ri) e l s k :
  sendbuf_len r <> 0 ->
  exists v r' e' out, poll_transmit clock transmit (r, World e l s k) = (v, (r', World e' l (s ++ out) k)) /\
    (out = [] \/ out = [take (Z.to_nat (sendbuf_len r)) (sendbuf r)]) /\
    (state r' = RATP_STATE_CLOSED \/
     exists t n, r' = set_retransmission_timer_start (set_retransmission_count r n) t).
Proof.
  intros Hl. unfold poll_transmit. monad. rewrite (proj2 (Z.eqb_neq _ _) Hl). cbn [negb].
  unfold is_timeout, get_time_ns. monad. cbn [env].
  destruct (clock e) as [now e1]. cbn [set_env env line sent completed].
  destruct (_ <? 0).
  - sim. destruct (_ =? max_retransmission r).
    + sim. eexists _, _, _, []. rewrite app_nil_r. split; [reflexivity|]. split; by left.
    + sim. destruct (clock e1) as [now2 e2]. unfold ratp_xmit. sim.
      destruct (transmit e2 _) as [v e3]. destruct (v =? 0); sim;
        rewrite ?(proj2 (Z.eqb_neq _ _) Hl); sim;
        eexists _, _, _, [_]; (split; [reflexivity|]); (split; [by right|]); right; by eexists _, _.
  - sim. rewrite (proj2 (Z.eqb_neq _ _) Hl). sim.
    eexists _, _, _, []. rewrite app_nil_r. split; [reflexivity|]. split; [by left|]. right.
    exists (retransmission_timer_start r), (retransmission_count r). by destruct r.
Qed.

(** A piece of a message: its bytes, whether it is the last one, and the
    callback of the message. *)
Definition piece : Type := list byte * bool * option C.

Definition piece_msg (p : piece) : @ratp_message C :=
  let '(d, eo, c) := p in
  Msg (replicate 4 Init.Byte.x00 ++ d ++ replicate 2 Init.Byte.x00) (Z.of_nat (length d)) c eo.

Definition piece_ok (p : piece) : Prop := let '(d, _, _) := p in (2 <= length d <= 255)%nat.

Definition piece_packet (sn an : bool) (p : piece) : list byte :=
  let '(d, eo, _) := p in packet (ctl sn an eo) d.

Lemma data_packet_run (r : ri) p s x :
  piece_ok p -> sn_sent r = bz s -> sn_received r = bz x ->
  data_packet r (piece_msg p) =
  (piece_packet (negb s) (negb x) p, Z.of_nat (length (piece_packet (negb s) (negb x) p))).
Proof.
  destruct p as [[d eo] c]. cbn [piece_ok piece_packet piece_msg]. intros Hd Hs Hx.
  unfold data_packet. cbn [len buf eor]. rewrite Hs, Hx.
  rewrite (proj2 (Z.ltb_lt 1 _)) by lia. rewrite Nat2Z.id.
  assert (Hread : read_at (replicate 4 Init.Byte.x00 ++ d ++ replicate 2 Init.Byte.x00) 4 (length d) = d).
  { change 4%nat with (length (replicate 4 Init.Byte.x00)) at 2.
    rewrite read_at_app_r. by rewrite take_app_length. }
  rewrite Hread. set (crc := be_bytes 2 (CrcItuT.crc_itu_t 0 d)).
  assert (Hcrc : length crc = 2%nat) by apply length_be_bytes.
  assert (Hdl : d <> []) by (by destruct d; cbn in Hd; [lia|]).
  replace (write_at (replicate 4 Init.Byte.x00 ++ d ++ replicate 2 Init.Byte.x00) (4 + length d) crc)
    with (replicate 4 Init.Byte.x00 ++ d ++ crc).
  2:{ rewrite write_at_inside by (rewrite !length_app, Hcrc; cbn; lia).
      rewrite drop_ge, app_nil_r by (rewrite !length_app, Hcrc; cbn; lia).
      rewrite (app_assoc (replicate 4 _) d (replicate 2 _)), take_app_length' by (by rewrite length_app).
      by rewrite <- app_assoc. }
  replace (if eo then _ else _) with (ctl (negb s) (negb x) eo).
  2:{ unfold ctl, ratp_set_next_sn, ratp_set_next_an. rewrite !next_bz. by destruct s, x, eo. }
  rewrite length_packet, bool_decide_eq_false_2 by done.
  f_equal; [|lia]. unfold packet. rewrite bool_decide_eq_false_2 by done. fold crc.
  rewrite write_at_inside by (rewrite !length_app; cbn; lia). rewrite take_0, app_nil_l.
  f_equal.
Qed.

(** *** What reception leaves alone *)

Definition frame {A} (m : @M C E A) : Prop :=
  forall (r : ri) e l s k, exists v rb e' l',
    m (r, World e l s k) = (v, (set_recvbuf r rb, World e' l' s k)) /\ length rb = length (recvbuf r).

Lemma set_recvbuf_same (r : ri) : set_recvbuf r (recvbuf r) = r.
Proof. by destruct r. Qed.

Lemma frame_ret {A} (a : A) : frame (ret a).
Proof. intros r e l s k. exists a, (recvbuf r), e, l. by rewrite set_recvbuf_same. Qed.

Lemma frame_bind {A B} (m : @M C E A) (f : A -> @M C E B) :
  frame m -> (forall a, frame (f a)) -> frame (bind m f).
Proof.
  intros Hm Hf r e l s k. destruct (Hm r e l s k) as (v & rb & e' & l' & E1 & L1).
  destruct (Hf v (set_recvbuf r rb) e' l' s k) as (v2 & rb2 & e2 & l2 & E2 & L2).
  unfold bind. rewrite E1, E2, set_recvbuf_twice. exists v2, rb2, e2, l2. split; [done|]. by rewrite L2.
Qed.

Lemma frame_get_line : frame get_line.
Proof. intros r e l s k. exists l, (recvbuf r), e, l. by rewrite set_recvbuf_same. Qed.

Lemma frame_put_line l0 : frame (put_line l0).
Proof. intros r e l s k. exists tt, (recvbuf r), e, l0. by rewrite set_recvbuf_same. Qed.

Lemma frame_get {A} (f : ri -> @M C E A) : (forall r, frame (f r)) -> frame (bind get f).
Proof. intros Hf r e l s k. exact (Hf r r e l s k). Qed.

Lemma frame_time : frame (get_time_ns clock).
Proof.
  intros r e l s k. unfold get_time_ns. cbn [env]. destruct (clock e) as [now e'].
  exists now, (recvbuf r), e', l. by rewrite set_recvbuf_same.
Qed.

Lemma frame_write off b : frame (modify (fun r => set_recvbuf r (write_at (recvbuf r) off [b]))).
Proof.
  intros r e l s k. exists tt, (write_at (recvbuf r) off [b]), e, l. by rewrite length_write_at.
Qed.

Ltac frame_tac :=
  repeat first
    [ progress intros | apply frame_ret | apply frame_get | apply frame_put_line | apply frame_get_line
    | apply frame_time | apply frame_write
    | match goal with
      | |- frame (bind _ _) => apply frame_bind
      | |- frame (if ?b then _ else _) => destruct b
      | |- frame (match ?c with Ok _ => _ | Err _ => _ end) => destruct c
      end ].

Lemma frame_recv_char_loop start off l : frame (recv_char_loop clock start off l).
Proof.
  induction l as [|[c b] l IH]; cbn [recv_char_loop]; [frame_tac|].
  unfold is_timeout. frame_tac. apply IH.
Qed.

Lemma frame_recv_to off tmo : frame (recv_to clock off tmo).
Proof. unfold recv_to, ratp_recv_char. frame_tac. apply frame_recv_char_loop. Qed.

Lemma frame_recv_synch fuel : frame (recv_synch clock fuel).
Proof.
  induction fuel as [|fuel IH]; cbn [recv_synch]; frame_tac; [apply frame_recv_to|apply IH].
Qed.

Lemma frame_recv_bytes off n tmo : frame (recv_bytes clock off n tmo).
Proof.
  revert off. induction n as [|n IH]; intros off; cbn [recv_bytes]; frame_tac; [apply frame_recv_to|apply IH].
Qed.

Lemma frame_recv_pkt tmo : frame (ratp_recv_pkt clock tmo).
Proof.
  unfold ratp_recv_pkt, ratp_recv_pkt_header, ratp_recv_pkt_data.
  frame_tac; (apply frame_recv_synch || apply frame_recv_to || apply frame_recv_bytes).
Qed.

(** ** The two ends *)

(** An established connection; [x] is the last number received from the other
    side ([sn_received]) or sent to it. *)
Definition up (r : ri) : Prop :=
  state r = RATP_STATE_ESTABLISHED /\ status r = 0 /\
  length (recvbuf r) = 512%nat /\ length (sendbuf r) = 512%nat.

(** The sender, with the numbers [x] and [s], the message in flight and the
    queue. *)
Definition sender (r : ri) (x s : bool) (cur : option piece) (q : list piece) : Prop :=
  up r /\ sn_sent r = bz s /\ sn_received r = bz x /\ recvmsg r = [] /\ sendmsg r = map piece_msg q /\
  match cur with
  | None => sendmsg_current r = None /\ sendbuf_len r = 0
  | Some p =>
      (exists b n, sendmsg_current r = Some (Msg b n (snd p) (snd (fst p)))) /\
      sendbuf_len r = Z.of_nat (length (piece_packet s (negb x) p)) /\
      take (length (piece_packet s (negb x) p)) (sendbuf r) = piece_packet s (negb x) p
  end.

(** The receiver, with the number [m] of the last message and the queue. *)
Definition receiver (r : ri) (x m : bool) (pend : list piece) : Prop :=
  up r /\ sn_sent r = bz x /\ sn_received r = bz m /\
  recvmsg r = map (fun '(d, eo, _) => Msg d (Z.of_nat (length d)) None eo) pend /\
  sendmsg r = [] /\ sendmsg_current r = None /\ sendbuf_len r = 0.

Definition ackp (x j : bool) : list byte := packet (ctl (negb x) (negb j) false) [].

Lemma sender_recvbuf r x s cur q rb :
  sender r x s cur q -> length rb = 512%nat -> sender (set_recvbuf r rb) x s cur q.
Proof. unfold sender, up. sim. tauto. Qed.

Lemma sender_in_ratp r x s cur q n : sender r x s cur q -> sender (set_in_ratp r n) x s cur q.
Proof. unfold sender, up. sim. tauto. Qed.

Lemma receiver_recvbuf r x m pend rb :
  receiver r x m pend -> length rb = 512%nat -> receiver (set_recvbuf r rb) x m pend.
Proof. unfold receiver, up. sim. tauto. Qed.

Lemma receiver_in_ratp r x m pend n : receiver r x m pend -> receiver (set_in_ratp r n) x m pend.
Proof. unfold receiver, up. sim. tauto. Qed.

Lemma piece_packet_length sn an p : piece_ok p -> (4 <= length (piece_packet sn an p) <= 261)%nat.
Proof. destruct p as [[d eo] c]. cbn [piece_ok piece_packet]. intros H. apply packet_short. lia. Qed.

(** The next message goes out. *)
Lemma poll_transmit_next (r : ri) x s p q e l st k :
  sender r x s None (p :: q) -> piece_ok p ->
  exists r' e', poll_transmit clock transmit (r, World e l st k)
    = (0, (r', World e' l (st ++ [piece_packet (negb s) (negb x) p]) k)) /\
    sender r' x (negb s) (Some p) q.
Proof.
  intros ((U1 & U2 & U3 & U4) & Hs & Hx & Hrm & Hq & Hcur & Hsb) Hp.
  pose proof (piece_packet_length (negb s) (negb x) p Hp) as Hlen.
  pose proof (data_packet_run r p s x Hp Hs Hx) as Hdp.
  assert (Hne : (Z.of_nat (length (fst (fst p))) =? 0) = false).
  { apply Z.eqb_neq. clear - Hp. destruct p as [[d eo] c]. cbn in *. lia. }
  unfold poll_transmit. monad. rewrite Hsb. sim. rewrite Hsb, Hq, bool_decide_eq_false_2 by done. sim.
  unfold ratp_send_next_data. monad. rewrite Hcur, Hq. cbn [map]. rewrite Hdp.
  monad. sim. unfold ratp_send_pkt.
  assert (Hh : hdr_of (piece_packet (negb s) (negb x) p) =
    ratp_create_packet (ctl (negb s) (negb x) (snd (fst p))) (Z.of_nat (length (fst (fst p))))).
  { destruct p as [[d eo] c]. cbn [piece_ok piece_packet fst snd] in Hp |- *. unfold packet.
    rewrite (hdr_of_app _ _ []), app_nil_r by done. apply hdr_of_created; [apply ctl_ok|lia]. }
  rewrite Hh, has_data_ctl.
  rewrite Hne. cbn [negb orb]. rewrite Nat2Z.id, take_ge by lia.
  monad. unfold get_time_ns. sim. destruct (clock e) as [now e1]. sim. unfold ratp_xmit. sim.
  destruct (transmit e1 _) as [v e2]. eexists _, e2. split; [reflexivity|].
  unfold sender, up. sim. rewrite length_write_at. split_and!; try done.
  - destruct (plain_ctl (negb s) (negb x) (snd (fst p)) (Z.of_nat (length (fst (fst p)))))
      as (_ & _ & _ & _ & -> & _). done.
  - destruct p as [[d eo] c]. by eexists _, _.
  - rewrite write_at_inside by (rewrite U4; lia). rewrite take_0, app_nil_l. by rewrite take_app_length.
Qed.

(** What the sender may transmit, and its state afterwards. *)
Inductive sends (x : bool) :
  bool -> option piece -> list piece -> list (list byte) -> bool -> option piece -> list piece -> Prop :=
| sends_nothing s cur q : sends x s cur q [] s cur q
| sends_again s p q : sends x s (Some p) q [piece_packet s (negb x) p] s (Some p) q
| sends_next s p q : sends x s None (p :: q) [piece_packet (negb s) (negb x) p] (negb s) (Some p) q.

Definition pieces_ok (cur : option piece) (q : list piece) : Prop :=
  match cur with Some p => piece_ok p | None => True end /\ Forall piece_ok q.

Lemma sender_transmit (r : ri) x s cur q e l st k :
  sender r x s cur q -> pieces_ok cur q ->
  exists v r' e' out, poll_transmit clock transmit (r, World e l st k) = (v, (r', World e' l (st ++ out) k)) /\
    (state r' = RATP_STATE_CLOSED \/
     exists s' cur' q', sends x s cur q out s' cur' q' /\ sender r' x s' cur' q').
Proof.
  intros Hs [Hc Hq]. destruct cur as [p|].
  - destruct (Hs) as (_ & _ & _ & _ & _ & _ & Hsb & Hbuf).
    pose proof (piece_packet_length s (negb x) p Hc) as Hlen.
    destruct (poll_transmit_busy r e l st k ltac:(rewrite Hsb; lia)) as (v & r' & e' & out & Erun & Hout & Hr').
    exists v, r', e', out. split; [done|]. destruct Hr' as [Hcl|(t & n & ->)]; [by left|right].
    exists s, (Some p), q. split; [|exact Hs].
    destruct Hout as [->| ->]; [constructor|]. rewrite Hsb, Nat2Z.id, Hbuf. constructor.
  - destruct q as [|p q].
    + destruct (Hs) as (_ & _ & _ & _ & Hq0 & _ & Hsb).
      exists 0, r, e, []. rewrite poll_transmit_idle, app_nil_r by done. split; [done|]. right.
      exists s, None, []. split; [constructor|done].
    + apply Forall_cons in Hq as [Hp Hq].
      destruct (poll_transmit_next r x s p q e l st k Hs Hp) as (r' & e' & Erun & Hs').
      exists 0, r', e', [piece_packet (negb s) (negb x) p]. split; [done|]. right.
      exists (negb s), (Some p), q. split; [constructor|done].
Qed.

(** *** The poll of the sender *)

Lemma ratp_poll_split (r : ri) e l v rb e1 l1 :
  ratp_recv_pkt clock 100 (set_in_ratp r (in_ratp r + 1), World e l [] []) =
    (v, (set_recvbuf (set_in_ratp r (in_ratp r + 1)) rb, World e1 l1 [] [])) ->
  ratp_poll clock transmit (r, World e l [] []) =
  let st := (set_recvbuf (set_in_ratp r (in_ratp r + 1)) rb, World e1 l1 [] []) in
  let '(c, (r', w')) :=
    if v =? 0 then
      let '(c, st) := poll_packet clock transmit st in
      if c <? 0 then (c, st) else poll_transmit clock transmit st
    else poll_transmit clock transmit st in
  (c, (set_in_ratp r' (in_ratp r' - 1), w')).
Proof.
  intros Er. unfold ratp_poll. monad. rewrite Er. cbv zeta. destruct (v =? 0).
  - destruct (poll_packet _ _ _) as [c [r' w']]. destruct (c <? 0); [done|].
    by destruct (poll_transmit _ _ _) as [? [? ?]].
  - by destruct (poll_transmit _ _ _) as [? [? ?]].
Qed.

Lemma sender_poll_noise (r : ri) x s cur q e l :
  sender r x s cur q -> pieces_ok cur q ->
  fst (ratp_recv_pkt clock 100 (set_in_ratp r (in_ratp r + 1), World e l [] [])) <> 0 ->
  exists v r' e' l' out, ratp_poll clock transmit (r, World e l [] []) = (v, (r', World e' l' out [])) /\
    (state r' = RATP_STATE_CLOSED \/
     exists s' cur' q', sends x s cur q out s' cur' q' /\ sender r' x s' cur' q').
Proof.
  intros Hs Hok Hfail.
  destruct (frame_recv_pkt 100 (set_in_ratp r (in_ratp r + 1)) e l [] []) as (v & rb & e1 & l1 & E1 & L1).
  rewrite (ratp_poll_split _ _ _ _ _ _ _ E1). rewrite E1 in Hfail. cbn [fst] in Hfail.
  rewrite (proj2 (Z.eqb_neq _ _) Hfail). cbv zeta.
  assert (Hs1 : sender (set_recvbuf (set_in_ratp r (in_ratp r + 1)) rb) x s cur q).
  { apply sender_recvbuf; [by apply sender_in_ratp|]. rewrite L1. apply Hs. }
  destruct (sender_transmit _ x s cur q e1 l1 [] [] Hs1 Hok) as (c & r' & e' & out & -> & Hr').
  eexists _, _, e', l1, out. split; [reflexivity|].
  destruct Hr' as [Hcl|(s' & cur' & q' & Hsend & Hs')]; [by left|right].
  exists s', cur', q'. split; [done|]. by apply sender_in_ratp.
Qed.

Definition callback (cur : option piece) : list (C * Z) :=
  match cur with Some (_, Some c) => [(c, 0)] | _ => [] end.

Lemma ackp_hdr x j rb :
  (4 <= length rb)%nat ->
  hdr_of (write_at rb 0 (ackp x j)) = ratp_create_packet (ctl (negb x) (negb j) false) 0.
Proof.
  intros H. unfold ackp. rewrite hdr_of_packet; [done|apply ctl_ok|cbn; lia|done].
Qed.

Lemma sender_poll_ack (r : ri) x s cur q e junk j :
  sender r x s cur q -> pieces_ok cur q -> Forall (fun b => b <> Init.Byte.x01) junk ->
  exists v r' e' out, ratp_poll clock transmit (r, World e (map (pair 0) (junk ++ ackp x j)) [] [])
      = (v, (r', World e' [] out (if eqb j s then callback cur else []))) /\
    (state r' = RATP_STATE_CLOSED \/
     exists s' cur' q', sends x s (if eqb j s then None else cur) q out s' cur' q' /\ sender r' x s' cur' q').
Proof.
  intros Hs Hok Hj. set (r0 := set_in_ratp r (in_ratp r + 1)).
  assert (Hs0 : sender r0 x s cur q) by (by apply sender_in_ratp).
  destruct (recv_pkt_run (ctl (negb x) (negb j) false) [] junk 100 r0 e [] [] (ctl_ok _ _ _)
    ltac:(cbn; lia) Hj ltac:(apply Hs0)) as [e1 E1].
  fold (ackp x j) in E1. rewrite (ratp_poll_split _ _ _ _ _ _ _ E1). cbn [Z.eqb]. fold r0.
  set (r1 := set_recvbuf r0 (write_at (recvbuf r0) 0 (ackp x j))).
  assert (Hs1 : sender r1 x s cur q).
  { apply sender_recvbuf; [done|]. rewrite length_write_at. apply Hs0. }
  destruct (Hs1) as ((U1 & U2 & U3 & U4) & S1 & S2 & S3 & S4 & S5).
  assert (Hh : hdr_of (recvbuf r1) = ratp_create_packet (ctl (negb x) (negb j) false) 0).
  { unfold r1. sim. apply ackp_hdr. destruct (Hs0) as ((_ & _ & -> & _) & _). lia. }
  destruct (machine_ack (recvbuf r1) (negb x) (negb j) r1 e1 [] [] []) as [Hold Hnew].
  { rewrite Hh. apply plain_ctl. }
  { by rewrite Hh, has_data_ctl. }
  { done. }
  { by rewrite negb_involutive. }
  rewrite negb_involutive in Hnew. cbv zeta.
  destruct (eqb j s) eqn:Ejs.
  - apply eqb_prop in Ejs as ->. destruct (Hnew S1) as (a & b & e2 & Em).
    apply poll_packet_run in Em; [|done|exact U2]. rewrite Em. cbn [Z.ltb Z.compare].
    set (r2 := set_sendbuf_len _ _) in *.
    assert (Hs2 : sender r2 x s None q) by (unfold r2, sender, up; sim; split_and!; done).
    destruct (sender_transmit r2 x s None q e2 [] [] ([] ++ match sendmsg_current r1 with
      | Some (Msg _ _ (Some c) _) => [(c, 0)] | _ => [] end) Hs2) as (c & r' & e' & out & -> & Hr').
    { split; [done|apply Hok]. }
    eexists _, _, e', out. split.
    + cbn [app]. repeat f_equal. unfold callback.
      destruct cur as [[[d eo] cb]|]; [|by destruct S5 as [-> _]].
      destruct S5 as [(b0 & n0 & ->) _]. by destruct cb.
    + destruct Hr' as [Hcl|(s' & cur' & q' & Hsend & Hs')]; [by left|right].
      exists s', cur', q'. split; [done|]. by apply sender_in_ratp.
  - assert (s = negb j) as -> by (by destruct j, s). specialize (Hold S1).
    apply poll_packet_run in Hold; [|done|exact U2]. rewrite Hold. cbn [Z.ltb Z.compare].
    destruct (sender_transmit r1 x (negb j) cur q e1 [] [] [] Hs1 Hok) as (c & r' & e' & out & -> & Hr').
    eexists _, _, e', out. split; [reflexivity|].
    destruct Hr' as [Hcl|(s' & cur' & q' & Hsend & Hs')]; [by left|right].
    exists s', cur', q'. split; [done|]. by apply sender_in_ratp.
Qed.

(** *** The poll of the receiver *)

Lemma receiver_transmit (r : ri) x m pend w :
  receiver r x m pend -> poll_transmit clock transmit (r, w) = (0, (r, w)).
Proof. intros (_ & _ & _ & _ & Hq & _ & Hsb). by apply poll_transmit_idle. Qed.

Lemma receiver_poll_noise (r : ri) x m pend e l :
  receiver r x m pend ->
  fst (ratp_recv_pkt clock 100 (set_in_ratp r (in_ratp r + 1), World e l [] [])) <> 0 ->
  exists v r' e' l', ratp_poll clock transmit (r, World e l [] []) = (v, (r', World e' l' [] [])) /\
    receiver r' x m pend.
Proof.
  intros Hr Hfail.
  destruct (frame_recv_pkt 100 (set_in_ratp r (in_ratp r + 1)) e l [] []) as (v & rb & e1 & l1 & E1 & L1).
  rewrite (ratp_poll_split _ _ _ _ _ _ _ E1). rewrite E1 in Hfail. cbn [fst] in Hfail.
  rewrite (proj2 (Z.eqb_neq _ _) Hfail). cbv zeta.
  assert (Hr1 : receiver (set_recvbuf (set_in_ratp r (in_ratp r + 1)) rb) x m pend).
  { apply receiver_recvbuf; [by apply receiver_in_ratp|]. rewrite L1. apply Hr. }
  rewrite (receiver_transmit _ x m pend) by done.
  eexists _, _, _, _. split; [reflexivity|]. by apply receiver_in_ratp.
Qed.

(** The receiver hears a data packet with the number [sn]. *)
Lemma receiver_poll_data (r : ri) x m pend e junk sn p :
  receiver r x m pend -> piece_ok p -> Forall (fun b => b <> Init.Byte.x01) junk ->
  exists v r' e', ratp_poll clock transmit
      (r, World e (map (pair 0) (junk ++ piece_packet sn (negb x) p)) [] [])
      = (v, (r', World e' [] [ackp x sn] [])) /\
    receiver r' x sn (if eqb sn m then pend else pend ++ [p]).
Proof.
  intros Hr Hp Hj. set (r0 := set_in_ratp r (in_ratp r + 1)).
  assert (Hr0 : receiver r0 x m pend) by (by apply receiver_in_ratp).
  destruct p as [[d eo] cb]. cbn [piece_ok piece_packet] in *.
  pose proof (packet_short (ctl sn (negb x) eo) d ltac:(lia)) as Hlen.
  assert (Hd : d <> []) by (by destruct d; cbn in Hp; [lia|]).
  assert (Hrb0 : length (recvbuf r0) = 512%nat) by apply Hr0.
  destruct (recv_pkt_run (ctl sn (negb x) eo) d junk 100 r0 e [] [] (ctl_ok _ _ _)
    ltac:(lia) Hj Hrb0) as [e1 E1].
  rewrite (ratp_poll_split _ _ _ _ _ _ _ E1). cbn [Z.eqb]. fold r0. cbv zeta.
  set (r1 := set_recvbuf r0 (write_at (recvbuf r0) 0 (packet (ctl sn (negb x) eo) d))).
  assert (Hr1 : receiver r1 x m pend).
  { apply receiver_recvbuf; [done|]. by rewrite length_write_at. }
  destruct (Hr1) as ((U1 & U2 & U3 & U4) & S1 & S2 & S3 & S4 & S5 & S6).
  assert (Hh : hdr_of (recvbuf r1) = ratp_create_packet (ctl sn (negb x) eo) (Z.of_nat (length d))).
  { unfold r1. sim. apply hdr_of_packet; [apply ctl_ok|lia|lia]. }
  assert (Hplain : plain (hdr_of (recvbuf r1)) sn (negb x)) by (rewrite Hh; apply plain_ctl).
  destruct (eqb sn m) eqn:Esn.
  - apply eqb_prop in Esn as ->.
    destruct (machine_duplicate (recvbuf r1) m (negb x) r1 e1 [] [] [] Hplain U1 S2) as (v & e2 & Em).
    apply poll_packet_run in Em; [|done|done]. rewrite Em.
    destruct (v <? 0) eqn:Ev; rewrite ?Ev, ?(receiver_transmit _ x m pend) by done;
      (eexists _, _, _; split; [reflexivity|by apply receiver_in_ratp]).
  - assert (m = negb sn) as -> by (by destruct sn, m).
    destruct (machine_data (recvbuf r1) sn (negb x) d eo r1 e1 [] [] []) as (e2 & Em); try done.
    { rewrite Hh, has_data_ctl. by destruct d. }
    { rewrite Hh. apply eor_ctl. }
    { by rewrite Hh. }
    { unfold r1. sim. by apply read_packet_data; [|lia]. }
    apply poll_packet_run in Em; [|done|exact U2]. rewrite Em. cbn [Z.ltb Z.compare].
    set (r2 := set_recvmsg _ _).
    assert (Hr2 : receiver r2 x sn (pend ++ [(d, eo, cb)])).
    { unfold r2, receiver, up. sim. rewrite S3, map_app. by split_and!. }
    rewrite (receiver_transmit _ _ _ _ _ Hr2).
    eexists _, _, _. split; [reflexivity|]. by apply receiver_in_ratp.
Qed.

(** *** The calls of the users *)

(** The pieces of a message. *)
Fixpoint pieces (fuel : nat) (data : list byte) (c : option C) : list piece :=
  match fuel with
  | O => []
  | S fuel =>
      if (length data <=? 255)%nat then [(data, true, c)]
      else (take 255 data, false, None) :: pieces fuel (drop 255 data) c
  end.

Definition pieces_of (m : list byte * option C) : list piece := pieces (length (fst m)) (fst m) (snd m).

Lemma set_last_cons (c : option C) m l : l <> [] -> set_last c (m :: l) = m :: set_last c l.
Proof. by destruct l. Qed.

Lemma chunks_pieces fuel data c :
  (0 < length data <= fuel)%nat -> Z.of_nat (length data) < 2 ^ 31 ->
  set_last c (chunk_loop fuel data) = map piece_msg (pieces fuel data c).
Proof.
  revert data. induction fuel as [|fuel IH]; intros data Hl H31; [lia|].
  destruct data as [|b data]; [cbn in Hl; lia|]. set (dt := b :: data) in *.
  assert (Hunf : chunk_loop (C := C) (S fuel) dt =
    let now := Z.min (s32 (Z.of_nat (length dt))) 255 in
    Msg (replicate 4 Init.Byte.x00 ++ take (Z.to_nat now) dt ++ replicate 2 Init.Byte.x00) now None false
      :: chunk_loop fuel (drop (Z.to_nat now) dt)) by reflexivity.
  rewrite Hunf. cbv zeta. rewrite s32_small by lia. cbn [pieces].
  destruct (Nat.leb_spec (length dt) 255) as [Hle|Hgt].
  - rewrite Z.min_l by lia. rewrite Nat2Z.id, drop_ge, take_ge by lia. by destruct fuel.
  - rewrite Z.min_r by lia. change (Z.to_nat 255) with 255%nat.
    rewrite set_last_cons.
    + cbn [map piece_msg]. rewrite length_take, Nat.min_l by lia. f_equal.
      apply IH; rewrite length_drop; lia.
    + assert (Hdl : (0 < length (drop 255 dt))%nat) by (rewrite length_drop; lia).
      destruct (drop 255 dt); [cbn in Hdl; lia|]. destruct fuel; [lia|done].
Qed.

Lemma pieces_all_ok fuel data c :
  (0 < length data <= fuel)%nat -> (length data mod 255 <> 1)%nat -> Forall piece_ok (pieces fuel data c).
Proof.
  revert data. induction fuel as [|fuel IH]; intros data Hl Hm; [lia|]. cbn [pieces].
  destruct (Nat.leb_spec (length data) 255) as [Hle|Hgt].
  - constructor; [|constructor]. cbn. destruct (decide (length data = 1%nat)) as [E1|]; [|lia].
    rewrite E1 in Hm. by vm_compute in Hm.
  - constructor; [cbn; rewrite length_take; lia|]. apply IH; rewrite length_drop; [lia|].
    replace (length data) with ((length data - 255) + 1 * 255)%nat in Hm by lia.
    by rewrite Nat.Div0.mod_add in Hm.
Qed.

(** Only the last piece ends the message and has its callback. *)
Lemma pieces_shape fuel data c :
  (0 < length data <= fuel)%nat ->
  exists l d, pieces fuel data c = l ++ [(d, true, c)] /\
    Forall (fun p => snd (fst p) = false /\ snd p = None) l /\
    concat (map (fun p => fst (fst p)) l) ++ d = data.
Proof.
  revert data. induction fuel as [|fuel IH]; intros data Hl; [lia|]. cbn [pieces].
  destruct (Nat.leb_spec (length data) 255) as [Hle|Hgt].
  - by exists [], data.
  - destruct (IH (drop 255 data)) as (l & d & -> & Hall & Hcat); [rewrite length_drop; lia|].
    exists ((take 255 data, false, None) :: l), d. split; [done|]. split; [by constructor|].
    cbn [map concat fst]. by rewrite <- app_assoc, Hcat, take_drop.
Qed.

Definition recv_msg (p : piece) : @ratp_message C :=
  let '(d, eo, _) := p in Msg d (Z.of_nat (length d)) None eo.

Lemma recv_len_none l n :
  Forall (fun p => snd (fst p) = false) l -> recv_len (map recv_msg l) n = None.
Proof.
  intros Hl. revert n. induction Hl as [|[[d eo] c] l Hp Hl IH]; intros n; [done|].
  cbn in *. subst. apply IH.
Qed.

Lemma recv_len_last l d c n :
  Forall (fun p => snd (fst p) = false) l ->
  recv_len (map recv_msg (l ++ [(d, true, c)])) n =
  Some (n + Z.of_nat (length (concat (map (fun p => fst (fst p)) l) ++ d))).
Proof.
  intros Hl. revert n. induction Hl as [|[[d0 eo] c0] l Hp Hl IH]; intros n.
  - cbn. f_equal.
  - cbn [map app recv_len recv_msg eor len fst snd concat] in *. subst. rewrite IH.
    rewrite <- app_assoc, (length_app d0). f_equal. lia.
Qed.

Lemma recv_data l :
  concat (map (fun m => take (Z.to_nat (len m)) (buf m)) (map recv_msg l))
  = concat (map (fun p => fst (fst p)) l).
Proof.
  induction l as [|[[d eo] c] l IH]; [done|]. cbn [map concat recv_msg len buf fst].
  by rewrite Nat2Z.id, take_ge, IH by lia.
Qed.

(** [ratp_recv] gives nothing before the last piece is there, and then the
    whole message. *)
Lemma receiver_recv_none (r : ri) x m pend (w : wd) :
  receiver r x m pend -> Forall (fun p => snd (fst p) = false) pend ->
  ratp_recv (r, w) = (Err (- EAGAIN), (r, w)).
Proof.
  intros ((U1 & _) & _ & _ & Hrm & _) Hall. unfold ratp_recv. monad.
  rewrite U1, bool_decide_eq_true_2 by done. cbn [negb].
  replace (recvmsg r) with (map recv_msg pend). by rewrite recv_len_none.
Qed.

Lemma receiver_recv_last (r : ri) x m l d c (w : wd) :
  receiver r x m (l ++ [(d, true, c)]) -> Forall (fun p => snd (fst p) = false) l ->
  let data := concat (map (fun p => fst (fst p)) l) ++ d in
  exists r', ratp_recv (r, w) = (Ok (Z.of_nat (length data), data), (r', w)) /\ receiver r' x m [].
Proof.
  intros ((U1 & U) & S1 & S2 & Hrm & S4) Hall data. unfold ratp_recv. monad.
  rewrite U1, bool_decide_eq_true_2 by done. cbn [negb].
  replace (recvmsg r) with (map recv_msg (l ++ [(d, true, c)])).
  rewrite recv_len_last by done. exists (set_recvmsg r []). split.
  - rewrite recv_data, map_app, concat_app. cbn [map concat fst]. by rewrite app_nil_r.
  - unfold receiver, up in *. sim. tauto.
Qed.

Lemma sender_recv (r : ri) x s cur q (w : wd) :
  sender r x s cur q -> ratp_recv (r, w) = (Err (- EAGAIN), (r, w)).
Proof.
  intros ((U1 & _) & _ & _ & Hrm & _). unfold ratp_recv. monad.
  by rewrite U1, bool_decide_eq_true_2, Hrm by done.
Qed.

Lemma sender_send (r : ri) x s cur q data c (w : wd) :
  sender r x s cur q -> (0 < length data)%nat -> Z.of_nat (length data) < 2 ^ 31 ->
  exists r', ratp_send_complete data c (r, w) = (0, (r', w)) /\
    sender r' x s cur (q ++ pieces_of (data, c)).
Proof.
  intros ((U1 & U) & S1 & S2 & S3 & Hq & S5) Hd H31. unfold ratp_send_complete. monad.
  rewrite U1, bool_decide_eq_true_2 by done. cbn [negb].
  rewrite (proj2 (Nat.eqb_neq _ _)) by lia. eexists. split; [reflexivity|].
  unfold sender, up. sim. split_and!; try done; try tauto; try apply U.
  rewrite Hq, map_app. f_equal. unfold pieces_of. cbn [fst snd]. apply chunks_pieces; lia.
Qed.

(** ** The link *)

(** The two ends with their machines, the packets on their way from the sender
    ([ab]) and back ([ba]), the messages the sender was asked to send, what the
    receiver got (the bytes allocated and the bytes written) and the completed
    messages. *)
Record link := Link {
  la : ri;
  ea : E;
  ab : list (list byte);
  lb : ri;
  eb : E;
  ba : list (list byte);
  asked : list (list byte * option C);
  got : list (Z * list byte);
  fin : list (C * Z)
}.

(** What an end hears during a poll: nothing that is a packet, or the next
    packet of the channel, possibly behind some noise. *)
Inductive heard (r : ri) (e : E) : list (list byte) -> list (list byte) -> list (Z * byte) -> Prop :=
| heard_noise ch l :
    fst (ratp_recv_pkt clock 100 (set_in_ratp r (in_ratp r + 1), World e l [] [])) <> 0 ->
    heard r e ch ch l
| heard_packet p ch junk :
    Forall (fun b => b <> Init.Byte.x01) junk -> heard r e (p :: ch) ch (map (pair 0) (junk ++ p)).

Definition received (m : res (Z * list byte)) : list (Z * list byte) :=
  match m with Ok d => [d] | Err _ => [] end.

(** The sender's user sends a message, an end is polled, or packets get lost. *)
Inductive lstep : link -> link -> Prop :=
| l_send g data c r' w :
    ratp_send_complete data c (la g, World (ea g) [] [] []) = (0, (r', w)) ->
    lstep g (Link r' (env w) (ab g) (lb g) (eb g) (ba g) (asked g ++ [(data, c)]) (got g) (fin g))
| l_poll_a g l ba' m r' w :
    heard (la g) (ea g) (ba g) ba' l ->
    ratp_poller clock transmit (la g, World (ea g) l [] []) = (Some m, (r', w)) ->
    lstep g (Link r' (env w) (ab g ++ sent w) (lb g) (eb g) ba' (asked g) (got g) (fin g ++ completed w))
| l_poll_b g l ab' m r' w :
    heard (lb g) (eb g) (ab g) ab' l ->
    ratp_poller clock transmit (lb g, World (eb g) l [] []) = (Some m, (r', w)) ->
    lstep g (Link (la g) (ea g) ab' r' (env w) (ba g ++ sent w) (asked g) (got g ++ received m) (fin g))
| l_lose g ab' ba' :
    sublist ab' (ab g) -> sublist ba' (ba g) ->
    lstep g (Link (la g) (ea g) ab' (lb g) (eb g) ba' (asked g) (got g) (fin g)).

(** *** The invariant *)

Definition comps (l : list (list byte * option C)) : list (C * Z) :=
  concat (map (fun m => match snd m with Some c => [(c, 0)] | None => [] end) l).

Definition whole (m : list byte * option C) : Z * list byte := (Z.of_nat (length (fst m)), fst m).

(** [pend] has arrived, [todo] has not: together they are the messages that
    are not complete at the receiver. *)
Definition progress (g : link) (pend todo : list piece) (gotten : list (list byte * option C)) : Prop :=
  exists rest, asked g = gotten ++ rest /\ got g = map whole gotten /\
    Forall piece_ok todo /\ Forall (fun p => snd (fst p) = false) pend /\
    Forall (fun m => (0 < length (fst m))%nat) rest /\ pend ++ todo = concat (map pieces_of rest).

(** Copies of data packets the receiver has already got. *)
Definition stale (x sn : bool) (pk : list byte) : Prop :=
  exists p, piece_ok p /\ pk = piece_packet sn (negb x) p.

(** The sender has nothing in flight, or a piece that has not arrived, or one
    whose acknowledgment has not. *)
Inductive phase (x : bool) (g : link) (s : bool) : option piece -> list piece -> Prop :=
| inv_idle q pend gotten :
    receiver (lb g) x s pend ->
    Forall (stale x s) (ab g) -> Forall (eq (ackp x s)) (ba g) ->
    progress g pend q gotten -> fin g = comps gotten -> phase x g s None q
| inv_flying p q pend gotten olds news :
    receiver (lb g) x (negb s) pend ->
    ab g = olds ++ news -> Forall (stale x (negb s)) olds -> Forall (eq (piece_packet s (negb x) p)) news ->
    Forall (eq (ackp x (negb s))) (ba g) ->
    progress g pend (p :: q) gotten -> fin g = comps gotten -> phase x g s (Some p) q
| inv_arrived p q pend gotten olds news :
    receiver (lb g) x s pend -> piece_ok p ->
    Forall (stale x s) (ab g) ->
    ba g = olds ++ news -> Forall (eq (ackp x (negb s))) olds -> Forall (eq (ackp x s)) news ->
    progress g pend q gotten -> fin g ++ callback (Some p) = comps gotten -> phase x g s (Some p) q.

Definition link_inv (x : bool) (g : link) : Prop :=
  exists s cur q, sender (la g) x s cur q /\ phase x g s cur q.

(** The next piece belongs to the first message that is not complete. *)
Lemma next_piece pend p q rest :
  pend ++ p :: q = concat (map pieces_of rest) -> Forall (fun p => snd (fst p) = false) pend ->
  Forall (fun m => (0 < length (fst m))%nat) rest ->
  (snd (fst p) = false /\ snd p = None) \/
  exists m rest', rest = m :: rest' /\ p = (fst (fst p), true, snd m) /\
    q = concat (map pieces_of rest') /\ concat (map (fun p => fst (fst p)) pend) ++ fst (fst p) = fst m.
Proof.
  intros Heq Hpend Hrest. destruct rest as [|m rest]; [by destruct pend|].
  apply Forall_cons in Hrest as [Hm Hrest]. cbn [map concat] in Heq.
  destruct (pieces_shape (length (fst m)) (fst m) (snd m) ltac:(lia)) as (l & d & Hsh & Hl & Hcat).
  unfold pieces_of at 1 in Heq. rewrite Hsh, <- app_assoc in Heq. cbn [app] in Heq.
  apply app_eq_app in Heq as (k & [[-> Hk]|[-> Hk]]).
  - destruct k as [|y k]; cbn in Hk.
    + injection Hk as <- <-. right. exists m, rest. rewrite app_nil_r. split_and!; done.
    + injection Hk as <- _. apply Forall_app in Hpend as [_ Hpend].
      apply Forall_cons in Hpend as [Hpend _]. done.
  - destruct k as [|y k]; cbn in Hk.
    + injection Hk as -> ->. right. exists m, rest. rewrite app_nil_r in Hcat. split_and!; done.
    + injection Hk as <- _. left. apply Forall_app in Hl as [_ Hl]. by apply Forall_cons in Hl as [Hl _].
Qed.

Lemma phase_ok x g s cur q : phase x g s cur q -> pieces_ok cur q.
Proof.
  intros [? ? ? ? ? ? (rest & _ & _ & Hok & _)|? ? ? ? ? ? ? ? ? ? ? (rest & _ & _ & Hok & _)
         |? ? ? ? ? ? ? ? ? ? ? ? (rest & _ & _ & Hok & _)]; split; try done;
    by apply Forall_cons in Hok as [? ?].
Qed.

(** *** Preservation *)

Lemma phase_sends x g s cur q out s' cur' q' r' e' :
  phase x g s cur q -> sends x s cur q out s' cur' q' ->
  phase x (Link r' e' (ab g ++ out) (lb g) (eb g) (ba g) (asked g) (got g) (fin g)) s' cur' q'.
Proof.
  intros Hph Hsends. destruct Hsends as [s cur q|s p q|s p q].
  - rewrite app_nil_r.
    destruct Hph; [eapply inv_idle|eapply inv_flying|eapply inv_arrived]; done.
  - inversion Hph; subst.
    + eapply inv_flying with (olds := olds) (news := news ++ [_]); cbn; try done.
      * rewrite app_assoc. by f_equal.
      * apply Forall_app. split; [done|]. by repeat constructor.
    + eapply inv_arrived; cbn; try done.
      apply Forall_app. split; [done|]. constructor; [|constructor]. by exists p.
  - inversion Hph; subst.
    eapply inv_flying with (olds := ab g) (news := [_]); cbn; rewrite ?negb_involutive; try done.
    by repeat constructor.
Qed.

Lemma acks_cons {x s : bool} {a : list byte} {l} :
  Forall (eq (ackp x s)) (a :: l) -> a = ackp x s /\ Forall (eq (ackp x s)) l.
Proof. by intros [<- ?]%Forall_cons. Qed.

(** An acknowledgment reaches the sender. *)
Lemma phase_ack x g s cur q a ba' r' e' :
  phase x g s cur q -> ba g = a :: ba' ->
  exists j, a = ackp x j /\
    phase x (Link r' e' (ab g) (lb g) (eb g) ba' (asked g) (got g)
               (fin g ++ if eqb j s then callback cur else []))
      s (if eqb j s then None else cur) q.
Proof.
  intros Hph Hba. destruct Hph as [q pend gotten Hr Hab Hack Hp Hfin
    |p q pend gotten olds news Hr Eab Hold Hnew Hack Hp Hfin
    |p q pend gotten olds news Hr Hpok Hab Eba Hold Hnew Hp Hfin].
  - rewrite Hba in Hack. apply acks_cons in Hack as [-> Hack]. exists s. split; [done|].
    rewrite eqb_reflx. cbn [callback]. rewrite app_nil_r.
    eapply inv_idle; try done.
  - rewrite Hba in Hack. apply acks_cons in Hack as [-> Hack]. exists (negb s). split; [done|].
    replace (eqb (negb s) s) with false by (by destruct s). rewrite app_nil_r.
    eapply inv_flying; try done.
  - rewrite Hba in Eba. destruct olds as [|o olds].
    + cbn in Eba. subst news. apply acks_cons in Hnew as [-> Hnew]. exists s. split; [done|].
      rewrite eqb_reflx. eapply inv_idle; try done.
    + injection Eba as <- ->. apply acks_cons in Hold as [-> Hold]. exists (negb s). split; [done|].
      replace (eqb (negb s) s) with false by (by destruct s). rewrite app_nil_r.
      eapply inv_arrived; try done.
Qed.

Lemma poller_inv (r : ri) w m r' w' v r1 w1 :
  ratp_poll clock transmit (r, w) = (v, (r1, w1)) ->
  ratp_poller clock transmit (r, w) = (Some m, (r', w')) ->
  state r1 <> RATP_STATE_CLOSED /\ ratp_recv (r1, w1) = (m, (r', w')).
Proof.
  intros Ep. unfold ratp_poller. monad. rewrite Ep. destruct (v =? - EINTR); [done|].
  cbn [fst ratp_closed]. case_bool_decide as Hc; [done|]. cbn [snd].
  destruct (ratp_recv (r1, w1)) as [m1 [r2 w2]]. intros [= <- <- <-]. done.
Qed.

Lemma phase_receiver x g s cur q :
  phase x g s cur q -> exists m pend, receiver (lb g) x m pend /\ Forall (fun p => snd (fst p) = false) pend.
Proof.
  intros [? ? ? ? ? ? (rest & _ & _ & _ & Hn & _)|? ? ? ? ? ? ? ? ? ? ? (rest & _ & _ & _ & Hn & _)
         |? ? ? ? ? ? ? ? ? ? ? ? (rest & _ & _ & _ & Hn & _)]; by eexists _, _.
Qed.

Lemma receiver_same r r' x m m' pend pend' :
  receiver r x m pend -> receiver r x m' pend' -> receiver r' x m pend -> m = m' /\ receiver r' x m' pend'.
Proof.
  intros (_ & _ & Hm & Hp & _) (_ & _ & Hm' & Hp' & _) Hr'.
  assert (m = m') as <-. { rewrite Hm in Hm'. by destruct m, m'. }
  split; [done|]. unfold receiver in *. by rewrite <- Hp', Hp.
Qed.

Lemma Forall_sublist_of {A} (P : A -> Prop) l k : sublist l k -> Forall P k -> Forall P l.
Proof.
  induction 1 as [|y l k Hs IH|y l k Hs IH]; intros Hk; [done| |];
    apply Forall_cons in Hk as [? ?]; [constructor|]; eauto.
Qed.

(** Packets get lost, and nothing new reaches the receiver, which may
    acknowledge again. *)
Lemma phase_same x g s cur q ab' ba' acks r' e' m pend :
  phase x g s cur q -> receiver (lb g) x m pend -> receiver r' x m pend ->
  sublist ab' (ab g) -> sublist ba' (ba g) -> Forall (eq (ackp x m)) acks ->
  phase x (Link (la g) (ea g) ab' r' e' (ba' ++ acks) (asked g) (got g ++ []) (fin g)) s cur q.
Proof.
  intros Hph Hr Hr' Hab Hba Hacks. rewrite app_nil_r. destruct Hph as [q pend' gotten Hrg Hab' Hack Hp Hfin
    |p q pend' gotten olds news Hrg Eab Hold Hnew Hack Hp Hfin
    |p q pend' gotten olds news Hrg Hpok Hab' Eba Hold Hnew Hp Hfin];
    destruct (receiver_same _ _ _ _ _ _ _ Hr Hrg Hr') as [-> Hr''].
  - eapply inv_idle; cbn; try done; [by eapply Forall_sublist_of|].
    apply Forall_app. split; [by eapply Forall_sublist_of|done].
  - rewrite Eab in Hab. apply sublist_app_r in Hab as (o & n & -> & Ho & Hn).
    eapply inv_flying; cbn; try done; [by eapply Forall_sublist_of..|].
    apply Forall_app. split; [by eapply Forall_sublist_of|done].
  - rewrite Eba in Hba. apply sublist_app_r in Hba as (o & n & -> & Ho & Hn).
    eapply inv_arrived with (olds := o) (news := n ++ acks); cbn; try done;
      [by eapply Forall_sublist_of|by rewrite app_assoc|by eapply Forall_sublist_of|].
    apply Forall_app. split; [by eapply Forall_sublist_of|done].
Qed.

(** A data packet on the way to the receiver is an old one or the piece in
    flight. *)
Lemma phase_head x g s cur q pk ab' :
  phase x g s cur q -> ab g = pk :: ab' ->
  (exists m pend, receiver (lb g) x m pend /\ stale x m pk) \/
  (exists p, cur = Some p /\ pk = piece_packet s (negb x) p /\
     exists pend gotten, receiver (lb g) x (negb s) pend /\ progress g pend (p :: q) gotten /\
       fin g = comps gotten /\ Forall (eq pk) ab' /\ Forall (eq (ackp x (negb s))) (ba g)).
Proof.
  intros Hph Ehd. destruct Hph as [q pend' gotten Hrg Hab' Hack Hp Hfin
    |p q pend' gotten olds news Hrg Eab Hold Hnew Hack Hp Hfin
    |p q pend' gotten olds news Hrg Hpok Hab' Eba Hold Hnew Hp Hfin].
  - rewrite Ehd in Hab'. apply Forall_cons in Hab' as [? _]. left. by eexists _, _.
  - rewrite Ehd in Eab. destruct olds as [|o olds].
    + right. cbn in Eab. subst news. apply Forall_cons in Hnew as [<- Hnew]. exists p. split_and!; [done..|].
      by exists pend', gotten.
    + injection Eab as <- ->. apply Forall_cons in Hold as [? _]. left. by eexists _, _.
  - rewrite Ehd in Hab'. apply Forall_cons in Hab' as [? _]. left. by eexists _, _.
Qed.

(** The piece in flight arrives; with the last one the message is delivered. *)
Lemma phase_arrive x g s p q pend gotten ab' r1 e' (w1 : wd) m r' w' :
  progress g pend (p :: q) gotten -> fin g = comps gotten ->
  Forall (eq (piece_packet s (negb x) p)) ab' -> Forall (eq (ackp x (negb s))) (ba g) ->
  receiver r1 x s (pend ++ [p]) -> ratp_recv (r1, w1) = (m, (r', w')) ->
  w' = w1 /\
  phase x (Link (la g) (ea g) ab' r' e' (ba g ++ [ackp x s]) (asked g) (got g ++ received m) (fin g))
    s (Some p) q.
Proof.
  intros (rest & Hasked & Hgot & Hok & Hnon & Hne & Hcat) Hfin Hab Hba Hr1 Erecv.
  apply Forall_cons in Hok as [Hpok Hok].
  assert (Hstale : Forall (stale x s) ab').
  { eapply Forall_impl; [exact Hab|]. intros pk <-. by exists p. }
  destruct (next_piece pend p q rest Hcat Hnon Hne) as [[Heo Hcb]|(mm & rest' & -> & Hpe & Hq & Hdata)].
  - rewrite (receiver_recv_none _ _ _ _ _ Hr1) in Erecv
      by (apply Forall_app; split; [done|by repeat constructor]).
    injection Erecv as <- <- <-. split; [done|]. cbn [received]. rewrite app_nil_r.
    eapply inv_arrived with (olds := ba g) (news := [_]) (gotten := gotten); cbn; try done.
    + by repeat constructor.
    + exists rest. cbn. split_and!; try done.
      * apply Forall_app. split; [done|]. by repeat constructor.
      * by rewrite <- app_assoc.
    + destruct p as [[d eo] cb]. cbn in Hcb. subst cb. by rewrite app_nil_r.
  - rewrite Hpe in Hr1. destruct (receiver_recv_last _ _ _ _ _ _ w1 Hr1 Hnon) as (r2 & Erecv' & Hr2).
    rewrite Erecv' in Erecv. injection Erecv as <- <- <-. split; [done|].
    eapply inv_arrived with (olds := ba g) (news := [_]) (gotten := gotten ++ [mm]); cbn; try done.
    + by repeat constructor.
    + apply Forall_cons in Hne as [_ Hne]. exists rest'. cbn. split_and!; try done.
      * by rewrite <- app_assoc.
      * rewrite Hgot, map_app. cbn [map]. unfold whole. by rewrite Hdata.
    + rewrite Hfin, Hpe. unfold comps. rewrite map_app, concat_app. cbn [map concat]. rewrite app_nil_r.
      by destruct (snd mm).
Qed.

Lemma phase_poll_b x g s cur q ab' l m r' w :
  phase x g s cur q -> heard (lb g) (eb g) (ab g) ab' l ->
  ratp_poller clock transmit (lb g, World (eb g) l [] []) = (Some m, (r', w)) ->
  phase x (Link (la g) (ea g) ab' r' (env w) (ba g ++ sent w) (asked g) (got g ++ received m) (fin g)) s cur q.
Proof.
  intros Hph Hheard Hpoll. destruct (phase_receiver _ _ _ _ _ Hph) as (mr & pend & Hr & Hnon).
  remember (ab g) as ch eqn:Ech. destruct Hheard as [ch l Hfail|pk ch junk Hjunk].
  - destruct (receiver_poll_noise _ x mr pend _ _ Hr Hfail) as (v & r1 & e1 & l1 & Ep & Hr1).
    destruct (poller_inv _ _ _ _ _ _ _ _ Ep Hpoll) as [_ Erecv].
    rewrite (receiver_recv_none _ _ _ _ _ Hr1 Hnon) in Erecv. injection Erecv as <- <- <-. cbn.
    subst ch. eapply (phase_same _ _ _ _ _ _ _ _ _ _ mr pend); done || reflexivity.
  - symmetry in Ech.
    destruct (phase_head _ _ _ _ _ _ _ Hph Ech) as [(m0 & pend0 & Hr0 & p & Hpok & ->)
      |(p & -> & -> & pend0 & gotten & Hr0 & Hprog & Hfin & Hab & Hba)].
    + destruct (receiver_same _ _ _ _ _ _ _ Hr Hr0 Hr) as [<- _].
      destruct (receiver_poll_data _ x mr pend (eb g) junk mr p Hr Hpok Hjunk) as (v & r1 & e1 & Ep & Hr1).
      rewrite eqb_reflx in Hr1. destruct (poller_inv _ _ _ _ _ _ _ _ Ep Hpoll) as [_ Erecv].
      rewrite (receiver_recv_none _ _ _ _ _ Hr1 Hnon) in Erecv. injection Erecv as <- <- <-. cbn.
      eapply (phase_same _ _ _ _ _ _ _ _ _ _ mr pend); try done; [rewrite Ech; by apply sublist_cons|by repeat constructor].
    + assert (Hpok : piece_ok p) by (by destruct (phase_ok _ _ _ _ _ Hph)).
      destruct (receiver_poll_data _ x (negb s) pend0 (eb g) junk s p Hr0 Hpok Hjunk) as (v & r1 & e1 & Ep & Hr1).
      replace (eqb s (negb s)) with false in Hr1 by (by destruct s).
      destruct (poller_inv _ _ _ _ _ _ _ _ Ep Hpoll) as [_ Erecv].
      destruct (phase_arrive x g s p q pend0 gotten ch r1 (env w) _ _ _ _ Hprog Hfin Hab Hba Hr1 Erecv)
        as [-> Hph']. exact Hph'.
Qed.

Lemma link_poll_a x g ba' l m r' w :
  link_inv x g -> heard (la g) (ea g) (ba g) ba' l ->
  ratp_poller clock transmit (la g, World (ea g) l [] []) = (Some m, (r', w)) ->
  link_inv x (Link r' (env w) (ab g ++ sent w) (lb g) (eb g) ba' (asked g) (got g) (fin g ++ completed w)).
Proof.
  intros (s & cur & q & Hs & Hph) Hheard Hpoll. pose proof (phase_ok _ _ _ _ _ Hph) as Hok.
  remember (ba g) as ch eqn:Ech. destruct Hheard as [ch l Hfail|pk ch junk Hjunk].
  - destruct (sender_poll_noise _ x s cur q _ _ Hs Hok Hfail) as (v & r1 & e1 & l1 & out & Ep & Hr1).
    destruct (poller_inv _ _ _ _ _ _ _ _ Ep Hpoll) as [Hopen Erecv].
    destruct Hr1 as [?|(s' & cur' & q' & Hsends & Hs1)]; [done|].
    rewrite (sender_recv _ _ _ _ _ _ Hs1) in Erecv. injection Erecv as <- <- <-. cbn.
    exists s', cur', q'. split; [done|]. rewrite Ech, app_nil_r. by eapply phase_sends.
  - symmetry in Ech. destruct (phase_ack x g s cur q pk ch (la g) (ea g) Hph Ech) as (j & -> & Hph').
    destruct (sender_poll_ack _ x s cur q (ea g) junk j Hs Hok Hjunk) as (v & r1 & e1 & out & Ep & Hr1).
    destruct (poller_inv _ _ _ _ _ _ _ _ Ep Hpoll) as [Hopen Erecv].
    destruct Hr1 as [?|(s' & cur' & q' & Hsends & Hs1)]; [done|].
    rewrite (sender_recv _ _ _ _ _ _ Hs1) in Erecv. injection Erecv as <- <- <-. cbn.
    exists s', cur', q'. split; [done|]. exact (phase_sends _ _ _ _ _ _ _ _ _ r1 e1 Hph' Hsends).
Qed.

Lemma progress_send g g' pend todo gotten data c :
  (0 < length data)%nat -> (length data mod 255 <> 1)%nat ->
  asked g' = asked g ++ [(data, c)] -> got g' = got g ->
  progress g pend todo gotten -> progress g' pend (todo ++ pieces_of (data, c)) gotten.
Proof.
  intros Hd Hm Ha Hg (rest & H1 & H2 & H3 & H4 & H5 & H6). exists (rest ++ [(data, c)]).
  rewrite Ha, Hg, H1, map_app, concat_app. cbn [map concat]. split_and!; try done.
  - by rewrite app_assoc.
  - apply Forall_app. split; [done|]. by apply pieces_all_ok.
  - apply Forall_app. split; [done|]. by repeat constructor.
  - by rewrite app_assoc, H6, app_nil_r.
Qed.

Lemma link_send x g data c r' w :
  link_inv x g ->
  (0 < length data)%nat -> Z.of_nat (length data) < 2 ^ 31 -> (length data mod 255 <> 1)%nat ->
  ratp_send_complete data c (la g, World (ea g) [] [] []) = (0, (r', w)) ->
  link_inv x (Link r' (env w) (ab g) (lb g) (eb g) (ba g) (asked g ++ [(data, c)]) (got g) (fin g)).
Proof.
  intros (s & cur & q & Hs & Hph) Hd H31 Hm Esend.
  destruct (sender_send _ x s cur q data c (World (ea g) [] [] []) Hs Hd H31) as (r1 & E1 & Hs1).
  rewrite E1 in Esend. injection Esend as <- <-. exists s, cur, (q ++ pieces_of (data, c)). split; [done|].
  destruct Hph as [q pend' gotten Hrg Hab' Hack Hp Hfin
    |p q pend' gotten olds news Hrg Eab Hold Hnew Hack Hp Hfin
    |p q pend' gotten olds news Hrg Hpok Hab' Eba Hold Hnew Hp Hfin];
    [eapply inv_idle|eapply inv_flying|eapply inv_arrived]; try done;
    by eapply progress_send in Hp.
Qed.

(** A message that the protocol carries: not empty, and no piece of it is a single
    octet. *)
Definition deliverable (m : list byte * option C) : Prop :=
  (0 < length (fst m))%nat /\ Z.of_nat (length (fst m)) < 2 ^ 31 /\ (length (fst m) mod 255 <> 1)%nat.

Lemma lstep_asked g g' : lstep g g' -> asked g `prefix_of` asked g'.
Proof. intros []; cbn; [by apply prefix_app_r|done..]. Qed.

Lemma link_step x g g' : link_inv x g -> lstep g g' -> Forall deliverable (asked g') -> link_inv x g'.
Proof.
  intros Hinv Hstep Hd.
  destruct Hstep as [g data c r' w Es|g l ba' m r' w Hh Ep|g l ab' m r' w Hh Ep|g ab' ba' Ha Hb].
  - cbn in Hd. apply Forall_app in Hd as [_ Hd]. apply Forall_singleton in Hd as (H1 & H2 & H3). by apply link_send.
  - by eapply link_poll_a.
  - destruct Hinv as (s & cur & q & Hs & Hph). exists s, cur, q. split; [done|]. by eapply phase_poll_b.
  - destruct Hinv as (s & cur & q & Hs & Hph). exists s, cur, q. split; [done|].
    destruct (phase_receiver _ _ _ _ _ Hph) as (mr & pend & Hr & _).
    pose proof (phase_same x g s cur q ab' ba' [] (lb g) (eb g) mr pend Hph Hr Hr Ha Hb
      (Forall_nil_2 _)) as H. by rewrite !app_nil_r in H.
Qed.

(** ** The properties *)

(** C17: reliable delivery.  On an established link where one end sends, every
    message the other end gets from [ratp_recv] is one handed to
    [ratp_send_complete], whole, in the order they were sent, none skipped and
    none twice, and the buffer allocated for it is exactly filled; and the
    callbacks that reported success are those of messages that were delivered.
    This holds for every timing and every interleaving of the two ends, with
    packets and acknowledgments lost in any number and noise on the line that is
    not accepted as a packet, as long as neither end gives the link up and no message
    that was sent has a length of 1 modulo 255: the last piece of such a message is a
    single octet, which the receiver does not get (see [ratp_single_octet]). *)
Theorem ratp_delivers x s g g' :
  sender (la g) x s None [] -> receiver (lb g) x s [] ->
  ab g = [] -> ba g = [] -> asked g = [] -> got g = [] -> fin g = [] ->
  rtc lstep g g' -> Forall deliverable (asked g') ->
  exists gotten rest, asked g' = gotten ++ rest /\ got g' = map whole gotten /\
    fin g' `prefix_of` comps gotten.
Proof.
  intros Hs Hr Hab Hba Ha Hg Hf Hsteps Hd.
  assert (Hinv : link_inv x g).
  { exists s, None, []. split; [done|]. eapply (inv_idle _ _ _ [] [] []); try done.
    - by rewrite Hab.
    - by rewrite Hba.
    - exists []. by rewrite Ha, Hg. }
  assert (Hinv' : link_inv x g').
  { revert g' Hsteps Hd. apply (rtc_ind_r (fun g' => Forall deliverable (asked g') -> link_inv x g') g); [done|].
    intros g2 g3 _ Hstep IH Hd. eapply link_step; [|exact Hstep|exact Hd]. apply IH.
    destruct (lstep_asked _ _ Hstep) as [l El]. rewrite El in Hd. by apply Forall_app in Hd as [? _]. }
  destruct Hinv' as (s' & cur & q & _ & [q' pend gotten _ _ _ (rest & Hp) Hfin
    |p q' pend gotten olds news _ _ _ _ _ (rest & Hp) Hfin
    |p q' pend gotten olds news _ _ _ _ _ _ (rest & Hp) Hfin]);
    exists gotten, rest; (split_and!; [apply Hp..|]).
  - by rewrite Hfin.
  - by rewrite Hfin.
  - rewrite <- Hfin. by exists (callback (Some p)).
Qed.

(** Damage is noticed.  When two neighbouring bytes of the data of a packet
    arrive changed, [ratp_recv_pkt] answers [-EBADMSG], whatever was on the line
    before the packet; the poll then does not look at the packet. *)
Theorem ratp_recv_pkt_rejects c pre x0 x1 y0 y1 post junk tmo (r : ri) e s k :
  data_ctl c -> (length (pre ++ x0 :: x1 :: post) <= 255)%nat ->
  Forall (fun b => b <> Init.Byte.x01) junk -> length (recvbuf r) = 512%nat ->
  (x0, x1) <> (y0, y1) ->
  let d := pre ++ x0 :: x1 :: post in
  let bad := pre ++ y0 :: y1 :: post in
  fst (ratp_recv_pkt clock tmo (r, World e (map (pair 0)
    (junk ++ hdr_bytes (ratp_create_packet c (Z.of_nat (length d))) ++
     bad ++ be_bytes 2 (CrcItuT.crc_itu_t 0 d))) s k)) = - EBADMSG.
Proof.
  intros Hc Hd Hj Hr Hne d bad.
  assert (Hlen : length d = length bad) by (unfold d, bad; by rewrite !length_app).
  rewrite Hlen. destruct (recv_pkt_raw c bad (be_bytes 2 (CrcItuT.crc_itu_t 0 d)) junk tmo r e s k Hc)
    as [e1 E1]; try done.
  { rewrite <- Hlen. unfold d in *. rewrite length_app in *. cbn in *. lia. }
  rewrite E1. cbn [fst]. rewrite be_val_bytes. change (2 ^ (8 * Z.of_nat 2)) with (2 ^ 16).
  rewrite Z.mod_small by (apply CrcItuT.crc_itu_t_range; lia).
  destruct (Z.eqb_spec (CrcItuT.crc_itu_t 0 bad) (CrcItuT.crc_itu_t 0 d)) as [Heq|]; [|done].
  exfalso. unfold d, bad in Heq. apply CrcItuT.crc_itu_t_burst in Heq as [-> ->]; [done|lia].
Qed.

(** C37: a complete message that is followed by another one in the receive queue
    is returned in a buffer of its own length, but every queued byte is written
    to it: [ratp_recv] runs over the end of the allocation by the length of the
    messages behind the first.  The situation arises when the packet that ends the
    handshake carries data. *)
Theorem ratp_recv_overruns (r : ri) (w : wd) l d c more :
  state r = RATP_STATE_ESTABLISHED ->
  recvmsg r = map recv_msg ((l ++ [(d, true, c)]) ++ more) -> Forall (fun p => snd (fst p) = false) l ->
  exists n data, fst (ratp_recv (r, w)) = Ok (n, data) /\
    Z.of_nat (length data) = n + Z.of_nat (length (concat (map (fun p => fst (fst p)) more))).
Proof.
  intros Hst Hrm Hl. unfold ratp_recv. monad. rewrite Hst, bool_decide_eq_true_2 by done. cbn [negb].
  assert (Hlen : forall (m : list (@ratp_message C)) n v, recv_len m n = Some v -> forall m2, recv_len (m ++ m2) n = Some v).
  { clear. induction m as [|p m IH]; intros n v H m2; [done|]. cbn in *. destruct (eor p); eauto. }
  rewrite Hrm, map_app, (Hlen _ _ _ (recv_len_last l d c 0 Hl)).
  eexists _, _. split; [reflexivity|]. rewrite map_app, concat_app, !recv_data, length_app.
  rewrite map_app, concat_app. cbn [map concat fst]. rewrite app_nil_r. lia.
Qed.

(** The packet of a single octet. *)
Definition octet_ctl (sn an eo : bool) : Z := Z.lor (ctl sn an eo) RATP_CONTROL_SO.

Definition octet_packet (sn an eo : bool) (b : byte) : list byte :=
  hdr_bytes (ratp_create_packet (octet_ctl sn an eo) (byte_val b)).

Lemma octet_ctl_facts sn an eo n :
  let h := ratp_create_packet (octet_ctl sn an eo) n in
  0 <= octet_ctl sn an eo < 256 /\ plain h sn an /\ ratp_has_data h = true /\
  has h RATP_CONTROL_EOR = eo /\ has h (Z.lor RATP_CONTROL_SO RATP_CONTROL_SYN_RST_FIN) = true.
Proof. unfold plain. destruct sn, an, eo; by vm_compute. Qed.

Lemma octet_sent (r : ri) x s b c q e l st k :
  sender r x s None (([b], true, c) :: q) ->
  exists r' e', poll_transmit clock transmit (r, World e l st k) =
    (0, (r', World e' l (st ++ [octet_packet (negb s) (negb x) true b]) k)).
Proof.
  intros ((U1 & U2 & U3 & U4) & Hs & Hx & Hrm & Hq & Hcur & Hsb).
  pose proof (byte_val_range b) as Hb.
  unfold poll_transmit. monad. rewrite Hsb. sim. rewrite Hsb, Hq, bool_decide_eq_false_2 by done. sim.
  unfold ratp_send_next_data. monad. rewrite Hcur, Hq. cbn [map].
  replace (data_packet r (piece_msg ([b], true, c))) with
    (octet_packet (negb s) (negb x) true b ++ [b; Init.Byte.x00; Init.Byte.x00], 4).
  2:{ unfold data_packet, octet_packet, octet_ctl, ctl, ratp_set_next_sn, ratp_set_next_an.
      rewrite Hs, Hx, !next_bz. by destruct s, x. }
  monad. sim. unfold ratp_send_pkt.
  destruct (octet_ctl_facts (negb s) (negb x) true (byte_val b)) as (Hc & Hp & Hd & _ & _).
  replace (hdr_of _) with (ratp_create_packet (octet_ctl (negb s) (negb x) true) (byte_val b)).
  2:{ unfold octet_packet. rewrite (hdr_of_app _ _ []), app_nil_r by done. symmetry. by apply hdr_of_created. }
  rewrite Hd. cbn [orb]. monad. unfold get_time_ns. sim. destruct (clock e) as [now e1]. sim.
  unfold ratp_xmit. sim.
  change (take (Z.to_nat 4) (octet_packet (negb s) (negb x) true b ++ [b; Init.Byte.x00; Init.Byte.x00]))
    with (octet_packet (negb s) (negb x) true b).
  destruct (transmit e1 _) as [v e2]. by eexists _, _.
Qed.

Lemma octet_received (r : ri) x m pend b junk e an :
  receiver r x m pend -> byte_val b <> 0 -> Forall (fun b => b <> Init.Byte.x01) junk ->
  exists r' w', ratp_poll clock transmit
      (r, World e (map (pair 0) (junk ++ octet_packet (negb m) an true b)) [] []) = (0, (r', w')) /\
    recvmsg r' = recvmsg r ++ [Msg (read_at (recvbuf r) 4 (Z.to_nat (byte_val b))) (byte_val b) None true].
Proof.
  intros Hr Hb0 Hj. pose proof (byte_val_range b) as Hb.
  destruct (octet_ctl_facts (negb m) an true (byte_val b)) as (Hc & Hp & Hd & Heo & Hso).
  set (r0 := set_in_ratp r (in_ratp r + 1)).
  destruct (Hr) as ((U1 & U2 & U3 & U4) & S1 & S2 & S3 & S4 & S5 & S6).
  set (h := ratp_create_packet (octet_ctl (negb m) an true) (byte_val b)) in *.
  assert (Hhd : hdr_of (write_at (recvbuf r0) 0 (hdr_bytes h)) = h).
  { rewrite <- (app_nil_r (hdr_bytes h)), hdr_of_write_at by (cbn; rewrite ?U3; lia). by apply hdr_of_created. }
  assert (Erecv : exists e1, ratp_recv_pkt clock 100 (r0, World e (map (pair 0) (junk ++ hdr_bytes h)) [] [])
    = (0, (set_recvbuf r0 (write_at (recvbuf r0) 0 (hdr_bytes h)), World e1 [] [] []))).
  { destruct (recv_header_run (octet_ctl (negb m) an true) (byte_val b) junk 100 r0 e [] [] [] Hc Hb Hj
      ltac:(cbn; lia)) as [e1 E1]. rewrite app_nil_r in E1. exists e1. unfold ratp_recv_pkt, bind at 1.
    fold h in E1. rewrite E1. cbn [Z.ltb Z.compare]. monad. cbn [recvbuf set_recvbuf]. by rewrite Hhd, Hso. }
  destruct Erecv as [e1 E1].
  unfold octet_packet. fold h. rewrite (ratp_poll_split _ _ _ _ _ _ _ E1). cbn [Z.eqb]. fold r0. cbv zeta.
  set (r1 := set_recvbuf r0 _).
  set (d := read_at (recvbuf r) 4 (Z.to_nat (byte_val b))).
  assert (Hdl : length d = Z.to_nat (byte_val b)) by (apply length_read_at; lia).
  assert (Hh1 : hdr_of (recvbuf r1) = h) by exact Hhd.
  destruct (machine_data (recvbuf r1) (negb m) an d true r1 e1 [] [] []) as (e2 & Em);
    rewrite ?Hh1, ?Hdl, ?negb_involutive; try done.
  { by rewrite Z2Nat.id by lia. }
  { intros Hnil. rewrite Hnil in Hdl. cbn in Hdl. lia. }
  { unfold d. apply read_write_at_after; cbn; lia. }
  apply poll_packet_run in Em; [|done|done]. rewrite Em. cbn [Z.ltb Z.compare].
  rewrite poll_transmit_idle by done. eexists _, _. split; [reflexivity|].
  sim. rewrite Hdl, Z2Nat.id by lia. done.
Qed.

(** A message of one byte is not delivered.  The byte is sent in the length
    field of a packet with the single octet flag; the receiver takes it for a
    length and queues that many bytes of its receive buffer, which the packet did
    not touch. *)
Theorem ratp_single_octet (r0 : ri) x s b c q (r : ri) pend junk e0 l0 st0 k0 e :
  sender r0 x s None (([b], true, c) :: q) -> receiver r x s pend ->
  byte_val b <> 0 -> Forall (fun b => b <> Init.Byte.x01) junk ->
  exists r0' e0' pkt, poll_transmit clock transmit (r0, World e0 l0 st0 k0) =
      (0, (r0', World e0' l0 (st0 ++ [pkt]) k0)) /\
    exists r' w', ratp_poll clock transmit (r, World e (map (pair 0) (junk ++ pkt)) [] []) = (0, (r', w')) /\
      recvmsg r' = recvmsg r ++
        [Msg (read_at (recvbuf r) 4 (Z.to_nat (byte_val b))) (byte_val b) None true].
Proof.
  intros Hs Hr Hb Hj. destruct (octet_sent r0 x s b c q e0 l0 st0 k0 Hs) as (r0' & e0' & Es).
  exists r0', e0', (octet_packet (negb s) (negb x) true b). split; [done|].
  by apply (octet_received r x s pend).
Qed.

End Link.

(** ** Concrete links *)

Module Demo.

(** A clock that advances with every reading, and a line that takes every
    packet. *)
Definition clk (e : Z) : Z * Z := (e, e + 1).
Definition tx (e : Z) (pkt : list byte) : Z * Z := (0, e).

Abbreviation conn := (@ratp_internal nat).
Abbreviation wd := (@world nat Z).

Definition zeros : list byte := replicate 512 Init.Byte.x00.

Definition conn0 : conn :=
  Ri RATP_STATE_ESTABLISHED 0 0 false zeros zeros 0 [] [] None 0 0 100 0 100 200 0 0.

Definition link0 : link (C := nat) (E := Z) := Link conn0 0 [] conn0 0 [] [] [] [].

Definition send_a (g : link) (data : list byte) (c : option nat) : link (C := nat) (E := Z) :=
  let '(_, (r, w)) := ratp_send_complete data c (la g, World (ea g) [] [] []) in
  Link r (env w) (ab g) (lb g) (eb g) (ba g) (asked g ++ [(data, c)]) (got g) (fin g).

Definition poll_a (g : link) (l : list (Z * byte)) (ba' : list (list byte)) : link (C := nat) (E := Z) :=
  let '(_, (r, w)) := ratp_poller clk tx (la g, World (ea g) l [] []) in
  Link r (env w) (ab g ++ sent w) (lb g) (eb g) ba' (asked g) (got g) (fin g ++ completed w).

Definition poll_b (g : link) (l : list (Z * byte)) (ab' : list (list byte)) : link (C := nat) (E := Z) :=
  let '(m, (r, w)) := ratp_poller clk tx (lb g, World (eb g) l [] []) in
  Link (la g) (ea g) ab' r (env w) (ba g ++ sent w) (asked g)
    (got g ++ match m with Some m => received m | None => [] end) (fin g).

Lemma step_poll_a g l ba' :
  heard clk (la g) (ea g) (ba g) ba' l ->
  fst (ratp_poller clk tx (la g, World (ea g) l [] [])) <> None ->
  lstep clk tx g (poll_a g l ba').
Proof.
  intros Hh Hs. unfold poll_a. destruct (ratp_poller _ _ _) as [[m|] [r w]] eqn:Ep; [|done].
  by eapply l_poll_a.
Qed.

Lemma step_poll_b g l ab' :
  heard clk (lb g) (eb g) (ab g) ab' l ->
  fst (ratp_poller clk tx (lb g, World (eb g) l [] [])) <> None ->
  lstep clk tx g (poll_b g l ab').
Proof.
  intros Hh Hs. unfold poll_b. destruct (ratp_poller _ _ _) as [[m|] [r w]] eqn:Ep; [|done].
  by eapply l_poll_b.
Qed.

(** Three bytes are sent, arrive and are acknowledged. *)
Definition hello : list byte := [Init.Byte.x68; Init.Byte.x69; Init.Byte.x21].

Definition link1 := Eval vm_compute in send_a link0 hello (Some 7%nat).
Definition link2 := Eval vm_compute in poll_a link1 [] [].
Definition pk : list byte := Eval vm_compute in nth 0 (ab link2) [].
Definition link3 := Eval vm_compute in poll_b link2 (map (pair 0) ([Init.Byte.xff] ++ pk)) [].
Definition ak : list byte := Eval vm_compute in nth 0 (ba link3) [].
Definition link4 := Eval vm_compute in poll_a link3 (map (pair 0) ([] ++ ak)) [].

Lemma ratp_delivers_witness :
  rtc (lstep clk tx) link0 link4 /\ got link4 = [(3, hello)] /\ fin link4 = [(7%nat, 0)] /\
  exists gotten rest, asked link4 = gotten ++ rest /\ got link4 = map whole gotten /\
    fin link4 `prefix_of` comps gotten.
Proof.
  assert (Hsteps : rtc (lstep clk tx) link0 link4).
  { eapply rtc_l; [exact (l_send clk tx link0 hello (Some 7%nat) _ _ eq_refl)|].
    eapply (rtc_l _ _ link2); [apply (step_poll_a link1 [] []); [constructor; vm_compute; done|vm_compute; done]|].
    eapply (rtc_l _ _ link3).
    { apply (step_poll_b link2 (map (pair 0) ([Init.Byte.xff] ++ pk)) []).
      - apply (heard_packet clk (lb link2) (eb link2) pk []). by repeat constructor.
      - vm_compute. done. }
    apply rtc_once. apply (step_poll_a link3 (map (pair 0) ([] ++ ak)) []).
    - apply (heard_packet clk (la link3) (ea link3) ak []). constructor.
    - vm_compute. done. }
  split_and!; [done|reflexivity|reflexivity|].
  apply (ratp_delivers clk tx false false link0 link4); try reflexivity; try done.
  apply Forall_singleton. split_and!; [cbn; lia|reflexivity|vm_compute; discriminate].
Defined.

Lemma ratp_recv_pkt_rejects_witness :
  fst (ratp_recv_pkt clk 100 (conn0, World 0 (map (pair 0)
    (hdr_bytes (ratp_create_packet (ctl true true true) 3) ++
     [Init.Byte.x68; Init.Byte.x69; Init.Byte.x20] ++ be_bytes 2 (CrcItuT.crc_itu_t 0 hello))) [] []))
  = - EBADMSG.
Proof.
  exact (ratp_recv_pkt_rejects clk (ctl true true true) [Init.Byte.x68] Init.Byte.x69 Init.Byte.x21
    Init.Byte.x69 Init.Byte.x20 [] [] 100 conn0 0 [] [] (ctl_ok _ _ _) ltac:(cbn; lia)
    (Forall_nil_2 _) eq_refl ltac:(done)).
Defined.

(** A peer that sends its first message with the packet that ends the
    handshake, and a second one behind it. *)
Definition early_line : list (Z * byte) :=
  map (pair 0) (hdr_bytes (ratp_create_packet RATP_CONTROL_SYN 0) ++
                packet (ctl true true true) hello ++ packet (ctl false true true) hello).

Definition early_establish : option (Z * option conn * wd) :=
  ratp_establish clk tx 9 false 1000 zeros zeros (World 0 early_line [] []).

(** The connection after the handshake, and when the poller calls [ratp_recv]
    for the first time. *)
Definition early_up : conn * wd :=
  match early_establish with
  | Some (_, Some r, w) => (r, w)
  | _ => (conn0, World 0 [] [] [])
  end.

Definition early_conn : conn * wd := snd (ratp_poll clk tx early_up).

Lemma ratp_recv_overruns_witness :
  early_establish = Some (0, Some (fst early_up), snd early_up) /\
  exists n data, fst (ratp_recv early_conn) = Ok (n, data) /\ n = 3 /\ length data = 6%nat.
Proof.
  split; [vm_compute; reflexivity|].
  destruct (ratp_recv_overruns (fst early_conn) (snd early_conn) [] hello None [(hello, true, None)]
    ltac:(vm_compute; reflexivity) ltac:(vm_compute; reflexivity) (Forall_nil_2 _)) as (n & data & Er & Hl).
  exists n, data. replace early_conn with (fst early_conn, snd early_conn) by (by destruct early_conn).
  split; [exact Er|]. clear Hl. vm_compute in Er. by injection Er as <- <-.
Defined.

Lemma ratp_single_octet_witness :
  exists pkt r' w', ratp_poll clk tx (conn0, World 0 (map (pair 0) pkt) [] []) = (0, (r', w')) /\
    recvmsg r' = [Msg (replicate 65 Init.Byte.x00) 65 None true].
Proof.
  pose (r0 := fst (snd (ratp_send_complete (C := nat) (E := Z) [Init.Byte.x41] None (conn0, World 0 [] [] [])))).
  destruct (ratp_single_octet clk tx r0 false false Init.Byte.x41 None [] conn0 [] [] 0 [] [] [] 0)
    as (r0' & e0' & pkt & _ & r' & w' & Er & Hm); [by vm_compute|by vm_compute|by vm_compute|constructor|].
  exists pkt, r', w'. split; [exact Er|]. exact Hm.
Defined.

(** *** Messages in both directions

    The first packet of each side and the second one of [B] are lost or cross.
    The retransmission of [A] carries the acknowledgment number of its first
    transmission. *)

Definition hear (p : list byte) (s : conn * wd) : conn * wd :=
  snd (ratp_poll clk tx (fst s, World (env (snd s)) (map (pair 0) p) [] (completed (snd s)))).

Definition quiet (ns : Z) (s : conn * wd) : conn * wd :=
  snd (ratp_poll clk tx (fst s, World (env (snd s) + ns) [] [] (completed (snd s)))).

Definition queue (data : list byte) (c : nat) (s : conn * wd) : conn * wd :=
  snd (ratp_send_complete data (Some c) s).

Definition out (s : conn * wd) : list byte := nth 0 (sent (snd s)) [].

Definition msg_b1 : list byte := [Init.Byte.x62; Init.Byte.x31].
Definition msg_b2 : list byte := [Init.Byte.x62; Init.Byte.x32].

Definition start : conn * wd := (conn0, World 0 [] [] []).
Definition a1 := quiet 0 (queue hello 10 start).
Definition b1 := quiet 0 (queue msg_b2 2 (queue msg_b1 1 start)).
Definition a2 := hear (out b1) a1.
Definition b2 := hear (out a2) b1.
Definition a3 := quiet (300 * MSECOND) a2.
Definition b3 := hear (out a3) b2.

End Demo.

(** With messages in both directions, two lost packets lose a message.  [A]'s
    first packet is lost; [B]'s first message arrives and is acknowledged; [B]'s
    second packet is lost; then [A] repeats its packet, which still has the
    acknowledgment number of the first transmission.  [B] takes it for the
    acknowledgment of its second message: it reports both messages as delivered
    and has nothing left to send, but [A] got only the first. *)
Theorem ratp_two_way_loss :
  Demo.out Demo.a1 = Demo.out Demo.a3 /\
  completed (snd Demo.b3) = [(1%nat, 0); (2%nat, 0)] /\
  sendmsg (fst Demo.b3) = [] /\ sendmsg_current (fst Demo.b3) = None /\ sendbuf_len (fst Demo.b3) = 0 /\
  map buf (recvmsg (fst Demo.a3)) = [Demo.msg_b1].
Proof. vm_compute. by split_and!. Qed.

End RatpLink.
