(* ===== verification/RatpOpen.v ===== *)
(** * Opening a RATP link

    [ratp_establish] with a timeout returns when a finite number of bytes arrives: the
    clock moves on after some number of looks at it, and no function of the state
    machine sets it back.  Noise that goes on is skipped without a look at the timeout. *)

From stdpp Require Import base list.
From Stdlib Require Import ZArith Lia.
From S2P Require Import Prelude Ratp RatpLink.

Create HintDb mono.

Module RatpOpen.
Import Ratp.

Section Time.

Context {C E : Type}.
Context (clock : E -> Z * E) (transmit : E -> list byte -> Z * E).

(** The clock shows the time of the machine.  It may show the same time again, but at
    most [K] times in a row: [wait] is the number of readings that still do.  Neither
    reading it nor transmitting sets it back. *)
Context (time wait : E -> Z) (K : Z).
Hypothesis clock_shows : forall e, fst (clock e) = time e.
Hypothesis wait_range : forall e, 0 <= wait e < K.
Hypothesis clock_ticks : forall e,
  time e < time (snd (clock e)) \/ time e = time (snd (clock e)) /\ wait (snd (clock e)) < wait e.
Hypothesis transmit_forward : forall e pkt,
  time e < time (snd (transmit e pkt)) \/ time e = time (snd (transmit e pkt)) /\ wait (snd (transmit e pkt)) <= wait e.

(** Time with the readings between two ticks of the clock. *)
Definition pos (e : E) : Z := K * time e + (K - 1 - wait e).

Lemma pos_range e : K * time e <= pos e < K * (time e + 1).
Proof. unfold pos. pose proof (wait_range e). lia. Qed.

Lemma pos_time e e' : pos e <= pos e' -> time e <= time e'.
Proof. intros H. pose proof (pos_range e). pose proof (pos_range e'). pose proof (wait_range e). nia. Qed.

Lemma pos_clock e : pos e < pos (snd (clock e)).
Proof.
  pose proof (wait_range e). pose proof (wait_range (snd (clock e))). unfold pos. destruct (clock_ticks e) as [Ht|[-> Hw]]; [nia|lia].
Qed.

Lemma pos_transmit e pkt : pos e <= pos (snd (transmit e pkt)).
Proof.
  pose proof (wait_range e). pose proof (wait_range (snd (transmit e pkt))). unfold pos.
  destruct (transmit_forward e pkt) as [Ht|[-> Hw]]; [nia|lia].
Qed.

Abbreviation st := (@ratp_internal C * @world C E)%type.

Definition now (s : st) : Z := pos (env (snd s)).
Definition shown (s : st) : Z := time (env (snd s)).

(** The computation does not set the clock back. *)
Definition mono {A} (m : @M C E A) : Prop := forall s, now s <= now (snd (m s)).

Lemma mono_ret {A} (a : A) : mono (ret a).
Proof. intros s. unfold now. cbn. lia. Qed.

Lemma mono_bind {A B} (m : @M C E A) (f : A -> @M C E B) :
  mono m -> (forall a, mono (f a)) -> mono (bind m f).
Proof.
  intros Hm Hf s. unfold bind. specialize (Hm s). destruct (m s) as [a s1]. specialize (Hf a s1).
  cbn in Hm. lia.
Qed.

Lemma mono_modify f : mono (modify f).
Proof. intros [r w]. unfold now. cbn. lia. Qed.

Lemma mono_get : mono get.
Proof. intros s. unfold now. cbn. lia. Qed.

Lemma mono_get_line : mono get_line.
Proof. intros s. unfold now. cbn. lia. Qed.

Lemma mono_put_line l : mono (put_line l).
Proof. intros [r w]. unfold now. cbn. lia. Qed.

Lemma mono_complete c x : mono (call_complete c x).
Proof. intros [r w]. unfold now. cbn. lia. Qed.

Lemma mono_time : mono (get_time_ns clock).
Proof.
  intros [r w]. unfold get_time_ns, now. cbn [snd]. pose proof (pos_clock (env w)).
  destruct (clock (env w)) as [t e]. cbn in *. lia.
Qed.

Lemma mono_xmit pkt : mono (ratp_xmit transmit pkt).
Proof.
  intros [r w]. unfold ratp_xmit, now. cbn [snd]. pose proof (pos_transmit (env w) pkt).
  destruct (transmit (env w) pkt) as [t e]. cbn in *. lia.
Qed.

#[local] Hint Resolve mono_ret mono_modify mono_get mono_get_line mono_put_line mono_complete mono_time
  mono_xmit : mono.

(** Calls of functions that are known, sequences and branches. *)
Ltac mono_tac :=
  repeat first
    [ progress intros
    | solve [auto 1 with mono]
    | match goal with
      | |- mono (bind _ _) => apply mono_bind
      | |- mono (let _ := _ in _) => cbv zeta
      | |- mono (if ?b then _ else _) => destruct b
      | |- mono (match ?c with _ => _ end) => destruct c
      end ].

Lemma mono_timeout a b : mono (is_timeout clock a b).
Proof. unfold is_timeout. mono_tac. Qed.
#[local] Hint Resolve mono_timeout : mono.

Lemma mono_send_pkt p n : mono (ratp_send_pkt clock transmit p n).
Proof. unfold ratp_send_pkt. mono_tac. Qed.
#[local] Hint Resolve mono_send_pkt : mono.

Lemma mono_send_hdr c : mono (ratp_send_hdr clock transmit c).
Proof. apply mono_send_pkt. Qed.
#[local] Hint Resolve mono_send_hdr : mono.

Lemma mono_recv_char_loop a b l : mono (recv_char_loop clock a b l).
Proof. induction l as [|[c d] l IH]; cbn [recv_char_loop]; mono_tac. Qed.
#[local] Hint Resolve mono_recv_char_loop : mono.

Lemma mono_recv_to off tmo : mono (recv_to clock off tmo).
Proof. unfold recv_to, ratp_recv_char. mono_tac. Qed.
#[local] Hint Resolve mono_recv_to : mono.

Lemma mono_recv_synch fuel : mono (recv_synch clock fuel).
Proof. induction fuel as [|fuel IH]; cbn [recv_synch]; mono_tac. Qed.
#[local] Hint Resolve mono_recv_synch : mono.

Lemma mono_recv_bytes off n tmo : mono (recv_bytes clock off n tmo).
Proof. revert off. induction n as [|n IH]; intros off; cbn [recv_bytes]; mono_tac. Qed.
#[local] Hint Resolve mono_recv_bytes : mono.

Lemma mono_recv_pkt tmo : mono (ratp_recv_pkt clock tmo).
Proof. unfold ratp_recv_pkt, ratp_recv_pkt_header, ratp_recv_pkt_data. mono_tac. Qed.
#[local] Hint Resolve mono_recv_pkt : mono.

Lemma mono_send_ack h : mono (ratp_send_ack clock transmit h).
Proof. unfold ratp_send_ack. mono_tac. Qed.
#[local] Hint Resolve mono_send_ack : mono.

Lemma mono_send_next : mono (ratp_send_next_data clock transmit).
Proof. unfold ratp_send_next_data. mono_tac. Qed.
#[local] Hint Resolve mono_send_next : mono.

Lemma mono_msg_done m x : mono (ratp_msg_done clock m x).
Proof. unfold ratp_msg_done. mono_tac. Qed.
#[local] Hint Resolve mono_msg_done : mono.

Lemma mono_time_wait : mono (ratp_start_time_wait_timer clock).
Proof. unfold ratp_start_time_wait_timer. mono_tac. Qed.
#[local] Hint Resolve mono_time_wait : mono.

Lemma mono_data_or_ack h : mono (send_data_or_ack clock transmit h).
Proof. unfold send_data_or_ack. mono_tac. Qed.
#[local] Hint Resolve mono_data_or_ack : mono.

Lemma mono_i1 p : mono (ratp_behaviour_i1 clock transmit p).
Proof. unfold ratp_behaviour_i1, msg_recv. mono_tac. Qed.
#[local] Hint Resolve mono_i1 : mono.

Lemma mono_a p : mono (ratp_behaviour_a clock transmit p).
Proof. unfold ratp_behaviour_a, ratp_state_change. mono_tac. Qed.
#[local] Hint Resolve mono_a : mono.

Lemma mono_b p : mono (ratp_behaviour_b clock transmit p).
Proof. unfold ratp_behaviour_b, ratp_state_change. mono_tac. Qed.
#[local] Hint Resolve mono_b : mono.

Lemma mono_c1 p : mono (ratp_behaviour_c1 clock transmit p).
Proof. unfold ratp_behaviour_c1, ratp_state_change. mono_tac. Qed.
#[local] Hint Resolve mono_c1 : mono.

Lemma mono_c2 p : mono (ratp_behaviour_c2 clock transmit p).
Proof. unfold ratp_behaviour_c2, ratp_state_change. mono_tac. Qed.
#[local] Hint Resolve mono_c2 : mono.

Lemma mono_d1 p : mono (ratp_behaviour_d1 p).
Proof. unfold ratp_behaviour_d1, ratp_state_change. mono_tac. Qed.
#[local] Hint Resolve mono_d1 : mono.

Lemma mono_d2 p : mono (ratp_behaviour_d2 p).
Proof. unfold ratp_behaviour_d2, ratp_state_change. mono_tac. Qed.
#[local] Hint Resolve mono_d2 : mono.

Lemma mono_d3 p : mono (ratp_behaviour_d3 p).
Proof. unfold ratp_behaviour_d3, ratp_state_change. mono_tac. Qed.
#[local] Hint Resolve mono_d3 : mono.

Lemma mono_e p : mono (ratp_behaviour_e clock transmit p).
Proof. unfold ratp_behaviour_e, ratp_state_change. mono_tac. Qed.
#[local] Hint Resolve mono_e : mono.

Lemma mono_f1 p : mono (ratp_behaviour_f1 clock transmit p).
Proof. unfold ratp_behaviour_f1, ratp_state_change. mono_tac. Qed.
#[local] Hint Resolve mono_f1 : mono.

Lemma mono_f2 p : mono (ratp_behaviour_f2 clock p).
Proof. unfold ratp_behaviour_f2, ratp_state_change. mono_tac. Qed.
#[local] Hint Resolve mono_f2 : mono.

Lemma mono_f3 p : mono (ratp_behaviour_f3 p).
Proof. unfold ratp_behaviour_f3, ratp_state_change. mono_tac. Qed.
#[local] Hint Resolve mono_f3 : mono.

Lemma mono_g p : mono (ratp_behaviour_g clock transmit p).
Proof. unfold ratp_behaviour_g, ratp_state_change. mono_tac. Qed.
#[local] Hint Resolve mono_g : mono.

Lemma mono_h1 p : mono (ratp_behaviour_h1 clock transmit p).
Proof. unfold ratp_behaviour_h1, ratp_state_change. mono_tac. Qed.
#[local] Hint Resolve mono_h1 : mono.

Lemma mono_h2 p : mono (ratp_behaviour_h2 clock transmit p).
Proof. unfold ratp_behaviour_h2, ratp_state_change. mono_tac. Qed.
#[local] Hint Resolve mono_h2 : mono.

Lemma mono_h3 p : mono (ratp_behaviour_h3 clock transmit p).
Proof. unfold ratp_behaviour_h3, ratp_state_change. mono_tac. Qed.
#[local] Hint Resolve mono_h3 : mono.

Lemma mono_h4 p : mono (ratp_behaviour_h4 p).
Proof. unfold ratp_behaviour_h4, ratp_state_change. mono_tac. Qed.
#[local] Hint Resolve mono_h4 : mono.

Lemma mono_h5 p : mono (ratp_behaviour_h5 clock p).
Proof. unfold ratp_behaviour_h5, ratp_state_change. mono_tac. Qed.
#[local] Hint Resolve mono_h5 : mono.

Lemma mono_h6 p : mono (ratp_behaviour_h6 clock transmit p).
Proof. unfold ratp_behaviour_h6, ratp_state_change. mono_tac. Qed.
#[local] Hint Resolve mono_h6 : mono.

Lemma mono_machine p : mono (ratp_state_machine clock transmit p).
Proof. unfold ratp_state_machine. mono_tac. Qed.
#[local] Hint Resolve mono_machine : mono.

Lemma mono_poll : mono (ratp_poll clock transmit).
Proof. unfold ratp_poll, poll_packet, poll_transmit. mono_tac. Qed.
#[local] Hint Resolve mono_poll : mono.

(** ** The loop *)

Lemma mono_loop fuel start tmo : mono (establish_loop clock transmit fuel start tmo).
Proof.
  induction fuel as [|fuel IH]; cbn [establish_loop]; mono_tac.
Qed.

(** A look at the clock, with the result of the comparison. *)
Lemma timeout_now start off (s : st) :
  fst (is_timeout clock start off s) = (s64 (start + off - shown s) <? 0) /\
  now s < now (snd (is_timeout clock start off s)).
Proof.
  destruct s as [r w]. unfold is_timeout, bind, get_time_ns, now, shown. cbn [snd].
  pose proof (clock_shows (env w)) as Hs. pose proof (pos_clock (env w)) as Ha.
  destruct (clock (env w)) as [t e]. cbn in *. by subst.
Qed.

Lemma mono_syn : mono (establish_syn clock transmit).
Proof. unfold establish_syn, ratp_state_change. mono_tac. Qed.

Lemma establish_loop_returns fuel : forall start tmo (s : st),
  0 < tmo -> MSECOND * tmo < 2 ^ 62 -> start <= shown s ->
  (0 < fuel)%nat -> K * (start + MSECOND * tmo + 1) - now s < Z.of_nat fuel ->
  shown (snd (establish_loop clock transmit fuel start tmo s)) < start + 2 ^ 62 ->
  fst (establish_loop clock transmit fuel start tmo s) <> None.
Proof.
  induction fuel as [|fuel IH]; intros start tmo s Ht Hm Hs Hf Hfuel; [lia|].
  cbn [establish_loop]. unfold bind at 1. unfold bind at 3.
  pose proof (mono_poll s) as Hpoll. destruct (ratp_poll clock transmit s) as [c s1]. cbn [snd] in Hpoll.
  destruct (c <? 0); [done|]. unfold bind, get. cbn [fst].
  case_bool_decide; [done|]. rewrite (proj2 (Z.eqb_neq tmo 0)) by lia. cbn [negb].
  assert (Hms : 0 < MSECOND * tmo) by (unfold MSECOND; lia).
  rewrite u64_small by lia.
  destruct (timeout_now start (MSECOND * tmo) s1) as [Hto Hadv].
  destruct (is_timeout clock start (MSECOND * tmo) s1) as [t s2]. cbn [fst snd] in *. subst t.
  destruct (s64 _ <? 0) eqn:Eto; [done|]. intros Hend. apply Z.ltb_ge in Eto.
  pose proof (mono_loop fuel start tmo s2) as Hloop.
  assert (H1 : shown s <= shown s1) by (by apply pos_time). assert (H2 : shown s1 <= shown s2) by (apply pos_time; unfold now in Hadv; lia).
  pose proof (pos_time _ _ Hloop) as H3. fold (shown s2) in H3. unfold shown in Hend, H3 |- *.
  unfold shown in *. rewrite s64_small in Eto by lia.
  pose proof (pos_range (env (snd s1))) as [_ Hp]. pose proof (wait_range (env (snd s1))).
  assert (Hk : K * (time (env (snd s1)) + 1) <= K * (start + MSECOND * tmo + 1)) by (apply Z.mul_le_mono_nonneg_l; lia).
  unfold now in *. apply IH; lia.
Qed.

(** C38: [ratp_establish] with a timeout returns when a finite number of bytes arrives
    during the call.  When the clock is never set back and shows the same time at most [K]
    times in a row, and the call does not last 2^62 nanoseconds, [K] rounds for every
    nanosecond of the timeout are enough for a result: the link, an error or [-ETIMEDOUT].
    A line on which noise goes on for ever is not covered; see [ratp_noise_delays]. *)
Theorem ratp_establish_returns fuel act tmo rb sb (w : world) :
  0 < tmo -> MSECOND * tmo < 2 ^ 62 -> K * (MSECOND * tmo + 1) <= Z.of_nat fuel ->
  shown (snd (establish clock transmit fuel tmo (ratp_internal_new (C := C) act rb sb, w)))
    < time (env w) + 2 ^ 62 ->
  ratp_establish clock transmit fuel act tmo rb sb w <> None.
Proof.
  intros Ht Hm Hf Hend. unfold ratp_establish. assert (Hms : 0 < MSECOND * tmo) by (unfold MSECOND; lia).
  pose proof (wait_range (env w)) as Hk. assert (Hf0 : (0 < fuel)%nat) by nia.
  set (s0 := (ratp_internal_new act rb sb, w)) in *.
  assert (Hc : fst (establish clock transmit fuel tmo s0) <> None).
  { revert Hend. unfold establish, bind, modify. cbn [fst snd].
    set (s1 := (set_in_ratp (fst s0) (in_ratp (fst s0) + 1), snd s0)).
    pose proof (mono_syn s1) as Hm1. destruct (establish_syn clock transmit s1) as [u s2]. cbn [snd] in Hm1.
    pose proof (pos_clock (env (snd s2))) as Ha. pose proof (clock_shows (env (snd s2))) as Hsh.
    pose proof (pos_range (env (snd s2))) as [Hr _].
    unfold get_time_ns. destruct s2 as [r2 w2]. cbn [snd] in *.
    destruct (clock (env w2)) as [t e2]. cbn [fst snd] in *. subst t.
    set (s3 := (r2, set_env w2 e2)).
    assert (Hs3 : time (env w2) <= shown s3) by (apply pos_time; change (env (snd s3)) with e2; lia).
    assert (Hfu : K * (time (env w2) + MSECOND * tmo + 1) - now s3 < Z.of_nat fuel) by (unfold now; change (env (snd s3)) with e2; lia).
    pose proof (establish_loop_returns fuel (time (env w2)) tmo s3 Ht Hm Hs3 Hf0 Hfu) as Hret.
    assert (Hw : time (env w) <= time (env w2)) by exact (pos_time _ _ Hm1).
    destruct (establish_loop clock transmit fuel (time (env w2)) tmo s3) as [c s4]. cbn [fst snd] in *.
    intros Hend. apply Hret. unfold shown, ret in *. cbn [snd] in Hend. lia. }
  destruct (establish clock transmit fuel tmo s0) as [[c|] [r w']]; done.
Qed.

(** ** Noise *)

(** The clock is read once for every byte that is skipped, but not compared with the
    timeout of the caller: the search for the start of a packet goes on behind any
    number of other bytes, however long they take. *)
Theorem ratp_noise_delays junk : forall fuel (r : @ratp_internal C) e rest snt cpl,
  Forall (fun b => b <> Init.Byte.x01) junk -> (0 < length (recvbuf r))%nat ->
  exists r' e', pos e + Z.of_nat (length junk) <= pos e' /\
    recv_synch clock (length junk + fuel) (r, World e (map (pair 0) junk ++ rest) snt cpl) =
    recv_synch clock fuel (r', World e' rest snt cpl).
Proof.
  induction junk as [|b junk IH]; intros fuel r e rest snt cpl Hj Hr.
  { exists r, e. split; [cbn; lia|done]. }
  apply Forall_cons in Hj as [Hb Hj]. cbn [length Nat.add map app recv_synch]. unfold bind at 1.
  pose proof (pos_clock e) as Ha.
  assert (Hto : recv_to clock 0 0 (r, World e ((0, b) :: map (pair 0) junk ++ rest) snt cpl) =
    (0, (set_recvbuf r (write_at (recvbuf r) 0 [b]), World (snd (clock e)) (map (pair 0) junk ++ rest) snt cpl))).
  { unfold recv_to, ratp_recv_char, bind, get_time_ns, get_line. cbn [env snd line set_env]. by destruct (clock e). }
  rewrite Hto. cbn [Z.ltb Z.compare]. unfold bind, get. cbn [fst set_recvbuf recvbuf].
  destruct (recvbuf r) as [|b0 rb] eqn:Erb; [cbn in Hr; lia|].
  replace (synch (hdr_of (write_at (b0 :: rb) 0 [b])) =? 1) with false.
  2:{ symmetry. apply Z.eqb_neq. change (byte_val b <> byte_val Init.Byte.x01).
      intros Heq. by apply byte_val_inj in Heq. }
  destruct (IH fuel (set_recvbuf r (write_at (b0 :: rb) 0 [b])) (snd (clock e)) rest snt cpl Hj) as (r' & e' & Hp & E').
  { cbn [set_recvbuf recvbuf]. rewrite length_write_at. done. }
  exists r', e'. split; [lia|exact E'].
Qed.

End Time.

(** ** Concrete links *)

Module Demo.

Import RatpLink RatpLink.Demo.

(** A clock with a period of a millisecond that shows each time three times: the
    environment counts the readings. *)
Definition slow_clk (e : Z) : Z * Z := (e / 3 * MSECOND, e + 1).

Lemma ratp_establish_returns_witness :
  ratp_establish (C := nat) slow_clk tx (Z.to_nat 3000003) true 1 zeros zeros (World 0 [] [] []) <> None.
Proof.
  apply (ratp_establish_returns slow_clk tx (fun e => e / 3 * MSECOND) (fun e => 2 - e mod 3) 3).
  - reflexivity.
  - intros e. pose proof (Z.mod_pos_bound e 3 ltac:(lia)). lia.
  - intros e. unfold slow_clk, MSECOND. cbn [snd]. pose proof (Z.div_mod e 3 ltac:(lia)). pose proof (Z.div_mod (e + 1) 3 ltac:(lia)).
    pose proof (Z.mod_pos_bound e 3 ltac:(lia)). pose proof (Z.mod_pos_bound (e + 1) 3 ltac:(lia)). lia.
  - intros e pkt. right. cbn. lia.
  - lia.
  - unfold MSECOND. lia.
  - rewrite Z2Nat.id by lia. unfold MSECOND. lia.
  - vm_compute. reflexivity.
Defined.

(** The end that opens the link actively keeps its SYN packet in the send buffer
    after it was acknowledged. *)
Definition syn : list byte := hdr_bytes (ratp_create_packet RATP_CONTROL_SYN 0).
Definition passive0 : conn * wd := (ratp_internal_new false zeros zeros, World 0 [] [] []).
Definition active0 : conn * wd :=
  snd (establish_syn clk tx (ratp_internal_new true zeros zeros, World 0 [] [] [])).
Definition passive1 := hear (out active0) passive0.
Definition active1 := hear (out passive1) active0.
Definition passive2 := hear (out active1) passive1.
Definition active2 := quiet (300 * MSECOND) active1.
Definition passive3 := hear (out active2) passive2.

(** After 200 ms without traffic it repeats the SYN, and the other end takes
    that for a crash and closes the established link. *)
Example idle_link_is_reset :
  (state (fst active1), state (fst passive2)) = (RATP_STATE_ESTABLISHED, RATP_STATE_ESTABLISHED) /\
  out active0 = syn /\ out active2 = syn /\
  (state (fst passive3), status (fst passive3)) = (RATP_STATE_CLOSED, - ECONNRESET).
Proof. vm_compute. by split_and!. Qed.

(** A reset that also has the FIN flag leaves the CLOSED state again: behaviour
    D2 does not end the processing of the packet. *)
Example reset_with_fin_reopens :
  state (fst (hear (hdr_bytes (ratp_create_packet
    (Z.lor (Z.lor (ctl true true false) RATP_CONTROL_RST) RATP_CONTROL_FIN) 0)) (conn0, World 0 [] [] [])))
  = RATP_STATE_LAST_ACK.
Proof. vm_compute. reflexivity. Qed.

(** A stray acknowledgment in the LISTEN state is answered with a reset that is
    kept for retransmission like data. *)
Example stray_ack_is_retransmitted :
  let r := fst (hear (hdr_bytes (ratp_create_packet RATP_CONTROL_ACK 0)) passive0) in
  (state r, sendbuf_len r) = (RATP_STATE_LISTEN, 4).
Proof. vm_compute. reflexivity. Qed.

(** The acknowledgment in the TIME-WAIT state has the complement of the number
    received, and no acknowledgment number. *)
Example time_wait_numbers :
  let r := Ri RATP_STATE_TIME_WAIT 0 0 false zeros zeros 0 [] [] None 0 0 100 0 100 200 0 0 in
  hdr_of (out (hear (hdr_bytes (ratp_create_packet (Z.lor (ctl false true false) RATP_CONTROL_FIN) 0))
    (r, World 0 [] [] [])))
  = ratp_create_packet RATP_CONTROL_ACK 0.
Proof. vm_compute. reflexivity. Qed.

End Demo.

End RatpOpen.
