(* ===== verification/Block.v ===== *)
(** * The block layer (common/block.c, include/block.h)

    A block device is read and written through a cache of eight chunks, kept in
    the order of their last use; idle chunks hold nothing.  The model has the
    cache, the byte operations of the character device on top of it, flushing,
    erasing and the discard range, with the driver ([struct block_device_ops])
    as an interface.  The theorems show that the cache is invisible: results are
    those of a plain array of bytes, whatever errors the driver reports, and a
    successful flush makes the device equal to that array. *)

From stdpp Require Import base list sorting.
From Stdlib Require Import ZArith Lia.
From S2P Require Import Prelude.

Module Block.

(** ** Ranges (include/range.h) *)

Definition region_overlap_end_inclusive (starta enda startb endb : Z) : bool :=
  if enda <? startb then false else if endb <? starta then false else true.

Definition region_overlap_end_exclusive (starta enda startb endb : Z) : bool :=
  let enda := u64 (enda - 1) in
  let endb := u64 (endb - 1) in
  if (starta <=? enda) && (startb <=? endb)
  then region_overlap_end_inclusive starta enda startb endb else false.

Definition region_overlap_size (starta lena startb lenb : Z) : bool :=
  if (lena =? 0) || (lenb =? 0) then false
  else region_overlap_end_exclusive starta (u64 (starta + lena)) startb (u64 (startb + lenb)).

(** ** The device *)

Section Block.

(** The state of the driver and its device; the page size of the architecture;
    the configuration. *)
Context {D : Type}.
Context (PAGE_SIZE : Z) (CONFIG_BLOCK_WRITE CONFIG_BLOCK_STATS : bool).

(** [read] gets the buffer and returns its new contents.  Missing operations are
    null pointers. *)
Record block_device_ops := BlkOps {
  op_read : D -> list byte -> Z -> Z -> Z * list byte * D;
  op_write : option (D -> list byte -> Z -> Z -> Z * D);
  op_erase : option (D -> Z -> Z -> Z * D);
  op_flush : option (D -> Z * D)
}.

Record block_device_stats := Stats {
  read_sectors : Z;
  write_sectors : Z;
  erase_sectors : Z
}.

(** [num] tells the chunks apart and serves as the address of the buffer. *)
Record chunk := Chunk {
  data : list byte;
  block_start : Z;
  dirty : bool;
  num : Z
}.

Record block_device := Blk {
  blockbits : Z;
  num_blocks : Z;
  rdbufsize : Z;
  blkmask : Z;
  discard_start : Z;
  discard_size : Z;
  buffered_blocks : list chunk;
  idle_blocks : list chunk;
  need_reparse : bool;
  stats : block_device_stats;
  dev : D
}.

Context (ops : block_device_ops).

Definition BUFSIZE : Z := PAGE_SIZE * 16.

Definition BLOCKSIZE (blk : block_device) : Z := u32 (Z.shiftl 1 (blockbits blk)).

(** *** Field updates *)

Definition set_buffered blk v := Blk (blockbits blk) (num_blocks blk) (rdbufsize blk) (blkmask blk) (discard_start blk) (discard_size blk) v (idle_blocks blk) (need_reparse blk) (stats blk) (dev blk).
Definition set_idle blk v := Blk (blockbits blk) (num_blocks blk) (rdbufsize blk) (blkmask blk) (discard_start blk) (discard_size blk) (buffered_blocks blk) v (need_reparse blk) (stats blk) (dev blk).
Definition set_discard blk s n := Blk (blockbits blk) (num_blocks blk) (rdbufsize blk) (blkmask blk) s n (buffered_blocks blk) (idle_blocks blk) (need_reparse blk) (stats blk) (dev blk).
Definition set_need_reparse blk v := Blk (blockbits blk) (num_blocks blk) (rdbufsize blk) (blkmask blk) (discard_start blk) (discard_size blk) (buffered_blocks blk) (idle_blocks blk) v (stats blk) (dev blk).
Definition set_stats blk v := Blk (blockbits blk) (num_blocks blk) (rdbufsize blk) (blkmask blk) (discard_start blk) (discard_size blk) (buffered_blocks blk) (idle_blocks blk) (need_reparse blk) v (dev blk).
Definition set_dev blk v := Blk (blockbits blk) (num_blocks blk) (rdbufsize blk) (blkmask blk) (discard_start blk) (discard_size blk) (buffered_blocks blk) (idle_blocks blk) (need_reparse blk) (stats blk) v.

Definition set_data c v := Chunk v (block_start c) (dirty c) (num c).
Definition set_block_start c v := Chunk (data c) v (dirty c) (num c).
Definition set_dirty c v := Chunk (data c) (block_start c) v (num c).

(** *** Statistics *)

Definition blk_stats_record_read blk count :=
  if CONFIG_BLOCK_STATS
  then set_stats blk (Stats (u64 (read_sectors (stats blk) + count)) (write_sectors (stats blk)) (erase_sectors (stats blk)))
  else blk.

Definition blk_stats_record_write blk count :=
  if CONFIG_BLOCK_STATS
  then set_stats blk (Stats (read_sectors (stats blk)) (u64 (write_sectors (stats blk) + count)) (erase_sectors (stats blk)))
  else blk.

Definition blk_stats_record_erase blk count :=
  if CONFIG_BLOCK_STATS
  then set_stats blk (Stats (read_sectors (stats blk)) (write_sectors (stats blk)) (u64 (erase_sectors (stats blk) + count)))
  else blk.

(** ** The cache *)

Definition writebuffer_io_nblocks (blk : block_device) (c : chunk) : Z :=
  Z.min (rdbufsize blk) (u64 (num_blocks blk - block_start c)).

Definition chunk_flush (blk : block_device) (c : chunk) : Z * chunk * block_device :=
  if negb (dirty c) then (0, c, blk)
  else match op_write ops with
       | None => (0, c, blk)
       | Some write =>
           let len := writebuffer_io_nblocks blk c in
           let '(ret, d) := write (dev blk) (data c) (block_start c) len in
           let blk := set_dev blk d in
           if ret <? 0 then (ret, c, blk)
           else (0, set_dirty c false, blk_stats_record_write blk len)
       end.

(** The loop of [writebuffer_flush] over the chunks, which stay in place. *)
Fixpoint flush_chunks (blk : block_device) (l : list chunk) : Z * list chunk * block_device :=
  match l with
  | [] => (0, [], blk)
  | c :: l =>
      let '(ret, c, blk) := chunk_flush blk c in
      if ret <? 0 then (ret, c :: l, blk)
      else let '(ret, l, blk) := flush_chunks blk l in (ret, c :: l, blk)
  end.

Definition writebuffer_flush (blk : block_device) : Z * block_device :=
  if negb CONFIG_BLOCK_WRITE then (0, blk)
  else
    let '(ret, l, blk) := flush_chunks blk (buffered_blocks blk) in
    let blk := set_buffered blk l in
    if ret <? 0 then (ret, blk)
    else match op_flush ops with
         | Some flush => let '(ret, d) := flush (dev blk) in (ret, set_dev blk d)
         | None => (0, blk)
         end.

Definition chunk_has (blk : block_device) (block : Z) (c : chunk) : bool :=
  (block_start c <=? block) && (block <? u64 (block_start c + rdbufsize blk)).

(** The first chunk that has the block, and the other ones. *)
Fixpoint chunk_find (blk : block_device) (block : Z) (l : list chunk) : option (chunk * list chunk) :=
  match l with
  | [] => None
  | c :: l =>
      if chunk_has blk block c then Some (c, l)
      else match chunk_find blk block l with
           | Some (c', l) => Some (c', c :: l)
           | None => None
           end
  end.

Definition chunk_get_cached (blk : block_device) (block : Z) : option chunk * block_device :=
  match chunk_find blk block (buffered_blocks blk) with
  | Some (c, l) => (Some c, set_buffered blk (c :: l))
  | None => (None, blk)
  end.

(** A pointer into the buffer of a chunk. *)
Definition ptr : Type := Z * Z.

Definition block_get_cached (blk : block_device) (block : Z) : option ptr * block_device :=
  match chunk_get_cached blk block with
  | (None, blk) => (None, blk)
  | (Some c, blk) => (Some (num c, (block - block_start c) * BLOCKSIZE blk), blk)
  end.

(** [Err 0] stands for what cannot happen: a device without any chunk here, and
    [BUG()] in [block_get]. *)
Definition get_chunk (blk : block_device) : res chunk * block_device :=
  match idle_blocks blk with
  | [] =>
      match last (buffered_blocks blk) with
      | None => (Err 0, blk)
      | Some c =>
          let l := take (length (buffered_blocks blk) - 1) (buffered_blocks blk) in
          let '(ret, c, blk) := chunk_flush blk c in
          if ret <? 0 then (Err ret, set_buffered blk (l ++ [c]))
          else (Ok c, set_buffered blk l)
      end
  | c :: l => (Ok c, set_idle blk l)
  end.

Definition block_cache (blk : block_device) (block : Z) : Z * block_device :=
  match get_chunk blk with
  | (Err e, blk) => (e, blk)
  | (Ok c, blk) =>
      let c := set_block_start c (Z.land block (u64 (Z.lnot (blkmask blk)))) in
      let len := writebuffer_io_nblocks blk c in
      if (u64 (discard_start blk) <=? u64 (block_start c * BLOCKSIZE blk)) &&
         (u64 ((block_start c + len) * BLOCKSIZE blk) <=? u64 (discard_start blk + discard_size blk))
      then
        let zero := replicate (Z.to_nat (Z.shiftl len (blockbits blk))) Init.Byte.x00 in
        (0, set_buffered blk (set_data c (write_at (data c) 0 zero) :: buffered_blocks blk))
      else
        let '(ret, buf, d) := op_read ops (dev blk) (data c) (block_start c) len in
        let c := set_data c buf in
        let blk := set_dev blk d in
        if negb (ret =? 0) then (ret, set_idle blk (idle_blocks blk ++ [c]))
        else
          let blk := blk_stats_record_read blk len in
          (0, set_buffered blk (c :: buffered_blocks blk))
  end.

Definition block_get (blk : block_device) (block : Z) : res ptr * block_device :=
  if num_blocks blk <=? block then (Err (- ENXIO), blk)
  else
    match block_get_cached blk block with
    | (Some p, blk) => (Ok p, blk)
    | (None, blk) =>
        let '(ret, blk) := block_cache blk block in
        if negb (ret =? 0) then (Err ret, blk)
        else match block_get_cached blk block with
             | (Some p, blk) => (Ok p, blk)
             | (None, blk) => (Err 0, blk)
             end
    end.

(** *** Access to the buffers *)

(** [n] bytes from a pointer. *)
Definition ptr_read (blk : block_device) (p : ptr) (n : Z) : list byte :=
  match list_find (fun c => num c = fst p) (buffered_blocks blk) with
  | Some (_, c) => read_at (data c) (Z.to_nat (snd p)) (Z.to_nat n)
  | None => []
  end.

(** [memcpy] to a pointer. *)
Definition ptr_write (blk : block_device) (p : ptr) (src : list byte) : block_device :=
  set_buffered blk
    (map (fun c => if num c =? fst p then set_data c (write_at (data c) (Z.to_nat (snd p)) src) else c)
       (buffered_blocks blk)).

(** ** Operations of the character device *)

(** The loop over whole blocks: the result, the bytes copied, the device. *)
Fixpoint read_blocks (blocks : nat) (blk : block_device) (block : Z) : Z * list byte * block_device :=
  match blocks with
  | O => (0, [], blk)
  | S blocks =>
      match block_get blk block with
      | (Err e, blk) => (e, [], blk)
      | (Ok iobuf, blk) =>
          let d := ptr_read blk iobuf (BLOCKSIZE blk) in
          let '(ret, l, blk) := read_blocks blocks blk (u64 (block + 1)) in
          (ret, d ++ l, blk)
      end
  end.

(** The whole blocks and the beginning of the last one. *)
Definition read_rest (blk : block_device) (count block : Z) : Z * list byte * block_device :=
  let blocks := Z.shiftr count (blockbits blk) in
  let '(ret, d, blk) := read_blocks (Z.to_nat blocks) blk block in
  if negb (ret =? 0) then (ret, d, blk)
  else
    let block := u64 (block + blocks) in
    let count := count - blocks * BLOCKSIZE blk in
    if negb (count =? 0) then
      match block_get blk block with
      | (Err e, blk) => (e, d, blk)
      | (Ok iobuf, blk) => (0, d ++ ptr_read blk iobuf count, blk)
      end
    else (0, d, blk).

Definition block_op_read (blk : block_device) (count offset : Z) : Z * list byte * block_device :=
  let mask := BLOCKSIZE blk - 1 in
  let block := u64 (Z.shiftr offset (blockbits blk)) in
  let icount := count in
  if negb (Z.land offset mask =? 0) then
    let now := BLOCKSIZE blk - Z.land offset mask in
    match block_get blk block with
    | (Err e, blk) => (e, [], blk)
    | (Ok (n, o), blk) =>
        let now := Z.min count now in
        let d := ptr_read blk (n, o + Z.land offset mask) now in
        let '(ret, l, blk) := read_rest blk (count - now) (u64 (block + 1)) in
        (if ret =? 0 then icount else ret, d ++ l, blk)
    end
  else
    let '(ret, l, blk) := read_rest blk count block in
    (if ret =? 0 then icount else ret, l, blk).

(** The source is a buffer elsewhere, of at least a block. *)
Definition block_put (blk : block_device) (buf : list byte) (block : Z) : Z * block_device :=
  if num_blocks blk <=? block then (- EINVAL, blk)
  else
    match block_get blk block with
    | (Err e, blk) => (e, blk)
    | (Ok p, blk) =>
        let blk := ptr_write blk p (take (Z.to_nat (Z.shiftl 1 (blockbits blk))) buf) in
        match chunk_get_cached blk block with
        | (Some _, blk) =>
            match buffered_blocks blk with
            | c :: l => (0, set_buffered blk (set_dirty c true :: l))
            | [] => (0, blk)
            end
        | (None, blk) => (0, blk)
        end
    end.

(** [memcpy(iobuf + o, buf, n); block_put(blk, iobuf, block)] for a part of a block
    that [block_get] returned. *)
Definition put_part (blk : block_device) (iobuf : ptr) (o : Z) (src : list byte) (block : Z)
  : Z * block_device :=
  let blk := ptr_write blk (fst iobuf, snd iobuf + o) src in
  block_put blk (ptr_read blk iobuf (BLOCKSIZE blk)) block.

Fixpoint write_blocks (blocks : nat) (blk : block_device) (buf : list byte) (block : Z) : Z * block_device :=
  match blocks with
  | O => (0, blk)
  | S blocks =>
      let '(ret, blk) := block_put blk buf block in
      if negb (ret =? 0) then (ret, blk)
      else write_blocks blocks blk (drop (Z.to_nat (BLOCKSIZE blk)) buf) (u64 (block + 1))
  end.

Definition write_rest (blk : block_device) (buf : list byte) (count block : Z) : Z * block_device :=
  let blocks := Z.shiftr count (blockbits blk) in
  let '(ret, blk) := write_blocks (Z.to_nat blocks) blk buf block in
  if negb (ret =? 0) then (ret, blk)
  else
    let buf := drop (Z.to_nat (blocks * BLOCKSIZE blk)) buf in
    let block := u64 (block + blocks) in
    let count := count - blocks * BLOCKSIZE blk in
    if negb (count =? 0) then
      match block_get blk block with
      | (Err e, blk) => (e, blk)
      | (Ok iobuf, blk) => put_part blk iobuf 0 (take (Z.to_nat count) buf) block
      end
    else (0, blk).

Definition block_op_write (blk : block_device) (buf : list byte) (offset : Z) : Z * block_device :=
  let count := Z.of_nat (length buf) in
  let mask := BLOCKSIZE blk - 1 in
  let block := u64 (Z.shiftr offset (blockbits blk)) in
  let icount := count in
  let blk := if offset <? 2 * BLOCKSIZE blk then set_need_reparse blk true else blk in
  if negb (Z.land offset mask =? 0) then
    let now := BLOCKSIZE blk - Z.land offset mask in
    match block_get blk block with
    | (Err e, blk) => (e, blk)
    | (Ok iobuf, blk) =>
        let now := Z.min count now in
        let '(ret, blk) := put_part blk iobuf (Z.land offset mask) (take (Z.to_nat now) buf) block in
        if negb (ret =? 0) then (ret, blk)
        else
          let '(ret, blk) := write_rest blk (drop (Z.to_nat now) buf) (count - now) (u64 (block + 1)) in
          (if ret =? 0 then icount else ret, blk)
    end
  else
    let '(ret, blk) := write_rest blk buf count block in
    (if ret =? 0 then icount else ret, blk).

Definition block_op_flush (blk : block_device) : Z * block_device :=
  writebuffer_flush (set_discard blk 0 0).

(** Parsing the partition table is the work of another component. *)
Definition block_op_close (reparse_partition_table : block_device -> block_device) (blk : block_device)
  : Z * block_device :=
  let '(_, blk) := block_op_flush blk in
  if need_reparse blk then (0, set_need_reparse (reparse_partition_table blk) false)
  else (0, blk).

Definition block_op_discard_range (blk : block_device) (count offset : Z) : Z * block_device :=
  (0, set_discard blk offset count).

(** Overlapping chunks are written back and become idle: the result, the chunks
    that stay, the idle ones. *)
Fixpoint erase_chunks (blk : block_device) (offset count : Z) (l idle : list chunk)
  : Z * list chunk * list chunk * block_device :=
  match l with
  | [] => (0, [], idle, blk)
  | c :: l =>
      if region_overlap_size (u64 offset) (u64 count) (block_start c) (rdbufsize blk) then
        let '(ret, c, blk) := chunk_flush blk c in
        if ret <? 0 then (ret, c :: l, idle, blk)
        else erase_chunks blk offset count l (c :: idle)
      else
        let '(ret, l, idle, blk) := erase_chunks blk offset count l idle in
        (ret, c :: l, idle, blk)
  end.

Definition block_op_erase (blk : block_device) (count offset : Z) : Z * block_device :=
  match op_erase ops with
  | None => (- EOPNOTSUPP, blk)
  | Some erase =>
      let count := Z.shiftr count (blockbits blk) in
      let offset := Z.shiftr offset (blockbits blk) in
      let '(ret, l, idle, blk) := erase_chunks blk offset count (buffered_blocks blk) (idle_blocks blk) in
      let blk := set_idle (set_buffered blk l) idle in
      if ret <? 0 then (ret, blk)
      else
        let '(ret, d) := erase (dev blk) (u64 offset) (u64 count) in
        let blk := set_dev blk d in
        if negb (ret =? 0) then (ret, blk) else (0, blk_stats_record_erase blk (u64 count))
  end.

(** ** Registration *)

(** [dma_alloc] returns memory with arbitrary contents; creating the device file
    and parsing the partition table belong to other components. *)
Definition blockdevice_register (dma_alloc : Z -> Z -> list byte) (devfs_create : block_device -> Z)
    (parse_partition_table : block_device -> block_device) (blk : block_device)
  : Z * block_device :=
  let rdbuf := s32 (Z.shiftr BUFSIZE (blockbits blk)) in
  let blk := Blk (blockbits blk) (num_blocks blk) rdbuf (s32 (rdbuf - 1)) (discard_start blk)
               (discard_size blk) [] [] (need_reparse blk) (stats blk) (dev blk) in
  if (rdbufsize blk =? 0) || (blockbits blk <? 9) then (- ENOSYS, blk)
  else
    let blk := set_idle blk (map (fun i => Chunk (dma_alloc i BUFSIZE) 0 false i) [0; 1; 2; 3; 4; 5; 6; 7]) in
    let ret := devfs_create blk in
    if negb (ret =? 0) then (ret, blk) else (0, parse_partition_table blk).

Definition blockdevice_unregister (devfs_remove : block_device -> Z) (blk : block_device) : Z * block_device :=
  let ret := devfs_remove blk in
  if negb (ret =? 0) then (ret, blk)
  else
    let '(_, blk) := writebuffer_flush blk in
    (0, set_idle (set_buffered blk []) []).

(** [cdev_read] and [cdev_write] of the whole device, whose offset is 0. *)
Definition block_read (blk : block_device) (block n : Z) : Z * list byte * block_device :=
  let '(ret, d, blk) := block_op_read blk (u64 (Z.shiftl n (blockbits blk)))
                          (s64 (Z.shiftl block (blockbits blk))) in
  let ret := s32 ret in
  (if ret <? 0 then ret else 0, d, blk).

Definition block_write (blk : block_device) (buf : list byte) (block n : Z) : Z * block_device :=
  if negb CONFIG_BLOCK_WRITE then (- ENOSYS, blk)
  else
    let '(ret, blk) := block_op_write blk (take (Z.to_nat (u64 (Z.shiftl n (blockbits blk)))) buf)
                         (s64 (Z.shiftl block (blockbits blk))) in
    let ret := s32 ret in
    (if ret <? 0 then ret else 0, blk).

(** [blockdevice_size], [blockdevice_round_nblocks] and
    [blockdevice_round_block_nbytes] of include/block.h. *)

Definition blockdevice_size (blk : block_device) : Z := u64 (Z.shiftl (num_blocks blk) (blockbits blk)).

Definition blockdevice_round_nblocks (blk : block_device) (nbytes : Z) : Z :=
  if nbytes =? 0 then 0 else u64 (Z.shiftr (u64 (nbytes - 1)) (blockbits blk) + 1).

Definition blockdevice_round_block_nbytes (blk : block_device) (nbytes : Z) : Z :=
  u64 (Z.shiftl (blockdevice_round_nblocks blk nbytes) (blockbits blk)).

(** ** What a driver promises *)

(** [cells] are the bytes of the device, [erased] is what erasing leaves.  A failed read changes nothing, a failed
    write or erase changes at most the range it was for.  A [healthy] device does
    not fail. *)
Class BlkdevOk (bs nb : Z) := {
  cells : D -> list byte;
  healthy : D -> Prop;
  erased : byte;
  bd_length d : Z.of_nat (length (cells d)) = nb * bs;
  bd_read d buf block n :
    0 <= block -> 0 < n -> block + n <= nb -> n * bs <= Z.of_nat (length buf) ->
    exists ret buf' d', op_read ops d buf block n = (ret, buf', d') /\ ret <= 0 /\
      length buf' = length buf /\ cells d' = cells d /\
      (ret = 0 -> take (Z.to_nat (n * bs)) buf' = read_at (cells d) (Z.to_nat (block * bs)) (Z.to_nat (n * bs))) /\
      (healthy d -> ret = 0 /\ healthy d');
  bd_write : exists write, op_write ops = Some write /\
    forall d buf block n,
    0 <= block -> 0 < n -> block + n <= nb -> n * bs <= Z.of_nat (length buf) ->
    exists ret d', write d buf block n = (ret, d') /\
      (forall i, ~ (Z.to_nat (block * bs) <= i < Z.to_nat (block * bs) + Z.to_nat (n * bs))%nat ->
         cells d' !! i = cells d !! i) /\
      (0 <= ret -> cells d' = write_at (cells d) (Z.to_nat (block * bs)) (take (Z.to_nat (n * bs)) buf)) /\
      (healthy d -> 0 <= ret /\ healthy d');
  bd_erase erase : op_erase ops = Some erase ->
    forall d block n, 0 <= block -> 0 <= n -> block + n <= nb ->
    exists ret d', erase d block n = (ret, d') /\ ret <= 0 /\
      (forall i, ~ (Z.to_nat (block * bs) <= i < Z.to_nat (block * bs) + Z.to_nat (n * bs))%nat ->
         cells d' !! i = cells d !! i) /\
      (ret = 0 -> forall i, (Z.to_nat (block * bs) <= i < Z.to_nat (block * bs) + Z.to_nat (n * bs))%nat ->
         cells d' !! i = Some erased) /\
      (healthy d -> ret = 0 /\ healthy d');
  bd_flush flush : op_flush ops = Some flush ->
    forall d, exists ret d', flush d = (ret, d') /\ ret <= 0 /\ cells d' = cells d /\
      (healthy d -> ret = 0 /\ healthy d')
}.

(** ** The specification: an array of bytes

    A byte that was discarded, or that a failed erase may have changed, has no
    defined value until it is written again.  While a discard range is set, the chunks inside it stay undefined even
    when they are written. *)

Record disk := Disk {
  bytes : list (option byte);
  d_start : Z;
  d_size : Z
}.

Section Inv.

Context (bits nb rb : Z).
Abbreviation bs := (2 ^ bits).
Context `{Hdev : BlkdevOk (2 ^ bits) nb}.

Definition known (dk : disk) (i : nat) (b : byte) : Prop := bytes dk !! i = Some (Some b).

(** The chunk of a byte lies in the discard range. *)
Definition in_discard (dk : disk) (i : nat) : bool :=
  let start := Z.of_nat i / BUFSIZE * BUFSIZE in
  (d_start dk <=? start) && (Z.min (start + BUFSIZE) (nb * bs) <=? d_start dk + d_size dk).

Definition disk_write (dk : disk) (off : nat) (src : list byte) : disk :=
  let new := imap (fun k b => if in_discard dk (off + k) then None else Some b) src in
  Disk (take off (bytes dk) ++ new ++ drop (off + length src) (bytes dk)) (d_start dk) (d_size dk).

Definition disk_undef (dk : disk) (a n : Z) : list (option byte) :=
  imap (fun i v => if (a <=? Z.of_nat i) && (Z.of_nat i <? a + n) then None else v) (bytes dk).

Definition disk_discard (dk : disk) (off n : Z) : disk := Disk (disk_undef dk off n) off n.

Definition disk_erase_failed (dk : disk) (off n : Z) : disk := Disk (disk_undef dk off n) (d_start dk) (d_size dk).

Definition disk_erase (dk : disk) (off n : Z) : disk :=
  Disk (imap (fun i v => if (off <=? Z.of_nat i) && (Z.of_nat i <? off + n)
                         then if in_discard dk i then None else Some erased else v) (bytes dk))
    (d_start dk) (d_size dk).

Definition disk_flush (dk : disk) : disk := Disk (bytes dk) 0 0.

(** ** The invariant *)

Definition base (c : chunk) : nat := Z.to_nat (block_start c * bs).

Definition covers (c : chunk) (i : nat) : Prop := (base c <= i < base c + Z.to_nat BUFSIZE)%nat.

Definition chunk_ok (c : chunk) : Prop :=
  length (data c) = Z.to_nat BUFSIZE /\ 0 <= block_start c < nb /\ (rb | block_start c).

(** What the cache [l] and the device [d] have of the array. *)
Record agree (l : list chunk) (d : D) (dk : disk) : Prop := {
  ag_cached : forall c j b, c ∈ l -> (j < Z.to_nat BUFSIZE)%nat -> known dk (base c + j) b ->
    data c !! j = Some b /\ (dirty c = false -> cells d !! (base c + j)%nat = Some b);
  ag_dev : forall i b, known dk i b -> (forall c, c ∈ l -> ~ covers c i) -> cells d !! i = Some b;
  ag_discard : forall i b, known dk i b -> in_discard dk i = false
}.

(** [held] are chunks in neither list. *)
Record inv (held : list chunk) (blk : block_device) (dk : disk) : Prop := {
  i_bits : blockbits blk = bits;
  i_nb : num_blocks blk = nb;
  i_rb : rdbufsize blk = rb;
  i_mask : blkmask blk = rb - 1;
  i_dstart : discard_start blk = d_start dk;
  i_dsize : discard_size blk = d_size dk;
  i_length : Z.of_nat (length (bytes dk)) = nb * bs;
  i_range : 0 <= d_start dk /\ 0 <= d_size dk /\ d_start dk + d_size dk < 2 ^ 63;
  i_chunks : Forall chunk_ok (buffered_blocks blk);
  i_starts : NoDup (map block_start (buffered_blocks blk));
  i_data : Forall (fun c => length (data c) = Z.to_nat BUFSIZE) (held ++ idle_blocks blk);
  i_nums : NoDup (map num (held ++ buffered_blocks blk ++ idle_blocks blk));
  i_some : (0 < length (held ++ buffered_blocks blk ++ idle_blocks blk))%nat;
  i_agree : agree (buffered_blocks blk) (dev blk) dk
}.

(** The geometry: powers of two, and a size that [loff_t] holds. *)
Record geometry : Prop := {
  g_bits : 9 <= bits < 32;
  g_rb : exists r, 0 <= r < 31 /\ rb = 2 ^ r;
  g_buf : BUFSIZE = rb * bs;
  g_nb : 0 < nb;
  g_size : nb * bs < 2 ^ 63
}.

Context (G : geometry).

(** *** Geometry *)

Lemma bs_pos : 512 <= bs < 2 ^ 32.
Proof.
  destruct (g_bits G). split.
  - change 512 with (2 ^ 9). by apply Z.pow_le_mono_r.
  - by apply Z.pow_lt_mono_r.
Qed.

Lemma rb_pos : 1 <= rb < 2 ^ 31.
Proof.
  destruct (g_rb G) as (r & Hr & ->). split.
  - change 1 with (2 ^ 0). apply Z.pow_le_mono_r; lia.
  - apply Z.pow_lt_mono_r; lia.
Qed.

Lemma bufsize_pos : 0 < BUFSIZE.
Proof. rewrite (g_buf G). pose proof bs_pos. pose proof rb_pos. nia. Qed.

Lemma nb_bound : nb < 2 ^ 54.
Proof. pose proof (g_size G). pose proof bs_pos. nia. Qed.

Lemma BLOCKSIZE_bs blk : blockbits blk = bits -> BLOCKSIZE blk = bs.
Proof.
  intros H. unfold BLOCKSIZE. rewrite H, Z.shiftl_1_l. pose proof bs_pos. apply u32_small. lia.
Qed.

(** [block & ~blkmask] is the first block of the chunk. *)
Lemma chunk_of_block blk dk held block :
  inv held blk dk -> 0 <= block < nb ->
  let s := Z.land block (u64 (Z.lnot (blkmask blk))) in
  0 <= s <= block /\ block < s + rb /\ (rb | s).
Proof.
  intros I Hb s. destruct (g_rb G) as (r & Hr & E). pose proof rb_pos. pose proof nb_bound.
  subst s. unfold u64. rewrite (i_mask _ _ _ I), E, land_lnot_mask by lia. rewrite <- E.
  pose proof (Z.div_mod block rb ltac:(lia)). pose proof (Z.mod_pos_bound block rb ltac:(lia)).
  pose proof (Z.div_pos block rb ltac:(lia) ltac:(lia)).
  split_and!; [nia|lia|lia|]. exists (block / rb). done.
Qed.

(** Two aligned chunks are equal or apart. *)
Lemma aligned_apart a b : (rb | a) -> (rb | b) -> a < b + rb -> b < a + rb -> a = b.
Proof.
  intros [x ->] [y ->] H1 H2. pose proof rb_pos.
  assert (x < y + 1) by nia. assert (y < x + 1) by nia. f_equal. lia.
Qed.

Lemma base_Z c : chunk_ok c -> Z.of_nat (base c) = block_start c * bs.
Proof. intros (_ & Hb & _). unfold base. pose proof bs_pos. rewrite Z2Nat.id; nia. Qed.

Lemma covers_eq c c' i : chunk_ok c -> chunk_ok c' -> covers c i -> covers c' i -> block_start c = block_start c'.
Proof.
  intros H H' [H1 H2] [H3 H4]. pose proof (base_Z c H). pose proof (base_Z c' H').
  destruct H as (_ & _ & Ha), H' as (_ & _ & Ha'). pose proof bufsize_pos. pose proof bs_pos.
  apply aligned_apart; try done; rewrite (g_buf G) in *; nia.
Qed.

(** *** Lists of chunks *)

Lemma agree_perm l l' d dk : l ≡ₚ l' -> agree l d dk -> agree l' d dk.
Proof.
  intros Hp [Hc Hd Hi]. split.
  - intros c j b Hin. apply Hc. by rewrite Hp.
  - intros i b Hk Hn. apply Hd; [done|]. intros c Hin. apply Hn. by rewrite <- Hp.
  - done.
Qed.

Lemma inv_perm held blk dk l :
  inv held blk dk -> buffered_blocks blk ≡ₚ l -> inv held (set_buffered blk l) dk.
Proof.
  intros [] Hp. split; cbn [set_buffered blockbits num_blocks rdbufsize blkmask discard_start discard_size
    buffered_blocks idle_blocks dev]; try done.
  - by rewrite <- Hp.
  - by rewrite <- Hp.
  - by rewrite <- Hp.
  - by rewrite <- Hp.
  - by eapply agree_perm.
Qed.

Lemma inv_stats held blk dk v : inv held blk dk -> inv held (set_stats blk v) dk.
Proof. intros []. by split. Qed.

Lemma inv_reparse held blk dk v : inv held blk dk -> inv held (set_need_reparse blk v) dk.
Proof. intros []. by split. Qed.

(** *** Writing back *)

Definition io_len (c : chunk) : Z := Z.min rb (nb - block_start c).

Lemma io_nblocks blk c :
  rdbufsize blk = rb -> num_blocks blk = nb -> 0 <= block_start c < nb ->
  writebuffer_io_nblocks blk c = io_len c.
Proof.
  intros E1 E2 H. unfold writebuffer_io_nblocks, io_len. rewrite E1, E2, u64_small; [done|].
  pose proof nb_bound. lia.
Qed.

Lemma io_len_bounds c :
  chunk_ok c -> 0 < io_len c /\ block_start c + io_len c <= nb /\ io_len c * bs <= BUFSIZE.
Proof.
  intros (_ & H & _). unfold io_len. pose proof rb_pos. pose proof bs_pos.
  rewrite (g_buf G). split_and!; [lia|lia|nia].
Qed.

(** Bytes of the array in a chunk lie in the part that is read and written. *)
Lemma known_in_io c j :
  chunk_ok c -> (j < Z.to_nat BUFSIZE)%nat -> Z.of_nat (base c + j) < nb * bs ->
  (j < Z.to_nat (io_len c * bs))%nat.
Proof.
  intros Hc Hj Hb. pose proof (base_Z c Hc) as E. rewrite Nat2Z.inj_add, E in Hb.
  rewrite (g_buf G) in Hj. pose proof bs_pos.
  unfold io_len. destruct (Z.min_spec rb (nb - block_start c)) as [[_ ->]|[_ ->]]; nia.
Qed.

Lemma known_bound held blk dk i b : inv held blk dk -> known dk i b -> Z.of_nat i < nb * bs.
Proof. intros I H. apply lookup_lt_Some in H. pose proof (i_length _ _ _ I). lia. Qed.

(** A change of the device inside one chunk of the cache. *)
Lemma agree_touch c c' l d d' dk :
  Forall chunk_ok (c :: l) -> block_start c ∉ map block_start l ->
  (forall i b, known dk i b -> Z.of_nat i < nb * bs) ->
  data c' = data c -> block_start c' = block_start c ->
  (forall i, ~ (base c <= i < base c + Z.to_nat (io_len c * bs))%nat -> cells d' !! i = cells d !! i) ->
  (dirty c' = false ->
     forall j, (j < Z.to_nat (io_len c * bs))%nat -> cells d' !! (base c + j)%nat = data c !! j) ->
  agree (c :: l) d dk -> agree (c' :: l) d' dk.
Proof.
  intros [Hc Hl]%Forall_cons Hnin Hk Ed Es Hout Hin [Ac Ad Ai].
  assert (Eb : base c' = base c) by (unfold base; by rewrite Es).
  assert (Hcov : forall i, (base c <= i < base c + Z.to_nat (io_len c * bs))%nat -> covers c i).
  { intros i Hi. pose proof (io_len_bounds c Hc). unfold covers. lia. }
  split; [|intros i b Hi Hn|done].
  - intros c2 j b [->|H2]%elem_of_cons Hj Hb.
    + rewrite Eb in *. destruct (Ac c j b ltac:(left) Hj Hb) as [E _]. rewrite Ed.
      split; [done|]. intros Hd. rewrite Hin; [done|done|]. eapply known_in_io; eauto.
    + destruct (Ac c2 j b ltac:(by right) Hj Hb) as [E E']. split; [done|]. intros Hd.
      rewrite Hout; [by apply E'|]. intros Hi. apply Hnin.
      rewrite (covers_eq c c2 (base c2 + j)%nat); [|done| |by apply Hcov|unfold covers; lia].
      * by apply list_elem_of_In, in_map, list_elem_of_In.
      * by eapply Forall_forall.
  - rewrite Hout.
    + apply Ad; [done|]. intros c2 [->|H2]%elem_of_cons.
      * rewrite <- Eb in *. intros Hcv. apply (Hn c'); [left|]. unfold covers in *. by rewrite Eb in *.
      * apply Hn. by right.
    + intros Hx%Hcov. apply (Hn c'); [left|]. unfold covers in *. by rewrite Eb.
Qed.

Lemma chunk_flush_spec blk dk c l :
  inv [] (set_buffered blk (c :: l)) dk ->
  exists ret c' d' v, chunk_flush blk c = (ret, c', set_stats (set_dev blk d') v) /\ ret <= 0 /\
    inv [] (set_buffered (set_stats (set_dev blk d') v) (c' :: l)) dk /\
    num c' = num c /\ block_start c' = block_start c /\ data c' = data c /\
    (ret = 0 -> dirty c' = false) /\
    (healthy (dev blk) -> ret = 0 /\ healthy d').
Proof.
  intros I. pose proof (i_chunks _ _ _ I) as Hch. cbn in Hch.
  pose proof (proj1 (proj1 (Forall_cons _ _ _) Hch)) as Hc.
  unfold chunk_flush. destruct (dirty c) eqn:Hd; cbn [negb].
  2:{ exists 0, c, (dev blk), (stats blk). destruct blk. cbn. split_and!; done. }
  destruct bd_write as (write & Ew & Hw). rewrite Ew.
  rewrite io_nblocks by (apply I || apply Hc).
  destruct (io_len_bounds c Hc) as (Hl0 & Hl1 & Hl2). pose proof bufsize_pos.
  destruct (Hw (dev blk) (data c) (block_start c) (io_len c)) as (ret & d' & E & Hout & Hin & Hh);
    [apply Hc|done|done|destruct Hc as [-> _]; lia|].
  rewrite E.
  assert (Hagree : forall c', data c' = data c -> block_start c' = block_start c ->
    (dirty c' = false -> 0 <= ret) -> agree (c' :: l) d' dk).
  { intros c' E1 E2 E3. eapply (agree_touch c c'); try done.
    - pose proof (i_starts _ _ _ I) as Hs. cbn in Hs. by apply NoDup_cons in Hs as [? _].
    - intros i b. by eapply known_bound.
    - intros Hf j Hj. rewrite Hin by auto. pose proof (base_Z c Hc) as Eb.
      pose proof (bd_length (dev blk)) as Hlen. destruct Hc as (Hdl & Hb & _).
      rewrite lookup_write_at by (rewrite length_take; unfold base in Eb; nia).
      rewrite length_take, Hdl. unfold base in *. rewrite decide_True by lia.
      rewrite lookup_take_lt by lia. f_equal. lia.
    - exact (i_agree _ _ _ I). }
  destruct (ret <? 0) eqn:Hr; bool_prop.
  - exists ret, c, d', (stats blk). split_and!; try done; try lia.
    + destruct I; split; cbn in *; try done. apply Hagree; try done. congruence.
    + intros Hhl. destruct (Hh Hhl). lia.
  - exists 0, (set_dirty c false), d', (stats (blk_stats_record_write (set_dev blk d') (io_len c))).
    split_and!; try done.
    + unfold blk_stats_record_write. by destruct CONFIG_BLOCK_STATS.
    + destruct I; split; cbn in *; try done.
      * apply Forall_cons in i_chunks0 as [? ?]. by apply Forall_cons.
      * by apply Hagree.
    + intros Hhl. split; [done|]. by apply Hh.
Qed.

Lemma inv_dev held blk dk d : inv held blk dk -> cells d = cells (dev blk) -> inv held (set_dev blk d) dk.
Proof.
  intros [] E. split; try done. destruct i_agree0 as [H1 H2 H3]. split; [| |done].
  - intros c j b. cbn. rewrite E. apply H1.
  - intros i b. cbn. rewrite E. apply H2.
Qed.

(** *** Moving chunks between the lists *)

Lemma inv_evict blk dk c l :
  inv [] (set_buffered blk (c :: l)) dk -> dirty c = false -> inv [c] (set_buffered blk l) dk.
Proof.
  intros I Hd. pose proof (i_chunks _ _ _ I) as Hch. cbn in Hch.
  apply Forall_cons in Hch as [Hc Hl]. destruct I; split; cbn in *; try done.
  - by apply NoDup_cons in i_starts0 as [_ ?].
  - apply Forall_cons. split; [apply Hc|done].
  - destruct i_agree0 as [H1 H2 H3]. split; [| |done].
    + intros c' j b Hin. apply H1. by right.
    + intros i b Hk Hn. destruct (decide (covers c i)) as [Hcv|Hcv].
      * destruct (H1 c (i - base c)%nat b) as [_ E]; [left|unfold covers in *; lia| |].
        -- replace (base c + (i - base c))%nat with i by (unfold covers in *; lia). done.
        -- rewrite <- E by done. f_equal. unfold covers in *. lia.
      * apply H2; [done|]. intros c' [->|Hin]%elem_of_cons; auto.
Qed.

Lemma inv_take_idle blk dk c l :
  inv [] blk dk -> idle_blocks blk = c :: l -> inv [c] (set_idle blk l) dk.
Proof.
  intros [] E. split; cbn; try done.
  - by rewrite <- E.
  - cbn in i_nums0. rewrite E in i_nums0. rewrite <- map_cons. eapply NoDup_Permutation_proper; [|exact i_nums0].
    apply Permutation_map. by rewrite Permutation_middle.
  - lia.
Qed.

Lemma inv_put_idle blk dk c c' :
  inv [c] blk dk -> num c' = num c -> length (data c') = Z.to_nat BUFSIZE ->
  inv [] (set_idle blk (idle_blocks blk ++ [c'])) dk.
Proof.
  intros [] E Hl. split; cbn; try done.
  - apply Forall_app. cbn in i_data0. apply Forall_cons in i_data0 as [_ ?]. split; [done|].
    by apply Forall_singleton.
  - rewrite app_assoc, map_app. cbn. rewrite E.
    eapply NoDup_Permutation_proper; [|exact i_nums0]. cbn.
    by rewrite <- Permutation_cons_append.
  - rewrite !length_app. cbn. lia.
Qed.

Lemma inv_add blk dk c c' :
  inv [c] blk dk -> num c' = num c -> chunk_ok c' ->
  block_start c' ∉ map block_start (buffered_blocks blk) ->
  (forall j b, (j < Z.to_nat BUFSIZE)%nat -> known dk (base c' + j) b ->
     data c' !! j = Some b /\ cells (dev blk) !! (base c' + j)%nat = Some b) ->
  inv [] (set_buffered blk (c' :: buffered_blocks blk)) dk.
Proof.
  intros [] E Hc Hnin Hk. split; cbn; try done.
  - by apply Forall_cons.
  - by apply NoDup_cons.
  - cbn in i_data0. by apply Forall_cons in i_data0 as [_ ?].
  - rewrite E. exact i_nums0.
  - destruct i_agree0 as [H1 H2 H3]. split; [| |done].
    + intros c2 j b [->|Hin]%elem_of_cons Hj Hb; [|by apply H1].
      destruct (Hk j b Hj Hb). done.
    + intros i b Hb Hn. apply H2; [done|]. intros c2 Hin. apply Hn. by right.
Qed.

(** *** Getting a chunk *)

Lemma last_snoc_inv {A} (l : list A) x : last l = Some x -> l = take (length l - 1) l ++ [x].
Proof.
  intros H. apply last_Some in H as [l' ->]. rewrite length_app. cbn.
  replace (length l' + 1 - 1)%nat with (length l') by lia. by rewrite take_app_length.
Qed.

Lemma get_chunk_spec blk dk :
  inv [] blk dk ->
  exists r blk', get_chunk blk = (r, blk') /\ (healthy (dev blk) -> healthy (dev blk')) /\
    match r with
    | Ok c => inv [c] blk' dk /\ incl (map block_start (buffered_blocks blk')) (map block_start (buffered_blocks blk))
    | Err e => e < 0 /\ inv [] blk' dk /\ ~ healthy (dev blk)
    end.
Proof.
  intros I. unfold get_chunk. destruct (idle_blocks blk) as [|c l] eqn:Ei.
  2:{ exists (Ok c), (set_idle blk l). split_and!; try done; [by apply inv_take_idle|apply incl_refl]. }
  destruct (last (buffered_blocks blk)) as [c|] eqn:El.
  2:{ apply last_None in El. pose proof (i_some _ _ _ I) as H. cbn in H. rewrite Ei, El in H. cbn in H. lia. }
  pose proof (last_snoc_inv _ _ El) as Eb. set (l := take _ _) in *.
  assert (Hp : buffered_blocks blk ≡ₚ c :: l) by (rewrite Eb at 1; by rewrite <- Permutation_cons_append).
  destruct (chunk_flush_spec blk dk c l) as (ret & c' & d' & v & E & Hr & I' & _ & _ & _ & Hd & Hh).
  { by apply inv_perm. }
  rewrite E. destruct (ret <? 0) eqn:Hlt; bool_prop; eexists _, _; (split; [done|]).
  - split; [intros H; by destruct (Hh H)|]. split_and!; [done| |intros H; destruct (Hh H); lia].
    eapply (inv_perm [] (set_buffered _ (c' :: l))) in I'; [exact I'|]. cbn. apply Permutation_cons_append.
  - split; [intros H; by destruct (Hh H)|]. split; [apply inv_evict; [done|apply Hd; lia]|].
    cbn. intros x Hx. apply in_map_iff in Hx as (y & <- & Hy). apply in_map. rewrite Eb.
    apply in_or_app. by left.
Qed.

Lemma chunk_has_iff blk c block :
  rdbufsize blk = rb -> chunk_ok c ->
  chunk_has blk block c = true <-> block_start c <= block < block_start c + rb.
Proof.
  intros E (_ & H & _). pose proof rb_pos. pose proof nb_bound.
  unfold chunk_has. rewrite E, u64_small by lia. lia.
Qed.

Lemma in_discard_chunk dk c i :
  chunk_ok c -> covers c i ->
  in_discard dk i = (d_start dk <=? block_start c * bs) && ((block_start c + io_len c) * bs <=? d_start dk + d_size dk).
Proof.
  intros Hc Hcv. pose proof (base_Z c Hc) as Eb. pose proof bufsize_pos. pose proof bs_pos.
  unfold in_discard. destruct Hcv as [H1 H2]. destruct Hc as (_ & Hs & [q Hq]).
  assert (E : Z.of_nat i / BUFSIZE = q).
  { symmetry. apply Z.div_unique with (Z.of_nat i - q * BUFSIZE); rewrite (g_buf G) in *; nia. }
  rewrite E. replace (q * BUFSIZE) with (block_start c * bs) by (rewrite (g_buf G), Hq; ring).
  f_equal. f_equal. rewrite (g_buf G). unfold io_len. nia.
Qed.

Lemma discard_cond held blk dk c i :
  inv held blk dk -> chunk_ok c -> covers c i ->
  (u64 (discard_start blk) <=? u64 (block_start c * BLOCKSIZE blk)) &&
  (u64 ((block_start c + io_len c) * BLOCKSIZE blk) <=? u64 (discard_start blk + discard_size blk)) =
  in_discard dk i.
Proof.
  intros I Hc Hcv. rewrite (in_discard_chunk dk c i Hc Hcv), BLOCKSIZE_bs by apply I.
  rewrite (i_dstart _ _ _ I), (i_dsize _ _ _ I). pose proof (i_range _ _ _ I). pose proof (g_size G).
  destruct (io_len_bounds c Hc) as (? & ? & _). destruct Hc as (_ & ? & _). pose proof bs_pos.
  rewrite !u64_small by nia. done.
Qed.

(** The chunk of a block that is in no chunk yet. *)
Lemma new_chunk_ok blk dk block c buf :
  inv [c] blk dk -> 0 <= block < nb -> length buf = Z.to_nat BUFSIZE ->
  chunk_ok (set_data (set_block_start c (Z.land block (u64 (Z.lnot (blkmask blk))))) buf).
Proof.
  intros I Hb Hl. destruct (chunk_of_block _ _ _ _ I Hb) as (? & ? & ?).
  repeat split; cbn; try done; lia.
Qed.

Lemma new_chunk_apart blk blk' dk block s :
  inv [] blk dk -> (forall c, c ∈ buffered_blocks blk -> chunk_has blk block c = false) ->
  incl (map block_start (buffered_blocks blk')) (map block_start (buffered_blocks blk)) ->
  s <= block < s + rb -> s ∉ map block_start (buffered_blocks blk').
Proof.
  intros I Hno Hincl Hs Hin. apply list_elem_of_In, Hincl, in_map_iff in Hin as (c & <- & Hc).
  apply list_elem_of_In in Hc. specialize (Hno c Hc).
  pose proof (i_chunks _ _ _ I) as Hch. rewrite Forall_forall in Hch.
  pose proof (proj2 (chunk_has_iff blk c block (i_rb _ _ _ I) (Hch c Hc)) Hs). congruence.
Qed.

Lemma length_held blk dk c : inv [c] blk dk -> length (data c) = Z.to_nat BUFSIZE.
Proof. intros I. pose proof (i_data _ _ _ I) as H. cbn in H. by apply Forall_cons in H as [? _]. Qed.

(** What is read from the device for a chunk that was in no list. *)
Lemma new_chunk_known blk dk c buf held j b :
  inv held blk dk -> chunk_ok c -> block_start c ∉ map block_start (buffered_blocks blk) ->
  (j < Z.to_nat BUFSIZE)%nat -> known dk (base c + j) b ->
  take (Z.to_nat (io_len c * bs)) buf = read_at (cells (dev blk)) (base c) (Z.to_nat (io_len c * bs)) ->
  buf !! j = Some b /\ cells (dev blk) !! (base c + j)%nat = Some b.
Proof.
  intros I Hc Hap Hj Hk Hbuf. pose proof (known_bound _ _ _ _ _ I Hk) as Hkb.
  pose proof (known_in_io c j Hc Hj Hkb) as Hjl.
  assert (Hd : cells (dev blk) !! (base c + j)%nat = Some b).
  { apply (ag_dev _ _ _ (i_agree _ _ _ I)); [done|]. intros c2 Hin Hcv. apply Hap.
    rewrite <- (covers_eq c2 c _ ltac:(by eapply Forall_forall; [apply I|]) Hc Hcv) by (unfold covers; lia).
    by apply list_elem_of_In, in_map, list_elem_of_In. }
  split; [|done]. rewrite <- (lookup_take_lt buf (Z.to_nat (io_len c * bs))) by done.
  by rewrite Hbuf, lookup_read_at, decide_True.
Qed.

Lemma block_cache_spec blk dk block :
  inv [] blk dk -> 0 <= block < nb ->
  (forall c, c ∈ buffered_blocks blk -> chunk_has blk block c = false) ->
  exists ret blk', block_cache blk block = (ret, blk') /\ ret <= 0 /\ inv [] blk' dk /\
    (healthy (dev blk) -> ret = 0 /\ healthy (dev blk')) /\
    (ret = 0 -> exists c l, buffered_blocks blk' = c :: l /\ chunk_has blk' block c = true).
Proof.
  intros I Hb Hno. unfold block_cache.
  destruct (get_chunk_spec blk dk I) as ([c|e] & blk1 & E & Hh & Hpost); rewrite E.
  2:{ destruct Hpost as (He & I' & Hn). exists e, blk1. split_and!; try done; try lia. }
  destruct Hpost as [I1 Hincl]. pose proof (length_held _ _ _ I1) as Hlen.
  destruct (chunk_of_block _ _ _ _ I1 Hb) as (Hs1 & Hs2 & Hs3).
  pose proof (fun buf => new_chunk_ok blk1 dk block c buf I1 Hb) as Hok. set (c1 := set_block_start c _) in *.
  assert (Hap : block_start c1 ∉ map block_start (buffered_blocks blk1)).
  { eapply new_chunk_apart; eauto. cbn. lia. }
  assert (Hc1 : chunk_ok c1) by (specialize (Hok (data c) Hlen); by destruct c).
  rewrite io_nblocks by (apply I1 || apply Hc1). pose proof (io_len_bounds c1 Hc1) as (Hl0 & Hl1 & Hl2).
  rewrite (discard_cond _ _ dk c1 (base c1) I1 Hc1) by (unfold covers; pose proof bufsize_pos; lia).
  assert (Hhas : forall c' d l v, chunk_ok c' -> block_start c' = block_start c1 ->
    chunk_has (set_buffered (set_stats (set_dev blk1 d) v) l) block c' = true).
  { intros c' d l v Hc' E'. apply chunk_has_iff; [apply I1|done|]. rewrite E'. cbn. lia. }
  destruct (in_discard dk (base c1)) eqn:Edisc.
  - eexists 0, _. split; [done|]. split_and!; try done.
    + apply (inv_add _ _ c); [done|done|apply Hok; by rewrite length_write_at|done|].
      intros j b Hj Hk. exfalso. apply (ag_discard _ _ _ (i_agree _ _ _ I1)) in Hk.
      change (base (set_data c1 _)) with (base c1) in Hk. pose proof bufsize_pos.
      rewrite (in_discard_chunk dk c1) in Edisc, Hk by (done || unfold covers; lia). congruence.
    + intros H. split; [done|]. by apply Hh.
    + intros _. eexists _, _. split; [done|].
      apply (Hhas _ (dev blk1) _ (stats blk1)); [apply Hok; by rewrite length_write_at|done].
  - destruct (bd_read (dev blk1) (data c1) (block_start c1) (io_len c1))
      as (ret & buf & d' & Er & Hr & Hlb & Hcells & Hok2 & Hhr);
      [apply Hc1|done|done|pose proof bufsize_pos; cbn [c1 data set_block_start]; lia|].
    rewrite Er. assert (Ibuf : chunk_ok (set_data c1 buf)) by (apply Hok; by rewrite Hlb).
    destruct (ret =? 0) eqn:Hz; cbn [negb]; bool_prop.
    + eexists 0, _. split; [done|]. split_and!; try done.
      * assert (I2 : inv [c] (blk_stats_record_read (set_dev blk1 d') (io_len c1)) dk).
        { unfold blk_stats_record_read. destruct CONFIG_BLOCK_STATS; [apply inv_stats|]; by apply inv_dev. }
        eapply (inv_add _ _ c); [exact I2|done|done| |].
        -- unfold blk_stats_record_read. by destruct CONFIG_BLOCK_STATS.
        -- intros j b Hj Hk. destruct (new_chunk_known _ _ c1 _ _ _ _ I1 Hc1 Hap Hj Hk (Hok2 Hz)) as [? Hd].
           split; [done|]. unfold blk_stats_record_read. destruct CONFIG_BLOCK_STATS; cbn; by rewrite Hcells.
      * intros H. split; [done|]. unfold blk_stats_record_read. destruct CONFIG_BLOCK_STATS; by apply Hhr, Hh.
      * intros _. eexists _, _. split; [done|]. apply chunk_has_iff; [|done|cbn; lia].
        unfold blk_stats_record_read. destruct CONFIG_BLOCK_STATS; apply I1.
    + eexists ret, _. split; [done|]. split_and!; [done| |intros H; by destruct (Hhr (Hh H))|done].
      apply (inv_put_idle (set_dev blk1 d') dk c); [by apply inv_dev|done|apply Ibuf].
Qed.

(** *** Getting a block *)

(** The block is in the first chunk, at [p]. *)
Definition at_head (blk : block_device) (block : Z) (p : ptr) (c : chunk) (l : list chunk) : Prop :=
  buffered_blocks blk = c :: l /\ chunk_has blk block c = true /\
  p = (num c, (block - block_start c) * bs).

Lemma chunk_find_some blk block l c l' :
  chunk_find blk block l = Some (c, l') -> l ≡ₚ c :: l' /\ chunk_has blk block c = true.
Proof.
  revert l'. induction l as [|c0 l IH]; intros l'; cbn; [done|].
  destruct (chunk_has blk block c0) eqn:E; [intros [= <- <-]; done|].
  destruct (chunk_find blk block l) as [[c1 l1]|]; [|done]. intros [= -> <-].
  destruct (IH l1 eq_refl) as [Hp Hh]. split; [|done]. rewrite Hp. apply Permutation_swap.
Qed.

Lemma chunk_find_none blk block l :
  chunk_find blk block l = None -> forall c, c ∈ l -> chunk_has blk block c = false.
Proof.
  induction l as [|c0 l IH]; cbn; [intros _ c H; by apply not_elem_of_nil in H|].
  destruct (chunk_has blk block c0) eqn:E; [done|].
  destruct (chunk_find blk block l) as [[c1 l1]|]; [done|]. intros _ c [->|H]%elem_of_cons; auto.
Qed.

Lemma block_get_cached_spec blk dk block :
  inv [] blk dk ->
  match block_get_cached blk block with
  | (Some p, blk') => inv [] blk' dk /\ dev blk' = dev blk /\ exists c l, at_head blk' block p c l
  | (None, blk') => blk' = blk /\ forall c, c ∈ buffered_blocks blk -> chunk_has blk block c = false
  end.
Proof.
  intros I. unfold block_get_cached, chunk_get_cached.
  destruct (chunk_find blk block (buffered_blocks blk)) as [[c l]|] eqn:E.
  - apply chunk_find_some in E as [Hp Hh]. split; [by apply inv_perm|]. split; [done|].
    exists c, l. split_and!; [done|done|]. by rewrite BLOCKSIZE_bs by apply I.
  - split; [done|]. by apply chunk_find_none.
Qed.

(** A block at the head is found there. *)
Lemma block_get_cached_head blk block p c l :
  blockbits blk = bits -> at_head blk block p c l -> block_get_cached blk block = (Some p, blk).
Proof.
  intros Eb (E & Hh & ->). unfold block_get_cached, chunk_get_cached. rewrite E. cbn. rewrite Hh.
  rewrite BLOCKSIZE_bs by done. destruct blk; cbn in *. by subst.
Qed.

Lemma block_get_spec blk dk block :
  inv [] blk dk -> 0 <= block ->
  exists r blk', block_get blk block = (r, blk') /\ inv [] blk' dk /\
    (healthy (dev blk) -> healthy (dev blk')) /\
    match r with
    | Ok p => block < nb /\ exists c l, at_head blk' block p c l
    | Err e => e < 0 /\ (healthy (dev blk) -> nb <= block)
    end.
Proof.
  intros I H0. unfold block_get. rewrite (i_nb _ _ _ I).
  destruct (nb <=? block) eqn:Hnb; bool_prop.
  { eexists _, _. split; [done|]. split_and!; done. }
  pose proof (block_get_cached_spec blk dk block I) as Hg.
  destruct (block_get_cached blk block) as [[p|] blk1].
  { destruct Hg as (I1 & Hd & Hp). exists (Ok p), blk1. rewrite Hd. split_and!; done. }
  destruct Hg as [-> Hno].
  destruct (block_cache_spec blk dk block I) as (ret & blk2 & E & Hr & I2 & Hh & Hhead); [lia|done|].
  rewrite E. destruct (ret =? 0) eqn:Hz; cbn [negb]; bool_prop.
  - destruct (Hhead Hz) as (c & l & Eb & Hc).
    rewrite (block_get_cached_head blk2 block (num c, (block - block_start c) * bs) c l); [|apply I2|done].
    eexists _, _. split; [done|]. split_and!; [done|intros H; by apply Hh|done|by exists c, l].
  - eexists _, _. split; [done|]. split_and!; [done|intros H; by apply Hh|lia|]. intros H. destruct (Hh H). lia.
Qed.

(** *** Reading *)

(** [d] has the bytes of the array from [off] on. *)
Definition agrees (dk : disk) (off : nat) (d : list byte) : Prop :=
  forall j b, (j < length d)%nat -> known dk (off + j) b -> d !! j = Some b.

Lemma agrees_app dk off d1 d2 :
  agrees dk off d1 -> agrees dk (off + length d1) d2 -> agrees dk off (d1 ++ d2).
Proof.
  intros H1 H2 j b Hj Hk. rewrite length_app in Hj. destruct (decide (j < length d1)%nat).
  - rewrite lookup_app_l by done. by apply H1.
  - rewrite lookup_app_r by lia. apply H2; [lia|]. by replace (off + length d1 + (j - length d1))%nat with (off + j)%nat by lia.
Qed.

Lemma agrees_nil dk off : agrees dk off [].
Proof. intros j b Hj. cbn in Hj. lia. Qed.

(** Facts about the first chunk. *)
Lemma at_head_chunk blk dk block p c l :
  inv [] blk dk -> at_head blk block p c l ->
  chunk_ok c /\ block_start c <= block < block_start c + rb.
Proof.
  intros I (E & Hh & _). pose proof (i_chunks _ _ _ I) as Hch. rewrite E in Hch.
  apply Forall_cons in Hch as [Hc _]. split; [done|]. by apply (chunk_has_iff blk c block (i_rb _ _ _ I) Hc).
Qed.

Lemma head_offset c block o n :
  chunk_ok c -> block_start c <= block < block_start c + rb -> 0 <= o -> 0 <= n -> o + n <= bs ->
  let k := Z.to_nat ((block - block_start c) * bs + o) in
  (k + Z.to_nat n <= Z.to_nat BUFSIZE)%nat /\ (base c + k)%nat = Z.to_nat (block * bs + o).
Proof.
  intros Hc Hb Ho Hn Hon k. pose proof bs_pos. pose proof rb_pos. pose proof (base_Z c Hc) as E.
  subst k. rewrite (g_buf G). assert ((block - block_start c) * bs + o + n <= rb * bs) by nia.
  assert (0 <= (block - block_start c) * bs) by nia. split; [lia|]. apply Nat2Z.inj.
  rewrite Nat2Z.inj_add, E. lia.
Qed.

Lemma ptr_read_head blk dk block p c l o n :
  inv [] blk dk -> at_head blk block p c l -> 0 <= o -> 0 <= n -> o + n <= bs ->
  let d := ptr_read blk (fst p, snd p + o) n in
  Z.of_nat (length d) = n /\ agrees dk (Z.to_nat (block * bs + o)) d.
Proof.
  intros I H Ho Hn Hon. destruct (at_head_chunk _ _ _ _ _ _ I H) as [Hc Hb].
  destruct (head_offset c block o n Hc Hb Ho Hn Hon) as [Hk Eb]. destruct H as (E & _ & ->).
  unfold ptr_read. rewrite E. cbn [fst snd list_find]. rewrite decide_True by done. cbn zeta.
  destruct Hc as [Hlen _]. rewrite length_read_at by lia. split; [lia|].
  intros j b Hj Hkn. rewrite length_read_at in Hj by lia. rewrite lookup_read_at, decide_True by done.
  rewrite <- Eb in Hkn. rewrite <- Nat.add_assoc in Hkn.
  apply (ag_cached _ _ _ (i_agree _ _ _ I) c); [rewrite E; left|lia|done].
Qed.

(** The outcome of reading [n] bytes at [off]: a result that is 0 or an error. *)
Definition read_post (blk : block_device) (dk : disk) (off n : Z) (out : Z * list byte * block_device) : Prop :=
  let '(ret, d, blk') := out in
  inv [] blk' dk /\ (healthy (dev blk) -> healthy (dev blk')) /\ ret <= 0 /\
  (ret = 0 -> Z.of_nat (length d) = n /\ agrees dk (Z.to_nat off) d /\ (0 < n -> off + n <= nb * bs)) /\
  (healthy (dev blk) -> off + n <= nb * bs -> ret = 0).

Lemma read_post_nil blk dk off : inv [] blk dk -> read_post blk dk off 0 (0, [], blk).
Proof. intros I. split_and!; try done. intros _. split_and!; [done|apply agrees_nil|lia]. Qed.

(** Two reads one after the other. *)
Lemma read_post_seq blk dk off n blk1 d1 n2 ret d2 blk2 :
  0 <= off -> 0 <= n -> 0 <= n2 ->
  read_post blk dk off n (0, d1, blk1) -> read_post blk1 dk (off + n) n2 (ret, d2, blk2) ->
  read_post blk dk off (n + n2) (ret, d1 ++ d2, blk2).
Proof.
  intros Ho Hn Hn2 (I1 & Hh1 & _ & H1 & _) (I2 & Hh2 & Hr & H2 & Hs). split_and!; auto.
  - intros E. destruct (H1 eq_refl) as (L1 & A1 & B1), (H2 E) as (L2 & A2 & B2).
    rewrite length_app. split_and!; [lia| |intros; destruct (decide (n2 = 0)); lia].
    apply agrees_app; [done|]. by replace (Z.to_nat off + length d1)%nat with (Z.to_nat (off + n)) by lia.
  - intros H Hb. apply Hs; [auto|lia].
Qed.

Lemma read_part blk dk block o n p blk' :
  inv [] blk dk -> 0 <= block -> 0 <= o -> 0 <= n -> o + n <= bs ->
  block_get blk block = (Ok p, blk') ->
  read_post blk dk (block * bs + o) n (0, ptr_read blk' (fst p, snd p + o) n, blk').
Proof.
  intros I Hb Ho Hn Hon E. destruct (block_get_spec blk dk block I Hb) as (r & b' & E' & I' & Hh & Hp).
  rewrite E in E'. injection E' as <- <-. destruct Hp as [Hnb (c & l & Hhead)].
  destruct (ptr_read_head _ _ _ _ _ _ _ _ I' Hhead Ho Hn Hon) as [Hl Ha].
  split_and!; try done. intros _. split_and!; [done|done|]. intros _. pose proof bs_pos. nia.
Qed.

Lemma read_failed blk dk block off n e blk' :
  inv [] blk dk -> 0 <= block -> block * bs < off + n ->
  block_get blk block = (Err e, blk') -> read_post blk dk off n (e, [], blk').
Proof.
  intros I Hb Hn E. destruct (block_get_spec blk dk block I Hb) as (r & b' & E' & I' & Hh & Hp).
  rewrite E in E'. injection E' as <- <-. destruct Hp as [He Hnb].
  split_and!; try done; try lia. intros H Hle. specialize (Hnb H). pose proof bs_pos. nia.
Qed.

Lemma read_post_fail blk dk off n n2 ret d d' blk' :
  ret <> 0 -> 0 <= n2 -> read_post blk dk off n (ret, d, blk') -> read_post blk dk off (n + n2) (ret, d', blk').
Proof.
  intros Hz Hn (I & Hh & Hr & _ & Hs). split_and!; try done.
  intros H Hb. apply Hs; [done|lia].
Qed.

Lemma read_blocks_spec n : forall blk dk block,
  inv [] blk dk -> 0 <= block -> block + Z.of_nat n < 2 ^ 63 ->
  read_post blk dk (block * bs) (Z.of_nat n * bs) (read_blocks n blk block).
Proof.
  induction n as [|n IH]; intros blk dk block I H0 Hb; [by apply read_post_nil|].
  pose proof bs_pos. cbn [read_blocks]. destruct (block_get blk block) as [[p|e] blk1] eqn:E.
  - pose proof (read_part blk dk block 0 bs p blk1 I H0 ltac:(lia) ltac:(lia) ltac:(lia) E) as Hp.
    rewrite !Z.add_0_r in Hp. pose proof Hp as (I1 & _). rewrite <- surjective_pairing in Hp.
    rewrite BLOCKSIZE_bs, u64_small by (apply I1 || lia).
    specialize (IH blk1 dk (block + 1) I1 ltac:(lia) ltac:(lia)).
    destruct (read_blocks n blk1 (block + 1)) as [[ret l] blk2].
    replace (Z.of_nat (S n) * bs) with (bs + Z.of_nat n * bs) by nia.
    apply read_post_seq with blk1; [nia|nia|nia|done|]. by replace (block * bs + bs) with ((block + 1) * bs) by ring.
  - eapply read_failed; eauto; nia.
Qed.

Lemma read_rest_spec blk dk count block :
  inv [] blk dk -> 0 <= block -> 0 <= count -> block * bs + count < 2 ^ 63 ->
  read_post blk dk (block * bs) count (read_rest blk count block).
Proof.
  intros I Hb Hc Hlt. pose proof bs_pos. unfold read_rest. rewrite (i_bits _ _ _ I), Z.shiftr_div_pow2 by (pose proof (g_bits G); lia).
  pose proof (Z.div_mod count bs ltac:(lia)) as Hdm. pose proof (Z.mod_pos_bound count bs ltac:(lia)) as Hm.
  set (q := count / bs) in *. set (r := count mod bs) in *.
  assert (Hq : 0 <= q) by (apply Z.div_pos; lia). assert (Hbq : block + q < 2 ^ 63) by nia.
  pose proof (read_blocks_spec (Z.to_nat q) blk dk block I Hb ltac:(lia)) as Hr.
  rewrite Z2Nat.id in Hr by done.
  destruct (read_blocks (Z.to_nat q) blk block) as [[ret d] blk1].
  replace count with (q * bs + r) at 1 by lia.
  destruct (ret =? 0) eqn:Hz; cbn [negb]; bool_prop; [subst ret|by eapply read_post_fail; eauto; lia].
  pose proof Hr as (I1 & _). rewrite BLOCKSIZE_bs, u64_small by (apply I1 || nia).
  replace (count - q * bs) with r by lia.
  destruct (r =? 0) eqn:Hrz; cbn [negb]; bool_prop.
  - rewrite Hrz, Z.add_0_r. done.
  - destruct (block_get blk1 (block + q)) as [[p|e] blk2] eqn:E.
    + apply read_post_seq with blk1; [nia..|done|].
      pose proof (read_part blk1 dk (block + q) 0 r p blk2 I1 ltac:(lia) ltac:(lia) ltac:(lia) ltac:(lia) E) as Hp.
      rewrite !Z.add_0_r, <- surjective_pairing in Hp. by replace (block * bs + q * bs) with ((block + q) * bs) by ring.
    + rewrite <- (app_nil_r d). apply read_post_seq with blk1; [nia..|done|].
      apply read_failed with (block + q); [done|lia|rewrite Z.mul_add_distr_r; lia|done].
Qed.

Lemma offset_split offset :
  0 <= offset < 2 ^ 63 ->
  let block := u64 (Z.shiftr offset bits) in
  let o := Z.land offset (bs - 1) in
  0 <= block /\ 0 <= o < bs /\ offset = block * bs + o.
Proof.
  intros H block o. pose proof bs_pos. pose proof (g_bits G). subst block o.
  rewrite Z.sub_1_r, <- Z.ones_equiv, Z.land_ones, Z.shiftr_div_pow2 by lia.
  pose proof (Z.div_mod offset bs ltac:(lia)). pose proof (Z.mod_pos_bound offset bs ltac:(lia)).
  pose proof (Z.div_pos offset bs ltac:(lia) ltac:(lia)).
  rewrite u64_small by nia. split_and!; lia.
Qed.

Lemma block_op_read_spec blk dk count offset :
  inv [] blk dk -> 0 <= offset -> 0 <= count -> offset + count < 2 ^ 63 ->
  exists ret d blk', read_post blk dk offset count (ret, d, blk') /\
    block_op_read blk count offset = (if ret =? 0 then count else ret, d, blk').
Proof.
  intros I Ho Hc Hlt. unfold block_op_read. rewrite BLOCKSIZE_bs, (i_bits _ _ _ I) by apply I.
  destruct (offset_split offset ltac:(lia)) as (Hb & Hm & Es).
  set (block := u64 _) in *. set (o := Z.land _ _) in *.
  destruct (o =? 0) eqn:Hz; cbn [negb]; bool_prop.
  - pose proof (read_rest_spec blk dk count block I Hb Hc ltac:(lia)) as Hr.
    destruct (read_rest blk count block) as [[ret d] blk']. exists ret, d, blk'. split; [|done].
    by replace offset with (block * bs) by lia.
  - destruct (block_get blk block) as [[[n p]|e] blk1] eqn:E.
    + set (now := Z.min count (bs - o)).
      pose proof (read_part blk dk block o now (n, p) blk1 I Hb ltac:(lia) ltac:(lia) ltac:(lia) E) as Hp.
      pose proof Hp as (I1 & _). rewrite u64_small by (pose proof bs_pos; nia). rewrite <- Es in Hp.
      (* the rest starts at the next block, or nothing is left *)
      assert (Hr : read_post blk1 dk (offset + now) (count - now) (read_rest blk1 (count - now) (block + 1))).
      { destruct (decide (now = count)) as [->|Hne].
        - rewrite Z.sub_diag. unfold read_rest. rewrite Z.shiftr_0_l. cbn. by apply read_post_nil.
        - replace (offset + now) with ((block + 1) * bs) by lia. apply read_rest_spec; lia || done. }
      destruct (read_rest blk1 (count - now) (block + 1)) as [[ret d] blk2].
      exists ret, (ptr_read blk1 (n, p + o) now ++ d), blk2. split; [|done].
      replace count with (now + (count - now)) by lia. by apply read_post_seq with blk1; [lia..|done|].
    + exists e, [], blk1. destruct (block_get_spec blk dk block I Hb) as (r & b' & E' & I' & Hh & Hp).
      rewrite E in E'. injection E' as <- <-. destruct Hp as [He _].
      replace (e =? 0) with false by lia. split; [|done]. eapply read_failed; eauto; lia.
Qed.

(** *** Writing to the array *)

Lemma lookup_disk_write dk off src i :
  (off + length src <= length (bytes dk))%nat ->
  bytes (disk_write dk off src) !! i =
  if decide (off <= i < off + length src)%nat
  then (fun b => if in_discard dk i then None else Some b) <$> src !! (i - off)%nat
  else bytes dk !! i.
Proof.
  intros H. unfold disk_write. cbn [bytes]. case_decide as Hi.
  - rewrite lookup_app_r by (rewrite length_take; lia). rewrite length_take, Nat.min_l by lia.
    rewrite lookup_app_l by (rewrite length_imap; lia). rewrite list_lookup_imap.
    by replace (off + (i - off))%nat with i by lia.
  - destruct (decide (i < off)%nat).
    + rewrite lookup_app_l by (rewrite length_take; lia). by rewrite lookup_take_lt.
    + rewrite lookup_app_r by (rewrite length_take; lia). rewrite length_take, Nat.min_l by lia.
      rewrite lookup_app_r by (rewrite length_imap; lia). rewrite length_imap, lookup_drop. f_equal. lia.
Qed.

Lemma length_disk_write dk off src :
  (off + length src <= length (bytes dk))%nat -> length (bytes (disk_write dk off src)) = length (bytes dk).
Proof.
  intros H. unfold disk_write. cbn [bytes].
  rewrite !length_app, length_take, length_imap, length_drop. lia.
Qed.

Lemma disk_write_nil dk off : disk_write dk off [] = dk.
Proof. unfold disk_write. cbn. rewrite Nat.add_0_r, take_drop. by destruct dk. Qed.

Lemma disk_write_app dk off a b :
  (off + length a + length b <= length (bytes dk))%nat ->
  disk_write dk off (a ++ b) = disk_write (disk_write dk off a) (off + length a) b.
Proof.
  intros H.
  assert (E : bytes (disk_write dk off (a ++ b)) = bytes (disk_write (disk_write dk off a) (off + length a) b)).
  { apply list_eq. intros i.
    rewrite !lookup_disk_write by (rewrite ?length_disk_write, ?length_app by lia; lia).
    rewrite length_app. repeat case_decide; try lia; try done.
    - rewrite lookup_app_r by lia. by replace (i - off - length a)%nat with (i - (off + length a))%nat by lia.
    - by rewrite lookup_app_l by lia. }
  unfold disk_write in *. cbn [bytes] in *. by rewrite E.
Qed.

(** A write to the first chunk is a write to the array. *)
Lemma inv_write blk dk c l k src :
  inv [] blk dk -> buffered_blocks blk = c :: l ->
  (k + length src <= Z.to_nat BUFSIZE)%nat -> Z.of_nat (base c + k + length src) <= nb * bs ->
  inv [] (set_buffered blk (set_dirty (set_data c (write_at (data c) k src)) true :: l))
    (disk_write dk (base c + k) src).
Proof.
  intros I E Hk Hb. pose proof (i_length _ _ _ I) as Hlen.
  pose proof (i_chunks _ _ _ I) as Hch. rewrite E in Hch. apply Forall_cons in Hch as [Hc Hl].
  set (c' := set_dirty _ true). assert (Hc' : chunk_ok c') by (destruct Hc; split; cbn; [by rewrite length_write_at|done]).
  assert (Hlk := fun i => lookup_disk_write dk (base c + k) src i ltac:(lia)).
  destruct I; rewrite E in *; split; cbn -[disk_write] in *; try done.
  - rewrite length_disk_write by lia. done.
  - by apply Forall_cons.
  - destruct i_agree0 as [H1 H2 H3]. destruct Hc as [Hcl Hc].
    apply NoDup_cons in i_starts0 as [Hnin _]. split.
    + intros c2 j b [->|Hin]%elem_of_cons Hj; unfold known; rewrite Hlk; [|case_decide as Hd].
      * change (data c') with (write_at (data c) k src). change (base c') with (base c).
        change (dirty c') with true. rewrite lookup_write_at by lia.
        repeat case_decide; try lia.
        -- replace (base c + j - (base c + k))%nat with (j - k)%nat by lia.
           destruct (src !! (j - k)%nat) as [x|]; cbn; [|done]. destruct in_discard; [done|]. intros [= ->]. done.
        -- intros Hb'. destruct (H1 c j b ltac:(left) Hj Hb'). done.
      * exfalso. apply Hnin. rewrite (covers_eq c c2 (base c2 + j)%nat); [|done| |unfold covers; lia..].
        -- by apply list_elem_of_In, in_map, list_elem_of_In.
        -- by eapply Forall_forall.
      * apply H1; [by right|done].
    + intros i b. unfold known. rewrite Hlk. case_decide as Hd; intros Hb' Hn.
      * exfalso. apply (Hn c'); [left|]. unfold covers. change (base c') with (base c). lia.
      * apply H2; [done|]. intros c2 [->|Hin]%elem_of_cons; [|apply Hn; by right].
        intros Hcv. apply (Hn c'); [left|exact Hcv].
    + intros i b. unfold known. rewrite Hlk. case_decide as Hd; [|apply H3].
      change (in_discard (disk_write dk (base c + k) src) i) with (in_discard dk i).
      destruct (in_discard dk i); [|done]. destruct (src !! _); done.
Qed.

(** *** Writing through the cache *)

Definition put_chunk (c : chunk) (k : Z) (src : list byte) : chunk :=
  set_data c (write_at (data c) (Z.to_nat k) src).

Lemma head_num blk dk block p c l : inv [] blk dk -> at_head blk block p c l -> num c ∉ map num l.
Proof.
  intros I (E & _ & _). pose proof (i_nums _ _ _ I) as Hn. rewrite E in Hn. cbn in Hn.
  apply NoDup_cons in Hn as [Hn _]. intros Hin. apply Hn. rewrite map_app. apply elem_of_app. by left.
Qed.

Lemma ptr_write_head blk block p c l o src :
  at_head blk block p c l -> num c ∉ map num l ->
  ptr_write blk (fst p, snd p + o) src = set_buffered blk (put_chunk c (snd p + o) src :: l).
Proof.
  intros (E & _ & ->) Hn. unfold ptr_write. rewrite E. cbn [map fst snd]. rewrite Z.eqb_refl. do 2 f_equal.
  rewrite <- (map_id l) at 2. apply map_ext_in. intros c' Hin.
  destruct (num c' =? num c) eqn:En; [|done]. bool_prop. exfalso. apply Hn. rewrite <- En.
  by apply list_elem_of_In, in_map.
Qed.

(** [block_put] after the block was found. *)
Lemma block_put_head blk block p c l buf blk0 :
  blockbits blk = bits -> at_head blk block p c l -> num c ∉ map num l ->
  0 <= block < nb -> num_blocks blk0 = nb ->
  block_get blk0 block = (Ok p, blk) ->
  block_put blk0 buf block =
  (0, set_buffered blk (set_dirty (put_chunk c (snd p) (take (Z.to_nat bs) buf)) true :: l)).
Proof.
  intros Hbits H Hnum Hb En E. unfold block_put. rewrite En, E. replace (nb <=? block) with false by lia.
  pose proof (ptr_write_head _ _ _ _ _ 0 (take (Z.to_nat bs) buf) H Hnum) as Hw.
  rewrite Z.add_0_r, <- surjective_pairing in Hw. rewrite Hbits, Z.shiftl_1_l, Hw.
  destruct H as (Eb & Hh & ->). unfold chunk_get_cached. cbn [buffered_blocks set_buffered chunk_find].
  change (chunk_has (set_buffered blk _) block (put_chunk c _ _)) with (chunk_has blk block c). by rewrite Hh.
Qed.

Lemma block_get_head blk block p c l :
  blockbits blk = bits -> num_blocks blk = nb -> at_head blk block p c l -> block < nb ->
  block_get blk block = (Ok p, blk).
Proof.
  intros Eb En H Hb. unfold block_get. rewrite En. replace (nb <=? block) with false by lia.
  by rewrite (block_get_cached_head blk block p c l).
Qed.

(** The outcome of writing [src] at [off]: a result that is 0 or an error, and a
    prefix of the data in the array, all of it on success. *)
Definition write_post (blk : block_device) (dk : disk) (off : Z) (src : list byte) (out : Z * block_device) : Prop :=
  let '(ret, blk') := out in
  (healthy (dev blk) -> healthy (dev blk')) /\ ret <= 0 /\
  (exists m, (m <= length src)%nat /\ ((0 < m)%nat -> off + Z.of_nat m <= nb * bs) /\
     inv [] blk' (disk_write dk (Z.to_nat off) (take m src)) /\ (ret = 0 -> m = length src)) /\
  (healthy (dev blk) -> off + Z.of_nat (length src) <= nb * bs -> ret = 0).

Lemma write_post_nil blk dk off : inv [] blk dk -> write_post blk dk off [] (0, blk).
Proof.
  intros I. split_and!; try done. exists 0%nat. split_and!; try done; [lia|]. by rewrite disk_write_nil.
Qed.

Lemma write_post_seq blk dk off a b blk1 out :
  0 <= off -> inv [] blk dk -> write_post blk dk off a (0, blk1) ->
  (inv [] blk1 (disk_write dk (Z.to_nat off) a) ->
   write_post blk1 (disk_write dk (Z.to_nat off) a) (off + Z.of_nat (length a)) b out) ->
  write_post blk dk off (a ++ b) out.
Proof.
  intros Ho I (Hh & _ & (m & Hm & Hmb & I1 & Em) & _) H2. specialize (Em eq_refl). subst m.
  rewrite take_ge in I1 by lia. specialize (H2 I1). destruct out as [ret blk2].
  destruct H2 as (Hh2 & Hr & (m & Hm2 & Hmb2 & I2 & Em2) & Hs). pose proof (i_length _ _ _ I) as Hlen.
  split_and!; [auto|done| |].
  - exists (length a + m)%nat. rewrite length_app. split_and!; [lia| | |intros E; rewrite (Em2 E); lia].
    + intros Hp. destruct (decide (m = 0%nat)); [|lia]. destruct (decide (length a = 0%nat)); lia.
    + assert (Hfit : (Z.to_nat off + length a + length (take m b) <= length (bytes dk))%nat \/ a ++ take m b = []).
      { rewrite length_take. destruct m; [|left; lia]. destruct a; [by right|left; cbn in *; lia]. }
      rewrite take_app_add. destruct Hfit as [Hfit|Hnil].
      * rewrite disk_write_app by done.
        by replace (Z.to_nat off + length a)%nat with (Z.to_nat (off + Z.of_nat (length a))) by lia.
      * apply app_eq_nil in Hnil as [-> E]. rewrite E, !disk_write_nil in *. done.
  - intros H Hb. rewrite length_app in Hb. apply Hs; [auto|lia].
Qed.

Lemma write_post_fail blk dk off a b ret blk' :
  ret <> 0 -> write_post blk dk off a (ret, blk') -> write_post blk dk off (a ++ b) (ret, blk').
Proof.
  intros Hz (Hh & Hr & (m & Hm & Hmb & I1 & Em) & Hs). split_and!; [done|done| |].
  - exists m. rewrite length_app. split_and!; [lia|done| |done]. by rewrite take_app_le by lia.
  - intros H Hb. rewrite length_app in Hb. apply Hs; [done|lia].
Qed.

Lemma write_failed blk dk block off src e blk' :
  inv [] blk dk -> 0 <= block -> block * bs < off + Z.of_nat (length src) ->
  block_get blk block = (Err e, blk') -> write_post blk dk off src (e, blk').
Proof.
  intros I Hb Hn E. destruct (block_get_spec blk dk block I Hb) as (r & b' & E' & I' & Hh & Hp).
  rewrite E in E'. injection E' as <- <-. destruct Hp as [He Hnb].
  split_and!; [done|lia| |].
  - exists 0%nat. rewrite take_0, disk_write_nil. split_and!; [lia|lia|done|lia].
  - intros H Hle. specialize (Hnb H). pose proof bs_pos. nia.
Qed.

(** A successful write of [src] at [o] of the block at the head. *)
Lemma write_head_post blk0 blk dk block p c l o src :
  inv [] blk dk -> at_head blk block p c l -> 0 <= block < nb -> 0 <= o -> o + Z.of_nat (length src) <= bs ->
  (healthy (dev blk0) -> healthy (dev blk)) ->
  write_post blk0 dk (block * bs + o) src
    (0, set_buffered blk (set_dirty (put_chunk c (snd p + o) src) true :: l)).
Proof.
  intros I H Hb Ho Hn Hh. destruct (at_head_chunk _ _ _ _ _ _ I H) as [Hc Hcb].
  destruct (head_offset c block o (Z.of_nat (length src)) Hc Hcb Ho ltac:(lia) Hn) as [Hk Eb].
  destruct H as (E & _ & ->). cbn [snd]. pose proof bs_pos.
  split_and!; [done|done| |done]. exists (length src). rewrite take_ge by lia.
  split_and!; [lia|nia| |done]. rewrite <- Eb. apply inv_write; [done|done|lia|nia].
Qed.

Lemma block_put_spec blk dk buf block :
  inv [] blk dk -> 0 <= block -> bs <= Z.of_nat (length buf) ->
  write_post blk dk (block * bs) (take (Z.to_nat bs) buf) (block_put blk buf block).
Proof.
  intros I Hb Hl. pose proof bs_pos.
  assert (Hlen : length (take (Z.to_nat bs) buf) = Z.to_nat bs) by (rewrite length_take; lia).
  destruct (block_get_spec blk dk block I Hb) as (r & blk' & E & I' & Hh & Hp).
  destruct (decide (block < nb)) as [Hnb|Hnb].
  - destruct r as [p|e].
    + destruct Hp as [_ (c & l & Hhead)].
      rewrite (block_put_head blk' block p c l buf blk); try done; try apply I; try apply I'; [|by eapply head_num].
      pose proof (write_head_post blk blk' dk block p c l 0 (take (Z.to_nat bs) buf) I' Hhead) as W.
      rewrite !Z.add_0_r in W. apply W; try done; lia.
    + unfold block_put. rewrite (i_nb _ _ _ I). replace (nb <=? block) with false by lia. rewrite E.
      eapply write_failed; eauto. lia.
  - unfold block_put. rewrite (i_nb _ _ _ I). replace (nb <=? block) with true by lia.
    split_and!; try done.
    + exists 0%nat. rewrite take_0, disk_write_nil. split_and!; [lia|lia|done|done].
    + intros _ Hle. nia.
Qed.

Lemma write_at_read_at_same (l : list byte) k n : (k + n <= length l)%nat -> write_at l k (read_at l k n) = l.
Proof.
  intros H. apply list_eq. intros i. rewrite lookup_write_at by (rewrite length_read_at; lia).
  rewrite length_read_at, lookup_read_at by lia. repeat case_decide; try lia; [|done]. f_equal. lia.
Qed.

Lemma put_part_spec blk0 blk dk block p o src :
  inv [] blk0 dk -> 0 <= block -> 0 <= o -> o + Z.of_nat (length src) <= bs ->
  block_get blk0 block = (Ok p, blk) ->
  write_post blk0 dk (block * bs + o) src (put_part blk p o src block).
Proof.
  intros I Hb Ho Hn E. destruct (block_get_spec blk0 dk block I Hb) as (r & b' & E' & I' & Hh & Hp).
  rewrite E in E'. injection E' as <- <-. destruct Hp as [Hnb (c & l & Hhead)].
  pose proof (head_num _ _ _ _ _ _ I' Hhead) as Hnum.
  unfold put_part. rewrite (ptr_write_head blk block p c l) by done.
  set (c1 := put_chunk c (snd p + o) src). set (blk1 := set_buffered blk (c1 :: l)).
  assert (H1 : at_head blk1 block p c1 l) by (destruct Hhead as (? & ? & ->); done).
  rewrite (block_put_head blk1 block p c1 l _ blk1); try done; try apply I';
    [|apply (block_get_head blk1 block p c1 l); try done; apply I'].
  assert (Ec : put_chunk c1 (snd p) (take (Z.to_nat bs) (ptr_read blk1 p (BLOCKSIZE blk1))) = c1).
  { destruct (at_head_chunk _ _ _ _ _ _ I' Hhead) as [Hc Hcb]. pose proof bs_pos.
    destruct (head_offset c block 0 bs Hc Hcb) as [Hk _]; [lia..|].
    unfold ptr_read. rewrite BLOCKSIZE_bs by apply I'. cbn [buffered_blocks set_buffered blk1 list_find].
    assert (Ep : p = (num c, (block - block_start c) * bs)) by apply Hhead.
    rewrite decide_True by (by rewrite Ep). rewrite Z.add_0_r in Hk. replace (snd p) with ((block - block_start c) * bs) by (by rewrite Ep).
    unfold put_chunk at 1. rewrite take_ge by (unfold read_at; rewrite length_take; lia).
    rewrite write_at_read_at_same; [by destruct c|].
    replace (data c1) with (write_at (data c) (Z.to_nat (snd p + o)) src) by done. rewrite length_write_at.
    destruct Hc as [-> _]. lia. }
  rewrite Ec. apply (write_head_post blk0 blk dk block p c l o src); done || lia.
Qed.

Lemma take_app_drop {A} n m (l : list A) : take (n + m) l = take n l ++ take m (drop n l).
Proof. by rewrite take_take_drop. Qed.

Lemma write_blocks_spec n : forall blk dk buf block,
  inv [] blk dk -> 0 <= block -> block + Z.of_nat n < 2 ^ 63 -> Z.of_nat n * bs <= Z.of_nat (length buf) ->
  write_post blk dk (block * bs) (take (Z.to_nat (Z.of_nat n * bs)) buf) (write_blocks n blk buf block).
Proof.
  induction n as [|n IH]; intros blk dk buf block I H0 Hb Hl; [by apply write_post_nil|].
  pose proof bs_pos. cbn [write_blocks].
  pose proof (block_put_spec blk dk buf block I H0 ltac:(nia)) as Hp.
  replace (Z.to_nat (Z.of_nat (S n) * bs)) with (Z.to_nat bs + Z.to_nat (Z.of_nat n * bs))%nat by lia.
  rewrite take_app_drop.
  destruct (block_put blk buf block) as [ret blk1]. destruct (ret =? 0) eqn:Hz; cbn [negb]; bool_prop.
  2:{ by apply write_post_fail. }
  subst ret. apply write_post_seq with blk1; [nia|done|done|]. intros I1.
  rewrite BLOCKSIZE_bs, u64_small by (apply I1 || lia). rewrite length_take, Nat.min_l by lia.
  replace (block * bs + Z.of_nat (Z.to_nat bs)) with ((block + 1) * bs) by lia.
  apply IH; [done|lia|lia|]. rewrite length_drop. lia.
Qed.

Lemma write_rest_spec blk dk buf block :
  inv [] blk dk -> 0 <= block -> block * bs + Z.of_nat (length buf) < 2 ^ 63 ->
  write_post blk dk (block * bs) buf (write_rest blk buf (Z.of_nat (length buf)) block).
Proof.
  intros I Hb Hlt. pose proof bs_pos. unfold write_rest.
  rewrite (i_bits _ _ _ I), Z.shiftr_div_pow2 by (pose proof (g_bits G); lia).
  set (count := Z.of_nat (length buf)) in *.
  pose proof (Z.div_mod count bs ltac:(lia)) as Hdm. pose proof (Z.mod_pos_bound count bs ltac:(lia)) as Hm.
  set (q := count / bs) in *. set (r := count mod bs) in *.
  assert (Hq : 0 <= q) by (apply Z.div_pos; lia). assert (Hbq : block + q < 2 ^ 63) by nia.
  pose proof (write_blocks_spec (Z.to_nat q) blk dk buf block I Hb ltac:(lia) ltac:(lia)) as Hw.
  rewrite Z2Nat.id in Hw by done. rewrite <- (take_drop (Z.to_nat (q * bs)) buf) at 1.
  destruct (write_blocks (Z.to_nat q) blk buf block) as [ret blk1].
  destruct (ret =? 0) eqn:Hz; cbn [negb]; bool_prop; [subst ret|by apply write_post_fail].
  apply write_post_seq with blk1; [nia|done|done|]. intros I1.
  rewrite BLOCKSIZE_bs, u64_small by (apply I1 || nia). rewrite length_take, Nat.min_l, Z2Nat.id by lia.
  replace (count - q * bs) with r by lia.
  assert (Hld : length (drop (Z.to_nat (q * bs)) buf) = Z.to_nat r) by (rewrite length_drop; lia).
  rewrite (take_ge (drop _ _)) by lia. rewrite <- Z.mul_add_distr_r.
  destruct (r =? 0) eqn:Hrz; cbn [negb]; bool_prop.
  - rewrite drop_ge by lia. by apply write_post_nil.
  - destruct (block_get blk1 (block + q)) as [[p|e] blk2] eqn:E.
    + rewrite <- (Z.add_0_r ((block + q) * bs)). apply (put_part_spec blk1); done || lia.
    + apply write_failed with (block + q); done || lia.
Qed.

Lemma block_op_write_spec blk dk buf offset :
  inv [] blk dk -> 0 <= offset -> offset + Z.of_nat (length buf) < 2 ^ 63 ->
  exists ret blk', write_post blk dk offset buf (ret, blk') /\
    block_op_write blk buf offset = (if ret =? 0 then Z.of_nat (length buf) else ret, blk').
Proof.
  intros I0 Ho Hlt. unfold block_op_write. cbn zeta. rewrite BLOCKSIZE_bs, (i_bits _ _ _ I0) by apply I0.
  set (blkr := if _ <? _ then _ else _).
  assert (I : inv [] blkr dk) by (unfold blkr; destruct (_ <? _); [by apply inv_reparse|done]).
  assert (Hpost : forall out, write_post blkr dk offset buf out -> write_post blk dk offset buf out).
  { intros out. unfold blkr, write_post. by destruct (_ <? _). }
  rewrite BLOCKSIZE_bs by apply I. destruct (offset_split offset ltac:(lia)) as (Hb & Hm & Es).
  set (block := u64 _) in *. set (o := Z.land _ _) in *.
  destruct (o =? 0) eqn:Hz; cbn [negb]; bool_prop.
  - pose proof (write_rest_spec blkr dk buf block I Hb ltac:(lia)) as Hr.
    destruct (write_rest blkr buf _ block) as [ret blk']. exists ret, blk'. split; [|done].
    apply Hpost. by replace offset with (block * bs) by lia.
  - destruct (block_get blkr block) as [[p|e] blk1] eqn:E.
    + set (now := Z.min _ (bs - o)). set (n := Z.to_nat now).
      assert (Hn : length (take n buf) = n) by (rewrite length_take; lia).
      pose proof (put_part_spec blkr blk1 dk block p o (take n buf) I Hb ltac:(lia) ltac:(lia) E) as Hp.
      rewrite <- Es in Hp. destruct (put_part blk1 p o (take n buf) block) as [ret blk2].
      destruct (ret =? 0) eqn:Hz2; cbn [negb]; bool_prop.
      2:{ exists ret, blk2. replace (ret =? 0) with false by lia. split; [|done]. apply Hpost.
          rewrite <- (take_drop n buf). by apply write_post_fail. }
      subst ret. rewrite u64_small by (pose proof bs_pos; nia).
      assert (Hr : inv [] blk2 (disk_write dk (Z.to_nat offset) (take n buf)) ->
        write_post blk2 (disk_write dk (Z.to_nat offset) (take n buf)) (offset + Z.of_nat (length (take n buf)))
          (drop n buf) (write_rest blk2 (drop n buf) (Z.of_nat (length buf) - now) (block + 1))).
      { intros I2. replace (Z.of_nat (length buf) - now) with (Z.of_nat (length (drop n buf)))
          by (rewrite length_drop; lia). rewrite Hn.
        destruct (decide (now = Z.of_nat (length buf))) as [Ee|Hne].
        - rewrite drop_ge by lia. unfold write_rest. cbn [length]. rewrite Z.shiftr_0_l. cbn. by apply write_post_nil.
        - replace (offset + Z.of_nat n) with ((block + 1) * bs) by lia.
          apply write_rest_spec; [done|lia|]. rewrite length_drop. lia. }
      destruct (write_rest blk2 (drop n buf) _ (block + 1)) as [ret blk3]. exists ret, blk3. split; [|done].
      apply Hpost. rewrite <- (take_drop n buf). by apply write_post_seq with blk2.
    + destruct (block_get_spec blkr dk block I Hb) as (r & b' & E' & I' & Hh & Hp).
      rewrite E in E'. injection E' as <- <-. destruct Hp as [He _].
      exists e, blk1. replace (e =? 0) with false by lia. split; [|done]. apply Hpost.
      eapply write_failed; eauto; lia.
Qed.

(** *** Flushing *)

(** The device has the bytes of the array. *)
Definition durable (d : D) (dk : disk) : Prop := agrees dk 0 (cells d).

Lemma flush_chunks_spec l : forall blk dk pre,
  inv [] (set_buffered blk (pre ++ l)) dk -> Forall (fun c => dirty c = false) pre ->
  exists ret l' d' v, flush_chunks blk l = (ret, l', set_stats (set_dev blk d') v) /\ ret <= 0 /\
    inv [] (set_buffered (set_stats (set_dev blk d') v) (pre ++ l')) dk /\
    (ret = 0 -> Forall (fun c => dirty c = false) (pre ++ l')) /\
    (healthy (dev blk) -> ret = 0 /\ healthy d').
Proof.
  induction l as [|c l IH]; intros blk dk pre I Hpre; cbn [flush_chunks].
  { exists 0, [], (dev blk), (stats blk). rewrite app_nil_r in *. destruct blk; cbn. split_and!; done. }
  assert (Ic : inv [] (set_buffered blk (c :: pre ++ l)) dk).
  { eapply (inv_perm _ (set_buffered blk (pre ++ c :: l))); [done|]. cbn. by rewrite Permutation_middle. }
  destruct (chunk_flush_spec blk dk c (pre ++ l) Ic) as (ret & c' & d1 & v1 & E & Hr & I1 & _ & _ & _ & Hd & Hh).
  rewrite E. set (blk1 := set_stats (set_dev blk d1) v1) in *. destruct (ret <? 0) eqn:Hz; bool_prop.
  - exists ret, (c' :: l), d1, v1. split_and!; [done|lia| |lia|done].
    eapply (inv_perm _ (set_buffered blk1 (c' :: pre ++ l))); [done|]. cbn. by rewrite Permutation_middle.
  - assert (I2 : inv [] (set_buffered blk1 ((pre ++ [c']) ++ l)) dk).
    { eapply (inv_perm _ (set_buffered blk1 (c' :: pre ++ l))); [done|]. cbn.
      rewrite <- app_assoc. cbn. by rewrite Permutation_middle. }
    destruct (IH blk1 dk (pre ++ [c']) I2) as (ret2 & l2 & d2 & v2 & E2 & Hr2 & I3 & Hd2 & Hh2).
    { apply Forall_app. split; [done|]. apply Forall_singleton, Hd. lia. }
    rewrite E2. exists ret2, (c' :: l2), d2, v2. rewrite <- app_assoc in I3, Hd2. split_and!; try done.
    intros H. apply Hh2. by apply Hh.
Qed.

Lemma clean_durable blk dk :
  inv [] blk dk -> Forall (fun c => dirty c = false) (buffered_blocks blk) -> durable (dev blk) dk.
Proof.
  intros I Hf i b Hi Hk. cbn in Hk. destruct (i_agree _ _ _ I) as [H1 H2 _].
  destruct (decide (Exists (fun c => covers c i) (buffered_blocks blk))) as [He|Hn].
  - apply Exists_exists in He as (c & Hin & [Ha Hb]).
    destruct (H1 c (i - base c)%nat b Hin) as [_ E]; [lia| |].
    + by replace (base c + (i - base c))%nat with i by lia.
    + rewrite Forall_forall in Hf. specialize (E (Hf c Hin)). rewrite <- E. f_equal. lia.
  - apply H2; [done|]. intros c Hin Hc. apply Hn, Exists_exists. by exists c.
Qed.

Lemma inv_set_discard blk dk s n bytes' :
  inv [] blk dk -> length bytes' = length (bytes dk) ->
  (forall i b, bytes' !! i = Some (Some b) -> known dk i b /\ in_discard (Disk bytes' s n) i = false) ->
  0 <= s -> 0 <= n -> s + n < 2 ^ 63 -> inv [] (set_discard blk s n) (Disk bytes' s n).
Proof.
  intros [] Hl Hk Hs Hn Hsn. split; cbn; try done; [by rewrite Hl|].
  destruct i_agree0 as [H1 H2 H3]. split.
  - intros c j b Hin Hj Hb. apply H1; [done|done|]. by apply Hk.
  - intros i b Hb. apply H2. by apply Hk.
  - intros i b Hb. exact (proj2 (Hk i b Hb)).
Qed.

Context (HW : CONFIG_BLOCK_WRITE = true).

Lemma block_op_flush_spec blk dk :
  inv [] blk dk ->
  exists ret blk', block_op_flush blk = (ret, blk') /\ ret <= 0 /\ inv [] blk' (disk_flush dk) /\
    (ret = 0 -> durable (dev blk') dk) /\ (healthy (dev blk) -> ret = 0 /\ healthy (dev blk')).
Proof.
  intros I. assert (I0 : inv [] (set_discard blk 0 0) (disk_flush dk)).
  { apply (inv_set_discard blk dk 0 0 (bytes dk)); try done. intros i b Hb. split; [done|]. unfold in_discard. cbn [d_start d_size].
    pose proof bufsize_pos. pose proof (g_nb G). pose proof bs_pos.
    pose proof (Z.div_pos (Z.of_nat i) BUFSIZE ltac:(lia) ltac:(lia)). nia. }
  unfold block_op_flush, writebuffer_flush. rewrite HW. cbn [negb]. set (blk0 := set_discard blk 0 0) in *.
  destruct (flush_chunks_spec (buffered_blocks blk0) blk0 (disk_flush dk) []) as (ret & l & d & v & E & Hr & I1 & Hc & Hh).
  { by destruct blk. } { done. }
  rewrite E. cbn [app] in *. set (blk1 := set_buffered _ l) in *. destruct (ret <? 0) eqn:Hz; bool_prop.
  { exists ret, blk1. split_and!; try done; lia. }
  assert (Hdur : durable d dk) by (apply (clean_durable blk1 (disk_flush dk)); [done|apply Hc; lia]).
  destruct (op_flush ops) as [flush|] eqn:Ef.
  - destruct (bd_flush flush Ef (dev blk1)) as (ret2 & d2 & E2 & Hr2 & Hcells & Hh2). rewrite E2.
    exists ret2, (set_dev blk1 d2). split_and!; try done; [by apply inv_dev| |].
    + intros _. unfold durable. cbn. by rewrite Hcells.
    + intros H. apply Hh2. by apply Hh.
  - exists 0, blk1. split_and!; try done. intros H. split; [done|]. by apply Hh.
Qed.

(** *** Discarding and erasing *)

Lemma lookup_disk_undef dk a n i b :
  disk_undef dk a n !! i = Some (Some b) -> known dk i b /\ ~ a <= Z.of_nat i < a + n.
Proof.
  unfold disk_undef. rewrite list_lookup_imap. unfold known. destruct (bytes dk !! i) as [v|]; cbn; [|done].
  destruct ((a <=? Z.of_nat i) && (Z.of_nat i <? a + n)) eqn:E; [done|]. intros [= ->]. split; [done|]. lia.
Qed.

Lemma inv_discard blk dk off n :
  inv [] blk dk -> 0 <= off -> 0 <= n -> off + n < 2 ^ 63 ->
  inv [] (set_discard blk off n) (disk_discard dk off n).
Proof.
  intros I Ho Hn Hs. apply (inv_set_discard blk dk); try done.
  { unfold disk_undef. by rewrite length_imap. }
  intros i b [Hk Hi]%lookup_disk_undef. split; [done|]. pose proof (known_bound _ _ _ _ _ I Hk) as Hb.
  unfold in_discard. cbn [d_start d_size]. pose proof bufsize_pos.
  pose proof (Z.div_mod (Z.of_nat i) BUFSIZE ltac:(lia)). pose proof (Z.mod_pos_bound (Z.of_nat i) BUFSIZE ltac:(lia)).
  nia.
Qed.

Lemma inv_undef blk dk a n d' :
  inv [] blk dk ->
  (forall i, ~ a <= Z.of_nat i < a + n -> cells d' !! i = cells (dev blk) !! i) ->
  inv [] (set_dev blk d') (disk_erase_failed dk a n).
Proof.
  intros I Hd. destruct I. split; cbn; try done.
  { unfold disk_undef. by rewrite length_imap. }
  destruct i_agree0 as [H1 H2 H3]. split.
  - intros c j b Hin Hj [Hk Hi]%lookup_disk_undef. destruct (H1 c j b Hin Hj Hk) as [E E'].
    split; [done|]. intros Hf. rewrite Hd by done. by apply E'.
  - intros i b [Hk Hi]%lookup_disk_undef Hn. rewrite Hd by done. by apply H2.
  - intros i b [Hk _]%lookup_disk_undef. by apply (H3 i b).
Qed.

Lemma known_erase dk a n i b :
  known (disk_erase dk a n) i b ->
  in_discard dk i = false /\ b = erased /\ a <= Z.of_nat i < a + n \/
  known dk i b /\ ~ a <= Z.of_nat i < a + n.
Proof.
  unfold known, disk_erase. cbn [bytes]. rewrite list_lookup_imap.
  destruct (bytes dk !! i) as [v|]; cbn; [|done].
  destruct ((a <=? Z.of_nat i) && (Z.of_nat i <? a + n)) eqn:E.
  - destruct (in_discard dk i); [done|]. intros [= <-]. left. split_and!; done || lia.
  - intros [= ->]. right. split; [done|lia].
Qed.

(** An erased range that no chunk of the cache touches. *)
Lemma inv_erase blk dk a n d' :
  inv [] blk dk ->
  (forall i, ~ a <= Z.of_nat i < a + n -> cells d' !! i = cells (dev blk) !! i) ->
  (forall i, a <= Z.of_nat i < a + n -> cells d' !! i = Some erased) ->
  (forall c i, c ∈ buffered_blocks blk -> covers c i -> ~ a <= Z.of_nat i < a + n) ->
  inv [] (set_dev blk d') (disk_erase dk a n).
Proof.
  intros I Hd He Hno. destruct I. split; cbn; try done; [by rewrite length_imap|].
  destruct i_agree0 as [H1 H2 H3]. split.
  - intros c j b Hin Hj [(_ & _ & Hi)|[Hk Hi]]%known_erase.
    + exfalso. apply (Hno c (base c + j)%nat Hin); [unfold covers; lia|done].
    + destruct (H1 c j b Hin Hj Hk) as [E E']. split; [done|]. intros Hf. rewrite Hd by done. by apply E'.
  - intros i b [(_ & -> & Hi)|[Hk Hi]]%known_erase Hn; [by apply He|]. rewrite Hd by done. by apply H2.
  - intros i b [(Hf & _)|[Hk _]]%known_erase; [done|]. by apply (H3 i b).
Qed.

Definition overlap (blk : block_device) (offset count : Z) (c : chunk) : bool :=
  region_overlap_size (u64 offset) (u64 count) (block_start c) (rdbufsize blk).

Lemma overlap_iff blk offset count c :
  rdbufsize blk = rb -> chunk_ok c -> 0 <= offset -> 0 <= count -> offset + count <= nb ->
  overlap blk offset count c = false -> forall i, covers c i -> ~ offset * bs <= Z.of_nat i < offset * bs + count * bs.
Proof.
  intros Er Hc Ho Hn Hle Hov i [H1 H2] Hi. pose proof (base_Z c Hc) as Eb. destruct Hc as (_ & Hs & _).
  pose proof rb_pos. pose proof nb_bound. pose proof bs_pos. pose proof bufsize_pos. rewrite (g_buf G) in *.
  unfold overlap, region_overlap_size in Hov. rewrite Er, !u64_small in Hov by lia.
  assert (count <> 0) by nia. replace ((count =? 0) || (rb =? 0)) with false in Hov by lia.
  unfold region_overlap_end_exclusive in Hov. rewrite !u64_small in Hov by lia.
  replace ((offset <=? offset + count - 1) && (block_start c <=? block_start c + rb - 1)) with true in Hov by lia.
  unfold region_overlap_end_inclusive in Hov.
  destruct (offset + count - 1 <? block_start c) eqn:E1; bool_prop; [nia|].
  destruct (block_start c + rb - 1 <? offset) eqn:E2; bool_prop; [nia|done].
Qed.

Lemma inv_push_idle blk dk c idle :
  inv [c] (set_idle blk idle) dk -> inv [] (set_idle blk (c :: idle)) dk.
Proof.
  intros []. split; cbn in *; try done.
  - eapply NoDup_Permutation_proper; [|exact i_nums0]. rewrite <- map_cons.
    apply Permutation_map. by rewrite Permutation_middle.
  - rewrite length_app in *. cbn. lia.
Qed.

Lemma chunk_flush_set_idle blk idle c ret c' d v :
  chunk_flush (set_idle blk idle) c = (ret, c', set_stats (set_dev (set_idle blk idle) d) v) ->
  chunk_flush blk c = (ret, c', set_stats (set_dev blk d) v).
Proof.
  unfold chunk_flush, blk_stats_record_write, writebuffer_io_nblocks. destruct blk; cbn.
  unfold set_stats, set_dev. cbn. destruct (dirty c); cbn; [|by intros [=]; subst].
  destruct (op_write ops) as [write|]; [|by intros [=]; subst].
  destruct (write _ _ _ _) as [r e]. destruct (r <? 0); [by intros [=]; subst|].
  destruct CONFIG_BLOCK_STATS; cbn; by intros [=]; subst.
Qed.

Lemma erase_chunks_spec l : forall blk dk pre idle offset count,
  inv [] (set_idle (set_buffered blk (pre ++ l)) idle) dk ->
  Forall (fun c => overlap blk offset count c = false) pre ->
  exists ret l' idle' d' v, erase_chunks blk offset count l idle = (ret, l', idle', set_stats (set_dev blk d') v) /\
    ret <= 0 /\ inv [] (set_idle (set_buffered (set_stats (set_dev blk d') v) (pre ++ l')) idle') dk /\
    (ret = 0 -> Forall (fun c => overlap blk offset count c = false) (pre ++ l')) /\
    (healthy (dev blk) -> ret = 0 /\ healthy d').
Proof.
  induction l as [|c l IH]; intros blk dk pre idle offset count I Hpre; cbn [erase_chunks].
  { exists 0, [], idle, (dev blk), (stats blk). rewrite app_nil_r in *. destruct blk; cbn. split_and!; done. }
  change (region_overlap_size _ _ _ _) with (overlap blk offset count c).
  destruct (overlap blk offset count c) eqn:Eo.
  - set (blki := set_idle blk idle).
    assert (Ic : inv [] (set_buffered blki (c :: pre ++ l)) dk).
    { eapply (inv_perm _ (set_buffered blki (pre ++ c :: l))); [done|]. cbn. by rewrite Permutation_middle. }
    destruct (chunk_flush_spec blki dk c (pre ++ l) Ic) as (ret & c' & d1 & v1 & E & Hr & I1 & _ & _ & _ & Hd & Hh).
    rewrite (chunk_flush_set_idle _ _ _ _ _ _ _ E). set (blk1 := set_stats (set_dev blk d1) v1) in *. destruct (ret <? 0) eqn:Hz; bool_prop.
    + exists ret, (c' :: l), idle, d1, v1. split_and!; [done|lia| |lia|done].
      eapply (inv_perm _ (set_buffered (set_idle blk1 idle) (c' :: pre ++ l))); [done|]. cbn. by rewrite Permutation_middle.
    + destruct (IH blk1 dk pre (c' :: idle) offset count) as (ret2 & l2 & idle2 & d2 & v2 & E2 & Hr2 & I3 & Hd2 & Hh2).
      { apply (inv_push_idle (set_buffered blk1 (pre ++ l))).
        apply (inv_evict (set_idle blk1 idle) dk c' (pre ++ l)); [done|apply Hd; lia]. } { done. }
      rewrite E2. exists ret2, l2, idle2, d2, v2. split_and!; try done. intros H. apply Hh2. by apply Hh.
  - destruct (IH blk dk (pre ++ [c]) idle offset count) as (ret2 & l2 & idle2 & d2 & v2 & E2 & Hr2 & I3 & Hd2 & Hh2).
    { by rewrite <- app_assoc. } { apply Forall_app. split; [done|]. by apply Forall_singleton. }
    rewrite E2. rewrite <- app_assoc in I3, Hd2. by exists ret2, (c :: l2), idle2, d2, v2.
Qed.

Lemma block_op_erase_spec blk dk count offset :
  inv [] blk dk -> 0 <= offset -> 0 <= count -> offset + count <= nb * bs ->
  let a := Z.shiftr offset bits * bs in
  let n := Z.shiftr count bits * bs in
  exists ret blk', block_op_erase blk count offset = (ret, blk') /\ ret <= 0 /\
    inv [] blk' (if ret =? 0 then disk_erase dk a n else disk_erase_failed dk a n) /\
    (healthy (dev blk) -> healthy (dev blk') /\ (op_erase ops <> None -> ret = 0)).
Proof.
  intros I Ho Hc Hle a n. pose proof bs_pos. pose proof (g_bits G).
  assert (Hfail : forall blk', inv [] blk' dk -> inv [] blk' (disk_erase_failed dk a n)).
  { intros blk' I'. assert (E : set_dev blk' (dev blk') = blk') by (by destruct blk'). rewrite <- E. by apply inv_undef. }
  unfold block_op_erase. destruct (op_erase ops) as [erase|] eqn:Ee.
  2:{ eexists _, _. split; [done|]. split_and!; [done|by apply Hfail|done]. }
  rewrite (i_bits _ _ _ I). subst a n. rewrite !Z.shiftr_div_pow2 in * by lia.
  set (a := offset / bs) in *. set (n := count / bs) in *.
  assert (Ha : 0 <= a /\ 0 <= n /\ a + n <= nb).
  { pose proof (Z.div_mod offset bs ltac:(lia)). pose proof (Z.mod_pos_bound offset bs ltac:(lia)).
    pose proof (Z.div_mod count bs ltac:(lia)). pose proof (Z.mod_pos_bound count bs ltac:(lia)).
    split_and!; [apply Z.div_pos; lia..|]. subst a n. nia. }
  destruct Ha as (Ha & Hn & Han). pose proof nb_bound.
  destruct (erase_chunks_spec (buffered_blocks blk) blk dk [] (idle_blocks blk) a n)
    as (ret & l & idle & d & v & E & Hr & I1 & Hov & Hh); [by destruct blk|done|].
  rewrite E. cbn [app] in *. set (blk1 := set_idle _ idle) in *. destruct (ret <? 0) eqn:Hz; bool_prop.
  { exists ret, blk1. replace (ret =? 0) with false by lia. split_and!; [done|lia|by apply Hfail|].
    intros H'. destruct (Hh H'). lia. }
  rewrite !u64_small by lia.
  destruct (bd_erase erase Ee (dev blk1) a n Ha Hn Han) as (ret2 & d2 & E2 & Hr2 & Hout & Hin & Hh2). rewrite E2.
  assert (Hout' : forall i, ~ a * bs <= Z.of_nat i < a * bs + n * bs -> cells d2 !! i = cells (dev blk1) !! i).
  { intros i Hi. apply Hout. nia. }
  assert (Hfin : healthy (dev blk) -> ret2 = 0 /\ healthy d2) by (intros H'; apply Hh2; by apply Hh).
  destruct (ret2 =? 0) eqn:Hz2; cbn [negb]; bool_prop.
  - exists 0, (blk_stats_record_erase (set_dev blk1 d2) n). cbn [Z.eqb]. split_and!; [done|done| |].
    + assert (I2 : inv [] (set_dev blk1 d2) (disk_erase dk (a * bs) (n * bs))).
      { apply inv_erase; [done|done|intros i Hi; apply Hin; [done|nia]|].
        intros c i Hin'. assert (Hc' : chunk_ok c) by (by eapply Forall_forall; [apply I1|]).
        apply (overlap_iff blk); try done; [apply I|]. specialize (Hov ltac:(lia)). rewrite Forall_forall in Hov.
        by apply Hov. }
      unfold blk_stats_record_erase. destruct CONFIG_BLOCK_STATS; [by apply inv_stats|done].
    + intros H'. destruct (Hfin H') as [_ ?]. unfold blk_stats_record_erase. by destruct CONFIG_BLOCK_STATS.
  - exists ret2, (set_dev blk1 d2). replace (ret2 =? 0) with false by lia. split_and!; [done|done|by apply inv_undef|].
    intros H'. by destruct (Hfin H').
Qed.

(** ** Requests *)

Inductive request :=
| Read (count offset : Z)
| Write (src : list byte) (offset : Z)
| Flush
| Discard (count offset : Z)
| Erase (count offset : Z)
| Close (reads : list (Z * Z)).

(** Offsets that [loff_t] and [size_t] hold; erased ranges lie on the device. *)
Definition valid (req : request) : Prop :=
  match req with
  | Read n o | Discard n o => 0 <= n /\ 0 <= o /\ o + n < 2 ^ 63
  | Write src o => 0 <= o /\ o + Z.of_nat (length src) < 2 ^ 63
  | Flush => True
  | Erase n o => 0 <= n /\ 0 <= o /\ o + n <= nb * bs
  | Close reads => Forall (fun '(n, o) => 0 <= n /\ 0 <= o /\ o + n < 2 ^ 63) reads
  end.

(** Parsing the partition table again reads the device. *)
Definition reparse (reads : list (Z * Z)) (blk : block_device) : block_device :=
  fold_left (fun blk '(n, o) => snd (block_op_read blk n o)) reads blk.

(** The result of a request and what is seen: the bytes read, and after a flush
    the contents of the device. *)
Definition serve (blk : block_device) (req : request) : Z * list byte * block_device :=
  match req with
  | Read n o => block_op_read blk n o
  | Write src o => let '(ret, blk) := block_op_write blk src o in (ret, [], blk)
  | Flush => let '(ret, blk) := block_op_flush blk in (ret, cells (dev blk), blk)
  | Discard n o => let '(ret, blk) := block_op_discard_range blk n o in (ret, [], blk)
  | Erase n o => let '(ret, blk) := block_op_erase blk n o in (ret, [], blk)
  | Close reads => let '(ret, blk) := block_op_close (reparse reads) blk in (ret, [], blk)
  end.

Fixpoint serve_all (blk : block_device) (reqs : list request) : list (Z * list byte) * block_device :=
  match reqs with
  | [] => ([], blk)
  | req :: reqs =>
      let '(ret, d, blk) := serve blk req in
      let '(outs, blk) := serve_all blk reqs in ((ret, d) :: outs, blk)
  end.

(** What the array allows. *)
Inductive disk_step (dk : disk) : request -> Z * list byte -> disk -> Prop :=
| step_read n o d :
    Z.of_nat (length d) = n -> agrees dk (Z.to_nat o) d -> (0 < n -> o + n <= nb * bs) ->
    disk_step dk (Read n o) (n, d) dk
| step_read_error n o e d : e < 0 -> disk_step dk (Read n o) (e, d) dk
| step_write src o : disk_step dk (Write src o) (Z.of_nat (length src), []) (disk_write dk (Z.to_nat o) src)
| step_write_error src o e m :
    e < 0 -> disk_step dk (Write src o) (e, []) (disk_write dk (Z.to_nat o) (take m src))
| step_flush d : agrees dk 0 d -> length d = length (bytes dk) -> disk_step dk Flush (0, d) (disk_flush dk)
| step_flush_error e d : e < 0 -> disk_step dk Flush (e, d) (disk_flush dk)
| step_discard n o : disk_step dk (Discard n o) (0, []) (disk_discard dk o n)
| step_erase n o :
    disk_step dk (Erase n o) (0, []) (disk_erase dk (Z.shiftr o bits * bs) (Z.shiftr n bits * bs))
| step_erase_error n o e :
    e < 0 -> disk_step dk (Erase n o) (e, []) (disk_erase_failed dk (Z.shiftr o bits * bs) (Z.shiftr n bits * bs))
| step_close reads : disk_step dk (Close reads) (0, []) (disk_flush dk).

Inductive disk_run : disk -> list request -> list (Z * list byte) -> disk -> Prop :=
| run_nil dk : disk_run dk [] [] dk
| run_cons dk dk1 dk2 req reqs out outs :
    disk_step dk req out dk1 -> disk_run dk1 reqs outs dk2 -> disk_run dk (req :: reqs) (out :: outs) dk2.

(** A request that a device without faults serves. *)
Definition served (req : request) (ret : Z) : Prop :=
  match req with
  | Read n o => o + n <= nb * bs -> ret = n
  | Write src o => o + Z.of_nat (length src) <= nb * bs -> ret = Z.of_nat (length src)
  | Flush | Discard _ _ | Close _ => ret = 0
  | Erase _ _ => op_erase ops <> None -> ret = 0
  end.

Lemma reparse_spec reads : forall blk dk,
  inv [] blk dk -> Forall (fun '(n, o) => 0 <= n /\ 0 <= o /\ o + n < 2 ^ 63) reads ->
  inv [] (reparse reads blk) dk /\ (healthy (dev blk) -> healthy (dev (reparse reads blk))).
Proof.
  induction reads as [|[n o] reads IH]; intros blk dk I Hr; [done|]. apply Forall_cons in Hr as [(Hn & Ho & Hlt) Hr].
  destruct (block_op_read_spec blk dk n o I Ho Hn Hlt) as (ret & d & blk' & P & E). destruct P as (I' & Hh & _).
  unfold reparse. cbn [fold_left]. rewrite E. cbn [snd]. destruct (IH blk' dk I' Hr) as [I2 Hh2]. split; [done|]. auto.
Qed.

Lemma inv_need_reparse blk dk v : inv [] blk dk -> inv [] (set_need_reparse blk v) dk.
Proof. intros []. split; done. Qed.

Lemma block_op_close_spec blk dk reads :
  inv [] blk dk -> Forall (fun '(n, o) => 0 <= n /\ 0 <= o /\ o + n < 2 ^ 63) reads ->
  exists blk', block_op_close (reparse reads) blk = (0, blk') /\ inv [] blk' (disk_flush dk) /\ (healthy (dev blk) -> healthy (dev blk')).
Proof.
  intros I Hr. unfold block_op_close. destruct (block_op_flush_spec blk dk I) as (ret & blk1 & -> & _ & I1 & _ & Hh).
  destruct (need_reparse blk1); [|exists blk1; split_and!; [done|done|]; intros H; by apply Hh].
  destruct (reparse_spec reads blk1 _ I1 Hr) as [I2 Hh2]. eexists. split_and!; [done|by apply inv_need_reparse|].
  intros H. apply Hh2. by apply Hh.
Qed.

Lemma serve_spec blk dk req :
  inv [] blk dk -> valid req ->
  exists ret d blk' dk', serve blk req = (ret, d, blk') /\ disk_step dk req (ret, d) dk' /\ inv [] blk' dk' /\
    (healthy (dev blk) -> healthy (dev blk') /\ served req ret).
Proof.
  intros I. destruct req as [n o|src o| |n o|n o|reads]; cbn [valid serve served].
  - intros (Hn & Ho & Hlt). destruct (block_op_read_spec blk dk n o I Ho Hn Hlt) as (ret & d & blk' & P & ->).
    destruct P as (I' & Hh & Hr & H0 & Hs). eexists _, _, _, dk. split; [done|]. split_and!; [|done|].
    + destruct (ret =? 0) eqn:Hz; bool_prop; [|constructor; lia]. destruct (H0 Hz) as (? & ? & ?). by constructor.
    + intros H. split; [auto|]. intros Hle. by rewrite (Hs H Hle).
  - intros (Ho & Hlt). destruct (block_op_write_spec blk dk src o I Ho Hlt) as (ret & blk' & P & ->).
    destruct P as (Hh & Hr & (m & Hm & _ & I' & Em) & Hs). eexists _, _, _, _. split; [done|]. split_and!; [|exact I'|].
    + destruct (ret =? 0) eqn:Hz; bool_prop; [|constructor; lia]. rewrite (Em Hz), take_ge by lia. constructor.
    + intros H. split; [auto|]. intros Hle. by rewrite (Hs H Hle).
  - intros _. destruct (block_op_flush_spec blk dk I) as (ret & blk' & -> & Hr & I' & Hd & Hh).
    eexists _, _, _, _. split; [done|]. split_and!; [|exact I'|intros H; by destruct (Hh H)].
    destruct (decide (ret = 0)) as [->|Hz]; [|constructor; lia]. constructor; [by apply Hd|].
    pose proof (bd_length (dev blk')). pose proof (i_length _ _ _ I). lia.
  - intros (Hn & Ho & Hlt). eexists _, _, _, _. split; [done|]. split_and!; [constructor|by apply inv_discard|done].
  - intros (Hn & Ho & Hle). destruct (block_op_erase_spec blk dk n o I Ho Hn Hle) as (ret & blk' & -> & Hr & I' & Hh).
    eexists _, _, _, _. split; [done|]. split_and!; [|exact I'|exact Hh].
    destruct (ret =? 0) eqn:Hz; bool_prop; [subst ret; constructor|constructor; lia].
  - intros Hr. destruct (block_op_close_spec blk dk reads I Hr) as (blk' & -> & I' & Hh).
    eexists _, _, _, _. split; [done|]. split_and!; [constructor|exact I'|]. auto.
Qed.

Lemma serve_all_spec reqs : forall blk dk,
  inv [] blk dk -> Forall valid reqs ->
  exists outs blk' dk', serve_all blk reqs = (outs, blk') /\ disk_run dk reqs outs dk' /\ inv [] blk' dk' /\
    (healthy (dev blk) -> healthy (dev blk') /\ Forall2 (fun req out => served req (fst out)) reqs outs).
Proof.
  induction reqs as [|req reqs IH]; intros blk dk I Hv; cbn [serve_all].
  { exists [], blk, dk. split_and!; try done; constructor. }
  apply Forall_cons in Hv as [Hv1 Hv].
  destruct (serve_spec blk dk req I Hv1) as (ret & d & blk1 & dk1 & -> & Hst & I1 & Hh).
  destruct (IH blk1 dk1 I1 Hv) as (outs & blk2 & dk2 & -> & Hrun & I2 & Hh2).
  exists ((ret, d) :: outs), blk2, dk2. split_and!; [done|by econstructor|done|].
  intros H. destruct (Hh H) as [H1 H2], (Hh2 ltac:(done)) as [? ?]. split; [done|]. by constructor.
Qed.

Definition is_read (req : request) : bool := match req with Read _ _ => true | _ => false end.

Lemma disk_run_reads reqs : forall dk outs dk',
  Forall (fun req => is_read req = true) reqs -> disk_run dk reqs outs dk' -> dk' = dk.
Proof.
  induction reqs as [|req reqs IH]; intros dk outs dk' Hr Hrun; inversion Hrun; subst; [done|].
  apply Forall_cons in Hr as [Hr1 Hr]. destruct req; try done.
  eapply IH; [exact Hr|]. match goal with H : disk_step _ _ _ _ |- _ => inversion H; subst end; done.
Qed.

(** A device whose driver has filled in block size and count. *)
Definition unregistered (blk : block_device) : Prop :=
  blockbits blk = bits /\ num_blocks blk = nb /\ discard_start blk = 0 /\ discard_size blk = 0.

Lemma register_inv blk dma_alloc :
  unregistered blk -> (forall i, length (dma_alloc i BUFSIZE) = Z.to_nat BUFSIZE) ->
  inv [] (Blk bits nb rb (rb - 1) 0 0 [] (map (fun i => Chunk (dma_alloc i BUFSIZE) 0 false i) [0; 1; 2; 3; 4; 5; 6; 7])
            (need_reparse blk) (stats blk) (dev blk))
    (Disk (Some <$> cells (dev blk)) 0 0).
Proof.
  intros _ Hl. pose proof (bd_length (dev blk)) as Hlen. pose proof (g_nb G). pose proof bs_pos. pose proof bufsize_pos.
  split; cbn; try done.
  - by rewrite length_fmap.
  - by constructor.
  - repeat (constructor; [apply Hl|]). constructor.
  - apply (bool_decide_unpack _). vm_compute. exact I.
  - lia.
  - split.
    + intros c j b Hin. by apply not_elem_of_nil in Hin.
    + intros i b Hk _. unfold known in Hk. cbn in Hk. rewrite list_lookup_fmap in Hk.
      destruct (cells (dev blk) !! i); cbn in Hk; congruence.
    + intros i b _. unfold in_discard. cbn.
      pose proof (Z.div_pos (Z.of_nat i) BUFSIZE ltac:(lia) ltac:(lia)). nia.
Qed.

Lemma register_eq blk dma_alloc devfs_create parse blk' :
  unregistered blk -> blockdevice_register dma_alloc devfs_create parse blk = (0, blk') ->
  blk' = parse (Blk bits nb rb (rb - 1) 0 0 []
    (map (fun i => Chunk (dma_alloc i BUFSIZE) 0 false i) [0; 1; 2; 3; 4; 5; 6; 7])
    (need_reparse blk) (stats blk) (dev blk)).
Proof.
  intros (E1 & E2 & E3 & E4). unfold blockdevice_register. rewrite E1, E2, E3, E4.
  pose proof rb_pos. pose proof bs_pos. pose proof (g_bits G).
  assert (Er : s32 (Z.shiftr BUFSIZE bits) = rb).
  { rewrite Z.shiftr_div_pow2, (g_buf G), Z.div_mul by lia. apply s32_small. lia. }
  rewrite Er, s32_small by lia. cbn [rdbufsize blockbits].
  replace ((rb =? 0) || (bits <? 9)) with false by lia.
  match goal with |- context [devfs_create ?b] => set (ret := devfs_create b) end.
  destruct (ret =? 0) eqn:Ez; cbn [negb]; bool_prop; intros [=]; done.
Qed.

(** C4: the cache is invisible.  After registration, whatever sequence of reads,
    writes, flushes, discards, erases and closes is served, the results are those of a
    plain array of bytes that starts with the contents of the device: a read gives
    the bytes written last, a failed write has written a prefix, and when a flush
    succeeds the device itself has the bytes of the array.  The array leaves open what
    a discarded range holds, and what is written into it before the next flush or
    close, since the cache can lose such writes.  A close returns 0 and hides the
    error of its flush.  All this holds whichever errors the driver reports at any
    moment; a device that reports none serves every request that is in range. *)
Theorem block_refines dma_alloc devfs_create preqs blk0 blk reqs :
  unregistered blk0 -> (forall i, length (dma_alloc i BUFSIZE) = Z.to_nat BUFSIZE) ->
  Forall valid preqs -> Forall (fun req => is_read req = true) preqs ->
  blockdevice_register dma_alloc devfs_create (fun b => snd (serve_all b preqs)) blk0 = (0, blk) ->
  Forall valid reqs ->
  exists outs blk' dk, serve_all blk reqs = (outs, blk') /\
    disk_run (Disk (Some <$> cells (dev blk0)) 0 0) reqs outs dk /\
    (healthy (dev blk0) -> Forall2 (fun req out => served req (fst out)) reqs outs).
Proof.
  intros Hu Hl Hvp Hrp Hreg Hv. pose proof (register_inv blk0 dma_alloc Hu Hl) as I0.
  apply (register_eq _ _ _ _ _ Hu) in Hreg. set (blk1 := Blk _ _ _ _ _ _ _ _ _ _ _) in *.
  destruct (serve_all_spec preqs blk1 _ I0 Hvp) as (outs0 & blk2 & dk1 & E & Hrun & I1 & Hh).
  cbn beta in Hreg. rewrite E in Hreg. cbn [snd] in Hreg. subst blk2. apply disk_run_reads in Hrun; [|done]. subst dk1.
  destruct (serve_all_spec reqs blk _ I1 Hv) as (outs & blk' & dk & E2 & Hrun & _ & Hh2).
  exists outs, blk', dk. split_and!; [done|done|]. intros H. apply Hh2. by apply Hh.
Qed.

(** *** Results are ints *)

(** A driver returns an [int]. *)
Definition returns_int : Prop :=
  (forall d buf block n, - 2 ^ 31 <= fst (fst (op_read ops d buf block n))) /\
  (forall write d buf block n, op_write ops = Some write -> - 2 ^ 31 <= fst (write d buf block n)).

Lemma chunk_flush_int blk c ret c' blk' : returns_int -> chunk_flush blk c = (ret, c', blk') -> - 2 ^ 31 <= ret.
Proof.
  intros [_ Hw]. unfold chunk_flush. destruct (negb (dirty c)); [intros [= <-]; lia|].
  destruct (op_write ops) as [write|] eqn:E; [|intros [= <-]; lia]. specialize (Hw write (dev blk) (data c) (block_start c) (writebuffer_io_nblocks blk c) eq_refl).
  destruct (write _ _ _ _) as [r d]. cbn in Hw. destruct (r <? 0); intros [= <-]; lia.
Qed.

Lemma block_cache_int blk block ret blk' : returns_int -> block_cache blk block = (ret, blk') -> - 2 ^ 31 <= ret.
Proof.
  intros Hi. unfold block_cache, get_chunk. destruct (idle_blocks blk) as [|c l].
  - destruct (last (buffered_blocks blk)) as [c|]; [|intros [= <-]; lia].
    destruct (chunk_flush blk c) as [[r c'] blk1] eqn:E. apply chunk_flush_int in E; [|done].
    destruct (r <? 0); [intros [= <-]; lia|]. destruct (_ && _); [intros [= <-]; lia|].
    pose proof (proj1 Hi) as Hr. set (c2 := set_block_start c' _). set (b2 := set_buffered blk1 _).
    specialize (Hr (dev b2) (data c2) (block_start c2) (writebuffer_io_nblocks b2 c2)).
    destruct (op_read _ _ _ _ _) as [[r2 buf] d]. cbn in Hr. destruct (negb (r2 =? 0)); intros [= <-]; lia.
  - destruct (_ && _); [intros [= <-]; lia|].
    pose proof (proj1 Hi) as Hr. set (c2 := set_block_start c _). set (b2 := set_idle blk _).
    specialize (Hr (dev b2) (data c2) (block_start c2) (writebuffer_io_nblocks b2 c2)).
    destruct (op_read _ _ _ _ _) as [[r2 buf] d]. cbn in Hr. destruct (negb (r2 =? 0)); intros [= <-]; lia.
Qed.

Lemma block_get_int blk block e blk' : returns_int -> block_get blk block = (Err e, blk') -> - 2 ^ 31 <= e.
Proof.
  intros Hi. unfold block_get. destruct (_ <=? _); [intros [= <-]; unfold ENXIO; lia|].
  destruct (block_get_cached blk block) as [[p|] blk1]; [done|].
  destruct (block_cache blk1 block) as [ret blk2] eqn:E. apply block_cache_int in E; [|done].
  destruct (negb (ret =? 0)); [intros [= <-]; lia|]. destruct (block_get_cached blk2 block) as [[p|] blk3]; [done|].
  intros [= <-]. lia.
Qed.

Lemma read_blocks_int n : forall blk block ret d blk',
  returns_int -> read_blocks n blk block = (ret, d, blk') -> - 2 ^ 31 <= ret.
Proof.
  induction n as [|n IH]; intros blk block ret d blk' Hi; cbn [read_blocks]; [intros [= <-]; lia|].
  destruct (block_get blk block) as [[p|e] blk1] eqn:E.
  - destruct (read_blocks n blk1 _) as [[r l] blk2] eqn:E2. intros [= <- <- <-]. by eapply IH.
  - intros [= <- _ _]. by eapply block_get_int.
Qed.

Lemma block_op_read_int blk count offset ret d blk' :
  returns_int -> 0 <= count -> block_op_read blk count offset = (ret, d, blk') -> - 2 ^ 31 <= ret.
Proof.
  intros Hi Hc.
  assert (Hrest : forall blk n block ret d blk', read_rest blk n block = (ret, d, blk') -> - 2 ^ 31 <= ret).
  { intros b n block r l b'. unfold read_rest. destruct (read_blocks _ b block) as [[r1 l1] b1] eqn:E.
    apply read_blocks_int in E; [|done]. destruct (negb (r1 =? 0)); [intros [= <-]; lia|].
    destruct (negb _); [|intros [= <-]; lia]. destruct (block_get b1 _) as [[p|e] b2] eqn:E2; intros [= <-]; [lia|].
    by eapply block_get_int. }
  unfold block_op_read. destruct (negb _).
  - destruct (block_get blk _) as [[[k o]|e] blk1] eqn:E; [|intros [= <-]; by eapply block_get_int].
    destruct (read_rest blk1 _ _) as [[r l] blk2] eqn:E2. apply Hrest in E2. destruct (r =? 0); intros [= <-]; lia.
  - destruct (read_rest blk _ _) as [[r l] blk2] eqn:E2. apply Hrest in E2. destruct (r =? 0); intros [= <-]; lia.
Qed.

Lemma block_put_int blk buf block ret blk' : returns_int -> block_put blk buf block = (ret, blk') -> - 2 ^ 31 <= ret.
Proof.
  intros Hi. unfold block_put. destruct (_ <=? _); [intros [= <-]; unfold EINVAL; lia|].
  destruct (block_get blk block) as [[p|e] blk1] eqn:E; [|intros [= <-]; by eapply block_get_int].
  destruct (chunk_get_cached _ block) as [[c|] blk2]; [|intros [= <-]; lia].
  destruct (buffered_blocks blk2); intros [= <-]; lia.
Qed.

Lemma write_blocks_int n : forall blk buf block ret blk',
  returns_int -> write_blocks n blk buf block = (ret, blk') -> - 2 ^ 31 <= ret.
Proof.
  induction n as [|n IH]; intros blk buf block ret blk' Hi; cbn [write_blocks]; [intros [= <-]; lia|].
  destruct (block_put blk buf block) as [r blk1] eqn:E. apply block_put_int in E; [|done].
  destruct (negb _); [intros [= <-]; lia|]. by apply IH.
Qed.

Lemma block_op_write_int blk buf offset ret blk' :
  returns_int -> block_op_write blk buf offset = (ret, blk') -> - 2 ^ 31 <= ret.
Proof.
  intros Hi.
  assert (Hput : forall blk p o src block r blk', put_part blk p o src block = (r, blk') -> - 2 ^ 31 <= r)
    by (intros *; apply block_put_int, Hi).
  assert (Hrest : forall blk buf n block r blk', write_rest blk buf n block = (r, blk') -> - 2 ^ 31 <= r).
  { intros b d n block r b'. unfold write_rest. destruct (write_blocks _ b d block) as [r1 b1] eqn:E.
    apply write_blocks_int in E; [|done]. destruct (negb (r1 =? 0)); [intros [= <-]; lia|].
    destruct (negb _); [|intros [= <-]; lia]. destruct (block_get b1 _) as [[p|e] b2] eqn:E2.
    - apply Hput.
    - intros [= <-]. by eapply block_get_int. }
  unfold block_op_write. cbn zeta. set (b0 := if _ <? _ then _ else _). destruct (negb _).
  - destruct (block_get b0 _) as [[p|e] blk1] eqn:E; [|intros [= <-]; by eapply block_get_int].
    destruct (put_part blk1 _ _ _ _) as [r blk2] eqn:E1. apply Hput in E1. destruct (negb _); [intros [= <-]; lia|].
    destruct (write_rest blk2 _ _ _) as [r2 blk3] eqn:E2. apply Hrest in E2. destruct (r2 =? 0); intros [= <-]; lia.
  - destruct (write_rest b0 _ _ _) as [r blk2] eqn:E2. apply Hrest in E2. destruct (r =? 0); intros [= <-]; lia.
Qed.

(** Reading two gigabytes with [block_read] reports an error although all of it is
    read: the byte count does not fit the [int] it is kept in. *)
Lemma block_read_wraps blk dk block n :
  inv [] blk dk -> healthy (dev blk) -> 0 <= block -> n * bs = 2 ^ 31 -> block * bs + n * bs <= nb * bs ->
  exists d blk', block_read blk block n = (- 2 ^ 31, d, blk') /\ Z.of_nat (length d) = 2 ^ 31.
Proof.
  intros I Hh Hb Hn Hle. pose proof bs_pos. pose proof (g_size G). unfold block_read.
  rewrite (i_bits _ _ _ I), !Z.shiftl_mul_pow2, u64_small, s64_small by (pose proof (g_bits G); nia).
  destruct (block_op_read_spec blk dk (n * bs) (block * bs) I) as (ret & d & blk' & P & ->); [nia..|].
  destruct P as (_ & _ & _ & Hd & Hs). specialize (Hs Hh Hle). subst ret. cbn [Z.eqb]. rewrite Hn.
  exists d, blk'. split; [done|]. rewrite <- Hn. by apply Hd.
Qed.

(** *** Whole blocks

    What code that reads and writes blocks of a device in use can rely on: the
    device holds an array of bytes. *)

Definition holds (blk : block_device) (c : list byte) : Prop := inv [] blk (Disk (Some <$> c) 0 0).

Lemma holds_length blk c : holds blk c -> Z.of_nat (length c) = nb * bs.
Proof. intros I. pose proof (i_length _ _ _ I) as E. cbn in E. by rewrite length_fmap in E. Qed.

Lemma not_in_discard bytes i : in_discard (Disk bytes 0 0) i = false.
Proof.
  unfold in_discard. cbn. pose proof bufsize_pos. pose proof (g_nb G). pose proof bs_pos.
  pose proof (Z.div_pos (Z.of_nat i) BUFSIZE ltac:(lia) ltac:(lia)). nia.
Qed.

Lemma disk_write_holds c off src :
  (off + length src <= length c)%nat ->
  disk_write (Disk (Some <$> c) 0 0) off src = Disk (Some <$> write_at c off src) 0 0.
Proof.
  intros H. unfold disk_write. cbn [bytes d_start d_size]. f_equal.
  rewrite write_at_inside, !fmap_app, <- fmap_take, <- fmap_drop by done. f_equal. f_equal.
  apply list_eq. intros i. rewrite list_lookup_imap, list_lookup_fmap, not_in_discard. by destruct (src !! i).
Qed.

Lemma agrees_holds c off d n :
  agrees (Disk (Some <$> c) 0 0) off d -> length d = n -> (off + n <= length c)%nat -> d = read_at c off n.
Proof.
  intros Ha Hd Hl. apply list_eq. intros i. rewrite lookup_read_at. case_decide as Hi.
  - destruct (c !! (off + i)%nat) as [b|] eqn:E; [|apply lookup_ge_None in E; lia]. apply Ha; [lia|].
    unfold known. cbn. by rewrite list_lookup_fmap, E.
  - apply lookup_ge_None. lia.
Qed.

(** A block that is not there. *)
Lemma block_op_read_beyond blk dk n offset :
  inv [] blk dk -> 0 < n -> (bs | offset) -> nb <= u64 (Z.shiftr offset bits) ->
  block_op_read blk (n * bs) offset = (- ENXIO, [], blk).
Proof.
  intros I Hn [k ->] Hb. pose proof bs_pos. pose proof (g_bits G). unfold block_op_read.
  rewrite BLOCKSIZE_bs, (i_bits _ _ _ I) by apply I. rewrite Z.sub_1_r, <- Z.ones_equiv, Z.land_ones, Z.mod_mul by lia.
  cbn [Z.eqb negb]. unfold read_rest. rewrite (i_bits _ _ _ I), (Z.shiftr_div_pow2 (n * bs)), Z.div_mul by lia.
  destruct (Z.to_nat n) eqn:E; [lia|]. cbn [read_blocks]. unfold block_get. rewrite (i_nb _ _ _ I).
  by replace (nb <=? u64 (Z.shiftr (k * bs) bits)) with true by lia.
Qed.

(** The offset of a block in 64 bits: a block number may be anything. *)
Definition block_offset (block : Z) : Z := s64 (block * bs).

Lemma block_offset_div block : (bs | block_offset block).
Proof.
  pose proof (g_bits G). unfold block_offset, s64. rewrite Z.mod_eq by lia.
  set (q := (block * bs + 2 ^ 63) / 2 ^ 64).
  assert (E64 : 2 ^ 64 = 2 ^ (64 - bits) * bs) by (rewrite <- Z.pow_add_r by lia; f_equal; lia).
  exists (block - 2 ^ (64 - bits) * q). rewrite E64. ring.
Qed.

Lemma block_offset_in block : 0 <= block < nb -> block_offset block = block * bs.
Proof. intros Hb. unfold block_offset. pose proof (g_size G). pose proof bs_pos. apply s64_small. nia. Qed.

Lemma block_offset_beyond block :
  ~ (0 <= block_offset block < nb * bs) -> nb <= u64 (Z.shiftr (block_offset block) bits).
Proof.
  intros Ho. pose proof bs_pos. pose proof (g_bits G). pose proof (g_size G). pose proof nb_bound. pose proof (g_nb G).
  assert (Hr : - 2 ^ 63 <= block_offset block < 2 ^ 63)
    by (unfold block_offset, s64; pose proof (Z.mod_pos_bound (block * bs + 2 ^ 63) (2 ^ 64) ltac:(lia)); lia).
  destruct (block_offset_div block) as [k Ek]. rewrite Ek in *. rewrite Z.shiftr_div_pow2, Z.div_mul by lia.
  destruct (decide (0 <= k)) as [Hk|Hk].
  - rewrite u64_small by nia. nia.
  - unfold u64. rewrite <- (Z.mod_add k 1) by lia. rewrite Z.mod_small by nia. nia.
Qed.

Context (HI : returns_int) (Hsize : nb * bs + 2 ^ 33 <= 2 ^ 63).

Lemma block_read_holds blk c block n :
  holds blk c -> 0 < n -> n * bs <= 2 ^ 33 ->
  exists ret d blk', block_read blk block n = (ret, d, blk') /\ holds blk' c /\
    (healthy (dev blk) -> healthy (dev blk')) /\ ret <= 0 /\
    (ret = 0 -> 0 <= block_offset block /\ block_offset block + n * bs <= nb * bs /\
       d = read_at c (Z.to_nat (block_offset block)) (Z.to_nat (n * bs))) /\
    (healthy (dev blk) -> 0 <= block -> block + n <= nb -> n * bs < 2 ^ 31 -> ret = 0).
Proof.
  intros I Hn Hm. pose proof bs_pos. pose proof (g_bits G). pose proof (g_size G). pose proof (g_nb G).
  unfold block_read. rewrite (i_bits _ _ _ I), !Z.shiftl_mul_pow2, u64_small by nia.
  change (s64 (block * bs)) with (block_offset block). pose proof (block_offset_div block) as Hdiv.
  destruct (decide (0 <= block_offset block < nb * bs)) as [Ho|Ho].
  2:{ rewrite (block_op_read_beyond _ _ _ _ I Hn Hdiv (block_offset_beyond _ Ho)). eexists _, _, _. split; [done|].
      split_and!; try done. intros _ K1 K2 _. rewrite block_offset_in in Ho by lia. nia. }
  destruct (block_op_read_spec blk _ (n * bs) (block_offset block) I) as (ret & d & blk' & P & E); [nia..|].
  pose proof (block_op_read_int blk (n * bs) _ _ _ _ HI ltac:(nia) E) as Hint. rewrite E.
  destruct P as (I' & Hh & Hr & Hd & Hs). pose proof (holds_length _ _ I) as Hlen.
  eexists _, d, blk'. split; [done|]. split_and!; try done.
  - destruct (s32 _ <? 0) eqn:E1; bool_prop; lia.
  - intros E1. assert (Hz : ret = 0).
    { destruct (ret =? 0) eqn:Ez; bool_prop; [done|]. rewrite s32_small in E1 by lia.
      replace (ret <? 0) with true in E1 by lia. lia. }
    destruct (Hd Hz) as (Hl & Ha & Hle). specialize (Hle ltac:(nia)). split_and!; [lia|lia|].
    apply agrees_holds; [done|lia|]. nia.
  - intros K1 K2 K3 K4. rewrite block_offset_in in Hs by lia. rewrite (Hs K1) by nia. cbn [Z.eqb].
    rewrite s32_small by lia. by replace (n * bs <? 0) with false by lia.
Qed.

Lemma block_write_holds blk c buf block n :
  holds blk c -> 0 <= block -> 0 <= n -> block + n <= nb -> n * bs < 2 ^ 31 -> n * bs <= Z.of_nat (length buf) ->
  exists ret blk' m, block_write blk buf block n = (ret, blk') /\ ret <= 0 /\ (m <= Z.to_nat (n * bs))%nat /\
    holds blk' (write_at c (Z.to_nat (block * bs)) (take m buf)) /\
    (ret = 0 -> m = Z.to_nat (n * bs)) /\
    (healthy (dev blk) -> ret = 0 /\ healthy (dev blk')).
Proof.
  intros I Hb Hn Hle Hm Hl. pose proof bs_pos. pose proof (g_bits G). pose proof (g_size G). pose proof (holds_length _ _ I) as Hlen.
  unfold block_write. rewrite HW. cbn [negb]. rewrite (i_bits _ _ _ I), !Z.shiftl_mul_pow2, u64_small, s64_small by nia.
  set (src := take (Z.to_nat (n * bs)) buf). assert (Ls : length src = Z.to_nat (n * bs)) by (subst src; rewrite length_take; lia).
  destruct (block_op_write_spec blk _ src (block * bs) I) as (ret & blk' & P & E); [nia..|].
  pose proof (block_op_write_int _ _ _ _ _ HI E) as Hint. rewrite E.
  destruct P as (Hh & Hr & (m & Hms & _ & I' & Em) & Hs). rewrite disk_write_holds in I' by (rewrite length_take; nia).
  assert (Etake : take m src = take m buf) by (subst src; rewrite take_take; f_equal; lia). rewrite Etake in I'.
  assert (Hret : (if s32 (if ret =? 0 then Z.of_nat (length src) else ret) <? 0
                  then s32 (if ret =? 0 then Z.of_nat (length src) else ret) else 0) = ret).
  { destruct (ret =? 0) eqn:Ez; bool_prop; rewrite s32_small by lia.
    - replace (Z.of_nat (length src) <? 0) with false by lia. lia.
    - by replace (ret <? 0) with true by lia. }
  rewrite Hret. exists ret, blk', m. split_and!; try done; [lia|intros Ez; rewrite <- Ls; auto|].
  intros Q. split; [apply Hs; [done|nia]|auto].
Qed.

Lemma block_flush_holds blk c :
  holds blk c ->
  exists ret blk', block_op_flush blk = (ret, blk') /\ ret <= 0 /\ holds blk' c /\
    (ret = 0 -> cells (dev blk') = c) /\ (healthy (dev blk) -> ret = 0 /\ healthy (dev blk')).
Proof.
  intros I. destruct (block_op_flush_spec blk _ I) as (ret & blk' & E & Hr & I' & Hd & Hh).
  exists ret, blk'. split_and!; try done. intros Ez. specialize (Hd Ez). pose proof (holds_length _ _ I) as Hlen.
  pose proof (bd_length (dev blk')) as Hcl. rewrite (agrees_holds c 0 (cells (dev blk')) (length c) Hd); [|lia|lia].
  apply read_at_full.
Qed.

End Inv.

End Block.

(** ** The interface for users of a device

    What the block layer promises to code that reads and writes whole blocks: the
    device [blk] has the contents [c]; a [sound] one serves every request that is in
    range.  Of a write that fails a prefix is stored. *)
Class BlockIo {D : Type} (CONFIG_BLOCK_WRITE CONFIG_BLOCK_STATS : bool) (ops : block_device_ops (D := D)) (bits nb : Z) := {
  contents : block_device (D := D) -> list byte -> Prop;
  sound : block_device (D := D) -> Prop;
  io_bits : 9 <= bits < 32;
  io_blocks : 0 < nb /\ nb * 2 ^ bits + 2 ^ 33 <= 2 ^ 63;
  io_device blk c :
    contents blk c -> blockbits blk = bits /\ num_blocks blk = nb /\ Z.of_nat (length c) = nb * 2 ^ bits;
  io_read blk c block n :
    contents blk c -> 0 < n -> n * 2 ^ bits <= 2 ^ 33 ->
    exists ret d blk', block_read CONFIG_BLOCK_STATS ops blk block n = (ret, d, blk') /\ contents blk' c /\
      (sound blk -> sound blk') /\ ret <= 0 /\
      (ret = 0 -> 0 <= block_offset bits block /\ block_offset bits block + n * 2 ^ bits <= nb * 2 ^ bits /\
         d = read_at c (Z.to_nat (block_offset bits block)) (Z.to_nat (n * 2 ^ bits))) /\
      (sound blk -> 0 <= block -> block + n <= nb -> n * 2 ^ bits < 2 ^ 31 -> ret = 0);
  io_write blk c buf block n :
    contents blk c -> 0 <= block -> 0 <= n -> block + n <= nb -> n * 2 ^ bits < 2 ^ 31 ->
    n * 2 ^ bits <= Z.of_nat (length buf) ->
    exists ret blk' m, block_write CONFIG_BLOCK_WRITE CONFIG_BLOCK_STATS ops blk buf block n = (ret, blk') /\
      ret <= 0 /\ (m <= Z.to_nat (n * 2 ^ bits))%nat /\
      contents blk' (write_at c (Z.to_nat (block * 2 ^ bits)) (take m buf)) /\
      (ret = 0 -> m = Z.to_nat (n * 2 ^ bits)) /\ (sound blk -> ret = 0 /\ sound blk')
}.

Definition block_io {D : Type} (PAGE_SIZE : Z) (CONFIG_BLOCK_STATS : bool) (ops : block_device_ops (D := D)) (bits nb rb : Z)
    `{Hdev : !BlkdevOk ops (2 ^ bits) nb} (G : geometry PAGE_SIZE bits nb rb) (HI : returns_int ops)
    (Hsize : nb * 2 ^ bits + 2 ^ 33 <= 2 ^ 63) : BlockIo true CONFIG_BLOCK_STATS ops bits nb.
Proof.
  refine {| contents := holds PAGE_SIZE ops bits nb rb; sound := fun blk => healthy ops (dev blk) |}.
  - apply (g_bits _ _ _ _ G).
  - split; [apply (g_nb _ _ _ _ G)|done].
  - intros blk c Hc. pose proof (holds_length _ _ _ _ _ _ _ Hc). destruct Hc. done.
  - intros blk c block n. by apply block_read_holds.
  - intros blk c buf block n. by apply block_write_holds.
Defined.

Section BlockIo.

Context {D : Type} {write stats : bool} {ops : block_device_ops (D := D)} {bits nb : Z} `{!BlockIo write stats ops bits nb}.

Lemma io_bs : 512 <= 2 ^ bits < 2 ^ 32.
Proof.
  destruct io_bits. split; [change 512 with (2 ^ 9); by apply Z.pow_le_mono_r|by apply Z.pow_lt_mono_r].
Qed.

Lemma io_blocksize blk c : contents blk c -> BLOCKSIZE blk = 2 ^ bits.
Proof.
  intros Hc. destruct (io_device _ _ Hc) as (E & _). unfold BLOCKSIZE. rewrite E, Z.shiftl_1_l. pose proof io_bs. apply u32_small. lia.
Qed.

(** Blocks that are there. *)
Lemma io_read_in blk c block n :
  contents blk c -> 0 <= block -> 0 < n -> block + n <= nb -> n * 2 ^ bits < 2 ^ 31 ->
  exists ret d blk', block_read stats ops blk block n = (ret, d, blk') /\ contents blk' c /\
    (ret = 0 -> d = read_at c (Z.to_nat (block * 2 ^ bits)) (Z.to_nat (n * 2 ^ bits))) /\
    (sound blk -> ret = 0 /\ sound blk').
Proof.
  intros Hc Hb Hn Hle Hm. destruct (io_read blk c block n Hc Hn ltac:(lia)) as (ret & d & blk' & E & Hc' & Hs & _ & Hd & Hz).
  exists ret, d, blk'. split_and!; try done; [|auto]. intros Er. destruct (Hd Er) as (_ & _ & ->).
  unfold block_offset. pose proof io_bs. pose proof io_blocks. rewrite s64_small; [done|nia].
Qed.

End BlockIo.

(** ** A device in memory *)

Module Demo.

Section Ram.

Context (bs nb : Z) (Hbs : 0 <= bs) (Hnb : 0 <= nb).

Definition ram (d : list byte) : list byte := resize (Z.to_nat (nb * bs)) Init.Byte.x00 d.

Definition ram_ops : block_device_ops (D := list byte) := BlkOps
  (fun d buf block n => (0, write_at buf 0 (read_at (ram d) (Z.to_nat (block * bs)) (Z.to_nat (n * bs))), d))
  (Some (fun d buf block n => (0, write_at (ram d) (Z.to_nat (block * bs)) (take (Z.to_nat (n * bs)) buf))))
  (Some (fun d block n =>
     (0, write_at (ram d) (Z.to_nat (block * bs)) (replicate (Z.to_nat (n * bs)) Init.Byte.xff))))
  None.

Lemma length_ram d : length (ram d) = Z.to_nat (nb * bs).
Proof. apply length_resize. Qed.

Lemma ram_write_at d off l : ram (write_at (ram d) off l) = write_at (ram d) off l.
Proof. unfold ram. by rewrite resize_all_alt by (by rewrite length_write_at, length_resize). Qed.

#[export] Instance ram_ok : BlkdevOk ram_ops bs nb.
Proof using Hbs Hnb.
  refine {| cells := ram; healthy := fun _ => True; erased := Init.Byte.xff |}.
  - intros d. rewrite length_ram. nia.
  - intros d buf block n H1 H2 H3 H4. eexists _, _, _. split; [reflexivity|].
    split_and!; try done; [by rewrite length_write_at|]. intros _.
    assert (Hl : length (read_at (ram d) (Z.to_nat (block * bs)) (Z.to_nat (n * bs))) = Z.to_nat (n * bs)).
    { apply length_read_at. rewrite length_ram. nia. }
    pose proof (read_write_at_same buf 0 (read_at (ram d) (Z.to_nat (block * bs)) (Z.to_nat (n * bs)))) as E.
    rewrite Hl in E. unfold read_at in E at 1. rewrite drop_0 in E. apply E. lia.
  - eexists. split; [reflexivity|]. intros d buf block n H1 H2 H3 H4. eexists _, _. split; [reflexivity|].
    assert (Hfit : (Z.to_nat (block * bs) + Z.to_nat (n * bs) <= Z.to_nat (nb * bs))%nat) by nia.
    split_and!; [|by intros; apply ram_write_at|done]. intros i Hi.
    rewrite ram_write_at, lookup_write_at by (rewrite length_ram, length_take; lia).
    rewrite length_take, decide_False by lia. done.
  - intros erase [= <-] d block n H1 H2 H3. eexists _, _. split; [reflexivity|].
    assert (Hfit : (Z.to_nat (block * bs) + Z.to_nat (n * bs) <= Z.to_nat (nb * bs))%nat) by nia.
    split_and!; try done; intros; rewrite ram_write_at, lookup_write_at by (rewrite length_ram, length_replicate; lia);
      rewrite length_replicate; case_decide; try done. rewrite lookup_replicate. split; [done|lia].
  - done.
Defined.

End Ram.

(** Ten blocks of 512 bytes, one block in a chunk. *)
Definition blk0 : block_device (D := list byte) := Blk 9 10 0 0 0 0 [] [] false (Stats 0 0 0) [].

Definition alloc (_ n : Z) : list byte := replicate (Z.to_nat n) Init.Byte.x55.

Definition disk10 : block_device (D := list byte) :=
  snd (blockdevice_register 32 alloc (fun _ => 0) (fun b => b) blk0).

Lemma geometry10 : geometry 32 9 10 1.
Proof. split; try done. exists 0. done. Qed.

#[export] Instance ram10 : BlkdevOk (ram_ops (2 ^ 9) 10) (2 ^ 9) 10 := ram_ok (2 ^ 9) 10 ltac:(lia) ltac:(lia).

Definition run10 (reqs : list request) : list (Z * list byte) :=
  fst (serve_all true true (ram_ops (2 ^ 9) 10) 9 10 disk10 reqs).

Definition requests : list request := [Write [Init.Byte.x41; Init.Byte.x42] 511; Read 4 510; Flush; Write [Init.Byte.x43] 0; Close [(512, 0)]; Read 1 0].

Lemma block_refines_witness :
  exists outs blk' dk,
    serve_all true true (ram_ops (2 ^ 9) 10) 9 10 disk10 requests = (outs, blk') /\
    disk_run 32 (ram_ops (2 ^ 9) 10) 9 10 (Disk (Some <$> ram (2 ^ 9) 10 []) 0 0) requests outs dk /\
    Forall2 (fun req out => served (ram_ops (2 ^ 9) 10) 9 10 req (fst out)) requests outs.
Proof.
  destruct (block_refines 32 true true (ram_ops (2 ^ 9) 10) 9 10 1 geometry10 eq_refl alloc (fun _ => 0) []
    blk0 disk10 requests) as (outs & blk' & dk & H1 & H2 & H3).
  - done.
  - intros i. unfold alloc. by rewrite length_replicate.
  - constructor.
  - constructor.
  - reflexivity.
  - repeat constructor; cbn; lia.
  - exists outs, blk', dk. split_and!; [exact H1|exact H2|by apply H3].
Defined.

(** The interface for users, on a device with 4 KiB pages. *)
Lemma ram_int bs nb : returns_int (ram_ops bs nb).
Proof. split; [done|]. by intros write d buf block n [= <-]. Qed.

Lemma ram_geometry nb : 0 < nb < 2 ^ 32 -> geometry 4096 9 nb 128.
Proof. intros Hnb. split; try done; [by exists 7|lia|lia]. Qed.

Definition ram_device (nb : Z) (d : list byte) : block_device (D := list byte) :=
  snd (blockdevice_register 4096 alloc (fun _ => 0) (fun b => b) (Blk 9 nb 0 0 0 0 [] [] false (Stats 0 0 0) d)).

Definition ram_io (nb : Z) (H : 0 < nb < 2 ^ 32) : BlockIo true true (ram_ops (2 ^ 9) nb) 9 nb :=
  @block_io _ 4096 true (ram_ops (2 ^ 9) nb) 9 nb 128 (ram_ok (2 ^ 9) nb ltac:(lia) ltac:(lia)) (ram_geometry nb H) (ram_int _ _)
    ltac:(change (2 ^ 9) with 512; lia).

Lemma ram_contents nb H d : @contents _ _ _ _ _ _ (ram_io nb H) (ram_device nb d) (ram (2 ^ 9) nb d).
Proof.
  exact (@register_inv _ 4096 (ram_ops (2 ^ 9) nb) 9 nb 128 (ram_ok (2 ^ 9) nb ltac:(lia) ltac:(lia)) (ram_geometry nb H)
    (Blk 9 nb 0 0 0 0 [] [] false (Stats 0 0 0) d) alloc ltac:(done) ltac:(intros i; apply length_replicate)).
Qed.

(** A write inside a discard range does not last.  The range is discarded, a
    byte is written, eight other chunks are used: reading the byte gives 0,
    because the chunk that has meanwhile been written back is in the discard range
    and not read from the device again. *)
Theorem block_discard_loses_writes :
  last (run10 (Discard 5120 0 :: map (fun k => Write [Init.Byte.x41] (k * 512)) [0; 1; 2; 3; 4; 5; 6; 7; 8] ++ [Read 1 0])) =
  Some (1, [Init.Byte.x00]).
Proof. vm_compute. reflexivity. Qed.

(** Without the discard the byte is there. *)
Example block_keeps_writes :
  last (run10 (map (fun k => Write [Init.Byte.x41] (k * 512)) [0; 1; 2; 3; 4; 5; 6; 7; 8] ++ [Read 1 0])) =
  Some (1, [Init.Byte.x41]).
Proof. vm_compute. reflexivity. Qed.

End Demo.

End Block.
