(* ===== verification/Fdt.v ===== *)
(** * Flattened device trees (drivers/of/fdt.c)

    Reading a device tree blob into nodes and properties, writing nodes and
    properties as a blob, the memory reserve map, and the search for the
    compatible strings of a blob.

    A blob comes from outside, so every access to it is checked here: a function
    that reads or writes outside of its buffer has the result [None].  The
    functions that return pointers or error codes have a [res] inside.  The
    number a node caches for its phandle is left out; it is that of the property. *)

From stdpp Require Import base list strings.
From Stdlib Require Import ZArith Lia.
From Stdlib Require Strings.String.
From S2P Require Import Prelude Of Kfifo.

Module Fdt.
Import Of.

(** ** Checked accesses *)

(** [x <- m;; k]: stop when [m] left its buffer. *)
Notation "x <-! m ;; k" := (match m with Some x => k | None => None end)
  (at level 100, m at next level, right associativity).

Definition ld (fdt : list byte) (off n : Z) : option (list byte) :=
  if (0 <=? off) && (off + n <=? Z.of_nat (length fdt))
  then Some (read_at fdt (Z.to_nat off) (Z.to_nat n)) else None.

(** [be32_to_cpu] and [be64_to_cpu] of the bytes at an offset. *)
Definition ld32 (fdt : list byte) (off : Z) : option Z := be_val <$> ld fdt off 4.

Definition ld64 (fdt : list byte) (off : Z) : option Z := be_val <$> ld fdt off 8.

Definition st (buf : list byte) (off : Z) (data : list byte) : option (list byte) :=
  if (0 <=? off) && (off + Z.of_nat (length data) <=? Z.of_nat (length buf))
  then Some (write_at buf (Z.to_nat off) data) else None.

(** [memchr(s, 0, n)]: whether there is a terminator among [n] bytes. *)
Fixpoint memchr0 (s : list byte) (n : nat) : option bool :=
  match n, s with
  | O, _ => Some false
  | S _, [] => None
  | S n, b :: s => if bool_decide (b = Init.Byte.x00) then Some true else memchr0 s n
  end.

(** [strnlen(s, n)]. *)
Fixpoint strnlen_at (s : list byte) (n : nat) : option nat :=
  match n, s with
  | O, _ => Some 0%nat
  | S _, [] => None
  | S n, b :: s => if bool_decide (b = Init.Byte.x00) then Some 0%nat else S <$> strnlen_at s n
  end.

(** ** The format (scripts/dtc/libfdt/fdt.h) *)

Definition FDT_MAGIC : Z := 0xd00dfeed.
Definition FDT_TAGSIZE : Z := 4.
Definition FDT_BEGIN_NODE : Z := 1.
Definition FDT_END_NODE : Z := 2.
Definition FDT_PROP : Z := 3.
Definition FDT_NOP : Z := 4.
Definition FDT_END : Z := 9.
Definition OF_MAX_RESERVE_MAP : Z := 16.
Definition FDT_MAX_DEPTH : Z := 64.

(** Offsets of the header fields, and the size of the header. *)
Definition o_magic : Z := 0.
Definition o_totalsize : Z := 4.
Definition o_off_dt_struct : Z := 8.
Definition o_off_dt_strings : Z := 12.
Definition o_off_mem_rsvmap : Z := 16.
Definition o_version : Z := 20.
Definition o_size_dt_strings : Z := 32.
Definition o_size_dt_struct : Z := 36.
Definition sizeof_fdt_header : Z := 40.
Definition sizeof_fdt_reserve_entry : Z := 16.
Definition sizeof_fdt_node_header : Z := 4.
Definition sizeof_fdt_property : Z := 12.

(** The header fields the parser uses, in host byte order. *)
Record fdt_header := Header {
  totalsize : Z;
  off_dt_struct : Z;
  size_dt_struct : Z;
  off_dt_strings : Z;
  size_dt_strings : Z
}.

(** ** Reading a blob

    [addr] is the address of the blob; pointers into it are offsets. *)

Definition __dt_ptr_ok (addr : Z) (fdt : list byte) (p elem_size elem_align : Z) : option bool :=
  total <-! ld32 fdt o_totalsize;;
  Some (negb (addr + p =? 0) && (Z.land (addr + p) (elem_align - 1) =? 0) && (p + elem_size <=? total)).

Definition ALIGN4 (x : Z) : Z := Z.land (u32 (x + 3)) (u32 (Z.lnot 3)).

(** 0 when the end of the structure block would be passed. *)
Definition dt_struct_advance (f : fdt_header) (dt size increment : Z) : Z :=
  if 2 ^ 32 <=? dt + size then 0
  else if 2 ^ 32 <=? dt + size + increment then 0
  else
    let dt := ALIGN4 (dt + size + increment) in
    if u32 (off_dt_struct f + size_dt_struct f) <? dt then 0 else dt.

(** The offset of the string in the blob, if it is terminated. *)
Definition dt_string (f : fdt_header) (fdt : list byte) (ofs : Z) : option (option Z) :=
  if size_dt_strings f <? ofs then Some None
  else
    let str := off_dt_strings f + ofs in
    t <-! memchr0 (drop (Z.to_nat str) fdt) (Z.to_nat (s32 (size_dt_strings f - ofs)));;
    Some (if t : bool then Some str else None).

Definition first_byte (s : string) : byte := match bytes_of s with b :: _ => b | [] => Init.Byte.x00 end.

Definition is_reserved_name (name : string) : bool := bool_decide (first_byte name = Init.Byte.x24).

Definition is_allowed_input_name (name : string) : bool :=
  negb (is_reserved_name name) && negb (bool_decide (Init.Byte.x2f ∈ bytes_of name)).

(** The loop over the entries; there are at most [OF_MAX_RESERVE_MAP] rounds. *)
Fixpoint reservemap_loop (fuel : nat) (addr : Z) (fdt : list byte) (r n : Z) : option Z :=
  match fuel with
  | O => Some (- EINVAL)
  | S fuel =>
      ok <-! __dt_ptr_ok addr fdt r sizeof_fdt_reserve_entry 1;;
      if (ok : bool) && (n <? OF_MAX_RESERVE_MAP) then
        size <-! ld64 fdt (r + 8);;
        if size =? 0 then Some n
        else reservemap_loop fuel addr fdt (r + sizeof_fdt_reserve_entry) (n + 1)
      else Some (if n =? OF_MAX_RESERVE_MAP then - EINVAL else - ESPIPE)
  end.

Definition of_reservemap_num_entries (addr : Z) (fdt : list byte) : option Z :=
  r <-! ld32 fdt o_off_mem_rsvmap;;
  reservemap_loop 17 addr fdt r 0.

Definition of_unflatten_reservemap (addr : Z) (root : device_node) (fdt : list byte) : option (Z * device_node) :=
  n <-! of_reservemap_num_entries addr fdt;;
  if n <=? 0 then Some (n, root)
  else
    r <-! ld32 fdt o_off_mem_rsvmap;;
    d <-! ld fdt r (n * sizeof_fdt_reserve_entry);;
    let memreserve := of_new_property (of_new_node root "$memreserve") "reg" (Some d) (length d) in
    Some (0, add_child root memreserve).

Definition fdt_parse_header (fdt : list byte) (fdt_size : Z) : option (res fdt_header) :=
  if fdt_size <? sizeof_fdt_header then Some (Err (- EINVAL))
  else
    magic <-! ld32 fdt o_magic;;
    if negb (magic =? FDT_MAGIC) then Some (Err (- EINVAL))
    else
      version <-! ld32 fdt o_version;;
      if negb (version =? 17) then Some (Err (- EINVAL))
      else
        total <-! ld32 fdt o_totalsize;;
        ofs <-! ld32 fdt o_off_dt_struct;;
        sis <-! ld32 fdt o_size_dt_struct;;
        oft <-! ld32 fdt o_off_dt_strings;;
        sit <-! ld32 fdt o_size_dt_strings;;
        if fdt_size <? total then Some (Err (- EINVAL))
        else if total <? ofs + sis then Some (Err (- ESPIPE))
        else if total <? oft + sit then Some (Err (- ESPIPE))
        else Some (Ok (Header total ofs sis oft sit)).

(** The loop of [__of_unflatten_dtb]: [u_open] are the open nodes, the innermost
    first (empty for a null [node]), each without its open child, which hangs below
    it once it is closed; [u_root] is the root while it is not open. *)
Record ustate := U {
  u_dt : Z;
  u_root : device_node;
  u_open : list device_node;
  u_depth : Z
}.

Fixpoint up (c : device_node) (ps : list device_node) : device_node :=
  match ps with
  | [] => c
  | p :: ps => up (add_child p c) ps
  end.

(** The root with everything below it. *)
Definition whole (u : ustate) : device_node :=
  match u_open u with
  | [] => u_root u
  | c :: ps => up c ps
  end.

Definition unflatten_begin (f : fdt_header) (fdt : list byte) (u : ustate) : option (res ustate) :=
  let name_at := u_dt u + sizeof_fdt_node_header in
  let maxlen := s32 (off_dt_struct f + size_dt_struct f - name_at) in
  if maxlen <=? 0 then Some (Err (- ESPIPE))
  else
    len <-! strnlen_at (drop (Z.to_nat name_at) fdt) (Z.to_nat maxlen);;
    if maxlen <=? Z.of_nat len then Some (Err (- ESPIPE))
    else
      let pathp := cstr (drop (Z.to_nat name_at) fdt) in
      let dt := dt_struct_advance f (u_dt u) (sizeof_fdt_node_header + 1) (Z.of_nat len) in
      if dt =? 0 then Some (Err (- ESPIPE))
      else
        let depth := u32 (u_depth u + 1) in
        if FDT_MAX_DEPTH <? depth then Some (Err (- EINVAL))
        else
          let empty := bool_decide (first_byte pathp = Init.Byte.x00) in
          match u_open u with
          | [] => if negb empty then Some (Err (- EINVAL)) else Some (Ok (U dt (u_root u) [u_root u] depth))
          | node :: _ =>
              if empty || negb (is_allowed_input_name pathp) then Some (Err (- EINVAL))
              else Some (Ok (U dt (u_root u) (of_new_node node pathp :: u_open u) depth))
          end.

Definition unflatten_end (f : fdt_header) (u : ustate) : res ustate :=
  match u_open u with
  | [] => Err (- EINVAL)
  | c :: ps =>
      let depth := u32 (u_depth u - 1) in
      let dt := dt_struct_advance f (u_dt u) FDT_TAGSIZE 0 in
      if dt =? 0 then Err (- ESPIPE)
      else Ok match ps with
              | [] => U dt c [] depth
              | p :: ps => U dt (u_root u) (add_child p c :: ps) depth
              end
  end.

Definition unflatten_prop (f : fdt_header) (addr : Z) (fdt : list byte) (u : ustate) : option (res ustate) :=
  ok <-! __dt_ptr_ok addr fdt (u_dt u) sizeof_fdt_property 4;;
  if negb ok then Some (Err (- ESPIPE))
  else
    len <-! ld32 fdt (u_dt u + 4);;
    nameoff <-! ld32 fdt (u_dt u + 8);;
    name <-! dt_string f fdt nameoff;;
    match name, u_open u with
    | Some name, node :: ps =>
        let name := cstr (drop (Z.to_nat name) fdt) in
        if negb (is_allowed_input_name name) then Some (Err (- ESPIPE))
        else
          let dt := dt_struct_advance f (u_dt u) sizeof_fdt_property len in
          if dt =? 0 then Some (Err (- ESPIPE))
          else
            d <-! ld fdt (u_dt u + sizeof_fdt_property) len;;
            Some (Ok (U dt (u_root u) (of_new_property node name (Some d) (length d) :: ps) (u_depth u)))
    | _, _ => Some (Err (- ESPIPE))
    end.

(** Each round ends, fails, or moves on by at least a tag. *)
Fixpoint unflatten_loop (fuel : nat) (f : fdt_header) (addr : Z) (fdt : list byte) (u : ustate)
  : option (res device_node) :=
  match fuel with
  | O => None
  | S fuel =>
      ok <-! __dt_ptr_ok addr fdt (u_dt u) 4 4;;
      if negb ok then Some (Err (- ESPIPE))
      else
        tag <-! ld32 fdt (u_dt u);;
        if tag =? FDT_END then Some (Ok (whole u))
        else
          u' <-! (if tag =? FDT_BEGIN_NODE then unflatten_begin f fdt u
                  else if tag =? FDT_END_NODE then Some (unflatten_end f u)
                  else if tag =? FDT_PROP then unflatten_prop f addr fdt u
                  else if tag =? FDT_NOP then
                    let dt := dt_struct_advance f (u_dt u) FDT_TAGSIZE 0 in
                    Some (if dt =? 0 then Err (- ESPIPE) else Ok (U dt (u_root u) (u_open u) (u_depth u)))
                  else Some (Err (- EINVAL)));;
          match u' with
          | Err e => Some (Err e)
          | Ok u' => unflatten_loop fuel f addr fdt u'
          end
  end.

(** [size] is an [int], the header check takes a [size_t]. *)
Definition of_unflatten_dtb (addr : Z) (infdt : list byte) (size : Z) : option (res device_node) :=
  f <-! fdt_parse_header infdt (u64 size);;
  match f with
  | Err e => Some (Err e)
  | Ok f =>
      r <-! of_unflatten_reservemap addr of_new_root infdt;;
      let '(ret, root) := r in
      if negb (ret =? 0) then Some (Err ret)
      else unflatten_loop (S (length infdt)) f addr infdt (U (off_dt_struct f) root [] 0)
  end.

(** ** Writing a blob *)

Record fdt := Buf {
  dt : list byte;
  dt_nextofs : Z;
  dt_size : Z;
  strings : list byte;
  str_nextofs : Z;
  str_size : Z
}.

Definition set_dt b v := Buf v (dt_nextofs b) (dt_size b) (strings b) (str_nextofs b) (str_size b).
Definition set_dt_nextofs b v := Buf (dt b) v (dt_size b) (strings b) (str_nextofs b) (str_size b).

Definition SZ_64K : Z := 65536.
Definition MALLOC_MAX_SIZE : Z := 2 ^ 30.

(** Memory that [realloc] adds has arbitrary contents. *)
Section Flatten.
Context (junk : nat -> list byte).

Definition dt_next_ofs (curofs len : Z) : Z := ALIGN4 (u32 (curofs + len)).

(** The copy in [dest] at [off], and the length or an error. *)
Definition lstrcpy (dest : list byte) (off : Z) (src : string) : option (Z * list byte) :=
  let s := cstr_bytes src in
  if (length s <? 1024)%nat then
    d <-! st dest off s;; Some (Z.of_nat (length s) - 1, d)
  else d <-! st dest off (take 1024 s);; Some (- ENOSPC, d).

(** The inner [None] is a null pointer. *)
Definition memalign_realloc (orig : list byte) (newsize : Z) : option (option (list byte)) :=
  if MALLOC_MAX_SIZE <? newsize then Some None
  else if newsize <? Z.of_nat (length orig) then None
  else Some (Some (orig ++ replicate (Z.to_nat newsize - length orig) Init.Byte.x00)).

(** Room for a property of [dtsize] bytes and for a name. *)
Definition fdt_ensure_space (b : fdt) (dtsize : Z) : option (Z * fdt) :=
  let b :=
    if u32 (str_size b - str_nextofs b) <? 1024 then
      let new_size := u32 (str_size b * 2) in
      Buf (dt b) (dt_nextofs b) (dt_size b)
        (strings b ++ junk (Z.to_nat new_size - length (strings b))) (str_nextofs b) new_size
    else b in
  if u32 (dt_size b - dt_nextofs b) <? u32 (1024 + dtsize) then
    let new_size := u32 (dt_size b * 2) in
    let new_size := if new_size <=? u64 dtsize
                    then Kfifo.roundup_pow_of_two (u32 (dt_size b + dtsize)) else new_size in
    d <-! memalign_realloc (dt b) new_size;;
    match d with
    | None => Some (- ENOMEM, b)
    | Some d => Some (0, Buf d (dt_nextofs b) (u32 new_size) (strings b) (str_nextofs b) (str_size b))
    end
  else Some (0, b).

Definition dt_add_string (b : fdt) (str : string) : option (Z * fdt) :=
  r <-! fdt_ensure_space b 0;;
  let '(ret, b) := r in
  if ret <? 0 then Some (- ENOMEM, b)
  else
    c <-! lstrcpy (strings b) (str_nextofs b) str;;
    let '(len, s) := c in
    if len <? 0 then Some (- ENOSPC, Buf (dt b) (dt_nextofs b) (dt_size b) s (str_nextofs b) (str_size b))
    else Some (str_nextofs b, Buf (dt b) (dt_nextofs b) (dt_size b) s (u32 (str_nextofs b + (len + 1))) (str_size b)).

(** A store at the end of the structure block, which stays the end. *)
Definition put (b : fdt) (off : Z) (data : list byte) : option fdt :=
  d <-! st (dt b) (dt_nextofs b + off) data;; Some (set_dt b d).

(** One property; [fp] must not be moved while its name is added. *)
Definition flatten_prop (b : fdt) (p : property) : option (Z * fdt) :=
  if is_reserved_name (p_name p) then Some (0, b)
  else
    r <-! fdt_ensure_space b (p_length p);;
    let '(ret, b) := r in
    if ret <? 0 then Some (- ENOMEM, b)
    else
      b <-! put b 0 (be_bytes 4 FDT_PROP);;
      b <-! put b 4 (be_bytes 4 (p_length p));;
      r <-! dt_add_string b (p_name p);;
      let '(nameoff, b') := r in
      if negb (dt_size b' =? dt_size b) then None
      else
        b <-! put b' 8 (be_bytes 4 (u32 nameoff));;
        b <-! put b 12 (default [] (p_value p));;
        Some (0, set_dt_nextofs b (dt_next_ofs (dt_nextofs b) (sizeof_fdt_property + p_length p))).

Fixpoint flatten_props (b : fdt) (ps : list property) : option (Z * fdt) :=
  match ps with
  | [] => Some (0, b)
  | p :: ps =>
      r <-! flatten_prop b p;;
      let '(ret, b) := r in
      if negb (ret =? 0) then Some (ret, b) else flatten_props b ps
  end.

(** The loop over the children, with the work on one child. *)
Fixpoint flatten_children (g : fdt -> device_node -> option (Z * fdt)) (b : fdt) (l : list device_node)
  : option (Z * fdt) :=
  match l with
  | [] => Some (0, b)
  | n :: l =>
      if is_reserved_name (n_name n) then flatten_children g b l
      else
        r <-! g b n;;
        let '(ret, b) := r in
        if negb (ret =? 0) then Some (ret, b) else flatten_children g b l
  end.

Definition flatten_begin (b : fdt) (name : string) : option (Z * fdt) :=
  r <-! fdt_ensure_space b 0;;
  let '(ret, b) := r in
  if ret <? 0 then Some (- ENOMEM, b)
  else
    b <-! put b 0 (be_bytes 4 FDT_BEGIN_NODE);;
    c <-! lstrcpy (dt b) (dt_nextofs b + 4) name;;
    let '(len, d) := c in
    Some (0, set_dt_nextofs (set_dt b d) (dt_next_ofs (dt_nextofs b) (u32 (u32 len + 5)))).

Definition flatten_end (b : fdt) : option (Z * fdt) :=
  b <-! put b 0 (be_bytes 4 FDT_END_NODE);;
  let b := set_dt_nextofs b (dt_next_ofs (dt_nextofs b) sizeof_fdt_node_header) in
  r <-! fdt_ensure_space b 0;;
  let '(ret, b) := r in
  Some (if ret <? 0 then (- ENOMEM, b) else (0, b)).

Fixpoint __of_flatten_dtb (b : fdt) (node : device_node) {struct node} : option (Z * fdt) :=
  match node with
  | Node name _ ps cs =>
      r <-! flatten_begin b name;;
      let '(ret, b) := r in
      if negb (ret =? 0) then Some (ret, b)
      else
        r <-! flatten_props b ps;;
        let '(ret, b) := r in
        if negb (ret =? 0) then Some (ret, b)
        else
          r <-! flatten_children (fun b n => __of_flatten_dtb b n) b cs;;
          let '(ret, b) := r in
          if negb (ret =? 0) then Some (ret, b) else flatten_end b
  end.

(** All nodes below the start node, in the order of their list: a new node is put
    right behind its parent. *)
Fixpoint nodes_below (np : device_node) : list device_node :=
  match np with
  | Node _ _ _ cs => concat (rev (map (fun c => c :: nodes_below c) cs))
  end.

Definition of_find_node_by_name_address (from : device_node) (name : string) : option device_node :=
  snd <$> list_find (fun np => n_name np = name) (nodes_below from).

Definition header_bytes (off_rsvmap off_struct size_struct off_strings size_strings total : Z) : list byte :=
  be_bytes 4 FDT_MAGIC ++ be_bytes 4 total ++ be_bytes 4 off_struct ++ be_bytes 4 off_strings ++
  be_bytes 4 off_rsvmap ++ be_bytes 4 0x11 ++ be_bytes 4 0x10 ++ be_bytes 4 0 ++
  be_bytes 4 size_strings ++ be_bytes 4 size_struct.

(** The inner [None] is a null pointer. *)
Definition of_flatten_dtb (node : device_node) : option (option (list byte)) :=
  let off_mem_rsvmap := sizeof_fdt_header in
  let ofs := sizeof_fdt_header + sizeof_fdt_reserve_entry * OF_MAX_RESERVE_MAP in
  let b := Buf (replicate (Z.to_nat SZ_64K) Init.Byte.x00) ofs SZ_64K
             (replicate (Z.to_nat SZ_64K) Init.Byte.x00) 0 SZ_64K in
  r <-! __of_flatten_dtb b node;;
  let '(ret, b) := r in
  if negb (ret =? 0) then Some None
  else
    d <-! match of_find_node_by_name_address node "$memreserve" with
          | Some memreserve =>
              match of_get_property memreserve "reg" with
              | Some entries => st (dt b) off_mem_rsvmap entries
              | None => Some (dt b)
              end
          | None => Some (dt b)
          end;;
    b <-! put (set_dt b d) 0 (be_bytes 4 FDT_END);;
    let next := dt_next_ofs (dt_nextofs b) sizeof_fdt_node_header in
    let str := str_nextofs b in
    d <-! (if u32 (dt_size b - next) <? str then memalign_realloc (dt b) (u32 (next + str)) else Some (Some (dt b)));;
    match d with
    | None => Some None
    | Some d =>
        d <-! st d next (take (Z.to_nat str) (strings b));;
        d <-! st d 0 (header_bytes off_mem_rsvmap ofs (u32 (next - ofs)) next str (u32 (next + str)));;
        Some (Some d)
    end.

End Flatten.

(** ** The reserve map *)

Record of_reserve_map := Rsv {
  rs_start : list Z;
  rs_end : list Z
}.

Definition OF_MAX_FREE_RESERVE_MAP : Z := OF_MAX_RESERVE_MAP - 2.

Definition num_entries (m : of_reserve_map) : Z := Z.of_nat (length (rs_start m)).

Definition of_add_reserve_entry (m : of_reserve_map) (start end_ : Z) : Z * of_reserve_map :=
  if OF_MAX_FREE_RESERVE_MAP <=? num_entries m then (- ENOSPC, m)
  else (0, Rsv (rs_start m ++ [start]) (rs_end m ++ [end_])).

(** The first matching entry goes, those behind it move up. *)
Fixpoint del_entry (start end_ : Z) (l : list (Z * Z)) : list (Z * Z) :=
  match l with
  | [] => []
  | e :: l => if (fst e =? start) && (snd e =? end_) then l else e :: del_entry start end_ l
  end.

Definition of_del_reserve_entry (m : of_reserve_map) (start end_ : Z) : of_reserve_map :=
  let l := del_entry start end_ (zip (rs_start m) (rs_end m)) in Rsv (map fst l) (map snd l).

Definition of_clean_reserve_map : of_reserve_map := Rsv [] [].

(** The entries of the map behind those of the blob, and the end marker. *)
Fixpoint write_entries (fdt : list byte) (r : Z) (l : list (Z * Z)) : option (list byte) :=
  match l with
  | [] => f <-! st fdt r (be_bytes 8 0);; st f (r + 8) (be_bytes 8 0)
  | (start, end_) :: l =>
      f <-! st fdt r (be_bytes 8 start);;
      f <-! st f (r + 8) (be_bytes 8 (u64 (end_ - start + 1)));;
      write_entries f (r + sizeof_fdt_reserve_entry) l
  end.

Definition fdt_add_reserve_map (addr : Z) (fdt : list byte) (m : of_reserve_map) : option (list byte) :=
  r <-! ld32 fdt o_off_mem_rsvmap;;
  n <-! of_reservemap_num_entries addr fdt;;
  if n <? 0 then Some fdt
  else if OF_MAX_FREE_RESERVE_MAP <? n + num_entries m + 2 then Some fdt
  else write_entries fdt (r + n * sizeof_fdt_reserve_entry) (zip (rs_start m) (rs_end m)).

(** ** The compatible strings of a blob *)

Definition OF_DEVICE_COMPATIBLE_MAX_SCORE : Z := (2 ^ 31 - 1) / 2.

(** The list of strings [haystack]; every round drops at least a terminator. *)
Fixpoint string_is_compatible (fuel : nat) (haystack needle : list byte) (index : Z) : Z :=
  match fuel with
  | O => 0
  | S fuel =>
      if (length needle <? length haystack)%nat then
        if bool_decide (take (S (length needle)) haystack = needle ++ [Init.Byte.x00])
        then OF_DEVICE_COMPATIBLE_MAX_SCORE - Z.shiftl index 2
        else
          let k := strnlen haystack in
          if (k =? length haystack)%nat then 0
          else string_is_compatible fuel (drop (S k) haystack) needle (index + 1)
      else 0
  end.

Definition fdt_string_is_compatible (haystack needle : list byte) : Z :=
  string_is_compatible (S (length haystack)) haystack needle 0.

(** The loop of [fdt_machine_is_compatible]; [expect] is the tag that may come. *)
Fixpoint compatible_loop (fuel : nat) (f : fdt_header) (addr : Z) (fdt : list byte) (dt expect : Z)
    (compat : list byte) : option Z :=
  match fuel with
  | O => None
  | S fuel =>
      ok <-! __dt_ptr_ok addr fdt dt 4 4;;
      if negb ok then Some 0
      else
        tag <-! ld32 fdt dt;;
        if negb (tag =? FDT_NOP) && negb (tag =? expect) then Some 0
        else if tag =? FDT_BEGIN_NODE then
          name <-! ld fdt (dt + sizeof_fdt_node_header) 1;;
          if negb (bool_decide (name = [Init.Byte.x00])) then Some 0
          else
            let dt := dt_struct_advance f dt sizeof_fdt_node_header 1 in
            if dt =? 0 then Some 0 else compatible_loop fuel f addr fdt dt FDT_PROP compat
        else if tag =? FDT_PROP then
          ok <-! __dt_ptr_ok addr fdt dt sizeof_fdt_property 4;;
          if negb ok then Some 0
          else
            len <-! ld32 fdt (dt + 4);;
            nameoff <-! ld32 fdt (dt + 8);;
            name <-! dt_string f fdt nameoff;;
            match name with
            | None => Some 0
            | Some name =>
                let next := dt_struct_advance f dt sizeof_fdt_property len in
                if next =? 0 then Some 0
                else if negb (bool_decide (cstr (drop (Z.to_nat name) fdt) = "compatible")) then
                  compatible_loop fuel f addr fdt next expect compat
                else
                  d <-! ld fdt (dt + sizeof_fdt_property) len;;
                  Some (fdt_string_is_compatible d compat)
            end
        else
          let dt := dt_struct_advance f dt FDT_TAGSIZE 0 in
          if dt =? 0 then Some 0 else compatible_loop fuel f addr fdt dt expect compat
  end.

Definition fdt_machine_is_compatible (addr : Z) (fdt : list byte) (fdt_size : Z) (compat : string) : option Z :=
  f <-! fdt_parse_header fdt fdt_size;;
  match f with
  | Err _ => Some 0
  | Ok f => compatible_loop (S (length fdt)) f addr fdt (off_dt_struct f) FDT_BEGIN_NODE (bytes_of compat)
  end.

(** ** Accesses stay inside *)

Lemma ld_some fdt off n :
  0 <= off -> 0 <= n -> off + n <= Z.of_nat (length fdt) ->
  ld fdt off n = Some (read_at fdt (Z.to_nat off) (Z.to_nat n)).
Proof. intros H1 H2 H3. unfold ld. by replace ((0 <=? off) && (off + n <=? Z.of_nat (length fdt))) with true by lia. Qed.

Lemma ld32_some fdt off :
  0 <= off -> off + 4 <= Z.of_nat (length fdt) -> exists v, ld32 fdt off = Some v /\ 0 <= v < 2 ^ 32.
Proof.
  intros H1 H2. unfold ld32. rewrite ld_some by lia. eexists. split; [done|].
  unfold be_val. split; [apply le_val_nonneg|]. eapply Z.lt_le_trans; [apply le_val_bound|].
  rewrite length_rev, length_read_at by lia. done.
Qed.

Lemma ALIGN4_spec x :
  0 <= x < 2 ^ 32 -> ALIGN4 x = 0 \/ x <= ALIGN4 x < x + 4 /\ (4 | ALIGN4 x) /\ ALIGN4 x < 2 ^ 32.
Proof.
  intros H. unfold ALIGN4, u32. change (Z.lnot 3) with (Z.lnot (2 ^ 2 - 1)).
  rewrite land_lnot_mask by (try lia; by apply Z.mod_pos_bound). change (2 ^ 2) with 4.
  destruct (decide (x + 3 < 2 ^ 32)) as [Hs|Hs].
  - right. rewrite Z.mod_small by lia. pose proof (Z.div_mod (x + 3) 4 ltac:(lia)).
    pose proof (Z.mod_pos_bound (x + 3) 4 ltac:(lia)). split_and!; [lia|lia|by exists ((x + 3) / 4)|lia].
  - left. assert (E : (x + 3) mod 2 ^ 32 = x + 3 - 2 ^ 32) by (symmetry; apply Z.mod_unique with 1; lia).
    rewrite E, Z.div_small by lia. done.
Qed.

(** A header that [fdt_parse_header] accepts. *)
Definition header_ok (fdt : list byte) (f : fdt_header) : Prop :=
  0 <= off_dt_struct f /\ 0 <= size_dt_struct f /\ off_dt_struct f + size_dt_struct f <= totalsize f /\
  0 <= off_dt_strings f /\ 0 <= size_dt_strings f /\ off_dt_strings f + size_dt_strings f <= totalsize f /\
  totalsize f <= Z.of_nat (length fdt) < 2 ^ 31 /\ 40 <= Z.of_nat (length fdt) /\ ld32 fdt o_totalsize = Some (totalsize f).

Lemma parse_header_spec fdt size :
  0 <= size <= Z.of_nat (length fdt) -> Z.of_nat (length fdt) < 2 ^ 31 ->
  exists r, fdt_parse_header fdt (u64 size) = Some r /\
    match r with Ok f => header_ok fdt f | Err e => e < 0 end.
Proof.
  intros E Hs. unfold fdt_parse_header. rewrite u64_small by lia.
  destruct (size <? sizeof_fdt_header) eqn:H40; bool_prop; [by eexists|]. change sizeof_fdt_header with 40 in H40.
  destruct (ld32_some fdt o_magic) as (magic & -> & _); [done|unfold o_magic; lia|].
  destruct (negb (magic =? FDT_MAGIC)); [by eexists|].
  destruct (ld32_some fdt o_version) as (v & -> & _); [done|unfold o_version; lia|].
  destruct (negb (v =? 17)); [by eexists|].
  destruct (ld32_some fdt o_totalsize) as (total & Et & ?); [done|unfold o_totalsize; lia|]. rewrite Et.
  destruct (ld32_some fdt o_off_dt_struct) as (ofs & -> & ?); [done|unfold o_off_dt_struct; lia|].
  destruct (ld32_some fdt o_size_dt_struct) as (sis & -> & ?); [done|unfold o_size_dt_struct; lia|].
  destruct (ld32_some fdt o_off_dt_strings) as (oft & -> & ?); [done|unfold o_off_dt_strings; lia|].
  destruct (ld32_some fdt o_size_dt_strings) as (sit & -> & ?); [done|unfold o_size_dt_strings; lia|].
  destruct (size <? total) eqn:Q1; bool_prop; [by eexists|].
  destruct (total <? ofs + sis) eqn:Q2; bool_prop; [by eexists|].
  destruct (total <? oft + sit) eqn:Q3; bool_prop; [by eexists|].
  eexists. split; [done|]. unfold header_ok. cbn. split_and!; try lia. done.
Qed.

Lemma dt_ptr_ok_some addr fdt f p sz al :
  header_ok fdt f -> exists b, __dt_ptr_ok addr fdt p sz al = Some b /\ (b = true -> p + sz <= totalsize f).
Proof.
  intros H. unfold __dt_ptr_ok. replace (ld32 fdt o_totalsize) with (Some (totalsize f)) by (symmetry; apply H).
  eexists. split; [done|]. intros Hb. bool_prop. lia.
Qed.

Lemma memchr0_some s n : (n <= length s)%nat -> exists b, memchr0 s n = Some b.
Proof.
  revert n. induction s as [|x s IH]; intros [|n] H; cbn in *; eauto; [lia|].
  case_bool_decide; eauto. apply IH. lia.
Qed.

Lemma strnlen_at_some s n : (n <= length s)%nat -> exists k, strnlen_at s n = Some k.
Proof.
  revert n. induction s as [|x s IH]; intros [|n] H; cbn in *; eauto; [lia|].
  case_bool_decide; eauto. destruct (IH n) as [k ->]; [lia|]. cbn. eauto.
Qed.

Lemma dt_string_some f fdt ofs :
  header_ok fdt f -> 0 <= ofs -> exists r, dt_string f fdt ofs = Some r.
Proof.
  intros (_ & _ & _ & H1 & H2 & H3 & H4 & _) Ho. unfold dt_string.
  destruct (size_dt_strings f <? ofs) eqn:E; bool_prop; [by eexists|].
  destruct (memchr0_some (drop (Z.to_nat (off_dt_strings f + ofs)) fdt) (Z.to_nat (s32 (size_dt_strings f - ofs))))
    as [b ->]; [|by eexists].
  rewrite s32_small, length_drop by lia. lia.
Qed.

(** A step forward in the structure block. *)
Lemma advance_spec fdt f dt sz inc :
  header_ok fdt f -> 0 <= dt -> 0 <= sz -> 0 <= inc -> dt_struct_advance f dt sz inc <> 0 ->
  dt + sz + inc <= dt_struct_advance f dt sz inc < dt + sz + inc + 4 /\
  dt_struct_advance f dt sz inc <= off_dt_struct f + size_dt_struct f.
Proof.
  intros (H1 & H2 & H3 & _ & _ & _ & H4 & _) Hd Hs Hi. unfold dt_struct_advance.
  destruct (2 ^ 32 <=? dt + sz) eqn:E1; [done|]. destruct (2 ^ 32 <=? dt + sz + inc) eqn:E2; [done|]. bool_prop.
  rewrite u32_small by lia. destruct (_ <? _) eqn:E3; [done|]. bool_prop. intros Hne.
  destruct (ALIGN4_spec (dt + sz + inc)) as [?|(? & _)]; [lia|done|]. lia.
Qed.

Lemma ld64_some fdt off :
  0 <= off -> off + 8 <= Z.of_nat (length fdt) -> exists v, ld64 fdt off = Some v.
Proof. intros H1 H2. unfold ld64. rewrite ld_some by lia. by eexists. Qed.

Lemma reservemap_loop_some fuel : forall addr fdt f r n,
  header_ok fdt f -> 0 <= r -> 0 <= n ->
  exists k, reservemap_loop fuel addr fdt r n = Some k /\
    (0 < k -> n <= k /\ (n < k -> r + (k - n) * 16 <= totalsize f)).
Proof.
  induction fuel as [|fuel IH]; intros addr fdt f r n H Hr Hn; cbn [reservemap_loop].
  { eexists. split; [done|]. unfold EINVAL. lia. }
  destruct (dt_ptr_ok_some addr fdt f r sizeof_fdt_reserve_entry 1 H) as (ok & -> & Hok).
  change sizeof_fdt_reserve_entry with 16 in *.
  destruct (ok && (n <? OF_MAX_RESERVE_MAP)) eqn:E; bool_prop.
  2:{ eexists. split; [done|]. unfold EINVAL, ESPIPE. destruct (n =? OF_MAX_RESERVE_MAP); lia. }
  subst ok. specialize (Hok eq_refl). pose proof H as (_ & _ & _ & _ & _ & _ & Hlen & _).
  destruct (ld64_some fdt (r + 8)) as [sz ->]; [lia..|]. destruct (sz =? 0); [exists n; split; [done|lia]|].
  destruct (IH addr fdt f (r + 16) (n + 1) H) as (k & -> & Hk); [lia..|]. exists k. split; [done|].
  intros Hp. destruct (Hk Hp) as [K1 K2]. split; [lia|]. intros _.
  destruct (decide (k = n + 1)) as [->|]; [lia|]. specialize (K2 ltac:(lia)). lia.
Qed.

Lemma unflatten_reservemap_some addr root fdt f :
  header_ok fdt f -> exists r, of_unflatten_reservemap addr root fdt = Some r.
Proof.
  intros H. pose proof H as (_ & _ & _ & _ & _ & _ & Hlen & H40 & _).
  unfold of_unflatten_reservemap, of_reservemap_num_entries.
  destruct (ld32_some fdt o_off_mem_rsvmap) as (r & -> & Hr); [done|unfold o_off_mem_rsvmap; lia|].
  destruct (reservemap_loop_some 17 addr fdt f r 0 H) as (k & -> & Hk); [lia..|].
  destruct (k <=? 0) eqn:E; bool_prop; [by eexists|]. destruct (Hk E) as [_ H2]. specialize (H2 E).
  change sizeof_fdt_reserve_entry with 16. rewrite ld_some by lia. by eexists.
Qed.

(** Where the structure block goes on. *)
Definition moves (f : fdt_header) (u : ustate) (r : res ustate) : Prop :=
  match r with
  | Ok u' => u_dt u + 4 <= u_dt u' <= off_dt_struct f + size_dt_struct f
  | Err e => e < 0
  end.

Lemma unflatten_begin_some f fdt u :
  header_ok fdt f -> 0 <= u_dt u -> u_dt u + 4 <= totalsize f ->
  exists r, unflatten_begin f fdt u = Some r /\ moves f u r.
Proof.
  intros H Hd Hle. pose proof H as (H1 & H2 & H3 & _ & _ & _ & Hlen & _).
  unfold unflatten_begin. change sizeof_fdt_node_header with 4. rewrite s32_small by lia.
  destruct (_ <=? 0) eqn:E; bool_prop; [by eexists|].
  destruct (strnlen_at_some (drop (Z.to_nat (u_dt u + 4)) fdt)
    (Z.to_nat (off_dt_struct f + size_dt_struct f - (u_dt u + 4)))) as [len ->]; [rewrite length_drop; lia|].
  destruct (_ <=? Z.of_nat len); [by eexists|].
  pose proof (advance_spec fdt f (u_dt u) (4 + 1) (Z.of_nat len) H Hd ltac:(lia) ltac:(lia)) as Hadv.
  set (dt := dt_struct_advance _ _ _ _) in *.
  destruct (_ =? 0) eqn:E0; bool_prop; [by eexists|]. specialize (Hadv E0).
  destruct (FDT_MAX_DEPTH <? _); [by eexists|]. destruct (u_open u).
  - destruct (negb _); eexists; (split; [done|]); cbn; unfold EINVAL; lia.
  - destruct (_ || _); eexists; (split; [done|]); cbn; unfold EINVAL; lia.
Qed.

Lemma unflatten_end_moves f fdt u : header_ok fdt f -> 0 <= u_dt u -> moves f u (unflatten_end f u).
Proof.
  intros H Hd. unfold unflatten_end. destruct (u_open u) as [|c ps]; [done|]. change FDT_TAGSIZE with 4.
  pose proof (advance_spec fdt f (u_dt u) 4 0 H Hd ltac:(lia) ltac:(lia)) as Hadv.
  set (dt := dt_struct_advance _ _ _ _) in *.
  destruct (_ =? 0) eqn:E0; bool_prop; [done|]. specialize (Hadv E0). destruct ps; cbn; lia.
Qed.

Lemma unflatten_prop_some f addr fdt u :
  header_ok fdt f -> 0 <= u_dt u -> exists r, unflatten_prop f addr fdt u = Some r /\ moves f u r.
Proof.
  intros H Hd. pose proof H as (H1 & H2 & H3 & _ & _ & _ & Hlen & _). unfold unflatten_prop.
  destruct (dt_ptr_ok_some addr fdt f (u_dt u) sizeof_fdt_property 4 H) as (ok & -> & Hok).
  change sizeof_fdt_property with 12 in *. destruct ok; cbn [negb]; [|by eexists]. specialize (Hok eq_refl).
  destruct (ld32_some fdt (u_dt u + 4)) as (len & -> & Hl); [lia..|].
  destruct (ld32_some fdt (u_dt u + 8)) as (nameoff & -> & Hn); [lia..|].
  destruct (dt_string_some f fdt nameoff H) as [name ->]; [lia|].
  destruct name as [name|]; [|by eexists]. destruct (u_open u) as [|node ps]; [by eexists|].
  destruct (negb _); [by eexists|].
  pose proof (advance_spec fdt f (u_dt u) 12 len H Hd ltac:(lia) ltac:(lia)) as Hadv.
  set (dt := dt_struct_advance _ _ _ _) in *.
  destruct (_ =? 0) eqn:E0; bool_prop; [by eexists|]. specialize (Hadv E0).
  rewrite ld_some by lia. eexists. split; [done|]. cbn. lia.
Qed.

Lemma unflatten_loop_some fuel : forall f addr fdt u,
  header_ok fdt f -> 0 <= u_dt u <= Z.of_nat (length fdt) -> Z.of_nat (length fdt) - u_dt u < Z.of_nat fuel ->
  exists r, unflatten_loop fuel f addr fdt u = Some r.
Proof.
  induction fuel as [|fuel IH]; intros f addr fdt u H Hd Hf; cbn [unflatten_loop].
  { lia. }
  pose proof H as (H1 & H2 & H3 & _ & _ & _ & Hlen & _).
  destruct (dt_ptr_ok_some addr fdt f (u_dt u) 4 4 H) as (ok & -> & Hok).
  destruct ok; cbn [negb]; [|by eexists]. specialize (Hok eq_refl).
  destruct (ld32_some fdt (u_dt u)) as (tag & -> & _); [lia..|]. destruct (tag =? FDT_END); [by eexists|].
  match goal with |- context [match ?m with Some _ => _ | None => None end] =>
    assert (Hs : exists r, m = Some r /\ moves f u r) end.
  { destruct (tag =? FDT_BEGIN_NODE); [apply unflatten_begin_some; done || lia|].
    destruct (tag =? FDT_END_NODE); [eexists; split; [done|]; eapply unflatten_end_moves; done || lia|].
    destruct (tag =? FDT_PROP); [apply unflatten_prop_some; done || lia|].
    destruct (tag =? FDT_NOP); [|by eexists]. change FDT_TAGSIZE with 4.
    pose proof (advance_spec fdt f (u_dt u) 4 0 H ltac:(lia) ltac:(lia) ltac:(lia)) as Hadv.
  set (dt := dt_struct_advance _ _ _ _) in *.
    eexists. split; [done|]. destruct (_ =? 0) eqn:E0; bool_prop; [done|]. specialize (Hadv E0). cbn. lia. }
  destruct Hs as (r & -> & Hm). destruct r as [u'|e]; [|by eexists]. cbn in Hm. apply IH; [done|lia|lia].
Qed.

Lemma unflatten_some addr infdt size :
  0 <= size <= Z.of_nat (length infdt) -> Z.of_nat (length infdt) < 2 ^ 31 ->
  exists r, of_unflatten_dtb addr infdt size = Some r.
Proof.
  intros E Hs. unfold of_unflatten_dtb.
  destruct (parse_header_spec infdt size E Hs) as (r & -> & Hr). destruct r as [f|e]; [|by eexists].
  destruct (unflatten_reservemap_some addr of_new_root infdt f Hr) as [[ret root] ->].
  destruct (negb (ret =? 0)); [by eexists|].
  pose proof Hr as (H1 & H2 & H3 & _ & _ & _ & Hlen & _). apply unflatten_loop_some; [done|cbn; lia|cbn; lia].
Qed.

(** Errors are never mistaken for success. *)
Lemma unflatten_err addr infdt size e : of_unflatten_dtb addr infdt size = Some (Err e) -> e <> 0.
Proof.
  assert (Hloop : forall fuel f u, unflatten_loop fuel f addr infdt u = Some (Err e) -> e <> 0).
  { induction fuel as [|fuel IH]; intros f u; cbn [unflatten_loop]; [done|].
    destruct (__dt_ptr_ok _ _ _ _ _) as [[|]|]; cbn [negb]; [|intros E; inv E; done|done].
    destruct (ld32 _ _) as [tag|]; [|done]. destruct (tag =? FDT_END); [done|].
    match goal with |- context [match ?m with Some _ => _ | None => None end] => destruct m as [[u'|e']|] eqn:Es end;
      [apply IH| |done]. intros E. inv E. revert Es.
    unfold unflatten_begin, unflatten_end, unflatten_prop.
    repeat case_match; intros E; inv E; done. }
  unfold of_unflatten_dtb. destruct (fdt_parse_header infdt (u64 size)) as [[f|e']|] eqn:Ep; [| |done].
  - destruct (of_unflatten_reservemap _ _ _) as [[ret root]|]; [|done].
    destruct (negb (ret =? 0)) eqn:E; bool_prop; [congruence|]. apply Hloop.
  - intros E. inv E. revert Ep. unfold fdt_parse_header. repeat case_match; intros E; inv E; done.
Qed.

(** C6: reading a blob is memory safe and ends.  Whatever bytes [of_unflatten_dtb]
    is given, it reads none outside of them and returns a tree or an error. *)
Theorem of_unflatten_dtb_safe addr infdt :
  Z.of_nat (length infdt) < 2 ^ 31 ->
  exists r, of_unflatten_dtb addr infdt (Z.of_nat (length infdt)) = Some r.
Proof. intros Hs. apply unflatten_some; lia. Qed.

(** ** What is written

    The encoding of properties and nodes, without the buffers: the structure
    block, and the strings block behind [sb]. *)

Definition pad4 (l : list byte) : list byte :=
  l ++ replicate (Z.to_nat ((- Z.of_nat (length l)) mod 4)) Init.Byte.x00.

Definition enc_prop (sb : list byte) (p : property) : list byte * list byte :=
  if is_reserved_name (p_name p) then ([], sb)
  else (be_bytes 4 FDT_PROP ++ be_bytes 4 (p_length p) ++ be_bytes 4 (Z.of_nat (length sb)) ++
          pad4 (default [] (p_value p)), sb ++ cstr_bytes (p_name p)).

Fixpoint enc_props (sb : list byte) (ps : list property) : list byte * list byte :=
  match ps with
  | [] => ([], sb)
  | p :: ps =>
      let '(d, sb) := enc_prop sb p in
      let '(d', sb) := enc_props sb ps in (d ++ d', sb)
  end.

Fixpoint enc_children (g : list byte -> device_node -> list byte * list byte) (sb : list byte)
    (l : list device_node) : list byte * list byte :=
  match l with
  | [] => ([], sb)
  | n :: l =>
      if is_reserved_name (n_name n) then enc_children g sb l
      else
        let '(d, sb) := g sb n in
        let '(d', sb) := enc_children g sb l in (d ++ d', sb)
  end.

Fixpoint enc_node (sb : list byte) (node : device_node) : list byte * list byte :=
  match node with
  | Node name _ ps cs =>
      let '(dp, sb) := enc_props sb ps in
      let '(dc, sb) := enc_children (fun sb n => enc_node sb n) sb cs in
      (be_bytes 4 FDT_BEGIN_NODE ++ pad4 (cstr_bytes name) ++ dp ++ dc ++ be_bytes 4 FDT_END_NODE, sb)
  end.

(** The bytes of a node header. *)
Definition begin_bytes (name : string) : list byte := be_bytes 4 FDT_BEGIN_NODE ++ pad4 (cstr_bytes name).

(** Names and values that the buffers have room for. *)
Definition prop_fits (p : property) : Prop :=
  is_reserved_name (p_name p) = false -> p_length p <= 64512 /\ (length (bytes_of (p_name p)) < 1000)%nat.

Fixpoint node_fits (node : device_node) : Prop :=
  match node with
  | Node name _ ps cs =>
      (length (bytes_of name) < 1000)%nat /\ Forall prop_fits ps /\
      fold_right (fun c P => (is_reserved_name (n_name c) = false -> node_fits c) /\ P) True cs
  end.

(** *** The buffers while writing *)

(** [D] is written, [W] is stored behind it, zeroes follow; [sb] are the strings. *)
Record pend (b : fdt) (D W sb : list byte) : Prop := {
  h_dt : exists n, dt b = D ++ W ++ replicate n Init.Byte.x00;
  h_next : dt_nextofs b = Z.of_nat (length D);
  h_align : (4 | Z.of_nat (length D));
  h_size : dt_size b = Z.of_nat (length (dt b));
  h_min : 65536 <= dt_size b <= 2 ^ 30;
  h_str : exists r, strings b = sb ++ r;
  h_snext : str_nextofs b = Z.of_nat (length sb);
  h_ssize : str_size b = Z.of_nat (length (strings b));
  h_smin : 65536 <= str_size b < 2 ^ 31
}.

(** The blob does not get too big for the allocator. *)
Definition small (D sb : list byte) : Prop :=
  Z.of_nat (length D) + 3 * 65536 <= 2 ^ 29 /\ Z.of_nat (length sb) + 2048 <= 2 ^ 30.

Section FlattenProofs.

Context (junk : nat -> list byte) (Hjunk : forall n, length (junk n) = n).

(** A buffer that is too full doubles, whatever is asked for up to its new size. *)
Lemma ensure_space_exact b D W sb n :
  pend b D W sb -> small D sb -> 0 <= n < 131072 ->
  exists b', fdt_ensure_space junk b n = Some (0, b') /\ pend b' D W sb /\ Z.of_nat (length sb) + 1024 <= str_size b' /\
    if dt_size b - Z.of_nat (length D) <? 1024 + n then dt_size b' = 2 * dt_size b else dt_size b' = dt_size b /\ dt b' = dt b.
Proof.
  intros [(z & Ed) En Ea Es Em (r & Er) Esn Ess Esm] [Hs1 Hs2] Hn.
  assert (HlenD : Z.of_nat (length D) <= dt_size b) by (rewrite Es, Ed, length_app; lia).
  assert (HlenS : Z.of_nat (length sb) <= str_size b) by (rewrite Ess, Er, length_app; lia).
  unfold fdt_ensure_space. rewrite (u32_small (str_size b - _)) by lia.
  set (b1 := if _ <? 1024 then _ else b).
  assert (H1 : dt b1 = dt b /\ dt_nextofs b1 = dt_nextofs b /\ dt_size b1 = dt_size b /\
    (exists r, strings b1 = sb ++ r) /\ str_nextofs b1 = Z.of_nat (length sb) /\
    str_size b1 = Z.of_nat (length (strings b1)) /\ 65536 <= str_size b1 < 2 ^ 31 /\
    Z.of_nat (length sb) + 1024 <= str_size b1).
  { subst b1. destruct (_ <? 1024) eqn:E; bool_prop; cbn; [|split_and!; done || eauto || lia].
    rewrite u32_small by lia. split_and!; try done; try lia.
    - rewrite Er, <- app_assoc. by eexists.
    - rewrite length_app, Hjunk. lia. }
  destruct H1 as (E1 & E2 & E3 & E4 & E5 & E6 & E7 & E8). rewrite E2, E3, En.
  rewrite (u32_small (dt_size b - _)), (u32_small (1024 + n)) by lia.
  destruct (_ <? 1024 + n) eqn:E; bool_prop.
  - rewrite (u32_small (dt_size b * 2)), (u64_small n) by lia. replace (dt_size b * 2 <=? n) with false by lia.
    unfold memalign_realloc. rewrite E1. unfold MALLOC_MAX_SIZE.
    replace (2 ^ 30 <? dt_size b * 2) with false by lia. replace (dt_size b * 2 <? _) with false by lia.
    eexists. split; [done|]. rewrite u32_small by lia. cbn. split_and!; [|done|lia]. split; cbn; try done.
    + rewrite Ed, <- !app_assoc, <- replicate_add. by eexists.
    + rewrite length_app, length_replicate. lia.
    + lia.
  - exists b1. split; [done|]. split_and!; try done. split; try done; try congruence.
    + rewrite E1. by eexists.
Qed.

Lemma ensure_space_spec b D W sb n :
  pend b D W sb -> small D sb -> 0 <= n <= 64512 ->
  exists b', fdt_ensure_space junk b n = Some (0, b') /\ pend b' D W sb /\
    Z.of_nat (length D) + 1024 + n <= dt_size b' /\ Z.of_nat (length sb) + 1024 <= str_size b' /\
    (Z.of_nat (length D) + 1024 + n <= dt_size b -> dt_size b' = dt_size b /\ dt b' = dt b).
Proof.
  intros P Hs Hn. destruct (ensure_space_exact b D W sb n P Hs ltac:(lia)) as (b' & E & P' & Hstr & Hsz).
  exists b'. split; [done|]. split; [done|]. pose proof (h_min _ _ _ _ P).
  assert (HlenD : Z.of_nat (length D) <= dt_size b).
  { destruct P as [(z & Ed) _ _ Es _ _ _ _ _]. rewrite Es, Ed, length_app. lia. }
  destruct (_ <? _) eqn:E1; bool_prop; split_and!; try done; lia.
Qed.

Lemma put_spec b D W sb X off :
  pend b D W sb -> off = Z.of_nat (length W) -> Z.of_nat (length D) + off + Z.of_nat (length X) <= dt_size b ->
  exists b', put b off X = Some b' /\ pend b' D (W ++ X) sb /\ dt_size b' = dt_size b /\ str_size b' = str_size b.
Proof.
  intros [(z & Ed) En Ea Es Em Hstr Esn Ess Esm] -> Hfit. unfold put, st. rewrite En.
  assert (Hz : (length X <= z)%nat).
  { rewrite Ed in Es. rewrite !length_app, length_replicate in Es. lia. }
  replace ((0 <=? _) && _) with true by lia. eexists. split; [done|]. split_and!; try done.
  split; cbn; try done.
  - exists (z - length X)%nat.
    replace (Z.to_nat (Z.of_nat (length D) + Z.of_nat (length W))) with (length (D ++ W)) by (rewrite length_app; lia).
    assert (E : dt b = (D ++ W) ++ replicate z Init.Byte.x00) by (rewrite Ed; apply app_assoc).
    rewrite E, write_at_inside by (rewrite !length_app, length_replicate; lia).
    rewrite take_app_length, <- drop_drop, drop_app_length, drop_replicate. by rewrite <- !app_assoc.
  - by rewrite length_write_at.
Qed.

Lemma length_pad4 l : Z.of_nat (length (pad4 l)) = Z.of_nat (length l) + (- Z.of_nat (length l)) mod 4.
Proof.
  unfold pad4. rewrite length_app, length_replicate.
  pose proof (Z.mod_pos_bound (- Z.of_nat (length l)) 4 ltac:(lia)). lia.
Qed.

Lemma pad4_align l : (4 | Z.of_nat (length (pad4 l))).
Proof.
  rewrite length_pad4. apply Z.mod_divide; [done|]. rewrite Z.add_mod_idemp_r by done. by rewrite Z.add_opp_diag_r.
Qed.

Lemma next_ofs_pad4 D W :
  (4 | Z.of_nat (length D)) -> Z.of_nat (length D) + Z.of_nat (length W) < 2 ^ 31 ->
  dt_next_ofs (Z.of_nat (length D)) (Z.of_nat (length W)) = Z.of_nat (length (D ++ pad4 W)).
Proof.
  intros Ha Hs. unfold dt_next_ofs. rewrite u32_small by lia. rewrite length_app, Nat2Z.inj_add.
  pose proof (Z.mod_pos_bound (- Z.of_nat (length W)) 4 ltac:(lia)) as Hm.
  pose proof (pad4_align W) as Hp. pose proof (length_pad4 W) as Hl.
  destruct (ALIGN4_spec (Z.of_nat (length D) + Z.of_nat (length W))) as [H0|(H1 & H2 & _)]; [lia| |].
  - unfold ALIGN4, u32 in H0. change (Z.lnot 3) with (Z.lnot (2 ^ 2 - 1)) in H0.
    rewrite land_lnot_mask in H0 by (try lia; by apply Z.mod_pos_bound).
    rewrite Z.mod_small in H0 by lia. change (2 ^ 2) with 4 in H0.
    pose proof (Z.div_mod (Z.of_nat (length D) + Z.of_nat (length W) + 3) 4 ltac:(lia)).
    pose proof (Z.mod_pos_bound (Z.of_nat (length D) + Z.of_nat (length W) + 3) 4 ltac:(lia)).
    assert (E : Z.of_nat (length D) = 0 /\ Z.of_nat (length W) = 0) by lia. destruct E as [E1 E2].
    unfold ALIGN4. rewrite Hl, E1, E2. reflexivity.
  - destruct Ha as [x Ha], H2 as [y H2], Hp as [w Hp]. lia.
Qed.

Lemma commit b D W sb :
  pend b D W sb -> Z.of_nat (length D) + Z.of_nat (length W) + 3 <= dt_size b ->
  pend (set_dt_nextofs b (dt_next_ofs (dt_nextofs b) (Z.of_nat (length W)))) (D ++ pad4 W) [] sb.
Proof.
  intros [(z & Ed) En Ea Es Em Hstr Esn Ess Esm] Hfit. pose proof (length_pad4 W) as Hl.
  pose proof (Z.mod_pos_bound (- Z.of_nat (length W)) 4 ltac:(lia)) as Hm.
  split; cbn; try done.
  - exists (z - Z.to_nat ((- Z.of_nat (length W)) mod 4))%nat. rewrite Ed in *.
    rewrite !length_app, length_replicate in Es. unfold pad4. rewrite <- !app_assoc, <- replicate_add.
    do 3 f_equal. lia.
  - rewrite En. apply next_ofs_pad4; [done|lia].
  - rewrite length_app, Nat2Z.inj_add. apply Z.divide_add_r; [done|apply pad4_align].
Qed.

Lemma add_string_spec b D W sb name :
  pend b D W sb -> small D sb -> Z.of_nat (length D) + 1024 <= dt_size b -> (length (bytes_of name) < 1000)%nat ->
  exists b', dt_add_string junk b name = Some (Z.of_nat (length sb), b') /\
    pend b' D W (sb ++ cstr_bytes name) /\ dt_size b' = dt_size b.
Proof.
  intros P Hs Hr Hn. destruct (ensure_space_spec b D W sb 0 P Hs ltac:(lia)) as (b1 & E & P1 & _ & Hroom & Hsame).
  unfold dt_add_string. rewrite E. cbn [Z.ltb Z.compare]. destruct (Hsame ltac:(lia)) as [Hsz _].
  assert (Hl : length (cstr_bytes name) = S (length (bytes_of name))) by (unfold cstr_bytes; rewrite length_app; cbn; lia).
  unfold lstrcpy. replace (length (cstr_bytes name) <? 1024)%nat with true by (symmetry; apply Nat.ltb_lt; lia).
  destruct P1 as [H1 H2 H3 H4 H5 (r & Er) H7 H8 H9]. unfold st. rewrite H7.
  replace ((0 <=? _) && _) with true by lia.
  replace (_ <? 0) with false by lia. rewrite u32_small by (destruct Hs; lia).
  eexists. split; [done|]. split; [|done]. split; cbn; try done.
  - exists (drop (length (cstr_bytes name)) r). rewrite Nat2Z.id.
    rewrite write_at_inside by lia. rewrite Er, take_app_length, <- drop_drop, drop_app_length. by rewrite <- app_assoc.
  - rewrite length_app. lia.
  - by rewrite length_write_at.
Qed.

(** *** Properties *)

Lemma small_mono D sb D' sb' :
  (length D <= length D')%nat -> (length sb <= length sb')%nat -> small D' sb' -> small D sb.
Proof. unfold small. lia. Qed.

Lemma pad4_words a b c (v : list byte) :
  length a = 4%nat -> length b = 4%nat -> length c = 4%nat -> pad4 (((a ++ b) ++ c) ++ v) = a ++ b ++ c ++ pad4 v.
Proof.
  intros Ha Hb Hc. unfold pad4. rewrite !length_app, Ha, Hb, Hc. rewrite <- !app_assoc. do 5 f_equal.
  replace (- Z.of_nat (4 + 4 + 4 + length v)) with (- Z.of_nat (length v) + (-3) * 4) by lia. by rewrite Z.mod_add.
Qed.

Lemma flatten_prop_spec b D sb p :
  pend b D [] sb -> Z.of_nat (length D) + 8 <= dt_size b -> prop_fits p ->
  let '(d, sb') := enc_prop sb p in
  small (D ++ d) sb' ->
  exists b', flatten_prop junk b p = Some (0, b') /\ pend b' (D ++ d) [] sb' /\
    Z.of_nat (length (D ++ d)) + 8 <= dt_size b'.
Proof.
  intros P Hroom Hf. unfold enc_prop, flatten_prop. destruct (is_reserved_name (p_name p)) eqn:Er.
  { intros _. exists b. rewrite app_nil_r. done. }
  destruct (Hf Er) as [Hlen Hname]. intros Hs.
  assert (Hs0 : small D sb) by (eapply small_mono; [| |exact Hs]; rewrite length_app; lia).
  assert (Hl0 : 0 <= p_length p) by (unfold p_length; lia).
  destruct (ensure_space_spec b D [] sb (p_length p) P Hs0 ltac:(lia)) as (b1 & -> & P1 & Hr1 & _ & _).
  cbn [Z.ltb Z.compare].
  destruct (put_spec b1 D [] sb (be_bytes 4 FDT_PROP) 0 P1 eq_refl) as (b2 & -> & P2 & S2 & _);
    [rewrite length_be_bytes; lia|].
  destruct (put_spec b2 D _ sb (be_bytes 4 (p_length p)) 4 P2) as (b3 & -> & P3 & S3 & _);
    [by rewrite app_nil_l, length_be_bytes|rewrite length_be_bytes; lia|].
  destruct (add_string_spec b3 D _ sb (p_name p) P3 Hs0) as (b4 & -> & P4 & S4); [lia|done|].
  rewrite S4, Z.eqb_refl. cbn [negb].
  destruct (put_spec b4 D _ _ (be_bytes 4 (u32 (Z.of_nat (length sb)))) 8 P4) as (b5 & -> & P5 & S5 & _);
    [rewrite app_nil_l, length_app, !length_be_bytes; lia|rewrite length_be_bytes; lia|].
  destruct (put_spec b5 D _ _ (default [] (p_value p)) 12 P5) as (b6 & -> & P6 & S6 & _);
    [rewrite app_nil_l, !length_app, !length_be_bytes; lia|fold (p_length p); lia|].
  rewrite app_nil_l in P6. pose proof (commit _ _ _ _ P6) as Pc.
  rewrite !length_app, !length_be_bytes, pad4_words, u32_small in Pc by (apply length_be_bytes || destruct Hs0; lia).
  replace (Z.of_nat (4 + 4 + 4 + length (default [] (p_value p)))) with (sizeof_fdt_property + p_length p) in Pc
    by (unfold p_length, sizeof_fdt_property; lia).
  eexists. split; [done|]. cbn [dt_size set_dt_nextofs] in *.
  assert (Hpl : Z.of_nat (length (pad4 (default [] (p_value p)))) <= p_length p + 3).
  { rewrite length_pad4. unfold p_length. pose proof (Z.mod_pos_bound (- Z.of_nat (length (default [] (p_value p)))) 4 ltac:(lia)). lia. }
  split; [apply Pc; unfold sizeof_fdt_property; lia|]. rewrite !length_app, !length_be_bytes. lia.
Qed.

Lemma enc_prop_len sb p : (length sb <= length (snd (enc_prop sb p)))%nat.
Proof. unfold enc_prop. destruct (is_reserved_name _); cbn; [done|]. rewrite length_app. lia. Qed.

Lemma enc_props_len sb ps : (length sb <= length (snd (enc_props sb ps)))%nat.
Proof.
  revert sb. induction ps as [|p ps IH]; intros sb; cbn [enc_props]; [done|].
  pose proof (enc_prop_len sb p) as H. destruct (enc_prop sb p) as [d sb1]. cbn in H.
  specialize (IH sb1). destruct (enc_props sb1 ps) as [d' sb2]. cbn in *. lia.
Qed.

Lemma enc_children_len g sb l :
  Forall (fun n => forall sb, (length sb <= length (snd (g sb n)))%nat) l ->
  (length sb <= length (snd (enc_children g sb l)))%nat.
Proof.
  intros H. revert sb. induction H as [|n l Hn _ IH]; intros sb; cbn [enc_children]; [done|].
  destruct (is_reserved_name (n_name n)); [done|].
  pose proof (Hn sb) as H1. destruct (g sb n) as [d sb1]. cbn in H1.
  specialize (IH sb1). destruct (enc_children g sb1 l) as [d' sb2]. cbn in *. lia.
Qed.

Lemma enc_node_len node : forall sb, (length sb <= length (snd (enc_node sb node)))%nat.
Proof.
  induction node as [name f ps cs IH] using device_node_ind'. intros sb. cbn [enc_node].
  pose proof (enc_props_len sb ps) as H1. destruct (enc_props sb ps) as [dp sb1]. cbn in H1.
  pose proof (enc_children_len (fun sb n => enc_node sb n) sb1 cs IH) as H2.
  destruct (enc_children _ sb1 cs) as [dc sb2]. cbn in *. lia.
Qed.

(** What [flat] does to the buffers is what [enc] says. *)
Definition writes (enc : list byte * list byte) (D : list byte) (out : option (Z * fdt)) : Prop :=
  exists b', out = Some (0, b') /\ pend b' (D ++ fst enc) [] (snd enc) /\
    Z.of_nat (length (D ++ fst enc)) + 8 <= dt_size b'.

Lemma flatten_props_spec ps : forall b D sb,
  pend b D [] sb -> Z.of_nat (length D) + 8 <= dt_size b -> Forall prop_fits ps ->
  small (D ++ fst (enc_props sb ps)) (snd (enc_props sb ps)) ->
  writes (enc_props sb ps) D (flatten_props junk b ps).
Proof.
  induction ps as [|p ps IH]; intros b D sb P Hr Hf Hs; cbn [flatten_props enc_props] in *.
  { exists b. cbn. rewrite app_nil_r. done. }
  apply Forall_cons in Hf as [Hp Hf]. pose proof (flatten_prop_spec b D sb p P Hr Hp) as H1.
  destruct (enc_prop sb p) as [d sb1]. pose proof (enc_props_len sb1 ps) as Hl.
  specialize (IH) with (sb := sb1). destruct (enc_props sb1 ps) as [d' sb2]. cbn [fst snd] in *.
  destruct H1 as (b1 & -> & P1 & Hr1); [eapply small_mono; [| |exact Hs]; rewrite ?length_app; lia|].
  cbn [Z.eqb negb]. destruct (IH b1 (D ++ d) P1 Hr1 Hf) as (b2 & -> & P2 & Hr2).
  { by rewrite <- app_assoc. }
  exists b2. cbn [fst snd] in *. rewrite <- app_assoc in *. done.
Qed.

Lemma flatten_begin_spec b D sb name :
  pend b D [] sb -> small D sb -> (length (bytes_of name) < 1000)%nat ->
  writes (be_bytes 4 FDT_BEGIN_NODE ++ pad4 (cstr_bytes name), sb) D (flatten_begin junk b name).
Proof.
  intros P Hs Hn. destruct (ensure_space_spec b D [] sb 0 P Hs ltac:(lia)) as (b1 & E & P1 & Hr & _ & _).
  unfold flatten_begin. rewrite E. cbn [Z.ltb Z.compare].
  assert (Hl : length (cstr_bytes name) = S (length (bytes_of name))) by (unfold cstr_bytes; rewrite length_app; cbn; lia).
  destruct (put_spec b1 D [] sb (be_bytes 4 FDT_BEGIN_NODE) 0 P1 eq_refl) as (b2 & -> & P2 & S2 & _);
    [rewrite length_be_bytes; lia|].
  unfold lstrcpy. replace (length (cstr_bytes name) <? 1024)%nat with true by (symmetry; apply Nat.ltb_lt; lia).
  destruct (put_spec b2 D _ sb (cstr_bytes name) 4 P2) as (b3 & E3 & P3 & S3 & _);
    [by rewrite app_nil_l, length_be_bytes|lia|].
  unfold put in E3. destruct (st (dt b2) (dt_nextofs b2 + 4) (cstr_bytes name)) as [d|]; [|done]. injection E3 as <-.
  rewrite app_nil_l in P3. pose proof (commit _ _ _ _ P3) as Pc.
  assert (Hpl : pad4 (be_bytes 4 FDT_BEGIN_NODE ++ cstr_bytes name) = be_bytes 4 FDT_BEGIN_NODE ++ pad4 (cstr_bytes name)).
  { unfold pad4. rewrite length_app, length_be_bytes, <- app_assoc. do 4 f_equal.
    replace (- Z.of_nat (4 + length (cstr_bytes name))) with (- Z.of_nat (length (cstr_bytes name)) + (-1) * 4) by lia.
    by rewrite Z.mod_add. }
  rewrite Hpl, length_app, length_be_bytes in Pc. cbn [set_dt dt_size dt_nextofs] in *.
  rewrite (u32_small (Z.of_nat _ - 1)), u32_small by lia.
  replace (Z.of_nat (length (cstr_bytes name)) - 1 + 5) with (Z.of_nat (4 + length (cstr_bytes name))) by lia.
  eexists. split; [done|]. cbn [fst snd]. split; [apply Pc; lia|]. rewrite !length_app, length_be_bytes.
  pose proof (length_pad4 (cstr_bytes name)).
  pose proof (Z.mod_pos_bound (- Z.of_nat (length (cstr_bytes name))) 4 ltac:(lia)). cbn. lia.
Qed.

Lemma flatten_begin_size b D sb name b' :
  pend b D [] sb -> small D sb -> Z.of_nat (length D) + 1024 <= dt_size b ->
  flatten_begin junk b name = Some (0, b') -> dt_size b' = dt_size b.
Proof.
  intros P Hs Hr. destruct (ensure_space_spec b D [] sb 0 P Hs ltac:(lia)) as (b1 & E & _ & _ & _ & Hsame).
  unfold flatten_begin. rewrite E. cbn [Z.ltb Z.compare]. destruct (Hsame ltac:(lia)) as [<- _].
  unfold put. destruct (st _ _ _) as [d|]; [|done]. destruct (lstrcpy _ _ _) as [[len d']|]; [|done].
  by intros [= <-].
Qed.

Lemma flatten_end_spec b D sb :
  pend b D [] sb -> Z.of_nat (length D) + 8 <= dt_size b -> small (D ++ be_bytes 4 FDT_END_NODE) sb ->
  writes (be_bytes 4 FDT_END_NODE, sb) D (flatten_end junk b).
Proof.
  intros P Hr Hs. unfold flatten_end.
  destruct (put_spec b D [] sb (be_bytes 4 FDT_END_NODE) 0 P eq_refl) as (b1 & -> & P1 & S1 & _);
    [rewrite length_be_bytes; lia|].
  rewrite app_nil_l in P1. pose proof (h_align _ _ _ _ P) as Ha.
  assert (Pc : pend (set_dt_nextofs b1 (dt_next_ofs (dt_nextofs b1) 4)) (D ++ be_bytes 4 FDT_END_NODE) [] sb).
  { pose proof (commit _ _ _ _ P1) as Pc. rewrite length_be_bytes in Pc. apply Pc. lia. }
  destruct (ensure_space_spec _ _ _ _ 0 Pc Hs ltac:(lia)) as (b2 & E & P2 & Hr2 & _ & _).
  change sizeof_fdt_node_header with 4. rewrite E. cbn [Z.ltb Z.compare].
  exists b2. split; [done|]. split; [done|]. cbn [fst]. lia.
Qed.

Lemma flatten_children_spec l : forall g e b D sb,
  Forall (fun n => is_reserved_name (n_name n) = false -> forall b D sb,
    pend b D [] sb -> Z.of_nat (length D) + 8 <= dt_size b -> small (D ++ fst (e sb n)) (snd (e sb n)) ->
    writes (e sb n) D (g b n)) l ->
  Forall (fun n => forall sb, (length sb <= length (snd (e sb n)))%nat) l ->
  pend b D [] sb -> Z.of_nat (length D) + 8 <= dt_size b ->
  small (D ++ fst (enc_children e sb l)) (snd (enc_children e sb l)) ->
  writes (enc_children e sb l) D (flatten_children g b l).
Proof.
  induction l as [|n l IH]; intros g e b D sb Hg He P Hr Hs; cbn [flatten_children enc_children] in *.
  { exists b. cbn. rewrite app_nil_r. done. }
  apply Forall_cons in Hg as [Hg1 Hg], He as [He1 He].
  destruct (is_reserved_name (n_name n)) eqn:Er; [by apply IH|].
  specialize (Hg1 eq_refl b D sb P Hr). pose proof (enc_children_len e (snd (e sb n)) l He) as Hl.
  specialize (IH g e) with (sb := snd (e sb n)). destruct (e sb n) as [d sb1]. cbn [fst snd] in *.
  destruct (enc_children e sb1 l) as [d' sb2]. cbn [fst snd] in *.
  destruct Hg1 as (b1 & -> & P1 & Hr1); [eapply small_mono; [| |exact Hs]; rewrite ?length_app; lia|].
  cbn [fst snd Z.eqb negb] in *. destruct (IH b1 (D ++ d) Hg He P1 Hr1) as (b2 & -> & P2 & Hr2).
  { by rewrite <- app_assoc. }
  exists b2. cbn [fst snd] in *. rewrite <- app_assoc in *. done.
Qed.

Lemma fits_children cs :
  fold_right (fun c P => (is_reserved_name (n_name c) = false -> node_fits c) /\ P) True cs ->
  Forall (fun c => is_reserved_name (n_name c) = false -> node_fits c) cs.
Proof. induction cs as [|c cs IH]; cbn; [constructor|]. intros [H1 H2]. by constructor; auto. Qed.

Lemma flatten_node_spec node : forall b D sb,
  node_fits node -> pend b D [] sb -> Z.of_nat (length D) + 8 <= dt_size b ->
  small (D ++ fst (enc_node sb node)) (snd (enc_node sb node)) ->
  writes (enc_node sb node) D (__of_flatten_dtb junk b node).
Proof.
  induction node as [name f ps cs IH] using device_node_ind'. intros b D sb (Hn & Hps & Hcs) P Hr Hs.
  apply fits_children in Hcs. cbn [__of_flatten_dtb enc_node] in *.
  pose proof (enc_props_len sb ps) as L1. destruct (enc_props sb ps) as [dp sb1] eqn:E1.
  pose proof (enc_children_len (fun sb n => enc_node sb n) sb1 cs
    ltac:(apply Forall_forall; intros; apply enc_node_len)) as L2.
  destruct (enc_children _ sb1 cs) as [dc sb2] eqn:E2. cbn [fst snd] in *.
  destruct (flatten_begin_spec b D sb name P) as (b1 & -> & P1 & Hr1);
    [eapply small_mono; [| |exact Hs]; rewrite ?length_app; lia|done|]. cbn [fst snd Z.eqb negb] in *.
  destruct (flatten_props_spec ps b1 _ sb P1 Hr1 Hps) as (b2 & -> & P2 & Hr2);
    [rewrite E1; eapply small_mono; [| |exact Hs]; cbn [fst snd]; rewrite ?length_app; lia|].
  rewrite E1 in *. cbn [fst snd Z.eqb negb] in *.
  edestruct (flatten_children_spec cs (fun b n => __of_flatten_dtb junk b n) (fun sb n => enc_node sb n) b2)
    as (b3 & -> & P3 & Hr3); [| |exact P2|exact Hr2| |].
  { apply Forall_forall. intros n Hin Er b' D' sb' P' Hr' Hs'. rewrite Forall_forall in IH, Hcs. by apply IH; auto. }
  { apply Forall_forall. intros; apply enc_node_len. }
  { rewrite E2. eapply small_mono; [| |exact Hs]; cbn [fst snd]; rewrite ?length_app; lia. }
  rewrite E2 in *. cbn [fst snd Z.eqb negb] in *.
  destruct (flatten_end_spec b3 _ sb2 P3 Hr3) as (b4 & -> & P4 & Hr4);
    [eapply small_mono; [| |exact Hs]; rewrite ?length_app; lia|].
  exists b4. cbn [fst snd] in *. rewrite <- !app_assoc in *. done.
Qed.

(** *** The blob *)

(** The entries of the reserve map that the tree keeps. *)
Definition reserved_entries (node : device_node) : list byte :=
  match of_find_node_by_name_address node "$memreserve" with
  | Some m => default [] (of_get_property m "reg")
  | None => []
  end.

Definition blob_with (rsv : list byte) (node : device_node) : list byte :=
  let '(e, sb) := enc_node [] node in
  let next := 300 + Z.of_nat (length e) in
  header_bytes 40 296 (Z.of_nat (length e) + 4) next (Z.of_nat (length sb)) (next + Z.of_nat (length sb)) ++
  rsv ++ replicate (256 - length rsv) Init.Byte.x00 ++ e ++ be_bytes 4 FDT_END ++ sb.

Definition blob (node : device_node) : list byte := blob_with (reserved_entries node) node.

(** A tree that can be written. *)
Definition flattenable (node : device_node) : Prop :=
  node_fits node /\ (length (reserved_entries node) <= 256)%nat /\
  Z.of_nat (length (fst (enc_node [] node))) <= 2 ^ 28 /\ Z.of_nat (length (snd (enc_node [] node))) <= 2 ^ 28.

Lemma pend_start :
  let zero n := replicate (Z.to_nat n) Init.Byte.x00 in
  pend (Buf (zero SZ_64K) 296 SZ_64K (zero SZ_64K) 0 SZ_64K) (zero 296) [] [].
Proof.
  unfold SZ_64K. split; cbn [dt dt_nextofs dt_size strings str_nextofs str_size app length].
  - exists (Z.to_nat (65536 - 296)). by rewrite <- replicate_add, <- Z2Nat.inj_add by lia.
  - rewrite length_replicate. lia.
  - rewrite length_replicate, Z2Nat.id by lia. by exists 74.
  - rewrite length_replicate. lia.
  - lia.
  - by eexists.
  - done.
  - rewrite length_replicate. lia.
  - lia.
Qed.

Lemma st_some buf off data :
  0 <= off -> off + Z.of_nat (length data) <= Z.of_nat (length buf) ->
  st buf off data = Some (write_at buf (Z.to_nat off) data).
Proof. intros H1 H2. unfold st. by replace ((0 <=? off) && (off + Z.of_nat (length data) <=? Z.of_nat (length buf))) with true by lia. Qed.

(** Storing the reserve map keeps the rest. *)
Lemma pend_reserve b e sb rsv :
  pend b (replicate (Z.to_nat 296) Init.Byte.x00 ++ e) [] sb -> (length rsv <= 256)%nat ->
  exists d, st (dt b) 40 rsv = Some d /\
    pend (set_dt b d) ((replicate 40 Init.Byte.x00 ++ rsv ++ replicate (256 - length rsv) Init.Byte.x00) ++ e) [] sb.
Proof.
  intros [(z & Ed) En Ea Es Em Hstr Esn Ess Esm] Hr.
  assert (E : dt b = replicate 40 Init.Byte.x00 ++ replicate (length rsv) Init.Byte.x00 ++
    (replicate (256 - length rsv) Init.Byte.x00 ++ e ++ replicate z Init.Byte.x00)).
  { rewrite Ed. replace (Z.to_nat 296) with (40 + (length rsv + (256 - length rsv)))%nat by lia.
    rewrite !replicate_add. by rewrite <- !app_assoc. }
  rewrite st_some; [|done|rewrite E, !length_app, !length_replicate; lia].
  eexists. split; [done|].
  assert (E2 : write_at (dt b) (Z.to_nat 40) rsv = replicate 40 Init.Byte.x00 ++ rsv ++
    (replicate (256 - length rsv) Init.Byte.x00 ++ e ++ replicate z Init.Byte.x00)).
  { rewrite E. replace (Z.to_nat 40) with (length (replicate 40 Init.Byte.x00)) by (rewrite length_replicate; lia).
    apply write_at_middle. by rewrite length_replicate. }
  assert (El : length ((replicate 40 Init.Byte.x00 ++ rsv ++ replicate (256 - length rsv) Init.Byte.x00) ++ e)
    = length (replicate (Z.to_nat 296) Init.Byte.x00 ++ e)) by (rewrite !length_app, !length_replicate; lia).
  split; cbn [dt dt_nextofs dt_size strings str_nextofs str_size set_dt]; try done.
  - exists z. rewrite E2. by rewrite <- !app_assoc.
  - by rewrite El.
  - by rewrite El.
  - by rewrite length_write_at.
Qed.

Lemma length_header a b c d e f : length (header_bytes a b c d e f) = 40%nat.
Proof. unfold header_bytes. by rewrite !length_app, !length_be_bytes. Qed.

(** Strings behind the structure block, then the header over the first bytes. *)
Lemma finish_blob b X sb hd :
  pend b (replicate 40 Init.Byte.x00 ++ X) [] sb -> length hd = 40%nat -> Z.of_nat (length sb) <= 2 ^ 28 ->
  Z.of_nat (length X) <= 2 ^ 29 ->
  let next := Z.of_nat (length (replicate 40 Init.Byte.x00 ++ X)) in
  let str := Z.of_nat (length sb) in
  exists d d1 d2, (if u32 (dt_size b - next) <? str then memalign_realloc (dt b) (u32 (next + str)) else Some (Some (dt b)))
      = Some (Some d) /\
    st d next (take (Z.to_nat str) (strings b)) = Some d1 /\ st d1 0 hd = Some d2 /\
    Z.of_nat (length d2) < 2 ^ 31 /\ exists r, d2 = hd ++ X ++ sb ++ r.
Proof.
  intros [(z & Ed) En Ea Es Em (r & Er) Esn Ess Esm] Hh Hsb HX next str. rewrite app_nil_l in Ed.
  assert (Hlen : Z.of_nat (length (dt b)) = next + Z.of_nat z) by (rewrite Ed, length_app, length_replicate; lia).
  assert (H1 : exists d z', (if u32 (dt_size b - next) <? str then memalign_realloc (dt b) (u32 (next + str)) else Some (Some (dt b)))
      = Some (Some d) /\ d = (replicate 40 Init.Byte.x00 ++ X) ++ replicate z' Init.Byte.x00 /\ (length sb <= z')%nat /\
      Z.of_nat (length d) < 2 ^ 31).
  { assert (Hn : next <= 2 ^ 29 + 40) by (subst next; rewrite length_app, length_replicate; lia).
    rewrite u32_small by lia. destruct (_ <? str) eqn:E; bool_prop.
    - unfold memalign_realloc, MALLOC_MAX_SIZE. rewrite u32_small by lia.
      replace (2 ^ 30 <? next + str) with false by lia. replace (next + str <? _) with false by lia.
      eexists _, _. split; [done|]. rewrite Ed at 1. rewrite <- app_assoc, <- replicate_add. split; [done|].
      rewrite length_app, length_replicate. lia.
    - eexists _, _. split; [done|]. split; [exact Ed|]. lia. }
  destruct H1 as (d & z' & E1 & E2 & Hz & Hd). exists d.
  assert (Et : take (Z.to_nat str) (strings b) = sb) by (rewrite Er; subst str; by rewrite Nat2Z.id, take_app_length).
  assert (E3 : d = (replicate 40 Init.Byte.x00 ++ X) ++ replicate (length sb) Init.Byte.x00 ++ replicate (z' - length sb) Init.Byte.x00).
  { rewrite E2. f_equal. rewrite <- replicate_add. f_equal. lia. }
  rewrite Et. rewrite st_some; [|lia|rewrite E2, length_app, length_replicate; lia].
  eexists _, _. split; [exact E1|]. split; [done|]. subst next. rewrite Nat2Z.id, E3, write_at_middle by (by rewrite length_replicate).
  rewrite st_some; [|done|rewrite !length_app, length_replicate; lia]. split; [done|].
  split; [rewrite length_write_at, E3 in *; rewrite !length_app, !length_replicate in *; lia|].
  exists (replicate (z' - length sb) Init.Byte.x00). rewrite <- !app_assoc.
  pose proof (write_at_middle [] (replicate 40 Init.Byte.x00) (X ++ sb ++ replicate (z' - length sb) Init.Byte.x00) hd) as Hm.
  apply Hm. by rewrite length_replicate.
Qed.

(** Without entries the reserve map area stays as it is. *)
Lemma store_reserved (b : list byte) node d :
  40 <= Z.of_nat (length b) -> st b 40 (reserved_entries node) = Some d ->
  match of_find_node_by_name_address node "$memreserve" with
  | Some m => match of_get_property m "reg" with Some entries => st b sizeof_fdt_header entries | None => Some b end
  | None => Some b
  end = Some d.
Proof.
  intros Hb. unfold reserved_entries.
  assert (Hn : st b 40 [] = Some b).
  { rewrite st_some by (cbn; lia). by rewrite write_at_inside, Nat.add_0_r, app_nil_l, take_drop by (cbn; lia). }
  destruct (of_find_node_by_name_address _ _) as [m|]; [|cbn; congruence].
  destruct (of_get_property m "reg") as [en|]; cbn; [done|congruence].
Qed.

Lemma of_flatten_dtb_spec node :
  flattenable node -> exists d, of_flatten_dtb junk node = Some (Some d) /\ Z.of_nat (length d) < 2 ^ 31 /\ exists r, d = blob node ++ r.
Proof.
  intros (Hf & Hr & H1 & H2). unfold of_flatten_dtb, blob, blob_with. change (sizeof_fdt_header + _) with 296.
  assert (L296 : Z.of_nat (length (replicate (Z.to_nat 296) Init.Byte.x00)) = 296) by (rewrite length_replicate; lia).
  destruct (flatten_node_spec node (Buf (replicate (Z.to_nat SZ_64K) Init.Byte.x00) 296 SZ_64K
    (replicate (Z.to_nat SZ_64K) Init.Byte.x00) 0 SZ_64K) (replicate (Z.to_nat 296) Init.Byte.x00) [] Hf pend_start)
    as (b & -> & P & Hroom).
  { rewrite L296. cbn [dt_size]. unfold SZ_64K. lia. }
  { unfold small. rewrite length_app, Nat2Z.inj_add, L296. lia. }
  destruct (enc_node [] node) as [e sb]. cbn [fst snd] in *. cbn [Z.eqb negb].
  destruct (pend_reserve b e sb (reserved_entries node) P Hr) as (d & Est & P1).
  apply store_reserved in Est; [|pose proof (h_size _ _ _ _ P); pose proof (h_min _ _ _ _ P); lia].
  rewrite Est. set (rsv := reserved_entries node) in *.
  rewrite length_app, Nat2Z.inj_add, L296 in Hroom. rewrite <- app_assoc in P1.
  set (X := (rsv ++ replicate (256 - length rsv) Init.Byte.x00) ++ e) in *.
  assert (LX : Z.of_nat (length X) = 256 + Z.of_nat (length e)) by (subst X; rewrite !length_app, length_replicate; lia).
  assert (LD : Z.of_nat (length (replicate 40 Init.Byte.x00 ++ X)) = 296 + Z.of_nat (length e))
    by (rewrite length_app, length_replicate; lia).
  destruct (put_spec _ _ [] sb (be_bytes 4 FDT_END) 0 P1 eq_refl) as (b2 & -> & P2 & S2 & _);
    [rewrite length_be_bytes; cbn [dt_size set_dt]; lia|].
  cbn [dt_size set_dt] in S2. rewrite app_nil_l in P2. pose proof (commit _ _ _ _ P2) as Pc.
  rewrite length_be_bytes in Pc. specialize (Pc ltac:(lia)). change (pad4 (be_bytes 4 FDT_END)) with (be_bytes 4 FDT_END) in Pc.
  rewrite <- app_assoc in Pc.
  assert (En : dt_next_ofs (dt_nextofs b2) sizeof_fdt_node_header
    = Z.of_nat (length (replicate 40 Init.Byte.x00 ++ X ++ be_bytes 4 FDT_END))) by apply (h_next _ _ _ _ Pc).
  pose proof (h_snext _ _ _ _ Pc) as Esn. cbn [str_nextofs set_dt_nextofs] in Esn. rewrite En, Esn.
  assert (LN : Z.of_nat (length (replicate 40 Init.Byte.x00 ++ X ++ be_bytes 4 FDT_END)) = 300 + Z.of_nat (length e))
    by (rewrite !length_app, length_replicate, length_be_bytes; lia).
  edestruct (finish_blob _ _ _ (header_bytes 40 296 (u32 (300 + Z.of_nat (length e) - 296)) (300 + Z.of_nat (length e))
    (Z.of_nat (length sb)) (u32 (300 + Z.of_nat (length e) + Z.of_nat (length sb)))) Pc) as (d' & d1 & d2 & F1 & F2 & F3 & F5 & r & F4);
    [apply length_header|lia|rewrite length_app, length_be_bytes; lia|].
  rewrite LN in *. cbn [dt dt_size strings set_dt_nextofs] in F1, F2. rewrite F1, F2. change sizeof_fdt_header with 40.
  rewrite F3. eexists. split; [done|]. split; [done|]. exists r. rewrite F4. subst X.
  rewrite !u32_small by lia. replace (300 + Z.of_nat (length e) - 296) with (Z.of_nat (length e) + 4) by lia.
  by rewrite <- !app_assoc.
Qed.

(** The check for free space before a property is too weak.  It doubles a full
    buffer unless even the doubled one is not bigger than the value alone, so for a
    root with a first property of between 130757 and 131071 bytes the copy of the
    value leaves the buffer. *)
Theorem fdt_flatten_overflows full nm v ps cs :
  is_reserved_name nm = false -> (length (bytes_of nm) < 1000)%nat -> 130756 < Z.of_nat (length v) < 131072 ->
  of_flatten_dtb junk (Node String.EmptyString full (Property nm (Some v) :: ps) cs) = None.
Proof.
  intros Hnm Hl Hv. unfold of_flatten_dtb. cbn [__of_flatten_dtb].
  set (zero n := replicate (Z.to_nat n) Init.Byte.x00). set (b0 := Buf _ _ _ _ _ _).
  assert (L296 : Z.of_nat (length (zero 296)) = 296) by (unfold zero; rewrite length_replicate; lia).
  assert (S0 : small (zero 296) []) by (unfold small; rewrite L296; cbn; lia).
  assert (S1 : small (zero 296 ++ begin_bytes String.EmptyString) []) by
    (unfold small; rewrite length_app, Nat2Z.inj_add, L296; change (Z.of_nat (length (begin_bytes String.EmptyString))) with 8;
      cbn [length]; lia).
  destruct (flatten_begin_spec b0 (zero 296) [] String.EmptyString pend_start S0 ltac:(cbn; lia)) as (b1 & E1 & P1 & _).
  assert (Hsz : dt_size b1 = 65536) by (eapply flatten_begin_size in E1; [exact E1|apply pend_start|exact S0|
    change (Z.of_nat (length (zero 296)) + 1024 <= 65536); by rewrite L296]).
  rewrite E1. cbn [Z.eqb negb flatten_props fst snd] in *. fold (begin_bytes String.EmptyString) in P1.
  unfold flatten_prop. cbn [p_name]. rewrite Hnm.
  change (p_length (Property nm (Some v))) with (Z.of_nat (length v)).
  change (default [] (p_value (Property nm (Some v)))) with v.
  set (D := zero 296 ++ begin_bytes String.EmptyString) in *.
  assert (LD : Z.of_nat (length D) = 304) by (subst D; rewrite length_app, Nat2Z.inj_add, L296; done).
  destruct (ensure_space_exact b1 D [] [] (Z.of_nat (length v)) P1 S1 ltac:(lia)) as (b2 & -> & P2 & _ & Hsz2).
  rewrite LD, Hsz in Hsz2. replace (_ <? _) with true in Hsz2 by lia. cbn [Z.ltb Z.compare].
  destruct (put_spec b2 D [] [] (be_bytes 4 FDT_PROP) 0 P2 eq_refl) as (b3 & -> & P3 & Q3 & _);
    [rewrite length_be_bytes; lia|].
  destruct (put_spec b3 D _ [] (be_bytes 4 (Z.of_nat (length v))) 4 P3) as (b4 & -> & P4 & Q4 & _);
    [by rewrite app_nil_l, length_be_bytes|rewrite length_be_bytes; lia|].
  destruct (add_string_spec b4 D _ [] nm P4 S1) as (b5 & -> & P5 & Q5); [lia|done|].
  rewrite Q5, Z.eqb_refl. cbn [negb].
  destruct (put_spec b5 D _ _ (be_bytes 4 (u32 (Z.of_nat (@length byte [])))) 8 P5) as (b6 & -> & P6 & Q6 & _);
    [by rewrite app_nil_l, length_app, !length_be_bytes|rewrite length_be_bytes; lia|].
  unfold put at 1, st. rewrite (h_next _ _ _ _ P6), LD, <- (h_size _ _ _ _ P6).
  by replace ((0 <=? _) && _) with false by lia.
Qed.

End FlattenProofs.

(** ** Reading what was written *)

Definition prop_ok (p : property) : Prop :=
  is_reserved_name (p_name p) = false -> no_nul (p_name p) /\ is_allowed_input_name (p_name p) = true.

Definition name_ok (name : string) : Prop :=
  no_nul name /\ name <> String.EmptyString /\ is_allowed_input_name name = true.

(** A node at [depth] whose names the reader accepts, and whose nesting too. *)
Fixpoint readable (depth : Z) (node : device_node) : Prop :=
  match node with
  | Node _ _ ps cs =>
      depth < FDT_MAX_DEPTH /\ Forall prop_ok ps /\
      fold_right (fun c P => (is_reserved_name (n_name c) = false -> name_ok (n_name c) /\ readable (depth + 1) c) /\ P) True cs
  end.

(** What comes back: internal properties and nodes are gone, values are there,
    the path of a node is that of its parent and its name. *)
Definition kept_props (ps : list property) : list property :=
  flat_map (fun p => if is_reserved_name (p_name p) then [] else [Property (p_name p) (Some (default [] (p_value p)))]) ps.

Fixpoint kept_node (path : string) (node : device_node) : device_node :=
  match node with
  | Node name _ ps cs =>
      let path := String.append path (String.append "/" name) in
      Node name path (kept_props ps)
        (flat_map (fun c => if is_reserved_name (n_name c) then [] else [kept_node path c]) cs)
  end.

Definition kept_children (path : string) (cs : list device_node) : list device_node :=
  flat_map (fun c => if is_reserved_name (n_name c) then [] else [kept_node path c]) cs.

Lemma readable_children depth cs :
  fold_right (fun c P => (is_reserved_name (n_name c) = false -> name_ok (n_name c) /\ readable (depth + 1) c) /\ P) True cs ->
  Forall (fun c => is_reserved_name (n_name c) = false -> name_ok (n_name c) /\ readable (depth + 1) c) cs.
Proof. induction cs as [|c cs IH]; cbn [fold_right]; [constructor|]. intros [H1 H2]. constructor; auto. Qed.

(** The reserve map: entries until the first one of size zero. *)
Definition reserve_bytes (es : list (Z * Z)) : list byte :=
  flat_map (fun e => be_bytes 8 (fst e) ++ be_bytes 8 (snd e)) es.

Lemma length_reserve_bytes es : length (reserve_bytes es) = (16 * length es)%nat.
Proof. induction es as [|e es IH]; [done|]. unfold reserve_bytes in *. cbn [flat_map]. rewrite !length_app, !length_be_bytes, IH. cbn. lia. Qed.

(** *** The shape of the encoding *)

Definition aligned (l : list byte) : Prop := (4 | Z.of_nat (length l)).

Lemma aligned_app a b : aligned a -> aligned b -> aligned (a ++ b).
Proof. unfold aligned. rewrite length_app, Nat2Z.inj_add. apply Z.divide_add_r. Qed.

Lemma aligned_be4 v : aligned (be_bytes 4 v).
Proof. unfold aligned. rewrite length_be_bytes. by exists 1. Qed.

Lemma enc_prop_shape sb p : aligned (fst (enc_prop sb p)) /\ sb `prefix_of` snd (enc_prop sb p).
Proof.
  unfold enc_prop. destruct (is_reserved_name _); cbn [fst snd]; split; try done.
  - by exists 0.
  - do 3 (apply aligned_app; [apply aligned_be4|]). apply pad4_align.
  - by eexists.
Qed.

Lemma enc_props_shape ps : forall sb, aligned (fst (enc_props sb ps)) /\ sb `prefix_of` snd (enc_props sb ps).
Proof.
  induction ps as [|p ps IH]; intros sb; cbn [enc_props]; [by split; [exists 0|]|].
  pose proof (enc_prop_shape sb p) as [H1 H2]. destruct (enc_prop sb p) as [d sb1]. cbn [fst snd] in *.
  pose proof (IH sb1) as [H3 H4]. destruct (enc_props sb1 ps) as [d' sb2]. cbn [fst snd] in *.
  split; [by apply aligned_app|by etrans].
Qed.

Lemma enc_children_shape g l :
  Forall (fun n => forall sb, aligned (fst (g sb n)) /\ sb `prefix_of` snd (g sb n)) l ->
  forall sb, aligned (fst (enc_children g sb l)) /\ sb `prefix_of` snd (enc_children g sb l).
Proof.
  induction 1 as [|n l Hn _ IH]; intros sb; cbn [enc_children]; [by split; [exists 0|]|].
  destruct (is_reserved_name (n_name n)); [apply IH|].
  pose proof (Hn sb) as [H1 H2]. destruct (g sb n) as [d sb1]. cbn [fst snd] in *.
  pose proof (IH sb1) as [H3 H4]. destruct (enc_children g sb1 l) as [d' sb2]. cbn [fst snd] in *.
  split; [by apply aligned_app|by etrans].
Qed.

Lemma enc_node_shape node : forall sb, aligned (fst (enc_node sb node)) /\ sb `prefix_of` snd (enc_node sb node).
Proof.
  induction node as [name fl ps cs IH] using device_node_ind'. intros sb. cbn [enc_node].
  pose proof (enc_props_shape ps sb) as [H1 H2]. destruct (enc_props sb ps) as [dp sb1]. cbn [fst snd] in *.
  pose proof (enc_children_shape (fun sb n => enc_node sb n) cs IH sb1) as [H3 H4].
  destruct (enc_children _ sb1 cs) as [dc sb2]. cbn [fst snd] in *.
  split; [|by etrans]. apply aligned_app; [apply aligned_be4|]. apply aligned_app; [apply pad4_align|].
  apply aligned_app; [done|]. apply aligned_app; [done|]. apply aligned_be4.
Qed.

Lemma begin_bytes_pad name : begin_bytes name = pad4 (be_bytes 4 FDT_BEGIN_NODE ++ cstr_bytes name).
Proof.
  unfold begin_bytes, pad4. rewrite length_app, length_be_bytes, <- app_assoc. do 4 f_equal.
  replace (- Z.of_nat (4 + length (cstr_bytes name))) with (- Z.of_nat (length (cstr_bytes name)) + (-1) * 4) by lia.
  by rewrite Z.mod_add.
Qed.

Lemma length_cstr_bytes name : length (cstr_bytes name) = S (length (bytes_of name)).
Proof. unfold cstr_bytes. rewrite length_app. cbn. lia. Qed.

Lemma strnlen_at_cstr name post n :
  no_nul name -> (length (bytes_of name) < n)%nat -> strnlen_at (cstr_bytes name ++ post) n = Some (length (bytes_of name)).
Proof.
  unfold no_nul, cstr_bytes. rewrite <- app_assoc. cbn [app]. intros H. revert n.
  induction H as [|x l Hx _ IH]; intros [|n] Hn; cbn in *; [lia|done|lia|].
  rewrite bool_decide_eq_false_2 by done. by rewrite IH by lia.
Qed.

Lemma memchr0_cstr name post n :
  no_nul name -> (length (bytes_of name) < n)%nat -> memchr0 (cstr_bytes name ++ post) n = Some true.
Proof.
  unfold no_nul, cstr_bytes. rewrite <- app_assoc. cbn [app]. intros H. revert n.
  induction H as [|x l Hx _ IH]; intros [|n] Hn; cbn in *; [lia|done|lia|].
  rewrite bool_decide_eq_false_2 by done. by apply IH; lia.
Qed.

Lemma first_byte_nul name : no_nul name -> bool_decide (first_byte name = Init.Byte.x00) = bool_decide (name = String.EmptyString).
Proof.
  intros H. unfold no_nul, first_byte in *. apply bool_decide_ext. split.
  - destruct (bytes_of name) as [|x l] eqn:Eb; [|by apply Forall_cons in H as [H _]]. intros _.
    rewrite <- (string_of_bytes_of name), Eb. done.
  - intros ->. done.
Qed.

(** A property with an ordinary name is kept. *)
Lemma find_kept ps name :
  is_reserved_name name = false ->
  find_prop (kept_props ps) name = (fun p => Property (p_name p) (Some (default [] (p_value p)))) <$> find_prop ps name.
Proof.
  intros Hn. induction ps as [|p ps IH]; [done|]. unfold kept_props in *. cbn [flat_map find_prop].
  destruct (is_reserved_name (p_name p)) eqn:Er; cbn [app find_prop p_name]; case_bool_decide as E; try done.
  congruence.
Qed.

Section ParseProofs.

Context (addr : Z) (fdt : list byte) (f : fdt_header).

(** The blob has the bytes [X] at [off]. *)
Definition holds (off : Z) (X : list byte) : Prop :=
  exists pre post, fdt = pre ++ X ++ post /\ Z.of_nat (length pre) = off.

Lemma holds_app off X Y : holds off (X ++ Y) <-> holds off X /\ holds (off + Z.of_nat (length X)) Y.
Proof.
  split.
  - intros (pre & post & E & L). split.
    + exists pre, (Y ++ post). by rewrite E, <- app_assoc.
    + exists (pre ++ X), post. rewrite E, <- !app_assoc, length_app. split; [done|lia].
  - intros [(p1 & q1 & E1 & L1) (p2 & q2 & E2 & L2)]. exists p1, q2. split; [|done].
    rewrite E1. rewrite E1, app_assoc in E2. apply app_inj_1 in E2 as [E2 ->]; [|rewrite length_app; lia].
    by rewrite <- app_assoc.
Qed.

Lemma holds_bounds off X : holds off X -> 0 <= off /\ off + Z.of_nat (length X) <= Z.of_nat (length fdt).
Proof. intros (pre & post & E & L). rewrite E, !length_app. lia. Qed.

Lemma holds_drop off X : holds off X -> exists post, drop (Z.to_nat off) fdt = X ++ post.
Proof. intros (pre & post & E & L). exists post. rewrite E, <- L, Nat2Z.id. apply drop_app_length. Qed.

Lemma holds_ld off X n : holds off X -> n = Z.of_nat (length X) -> ld fdt off n = Some X.
Proof.
  intros H ->. pose proof (holds_bounds _ _ H) as [H1 H2]. rewrite ld_some by lia. f_equal.
  unfold read_at. destruct (holds_drop _ _ H) as [post ->]. by rewrite Nat2Z.id, take_app_length.
Qed.

Lemma holds_ld32 off v : holds off (be_bytes 4 v) -> 0 <= v < 2 ^ 32 -> ld32 fdt off = Some v.
Proof.
  intros H Hv. unfold ld32. rewrite (holds_ld _ _ _ H) by (by rewrite length_be_bytes). cbn [fmap option_fmap option_map].
  rewrite be_val_bytes. f_equal. by apply Z.mod_small.
Qed.

Lemma holds_ld64 off v : holds off (be_bytes 8 v) -> 0 <= v < 2 ^ 64 -> ld64 fdt off = Some v.
Proof.
  intros H Hv. unfold ld64. rewrite (holds_ld _ _ _ H) by (by rewrite length_be_bytes). cbn [fmap option_fmap option_map].
  rewrite be_val_bytes. f_equal. by apply Z.mod_small.
Qed.

Context (Hhdr : header_ok fdt f) (Haddr : 0 < addr) (Halign : (4 | addr)).

Let E : Z := off_dt_struct f + size_dt_struct f.

Lemma ptr_ok off sz : 0 <= off -> (4 | off) -> off + sz <= totalsize f -> __dt_ptr_ok addr fdt off sz 4 = Some true.
Proof.
  intros H1 H2 H3. unfold __dt_ptr_ok. replace (ld32 fdt o_totalsize) with (Some (totalsize f)) by (symmetry; apply Hhdr).
  f_equal. change (4 - 1) with (Z.ones 2). rewrite Z.land_ones by lia.
  assert (Hm : (addr + off) mod 2 ^ 2 = 0) by (apply Z.mod_divide; [done|]; by apply Z.divide_add_r).
  rewrite Hm. lia.
Qed.

(** Behind a padded item. *)
Lemma advance_pad4 off W sz inc :
  0 <= off -> (4 | off) -> sz + inc = Z.of_nat (length W) -> 0 < sz -> 0 <= inc -> off + Z.of_nat (length (pad4 W)) <= E ->
  dt_struct_advance f off sz inc = off + Z.of_nat (length (pad4 W)).
Proof.
  intros H1 H2 H3 H4 H5 H6. subst E. pose proof Hhdr as (? & ? & ? & _ & _ & _ & ? & _).
  pose proof (length_pad4 W) as Hl. pose proof (pad4_align W) as Hp.
  pose proof (Z.mod_pos_bound (- Z.of_nat (length W)) 4 ltac:(lia)) as Hm.
  unfold dt_struct_advance. replace (2 ^ 32 <=? off + sz) with false by lia.
  replace (2 ^ 32 <=? off + sz + inc) with false by lia.
  assert (HA : ALIGN4 (off + sz + inc) = off + Z.of_nat (length (pad4 W))).
  { unfold ALIGN4. rewrite (u32_small (_ + 3)) by lia. change (u32 (Z.lnot 3)) with (u32 (Z.lnot (2 ^ 2 - 1))).
    unfold u32. rewrite land_lnot_mask by lia. change (2 ^ 2) with 4.
    pose proof (Z.div_mod (off + sz + inc + 3) 4 ltac:(lia)).
    pose proof (Z.mod_pos_bound (off + sz + inc + 3) 4 ltac:(lia)).
    destruct H2 as [x ->], Hp as [y Hp]. lia. }
  rewrite HA, u32_small by lia. by replace (_ <? _) with false by lia.
Qed.

(** The loop gets from [u] to [u'] in some rounds. *)
Definition steps (u u' : ustate) : Prop :=
  exists n, forall fuel, unflatten_loop (n + fuel) f addr fdt u = unflatten_loop fuel f addr fdt u'.

Lemma steps_refl u : steps u u.
Proof. by exists 0%nat. Qed.

Lemma steps_trans u v w : steps u v -> steps v w -> steps u w.
Proof. intros [n Hn] [m Hm]. exists (n + m)%nat. intros fuel. by rewrite <- Nat.add_assoc, Hn, Hm. Qed.

(** One round of the loop. *)
Lemma step_tag u tag r :
  (4 | u_dt u) -> holds (u_dt u) (be_bytes 4 tag) -> 0 <= tag < 2 ^ 32 -> u_dt u + 4 <= totalsize f ->
  tag = FDT_BEGIN_NODE /\ unflatten_begin f fdt u = Some (Ok r) \/
  tag = FDT_END_NODE /\ unflatten_end f u = Ok r \/
  tag = FDT_PROP /\ unflatten_prop f addr fdt u = Some (Ok r) -> steps u r.
Proof.
  intros Ha Ht Hr Hb Hs. exists 1%nat. intros fuel. cbn [Nat.add unflatten_loop].
  pose proof (holds_bounds _ _ Ht) as [H0 _].
  rewrite ptr_ok by done. cbn [negb]. rewrite (holds_ld32 _ _ Ht) by done.
  destruct Hs as [[-> Hs]|[[-> Hs]|[-> Hs]]]; cbn [FDT_BEGIN_NODE FDT_END_NODE FDT_PROP FDT_END Z.eqb Pos.eqb]; by rewrite Hs.
Qed.

Lemma step_begin u name :
  (4 | u_dt u) -> holds (u_dt u) (begin_bytes name) -> no_nul name -> u_dt u + Z.of_nat (length (begin_bytes name)) <= E ->
  0 <= u_depth u < 64 ->
  match u_open u with
  | [] => name = String.EmptyString
  | _ => name <> String.EmptyString /\ is_allowed_input_name name = true
  end ->
  steps u (U (u_dt u + Z.of_nat (length (begin_bytes name))) (u_root u)
    (match u_open u with [] => u_root u | node :: _ => of_new_node node name end :: u_open u) (u_depth u + 1)).
Proof.
  intros Ha Hb Hn Hend Hdep Hop. pose proof (holds_bounds _ _ Hb) as [H0 _].
  pose proof Hhdr as (? & ? & ? & _ & _ & _ & ? & _). pose proof (length_pad4 (cstr_bytes name)) as Hl.
  pose proof (Z.mod_pos_bound (- Z.of_nat (length (cstr_bytes name))) 4 ltac:(lia)) as Hm.
  pose proof (length_cstr_bytes name) as Hc.
  assert (Lb : Z.of_nat (length (begin_bytes name)) = 4 + Z.of_nat (length (pad4 (cstr_bytes name))))
    by (unfold begin_bytes; rewrite length_app, length_be_bytes; lia).
  unfold begin_bytes in Hb. apply holds_app in Hb as [Hb1 Hb2]. rewrite length_be_bytes in Hb2.
  unfold pad4 in Hb2. apply holds_app in Hb2 as [Hb2 _].
  apply step_tag with FDT_BEGIN_NODE; [done|done|done|lia|]. left. split; [done|].
  unfold unflatten_begin. change sizeof_fdt_node_header with 4. fold E. rewrite s32_small by lia.
  replace (E - (u_dt u + 4) <=? 0) with false by lia.
  destruct (holds_drop _ _ Hb2) as [post Ed]. change (Z.of_nat 4) with 4 in Ed. rewrite Ed.
  rewrite strnlen_at_cstr by (done || lia). replace (_ <=? Z.of_nat (length (bytes_of name))) with false by lia.
  rewrite cstr_app by done.
  rewrite (advance_pad4 (u_dt u) (be_bytes 4 FDT_BEGIN_NODE ++ cstr_bytes name)); rewrite <- ?begin_bytes_pad;
    try done; try lia; [|rewrite length_app, length_be_bytes; lia].
  replace (_ =? 0) with false by lia. rewrite u32_small by lia. change FDT_MAX_DEPTH with 64.
  replace (64 <? _) with false by lia. rewrite first_byte_nul by done. destruct (u_open u) as [|node ps].
  - by rewrite bool_decide_eq_true_2.
  - destruct Hop as [Q1 Q2]. rewrite bool_decide_eq_false_2, Q2 by done. done.
Qed.

Lemma step_end u c ps :
  (4 | u_dt u) -> holds (u_dt u) (be_bytes 4 FDT_END_NODE) -> u_dt u + 4 <= E -> 0 < u_depth u <= 64 -> u_open u = c :: ps ->
  steps u match ps with
          | [] => U (u_dt u + 4) c [] (u_depth u - 1)
          | p :: ps => U (u_dt u + 4) (u_root u) (add_child p c :: ps) (u_depth u - 1)
          end.
Proof.
  intros Ha Hb Hend Hdep Hop. pose proof (holds_bounds _ _ Hb) as [H0 _]. pose proof Hhdr as (? & ? & ? & _).
  apply step_tag with FDT_END_NODE; [done|done|done|lia|]. right; left. split; [done|].
  unfold unflatten_end. rewrite Hop. change FDT_TAGSIZE with 4.
  rewrite (advance_pad4 (u_dt u) (be_bytes 4 FDT_END_NODE)); try done. cbn [length].
  change (Z.of_nat (length (pad4 (be_bytes 4 FDT_END_NODE)))) with 4.
  replace (_ =? 0) with false by lia. by rewrite u32_small by lia.
Qed.

Context (SB : list byte) (Hstr : holds (off_dt_strings f) SB) (Hsize : size_dt_strings f = Z.of_nat (length SB)).

(** A string that was added lies in the strings block. *)
Lemma dt_string_found sb name :
  sb ++ cstr_bytes name `prefix_of` SB -> no_nul name ->
  exists o, dt_string f fdt (Z.of_nat (length sb)) = Some (Some o) /\ cstr (drop (Z.to_nat o) fdt) = name.
Proof.
  intros [post Ep] Hn. pose proof Hhdr as (_ & _ & _ & H1 & H2 & H3 & H4 & _). pose proof (length_cstr_bytes name) as Hc.
  rewrite Ep, <- app_assoc in Hstr. apply holds_app in Hstr as [_ H5].
  destruct (holds_drop _ _ H5) as [post2 Ed]. rewrite Ep, !length_app in Hsize.
  exists (off_dt_strings f + Z.of_nat (length sb)). rewrite Ed, <- app_assoc, cstr_app by done. split; [|done].
  unfold dt_string. replace (_ <? _) with false by lia. rewrite s32_small by lia.
  rewrite Ed, <- app_assoc, memchr0_cstr by (done || lia). done.
Qed.

(** The fields of a property that was written. *)
Lemma prop_at sb p off :
  is_reserved_name (p_name p) = false -> no_nul (p_name p) -> (4 | off) -> holds off (fst (enc_prop sb p)) ->
  off + Z.of_nat (length (fst (enc_prop sb p))) <= E -> snd (enc_prop sb p) `prefix_of` SB ->
  holds off (be_bytes 4 FDT_PROP) /\ (12 <= length (fst (enc_prop sb p)))%nat /\ off + 12 <= totalsize f /\
  ld32 fdt (off + 4) = Some (p_length p) /\
  (exists no o, ld32 fdt (off + 8) = Some no /\ dt_string f fdt no = Some (Some o) /\ cstr (drop (Z.to_nat o) fdt) = p_name p) /\
  dt_struct_advance f off 12 (p_length p) = off + Z.of_nat (length (fst (enc_prop sb p))) /\
  ld fdt (off + 12) (p_length p) = Some (default [] (p_value p)).
Proof.
  intros Hres Hn. unfold enc_prop. rewrite Hres. cbn [fst snd]. set (v := default [] (p_value p)).
  pose proof (pad4_words (be_bytes 4 FDT_PROP) (be_bytes 4 (p_length p)) (be_bytes 4 (Z.of_nat (length sb))) v) as Epad.
  rewrite !length_be_bytes in Epad. specialize (Epad eq_refl eq_refl eq_refl). rewrite <- Epad.
  intros Ha Hb Hend Hpre. pose proof (holds_bounds _ _ Hb) as [H0 _]. pose proof Hhdr as (? & ? & ? & ? & ? & ? & ? & _).
  assert (Hlsb : Z.of_nat (length sb) <= size_dt_strings f).
  { apply prefix_length in Hpre. rewrite length_app in Hpre. lia. }
  assert (Hlen : Z.of_nat (length (pad4 (((be_bytes 4 FDT_PROP ++ be_bytes 4 (p_length p)) ++ be_bytes 4 (Z.of_nat (length sb))) ++ v)))
    = 12 + Z.of_nat (length (pad4 v))) by (rewrite Epad, !length_app, !length_be_bytes; lia).
  pose proof (length_pad4 v). pose proof (Z.mod_pos_bound (- Z.of_nat (length v)) 4 ltac:(lia)).
  assert (Hv : 0 <= p_length p < 2 ^ 31) by (unfold p_length; fold v; subst E; lia).
  pose proof Hb as B4. rewrite Epad in B4. apply holds_app in B4 as [B1 B4]. apply holds_app in B4 as [B2 B4].
  apply holds_app in B4 as [B3 B4]. unfold pad4 in B4. apply holds_app in B4 as [B4 _]. rewrite !length_be_bytes in *.
  change (Z.of_nat 4) with 4 in *. replace (off + 4 + 4) with (off + 8) in * by lia.
  replace (off + 8 + 4) with (off + 12) in * by lia.
  split_and!; [done|lia|subst E; lia|apply holds_ld32; done || lia| | |by apply holds_ld].
  - destruct (dt_string_found sb (p_name p) Hpre Hn) as (o & Es & Eo).
    exists (Z.of_nat (length sb)), o. split_and!; [apply holds_ld32; done || lia|done|done].
  - apply advance_pad4; try done; [|lia]. rewrite !length_app, !length_be_bytes. unfold p_length. fold v. lia.
Qed.

(** What reading makes of a property, as long as it is not internal. *)
Definition read_prop (node : device_node) (p : property) : device_node :=
  if is_reserved_name (p_name p) then node
  else __of_new_property node (p_name p) (default [] (p_value p)).

Lemma step_prop u node ps sb p :
  prop_ok p -> (4 | u_dt u) -> holds (u_dt u) (fst (enc_prop sb p)) -> u_dt u + Z.of_nat (length (fst (enc_prop sb p))) <= E ->
  snd (enc_prop sb p) `prefix_of` SB -> u_open u = node :: ps ->
  steps u (U (u_dt u + Z.of_nat (length (fst (enc_prop sb p)))) (u_root u) (read_prop node p :: ps) (u_depth u)).
Proof.
  unfold prop_ok, read_prop. destruct (is_reserved_name (p_name p)) eqn:Hres.
  { unfold enc_prop. rewrite Hres. cbn [fst snd]. intros _ _ _ _ _ <-. rewrite Z.add_0_r. destruct u. apply steps_refl. }
  intros Hp Ha Hb Hend Hpre Hop. destruct (Hp eq_refl) as [Hn Hal]. pose proof (holds_bounds _ _ Hb) as [H0 _].
  destruct (prop_at sb p (u_dt u) Hres Hn Ha Hb Hend Hpre) as (B1 & L & Ht & B2 & (no & o & B3 & Es & Eo) & Eadv & Ev).
  apply step_tag with FDT_PROP; [done|done|done|lia|]. right; right. split; [done|].
  unfold unflatten_prop. change sizeof_fdt_property with 12. rewrite ptr_ok by done. cbn [negb].
  rewrite B2, B3, Es, Hop, Eo, Hal, Eadv. cbn [negb]. replace (_ =? 0) with false by lia. rewrite Ev.
  unfold of_new_property. by rewrite firstn_all.
Qed.

Lemma read_props u nm fl ps cs os : forall sb ps0,
  Forall prop_ok ps -> (4 | u_dt u) -> holds (u_dt u) (fst (enc_props sb ps)) ->
  u_dt u + Z.of_nat (length (fst (enc_props sb ps))) <= E -> snd (enc_props sb ps) `prefix_of` SB ->
  u_open u = Node nm fl ps0 cs :: os ->
  steps u (U (u_dt u + Z.of_nat (length (fst (enc_props sb ps)))) (u_root u)
    (Node nm fl (ps0 ++ kept_props ps) cs :: os) (u_depth u)).
Proof.
  revert u. induction ps as [|p ps IH]; intros u sb ps0 Hok Ha Hb Hend Hpre Hop; cbn [enc_props] in *.
  { cbn. rewrite Z.add_0_r, app_nil_r, <- Hop. destruct u. apply steps_refl. }
  apply Forall_cons in Hok as [Hp Hok]. pose proof (step_prop u (Node nm fl ps0 cs) os sb p Hp Ha) as H1.
  pose proof (enc_prop_shape sb p) as [Hal _]. destruct (enc_prop sb p) as [d sb1]. cbn [fst snd] in *.
  pose proof (enc_props_shape ps sb1) as [_ Hp2]. specialize (IH) with (sb := sb1).
  destruct (enc_props sb1 ps) as [d' sb2]. cbn [fst snd] in *.
  apply holds_app in Hb as [Hb1 Hb2]. rewrite length_app in *.
  eapply steps_trans; [apply H1; try done; [lia|by etrans]|].
  unfold read_prop, kept_props. cbn [flat_map]. destruct (is_reserved_name (p_name p)).
  - rewrite app_nil_l, Nat2Z.inj_add, Z.add_assoc.
    apply (IH (U (u_dt u + Z.of_nat (length d)) (u_root u) (Node nm fl ps0 cs :: os) (u_depth u))); try done; cbn [u_dt].
    + by apply Z.divide_add_r.
    + lia.
  - rewrite app_assoc, Nat2Z.inj_add, Z.add_assoc. unfold __of_new_property. cbn [set_properties n_properties].
    apply (IH (U (u_dt u + Z.of_nat (length d)) (u_root u)
      (Node nm fl (ps0 ++ [Property (p_name p) (Some (default [] (p_value p)))]) cs :: os) (u_depth u))); try done; cbn [u_dt].
    + by apply Z.divide_add_r.
    + lia.
Qed.

(** Reading [enc] from [u] makes [add] of the innermost open node. *)
Definition reads (enc : list byte * list byte) (u : ustate) (add : device_node -> device_node) : Prop :=
  forall node os, (4 | u_dt u) -> holds (u_dt u) (fst enc) -> u_dt u + Z.of_nat (length (fst enc)) <= E ->
  snd enc `prefix_of` SB -> u_open u = node :: os ->
  steps u (U (u_dt u + Z.of_nat (length (fst enc))) (u_root u) (add node :: os) (u_depth u)).

Definition add_children (cs : list device_node) (node : device_node) : device_node :=
  let 'Node nm fl ps cs0 := node in Node nm fl ps (cs0 ++ cs).

Lemma read_children e l depth :
  Forall (fun c => is_reserved_name (n_name c) = false -> name_ok (n_name c) /\ readable depth c) l ->
  Forall (fun c => forall sb, aligned (fst (e sb c)) /\ sb `prefix_of` snd (e sb c)) l ->
  Forall (fun c => forall sb u, name_ok (n_name c) -> readable depth c -> u_depth u = depth ->
    reads (e sb c) u (fun node => add_child node (kept_node (n_full_name node) c))) l ->
  forall sb u, u_depth u = depth ->
  reads (enc_children e sb l) u (fun node => add_children (kept_children (n_full_name node) l) node).
Proof.
  induction l as [|c l IH]; intros Hok Hsh Hrd sb u Hdep node os Ha Hb Hend Hpre Hop; cbn [enc_children] in *.
  { cbn. rewrite Z.add_0_r. destruct node. cbn. rewrite app_nil_r, <- Hop. destruct u. apply steps_refl. }
  apply Forall_cons in Hok as [Hc Hok], Hsh as [Hs Hsh], Hrd as [Hr Hrd].
  unfold kept_children. cbn [flat_map]. destruct (is_reserved_name (n_name c)); [by apply IH|].
  destruct (Hc eq_refl) as [Hn Hre]. pose proof (Hr sb u Hn Hre Hdep) as H1. pose proof (Hs sb) as [Hal _].
  destruct (e sb c) as [d sb1]. cbn [fst snd] in *.
  pose proof (enc_children_shape e l Hsh sb1) as [_ Hp2].
  set (u1 := U (u_dt u + Z.of_nat (length d)) (u_root u) (add_child node (kept_node (n_full_name node) c) :: os) (u_depth u)).
  pose proof (IH Hok Hsh Hrd sb1 u1 Hdep) as H2.
  destruct (enc_children e sb1 l) as [d' sb2]. cbn [fst snd] in *.
  apply holds_app in Hb as [Hb1 Hb2]. rewrite length_app, Nat2Z.inj_add, Z.add_assoc in *.
  eapply steps_trans; [apply (H1 node os); cbn [fst snd]; try done; [lia|by etrans]|].
  assert (Ha1 : (4 | u_dt u1)) by (by apply Z.divide_add_r).
  specialize (H2 _ os Ha1 Hb2 Hend Hpre eq_refl). destruct node as [nm fl ps cs0].
  cbn [add_child add_children n_full_name] in *. rewrite <- app_assoc in H2. exact H2.
Qed.

(** The properties and children of a node, without its begin and end. *)
Definition enc_body (sb : list byte) (node : device_node) : list byte * list byte :=
  match node with
  | Node _ _ ps cs =>
      let '(dp, sb) := enc_props sb ps in
      let '(dc, sb) := enc_children (fun sb n => enc_node sb n) sb cs in (dp ++ dc, sb)
  end.

Definition add_body (src node : device_node) : device_node :=
  let 'Node nm fl ps cs := node in
  Node nm fl (ps ++ kept_props (n_properties src)) (cs ++ kept_children fl (n_children src)).

Lemma enc_node_body sb node :
  enc_node sb node = (begin_bytes (n_name node) ++ fst (enc_body sb node) ++ be_bytes 4 FDT_END_NODE, snd (enc_body sb node)).
Proof.
  destruct node as [nm fl ps cs]. unfold begin_bytes. cbn [enc_node enc_body n_name].
  destruct (enc_props sb ps) as [dp sb1]. destruct (enc_children _ sb1 cs) as [dc sb2]. cbn [fst snd].
  by rewrite <- !app_assoc.
Qed.

(** A child, from its properties and children. *)
Lemma read_child sb c u :
  (forall u1, u_depth u1 = u_depth u + 1 -> reads (enc_body sb c) u1 (add_body c)) ->
  name_ok (n_name c) -> 0 <= u_depth u < 64 ->
  reads (enc_node sb c) u (fun node => add_child node (kept_node (n_full_name node) c)).
Proof.
  intros Hbody (Hn & Hne & Hal) Hdep node os Ha Hb Hend Hpre Hop. rewrite enc_node_body in *. cbn [fst snd] in *.
  pose proof (enc_node_shape c sb) as [Hshape _]. rewrite enc_node_body in Hshape. cbn [fst snd] in *.
  apply holds_app in Hb as [B1 B2]. apply holds_app in B2 as [B2 B3].
  rewrite !length_app, length_be_bytes in *.
  pose proof (step_begin u (n_name c) Ha B1 Hn ltac:(lia) Hdep) as S1. rewrite Hop in S1.
  specialize (S1 (conj Hne Hal)). eapply steps_trans; [exact S1|].
  set (u1 := U _ _ _ _). assert (Hb4 : aligned (begin_bytes (n_name c))) by (rewrite begin_bytes_pad; apply pad4_align).
  assert (A1 : (4 | u_dt u1)) by (by apply Z.divide_add_r).
  pose proof (Hbody u1 eq_refl _ (node :: os) A1 B2 ltac:(cbn [u_dt u1]; lia) Hpre eq_refl) as S2.
  eapply steps_trans; [exact S2|]. set (u2 := U _ _ _ _).
  assert (A2 : (4 | u_dt u2)).
  { assert (Hb5 : aligned (fst (enc_body sb c))); [|by apply Z.divide_add_r].
    unfold aligned in *. rewrite !length_app, length_be_bytes in Hshape.
    destruct Hshape as [x Hx], Hb4 as [y Hy]. exists (x - y - 1). lia. }
  pose proof (step_end u2 _ (node :: os) A2 B3 ltac:(cbn [u_dt u1 u2]; lia) ltac:(cbn [u_depth u1 u2]; lia) eq_refl) as S3.
  destruct c as [nm fl ps cs]. cbn in S3 |- *.
  match type of S3 with steps _ ?x => match goal with |- steps _ ?y => replace y with x; [exact S3|] end end.
  f_equal; lia.
Qed.

Lemma read_body node : forall sb u,
  readable (u_depth u - 1) node -> 0 < u_depth u -> reads (enc_body sb node) u (add_body node).
Proof.
  induction node as [nm fl ps cs IH] using device_node_ind'.
  intros sb u (Hdep & Hps & Hcs) Hpos cur os Ha Hb Hend Hpre Hop. apply readable_children in Hcs.
  replace (u_depth u - 1 + 1) with (u_depth u) in Hcs by lia. cbn [enc_body] in *. destruct cur as [nm0 fl0 ps0 cs0].
  pose proof (read_props u nm0 fl0 ps cs0 os sb ps0 Hps Ha) as S1. pose proof (enc_props_shape ps sb) as [Hal _].
  destruct (enc_props sb ps) as [dp sb1]. cbn [fst snd] in *.
  assert (Hsh : Forall (fun c => forall sb, aligned (fst (enc_node sb c)) /\ sb `prefix_of` snd (enc_node sb c)) cs)
    by (apply Forall_forall; intros; apply enc_node_shape).
  pose proof (enc_children_shape (fun sb n => enc_node sb n) cs Hsh sb1) as [_ Hp2].
  set (u1 := U (u_dt u + Z.of_nat (length dp)) (u_root u) (Node nm0 fl0 (ps0 ++ kept_props ps) cs0 :: os) (u_depth u)).
  assert (S2 : reads (enc_children (fun sb n => enc_node sb n) sb1 cs) u1
    (fun node => add_children (kept_children (n_full_name node) cs) node)).
  { apply read_children with (depth := u_depth u); [done|done| |done].
    apply Forall_forall. intros c Hin sb' u' Hn Hre Hd. rewrite Forall_forall in IH.
    apply read_child; [|done|rewrite Hd; destruct c; destruct Hre as [Hre _]; change FDT_MAX_DEPTH with 64 in Hre; lia].
    intros v Hv. apply IH; [done| |lia]. replace (u_depth v - 1) with (u_depth u) by lia. done. }
  destruct (enc_children _ sb1 cs) as [dc sb2]. cbn [fst snd] in *.
  apply holds_app in Hb as [B1 B2]. rewrite length_app, Nat2Z.inj_add, Z.add_assoc in *.
  eapply steps_trans; [apply S1; try done; [lia|by etrans]|].
  apply (S2 (Node nm0 fl0 (ps0 ++ kept_props ps) cs0) os); try done. by apply Z.divide_add_r.
Qed.

(** The whole structure block. *)
Lemma read_tree t root :
  n_name t = String.EmptyString -> readable 0 t -> snd (enc_node [] t) = SB -> (4 | off_dt_struct f) ->
  holds (off_dt_struct f) (fst (enc_node [] t) ++ be_bytes 4 FDT_END) ->
  size_dt_struct f = Z.of_nat (length (fst (enc_node [] t))) + 4 ->
  exists n, unflatten_loop n f addr fdt (U (off_dt_struct f) root [] 0) = Some (Ok (add_body t root)).
Proof.
  intros Hn Hr Hs Ha Hb Hsz. pose proof (enc_node_shape t []) as [Hshape _]. rewrite enc_node_body in *. cbn [fst snd] in *.
  apply holds_app in Hb as [Hb B4]. apply holds_app in Hb as [B1 B2]. apply holds_app in B2 as [B2 B3].
  rewrite !length_app, length_be_bytes in *. rewrite Hn in *.
  pose proof Hhdr as (? & ? & ? & _). set (u := U (off_dt_struct f) root [] 0).
  pose proof (step_begin u String.EmptyString Ha B1 (Forall_nil_2 _) ltac:(subst E; cbn [u_dt u]; lia) ltac:(cbn; lia) eq_refl) as S1.
  set (u1 := U _ _ _ _) in S1.
  assert (A1 : (4 | u_dt u1)) by (apply Z.divide_add_r; [done|]; by exists 2).
  pose proof (read_body t [] u1 Hr ltac:(cbn; lia) root [] A1 B2 ltac:(subst E; cbn [u_dt u1 u]; lia)
    ltac:(by rewrite Hs) eq_refl) as S2. set (u2 := U _ _ _ _) in S2.
  assert (A3 : (4 | u_dt u2 + 4)).
  { cbn [u_dt u2 u1 u]. unfold aligned in Hshape. rewrite !length_app, length_be_bytes in Hshape.
    rewrite !Nat2Z.inj_add in Hshape. destruct Hshape as [x Hx], Ha as [y Hy]. exists (x + y). lia. }
  assert (A2 : (4 | u_dt u2)) by (destruct A3 as [x Hx]; exists (x - 1); lia).
  pose proof (step_end u2 _ [] A2 B3 ltac:(subst E; cbn [u_dt u2 u1 u]; lia) ltac:(cbn; lia) eq_refl) as S3.
  destruct (steps_trans _ _ _ S1 (steps_trans _ _ _ S2 S3)) as [n Hrun]. exists (n + 1)%nat. rewrite Hrun.
  cbn [unflatten_loop u_dt].
  assert (Hoff : u_dt u2 + 4 = off_dt_struct f + Z.of_nat (length (begin_bytes String.EmptyString) + (length (enc_body [] t).1 + 4)))
    by (cbn [u_dt u2 u1 u]; lia).
  rewrite ptr_ok by (done || (rewrite Hoff; lia)). rewrite Hoff. cbn [negb]. by rewrite (holds_ld32 _ _ B4).
Qed.

Lemma reservemap_count es : forall fuel r n,
  Forall (fun e => 0 < snd e < 2 ^ 64) es -> (length es < fuel)%nat -> 0 <= n -> n + Z.of_nat (length es) < 16 ->
  holds r (reserve_bytes es ++ replicate 16 Init.Byte.x00) ->
  r + 16 * Z.of_nat (length es) + 16 <= totalsize f ->
  reservemap_loop fuel addr fdt r n = Some (n + Z.of_nat (length es)).
Proof.
  induction es as [|e es IH]; intros [|fuel] r n Hes Hf Hn H16 Hb Hend; cbn [length] in *; try lia; cbn [reservemap_loop].
  all: pose proof (holds_bounds _ _ Hb) as [H0 _].
  all: assert (Hp : __dt_ptr_ok addr fdt r sizeof_fdt_reserve_entry 1 = Some true)
    by (unfold __dt_ptr_ok; replace (ld32 fdt o_totalsize) with (Some (totalsize f)) by (symmetry; apply Hhdr);
        f_equal; change (1 - 1) with 0; rewrite Z.land_0_r; change sizeof_fdt_reserve_entry with 16; lia).
  all: rewrite Hp; replace (true && (n <? OF_MAX_RESERVE_MAP)) with true by (unfold OF_MAX_RESERVE_MAP; lia).
  - change (replicate 16 Init.Byte.x00) with (be_bytes 8 0 ++ be_bytes 8 0) in Hb. cbn [reserve_bytes flat_map] in Hb.
    apply holds_app in Hb as [_ Hb]. apply holds_app in Hb as [_ Hb]. rewrite length_be_bytes in Hb.
    cbn [length] in Hb. rewrite Z.add_0_r in Hb. change (Z.of_nat 8) with 8 in Hb.
    rewrite (holds_ld64 _ _ Hb) by done. cbn [Z.eqb]. by rewrite Z.add_0_r.
  - apply Forall_cons in Hes as [He Hes]. unfold reserve_bytes in Hb. cbn [flat_map] in Hb. fold (reserve_bytes es) in Hb.
    rewrite <- !app_assoc in Hb. apply holds_app in Hb as [_ Hb]. apply holds_app in Hb as [B1 B2].
    rewrite !length_be_bytes in *. change (Z.of_nat 8) with 8 in *. rewrite (holds_ld64 _ _ B1) by lia.
    replace (snd e =? 0) with false by lia. change sizeof_fdt_reserve_entry with 16.
    replace (r + 8 + 8) with (r + 16) in B2 by lia. rewrite IH by (done || lia). f_equal. lia.
Qed.

Lemma loop_mono fuel k : forall u r, unflatten_loop fuel f addr fdt u = Some r -> unflatten_loop (fuel + k) f addr fdt u = Some r.
Proof.
  induction fuel as [|fuel IH]; intros u r; [done|]. cbn [Nat.add unflatten_loop].
  destruct (__dt_ptr_ok addr fdt (u_dt u) 4 4) as [ok|]; [|done]. destruct (negb ok); [done|].
  destruct (ld32 fdt (u_dt u)) as [tag|]; [|done]. destruct (tag =? FDT_END); [done|].
  match goal with |- context [match ?m with Some _ => _ | None => None end] => destruct m as [[u'|e]|] end; [apply IH|done|done].
Qed.

(** *** Compatible strings *)

(** What the search over the properties of the root returns. *)
Definition root_score (ps : list property) (compat : list byte) : Z :=
  match find_prop (kept_props ps) "compatible" with
  | Some p => fdt_string_is_compatible (default [] (p_value p)) compat
  | None => 0
  end.

Lemma compatible_tag fuel off tag compat :
  (4 | off) -> holds off (be_bytes 4 tag) -> off + 4 <= totalsize f -> tag = FDT_BEGIN_NODE \/ tag = FDT_END_NODE ->
  compatible_loop (S fuel) f addr fdt off FDT_PROP compat = Some 0.
Proof.
  intros Ha Hb Hend Ht. cbn [compatible_loop]. pose proof (holds_bounds _ _ Hb) as [H0 _].
  rewrite ptr_ok by done. cbn [negb]. destruct Ht as [-> | ->]; by rewrite (holds_ld32 _ _ Hb).
Qed.

Lemma compatible_props ps compat : forall fuel sb off tag,
  Forall prop_ok ps -> (4 | off) -> holds off (fst (enc_props sb ps) ++ be_bytes 4 tag) ->
  off + Z.of_nat (length (fst (enc_props sb ps))) + 4 <= E -> snd (enc_props sb ps) `prefix_of` SB ->
  tag = FDT_BEGIN_NODE \/ tag = FDT_END_NODE -> (length (fst (enc_props sb ps)) < fuel)%nat ->
  compatible_loop fuel f addr fdt off FDT_PROP compat = Some (root_score ps compat).
Proof.
  pose proof Hhdr as (? & ? & ? & ? & ? & ? & ? & _).
  induction ps as [|p ps IH]; intros fuel sb off tag Hok Ha Hb Hend Hpre Ht Hfu; cbn [enc_props] in *.
  { cbn [fst app length] in *. destruct fuel as [|fuel]; [lia|]. eapply compatible_tag; try done. subst E. lia. }
  apply Forall_cons in Hok as [Hp Hok]. pose proof (enc_prop_shape sb p) as [Hal _].
  pose proof (prop_at sb p off) as Hat. unfold prop_ok in Hp. unfold root_score, kept_props. cbn [flat_map].
  destruct (is_reserved_name (p_name p)) eqn:Hres.
  { unfold enc_prop in *. rewrite Hres in *. specialize (IH fuel sb off tag Hok Ha).
    destruct (enc_props sb ps). cbn [fst snd app] in *. by apply IH. }
  destruct (Hp eq_refl) as [Hn Hallow]. destruct (enc_prop sb p) as [d sb1]. specialize (IH) with (sb := sb1).
  pose proof (enc_props_shape ps sb1) as [_ Hp2]. destruct (enc_props sb1 ps) as [d' sb2]. cbn [fst snd] in *.
  rewrite <- app_assoc in Hb. apply holds_app in Hb as [Hb Hrest]. rewrite length_app, Nat2Z.inj_add in *.
  destruct Hat as (B1 & L & Hto & B2 & (no & o & B3 & Es & Eo) & Eadv & Ev); try done; [lia|by etrans|].
  pose proof (holds_bounds _ _ B1) as [Hoff _].
  destruct fuel as [|fuel]; [lia|]. cbn [compatible_loop].
  rewrite ptr_ok by (done || lia). cbn [negb]. rewrite (holds_ld32 _ _ B1) by done.
  cbn [FDT_PROP FDT_NOP FDT_BEGIN_NODE Z.eqb Pos.eqb negb andb]. change sizeof_fdt_property with 12.
  rewrite ptr_ok by done. cbn [negb]. rewrite B2, B3, Es, Eo, Eadv.
  replace (_ =? 0) with false by lia. cbn [app find_prop p_name]. case_bool_decide; cbn [negb].
  - by rewrite Ev.
  - eapply IH; try done; [by apply Z.divide_add_r|lia|lia].
Qed.

End ParseProofs.


(** The header fields, in the order they are stored. *)
Lemma header_fields d a b c e g h :
  holds d 0 (header_bytes a b c e g h) ->
  holds d o_magic (be_bytes 4 FDT_MAGIC) /\ holds d o_totalsize (be_bytes 4 h) /\ holds d o_off_dt_struct (be_bytes 4 b) /\
  holds d o_off_dt_strings (be_bytes 4 e) /\ holds d o_off_mem_rsvmap (be_bytes 4 a) /\ holds d o_version (be_bytes 4 0x11) /\
  holds d o_size_dt_strings (be_bytes 4 g) /\ holds d o_size_dt_struct (be_bytes 4 c).
Proof.
  unfold header_bytes. intros H.
  do 9 (apply holds_app in H as [? H]; rewrite ?length_be_bytes in H). done.
Qed.

(** The tree that is read back. *)
Definition memreserve_node (es : list (Z * Z)) : list device_node :=
  match es with
  | [] => []
  | _ => [Node "$memreserve" "/$memreserve" [Property "reg" (Some (reserve_bytes es))] []]
  end.

Definition kept_tree (es : list (Z * Z)) (t : device_node) : device_node :=
  Node String.EmptyString String.EmptyString (kept_props (n_properties t))
    (memreserve_node es ++ kept_children String.EmptyString (n_children t)).

(** Behind the properties of a node there is a child or the end of the node. *)
Lemma behind_props post sb0 cs :
  exists tag rest, fst (enc_children (fun sb n => enc_node sb n) sb0 cs) ++ be_bytes 4 FDT_END_NODE ++ post = be_bytes 4 tag ++ rest /\
    (tag = FDT_BEGIN_NODE \/ tag = FDT_END_NODE).
Proof.
  induction cs as [|c cs IH]; cbn [enc_children]; [eexists _, _; split; [done|by right]|].
  destruct (is_reserved_name (n_name c)); [done|]. pose proof (enc_node_body sb0 c) as Eb. unfold begin_bytes in Eb.
  destruct (enc_node sb0 c) as [d sb1]. injection Eb as -> _. destruct (enc_children _ sb1 cs) as [d' sb2]. cbn [fst].
  rewrite <- !app_assoc. eexists _, _. split; [done|by left].
Qed.

Section Roundtrip.

Context (addr : Z) (Haddr : 0 < addr) (Halign : (4 | addr)) (t : device_node) (es : list (Z * Z)).
Context (Hf : flattenable t) (Hes : Forall (fun e => 0 < snd e < 2 ^ 64) es) (H15 : (length es <= 15)%nat).
Context (d : list byte) (Hlen : Z.of_nat (length d) < 2 ^ 31) (Hd : exists r, d = blob_with (reserve_bytes es) t ++ r).

Let e := fst (enc_node [] t).
Let sb := snd (enc_node [] t).
Let hdr : fdt_header :=
  Header (300 + Z.of_nat (length e) + Z.of_nat (length sb)) 296 (Z.of_nat (length e) + 4)
    (300 + Z.of_nat (length e)) (Z.of_nat (length sb)).

(** Where the parts of the blob are. *)
Lemma blob_parts :
  holds d 0 (header_bytes 40 296 (Z.of_nat (length e) + 4) (300 + Z.of_nat (length e)) (Z.of_nat (length sb))
    (300 + Z.of_nat (length e) + Z.of_nat (length sb))) /\
  holds d 40 (reserve_bytes es ++ replicate 16 Init.Byte.x00) /\
  holds d 296 (e ++ be_bytes 4 FDT_END) /\ holds d (300 + Z.of_nat (length e)) sb.
Proof.
  destruct Hd as [r Er]. unfold blob_with in Er. clear hdr. subst e sb. destruct (enc_node [] t) as [e sb]. cbn [fst snd].
  pose proof (length_reserve_bytes es) as Hlr.
  assert (Hz : replicate (256 - length (reserve_bytes es)) Init.Byte.x00
    = replicate 16 Init.Byte.x00 ++ replicate (240 - length (reserve_bytes es)) Init.Byte.x00)
    by (rewrite <- replicate_add; f_equal; lia).
  assert (Hw : holds d 0 d) by (exists [], []; by rewrite app_nil_r).
  rewrite Er in Hw at 2. rewrite Hz in Hw. rewrite <- !app_assoc in Hw.
  apply holds_app in Hw as [W1 Hw]. rewrite length_header in Hw. rewrite app_assoc in Hw.
  apply holds_app in Hw as [W2 Hw]. rewrite length_app, length_replicate in Hw.
  apply holds_app in Hw as [_ Hw]. rewrite length_replicate in Hw. rewrite app_assoc in Hw.
  apply holds_app in Hw as [W3 Hw]. apply holds_app in Hw as [W4 _]. rewrite length_app, length_be_bytes in W4.
  replace (0 + Z.of_nat 40 + _ + _) with 296 in W3, W4 by lia.
  replace (296 + Z.of_nat (length e + 4)) with (300 + Z.of_nat (length e)) in W4 by lia. done.
Qed.

Lemma blob_size : Z.of_nat (length (blob_with (reserve_bytes es) t)) = totalsize hdr.
Proof.
  unfold blob_with. subst hdr e sb. destruct (enc_node [] t) as [e0 sb0]. cbn [fst snd totalsize].
  pose proof (length_reserve_bytes es). rewrite !length_app, length_header, length_replicate, length_be_bytes. lia.
Qed.

Lemma blob_header : header_ok d hdr.
Proof.
  destruct blob_parts as (P1 & _ & P3 & P4). apply header_fields in P1 as (_ & F2 & _).
  pose proof (holds_bounds _ _ _ P4) as [_ B4]. destruct Hf as (_ & _ & L1 & L2). fold e in L1. fold sb in L2.
  unfold header_ok. cbn [totalsize off_dt_struct size_dt_struct off_dt_strings size_dt_strings hdr].
  split_and!; try lia. apply holds_ld32; [done|lia].
Qed.

Lemma blob_parses size :
  Z.of_nat (length (blob_with (reserve_bytes es) t)) <= size < 2 ^ 31 -> fdt_parse_header d (u64 size) = Some (Ok hdr).
Proof.
  intros Hs. rewrite blob_size in Hs. cbn [totalsize hdr] in Hs.
  destruct Hf as (_ & _ & L1 & L2). fold e in L1. fold sb in L2.
  destruct blob_parts as (P1 & _). apply header_fields in P1 as (F1 & F2 & F3 & F4 & F5 & F6 & F7 & F8).
  unfold fdt_parse_header. rewrite u64_small by lia. replace (size <? sizeof_fdt_header) with false by (unfold sizeof_fdt_header; lia).
  rewrite (holds_ld32 _ _ _ F1), (holds_ld32 _ _ _ F6), (holds_ld32 _ _ _ F2), (holds_ld32 _ _ _ F3), (holds_ld32 _ _ _ F8),
    (holds_ld32 _ _ _ F4), (holds_ld32 _ _ _ F7) by (done || lia).
  cbn [Z.eqb Pos.eqb negb FDT_MAGIC].
  replace (size <? _) with false by lia. replace (_ <? 296 + _) with false by lia. by replace (_ <? _) with false by lia.
Qed.

Lemma blob_num_entries : of_reservemap_num_entries addr d = Some (Z.of_nat (length es)).
Proof.
  destruct blob_parts as (P1 & P2 & _). apply header_fields in P1 as (_ & _ & _ & _ & F5 & _).
  unfold of_reservemap_num_entries. rewrite (holds_ld32 _ _ _ F5) by done.
  rewrite <- (Z.add_0_l (Z.of_nat (length es))).
  apply (reservemap_count addr d hdr blob_header); try done; try lia. cbn [totalsize hdr]. lia.
Qed.

Lemma blob_reservemap :
  of_unflatten_reservemap addr of_new_root d
  = Some (0, Node String.EmptyString String.EmptyString [] (memreserve_node es)).
Proof.
  destruct blob_parts as (P1 & P2 & P3 & P4). apply header_fields in P1 as (_ & _ & _ & _ & F5 & _).
  unfold of_unflatten_reservemap. rewrite blob_num_entries, (holds_ld32 _ _ _ F5) by done. destruct es as [|e0 l] eqn:Ees; [done|]. rewrite <- Ees in *.
  assert (Hl : length es = S (length l)) by (by rewrite Ees).
  replace (Z.of_nat (length es) <=? 0) with false by lia.
  apply holds_app in P2 as [P2 _]. change sizeof_fdt_reserve_entry with 16.
  rewrite (holds_ld _ _ _ _ P2) by (rewrite length_reserve_bytes; lia).
  unfold of_new_property. rewrite firstn_all. rewrite Ees. done.
Qed.

Lemma blob_reads size :
  n_name t = String.EmptyString -> readable 0 t -> Z.of_nat (length (blob_with (reserve_bytes es) t)) <= size < 2 ^ 31 ->
  of_unflatten_dtb addr d size = Some (Ok (kept_tree es t)).
Proof.
  intros Hn Hr Hs. unfold of_unflatten_dtb. rewrite blob_parses, blob_reservemap by done. cbn [Z.eqb negb].
  destruct blob_parts as (P1 & P2 & P3 & P4).
  set (root := Node _ _ _ _).
  destruct (read_tree addr d hdr blob_header Haddr Halign sb P4 eq_refl t root Hn Hr eq_refl) as [n Hn']; try done; [by exists 74|].
  destruct (unflatten_loop_some (S (length d)) hdr addr d (U (off_dt_struct hdr) root [] 0) blob_header) as [r Er].
  { pose proof (holds_bounds _ _ _ P4). cbn [u_dt off_dt_struct hdr]. lia. }
  { cbn [u_dt off_dt_struct hdr]. lia. }
  rewrite Er. pose proof (loop_mono addr d hdr _ n _ _ Er) as M1. pose proof (loop_mono addr d hdr _ (S (length d)) _ _ Hn') as M2.
  rewrite Nat.add_comm, M1 in M2. rewrite M2. done.
Qed.

Lemma blob_compatible size compat :
  n_name t = String.EmptyString -> Forall prop_ok (n_properties t) -> Z.of_nat (length (blob_with (reserve_bytes es) t)) <= size < 2 ^ 31 ->
  fdt_machine_is_compatible addr d size compat = Some (root_score (n_properties t) (bytes_of compat)).
Proof.
  intros Hn Hp Hs. unfold fdt_machine_is_compatible. pose proof (blob_parses size Hs) as Eh. rewrite u64_small in Eh by lia.
  rewrite Eh. destruct blob_parts as (P1 & P2 & P3 & P4). pose proof blob_header as Hh.
  pose proof (holds_bounds _ _ _ P4) as [_ Hend]. apply holds_app in P3 as [P3 _].
  assert (Ha8 : (4 | 304)) by (by exists 76). assert (Ha0 : (4 | 296)) by (by exists 74).
  clear Hd P1 P2 Eh Hs. subst hdr e sb. rewrite enc_node_body in *. cbn [fst snd] in *. rewrite Hn in *.
  destruct t as [nm fl ps cs]. cbn [enc_body n_properties] in *.
  pose proof (enc_props_shape ps []) as [_ Hpre]. destruct (enc_props [] ps) as [dp sb1] eqn:Ep.
  assert (Hsh : Forall (fun c => forall sb, aligned (fst (enc_node sb c)) /\ sb `prefix_of` snd (enc_node sb c)) cs)
    by (apply Forall_forall; intros; apply enc_node_shape).
  pose proof (enc_children_shape (fun sb n => enc_node sb n) cs Hsh sb1) as [_ Hp2].
  destruct (behind_props [] sb1 cs) as (tag & rest & Etag & Ht). rewrite app_nil_r in Etag.
  destruct (enc_children _ sb1 cs) as [dc sb2]. cbn [fst snd] in *.
  rewrite <- app_assoc, Etag in P3. pose proof P3 as Pb. apply holds_app in Pb as [Pb Pr]. rewrite (app_assoc dp) in Pr.
  apply holds_app in Pr as [Pr _]. change (296 + Z.of_nat (length (begin_bytes String.EmptyString))) with 304 in Pr.
  set (h := Header _ _ _ _ _) in *. assert (Hb1 : holds d 296 (be_bytes 4 FDT_BEGIN_NODE)) by (by apply holds_app in Pb as [Pb _]).
  assert (Hb2 : ld d 300 1 = Some [Init.Byte.x00]).
  { apply holds_app in Pb as [_ Pb]. change (pad4 (cstr_bytes String.EmptyString)) with ([Init.Byte.x00] ++ replicate 3 Init.Byte.x00) in Pb.
    apply holds_app in Pb as [Pb _]. by apply (holds_ld d 300 [Init.Byte.x00]). }
  assert (Ls : Z.of_nat (length (begin_bytes String.EmptyString ++ (dp ++ dc) ++ be_bytes 4 FDT_END_NODE)) = 12 + Z.of_nat (length dp + length rest)).
  { rewrite <- app_assoc, Etag, !length_app, length_be_bytes. change (length (begin_bytes String.EmptyString)) with 8%nat. lia. }
  cbn [compatible_loop off_dt_struct h]. rewrite (ptr_ok addr d h Hh Haddr Halign) by (done || (cbn [totalsize h]; lia)).
  cbn [negb]. rewrite (holds_ld32 _ _ _ Hb1) by done. cbn [FDT_NOP FDT_BEGIN_NODE Z.eqb Pos.eqb negb andb].
  change (296 + sizeof_fdt_node_header) with 300. rewrite Hb2. rewrite bool_decide_eq_true_2 by done. cbn [negb].
  rewrite (advance_pad4 d h Hh 296 (be_bytes 4 FDT_BEGIN_NODE ++ cstr_bytes String.EmptyString)), <- begin_bytes_pad; try done.
  2:{ rewrite <- begin_bytes_pad. change (Z.of_nat (length (begin_bytes String.EmptyString))) with 8. cbn [off_dt_struct size_dt_struct h]. lia. }
  change (296 + Z.of_nat (length (begin_bytes String.EmptyString))) with 304. cbn [Z.eqb].
  apply (compatible_props addr d h Hh Haddr Halign sb2 P4 eq_refl ps (bytes_of compat) (length d) [] 304 tag); rewrite ?Ep; try done;
    cbn [fst snd off_dt_struct size_dt_struct h]; lia.
Qed.

End Roundtrip.

(** C5: writing a tree as a blob and reading the blob gives the tree back.  The
    writer stores nothing outside of its buffers, the reader accepts the result for
    every size that covers it, and the tree that comes back has every property and
    every node but the internal ones, in their order, and the reserve map.  The tree
    has property values of at most 64512 bytes, names below 1000 bytes and at most 15
    reserve entries ([flattenable]; a greater property can leave the writer's buffer,
    see [fdt_flatten_overflows]), structure and strings below 2^28 bytes, and at
    most 64 levels and names that the reader accepts ([readable]). *)
Theorem fdt_roundtrip junk addr t es :
  (forall n, length (junk n) = n) -> 0 < addr -> (4 | addr) -> flattenable t -> readable 0 t ->
  n_name t = String.EmptyString ->
  reserved_entries t = reserve_bytes es -> Forall (fun e => 0 < snd e < 2 ^ 64) es -> (length es <= 15)%nat ->
  exists d, of_flatten_dtb junk t = Some (Some d) /\
    forall size, Z.of_nat (length (blob t)) <= size < 2 ^ 31 -> of_unflatten_dtb addr d size = Some (Ok (kept_tree es t)).
Proof.
  intros Hj Ha Hal Hf Hr Hn Hrsv Hes H15. destruct (of_flatten_dtb_spec junk Hj t Hf) as (d & E & Hl & Hd).
  unfold blob in *. rewrite Hrsv in *. exists d. split; [done|]. intros size Hs. by apply blob_reads.
Qed.

(** *** Compatible strings *)

Lemma cstr_bytes_inj_app s s' p p' :
  no_nul s -> no_nul s' -> cstr_bytes s ++ p = cstr_bytes s' ++ p' -> s = s'.
Proof. intros H1 H2 E. rewrite <- (cstr_app s p), <- (cstr_app s' p') by done. by rewrite E. Qed.

(** The needle is the first string, or it is not at the start. *)
Lemma needle_first s c rest :
  no_nul s -> no_nul c -> (length (bytes_of c) < length (cstr_bytes s ++ rest))%nat ->
  take (S (length (bytes_of c))) (cstr_bytes s ++ rest) = bytes_of c ++ [Init.Byte.x00] <-> s = c.
Proof.
  intros Hs Hc Hl. split.
  - intros E. apply (cstr_bytes_inj_app s c rest (drop (S (length (bytes_of c))) (cstr_bytes s ++ rest))); [done..|].
    unfold cstr_bytes at 2. rewrite <- E. by rewrite take_drop.
  - intros ->. rewrite take_app_le by (rewrite length_cstr_bytes; lia). rewrite <- length_cstr_bytes. apply firstn_all.
Qed.

Definition index_score (l : list string) (c : string) (index : Z) : Z :=
  match list_find (fun s => s = c) l with
  | Some (i, _) => OF_DEVICE_COMPATIBLE_MAX_SCORE - Z.shiftl (index + Z.of_nat i) 2
  | None => 0
  end.

Lemma string_is_compatible_spec c l : forall fuel index,
  no_nul c -> Forall no_nul l -> (length (flat_map cstr_bytes l) < fuel)%nat ->
  string_is_compatible fuel (flat_map cstr_bytes l) (bytes_of c) index = index_score l c index.
Proof.
  intros fuel index Hc Hl. revert fuel index. unfold index_score.
  induction Hl as [|s l Hs Hl IH]; intros [|fuel] index Hf; try lia; cbn [string_is_compatible flat_map list_find] in *.
  { cbn [length]. replace (_ <? 0)%nat with false; [done|]. symmetry. by apply Nat.ltb_ge, Nat.le_0_l. }
  pose proof (length_cstr_bytes s) as Ls. rewrite length_app in *. destruct (_ <? _)%nat eqn:E.
  - apply Nat.ltb_lt in E. pose proof (needle_first s c (flat_map cstr_bytes l) Hs Hc ltac:(rewrite length_app; lia)) as Hnf.
    destruct (decide (s = c)) as [->|Hne].
    + rewrite bool_decide_eq_true_2 by (by apply Hnf). cbn [fmap option_fmap option_map]. by rewrite Z.add_0_r.
    + rewrite bool_decide_eq_false_2 by (by rewrite Hnf). rewrite strnlen_bytes by done.
      replace (_ =? _)%nat with false by (symmetry; apply Nat.eqb_neq; lia).
      replace (drop (S (length (bytes_of s))) (cstr_bytes s ++ flat_map cstr_bytes l)) with (flat_map cstr_bytes l)
        by (rewrite <- length_cstr_bytes; by rewrite drop_app_length).
      rewrite IH by lia. destruct (list_find _ l) as [[i x]|]; cbn [fmap option_fmap option_map prod_map]; [|done].
      cbn [fst]. do 2 f_equal. lia.
  - apply Nat.ltb_ge in E. assert (Hno : forall x, x ∈ s :: l -> x <> c).
    { intros x Hx ->. assert (length (cstr_bytes c) <= length (flat_map cstr_bytes (s :: l)))%nat.
      { clear -Hx. induction (s :: l) as [|y l' IH]; [by apply elem_of_nil in Hx|]. cbn [flat_map]. rewrite length_app.
        apply elem_of_cons in Hx as [->|Hx]; [lia|]. specialize (IH Hx). lia. }
      cbn [flat_map] in H. rewrite length_app, (length_cstr_bytes c) in H. lia. }
    rewrite decide_False by (apply Hno; by left).
    replace (list_find (fun s => s = c) l) with (@None (nat * string)); [done|]. symmetry.
    apply list_find_None, Forall_forall. intros x Hx. apply Hno. by right.
Qed.

(** [fdt_machine_is_compatible] looks up the compatible strings of the root.
    For a blob that was written for a tree whose root lists the strings [l], it gives
    the first string the best score and each later one four less, and 0 to a string
    that is not listed. *)
Theorem fdt_compatible_score junk addr t es l compat :
  (forall n, length (junk n) = n) -> 0 < addr -> (4 | addr) -> flattenable t -> Forall prop_ok (n_properties t) ->
  n_name t = String.EmptyString ->
  reserved_entries t = reserve_bytes es -> (length es <= 15)%nat ->
  of_get_property t "compatible" = Some (flat_map cstr_bytes l) -> Forall no_nul l -> no_nul compat ->
  exists d, of_flatten_dtb junk t = Some (Some d) /\
    forall size, Z.of_nat (length (blob t)) <= size < 2 ^ 31 ->
    fdt_machine_is_compatible addr d size compat
    = Some match list_find (fun s => s = compat) l with
           | Some (i, _) => OF_DEVICE_COMPATIBLE_MAX_SCORE - 4 * Z.of_nat i
           | None => 0
           end.
Proof.
  intros Hj Ha Hal Hf Hp Hn Hrsv H15 Hget Hl Hc. destruct (of_flatten_dtb_spec junk Hj t Hf) as (d & E & Hlen & Hd).
  unfold blob in *. rewrite Hrsv in *. exists d. split; [done|]. intros size Hs.
  rewrite (blob_compatible addr Ha Hal t es Hf H15 d Hlen Hd) by done.
  unfold root_score. rewrite find_kept by done. unfold of_get_property, of_find_property in Hget.
  destruct (find_prop _ _) as [p|]; [|done]. cbn [option_map fmap option_fmap p_value default]. rewrite Hget.
  unfold fdt_string_is_compatible. cbn [default from_option id]. rewrite string_is_compatible_spec by (done || lia). unfold index_score.
  destruct (list_find _ l) as [[i x]|]; [|done]. rewrite Z.shiftl_mul_pow2 by lia. do 2 f_equal. lia.
Qed.

(** [fdt_machine_is_compatible] looks at the first character of the name of the
    root without a check: for a blob that its header accepts and that ends behind the
    begin tag of the root, it reads a byte behind the blob. *)
Theorem fdt_compatible_overreads addr fdt f size compat :
  0 < addr -> (4 | addr) -> Z.of_nat (length fdt) = size -> size < 2 ^ 31 ->
  fdt_parse_header fdt size = Some (Ok f) -> (4 | off_dt_struct f) ->
  read_at fdt (Z.to_nat (off_dt_struct f)) 4 = be_bytes 4 FDT_BEGIN_NODE ->
  totalsize f = size -> off_dt_struct f + 4 = size ->
  fdt_machine_is_compatible addr fdt size compat = None.
Proof.
  intros Ha Hal Hl Hs Hp Hst Htag Htot Hend. unfold fdt_machine_is_compatible.
  destruct (parse_header_spec fdt size ltac:(lia) ltac:(lia)) as (r & Er & Hr). rewrite u64_small in Er by lia.
  rewrite Hp in *. injection Er as <-. cbn [compatible_loop]. pose proof Hr as (H1 & H2 & H3 & _).
  rewrite (ptr_ok addr fdt f Hr Ha Hal) by (done || lia). cbn [negb].
  assert (Et : ld32 fdt (off_dt_struct f) = Some FDT_BEGIN_NODE).
  { unfold ld32. rewrite ld_some by lia. cbn [fmap option_fmap option_map]. change (Z.to_nat 4) with 4%nat. by rewrite Htag. }
  rewrite Et. cbn [FDT_NOP FDT_BEGIN_NODE Z.eqb Pos.eqb negb andb].
  unfold ld. change sizeof_fdt_node_header with 4. by replace ((0 <=? _) && _) with false by lia.
Qed.

(** *** Adding to the reserve map *)

(** The entries that [fdt_add_reserve_map] stores. *)
Definition map_entries (m : of_reserve_map) : list (Z * Z) :=
  map (fun '(start, end_) => (start, u64 (end_ - start + 1))) (zip (rs_start m) (rs_end m)).

Lemma write_entries_spec l : forall pre old post,
  length old = (16 * length l + 16)%nat ->
  write_entries (pre ++ old ++ post) (Z.of_nat (length pre)) l
  = Some (pre ++ (reserve_bytes (map (fun '(start, end_) => (start, u64 (end_ - start + 1))) l) ++ replicate 16 Init.Byte.x00) ++ post).
Proof.
  assert (Hst : forall pre old post data off, length old = length data -> off = Z.of_nat (length pre) ->
    st (pre ++ old ++ post) off data = Some (pre ++ data ++ post)).
  { intros pre old post data off Ho ->. rewrite st_some by (rewrite ?length_app; lia).
    by rewrite Nat2Z.id, write_at_middle. }
  assert (Htwo : forall pre old post a b off, length old = 16%nat -> off = Z.of_nat (length pre) ->
    match st (pre ++ old ++ post) off (be_bytes 8 a) with Some f => st f (off + 8) (be_bytes 8 b) | None => None end
    = Some (pre ++ (be_bytes 8 a ++ be_bytes 8 b) ++ post)).
  { intros pre old post a b off Ho ->. rewrite <- (take_drop 8 old), <- (app_assoc (take 8 old)).
    rewrite Hst by (rewrite ?length_take, ?length_be_bytes; lia). rewrite (app_assoc pre).
    rewrite Hst by (rewrite ?length_app, ?length_drop, ?length_be_bytes; lia). by rewrite <- !app_assoc. }
  induction l as [|[a b] l IH]; intros pre old post Ho; cbn [write_entries map] in *.
  { apply Htwo; [|done]. cbn [length] in Ho. lia. }
  cbn [length] in Ho. unfold reserve_bytes. cbn [flat_map fst snd].
  rewrite <- (take_drop 16 old), <- (app_assoc (take 16 old)).
  pose proof (Htwo pre (take 16 old) (drop 16 old ++ post) a (u64 (b - a + 1)) _ ltac:(rewrite length_take; lia) eq_refl) as H2.
  destruct (st _ (Z.of_nat (length pre)) _) as [f|]; [|done]. rewrite H2.
  rewrite (app_assoc pre). change sizeof_fdt_reserve_entry with 16.
  replace (Z.of_nat (length pre) + 16) with (Z.of_nat (length (pre ++ be_bytes 8 a ++ be_bytes 8 (u64 (b - a + 1)))))
    by (rewrite !length_app, !length_be_bytes; lia).
  rewrite IH by (rewrite length_drop; lia). by rewrite <- !app_assoc.
Qed.

Lemma length_map_entries m :
  length (rs_end m) = length (rs_start m) -> length (map_entries m) = length (rs_start m).
Proof. intros H. unfold map_entries. rewrite length_map, length_zip_with. lia. Qed.

(** Behind the entries of a blob there is room for those of the map. *)
Lemma add_reserve_map_blob addr t es m d :
  0 < addr -> (4 | addr) -> flattenable t -> Forall (fun e => 0 < snd e < 2 ^ 64) es ->
  length (rs_end m) = length (rs_start m) -> (length es + length (rs_start m) <= 12)%nat -> Z.of_nat (length d) < 2 ^ 31 ->
  (exists r, d = blob_with (reserve_bytes es) t ++ r) ->
  exists d', fdt_add_reserve_map addr d m = Some d' /\ length d' = length d /\
    exists r, d' = blob_with (reserve_bytes (es ++ map_entries m)) t ++ r.
Proof.
  intros Ha Hal Hf Hes Hm H12 Hlen Hd. assert (H15 : (length es <= 15)%nat) by lia.
  destruct (blob_parts t es H15 d Hd) as (P1 & _). apply header_fields in P1 as (_ & _ & _ & _ & F5 & _).
  unfold fdt_add_reserve_map. rewrite (holds_ld32 _ _ _ F5) by done.
  rewrite (blob_num_entries addr Ha t es Hf Hes H15 d Hlen Hd).
  replace (_ <? 0) with false by lia. unfold num_entries.
  replace (OF_MAX_FREE_RESERVE_MAP <? _) with false by (unfold OF_MAX_FREE_RESERVE_MAP, OF_MAX_RESERVE_MAP; lia).
  destruct Hd as [r ->]. unfold blob_with in *. destruct (enc_node [] t) as [e sb].
  set (hd := header_bytes _ _ _ _ _ _). set (k := length (rs_start m)) in *.
  pose proof (length_map_entries m Hm) as Lm. fold k in Lm. pose proof (length_reserve_bytes es) as Le.
  pose proof (length_reserve_bytes (map_entries m)) as Lme.
  assert (Lz : length (zip (rs_start m) (rs_end m)) = k) by (rewrite length_zip_with; lia).
  assert (Lh : length hd = 40%nat) by apply length_header.
  assert (Ez : replicate (256 - length (reserve_bytes es)) Init.Byte.x00
    = replicate (16 * k + 16) Init.Byte.x00 ++ replicate (240 - 16 * length es - 16 * k) Init.Byte.x00)
    by (rewrite <- replicate_add; f_equal; lia).
  pose proof (write_entries_spec (zip (rs_start m) (rs_end m)) (hd ++ reserve_bytes es) (replicate (16 * k + 16) Init.Byte.x00)
    (replicate (240 - 16 * length es - 16 * k) Init.Byte.x00 ++ e ++ be_bytes 4 FDT_END ++ sb ++ r)) as W.
  rewrite length_replicate, Lz in W. specialize (W eq_refl). fold (map_entries m) in W. change sizeof_fdt_reserve_entry with 16.
  replace (Z.of_nat (length (hd ++ reserve_bytes es))) with (40 + Z.of_nat (length es) * 16) in W by (rewrite length_app; lia).
  rewrite Ez. eexists. rewrite <- !app_assoc in W. split; [rewrite <- !app_assoc; exact W|]. split.
  { rewrite !length_app, !length_replicate. lia. }
  exists r. unfold reserve_bytes. rewrite flat_map_app. fold (reserve_bytes es). fold (reserve_bytes (map_entries m)).
  rewrite !length_app. rewrite <- !app_assoc. do 3 f_equal. rewrite !app_assoc. do 4 f_equal. rewrite <- replicate_add. f_equal. lia.
Qed.

(** The memory reservations that were collected get into the blob.  After
    [fdt_add_reserve_map] a blob that was written for a tree reads as that tree with
    the reservations behind those it had, as long as there are at most twelve. *)
Theorem fdt_add_reserve_map_ok junk addr t es m :
  (forall n, length (junk n) = n) -> 0 < addr -> (4 | addr) -> flattenable t -> readable 0 t ->
  n_name t = String.EmptyString -> reserved_entries t = reserve_bytes es ->
  Forall (fun e => 0 < snd e < 2 ^ 64) (es ++ map_entries m) -> length (rs_end m) = length (rs_start m) ->
  (length es + length (rs_start m) <= 12)%nat ->
  exists d d', of_flatten_dtb junk t = Some (Some d) /\ fdt_add_reserve_map addr d m = Some d' /\
    forall size, Z.of_nat (length (blob t)) <= size < 2 ^ 31 ->
      of_unflatten_dtb addr d' size = Some (Ok (kept_tree (es ++ map_entries m) t)).
Proof.
  intros Hj Ha Hal Hf Hr Hn Hrsv Hes Hm H12. destruct (of_flatten_dtb_spec junk Hj t Hf) as (d & E & Hl & Hd).
  unfold blob in *. rewrite Hrsv in *. apply Forall_app in Hes as Hes'.
  destruct (add_reserve_map_blob addr t es m d) as (d' & E' & L' & Hd'); [done..|apply Hes'|done|done|done|done|].
  exists d, d'. split; [done|]. split; [done|]. intros size Hs.
  pose proof (length_map_entries m Hm) as Lm. apply blob_reads; try done; try lia; [rewrite length_app; lia|].
  replace (length (blob_with _ t)) with (length (blob_with (reserve_bytes es) t)); [done|].
  unfold blob_with. destruct (enc_node [] t) as [e sb].
  rewrite !length_app, !length_header, !length_replicate, !length_reserve_bytes, length_app. lia.
Qed.

(** More than twelve are not stored at all, although the map has room for fifteen and
    [of_add_reserve_entry] accepts fourteen. *)
Lemma fdt_add_reserve_map_drops addr t es m d :
  0 < addr -> (4 | addr) -> flattenable t -> Forall (fun e => 0 < snd e < 2 ^ 64) es -> (length es <= 15)%nat ->
  Z.of_nat (length d) < 2 ^ 31 -> (exists r, d = blob_with (reserve_bytes es) t ++ r) ->
  (12 < length es + length (rs_start m))%nat -> fdt_add_reserve_map addr d m = Some d.
Proof.
  intros Ha Hal Hf Hes H15 Hlen Hd H12.
  destruct (blob_parts t es H15 d Hd) as (P1 & _). apply header_fields in P1 as (_ & _ & _ & _ & F5 & _).
  unfold fdt_add_reserve_map. rewrite (holds_ld32 _ _ _ F5) by done.
  rewrite (blob_num_entries addr Ha t es Hf Hes H15 d Hlen Hd).
  replace (_ <? 0) with false by lia. unfold num_entries.
  by replace (OF_MAX_FREE_RESERVE_MAP <? _) with true by (unfold OF_MAX_FREE_RESERVE_MAP, OF_MAX_RESERVE_MAP; lia).
Qed.

(** Concrete trees that can be written and read. *)
Ltac solve_fits :=
  cbn [node_fits fold_right n_name]; unfold prop_fits; cbn [p_name];
  repeat first [done | discriminate | apply Forall_cons_2 | apply Forall_nil_2 | split | intros _
    | apply Nat.ltb_lt; vm_compute; reflexivity | apply Z.leb_le; vm_compute; reflexivity
    | let H := fresh in intros H; vm_compute in H; discriminate].

Ltac solve_flattenable :=
  match goal with |- flattenable ?t => try unfold t end;
  unfold flattenable; split; [solve_fits|split; [apply Nat.leb_le; vm_compute; reflexivity|
    split; apply Z.leb_le; vm_compute; reflexivity]].

Ltac solve_readable :=
  match goal with |- readable _ ?t => try unfold t end;
  repeat split; cbn; repeat constructor; try discriminate; intros; vm_compute; repeat split; repeat constructor; discriminate.

(** ** A board *)

Module Demo.

Definition junk (n : nat) : list byte := replicate n Init.Byte.xff.

Definition compatibles : list string := ["vendor,board"; "vendor,soc"].

Definition reserved : list (Z * Z) := [(0x40000000, 0x100000)].

Definition board : device_node :=
  Node String.EmptyString String.EmptyString
    [Property "compatible" (Some (flat_map cstr_bytes compatibles)); Property "$internal" None]
    [ Node "$memreserve" "/$memreserve" [Property "reg" (Some (reserve_bytes reserved))] [];
      Node "memory@40000000" "/memory@40000000"
        [Property "reg" (Some (be_bytes 8 0x40000000 ++ be_bytes 8 0x10000000)); Property "nomap" None]
        [Node "child" "/memory@40000000/child" [] []] ].

Definition one_more : of_reserve_map := Rsv [0x48000000] [0x480fffff].

Lemma board_flattenable : flattenable board.
Proof. solve_flattenable. Qed.

Lemma board_names : readable 0 board.
Proof. solve_readable. Qed.

Lemma junk_length n : length (junk n) = n.
Proof. apply length_replicate. Qed.

Lemma of_unflatten_dtb_safe_witness :
  exists r, of_unflatten_dtb 4096 (take 320 (blob board)) (Z.of_nat (length (take 320 (blob board)))) = Some r.
Proof. apply of_unflatten_dtb_safe. vm_compute. reflexivity. Defined.

Lemma fdt_roundtrip_witness :
  exists d, of_flatten_dtb junk board = Some (Some d) /\
    forall size, Z.of_nat (length (blob board)) <= size < 2 ^ 31 ->
      of_unflatten_dtb 4096 d size = Some (Ok (kept_tree reserved board)).
Proof.
  apply fdt_roundtrip.
  - exact junk_length.
  - reflexivity.
  - by exists 1024.
  - exact board_flattenable.
  - exact board_names.
  - reflexivity.
  - vm_compute; reflexivity.
  - repeat constructor.
  - cbn. lia.
Defined.

Lemma fdt_add_reserve_map_ok_witness :
  exists d d', of_flatten_dtb junk board = Some (Some d) /\ fdt_add_reserve_map 4096 d one_more = Some d' /\
    forall size, Z.of_nat (length (blob board)) <= size < 2 ^ 31 ->
      of_unflatten_dtb 4096 d' size = Some (Ok (kept_tree (reserved ++ map_entries one_more) board)).
Proof.
  apply fdt_add_reserve_map_ok.
  - exact junk_length.
  - reflexivity.
  - by exists 1024.
  - exact board_flattenable.
  - exact board_names.
  - reflexivity.
  - vm_compute; reflexivity.
  - repeat constructor.
  - reflexivity.
  - cbn. lia.
Defined.

Lemma fdt_compatible_score_witness :
  exists d, of_flatten_dtb junk board = Some (Some d) /\
    forall size, Z.of_nat (length (blob board)) <= size < 2 ^ 31 ->
      fdt_machine_is_compatible 4096 d size "vendor,soc" = Some (OF_DEVICE_COMPATIBLE_MAX_SCORE - 4).
Proof.
  apply (fdt_compatible_score junk 4096 board reserved compatibles "vendor,soc").
  - exact junk_length.
  - reflexivity.
  - by exists 1024.
  - exact board_flattenable.
  - repeat constructor; discriminate.
  - reflexivity.
  - vm_compute; reflexivity.
  - cbn. lia.
  - reflexivity.
  - repeat constructor; discriminate.
  - repeat constructor; discriminate.
Defined.

Lemma fdt_flatten_overflows_witness :
  of_flatten_dtb junk (Node String.EmptyString String.EmptyString
    [Property "firmware" (Some (replicate (Z.to_nat 131000) Init.Byte.x00))] []) = None.
Proof.
  apply fdt_flatten_overflows.
  - exact junk_length.
  - reflexivity.
  - cbn. lia.
  - rewrite length_replicate. lia.
Defined.

(** A header and the begin tag of the root, nothing else. *)
Definition stub : list byte := header_bytes 40 40 4 44 0 44 ++ be_bytes 4 FDT_BEGIN_NODE.

Lemma fdt_compatible_overreads_witness : fdt_machine_is_compatible 4096 stub 44 "vendor,board" = None.
Proof.
  apply (fdt_compatible_overreads 4096 stub (Header 44 40 4 44 0)); try reflexivity.
  - by exists 1024.
  - by exists 10.
Defined.

(** The reader refuses it. *)
Example unflatten_stub : of_unflatten_dtb 4096 stub 44 = Some (Err (- ESPIPE)).
Proof. vm_compute. reflexivity. Qed.

End Demo.

End Fdt.
