(* ===== verification/FormatDtb.v ===== *)
(** * The dtb format of a state (common/state/backend_format_dtb.c)

    A state packed as a flattened device tree: [pack] converts the variables to
    nodes and writes them as a blob, [verify] reads a blob into nodes, [unpack]
    imports the variables from the nodes that [verify] left behind.

    As in [Fdt], a function that leaves a buffer has the result [None]. *)

From stdpp Require Import base list strings.
From Stdlib Require Import ZArith Lia.
From Stdlib Require Strings.String.
From S2P Require Import Prelude Storage Direct Of StateVars State Fdt.

Module FormatDtb.
Import Storage Of StateVars State Fdt.

(** ** Operations *)

(** The tree that was read or written last. *)
Record state_backend_format_dtb := FormatDtb {
  d_root : option device_node
}.

Section Dtb.

(** Buffers come from the allocator: [addr] is the address of one.  [junk] is what
    fresh memory holds, [live] the node of the state in the device tree. *)
Context (addr : Z) (junk : nat -> list byte) (live : option device_node).

(** The reader gets the bytes that the blob says it has; it uses no others. *)
Definition state_backend_format_dtb_verify (f : state_backend_format_dtb) (magic : Z) (buf : list byte)
    (len flags : Z) : option (Z * Z * state_backend_format_dtb) :=
  if len <? sizeof_fdt_header then Some (- EINVAL, len, f)
  else
    dtb_len <-! ld32 buf o_totalsize;;
    if len <? dtb_len then Some (- EINVAL, len, f)
    else
      root <-! of_unflatten_dtb addr (take (Z.to_nat dtb_len) buf) (s32 dtb_len);;
      Some match root with
           | Err e => (e, len, FormatDtb None)
           | Ok root => (0, dtb_len, FormatDtb (Some root))
           end.

(** Without a tree of an earlier [verify] the buffer is read here; the result is
    not looked at, a null tree has no magic. *)
Definition state_backend_format_dtb_unpack (f : state_backend_format_dtb) (magic : Z) (vars : list state_variable)
    (buf : list byte) (len : Z) : option (Z * list state_variable * state_backend_format_dtb) :=
  f <-! match d_root f with
        | Some _ => Some f
        | None => r <-! state_backend_format_dtb_verify f 0 buf len 0;; Some (snd r)
        end;;
  let '(ret, cs) := match d_root f with
                    | Some root => load_from_node magic (ConvSt vars []) root
                    | None => (- EINVAL, ConvSt vars [])
                    end in
  Some (ret, cs_vars cs, FormatDtb None).

(** The packed bytes are those of the blob, not of the memory it lies in. *)
Definition state_backend_format_dtb_pack (f : state_backend_format_dtb) (magic : Z) (vars : list state_variable)
  : option (res (list byte) * state_backend_format_dtb) :=
  match state_to_node vars magic live None STATE_CONVERT_TO_NODE with
  | Err e => Some (Err e, f)
  | Ok root =>
      fdt <-! of_flatten_dtb junk root;;
      match fdt with
      | None => Some (Err (- EINVAL), f)
      | Some fdt =>
          len <-! ld32 fdt o_totalsize;;
          Some (Ok (take (Z.to_nat len) fdt), FormatDtb (Some root))
      end
  end.

Definition backend_format_dtb_create : state_backend_format_dtb := FormatDtb None.

(** ** The contract of a format *)

(** [verify] never leaves a buffer of the size it is given. *)
Lemma dtb_verify_some f magic buf len flags :
  0 <= len <= Z.of_nat (length buf) -> Z.of_nat (length buf) < 2 ^ 31 ->
  exists r, state_backend_format_dtb_verify f magic buf len flags = Some r.
Proof.
  intros Hl Hs. unfold state_backend_format_dtb_verify. destruct (len <? sizeof_fdt_header) eqn:E; [by eexists|].
  bool_prop. change sizeof_fdt_header with 40 in E.
  destruct (ld32_some buf o_totalsize) as (dtb_len & -> & Hd); [done|unfold o_totalsize; lia|].
  destruct (len <? dtb_len) eqn:E1; [by eexists|]. bool_prop. rewrite s32_small by lia.
  destruct (unflatten_some addr (take (Z.to_nat dtb_len) buf) dtb_len) as [r ->]; [rewrite length_take; lia..|].
  by eexists.
Qed.

#[export] Instance dtb_ops : FormatOps state_backend_format_dtb := {
  verify f magic buf len flags :=
    default (- EINVAL, len, f) (state_backend_format_dtb_verify f magic buf len flags)
}.

(** A blob that is accepted has a header. *)
Lemma unflatten_header buf size t :
  0 <= size < 2 ^ 32 -> of_unflatten_dtb addr buf (s32 size) = Some (Ok t) -> 40 <= size.
Proof.
  intros Hs. unfold of_unflatten_dtb, fdt_parse_header.
  destruct (u64 (s32 size) <? sizeof_fdt_header) eqn:E; [done|]. intros _. bool_prop.
  destruct (decide (size < 2 ^ 31)) as [H|H]; [|lia]. rewrite s32_small, u64_small in E by lia. done.
Qed.

Lemma ld32_take buf n off : (Z.to_nat off + 4 <= n)%nat -> 0 <= off ->
  Z.of_nat n <= Z.of_nat (length buf) -> ld32 (take n buf) off = ld32 buf off.
Proof.
  intros H1 H2 H3. unfold ld32, ld. rewrite length_take_le by lia.
  replace (off + 4 <=? Z.of_nat n) with true by lia.
  replace (off + 4 <=? Z.of_nat (length buf)) with true by lia.
  destruct (0 <=? off); cbn [andb]; [|done]. do 2 f_equal. unfold read_at.
  rewrite skipn_firstn_comm, take_take. f_equal. lia.
Qed.

Lemma dtb_verify_safe f magic d n flags :
  0 <= n <= Z.of_nat (length d) -> let '(_, n', _) := verify f magic d n flags in 0 <= n' <= n.
Proof.
  intros Hn. cbn [verify dtb_ops]. unfold state_backend_format_dtb_verify.
  destruct (n <? sizeof_fdt_header); [cbn; lia|].
  destruct (ld32 d o_totalsize) as [dl|] eqn:El; [|cbn; lia].
  destruct (n <? dl) eqn:E; bool_prop; [cbn; lia|].
  destruct (of_unflatten_dtb _ _ _) as [[t|e]|] eqn:Eu; cbn; [|lia..].
  split; [|lia]. unfold ld32 in El. destruct (ld d o_totalsize 4); inv El. apply le_val_nonneg.
Qed.

(** Only the bytes of the blob count. *)
Lemma dtb_verify_prefix f g magic flags d n n' f' d2 n2 :
  0 <= n <= Z.of_nat (length d) -> verify f magic d n flags = (0, n', f') -> n' <= n2 <= Z.of_nat (length d2) ->
  take (Z.to_nat n') d2 = take (Z.to_nat n') d -> exists g', verify g magic d2 n2 flags = (0, n', g').
Proof.
  intros Hn. cbn [verify dtb_ops]. unfold state_backend_format_dtb_verify.
  destruct (n <? sizeof_fdt_header) eqn:E0; bool_prop; [done|]. change sizeof_fdt_header with 40 in *.
  destruct (ld32_some d o_totalsize) as (dl & El & Hdl); [done|unfold o_totalsize; lia|]. rewrite El.
  destruct (n <? dl) eqn:E1; bool_prop; [done|].
  destruct (of_unflatten_dtb addr (take (Z.to_nat dl) d) (s32 dl)) as [[t|e]|] eqn:Eu; [| |done].
  2:{ intros Hr. injection Hr as -> _ _. by apply unflatten_err in Eu. }
  intros Hr Hn2 Htake. injection Hr as <- <-. pose proof (unflatten_header _ _ _ Hdl Eu) as H40.
  replace (n2 <? 40) with false by lia.
  assert (El2 : ld32 d2 o_totalsize = Some dl).
  { rewrite <- El, <- (ld32_take d2 (Z.to_nat dl)), <- (ld32_take d (Z.to_nat dl)), Htake by (unfold o_totalsize; lia). done. }
  rewrite El2. replace (n2 <? dl) with false by lia. rewrite Htake, Eu. by eexists.
Qed.

#[export] Instance dtb_format_ok : FormatOk state_backend_format_dtb.
Proof.
  refine (@Build_FormatOk _ dtb_ops (fun _ => True) _ _).
  - intros f magic d n flags _ Hn. pose proof (dtb_verify_safe f magic d n flags Hn) as H.
    destruct (verify f magic d n flags) as [[r n'] f']. done.
  - intros f g magic flags d n n' f' d2 n2 _ _. apply dtb_verify_prefix.
Defined.

End Dtb.

(** ** Variables and the nodes that hold them *)

(** The contents may differ, the variable does not. *)
Definition compat (sv0 sv : state_variable) : Prop :=
  same_var sv0 sv /\ wf_var sv0 /\ default_fits sv0.

(** A variable that can be written: its string, if it is one, is known to its
    parameter, and its default fits. *)
Definition storable (sv : state_variable) : Prop := wf_var sv /\ synced sv /\ default_fits sv.

Definition node_name (pname : string) (node : device_node) : string := full_name pname (strip_at (n_name node)).

(** The variables that the nodes of a tree stand for. *)
Fixpoint var_names (pname : string) (node : device_node) : list string :=
  match node with
  | Node nm _ _ cs =>
      let name := full_name pname (strip_at nm) in
      flat_map (var_names name) cs ++
      match of_property_read_string node "type" with Ok _ => [name] | Err _ => [] end
  end.

(** The live tree describes variables of the state: a node has the type of its
    variable, or it is a parent of such nodes. *)
Fixpoint describes (vars : list state_variable) (pname : string) (node : device_node) : Prop :=
  match node with
  | Node nm _ _ cs =>
      let name := full_name pname (strip_at nm) in
      name_ok nm /\ fold_right (fun c P => describes vars name c /\ P) True cs /\
      match of_property_read_string node "type" with
      | Err e => e = - EINVAL /\ cs <> []
      | Ok ty => exists vt sv, state_find_type_by_name ty = Some vt /\ state_find_var vars name = Ok sv /\ vtype vt = sv_type sv
      end
  end.

Definition clean (ps : list property) : Prop :=
  Forall (fun p => is_reserved_name (p_name p) = false /\ p_value p <> None) ps.

(** A written tree holds the variables: importing the node of a variable gives it
    its value. *)
Fixpoint carries (vars : list state_variable) (pname : string) (node : device_node) : Prop :=
  match node with
  | Node nm _ ps cs =>
      let name := full_name pname (strip_at nm) in
      name_ok nm /\ clean ps /\ fold_right (fun c P => carries vars name c /\ P) True cs /\
      match of_property_read_string node "type" with
      | Err e => e = - EINVAL /\ cs <> []
      | Ok ty => exists vt sv, vt ∈ types /\ state_find_type_by_name ty = Some vt /\ state_find_var vars name = Ok sv /\
          vtype vt = sv_type sv /\
          forall sv0, compat sv0 sv -> exists sv', import vt sv0 node = (0, sv') /\ sv_raw sv' = sv_raw sv
      end
  end.

Lemma fold_and {A} (P : A -> Prop) l : fold_right (fun c Q => P c /\ Q) True l <-> Forall P l.
Proof. induction l as [|x l IH]; cbn; [split; auto|]. rewrite IH. split; [intros [??]; by constructor|by intros H; inv H]. Qed.

Lemma find_type_name vt : vt ∈ types -> state_find_type_by_name (type_name vt) = Some vt /\ no_nul (type_name vt).
Proof.
  intros Hin. unfold types in Hin. rewrite !elem_of_cons, elem_of_nil in Hin.
  destruct Hin as [->|[->|[->|[->|[->|[]]]]]]; (split; [reflexivity|repeat constructor; discriminate]).
Qed.

(** *** Writing *)

Lemma clean_put ps name d : is_reserved_name name = false -> clean ps -> clean (put_prop ps name d).
Proof.
  intros Hn Hc. unfold clean, put_prop. apply Forall_app. split; [|by repeat constructor].
  induction Hc as [|p ps Hp Hc IH]; cbn; [constructor|]. case_bool_decide; [done|by constructor].
Qed.

Lemma wrote_clean node node' : wrote node node' -> clean (n_properties node) -> clean (n_properties node').
Proof.
  intros (_ & _ & _ & l & Hl & ->). revert Hl. generalize (n_properties node). induction l as [|[k v] l IH]; intros ps Hl Hc; [done|].
  apply Forall_cons in Hl as [Hk Hl]. cbn [fold_left]. apply IH; [done|]. apply clean_put; [|done]. cbn [fst] in *.
  rewrite !elem_of_cons, elem_of_nil in Hk. by destruct Hk as [->|[->|[->|[]]]].
Qed.

Lemma wrote_type node node' : wrote node node' -> find_prop (n_properties node') "type" = find_prop (n_properties node) "type".
Proof.
  intros (_ & _ & _ & l & Hl & ->). revert Hl. generalize (n_properties node). induction l as [|[k v] l IH]; intros ps Hl; [done|].
  apply Forall_cons in Hl as [Hk Hl]. cbn [fold_left]. rewrite IH by done. apply put_prop_other. cbn [fst] in *.
  rewrite !elem_of_cons, elem_of_nil in Hk. by destruct Hk as [->|[->|[->|[]]]].
Qed.

(** The node of one variable. *)
Lemma convert_existing_carries cs n name vt sv :
  vt ∈ types -> state_find_var (cs_vars cs) name = Ok sv -> vtype vt = sv_type sv -> storable sv -> n_properties n = [] ->
  exists nn, (forall node, convert_existing cs node (Some n) name vt STATE_CONVERT_TO_NODE = (0, cs, Some nn)) /\
    n_name nn = n_name n /\ n_full_name nn = n_full_name n /\ n_children nn = n_children n /\ clean (n_properties nn) /\
    of_property_read_string nn "type" = Ok (type_name vt) /\
    forall sv0, compat sv0 sv -> exists sv', import vt sv0 nn = (0, sv') /\ sv_raw sv' = sv_raw sv.
Proof.
  intros Hin Hf Ht (Hw & Hsy & Hdf) Hn. destruct (find_type_name vt Hin) as [_ Hnul]. unfold convert_existing. rewrite Hf.
  set (n1 := Node (n_name n) (n_full_name n) [Property "type" (Some (cstr_bytes (type_name vt)))] (n_children n)).
  set (n2 := Node (n_name n) (n_full_name n) [Property "type" (Some (cstr_bytes (type_name vt)));
    Property "reg" (Some (concat (map (be_bytes 4) [sv_start sv; sv_size sv])))] (n_children n)).
  assert (E1 : of_property_write_string n "type" (type_name vt) = (0, n1)).
  { destruct n as [nm fl ps cs0]. cbn [n_properties] in Hn. subst ps. unfold of_property_write_string, of_set_property, of_new_property.
    cbn [of_find_property find_prop n_properties]. by rewrite firstn_all. }
  assert (E2 : of_property_write_u32_array n1 "reg" [sv_start sv; sv_size sv] = (0, n2)) by reflexivity.
  destruct (export vt sv n2 STATE_CONVERT_TO_NODE) as [ret nn] eqn:Ex.
  pose proof (export_wrote _ _ _ _ _ _ Hin Ex) as W. pose proof W as (W1 & W2 & W3 & _).
  assert (Hfr : fresh_node n2).
  { unfold fresh_node. split_and!; try done. unfold props_uniq. cbn. apply (bool_decide_unpack _). by vm_compute. }
  assert (Hret : ret = 0).
  { destruct (export_import_ok vt sv sv n2 ret nn); done. }
  subst ret. exists nn. split; [|split_and!].
  - intros node. rewrite E1. cbn [Z.eqb negb]. rewrite E2. cbn [Z.eqb negb]. by rewrite Ex.
  - done.
  - done.
  - done.
  - apply (wrote_clean _ _ W). by repeat constructor.
  - apply read_string_found; [done|]. by rewrite (wrote_type _ _ W).
  - intros sv0 ((Hty & Hsz & _ & _) & Hw0 & Hd0).
    by destruct (export_import_ok vt sv sv0 n2 0 nn Hin Ht Hty Hsz Hw Hw0 Hsy Hdf Hd0 Hfr Ex) as [_ Hi].
Qed.

(** The children of a node, one after the other, each below it. *)
Lemma convert_loop_carries (vars : list state_variable) name f l ps : forall n,
  Forall (fun c => forall p, exists cn, f (ConvSt vars ps) c (Some p) = (0, ConvSt vars ps, Some cn) /\
    carries vars name cn /\ var_names name cn = var_names name c) l ->
  exists cs, convert_loop f l (ConvSt vars ps) (Some n) = (0, ConvSt vars ps, Some (add_children cs n)) /\
    Forall (carries vars name) cs /\ flat_map (var_names name) cs = flat_map (var_names name) l /\ length cs = length l.
Proof.
  induction l as [|c l IH]; intros n Hl.
  { exists []. destruct n as [nm fl q cs]. cbn. rewrite app_nil_r. split_and!; done. }
  apply Forall_cons in Hl as [Hc Hl]. destruct (Hc n) as (cn & E & G & V). cbn [convert_loop]. rewrite E. cbn [Z.eqb negb].
  destruct (IH (add_child n cn) Hl) as (cs & -> & Gs & Vs & Ls). exists (cn :: cs). cbn [flat_map length]. rewrite V, Vs, Ls.
  split_and!; [|by constructor|done|done]. destruct n as [nm fl q cs0]. cbn. by rewrite <- app_assoc.
Qed.

Lemma convert_node_carries vars ps node : forall pname p,
  Forall storable vars -> describes vars pname node ->
  exists nn, state_convert_node_variable (ConvSt vars ps) node (Some p) pname STATE_CONVERT_TO_NODE
      = (0, ConvSt vars ps, Some nn) /\ carries vars pname nn /\ var_names pname nn = var_names pname node.
Proof.
  induction node as [nm fl q cs IH] using device_node_ind'. intros pname p Hst (Hn & Hcs & Hty).
  apply fold_and in Hcs. set (name := full_name pname (strip_at nm)) in *.
  cbn [state_convert_node_variable]. fold name. change (to_node STATE_CONVERT_TO_NODE) with true. cbn iota.
  destruct (convert_loop_carries vars name
    (fun cs child nn => state_convert_node_variable cs child nn name STATE_CONVERT_TO_NODE) cs ps (of_new_node p nm))
    as (cs' & -> & G & V & L).
  { rewrite Forall_forall in *. intros c Hc p'. apply IH; auto. }
  cbn [Z.eqb negb]. unfold convert_node. cbn [var_names]. fold name.
  destruct (of_property_read_string (Node nm fl q cs) "type") as [ty|e].
  - destruct Hty as (vt & sv & Hvt & Hfind & Htype). rewrite Hvt. rewrite bool_decide_eq_false_2 by done.
    pose proof (find_type_in _ _ Hvt) as Hin. assert (Hsv : storable sv).
    { destruct (find_var_in _ _ _ Hfind) as [Hi _]. rewrite Forall_forall in Hst. by apply Hst. }
    destruct (convert_existing_carries (ConvSt vars ps) (add_children cs' (of_new_node p nm)) name vt sv Hin Hfind Htype Hsv eq_refl)
      as (nn & Hcv & E1 & E2 & E3 & Ec & Et & Hi). exists nn. rewrite Hcv. split; [done|].
    destruct nn as [nm' fl' q' cs'']. cbn [n_name n_children n_properties n_full_name] in *. cbn in E1, E3. subst nm' cs''.
    cbn [carries var_names]. fold name. rewrite Et, V. split; [|done]. split_and!; [done|done|by apply fold_and|].
    exists vt, sv. destruct (find_type_name vt Hin) as [Hft _]. done.
  - destruct Hty as [-> Hne]. rewrite bool_decide_eq_false_2 by (cbn; done). cbn [negb andb].
    rewrite Z.eqb_refl. rewrite bool_decide_eq_false_2 by done.
    eexists. split; [done|]. cbn [add_children of_new_node carries var_names app]. fold name.
    destruct (read_none (Node nm (String.append (n_full_name p) (String.append "/" nm)) [] cs') "type" eq_refl) as (_ & -> & _).
    rewrite V. split; [|done]. split_and!; [done|constructor|by apply fold_and|done|].
    intros ->. by destruct cs.
Qed.

(** *** Through the blob *)

Lemma kept_clean ps : clean ps -> kept_props ps = ps.
Proof.
  intros Hc. unfold kept_props. induction Hc as [|[nm v] ps [H1 H2] _ IH]; cbn [flat_map]; [done|].
  cbn [p_name p_value] in *. rewrite H1, IH. by destruct v.
Qed.

Lemma name_ok_plain nm : name_ok nm -> is_reserved_name nm = false.
Proof. intros (_ & _ & H). unfold is_allowed_input_name in H. bool_prop. by destruct H. Qed.

Lemma read_string_props a b name :
  n_properties a = n_properties b -> of_property_read_string a name = of_property_read_string b name.
Proof. intros E. unfold of_property_read_string, of_find_property. by rewrite E. Qed.

Lemma carries_kept vars node : forall pname path,
  carries vars pname node -> carries vars pname (kept_node path node) /\
    var_names pname (kept_node path node) = var_names pname node /\ n_name (kept_node path node) = n_name node.
Proof.
  induction node as [nm fl ps cs IH] using device_node_ind'. intros pname path (Hn & Hc & Hcs & Hty).
  apply fold_and in Hcs. set (name := full_name pname (strip_at nm)) in *.
  cbn [kept_node n_name]. set (path' := String.append path (String.append "/" nm)). rewrite (kept_clean ps Hc).
  set (cs' := flat_map _ cs).
  assert (Hk : cs' = map (kept_node path') cs).
  { subst cs'. clear IH Hty. induction Hcs as [|c cs Hc1 _ IHc]; cbn [flat_map map]; [done|]. rewrite IHc.
    destruct c as [cn cf cp cc]. destruct Hc1 as (Hcn & _). cbn [n_name]. by rewrite (name_ok_plain _ Hcn). }
  rewrite Forall_forall in IH, Hcs.
  assert (Ht : of_property_read_string (Node nm path' ps cs') "type" = of_property_read_string (Node nm fl ps cs) "type")
    by (by apply read_string_props).
  cbn [carries var_names]. fold name. rewrite Ht. split_and!; try done.
  - rewrite Hk. apply fold_and, Forall_map, Forall_forall. intros c Hin. by apply IH; auto.
  - destruct (of_property_read_string (Node nm fl ps cs) "type").
    + destruct Hty as (vt & sv & Hin & H1 & H2 & H3 & Hi). exists vt, sv. split_and!; try done.
      intros sv0 Hc0. destruct (Hi sv0 Hc0) as (sv' & Ei & Er). exists sv'. split; [|done].
      rewrite <- Ei. by apply import_props.
    + destruct Hty as [-> Hne]. split; [done|]. rewrite Hk. by destruct cs.
  - f_equal. rewrite Hk. clear -IH Hcs. induction cs as [|c cs IHc]; cbn [flat_map map]; [done|].
    rewrite IHc; [|intros x Hx; apply IH; by right|intros x Hx; apply Hcs; by right]. f_equal.
    apply IH; [by left|]. apply Hcs. by left.
Qed.

(** *** Reading *)

(** [cur] has the variables [vars], those in [N] with their values. *)
Definition restored (vars cur : list state_variable) (N : string -> Prop) : Prop :=
  Forall2 (fun v c => compat c v /\ (N (sv_name v) -> sv_raw c = sv_raw v)) vars cur.

Lemma restored_find vars cur N name sv :
  restored vars cur N -> state_find_var vars name = Ok sv -> exists c, state_find_var cur name = Ok c /\ compat c sv.
Proof.
  induction 1 as [|v c vars cur [Hc _] _ IH]; cbn; [done|]. pose proof Hc as ((_ & _ & En & _) & _). rewrite En.
  case_bool_decide; [|done]. intros E. inv E. by exists c.
Qed.

Lemma restored_weaken vars cur (N M : string -> Prop) : (forall x, M x -> N x) -> restored vars cur N -> restored vars cur M.
Proof. intros H Hr. eapply Forall2_impl; [exact Hr|]. intros v c [H1 H2]. auto. Qed.

Lemma restored_replace vars cur N name sv c :
  NoDup (map sv_name vars) -> restored vars cur N -> state_find_var vars name = Ok sv -> compat c sv -> sv_raw c = sv_raw sv ->
  restored vars (replace_var cur name c) (fun x => N x \/ x = name).
Proof.
  intros Hnd Hr Hf Hc Hraw. induction Hr as [|v d vars cur [Hd Hn] Hr IH]; cbn in *; [done|].
  apply NoDup_cons in Hnd as [Hnin Hnd]. pose proof Hd as ((_ & _ & En & _) & _). rewrite En.
  case_bool_decide as Hb.
  - inv Hf. constructor; [done|]. clear -Hr Hnin. induction Hr as [|v' d' vars cur [H1 H2] _ IHr]; constructor.
    + split; [done|]. intros [Hx|Hx]; [auto|]. rewrite <- Hx in Hnin. cbn in Hnin. by apply not_elem_of_cons in Hnin as [? _].
    + apply IHr. cbn in Hnin. by apply not_elem_of_cons in Hnin as [_ ?].
  - constructor; [|by apply IH]. split; [done|]. intros [Hx|Hx]; [auto|congruence].
Qed.

Lemma load_loop vars name f l ps :
  Forall (fun c => forall cur N, restored vars cur N -> exists cur', f (ConvSt cur ps) c None = (0, ConvSt cur' ps, None) /\
    restored vars cur' (fun x => N x \/ x ∈ var_names name c)) l ->
  forall cur N, restored vars cur N -> exists cur', convert_loop f l (ConvSt cur ps) None = (0, ConvSt cur' ps, None) /\
    restored vars cur' (fun x => N x \/ x ∈ flat_map (var_names name) l).
Proof.
  induction 1 as [|c l Hc _ IH]; intros cur N Hr; cbn [convert_loop].
  { exists cur. split; [done|]. eapply restored_weaken; [|exact Hr]. intros x [?|Hx]; [done|]. by apply elem_of_nil in Hx. }
  destruct (Hc cur N Hr) as (cur1 & -> & H1). cbn [Z.eqb negb]. destruct (IH cur1 _ H1) as (cur2 & -> & H2).
  exists cur2. split; [done|]. eapply restored_weaken; [|exact H2]. intros x. cbn [flat_map]. rewrite elem_of_app. tauto.
Qed.

Lemma load_node vars ps node : forall pname cur N,
  NoDup (map sv_name vars) -> carries vars pname node -> restored vars cur N ->
  exists cur', state_convert_node_variable (ConvSt cur ps) node None pname STATE_CONVERT_FROM_NODE = (0, ConvSt cur' ps, None) /\
    restored vars cur' (fun x => N x \/ x ∈ var_names pname node).
Proof.
  induction node as [nm fl q cs IH] using device_node_ind'. intros pname cur N Hnd (Hn & Hcl & Hcs & Hty) Hr.
  apply fold_and in Hcs. set (name := full_name pname (strip_at nm)) in *.
  cbn [state_convert_node_variable]. fold name. change (to_node STATE_CONVERT_FROM_NODE) with false. cbn iota.
  destruct (load_loop vars name (fun cs child nn => state_convert_node_variable cs child nn name STATE_CONVERT_FROM_NODE) cs ps)
    with (cur := cur) (N := N) as (cur1 & -> & Hr1); [|done|].
  { rewrite Forall_forall in *. intros c Hc cur0 N0 Hr0. apply IH; auto. }
  cbn [Z.eqb negb]. unfold convert_node. cbn [var_names]. fold name.
  destruct (of_property_read_string (Node nm fl q cs) "type") as [ty|e].
  - destruct Hty as (vt & sv & Hin & Hvt & Hfind & Htype & Himp). rewrite Hvt. rewrite bool_decide_eq_false_2 by done.
    destruct (restored_find _ _ _ _ _ Hr1 Hfind) as (c & Hfc & Hc). unfold convert_existing. cbn [cs_vars]. rewrite Hfc.
    destruct (Himp c Hc) as (sv' & Ei & Er). rewrite Ei. eexists. split; [done|].
    destruct Hc as (Hsame & Hw & Hdf). destruct (import_wf _ _ _ _ _ Hin Hw Ei) as [Hw' Hs'].
    assert (Hc' : compat sv' sv).
    { split_and!; [|done|]. - unfold same_var in *. destruct Hsame as (?&?&?&?), Hs' as (?&?&?&?). split_and!; congruence.
      - apply (import_default_fits vt c _ sv' Hin Hw) in Ei; [done|]. destruct Hsame as (-> & _). done. }
    eapply restored_weaken; [|by eapply restored_replace].
    intros x. cbn beta. rewrite elem_of_app, list_elem_of_singleton. tauto.
  - destruct Hty as [-> Hne]. rewrite bool_decide_eq_false_2 by (cbn; done). cbn [negb andb].
    rewrite Z.eqb_refl. rewrite bool_decide_eq_false_2 by done. exists cur1. split; [done|]. by rewrite app_nil_r.
Qed.

(** *** The blob of a state *)

Lemma carries_plain vars node : forall pname,
  carries vars pname node -> Forall (fun n => is_reserved_name (n_name n) = false) (node :: nodes_below node).
Proof.
  induction node as [nm fl ps cs IH] using device_node_ind'. intros pname (Hn & _ & Hcs & _). apply fold_and in Hcs.
  constructor; [by apply name_ok_plain|]. cbn [nodes_below]. apply Forall_concat, Forall_rev, Forall_map.
  rewrite Forall_forall in *. intros c Hc. eapply IH; [done|]. by apply Hcs.
Qed.

(** No node of a state is taken for the reserve map. *)
Lemma carries_no_reserve vars nm fl ps cs :
  Forall (carries vars String.EmptyString) cs -> reserved_entries (Node nm fl ps cs) = [].
Proof.
  intros Hcs. unfold reserved_entries, of_find_node_by_name_address.
  replace (list_find _ _) with (@None (nat * device_node)); [done|]. symmetry. apply list_find_None.
  cbn [nodes_below]. apply Forall_concat, Forall_rev, Forall_map. eapply Forall_impl; [exact Hcs|].
  intros c Hc. eapply Forall_impl; [by eapply carries_plain|]. intros n Hn En. cbn in Hn. by rewrite En in Hn.
Qed.

Section BlobOf.

Context (addr : Z) (Haddr : 0 < addr) (Halign : (4 | addr)) (root : device_node).
Context (Hf : flattenable root) (Hr : readable 0 root) (Hnm : n_name root = String.EmptyString).
Context (Hrsv : reserved_entries root = []).

Lemma blob_length : 40 <= Z.of_nat (length (blob root)) < 2 ^ 31 /\
  forall rest, ld32 (blob root ++ rest) o_totalsize = Some (Z.of_nat (length (blob root))).
Proof.
  pose proof (blob_size root [] ltac:(cbn; lia) []) as Hs. cbn [totalsize] in Hs. pose proof Hf as (_ & _ & L1 & L2).
  unfold blob. rewrite Hrsv. change (blob_with [] root) with (blob_with (reserve_bytes []) root). split; [lia|]. intros rest.
  destruct (blob_parts root [] ltac:(cbn; lia) (blob_with (reserve_bytes []) root ++ rest)) as (P1 & _); [by eexists|].
  apply header_fields in P1 as (_ & F2 & _). rewrite Hs. apply holds_ld32; [done|lia].
Qed.

Lemma verify_blob f magic rest flags :
  Z.of_nat (length (blob root ++ rest)) < 2 ^ 31 ->
  state_backend_format_dtb_verify addr f magic (blob root ++ rest) (Z.of_nat (length (blob root ++ rest))) flags
  = Some (0, Z.of_nat (length (blob root)), FormatDtb (Some (kept_tree [] root))).
Proof.
  intros Hl. destruct blob_length as [Hb Hld]. unfold state_backend_format_dtb_verify.
  assert (Hle : Z.of_nat (length (blob root)) <= Z.of_nat (length (blob root ++ rest))) by (rewrite length_app; lia).
  replace (_ <? sizeof_fdt_header) with false by (unfold sizeof_fdt_header; lia). rewrite Hld.
  replace (_ <? _) with false by lia. rewrite Nat2Z.id, take_app_length, s32_small by lia.
  unfold blob in *. rewrite Hrsv in *. rewrite (blob_reads addr Haddr Halign root [] Hf); try done; cbn [length]; try lia.
  - exists []. by rewrite app_nil_r.
  - change (reserve_bytes []) with (@nil byte). lia.
Qed.

End BlobOf.

(** The tree of a state. *)
Lemma to_node_carries vars magic sr :
  Forall storable vars -> Forall (describes vars String.EmptyString) (n_children sr) ->
  exists cs, state_to_node vars magic (Some sr) None STATE_CONVERT_TO_NODE
      = Ok (Node String.EmptyString String.EmptyString [Property "magic" (Some (be_bytes 4 magic))] cs) /\
    Forall (carries vars String.EmptyString) cs /\
    flat_map (var_names String.EmptyString) cs = flat_map (var_names String.EmptyString) (n_children sr).
Proof.
  intros Hst Hd. unfold state_to_node. set (n := Node String.EmptyString String.EmptyString [Property "magic" (Some (be_bytes 4 magic))] []).
  assert (E : of_property_write_u32 of_new_root "magic" magic = (0, n)) by reflexivity.
  rewrite E. cbn [Z.eqb negb]. unfold convert_children.
  destruct (convert_loop_carries vars String.EmptyString
    (fun cs child nn => state_convert_node_variable cs child nn String.EmptyString STATE_CONVERT_TO_NODE) (n_children sr) [] n)
    as (cs & -> & G & V & _).
  { eapply Forall_impl; [exact Hd|]. intros c Hc p. by apply convert_node_carries. }
  exists cs. done.
Qed.

(** Loading it into variables of the same layout. *)
Lemma load_carries vars cs magic vars0 :
  0 <= magic < 2 ^ 32 -> NoDup (map sv_name vars) -> Forall (carries vars String.EmptyString) cs ->
  Forall (fun sv => sv_name sv ∈ flat_map (var_names String.EmptyString) cs) vars ->
  Forall2 (fun v v0 => compat v0 v) vars vars0 ->
  exists cs', load_from_node magic (ConvSt vars0 [])
      (kept_tree [] (Node String.EmptyString String.EmptyString [Property "magic" (Some (be_bytes 4 magic))] cs)) = (0, cs') /\
    map sv_raw (cs_vars cs') = map sv_raw vars.
Proof.
  intros Hm Hnd Hcs Hall H0. unfold load_from_node, kept_tree. cbn [n_properties n_children memreserve_node app].
  rewrite (read_u32_found _ "magic" magic), Z.eqb_refl by done. cbn [negb]. rewrite andb_false_r.
  set (kc := kept_children String.EmptyString cs).
  assert (Hk : Forall (carries vars String.EmptyString) kc /\
    flat_map (var_names String.EmptyString) kc = flat_map (var_names String.EmptyString) cs).
  { subst kc. clear Hall. induction Hcs as [|c cs Hc _ IH]; [done|]. destruct IH as [IH1 IH2].
    unfold kept_children in *. cbn [flat_map]. destruct (carries_kept vars c _ String.EmptyString Hc) as (K1 & K2 & _).
    destruct c as [nm fl ps cc]. pose proof Hc as (Hn & _). cbn [n_name] in *. rewrite (name_ok_plain _ Hn).
    cbn [app flat_map]. rewrite K2, IH2. split; [by constructor|done]. }
  destruct Hk as [Hk1 Hk2]. unfold convert_children.
  destruct (load_loop vars String.EmptyString
    (fun cs child nn => state_convert_node_variable cs child nn String.EmptyString STATE_CONVERT_FROM_NODE) kc [])
    with (cur := vars0) (N := fun _ : string => False) as (cur & -> & Hr).
  { eapply Forall_impl; [exact Hk1|]. intros c Hc cur N Hr. by apply load_node. }
  { eapply Forall2_impl; [exact H0|]. intros v c Hc. done. }
  eexists. split; [done|]. cbn [cs_vars]. rewrite Hk2 in Hr. symmetry.
  clear -Hall Hr. induction Hr as [|v c vars cur [_ Hc] _ IH]; [done|]. apply Forall_cons in Hall as [Hv Hall].
  cbn [map]. rewrite IH by done. f_equal. symmetry. apply Hc. by right.
Qed.

(** C16: packing a state as a device tree blob and unpacking the blob restores every
    variable.  For a state whose variables are all described in the live tree,
    and whose strings were set or read through their parameter since they were loaded
    ([synced]), [pack] succeeds; the blob, with whatever follows it on the device, is
    accepted by [verify] with its length, and [unpack] gives variables of the same
    layout, whatever they held, the packed bytes.  A string that was loaded and not
    looked at since is left out of the blob, see [string_lost_on_reexport]. *)
Theorem dtb_pack_unpack addr junk sr f magic vars :
  0 < addr -> (4 | addr) -> (forall n, length (junk n) = n) ->
  0 <= magic < 2 ^ 32 -> Forall storable vars -> NoDup (map sv_name vars) ->
  Forall (describes vars String.EmptyString) (n_children sr) ->
  Forall (fun sv => sv_name sv ∈ flat_map (var_names String.EmptyString) (n_children sr)) vars ->
  (forall root, state_to_node vars magic (Some sr) None STATE_CONVERT_TO_NODE = Ok root -> flattenable root /\ readable 0 root) ->
  exists buf f', state_backend_format_dtb_pack junk (Some sr) f magic vars = Some (Ok buf, f') /\
    forall g m rest flags vars0, Z.of_nat (length (buf ++ rest)) < 2 ^ 31 -> Forall2 (fun v v0 => compat v0 v) vars vars0 ->
    exists g' vars', state_backend_format_dtb_verify addr g m (buf ++ rest) (Z.of_nat (length (buf ++ rest))) flags
        = Some (0, Z.of_nat (length buf), g') /\
      state_backend_format_dtb_unpack addr g' magic vars0 (buf ++ rest) (Z.of_nat (length buf))
        = Some (0, vars', FormatDtb None) /\
      map sv_raw vars' = map sv_raw vars.
Proof.
  intros Ha Hal Hj Hm Hst Hnd Hd Hall Hroot. destruct (to_node_carries vars magic sr Hst Hd) as (cs & E & Hcs & Hn).
  destruct (Hroot _ E) as [Hf Hr]. set (root := Node _ _ _ cs) in *. rewrite <- Hn in Hall.
  assert (Hrsv : reserved_entries root = []) by (by apply (carries_no_reserve vars)).
  destruct (blob_length root Hf Hrsv) as [Hb Hld].
  destruct (of_flatten_dtb_spec junk Hj root Hf) as (d & Ed & _ & r & Er).
  exists (blob root), (FormatDtb (Some root)). split.
  { unfold state_backend_format_dtb_pack. rewrite E, Ed, Er, Hld, Nat2Z.id. by rewrite take_app_length. }
  intros g m rest flags vars0 Hl H0.
  destruct (load_carries vars cs magic vars0 Hm Hnd Hcs Hall H0) as (cs' & El & Hraw). fold root in El.
  exists (FormatDtb (Some (kept_tree [] root))), (cs_vars cs'). split_and!; [by apply verify_blob| |done].
  unfold state_backend_format_dtb_unpack. cbn [d_root]. by rewrite El.
Qed.

(** ** A state with two variables *)

Module Demo.
Import Direct.

Definition magic : Z := 0x27031977.

Definition typed (name ty : string) (start size : Z) : device_node :=
  Node name (String.append "/state/" name)
    [Property "type" (Some (cstr_bytes ty)); Property "reg" (Some (be_bytes 4 start ++ be_bytes 4 size))] [].

(** The node of the state, with its variables below and below a parent. *)
Definition live : device_node :=
  Node "state" "/state" [Property "magic" (Some (be_bytes 4 magic))]
    [typed "count@0" "uint32" 0 4; Node "net" "/state/net" [] [typed "name@8" "string" 8 8]].

Definition vars (v : Z) (s : string) : list state_variable :=
  [ StateVariable STATE_VARIABLE_TYPE_UINT32 "count" 0 4 (state_uint32 v 0);
    StateVariable STATE_VARIABLE_TYPE_STRING "net.name" 8 8
      (state_string (Some s) None (bytes_of s ++ replicate (8 - length (bytes_of s)) Init.Byte.x00)) ].

Definition packed (v : Z) (s : string) : option (res (list byte) * state_backend_format_dtb) :=
  state_backend_format_dtb_pack Fdt.Demo.junk (Some live) backend_format_dtb_create magic (vars v s).

Definition image_of (r : option (res (list byte) * state_backend_format_dtb)) : list byte :=
  match r with
  | Some (Ok buf, _) => buf
  | _ => []
  end.

Definition old_image : list byte := Eval vm_compute in image_of (packed 5 "old").
Definition new_image : list byte := Eval vm_compute in image_of (packed 6 "new").

(** Two strides. *)
Definition bkt (n : Z) : bucket direct := Bucket (DirectBucket (544 * n) 544) n (544 * n) None 0 false false.
Definition store : storage direct := Storage [bkt 0; bkt 1] None 544 0 1088 "/dev/eeprom" false.
#[export] Instance ops : BucketOps memfile direct := direct_ops false demo_junk.
#[export] Instance fops : FormatOps state_backend_format_dtb := dtb_ops 4096.

(** The old state in both strides; then the power fails behind the first write. *)
Definition torn : memfile := Eval vm_compute in
  let w := snd (fst (state_storage_write (MemFile (replicate 1088 Init.Byte.x00) 0) store old_image)) in
  snd (fst (state_storage_write w (set_buckets store [bkt 0]) new_image)).

(** What a boot loads: the variables, and the device for the next boot. *)
Definition boot (w : memfile) : option (list byte * Z * list state_variable) * memfile :=
  let '(r, w, _, f) := state_storage_read w store backend_format_dtb_create magic 0 in
  match r with
  | Ok (buf, len) =>
      (match state_backend_format_dtb_unpack 4096 f magic (vars 0 "unset") buf len with
       | Some (ret, vs, _) => Some (take (Z.to_nat len) buf, ret, vs)
       | None => None
       end, w)
  | Err _ => (None, w)
  end.

Definition loaded (r : option (list byte * Z * list state_variable)) : option (Z * list (list byte)) :=
  (fun x => (snd (fst x), map sv_raw (snd x))) <$> r.

Definition used (r : option (list byte * Z * list state_variable)) : option (list byte) := (fun x => fst (fst x)) <$> r.

(** A load can return values of another copy than the one it says it uses.
    [verify] keeps the tree of the buffer it read last, and [unpack] takes that tree
    and not the buffer it is given.  When a power failure left a new copy in the first
    bucket and an old one in the second, the load picks the first copy and repairs the
    second with it, but the variables get the old values; the next boot gets the new
    ones. *)
Theorem dtb_load_uses_last_bucket :
  used (fst (boot torn)) = Some new_image /\
  loaded (fst (boot torn)) = Some (0, map sv_raw (vars 5 "old")) /\
  loaded (fst (boot (snd (boot torn)))) = Some (0, map sv_raw (vars 6 "new")).
Proof. split; [|split]; vm_compute; reflexivity. Qed.

Lemma storable_vars : Forall storable (vars 5 "old").
Proof.
  repeat apply Forall_cons_2; [..|apply Forall_nil_2].
  - repeat split; cbn; lia.
  - split_and!; [|by exists "old"%string|done]. split; [done|]. split; [|done]. repeat constructor; discriminate.
Qed.

Lemma live_describes : Forall (describes (vars 5 "old") String.EmptyString) (n_children live).
Proof.
  assert (Hok : forall nm, bool_decide (Forall (fun b => b <> Init.Byte.x00) (bytes_of nm)) && negb (bool_decide (nm = String.EmptyString)) &&
    is_allowed_input_name nm = true -> name_ok nm).
  { intros nm H. apply andb_prop in H as [H H3]. apply andb_prop in H as [H1 H2]. apply bool_decide_eq_true in H1.
    apply negb_true_iff, bool_decide_eq_false in H2. done. }
  repeat apply Forall_cons_2; [..|apply Forall_nil_2]; cbn [describes typed fold_right];
    (split; [apply Hok; vm_compute; reflexivity|]).
  - split; [done|]. eexists (VariableType "uint32" _ _ _ _), _. split_and!; reflexivity.
  - split; [|by split]. split; [|done]. split; [apply Hok; vm_compute; reflexivity|]. split; [done|].
    eexists (VariableType "string" _ _ _ _), _. split_and!; reflexivity.
Qed.

Lemma dtb_pack_unpack_witness :
  exists buf f', state_backend_format_dtb_pack Fdt.Demo.junk (Some live) backend_format_dtb_create magic (vars 5 "old") = Some (Ok buf, f') /\
    forall g m rest flags vars0, Z.of_nat (length (buf ++ rest)) < 2 ^ 31 ->
    Forall2 (fun v v0 => compat v0 v) (vars 5 "old") vars0 ->
    exists g' vars', state_backend_format_dtb_verify 4096 g m (buf ++ rest) (Z.of_nat (length (buf ++ rest))) flags
        = Some (0, Z.of_nat (length buf), g') /\
      state_backend_format_dtb_unpack 4096 g' magic vars0 (buf ++ rest) (Z.of_nat (length buf))
        = Some (0, vars', FormatDtb None) /\
      map sv_raw vars' = map sv_raw (vars 5 "old").
Proof.
  apply dtb_pack_unpack.
  - reflexivity.
  - by exists 1024.
  - exact Fdt.Demo.junk_length.
  - unfold magic. lia.
  - exact storable_vars.
  - apply (bool_decide_unpack _). vm_compute. exact I.
  - exact live_describes.
  - apply (bool_decide_unpack _). vm_compute. exact I.
  - intros root E. vm_compute in E. injection E as <-. split; [solve_flattenable|solve_readable].
Defined.

End Demo.

End FormatDtb.
