(* ===== verification/Ramfs.v ===== *)
(** * Files in memory (fs/ramfs.c, the file operations of fs/fs.c)

    The data of a ramfs file is a list of chunks; reading and writing walk over
    it, truncating adds chunks or drops them.  The calls of fs/fs.c on a file
    descriptor clip or extend the file and keep the position.  A machine with 64
    bit pointers is modelled.

    A function that leaves a buffer has the result [None]. *)

From stdpp Require Import base list.
From Stdlib Require Import ZArith Lia.
From S2P Require Import Prelude.

Module Ramfs.

Notation "x <-? m ;; k" := (match m with Some x => k | None => None end)
  (at level 100, m at next level, right associativity).

(** ** The data of a file *)

Record ramfs_chunk := Chunk {
  c_ofs : Z;
  c_size : Z;
  c_data : list byte
}.

(** [r_current] is the place of the current chunk in the list. *)
Record ramfs_inode := Inode {
  r_size : Z;
  r_alloc_size : Z;
  r_data : list ramfs_chunk;
  r_current : option nat
}.

Definition set_current (node : ramfs_inode) (i : option nat) : ramfs_inode :=
  Inode (r_size node) (r_alloc_size node) (r_data node) i.

Definition set_data (node : ramfs_inode) (l : list ramfs_chunk) : ramfs_inode :=
  Inode (r_size node) (r_alloc_size node) l (r_current node).

Definition set_size (node : ramfs_inode) (n : Z) : ramfs_inode :=
  Inode n (r_alloc_size node) (r_data node) (r_current node).

Definition ramfs_alloc_inode : ramfs_inode := Inode 0 0 [] None.

Definition MIN_SIZE : Z := 8192.
Definition SZ_128K : Z := 131072.

(** *** Finding the chunk of a position *)

(** The loop, from the chunk with number [i] on. *)
Fixpoint chunk_from (l : list ramfs_chunk) (i : nat) (pos : Z) : option (nat * ramfs_chunk) :=
  match l with
  | [] => None
  | c :: l => if pos <? u64 (c_ofs c + c_size c) then Some (i, c) else chunk_from l (S i) pos
  end.

(** The chunk, the offset in it and the bytes left in it. *)
Definition ramfs_find_chunk (node : ramfs_inode) (pos : Z)
  : option (nat * ramfs_chunk * Z * Z) * ramfs_inode :=
  let start := match r_current node with
               | Some i => match r_data node !! i with
                           | Some cur => if c_ofs cur <=? pos then i else 0%nat
                           | None => 0%nat
                           end
               | None => 0%nat
               end in
  match chunk_from (drop start (r_data node)) start pos with
  | Some (i, c) =>
      let ofs := s32 (pos - c_ofs c) in
      let len := s32 (c_size c - ofs) in
      (Some (i, c, ofs, len), set_current node (Some i))
  | None => (None, node)
  end.

(** *** Reading and writing *)

(** [memcpy] out of a chunk and into it. *)
Definition chunk_read (c : ramfs_chunk) (ofs now : Z) : option (list byte) :=
  if (0 <=? ofs) && (0 <=? now) && (ofs + now <=? Z.of_nat (length (c_data c)))
  then Some (read_at (c_data c) (Z.to_nat ofs) (Z.to_nat now)) else None.

Definition chunk_write (c : ramfs_chunk) (ofs now : Z) (buf : list byte) : option ramfs_chunk :=
  if (0 <=? ofs) && (0 <=? now) && (ofs + now <=? Z.of_nat (length (c_data c))) && (now <=? Z.of_nat (length buf))
  then Some (Chunk (c_ofs c) (c_size c) (write_at (c_data c) (Z.to_nat ofs) (take (Z.to_nat now) buf))) else None.

(** Every round but the last one uses up a chunk. *)
Fixpoint read_loop (fuel : nat) (node : ramfs_inode) (pos size : Z) : option (Z * list byte * ramfs_inode) :=
  match fuel with
  | O => None
  | S fuel =>
      if size =? 0 then Some (0, [], node)
      else
        match ramfs_find_chunk node pos with
        | (None, node) => Some (- EINVAL, [], node)
        | (Some (_, c, ofs, len), node) =>
            let now := Z.min size len in
            d <-? chunk_read c ofs now;;
            r <-? read_loop fuel node (u64 (pos + now)) (size - now);;
            let '(ret, d', node) := r in Some (ret, d ++ d', node)
        end
  end.

Definition ramfs_read (node : ramfs_inode) (pos insize : Z) : option (Z * list byte * ramfs_inode) :=
  r <-? read_loop (S (S (length (r_data node)))) node pos (s32 insize);;
  let '(ret, d, node) := r in
  Some (if ret <? 0 then ret else s32 insize, d, node).

Fixpoint write_loop (fuel : nat) (node : ramfs_inode) (pos size : Z) (buf : list byte) : option (Z * ramfs_inode) :=
  match fuel with
  | O => None
  | S fuel =>
      if size =? 0 then Some (0, node)
      else
        match ramfs_find_chunk node pos with
        | (None, node) => Some (- EINVAL, node)
        | (Some (i, c, ofs, len), node) =>
            let now := Z.min size len in
            c <-? chunk_write c ofs now buf;;
            write_loop fuel (set_data node (<[i := c]> (r_data node))) (u64 (pos + now)) (size - now) (drop (Z.to_nat now) buf)
        end
  end.

Definition ramfs_write (node : ramfs_inode) (pos : Z) (buf : list byte) (insize : Z) : option (Z * ramfs_inode) :=
  r <-? write_loop (S (S (length (r_data node)))) node pos (s32 insize) buf;;
  let '(ret, node) := r in
  Some (if ret <? 0 then ret else s32 insize, node).

(** *** Truncating *)

Definition ramfs_truncate_down (node : ramfs_inode) (size : Z) : ramfs_inode :=
  Inode (r_size node)
    (fold_left (fun a c => if size <=? c_ofs c then u64 (a - c_size c) else a) (r_data node) (r_alloc_size node))
    (List.filter (fun c => negb (size <=? c_ofs c)) (r_data node)) None.

Section Ops.

(** The allocator: whether it has memory for that many bytes. *)
Context {H : Type} (calloc : H -> Z -> bool * H).

Definition ramfs_get_chunk (h : H) (size : Z) : option ramfs_chunk * H :=
  let size := if size <? MIN_SIZE then MIN_SIZE else size in
  let '(ok, h) := calloc h size in
  (if ok then Some (Chunk 0 (s32 size) (replicate (Z.to_nat size) Init.Byte.x00)) else None, h).

(** The new chunks and their size, if there is memory for all of them.  A round
    halves the chunk size or takes at least [MIN_SIZE] off. *)
Fixpoint alloc_loop (fuel : nat) (h : H) (base chunksize add alloc_size : Z) (l : list ramfs_chunk)
  : option (option (list ramfs_chunk * Z) * H) :=
  match fuel with
  | O => None
  | S fuel =>
      let now := Z.min chunksize add in
      let '(data, h) := ramfs_get_chunk h now in
      match data with
      | None =>
          let chunksize := Z.shiftr chunksize 1 in
          if chunksize <? SZ_128K then Some (None, h) else alloc_loop fuel h base chunksize add alloc_size l
      | Some data =>
          let data := Chunk (u64 (base + alloc_size)) (c_size data) (c_data data) in
          let alloc_size := u64 (alloc_size + c_size data) in
          let l := l ++ [data] in
          if add <=? u64 (c_size data) then Some (Some (l, alloc_size), h)
          else alloc_loop fuel h base chunksize (u64 (add - c_size data)) alloc_size l
      end
  end.

Definition ramfs_truncate_up (h : H) (node : ramfs_inode) (size : Z) : option (Z * ramfs_inode * H) :=
  let add := u64 (size - r_alloc_size node) in
  if size <=? r_alloc_size node then Some (0, node, h)
  else
    r <-? alloc_loop (Z.to_nat (add / MIN_SIZE) + 66) h (r_alloc_size node) add add 0 [];;
    Some match r with
         | (Some (l, n), h) => (0, Inode (r_size node) (u64 (r_alloc_size node + n)) (r_data node ++ l) (r_current node), h)
         | (None, h) => (- ENOSPC, node, h)
         end.

(** A [loff_t] is compared as an [unsigned long], so it never exceeds [ULONG_MAX]. *)
Definition ramfs_truncate (h : H) (node : ramfs_inode) (size : Z) : option (Z * ramfs_inode * H) :=
  let size := u64 size in
  if size =? r_size node then Some (0, node, h)
  else if size <? r_size node then Some (0, set_size (ramfs_truncate_down node size) size, h)
  else
    r <-? ramfs_truncate_up h node size;;
    let '(ret, node, h) := r in
    Some (if negb (ret =? 0) then (ret, node, h) else (0, set_size node size, h)).

(** The data, when it is in one piece. *)
Definition ramfs_memmap (node : ramfs_inode) : res (list byte) :=
  match r_data node with
  | [c] => Ok (c_data c)
  | _ => Err (- EINVAL)
  end.

(** ** File descriptors

    One file and the descriptors that are open on it; [i_size] is the size in the
    inode, which all of them share.  It is neither a stream nor of unknown size, so
    it bounds what is read and written.  The allocator may answer in any way, so
    the memory that is given back to it needs no model. *)

Record file := File {
  f_pos : Z;
  f_flags : Z
}.

Record fs := Fs {
  f_inode : ramfs_inode;
  i_size : Z;
  files : list file;
  heap : H
}.

Definition set_inode (s : fs) (node : ramfs_inode) : fs := Fs node (i_size s) (files s) (heap s).
Definition set_i_size (s : fs) (n : Z) : fs := Fs (f_inode s) n (files s) (heap s).
Definition set_pos (s : fs) (fd : nat) (pos : Z) : fs :=
  Fs (f_inode s) (i_size s) (alter (fun f => File pos (f_flags f)) fd (files s)) (heap s).

Definition O_RDONLY : Z := 0.
Definition O_WRONLY : Z := 1.
Definition O_ACCMODE : Z := 3.
Definition O_DIRECTORY : Z := 65536.
Definition O_PATH : Z := 8388608.

Definition fsdev_truncate (s : fs) (length : Z) : option (Z * fs) :=
  r <-? ramfs_truncate (heap s) (f_inode s) length;;
  let '(ret, node, h) := r in Some (ret, Fs node (i_size s) (files s) h).

Definition __read (s : fs) (f : file) (count : Z) : option (Z * list byte * fs) :=
  if Z.land (f_flags f) O_ACCMODE =? O_WRONLY then Some (- EBADF, [], s)
  else
    let count := if u64 (i_size s) <? u64 (f_pos f + count) then u64 (i_size s - f_pos f) else count in
    if count =? 0 then Some (0, [], s)
    else
      r <-? ramfs_read (f_inode s) (f_pos f) count;;
      let '(ret, d, node) := r in Some (ret, d, set_inode s node).

Definition __write (s : fs) (f : file) (buf : list byte) (count : Z) : option (Z * fs) :=
  if Z.land (f_flags f) O_ACCMODE =? O_RDONLY then Some (- EBADF, s)
  else
    let store s count :=
      r <-? ramfs_write (f_inode s) (f_pos f) buf count;;
      let '(ret, node) := r in Some (ret, set_inode s node) in
    if u64 (i_size s) <? u64 (f_pos f + count) then
      r <-? fsdev_truncate s (s64 (f_pos f + count));;
      let '(ret, s) := r in
      if negb (ret =? 0) then
        let ret := if ret =? - EPERM then - ENOSPC else ret in
        if negb (ret =? - ENOSPC) then Some (ret, s)
        else
          let count := u64 (i_size s - f_pos f) in
          if count =? 0 then Some (ret, s) else store s count
      else store (set_i_size s (s64 (f_pos f + count))) count
    else store s count.

(** A descriptor that is open, for more than its path; others are [-EBADF]. *)
Definition open_file (l : list file) (fd : nat) : option file :=
  match l !! fd with
  | Some f => if negb (Z.land (f_flags f) (Z.lor O_PATH O_DIRECTORY) =? 0) then None else Some f
  | None => None
  end.

Definition fd_to_file (s : fs) (fd : nat) : option file := open_file (files s) fd.

Definition pread (s : fs) (fd : nat) (count offset : Z) : option (Z * list byte * fs) :=
  match fd_to_file s fd with
  | None => Some (- EBADF, [], s)
  | Some f => __read s (File offset (f_flags f)) count
  end.

Definition read (s : fs) (fd : nat) (count : Z) : option (Z * list byte * fs) :=
  match fd_to_file s fd with
  | None => Some (- EBADF, [], s)
  | Some f =>
      r <-? __read s f count;;
      let '(ret, d, s) := r in
      Some (ret, d, if 0 <? ret then set_pos s fd (f_pos f + ret) else s)
  end.

Definition pwrite (s : fs) (fd : nat) (buf : list byte) (count offset : Z) : option (Z * fs) :=
  match fd_to_file s fd with
  | None => Some (- EBADF, s)
  | Some f => __write s (File offset (f_flags f)) buf count
  end.

Definition write (s : fs) (fd : nat) (buf : list byte) (count : Z) : option (Z * fs) :=
  match fd_to_file s fd with
  | None => Some (- EBADF, s)
  | Some f =>
      r <-? __write s f buf count;;
      let '(ret, s) := r in
      Some (ret, if 0 <? ret then set_pos s fd (f_pos f + ret) else s)
  end.

Definition ftruncate (s : fs) (fd : nat) (length : Z) : option (Z * fs) :=
  match fd_to_file s fd with
  | None => Some (- EBADF, s)
  | Some f =>
      r <-? fsdev_truncate s length;;
      let '(ret, s) := r in
      Some (if negb (ret =? 0) then (ret, s) else (0, set_i_size s length))
  end.

Inductive whence := SEEK_SET | SEEK_CUR | SEEK_END.

Definition lseek (s : fs) (fd : nat) (offset : Z) (w : whence) : Z * fs :=
  match fd_to_file s fd with
  | None => (-1, s)
  | Some f =>
      let pos := match w with SEEK_SET => 0 | SEEK_CUR => f_pos f | SEEK_END => i_size s end in
      let pos := s64 (pos + offset) in
      if (pos <? 0) || (i_size s <? pos) then (-1, s) else (pos, set_pos s fd pos)
  end.

End Ops.

(** ** The bytes of a file *)

Definition bytes_in (l : list ramfs_chunk) : list byte := flat_map c_data l.

(** Chunks lie one behind the other, from [base] on. *)
Fixpoint chunks_at (base : Z) (l : list ramfs_chunk) : Prop :=
  match l with
  | [] => True
  | c :: l =>
      c_ofs c = base /\ 0 < c_size c < 2 ^ 31 /\ Z.of_nat (length (c_data c)) = c_size c /\ chunks_at (base + c_size c) l
  end.

Definition total (l : list ramfs_chunk) : Z := Z.of_nat (length (bytes_in l)).

Lemma bytes_in_app a b : bytes_in (a ++ b) = bytes_in a ++ bytes_in b.
Proof. apply flat_map_app. Qed.

Lemma total_app a b : total (a ++ b) = total a + total b.
Proof. unfold total. rewrite bytes_in_app, length_app. lia. Qed.

Lemma chunks_at_app base a b : chunks_at base (a ++ b) <-> chunks_at base a /\ chunks_at (base + total a) b.
Proof.
  revert base. induction a as [|c a IH]; intros base; cbn [app chunks_at].
  - unfold total. cbn. rewrite Z.add_0_r. tauto.
  - rewrite IH. change (c :: a) with ([c] ++ a). rewrite total_app. unfold total at 2. cbn [bytes_in flat_map].
    rewrite app_nil_r. split.
    + intros (H1 & H2 & H3 & H4 & H5). rewrite H3, Z.add_assoc. done.
    + intros ((H1 & H2 & H3 & H4) & H5). rewrite H3, Z.add_assoc in H5. done.
Qed.

Lemma chunks_total_nonneg l : 0 <= total l.
Proof. unfold total. lia. Qed.

Lemma chunks_count base l : chunks_at base l -> Z.of_nat (length l) <= total l.
Proof.
  revert base. induction l as [|c l IH]; intros base; cbn [chunks_at length]; [done|]. intros (_ & H2 & H3 & H4).
  apply IH in H4. unfold total in *. cbn [bytes_in flat_map]. rewrite length_app. unfold bytes_in in *. lia.
Qed.

(** The invariant of the data. *)
Definition node_ok (node : ramfs_inode) : Prop :=
  chunks_at 0 (r_data node) /\ r_alloc_size node = total (r_data node) /\ total (r_data node) < 2 ^ 62 /\
  0 <= r_size node <= r_alloc_size node /\
  match r_current node with Some i => (i < length (r_data node))%nat | None => True end.

(** *** Finding a chunk *)

Lemma chunk_from_spec l : forall base i pos,
  chunks_at base l -> 0 <= base -> base <= pos < base + total l -> base + total l < 2 ^ 62 ->
  exists a c b, l = a ++ c :: b /\ chunk_from l i pos = Some ((i + length a)%nat, c) /\
    c_ofs c = base + total a /\ c_ofs c <= pos < c_ofs c + c_size c.
Proof.
  induction l as [|c l IH]; intros base i pos Hc Hb Hp Hm; cbn [chunk_from].
  { unfold total in Hp. cbn in Hp. lia. }
  destruct Hc as (H1 & H2 & H3 & H4). assert (Et : total (c :: l) = c_size c + total l).
  { unfold total. cbn [bytes_in flat_map]. rewrite length_app. unfold bytes_in. lia. }
  pose proof (chunks_total_nonneg l). rewrite u64_small by lia. destruct (pos <? c_ofs c + c_size c) eqn:E; bool_prop.
  - exists [], c, l. rewrite Nat.add_0_r. unfold total. cbn. split_and!; try done; lia.
  - destruct (IH (base + c_size c) (S i) pos H4) as (a & c' & b & -> & Ef & Eo & Hin); [lia..|].
    exists (c :: a), c', b. cbn [length app]. rewrite Ef. split_and!; try done; try lia.
    + f_equal. f_equal. lia.
    + rewrite Eo. unfold total. cbn [bytes_in flat_map]. rewrite length_app. unfold bytes_in. lia.
Qed.

Lemma find_chunk_spec node pos :
  node_ok node -> 0 <= pos < r_alloc_size node ->
  exists a c b, r_data node = a ++ c :: b /\ c_ofs c = total a /\ c_ofs c <= pos < c_ofs c + c_size c /\
    ramfs_find_chunk node pos = (Some (length a, c, pos - c_ofs c, c_ofs c + c_size c - pos), set_current node (Some (length a))).
Proof.
  intros (Hc & Ha & Hm & Hs & Hcur) Hp. unfold ramfs_find_chunk.
  set (start := match r_current node with Some i => _ | None => 0%nat end).
  assert (Hst : exists a, take start (r_data node) = a /\ length a = start /\ total a <= pos).
  { exists (take start (r_data node)). split; [done|].
    assert (Hz : length (take 0 (r_data node)) = 0%nat /\ total (take 0 (r_data node)) <= pos)
      by (rewrite take_0; unfold total; cbn; lia).
    subst start. destruct (r_current node) as [i|]; [|done].
    destruct (r_data node !! i) as [cur|] eqn:El; [|done]. destruct (c_ofs cur <=? pos) eqn:E; [|done]. bool_prop.
    pose proof (lookup_lt_Some _ _ _ El). split; [rewrite length_take; lia|].
    rewrite <- (take_drop i (r_data node)) in Hc. apply chunks_at_app in Hc as [_ Hc].
    rewrite (drop_S _ _ _ El) in Hc. destruct Hc as (Ho & _). lia. }
  destruct Hst as (a0 & Ea0 & La0 & Ht0). pose proof (take_drop start (r_data node)) as Etd. rewrite Ea0 in Etd.
  rewrite <- Etd in Hc. apply chunks_at_app in Hc as [Hc1 Hc2].
  assert (Htot : total (r_data node) = total a0 + total (drop start (r_data node))) by (rewrite <- Etd at 1; apply total_app).
  pose proof (chunks_total_nonneg a0).
  destruct (chunk_from_spec (drop start (r_data node)) (0 + total a0) start pos Hc2) as (a & c & b & Ed & Ef & Eo & Hin); [lia..|].
  assert (Hcs : 0 < c_size c < 2 ^ 31).
  { rewrite Ed in Hc2. apply chunks_at_app in Hc2 as [_ (_ & ? & _)]. done. }
  exists (a0 ++ a), c, b. rewrite Ef, total_app, length_app, La0. split_and!; try lia.
  - rewrite <- Etd, Ed. by rewrite <- app_assoc.
  - rewrite (s32_small (pos - c_ofs c)), s32_small by lia.
    by replace (c_size c - (pos - c_ofs c)) with (c_ofs c + c_size c - pos) by lia.
Qed.

Lemma set_current_ok node i :
  node_ok node -> (i < length (r_data node))%nat -> node_ok (set_current node (Some i)).
Proof. intros (H1 & H2 & H3 & H4 & _) Hi. done. Qed.

(** *** Reading *)

(** A part of a chunk is a part of the file. *)
Lemma chunk_part a c b off n :
  (off + n <= length (c_data c))%nat ->
  read_at (bytes_in (a ++ c :: b)) (length (bytes_in a) + off) n = read_at (c_data c) off n.
Proof.
  intros H. rewrite bytes_in_app. cbn [bytes_in flat_map]. unfold read_at.
  rewrite drop_app_add, <- (take_drop (off + n) (c_data c)) at 1. rewrite <- app_assoc.
  rewrite drop_app_le, take_app_le by (rewrite ?length_drop, length_take; lia).
  rewrite skipn_firstn_comm, take_take. f_equal. lia.
Qed.

Lemma read_at_split (l : list byte) o n m : read_at l o (n + m) = read_at l o n ++ read_at l (o + n) m.
Proof.
  unfold read_at. rewrite <- drop_drop. rewrite <- (take_drop n (take (n + m) (drop o l))) at 1.
  rewrite take_take, skipn_firstn_comm. f_equal; f_equal; lia.
Qed.

(** Rounds that are left: one, or one for each chunk from the position on. *)
Definition rounds (node : ramfs_inode) (pos size : Z) (fuel : nat) : Prop :=
  size = 0 /\ (0 < fuel)%nat \/ exists a b, r_data node = a ++ b /\ total a <= pos /\ (length b < fuel)%nat.

Lemma rounds_start node pos size : 0 <= pos -> rounds node pos size (S (S (length (r_data node)))).
Proof. intros Hp. right. exists [], (r_data node). split_and!; try done. lia. Qed.

Lemma rounds_next node node' pos size fuel a c b now :
  rounds node pos size (S fuel) -> 0 < size -> r_data node = a ++ c :: b -> c_ofs c = total a ->
  Z.of_nat (length (c_data c)) = c_size c -> c_ofs c <= pos < c_ofs c + c_size c ->
  now = size \/ pos + now = c_ofs c + c_size c ->
  map (fun c => length (c_data c)) (r_data node') = map (fun c => length (c_data c)) (r_data node) ->
  rounds node' (pos + now) (size - now) fuel.
Proof.
  intros [[? _]|(a0 & b0 & E0 & Ht0 & Hf)] Hs Ed Eo Hcd Hin Hnow Hd; [lia|].
  assert (Htot : total (a ++ [c]) = c_ofs c + c_size c).
  { rewrite total_app, <- Eo. unfold total. cbn [bytes_in flat_map]. rewrite app_nil_r. lia. }
  assert (Hlen : (length a0 <= length a)%nat).
  { destruct (decide (length a0 <= length a)%nat) as [|Hn]; [done|exfalso].
    assert (Hpre : a0 = (a ++ [c]) ++ drop (length (a ++ [c])) a0).
    { rewrite <- (take_drop (length (a ++ [c])) a0) at 1. f_equal.
      assert (Et : take (length (a ++ [c])) (a0 ++ b0) = take (length (a ++ [c])) ((a ++ [c]) ++ b))
        by (rewrite <- E0, Ed, <- app_assoc; done).
      rewrite take_app_length, take_app_le in Et by (rewrite length_app; cbn; lia). done. }
    rewrite Hpre, total_app, Htot in Ht0. pose proof (chunks_total_nonneg (drop (length (a ++ [c])) a0)). lia. }
  assert (Hb : (length b < length b0)%nat).
  { apply (f_equal length) in E0. rewrite Ed, !length_app in E0. cbn [length] in E0. lia. }
  destruct Hnow as [->|Hnow]; [left; lia|]. right.
  exists (take (length (a ++ [c])) (r_data node')), (drop (length (a ++ [c])) (r_data node')). rewrite take_drop. split; [done|].
  assert (Hll : length (r_data node') = length (r_data node)) by (by rewrite <- (length_map (fun c => length (c_data c))), Hd, length_map).
  split.
  - assert (Hsum : forall l l' n, map (fun c => length (c_data c)) l = map (fun c => length (c_data c)) l' ->
      total (take n l) = total (take n l')).
    { clear. induction l as [|x l IH]; intros [|y l'] [|n] H; cbn in *; try done. injection H as H1 H2.
      specialize (IH l' n H2). unfold total in *. cbn [bytes_in flat_map]. rewrite !length_app. unfold bytes_in in *. lia. }
    rewrite (Hsum _ _ _ Hd), Ed. change (a ++ c :: b) with (a ++ [c] ++ b). rewrite app_assoc, take_app_length. lia.
  - rewrite length_drop, Hll, Ed, !length_app. cbn [length]. lia.
Qed.

Lemma read_loop_spec fuel : forall node pos size,
  node_ok node -> 0 <= pos -> 0 <= size < 2 ^ 31 -> pos + size <= r_alloc_size node -> rounds node pos size fuel ->
  exists node', read_loop fuel node pos size = Some (0, read_at (bytes_in (r_data node)) (Z.to_nat pos) (Z.to_nat size), node') /\
    node_ok node' /\ r_data node' = r_data node /\ r_size node' = r_size node /\ r_alloc_size node' = r_alloc_size node.
Proof.
  induction fuel as [|fuel IH]; intros node pos size Hok Hp Hs Hend Hf; [destruct Hf as [?|(?&?&?&?&?)]; lia|].
  cbn [read_loop]. destruct (size =? 0) eqn:Ez; bool_prop.
  { subst size. eexists. unfold read_at. rewrite take_0. done. }
  destruct (find_chunk_spec node pos Hok ltac:(lia)) as (a & c & b & Ed & Eo & Hin & ->).
  pose proof Hok as (Hc & Ha & Hm & _).
  assert (Hcd : Z.of_nat (length (c_data c)) = c_size c /\ 0 < c_size c < 2 ^ 31).
  { rewrite Ed in Hc. apply chunks_at_app in Hc as [_ (_ & ? & ? & _)]. done. }
  set (now := Z.min size (c_ofs c + c_size c - pos)). unfold chunk_read.
  replace ((0 <=? pos - c_ofs c) && (0 <=? now) && _) with true by lia.
  set (node1 := set_current node (Some (length a))).
  assert (Hok1 : node_ok node1) by (apply set_current_ok; [done|rewrite Ed, length_app; cbn; lia]).
  rewrite u64_small by lia.
  destruct (IH node1 (pos + now) (size - now) Hok1) as (node' & -> & Hok' & D' & S' & A'); [lia|lia|cbn; lia| |].
  { apply (rounds_next node node1 pos size fuel a c b now); try done; lia. }
  exists node'. split; [|done]. do 3 f_equal. cbn [node1 set_current r_data].
  replace (Z.to_nat size) with (Z.to_nat now + Z.to_nat (size - now))%nat by lia.
  rewrite read_at_split, Z2Nat.inj_add by lia. f_equal.
  rewrite Ed. replace (Z.to_nat pos) with (length (bytes_in a) + Z.to_nat (pos - c_ofs c))%nat by (unfold total in Eo; lia).
  symmetry. apply chunk_part. lia.
Qed.

(** *** Writing *)

Lemma write_at_split (l : list byte) o d1 d2 :
  (o + length d1 + length d2 <= length l)%nat -> write_at (write_at l o d1) (o + length d1) d2 = write_at l o (d1 ++ d2).
Proof.
  intros H. apply list_eq. intros i. rewrite !lookup_write_at by (rewrite ?length_write_at, ?length_app; lia).
  rewrite length_app. repeat case_decide; try lia; try done.
  - rewrite lookup_app_r by lia. f_equal. lia.
  - rewrite lookup_app_l by lia. done.
Qed.

(** Writing into a chunk is writing into the file. *)
Lemma chunk_update a c b off d :
  (off + length d <= length (c_data c))%nat ->
  bytes_in (a ++ Chunk (c_ofs c) (c_size c) (write_at (c_data c) off d) :: b)
  = write_at (bytes_in (a ++ c :: b)) (length (bytes_in a) + off) d.
Proof.
  intros H. rewrite !bytes_in_app. cbn [bytes_in flat_map c_data]. unfold bytes_in.
  rewrite !write_at_inside by (rewrite ?length_app; lia).
  rewrite take_app_add, take_app_le by lia. rewrite <- !app_assoc. do 2 f_equal.
  rewrite <- Nat.add_assoc, drop_app_add, drop_app_le by lia. done.
Qed.

Lemma update_ok node a c b off d :
  node_ok node -> r_data node = a ++ c :: b -> (length d + off <= length (c_data c))%nat ->
  let c' := Chunk (c_ofs c) (c_size c) (write_at (c_data c) off d) in
  node_ok (set_data (set_current node (Some (length a))) (a ++ c' :: b)) /\
  map (fun c => length (c_data c)) (a ++ c' :: b) = map (fun c => length (c_data c)) (r_data node).
Proof.
  intros (Hc & Ha & Hm & Hs & _) Ed Hl c'. rewrite Ed in *.
  assert (Et : total (a ++ c' :: b) = total (a ++ c :: b)).
  { unfold total. subst c'. by rewrite chunk_update, length_write_at by lia. }
  split.
  - apply chunks_at_app in Hc as [Hc1 (Hc2 & Hc3 & Hc4 & Hc5)].
    unfold node_ok. cbn [r_data r_alloc_size r_size r_current set_data set_current]. rewrite Et. split_and!; try lia.
    + apply chunks_at_app. split; [done|]. cbn [chunks_at c' c_ofs c_size c_data]. by rewrite length_write_at.
    + rewrite length_app. cbn [length]. lia.
  - rewrite !map_app. cbn [map c' c_data]. by rewrite length_write_at.
Qed.

Lemma write_loop_spec fuel : forall node pos size buf,
  node_ok node -> 0 <= pos -> 0 <= size < 2 ^ 31 -> size <= Z.of_nat (length buf) -> pos + size <= r_alloc_size node ->
  rounds node pos size fuel ->
  exists node', write_loop fuel node pos size buf = Some (0, node') /\ node_ok node' /\
    bytes_in (r_data node') = write_at (bytes_in (r_data node)) (Z.to_nat pos) (take (Z.to_nat size) buf) /\
    r_size node' = r_size node /\ r_alloc_size node' = r_alloc_size node.
Proof.
  induction fuel as [|fuel IH]; intros node pos size buf Hok Hp Hs Hbuf Hend Hf; [destruct Hf as [?|(?&?&?&?&?)]; lia|].
  pose proof Hok as (Hc & Ha & Hm & _). cbn [write_loop]. destruct (size =? 0) eqn:Ez; bool_prop.
  { subst size. exists node. split_and!; try done. rewrite take_0.
    rewrite write_at_inside by (unfold total in Ha; cbn; lia). by rewrite Nat.add_0_r, app_nil_l, take_drop. }
  destruct (find_chunk_spec node pos Hok ltac:(lia)) as (a & c & b & Ed & Eo & Hin & ->).
  assert (Hcd : Z.of_nat (length (c_data c)) = c_size c /\ 0 < c_size c < 2 ^ 31).
  { rewrite Ed in Hc. apply chunks_at_app in Hc as [_ (_ & ? & ? & _)]. done. }
  set (now := Z.min size (c_ofs c + c_size c - pos)). unfold chunk_write.
  replace ((0 <=? pos - c_ofs c) && (0 <=? now) && _ && _) with true by lia.
  cbn [r_data set_current]. rewrite Ed, insert_app_r_alt, Nat.sub_diag by done. cbn [insert list_insert].
  set (d := take (Z.to_nat now) buf). assert (Ld : length d = Z.to_nat now) by (subst d; rewrite length_take; lia).
  destruct (update_ok node a c b (Z.to_nat (pos - c_ofs c)) d Hok Ed ltac:(lia)) as [Hok1 Hmap].
  set (node1 := set_data _ _) in *. rewrite u64_small by lia.
  destruct (IH node1 (pos + now) (size - now) (drop (Z.to_nat now) buf) Hok1) as (node' & -> & Hok' & D' & S' & A');
    [lia|lia|rewrite length_drop; lia|cbn; lia| |].
  { apply (rounds_next node node1 pos size fuel a c b now); try done; lia. }
  exists node'. split_and!; try done. rewrite D'. cbn [node1 set_data r_data].
  rewrite chunk_update by lia.
  replace (length (bytes_in a) + Z.to_nat (pos - c_ofs c))%nat with (Z.to_nat pos) by (unfold total in Eo; lia).
  replace (Z.to_nat (pos + now)) with (Z.to_nat pos + length d)%nat by lia.
  rewrite write_at_split.
  2:{ rewrite <- Ed, length_take, length_drop. unfold total in Ha. lia. }
  f_equal. subst d. replace (Z.to_nat size) with (Z.to_nat now + Z.to_nat (size - now))%nat by lia.
  pose proof (read_at_split buf 0 (Z.to_nat now) (Z.to_nat (size - now))) as Hsp. unfold read_at in Hsp.
  by rewrite !drop_0 in Hsp.
Qed.

(** *** Truncating *)

Definition zeroes (n : Z) : list byte := replicate (Z.to_nat n) Init.Byte.x00.

Section Truncate.

(** An [int] holds the size of what the allocator gives. *)
Context {H : Type} (calloc : H -> Z -> bool * H).
Context (Hcalloc : forall h n h', calloc h n = (true, h') -> n < 2 ^ 31).

(** New chunks behind [base]: [n] zero bytes. *)
Definition fresh (base : Z) (l : list ramfs_chunk) (n : Z) : Prop :=
  chunks_at base l /\ bytes_in l = zeroes n /\ 0 <= n.

Lemma fresh_total base l n : fresh base l n -> total l = n.
Proof. intros (_ & E & Hn). unfold total. rewrite E. unfold zeroes. rewrite length_replicate. lia. Qed.

Lemma fresh_add base l n m :
  fresh base l n -> 0 < m < 2 ^ 31 -> fresh base (l ++ [Chunk (base + n) m (zeroes m)]) (n + m).
Proof.
  intros Hf Hm. pose proof (fresh_total _ _ _ Hf) as Ht. destruct Hf as (Hc & Eb & Hn). split_and!; [| |lia].
  - apply chunks_at_app. split; [done|]. rewrite Ht. cbn. unfold zeroes. rewrite length_replicate. split_and!; try done; lia.
  - rewrite bytes_in_app, Eb. cbn. unfold zeroes. rewrite app_nil_r, <- replicate_add. f_equal. lia.
Qed.

Lemma alloc_loop_spec fuel : forall h base chunksize add n l,
  0 <= base -> 0 < add -> base + n + add + 16384 < 2 ^ 62 -> 0 < chunksize < 2 ^ 62 -> fresh base l n ->
  add / 8192 + Z.log2 chunksize + 1 < Z.of_nat fuel ->
  exists r h', alloc_loop calloc fuel h base chunksize add n l = Some (r, h') /\
    match r with Some (l', n') => fresh base l' n' /\ n + add <= n' < n + add + 8192 | None => True end.
Proof.
  induction fuel as [|fuel IH]; intros h base cs add n l Hb Ha Hm Hcs Hf Hfu.
  { pose proof (Z.log2_nonneg cs). pose proof (Z.div_pos add 8192 ltac:(lia) ltac:(lia)). lia. }
  cbn [alloc_loop]. unfold ramfs_get_chunk, MIN_SIZE. set (now := Z.min cs add).
  set (size := if now <? 8192 then 8192 else now).
  assert (Hsize : 8192 <= size /\ now <= size /\ (size = 8192 \/ size = now)) by (subst size; destruct (now <? 8192) eqn:E; bool_prop; lia).
  destruct (calloc h size) as [ok h1] eqn:Ec. destruct ok.
  - apply Hcalloc in Ec. cbn [c_size c_data]. pose proof Hf as (_ & _ & Hn).
    rewrite s32_small by lia. rewrite !u64_small by lia. fold (zeroes size).
    pose proof (fresh_add _ _ _ size Hf ltac:(lia)) as Hf1.
    destruct (add <=? size) eqn:E; bool_prop.
    + eexists _, _. split; [done|]. cbn beta iota. split; [done|]. lia.
    + rewrite u64_small by lia.
      assert (Hdiv : (add - size) / 8192 + 1 <= add / 8192).
      { rewrite <- Z.div_add by lia. apply Z.div_le_mono; lia. }
      destruct (IH h1 base cs (add - size) (n + size) (l ++ [Chunk (base + n) size (zeroes size)])) as (r & h' & -> & Hr); [lia..|done|lia|].
      eexists _, _. split; [done|]. destruct r as [[l' n']|]; [|done]. destruct Hr as [Hr1 Hr2]. split; [done|]. lia.
  - rewrite Z.shiftr_div_pow2 by lia. change (2 ^ 1) with 2. destruct (cs / 2 <? SZ_128K) eqn:E; bool_prop.
    + eexists _, _. done.
    + unfold SZ_128K in E. assert (Hhalf : cs / 2 <= cs) by (apply Z.div_le_upper_bound; lia).
      assert (Hlog : Z.log2 (cs / 2) = Z.log2 cs - 1).
      { pose proof (Z.log2_shiftr cs 1 ltac:(lia)) as Hl. rewrite Z.shiftr_div_pow2 in Hl by lia. change (2 ^ 1) with 2 in Hl.
        pose proof (Z.log2_le_mono 131072 cs ltac:(lia)) as H2. change (Z.log2 131072) with 17 in H2. lia. }
      apply IH; try done; try lia.
Qed.

Lemma truncate_up_spec h node size :
  node_ok node -> r_size node <= size < 2 ^ 61 ->
  exists ret node' h', ramfs_truncate_up calloc h node size = Some (ret, node', h') /\
    (ret = - ENOSPC /\ node' = node \/
     ret = 0 /\ node_ok node' /\ r_size node' = r_size node /\ size <= r_alloc_size node' /\
     exists k, bytes_in (r_data node') = bytes_in (r_data node) ++ zeroes k).
Proof.
  intros Hok Hs. pose proof Hok as (Hc & Ha & Hm & Hsz & Hcur). pose proof (chunks_total_nonneg (r_data node)).
  unfold ramfs_truncate_up. destruct (size <=? r_alloc_size node) eqn:E; bool_prop.
  { eexists _, _, _. split; [done|]. right. split_and!; try done. exists 0. unfold zeroes. cbn. by rewrite app_nil_r. }
  rewrite u64_small by lia. set (add := size - r_alloc_size node) in *.
  assert (Hlog : Z.log2 add < 61) by (apply Z.log2_lt_pow2; lia).
  pose proof (Z.div_pos add 8192 ltac:(lia) ltac:(lia)).
  destruct (alloc_loop_spec (Z.to_nat (add / MIN_SIZE) + 66) h (r_alloc_size node) add add 0 []) as (r & h' & -> & Hr); try lia.
  { split_and!; done. }
  { unfold MIN_SIZE. lia. }
  destruct r as [[l n]|]; (eexists _, _, _; split; [done|]); [|by left].
  right. destruct Hr as [Hf Hn]. pose proof (fresh_total _ _ _ Hf) as Ht. destruct Hf as (Hfc & Hfb & Hfn).
  split; [done|]. cbn [r_size r_alloc_size r_data]. rewrite u64_small by lia. split_and!; try done; try lia.
  - unfold node_ok. cbn [r_size r_alloc_size r_data r_current]. rewrite total_app, Ht. split_and!; try lia.
    + apply chunks_at_app. split; [done|]. by rewrite Z.add_0_l, <- Ha.
    + destruct (r_current node); [|done]. rewrite length_app. lia.
  - exists n. by rewrite bytes_in_app, Hfb.
Qed.

End Truncate.

(** ** What a file is *)

Record afile := AFile {
  content : list byte;
  handles : list file
}.

Inductive request :=
| Read (fd : nat) (count : Z)
| Pread (fd : nat) (count offset : Z)
| Write (fd : nat) (buf : list byte)
| Pwrite (fd : nat) (buf : list byte) (offset : Z)
| Ftruncate (fd : nat) (length : Z)
| Lseek (fd : nat) (offset : Z) (w : whence).

Definition move (a : afile) (fd : nat) (pos : Z) : afile :=
  AFile (content a) (alter (fun f => File pos (f_flags f)) fd (handles a)).

(** [buf] over the contents from [pos] on, which may make them longer. *)
Definition overlay (c : list byte) (pos : nat) (buf : list byte) : list byte :=
  take pos c ++ buf ++ drop (pos + length buf) c.

(** Writing stores all bytes; without memory it stores those that fit. *)
Definition writes (c : list byte) (pos : Z) (buf : list byte) (ret : Z) (c' : list byte) : Prop :=
  ret = Z.of_nat (length buf) /\ c' = overlay c (Z.to_nat pos) buf \/
  let room := Z.of_nat (length c) - pos in
  room < Z.of_nat (length buf) /\
  if room =? 0 then ret = - ENOSPC /\ c' = c
  else ret = room /\ c' = overlay c (Z.to_nat pos) (take (Z.to_nat room) buf).

(** The result of a call, its data and the file afterwards. *)
Definition spec_step (a : afile) (rq : request) (ret : Z) (d : list byte) (a' : afile) : Prop :=
  let fd := match rq with Read fd _ | Pread fd _ _ | Write fd _ | Pwrite fd _ _ | Ftruncate fd _ | Lseek fd _ _ => fd end in
  match open_file (handles a) fd with
  | None => a' = a /\ d = [] /\ ret = match rq with Lseek _ _ _ => -1 | _ => - EBADF end
  | Some f =>
      match rq with
      | Read _ n =>
          if Z.land (f_flags f) O_ACCMODE =? O_WRONLY then a' = a /\ d = [] /\ ret = - EBADF
          else d = read_at (content a) (Z.to_nat (f_pos f)) (Z.to_nat n) /\ ret = Z.of_nat (length d) /\
               a' = if 0 <? ret then move a fd (f_pos f + ret) else a
      | Pread _ n off =>
          a' = a /\
          if Z.land (f_flags f) O_ACCMODE =? O_WRONLY then d = [] /\ ret = - EBADF
          else d = read_at (content a) (Z.to_nat off) (Z.to_nat n) /\ ret = Z.of_nat (length d)
      | Write _ buf =>
          d = [] /\
          if Z.land (f_flags f) O_ACCMODE =? O_RDONLY then a' = a /\ ret = - EBADF
          else exists c', writes (content a) (f_pos f) buf ret c' /\
               a' = if 0 <? ret then move (AFile c' (handles a)) fd (f_pos f + ret) else AFile c' (handles a)
      | Pwrite _ buf off =>
          d = [] /\
          if Z.land (f_flags f) O_ACCMODE =? O_RDONLY then a' = a /\ ret = - EBADF
          else exists c', writes (content a) off buf ret c' /\ a' = AFile c' (handles a)
      | Ftruncate _ n =>
          d = [] /\
          (ret = 0 /\ a' = AFile (content a ++ zeroes (n - Z.of_nat (length (content a)))) (handles a) \/
           ret = - ENOSPC /\ a' = a)
      | Lseek _ off w =>
          d = [] /\
          let size := Z.of_nat (length (content a)) in
          let pos := match w with SEEK_SET => 0 | SEEK_CUR => f_pos f | SEEK_END => size end + off in
          if (0 <=? pos) && (pos <=? size) then ret = pos /\ a' = move a fd pos else ret = -1 /\ a' = a
      end
  end.

Section Refinement.

Context {H : Type} (calloc : H -> Z -> bool * H).
Context (Hcalloc : forall h n h', calloc h n = (true, h') -> n < 2 ^ 31).

Definition exec (s : fs (H := H)) (rq : request) : option (Z * list byte * fs) :=
  match rq with
  | Read fd n => read s fd n
  | Pread fd n off => pread s fd n off
  | Write fd buf => r <-? write calloc s fd buf (Z.of_nat (length buf));; Some (fst r, [], snd r)
  | Pwrite fd buf off => r <-? pwrite calloc s fd buf (Z.of_nat (length buf)) off;; Some (fst r, [], snd r)
  | Ftruncate fd n => r <-? ftruncate calloc s fd n;; Some (fst r, [], snd r)
  | Lseek fd off w => let '(ret, s) := lseek s fd off w in Some (ret, [], s)
  end.

Definition file_ok (s : fs (H := H)) : Prop :=
  node_ok (f_inode s) /\ i_size s = r_size (f_inode s) /\ i_size s < 2 ^ 61 /\
  Forall (fun f => 0 <= f_pos f <= i_size s) (files s) /\
  exists k, drop (Z.to_nat (i_size s)) (bytes_in (r_data (f_inode s))) = zeroes k.

Definition abs (s : fs (H := H)) : afile :=
  AFile (take (Z.to_nat (i_size s)) (bytes_in (r_data (f_inode s)))) (files s).

(** Requests inside of the file that do not make it shorter. *)
Definition request_ok (s : fs (H := H)) (rq : request) : Prop :=
  match rq with
  | Read _ n => 0 <= n < 2 ^ 31
  | Pread _ n off => 0 <= n < 2 ^ 31 /\ 0 <= off <= i_size s
  | Write _ buf => Z.of_nat (length buf) < 2 ^ 31 /\ i_size s + Z.of_nat (length buf) < 2 ^ 61
  | Pwrite _ buf off => Z.of_nat (length buf) < 2 ^ 31 /\ i_size s + Z.of_nat (length buf) < 2 ^ 61 /\ 0 <= off <= i_size s
  | Ftruncate _ n => i_size s <= n < 2 ^ 61
  | Lseek _ off _ => - 2 ^ 62 < off < 2 ^ 62
  end.

Lemma file_facts s : file_ok s -> 0 <= i_size s /\ i_size s <= Z.of_nat (length (bytes_in (r_data (f_inode s)))) /\
  Z.of_nat (length (content (abs s))) = i_size s.
Proof.
  intros ((Hc & Ha & Hm & Hs & _) & Hi & Hmax & _). unfold total in *. cbn. rewrite length_take. lia.
Qed.

Lemma read_spec s f n :
  file_ok s -> 0 <= n < 2 ^ 31 -> 0 <= f_pos f <= i_size s ->
  exists node', __read s f n =
    (if Z.land (f_flags f) O_ACCMODE =? O_WRONLY then Some (- EBADF, [], s)
     else let d := read_at (content (abs s)) (Z.to_nat (f_pos f)) (Z.to_nat n) in
          Some (Z.of_nat (length d), d, set_inode s node')) /\
    file_ok (set_inode s node') /\ abs (set_inode s node') = abs s.
Proof.
  intros Hok Hn Hp. destruct (file_facts s Hok) as (H0 & H1 & H2). pose proof Hok as (Hnode & Hi & Hmax & Hfs & Hz).
  pose proof Hnode as (_ & Ha & Hm & Hsz & _). unfold __read. destruct (_ =? O_WRONLY).
  { exists (f_inode s). by destruct s. }
  rewrite !u64_small by lia.
  set (count := if i_size s <? f_pos f + n then i_size s - f_pos f else n).
  assert (Hcount : 0 <= count < 2 ^ 31 /\ f_pos f + count <= i_size s /\ (count = n \/ f_pos f + count = i_size s /\ count <= n))
    by (subst count; destruct (_ <? _) eqn:E; bool_prop; lia).
  assert (Hd : read_at (content (abs s)) (Z.to_nat (f_pos f)) (Z.to_nat n)
    = read_at (bytes_in (r_data (f_inode s))) (Z.to_nat (f_pos f)) (Z.to_nat count)).
  { cbn [abs content]. unfold read_at. rewrite skipn_firstn_comm, take_take. f_equal. lia. }
  rewrite Hd. destruct (count =? 0) eqn:Ez; bool_prop.
  { exists (f_inode s). replace (Z.to_nat count) with 0%nat by lia. unfold read_at. rewrite take_0. by destruct s. }
  unfold ramfs_read. rewrite s32_small by lia.
  destruct (read_loop_spec (S (S (length (r_data (f_inode s))))) (f_inode s) (f_pos f) count Hnode)
    as (node' & -> & Hok' & D' & S' & A'); [lia|lia|lia|apply rounds_start; lia|].
  cbn [Z.ltb Z.compare]. exists node'. split.
  { do 3 f_equal. rewrite length_read_at by lia. lia. }
  unfold file_ok, abs. cbn [f_inode i_size files set_inode]. rewrite D', S'. done.
Qed.

(** Zeroes stay zeroes. *)
Lemma zeroes_split k n : exists k', drop n (zeroes k) = zeroes k' /\ take n (zeroes k) = replicate (n `min` Z.to_nat k) Init.Byte.x00.
Proof.
  exists (Z.of_nat (Z.to_nat k - n)). unfold zeroes. rewrite drop_replicate, take_replicate, Nat2Z.id. done.
Qed.

Lemma truncate_spec s n :
  file_ok s -> i_size s <= n < 2 ^ 61 ->
  exists ret s1, fsdev_truncate calloc s n = Some (ret, s1) /\
    (ret = - ENOSPC /\ s1 = Fs (f_inode s) (i_size s) (files s) (heap s1) \/
     ret = 0 /\ file_ok (set_i_size s1 n) /\
     abs (set_i_size s1 n) = AFile (content (abs s) ++ zeroes (n - i_size s)) (files s)).
Proof.
  intros Hok Hn. destruct (file_facts s Hok) as (H0 & H1 & H2). pose proof Hok as (Hnode & Hi & Hmax & Hfs & k & Hz).
  assert (Hfs' : Forall (fun f => 0 <= f_pos f <= n) (files s)) by (eapply Forall_impl; [exact Hfs|]; cbn; intros; lia).
  unfold fsdev_truncate, ramfs_truncate. rewrite u64_small by lia. rewrite <- Hi.
  destruct (n =? i_size s) eqn:E; bool_prop.
  { subst n. eexists _, _. split; [done|]. right. unfold file_ok, abs. cbn [set_i_size f_inode i_size files content].
    rewrite Z.sub_diag. unfold zeroes at 2. rewrite app_nil_r. split_and!; try done. by exists k. }
  replace (n <? i_size s) with false by lia.
  destruct (truncate_up_spec calloc Hcalloc (heap s) (f_inode s) n Hnode ltac:(lia)) as (ret & node & h' & -> & [[-> ->]|Hup]).
  { eexists _, _. split; [done|]. by left. }
  destruct Hup as (-> & Hok' & Es & Hal & j & Eb). cbn [Z.eqb negb]. eexists _, _. split; [done|]. right. split; [done|].
  pose proof Hok' as (Hc' & Ha' & Hm' & Hs' & Hcur').
  set (B := bytes_in (r_data (f_inode s))) in *. set (m := Z.to_nat (i_size s)) in *.
  assert (Lm : (m <= length B)%nat) by (subst m; lia).
  assert (EB : bytes_in (r_data node) = take m B ++ zeroes (Z.of_nat (length (zeroes k ++ zeroes j)))).
  { rewrite Eb, <- (take_drop m B) at 1. rewrite <- app_assoc. f_equal. rewrite Hz. unfold zeroes.
    rewrite <- replicate_add, length_replicate, Nat2Z.id. done. }
  set (K := Z.of_nat (length (zeroes k ++ zeroes j))) in *.
  assert (LK : Z.of_nat m + K = r_alloc_size node).
  { rewrite Ha'. unfold total. rewrite EB, length_app, length_take. unfold zeroes. rewrite length_replicate. lia. }
  assert (Htake : take (Z.to_nat n) (take m B ++ zeroes K) = take m B ++ zeroes (n - i_size s)).
  { rewrite take_app_ge by (rewrite length_take; lia). f_equal. rewrite length_take. unfold zeroes. rewrite take_replicate. f_equal. lia. }
  unfold file_ok, abs. cbn [set_i_size f_inode i_size files content set_size r_size r_data r_alloc_size].
  rewrite EB, Htake. split; [|done]. split_and!; try done; try lia.
  - unfold node_ok. cbn [set_size r_size r_data r_alloc_size r_current]. split_and!; try done; lia.
  - rewrite drop_app_ge by (rewrite length_take; lia). destruct (zeroes_split K (Z.to_nat n - length (take m B))) as (k' & Ek & _).
    by exists k'.
Qed.

Lemma overlay_inside (c : list byte) pos buf :
  (pos + length buf <= length c)%nat -> overlay c pos buf = write_at c pos buf.
Proof. intros Hl. by rewrite write_at_inside. Qed.

Lemma take_write_at (l : list byte) n o d : (o + length d <= n)%nat -> (n <= length l)%nat ->
  take n (write_at l o d) = write_at (take n l) o d /\ drop n (write_at l o d) = drop n l.
Proof.
  intros H1 H2. split; apply list_eq; intros i.
  - rewrite lookup_write_at by (rewrite length_take; lia). destruct (decide (i < n)%nat).
    + rewrite !lookup_take_lt by lia. by rewrite lookup_write_at by lia.
    + rewrite !lookup_take_ge by lia. case_decide; [lia|done].
  - rewrite !lookup_drop, lookup_write_at by lia. case_decide; [lia|done].
Qed.

(** Storing bytes inside of the file. *)
Lemma store_spec s pos buf count :
  file_ok s -> 0 <= pos -> 0 <= count < 2 ^ 31 -> count <= Z.of_nat (length buf) -> pos + count <= i_size s ->
  exists node', ramfs_write (f_inode s) pos buf count = Some (count, node') /\ file_ok (set_inode s node') /\
    abs (set_inode s node') = AFile (overlay (content (abs s)) (Z.to_nat pos) (take (Z.to_nat count) buf)) (files s).
Proof.
  intros Hok Hp Hc Hb Hend. destruct (file_facts s Hok) as (H0 & H1 & H2). pose proof Hok as (Hnode & Hi & Hmax & Hfs & k & Hz).
  pose proof Hnode as (_ & Ha & Hm & Hsz & _). unfold ramfs_write. rewrite s32_small by lia.
  destruct (write_loop_spec (S (S (length (r_data (f_inode s))))) (f_inode s) pos count buf Hnode)
    as (node' & -> & Hok' & D' & S' & A'); [lia|lia|lia|lia|apply rounds_start; lia|].
  replace (0 <? 0) with false by done. exists node'. split; [done|].
  assert (Ld : length (take (Z.to_nat count) buf) = Z.to_nat count) by (rewrite length_take; lia).
  destruct (take_write_at (bytes_in (r_data (f_inode s))) (Z.to_nat (i_size s)) (Z.to_nat pos) (take (Z.to_nat count) buf))
    as [T1 T2]; [lia|lia|].
  unfold file_ok, abs. cbn [set_inode f_inode i_size files content]. rewrite D', S', T1, T2.
  rewrite overlay_inside by (rewrite Ld, length_take; lia). split; [|done]. split_and!; try done. by exists k.
Qed.

Lemma overlay_extend (c z : list byte) pos buf :
  (pos <= length c)%nat -> (length (c ++ z) = pos + length buf)%nat -> overlay (c ++ z) pos buf = overlay c pos buf.
Proof.
  intros H1 H2. unfold overlay. rewrite take_app_le by lia. rewrite !drop_ge; [done| |lia].
  rewrite length_app in H2. lia.
Qed.

Lemma write_spec s f buf :
  file_ok s -> Z.of_nat (length buf) < 2 ^ 31 -> i_size s + Z.of_nat (length buf) < 2 ^ 61 -> 0 <= f_pos f <= i_size s ->
  exists ret s', __write calloc s f buf (Z.of_nat (length buf)) = Some (ret, s') /\ file_ok s' /\ files s' = files s /\
    if Z.land (f_flags f) O_ACCMODE =? O_RDONLY then ret = - EBADF /\ s' = s
    else f_pos f + ret <= i_size s' /\
      exists c', writes (content (abs s)) (f_pos f) buf ret c' /\ abs s' = AFile c' (files s).
Proof.
  intros Hok Hl Hmax2 Hp. destruct (file_facts s Hok) as (H0 & H1 & H2). unfold __write. destruct (_ =? O_RDONLY).
  { eexists _, _. split; [done|]. done. }
  rewrite !(u64_small (i_size s)), u64_small by (try lia; destruct Hok as (_ & _ & ? & _); lia).
  destruct (i_size s <? _) eqn:E; bool_prop.
  2:{ destruct (store_spec s (f_pos f) buf (Z.of_nat (length buf)) Hok) as (node' & -> & Hok' & A'); [lia..|].
      eexists _, _. split; [done|]. split; [done|]. split; [done|]. cbn [i_size set_inode]. split; [lia|].
      eexists. split; [|exact A']. left. split; [done|]. by rewrite Nat2Z.id, firstn_all. }
  rewrite s64_small by (destruct Hok as (_ & _ & ? & _); lia).
  destruct (truncate_spec s (f_pos f + Z.of_nat (length buf)) Hok ltac:(lia)) as (ret & s1 & -> & [[-> E1]|(-> & Hok1 & A1)]).
  - change (- ENOSPC =? 0) with false. change (- ENOSPC =? - EPERM) with false. rewrite Z.eqb_refl. cbn [negb].
    assert (Hok1 : file_ok s1) by (rewrite E1; exact Hok). assert (A1 : abs s1 = abs s) by (rewrite E1; done).
    assert (Ei : i_size s1 = i_size s) by (by rewrite E1). assert (Ef : files s1 = files s) by (by rewrite E1).
    rewrite Ei, u64_small by (destruct Hok as (_ & _ & ? & _); lia).
    destruct (i_size s - f_pos f =? 0) eqn:Ez; bool_prop.
    + eexists _, _. split; [done|]. split; [done|]. split; [done|]. split; [unfold ENOSPC; lia|]. exists (content (abs s)).
      split; [|by rewrite A1]. right. cbn zeta. rewrite H2. replace (i_size s - f_pos f =? 0) with true by lia. split; [lia|done].
    + destruct (store_spec s1 (f_pos f) buf (i_size s - f_pos f) Hok1) as (node' & -> & Hok' & A'); [lia..|].
      eexists _, _. split; [done|]. split; [done|]. split; [done|]. cbn [i_size set_inode]. split; [lia|].
      eexists. split; [|rewrite <- Ef; exact A']. right. cbn zeta. rewrite H2.
      replace (i_size s - f_pos f =? 0) with false by lia. split; [lia|]. split; [done|]. by rewrite A1.
  - cbn [negb Z.eqb]. set (s2 := set_i_size s1 (f_pos f + Z.of_nat (length buf))) in *.
    destruct (store_spec s2 (f_pos f) buf (Z.of_nat (length buf)) Hok1) as (node' & -> & Hok' & A'); [lia..|cbn; lia|].
    assert (Ef : files s2 = files s) by (change (files s2) with (handles (abs s2)); by rewrite A1).
    eexists _, _. split; [done|]. split; [done|]. split; [done|]. cbn [i_size set_inode]. split; [cbn; lia|].
    eexists. split; [|rewrite <- Ef; exact A']. left. split; [done|]. rewrite Nat2Z.id, firstn_all, A1. cbn [content].
    apply overlay_extend; [lia|]. rewrite length_app. unfold zeroes. rewrite length_replicate. lia.
Qed.

(** A position inside of the file. *)
Lemma set_pos_ok s fd pos : file_ok s -> 0 <= pos <= i_size s -> file_ok (set_pos s fd pos) /\ abs (set_pos s fd pos) = move (abs s) fd pos.
Proof.
  intros (H1 & H2 & H3 & H4 & H5) Hp. split; [|done]. unfold file_ok. cbn [set_pos f_inode i_size files]. split_and!; try done.
  rewrite Forall_forall in *. intros f Hf. apply list_elem_of_lookup in Hf as [i Hi].
  rewrite list_lookup_alter in Hi. case_decide; [|apply H4; by eapply list_elem_of_lookup_2].
  destruct (files s !! fd); [|done]. injection Hi as <-. done.
Qed.

Lemma open_file_some l fd f : open_file l fd = Some f -> l !! fd = Some f.
Proof. unfold open_file. destruct (l !! fd) as [g|]; [|done]. by destruct (negb _). Qed.

Lemma step_ok s rq :
  file_ok s -> request_ok s rq ->
  exists ret d s', exec s rq = Some (ret, d, s') /\ file_ok s' /\ spec_step (abs s) rq ret d (abs s').
Proof.
  intros Hok Hrq. destruct (file_facts s Hok) as (H0 & H1 & H2). pose proof Hok as (_ & _ & Hmax & Hfs & _).
  unfold spec_step. cbn [abs handles].
  destruct rq as [fd n|fd n off|fd buf|fd buf off|fd n|fd off w]; cbn [exec request_ok] in *;
    unfold read, pread, write, pwrite, ftruncate, lseek, fd_to_file;
    (destruct (open_file (files s) fd) as [f|] eqn:Ef; [|by eexists _, _, _]);
    (assert (Hpos : 0 <= f_pos f <= i_size s) by (rewrite Forall_lookup in Hfs; by apply (Hfs fd), open_file_some)).
  - destruct (read_spec s f n Hok Hrq Hpos) as (node' & -> & Hok' & A'). destruct (_ =? O_WRONLY); [by eexists _, _, _|].
    cbn zeta. set (d := read_at _ _ _). assert (Hd : 0 <= Z.of_nat (length d) <= i_size s - f_pos f).
    { subst d. unfold read_at. rewrite length_take, length_drop. lia. }
    eexists _, _, _. split; [done|]. fold (abs s). rewrite <- A'. destruct (0 <? Z.of_nat (length d)) eqn:E; bool_prop.
    + destruct (set_pos_ok (set_inode s node') fd (f_pos f + Z.of_nat (length d)) Hok') as [Hok2 A2]; [cbn; lia|].
      split; [done|]. rewrite A2. by split_and!.
    + split; [done|]. by split_and!.
  - destruct Hrq as [Hn Ho]. destruct (read_spec s (File off (f_flags f)) n Hok Hn Ho) as (node' & -> & Hok' & A').
    cbn [f_flags f_pos]. fold (abs s). destruct (_ =? O_WRONLY); [by eexists _, _, _|]. eexists _, _, _. split; [done|].
    split; [done|]. by rewrite A'.
  - destruct Hrq as [Hl Hm]. destruct (write_spec s f buf Hok Hl Hm Hpos) as (ret & s' & -> & Hok' & Ef' & Hw). fold (abs s).
    destruct (_ =? O_RDONLY).
    { destruct Hw as [-> ->]. by eexists _, _, _. }
    destruct Hw as (Hend & c' & Hw & A'). eexists _, _, _. split; [done|]. cbn [fst snd]. destruct (0 <? ret) eqn:E; bool_prop.
    + destruct (set_pos_ok s' fd (f_pos f + ret) Hok') as [Hok2 A2]; [lia|]. split; [done|]. split; [done|].
      exists c'. split; [done|]. by rewrite A2, A'.
    + split; [done|]. split; [done|]. by exists c'.
  - destruct Hrq as (Hl & Hm & Ho). destruct (write_spec s (File off (f_flags f)) buf Hok Hl Hm Ho) as (ret & s' & -> & Hok' & Ef' & Hw).
    cbn [f_flags f_pos] in Hw. fold (abs s). destruct (_ =? O_RDONLY).
    { destruct Hw as [-> ->]. by eexists _, _, _. }
    destruct Hw as (Hend & c' & Hw & A'). eexists _, _, _. split; [done|]. split; [done|]. split; [done|]. by exists c'.
  - destruct (truncate_spec s n Hok Hrq) as (ret & s1 & -> & [[-> E1]|(-> & Hok1 & A1)]); fold (abs s).
    + eexists _, _, _. split; [done|]. cbn [fst snd]. rewrite E1. split; [done|]. split; [done|]. by right.
    + cbn [Z.eqb negb fst snd]. eexists _, _, _. split; [done|]. split; [done|]. split; [done|]. left. split; [done|]. rewrite A1, H2. done.
  - fold (abs s). rewrite H2. set (base := match w with SEEK_SET => 0 | SEEK_CUR => f_pos f | SEEK_END => i_size s end).
    assert (Hb : 0 <= base <= i_size s) by (subst base; destruct w; lia). rewrite s64_small by lia.
    destruct ((base + off <? 0) || (i_size s <? base + off)) eqn:E.
    + eexists _, _, _. split; [done|]. split; [done|]. replace (_ && _) with false by lia. done.
    + assert (Hin : 0 <= base + off <= i_size s) by lia. destruct (set_pos_ok s fd (base + off) Hok Hin) as [Hok2 A2].
      eexists _, _, _. split; [done|]. split; [done|]. replace (_ && _) with true by lia. done.
Qed.

(** ** Sequences of calls *)

Fixpoint exec_all (s : fs (H := H)) (rqs : list request) : option (list (Z * list byte) * fs) :=
  match rqs with
  | [] => Some ([], s)
  | rq :: rqs =>
      r <-? exec s rq;;
      let '(ret, d, s) := r in
      r <-? exec_all s rqs;;
      let '(outs, s) := r in Some ((ret, d) :: outs, s)
  end.

(** Every request is inside of the file as it is then. *)
Fixpoint legal (s : fs (H := H)) (rqs : list request) : Prop :=
  match rqs with
  | [] => True
  | rq :: rqs =>
      request_ok s rq /\
      match exec s rq with
      | Some (_, _, s) => legal s rqs
      | None => True
      end
  end.

Inductive spec_run : afile -> list request -> list (Z * list byte) -> afile -> Prop :=
| spec_nil a : spec_run a [] [] a
| spec_cons a rq ret d a' rqs outs a'' :
    spec_step a rq ret d a' -> spec_run a' rqs outs a'' -> spec_run a (rq :: rqs) ((ret, d) :: outs) a''.

Lemma run_ok rqs : forall s, file_ok s -> legal s rqs ->
  exists outs s', exec_all s rqs = Some (outs, s') /\ file_ok s' /\ spec_run (abs s) rqs outs (abs s').
Proof.
  induction rqs as [|rq rqs IH]; intros s Hok Hl; cbn [exec_all legal] in *.
  { eexists _, _. split; [done|]. split; [done|]. constructor. }
  destruct Hl as [Hrq Hl]. destruct (step_ok s rq Hok Hrq) as (ret & d & s1 & E & Hok1 & Hs). rewrite E in *.
  destruct (IH s1 Hok1 Hl) as (outs & s2 & -> & Hok2 & Hr). eexists _, _. split; [done|]. split; [done|]. by econstructor.
Qed.

(** A new file that is open with these flags. *)
Definition new_file (h : H) (flags : list Z) : fs (H := H) := Fs ramfs_alloc_inode 0 (map (File 0) flags) h.

Lemma new_file_ok h flags : file_ok (new_file h flags).
Proof.
  unfold file_ok, new_file, node_ok. cbn. split_and!; try done.
  - apply Forall_map, Forall_forall. intros. cbn. lia.
  - by exists 0.
Qed.

(** C7: a file in memory behaves like a file, for requests that start inside of the
    file and do not make it shorter.  Whatever sequence of such reads, writes,
    seeks and extensions is made through descriptors of a new file, every call returns,
    touches no byte outside of a chunk, and has the result and effect on the contents
    and positions that they have on a sequence of bytes, however the data is split into
    chunks; when memory runs out, a write stores what fits.  Requests that start behind
    the end of the file or make it shorter are the subject of the next section. *)
Theorem ramfs_refines h flags rqs :
  legal (new_file h flags) rqs ->
  exists outs s', exec_all (new_file h flags) rqs = Some (outs, s') /\
    spec_run (AFile [] (map (File 0) flags)) rqs outs (abs s').
Proof.
  intros Hl. destruct (run_ok rqs _ (new_file_ok h flags) Hl) as (outs & s' & E & _ & Hr). eauto.
Qed.

(** ** Shrinking *)

(** Reading behind the end of a file is a [memcpy] of a negative size.  [__read]
    subtracts the position from the size without looking which is greater; when a file was
    made shorter than the position of a descriptor, reading through it leaves the
    buffer. *)
Theorem read_behind_end (s : fs (H := H)) fd f n :
  node_ok (f_inode s) -> fd_to_file s fd = Some f -> Z.land (f_flags f) O_ACCMODE <> O_WRONLY ->
  0 <= i_size s < f_pos f -> f_pos f < r_alloc_size (f_inode s) -> f_pos f - i_size s < 2 ^ 31 -> 0 <= n < 2 ^ 31 ->
  read s fd n = None.
Proof.
  intros Hok Hf Hfl Hi Hp Hk Hn. unfold read. rewrite Hf. unfold __read.
  replace (_ =? O_WRONLY) with false by lia. pose proof Hok as (_ & Ha & Hm & _).
  rewrite (u64_small (i_size s)), (u64_small (f_pos f + n)) by lia. replace (_ <? _) with true by lia.
  assert (Eu : u64 (i_size s - f_pos f) = 2 ^ 64 - (f_pos f - i_size s))
    by (unfold u64; symmetry; apply Z.mod_unique with (-1); lia).
  rewrite Eu. replace (_ =? 0) with false by lia. unfold ramfs_read. cbn [read_loop].
  assert (Es : s32 (2 ^ 64 - (f_pos f - i_size s)) = - (f_pos f - i_size s)).
  { unfold s32. replace (2 ^ 64 - (f_pos f - i_size s) + 2 ^ 31) with (2 ^ 31 - (f_pos f - i_size s) + 2 ^ 32 * 2 ^ 32) by lia.
    rewrite Z.mod_add, Z.mod_small by lia. lia. }
  rewrite Es. replace (_ =? 0) with false by lia.
  destruct (find_chunk_spec (f_inode s) (f_pos f) Hok ltac:(lia)) as (a & c & b & Ed & Eo & Hin & ->).
  unfold chunk_read. by replace ((0 <=? f_pos f - c_ofs c) && (0 <=? Z.min _ _) && _) with false by lia.
Qed.

Lemma truncate_fold n l : forall x base, chunks_at base l -> total l <= x < 2 ^ 62 ->
  (base + total l <= n \/ n <= base) ->
  fold_left (fun a c => if n <=? c_ofs c then u64 (a - c_size c) else a) l x = (if n <=? base then x - total l else x) /\
  List.filter (fun c => negb (n <=? c_ofs c)) l = if n <=? base then [] else l.
Proof.
  induction l as [|c l IH]; intros x base Hc Hx Hn; cbn [fold_left List.filter].
  { change (total []) with 0. rewrite Z.sub_0_r. by destruct (n <=? base). }
  destruct Hc as (Ho & Hs & Hl & Hc).
  assert (Et : total (c :: l) = c_size c + total l) by (change (c :: l) with ([c] ++ l); rewrite total_app; unfold total; cbn; rewrite app_nil_r; lia).
  assert (0 <= total l) by (unfold total; lia). rewrite Ho. destruct (n <=? base) eqn:E; bool_prop; cbn [negb].
  - rewrite u64_small by lia. destruct (IH (x - c_size c) (base + c_size c) Hc ltac:(lia) ltac:(lia)) as [-> ->].
    replace (n <=? base + c_size c) with true by lia. split; [lia|done].
  - destruct (IH x (base + c_size c) Hc ltac:(lia) ltac:(lia)) as [-> ->].
    destruct (n <=? base + c_size c) eqn:E2; bool_prop; [|done]. assert (Hz : total l = 0) by lia.
    split; [lia|]. f_equal. destruct l as [|c' l]; [done|]. destruct Hc as (_ & ? & ? & _).
    unfold total in Hz. cbn in Hz. rewrite length_app in Hz. lia.
Qed.

(** Making a file shorter drops the chunks behind the one that has its last byte. *)
Lemma truncate_down_spec node n a c b :
  node_ok node -> r_data node = a ++ c :: b -> c_ofs c < n <= c_ofs c + c_size c ->
  ramfs_truncate_down node n = Inode (r_size node) (total (a ++ [c])) (a ++ [c]) None.
Proof.
  intros (Hc & Ha & Hm & Hs & _) Ed Hn. unfold ramfs_truncate_down. rewrite Ed in *.
  change (c :: b) with ([c] ++ b) in *. rewrite app_assoc in *. rewrite fold_left_app, List.filter_app.
  apply chunks_at_app in Hc as [Hc1 Hc2]. rewrite Z.add_0_l in Hc2. rewrite (total_app (a ++ [c]) b) in Ha, Hm.
  pose proof Hc1 as Hc3. apply chunks_at_app in Hc3 as [_ (Ho & Hsz & Hl & _)].
  assert (Et : total (a ++ [c]) = total a + c_size c) by (rewrite total_app; unfold total; cbn; rewrite app_nil_r; lia).
  assert (Ea : chunks_at 0 a) by (apply chunks_at_app in Hc1 as [? _]; done).
  assert (0 <= total a /\ 0 <= total b) by (unfold total; lia).
  assert (Hf : fold_left (fun a c => if n <=? c_ofs c then u64 (a - c_size c) else a) (a ++ [c]) (r_alloc_size node) = r_alloc_size node /\
               List.filter (fun c => negb (n <=? c_ofs c)) (a ++ [c]) = a ++ [c]).
  { rewrite fold_left_app, List.filter_app. destruct (truncate_fold n a (r_alloc_size node) 0 Ea ltac:(lia) ltac:(lia)) as [-> ->].
    replace (n <=? 0) with false by lia. cbn [fold_left List.filter]. replace (n <=? c_ofs c) with false by lia. done. }
  destruct Hf as [-> ->]. destruct (truncate_fold n b (r_alloc_size node) (total (a ++ [c])) Hc2 ltac:(lia) ltac:(lia)) as [-> ->].
  replace (n <=? total (a ++ [c])) with true by lia. rewrite app_nil_r. f_equal. lia.
Qed.

(** A file that is made shorter and longer again shows its old bytes.  Truncating
    drops whole chunks and leaves what is behind the new end in the last one, and growing
    inside of the chunk does not clear it: the bytes between the sizes are those from
    before, and not zero. *)
Theorem truncate_exposes (s : fs (H := H)) fd f a c b n m :
  file_ok s -> fd_to_file s fd = Some f -> r_data (f_inode s) = a ++ c :: b ->
  c_ofs c < n < m -> m <= i_size s -> m <= c_ofs c + c_size c ->
  exists s1 s2, ftruncate calloc s fd n = Some (0, s1) /\ ftruncate calloc s1 fd m = Some (0, s2) /\
    content (abs s2) = take (Z.to_nat m) (content (abs s)).
Proof.
  intros Hok Hf Ed Hn Hm Hm2. pose proof Hok as (Hnode & Hi & Hmax & _). pose proof Hnode as (Hc & Ha & Ht & Hs & _).
  pose proof (truncate_down_spec _ n a c b Hnode Ed ltac:(lia)) as Hd.
  assert (Hoc : c_ofs c = total a /\ 0 <= total a /\ Z.of_nat (length (c_data c)) = c_size c).
  { rewrite Ed in Hc. apply chunks_at_app in Hc as [_ (Ho & _ & Hl & _)]. unfold total in *. lia. }
  assert (Et : total (a ++ [c]) = total a + c_size c) by (rewrite total_app; unfold total; cbn; rewrite app_nil_r; lia).
  unfold ftruncate. rewrite Hf. unfold fsdev_truncate at 1, ramfs_truncate. rewrite u64_small by lia.
  replace (n =? r_size (f_inode s)) with false by lia. replace (n <? r_size (f_inode s)) with true by lia.
  rewrite Hd. eexists _, _. split; [done|]. unfold fd_to_file in *. cbn [files set_i_size]. rewrite Hf.
  unfold fsdev_truncate, ramfs_truncate. rewrite u64_small by lia. cbn [f_inode set_i_size set_size r_size].
  replace (m =? n) with false by lia. replace (m <? n) with false by lia. unfold ramfs_truncate_up.
  cbn [set_i_size f_inode set_size r_size r_alloc_size heap]. replace (m <=? total (a ++ [c])) with true by lia. split; [reflexivity|].
  cbn. rewrite take_take, Ed. replace (Z.to_nat m `min` Z.to_nat (i_size s))%nat with (Z.to_nat m) by lia.
  replace (a ++ c :: b) with ((a ++ [c]) ++ b) by (by rewrite <- app_assoc). rewrite (bytes_in_app (a ++ [c]) b).
  rewrite take_app_le; [done|]. unfold total in Et, Hoc. lia.
Qed.

End Refinement.

(** ** Examples *)

Module Demo.

(** An allocator with a heap of some bytes. *)
Definition brk (free n : Z) : bool * Z := if n <=? Z.min free 1000000 then (true, free - n) else (false, free).

Lemma brk_law h n h' : brk h n = (true, h') -> n < 2 ^ 31.
Proof. unfold brk. destruct (_ <=? _) eqn:E; intros [=]. bool_prop. lia. Qed.

Definition text : list byte := [Init.Byte.x68; Init.Byte.x65; Init.Byte.x6c; Init.Byte.x6c; Init.Byte.x6f].

(** Three descriptors, the second one read-only and the third one a path; the heap has room for one chunk, so the
    second extension fails and the write behind it is cut short. *)
Definition requests : list request :=
  [Write 0 text; Pwrite 0 [Init.Byte.x4a] 0; Read 1 3; Write 1 text; Ftruncate 0 8; Lseek 0 0 SEEK_END; Write 0 text;
   Ftruncate 0 8192; Ftruncate 0 9000; Lseek 0 (-2) SEEK_END; Write 0 text; Pread 1 10 0; Read 2 1; Read 1 100].

Definition fresh : fs := new_file 10000 [2; 0; O_PATH].

Definition answers := Eval vm_compute in option_map fst (exec_all brk fresh requests).

Example answers_ret : option_map (map fst) answers
  = Some [5; 1; 3; - EBADF; 0; 8; 5; 0; - ENOSPC; 8190; 2; 10; - EBADF; 100].
Proof. reflexivity. Qed.

Ltac legal_step := cbn [legal]; split; [vm_compute; intuition congruence | lazymatch goal with |- match ?e with _ => _ end =>
  let v := eval vm_compute in e in change e with v; cbv beta iota end].

Lemma ramfs_refines_witness :
  legal brk fresh requests /\
  exists outs s', exec_all brk fresh requests = Some (outs, s') /\ spec_run (AFile [] (map (File 0) [2; 0; O_PATH])) requests outs (abs s').
Proof.
  assert (Hl : legal brk fresh requests) by (unfold requests; repeat legal_step; exact I).
  split; [exact Hl|]. exact (ramfs_refines brk brk_law 10000 [2; 0; O_PATH] requests Hl).
Defined.

(** Five bytes and a reader behind them; and the same file cut to two bytes. *)
Definition after (s : fs (H := Z)) (rqs : list request) : fs :=
  match exec_all brk s rqs with Some (_, s) => s | None => s end.
Definition written : fs := after fresh [Write 0 text; Lseek 1 5 SEEK_SET].
Definition cut : fs := after written [Ftruncate 0 2].

Lemma written_ok : file_ok written.
Proof.
  destruct (run_ok brk brk_law [Write 0 text; Lseek 1 5 SEEK_SET] fresh (new_file_ok _ _)) as (outs & s' & E & Hok & _).
  { repeat legal_step. exact I. }
  unfold written, after. by rewrite E.
Qed.

Lemma read_behind_end_witness : node_ok (f_inode cut) /\ read cut 1 1 = None.
Proof.
  assert (Hok : node_ok (f_inode cut)) by (unfold node_ok; vm_compute; intuition congruence).
  split; [exact Hok|].
  apply (read_behind_end cut 1 (File 5 0) 1 Hok); [vm_compute; reflexivity | vm_compute; intuition congruence ..].
Defined.

Lemma truncate_exposes_witness :
  exists s1 s2, ftruncate brk written 0 2 = Some (0, s1) /\ ftruncate brk s1 0 5 = Some (0, s2) /\
    content (abs s2) = take 5 (content (abs written)).
Proof.
  apply (truncate_exposes brk written 0 (File 5 2) [] (Chunk 0 8192 (text ++ replicate (Z.to_nat 8187) Init.Byte.x00)) [] 2 5 written_ok);
    [vm_compute; reflexivity | vm_compute; reflexivity | vm_compute; intuition congruence ..].
Defined.

(** The old bytes are back. *)
Example exposed : option_map fst (exec_all brk written [Ftruncate 0 2; Ftruncate 0 5; Pread 0 5 0]) = Some [(0, []); (0, []); (5, text)].
Proof. vm_compute. reflexivity. Qed.

End Demo.

End Ramfs.
