(* ===== verification/Partitions.v ===== *)
(** * Partitions (common/partitions.c, include/partitions.h, common/filetype.c)

    What the code for all kinds of partition tables shares: the description of a
    partition, the search for free space, creating and removing partitions through
    the operations of a parser, and the detection of the kind of a table.  A parser
    is an interface ([PartitionParser]) with the laws the shared code relies on. *)

From stdpp Require Import base list strings.
From Stdlib Require Import ZArith Lia.
From S2P Require Import Prelude Block.

Module Partitions.

Import Block.

(** ** Text *)

(** A hexadecimal digit in lower case, and the two digits of a byte. *)
Definition hex_digit (n : Z) : byte := byte_of (if n <? 10 then 48 + n else 87 + n).

Definition hex_byte_pack (b : byte) : list byte := [hex_digit (byte_val b / 16); hex_digit (byte_val b mod 16)].

(** [uuid_string] for the format "%pUl". *)
Definition uuid_string (addr : list byte) : list byte :=
  let part l := flat_map (fun i => hex_byte_pack (nth i addr Init.Byte.x00)) l in
  part [3; 2; 1; 0]%nat ++ [Init.Byte.x2d] ++ part [5; 4]%nat ++ [Init.Byte.x2d] ++ part [7; 6]%nat ++ [Init.Byte.x2d] ++
  part [8; 9]%nat ++ [Init.Byte.x2d] ++ part [10; 11; 12; 13; 14; 15]%nat.

(** ** Partitions *)

Definition MAX_PARTITION : Z := 128.
Definition PARTITION_ALIGN_SIZE : Z := 1048576.

Definition DEVFS_PARTITION_REQUIRED : Z := Z.shiftl 1 9.
Definition DEVFS_PARTITION_NO_EXPORT : Z := Z.shiftl 1 10.
Definition DEVFS_PARTITION_BOOTABLE_LEGACY : Z := Z.shiftl 1 11.
Definition DEVFS_PARTITION_BOOTABLE_ESP : Z := Z.shiftl 1 12.

(** [typeuuid] shares its first byte with [dos_partition_type]. *)
Record partition := Partition {
  name : list byte;
  partuuid : list byte;
  first_sec : Z;
  size : Z;
  typeuuid : list byte;
  num : Z;
  flags : Z;
  typeflags : Z
}.

Definition dos_partition_type (p : partition) : byte := nth 0 (typeuuid p) Init.Byte.x00.

(** ** The kind of a table (common/filetype.c) *)

Inductive filetype := filetype_unknown | filetype_gpt | filetype_mbr | filetype_fat.

#[export] Instance filetype_eq_dec : EqDecision filetype.
Proof. solve_decision. Defined.

(** Little endian integers in a buffer, and single bytes. *)
Definition get_le (buf : list byte) (off n : nat) : Z := le_val (read_at buf off n).

Definition put_le (buf : list byte) (off n : nat) (v : Z) : list byte := write_at buf off (le_bytes n v).

Definition get_u8 (buf : list byte) (off : nat) : Z := byte_val (nth off buf Init.Byte.x00).

Definition BS_55AA : nat := 510.
Definition MBR_Table : nat := 446.

Definition pmbr_part_valid (buf : list byte) (off : nat) : bool :=
  (get_u8 buf (off + 4) =? 0xee) && (get_le buf (off + 8) 4 =? 1).

(** "EFI PART" *)
Definition efi_part : list byte :=
  [Init.Byte.x45; Init.Byte.x46; Init.Byte.x49; Init.Byte.x20; Init.Byte.x50; Init.Byte.x41; Init.Byte.x52; Init.Byte.x54].

Definition is_gpt_valid (buf : list byte) (sector_size : Z) : bool :=
  if negb (get_le buf BS_55AA 2 =? 0xaa55) then false
  else if negb (bool_decide (read_at buf (Z.to_nat sector_size) 8 = efi_part)) then false
  else existsb (fun i => pmbr_part_valid buf (MBR_Table + i * 16)) [0; 1; 2; 3]%nat.

Definition fat_valid_media (media : Z) : bool := (0xf8 <=? media) || (media =? 0xf0).

Definition is_fat_with_no_mbr (sect : list byte) : bool :=
  if get_le sect 14 2 =? 0 then false
  else if get_u8 sect 16 =? 0 then false
  else fat_valid_media (get_u8 sect 21).

Fixpoint fat_slots (sect : list byte) (slots : list nat) : Z :=
  match slots with
  | [] => 0
  | slot :: slots =>
      let b := get_u8 sect (MBR_Table + (slot - 1) * 16) in
      if negb (b =? 0) && negb (b =? 0x80)
      then if (slot =? 1)%nat && is_fat_with_no_mbr sect then 1 else - EINVAL
      else fat_slots sect slots
  end.

Definition is_fat_boot_sector (sect : list byte) : Z := fat_slots sect [1; 2; 3; 4]%nat.

Definition file_detect_fs_fat (buf : list byte) : filetype :=
  if negb (get_le buf BS_55AA 2 =? 0xaa55) then filetype_unknown
  else if Z.land (get_le buf 54 4) 0xffffff =? 0x544146 then filetype_fat
  else if Z.land (get_le buf 82 4) 0xffffff =? 0x544146 then filetype_fat
  else filetype_unknown.

Definition is_fat_or_mbr (sector : list byte) : filetype :=
  if negb (get_le sector BS_55AA 2 =? 0xaa55) then filetype_unknown
  else if bool_decide (file_detect_fs_fat sector = filetype_fat) then filetype_fat
  else filetype_mbr.

Definition file_detect_partition_table (buf : list byte) (bufsize sector_size : Z) : filetype :=
  if (bufsize <? 512) || (sector_size <? 512) then filetype_unknown
  else if (sector_size + 8 <=? bufsize) && is_gpt_valid buf sector_size then filetype_gpt
  else is_fat_or_mbr buf.

(** The kind whose parser is used: [have] are the kinds that have one. *)
Definition partition_parser_get_by_filetype (have : list filetype) (buf : list byte) (blocksize : Z) : option filetype :=
  let type := file_detect_partition_table buf (blocksize * 2) blocksize in
  if bool_decide (type ∈ have) then Some type
  else
    let type := file_detect_partition_table buf 512 512 in
    let type := if bool_decide (type = filetype_fat) && (is_fat_boot_sector buf =? 0) then filetype_mbr else type in
    if bool_decide (type ∈ have) then Some type else None.

(** ** Free space *)

Section Space.

Context {D : Type}.

(** The global variable [first_partition_offset]. *)
Context (first_partition_offset : Z).

Definition partition_first_usable_lba (blk : block_device (D := D)) : Z := blockdevice_round_nblocks blk first_partition_offset.

Definition partition_align_lba (blk : block_device (D := D)) : Z := blockdevice_round_nblocks blk PARTITION_ALIGN_SIZE.

Definition partition_is_free (blk : block_device (D := D)) (parts : list partition) (start size_ : Z) : bool :=
  if start <? partition_align_lba blk then false
  else if num_blocks blk <=? u64 (start + size_) then false
  else forallb (fun p => negb (region_overlap_size (first_sec p) (size p) start size_)) parts.

Definition ALIGN (x a : Z) : Z := Z.land (u64 (x + (a - 1))) (u64 (Z.lnot (a - 1))).

Fixpoint free_behind (blk : block_device (D := D)) (parts l : list partition) (sectors : Z) : res Z :=
  match l with
  | [] => Err (- ENOSPC)
  | p :: l =>
      let s := ALIGN (u64 (first_sec p + size p)) (partition_align_lba blk) in
      if partition_is_free blk parts s sectors then Ok s else free_behind blk parts l sectors
  end.

Definition partition_find_free_space (blk : block_device (D := D)) (parts : list partition) (sectors : Z) : res Z :=
  let align := partition_align_lba blk in
  let min_sec := ALIGN (Z.max align (partition_first_usable_lba blk)) align in
  if partition_is_free blk parts min_sec sectors then Ok min_sec
  else free_behind blk parts parts sectors.

(** ** Creating and removing *)

(** A parser: [PD] is its description of a table, [G] the random bytes a new partition
    takes.  [rmpart] gets the place of the partition in the list.  The result [None] is
    an access outside of an object. *)
Class PartitionParser (PD G : Type) := {
  partitions : PD -> list partition;
  mkpart : block_device (D := D) -> G -> PD -> string -> string -> Z -> Z -> option (Z * PD);
  rmpart : PD -> nat -> option (Z * PD)
}.

Context {PD G : Type} `{!PartitionParser PD G}.

Definition partition_create (blk : block_device (D := D)) (g : G) (pd : PD) (name_ fs_type : string) (lba_start lba_end : Z)
  : option (Z * PD) :=
  if lba_end <? lba_start then Some (- EINVAL, pd)
  else if num_blocks blk <=? lba_end then Some (- EINVAL, pd)
  else if lba_start <? partition_first_usable_lba blk then Some (- EINVAL, pd)
  else if existsb (fun part => region_overlap_end_inclusive (first_sec part) (u64 (first_sec part + size part - 1))
                                 lba_start lba_end) (partitions pd)
  then Some (- EINVAL, pd)
  else mkpart blk g pd name_ fs_type lba_start lba_end.

Fixpoint find_num (l : list partition) (n : Z) (i : nat) : option nat :=
  match l with
  | [] => None
  | p :: l => if num p =? n then Some i else find_num l n (S i)
  end.

Definition partition_remove (pd : PD) (n : Z) : option (Z * PD) :=
  match find_num (partitions pd) n 0 with
  | Some i => rmpart pd i
  | None => Some (- ENOENT, pd)
  end.

(** ** What the shared code promises *)

(** Ranges of sectors that are not empty and do not wrap around. *)
Lemma region_overlap_size_iff a n b m :
  0 <= a -> 0 < n -> a + n < 2 ^ 64 -> 0 <= b -> 0 < m -> b + m < 2 ^ 64 ->
  region_overlap_size a n b m = true <-> a < b + m /\ b < a + n.
Proof.
  intros. unfold region_overlap_size. replace ((n =? 0) || (m =? 0)) with false by lia.
  unfold region_overlap_end_exclusive, region_overlap_end_inclusive. rewrite !u64_small by (rewrite ?u64_small; lia).
  replace ((a <=? a + n - 1) && (b <=? b + m - 1)) with true by lia.
  destruct (a + n - 1 <? b) eqn:E1; bool_prop; [split; [done|lia]|].
  destruct (b + m - 1 <? a) eqn:E2; bool_prop; split; (done || lia).
Qed.

Definition on_disk (nb : Z) (p : partition) : Prop := 0 <= first_sec p /\ 0 < size p /\ first_sec p + size p <= nb.

Definition apart (p q : partition) : Prop := first_sec p + size p <= first_sec q \/ first_sec q + size q <= first_sec p.

Definition table_ok (nb : Z) (l : list partition) : Prop := Forall (on_disk nb) l /\ pairwise apart l.

(** A size of the device that leaves room above it in 64 bits. *)
Definition small (blk : block_device (D := D)) : Prop := 0 <= num_blocks blk < 2 ^ 62.

Lemma partition_is_free_ok blk parts start n :
  small blk -> Forall (on_disk (num_blocks blk)) parts -> 0 <= start < 2 ^ 63 -> 0 < n < 2 ^ 63 ->
  partition_is_free blk parts start n = true ->
  partition_align_lba blk <= start /\ start + n < num_blocks blk /\
  Forall (fun p => first_sec p + size p <= start \/ start + n <= first_sec p) parts.
Proof.
  intros Hs Hp Hst Hn. unfold partition_is_free, small in *. destruct (_ <? _) eqn:E1; [done|].
  destruct (_ <=? _) eqn:E2; [done|]. bool_prop. rewrite u64_small in E2 by lia. intros Hf. split_and!; [lia|lia|].
  rewrite forallb_forall in Hf. rewrite Forall_forall in *. intros p Hin. specialize (Hp p Hin) as (H1 & H2 & H3). specialize (Hf p ltac:(by apply list_elem_of_In)).
  apply negb_true_iff, not_true_iff_false in Hf. rewrite region_overlap_size_iff in Hf by lia. lia.
Qed.

Lemma align_lba_pow blk : 9 <= blockbits blk < 32 -> exists k, 0 <= k <= 11 /\ partition_align_lba blk = 2 ^ k.
Proof.
  intros Hb. unfold partition_align_lba, blockdevice_round_nblocks, PARTITION_ALIGN_SIZE. cbn [Z.eqb].
  rewrite (u64_small (1048576 - 1)) by lia. change (1048576 - 1) with (Z.ones 20).
  destruct (decide (blockbits blk <= 20)) as [Hle|Hgt].
  - exists (20 - blockbits blk). split; [lia|]. rewrite Z.shiftr_div_pow2, Z.ones_div_pow2, Z.ones_equiv by lia.
    assert (0 < 2 ^ (20 - blockbits blk) <= 2 ^ 20) by (split; [lia|apply Z.pow_le_mono_r; lia]). rewrite u64_small; lia.
  - exists 0. split; [lia|]. rewrite Z.shiftr_div_pow2 by lia. rewrite Z.div_small; [done|]. split; [done|].
    change (Z.ones 20) with (2 ^ 20 - 1). pose proof (Z.pow_le_mono_r 2 20 (blockbits blk)). lia.
Qed.

Lemma ALIGN_ok x k : 0 <= x < 2 ^ 63 -> 0 <= k < 60 -> (2 ^ k | ALIGN x (2 ^ k)) /\ x <= ALIGN x (2 ^ k) < x + 2 ^ k.
Proof.
  intros Hx Hk. assert (0 < 2 ^ k <= 2 ^ 60) by (split; [lia|apply Z.pow_le_mono_r; lia]).
  unfold ALIGN. rewrite (u64_small (x + _)) by lia. unfold u64. rewrite land_lnot_mask by lia.
  pose proof (Z.div_mod (x + (2 ^ k - 1)) (2 ^ k) ltac:(lia)). pose proof (Z.mod_pos_bound (x + (2 ^ k - 1)) (2 ^ k) ltac:(lia)).
  split; [by eexists|]. lia.
Qed.

Lemma overlap_inclusive_apart nb p s e :
  on_disk nb p -> nb < 2 ^ 62 -> 0 <= s <= e ->
  region_overlap_end_inclusive (first_sec p) (u64 (first_sec p + size p - 1)) s e = false <->
  first_sec p + size p <= s \/ e + 1 <= first_sec p.
Proof.
  intros (H1 & H2 & H3) Hnb He. unfold region_overlap_end_inclusive. rewrite u64_small by lia.
  destruct (_ <? s) eqn:E1; bool_prop; [split; [lia|done]|]. destruct (e <? _) eqn:E2; bool_prop; split; (done || lia).
Qed.

Lemma first_usable_bound blk :
  9 <= blockbits blk -> 0 <= first_partition_offset < 2 ^ 62 -> 0 <= partition_first_usable_lba blk <= 2 ^ 53.
Proof.
  intros Hb Hf. unfold partition_first_usable_lba, blockdevice_round_nblocks. destruct (_ =? 0) eqn:E0; bool_prop; [lia|].
  rewrite (u64_small (_ - 1)) by lia. rewrite Z.shiftr_div_pow2 by lia.
  assert (2 ^ 9 <= 2 ^ blockbits blk) by (apply Z.pow_le_mono_r; lia).
  assert ((first_partition_offset - 1) / 2 ^ blockbits blk < 2 ^ 53) by (apply Z.div_lt_upper_bound; lia).
  pose proof (Z.div_pos (first_partition_offset - 1) (2 ^ blockbits blk) ltac:(lia) ltac:(lia)). rewrite u64_small; lia.
Qed.

(** The space that is found: aligned, free, and either usable or behind a partition. *)
Definition free_space (blk : block_device (D := D)) (parts : list partition) (sectors s : Z) : Prop :=
  (partition_align_lba blk | s) /\ 0 <= s /\ s + sectors < num_blocks blk /\
  Forall (fun p => first_sec p + size p <= s \/ s + sectors <= first_sec p) parts /\
  (partition_first_usable_lba blk <= s \/ exists p, p ∈ parts /\ first_sec p + size p <= s).

Lemma partition_find_free_space_ok blk parts sectors s :
  small blk -> 9 <= blockbits blk < 32 -> 0 <= first_partition_offset < 2 ^ 62 -> Forall (on_disk (num_blocks blk)) parts ->
  0 < sectors < 2 ^ 63 -> partition_find_free_space blk parts sectors = Ok s -> free_space blk parts sectors s.
Proof.
  intros Hs Hb Hf Hp Hn. destruct (align_lba_pow blk Hb) as (k & Hk & Ek).
  pose proof (first_usable_bound blk ltac:(lia) Hf) as Hu. unfold small in Hs. unfold partition_find_free_space. rewrite Ek.
  assert (Hk2 : 0 < 2 ^ k <= 2 ^ 11) by (split; [lia|apply Z.pow_le_mono_r; lia]).
  destruct (ALIGN_ok (Z.max (2 ^ k) (partition_first_usable_lba blk)) k ltac:(lia) ltac:(lia)) as [Hd Hr].
  destruct (partition_is_free blk parts _ sectors) eqn:E.
  { intros [= <-]. apply partition_is_free_ok in E as (E1 & E2 & E3); [|done|done|lia|lia].
    unfold free_space. rewrite Ek. split_and!; try done; [lia|left; lia]. }
  assert (Hl : forall l, l ⊆ parts -> free_behind blk parts l sectors = Ok s -> free_space blk parts sectors s); [|by apply Hl].
  induction l as [|p l IH]; intros Hsub; cbn [free_behind]; [done|].
  assert (Hin : p ∈ parts) by (apply Hsub; left). rewrite Forall_forall in Hp. pose proof (Hp p Hin) as (P1 & P2 & P3). rewrite Ek.
  rewrite u64_small by lia. destruct (ALIGN_ok (first_sec p + size p) k ltac:(lia) ltac:(lia)) as [Hd2 Hr2].
  destruct (partition_is_free blk parts (ALIGN (first_sec p + size p) (2 ^ k)) sectors) eqn:E2.
  - intros [= <-]. apply partition_is_free_ok in E2 as (E3 & E4 & E5); [|done|by apply Forall_forall|lia|lia].
    unfold free_space. rewrite Ek. split_and!; try done; [lia|]. right. exists p. split; [done|lia].
  - apply IH. intros x Hx. apply Hsub. by right.
Qed.

(** A partition in the space that is found passes every check of [partition_create],
    when no partition ends before the first usable sector. *)
Lemma partition_create_found blk g pd name_ fs_type sectors s :
  small blk -> 9 <= blockbits blk < 32 -> 0 <= first_partition_offset < 2 ^ 62 ->
  Forall (on_disk (num_blocks blk)) (partitions pd) ->
  Forall (fun p => partition_first_usable_lba blk <= first_sec p + size p) (partitions pd) ->
  0 < sectors < 2 ^ 63 -> partition_find_free_space blk (partitions pd) sectors = Ok s ->
  partition_create blk g pd name_ fs_type s (s + sectors - 1) = mkpart blk g pd name_ fs_type s (s + sectors - 1).
Proof.
  intros Hs Hb Hf Hp Hu Hn E. apply partition_find_free_space_ok in E as (_ & E0 & E1 & E2 & E3); try done.
  assert (Hus : partition_first_usable_lba blk <= s).
  { destruct E3 as [|(p & Hin & Hle)]; [done|]. rewrite Forall_forall in Hu. specialize (Hu p Hin). lia. }
  unfold partition_create. replace (s + sectors - 1 <? s) with false by lia.
  replace (num_blocks blk <=? s + sectors - 1) with false by lia. replace (s <? _) with false by lia.
  destruct (existsb _ _) eqn:Ex; [|done]. apply existsb_exists in Ex as (p & Hin & Hov). apply list_elem_of_In in Hin.
  rewrite Forall_forall in *. unfold small in Hs.
  pose proof (overlap_inclusive_apart (num_blocks blk) p s (s + sectors - 1) (Hp p Hin) ltac:(lia) ltac:(lia)) as [_ Hno].
  rewrite Hno in Hov; [done|]. specialize (E2 p Hin). lia.
Qed.

(** *** Sequences of changes *)

(** What a parser promises: it adds the partition at the end of the list or refuses,
    and it removes the one that it is given. *)
Class ParserOk := {
  mkpart_ok blk g pd name_ fs_type s e ret pd' :
    mkpart blk g pd name_ fs_type s e = Some (ret, pd') ->
    if ret =? 0 then exists p, partitions pd' = partitions pd ++ [p] /\ first_sec p = s /\ size p = u64 (e - s + 1)
    else partitions pd' = partitions pd;
  rmpart_ok pd i ret pd' : rmpart pd i = Some (ret, pd') -> partitions pd' = delete i (partitions pd)
}.

Inductive edit := Create (g : G) (name_ fs_type : string) (lba_start lba_end : Z) | Remove (n : Z).

Fixpoint edit_all (blk : block_device (D := D)) (pd : PD) (l : list edit) : option (list Z * PD) :=
  match l with
  | [] => Some ([], pd)
  | e :: l =>
      match (match e with
             | Create g name_ fs_type s e => partition_create blk g pd name_ fs_type s e
             | Remove n => partition_remove pd n
             end) with
      | None => None
      | Some (ret, pd) =>
          match edit_all blk pd l with
          | None => None
          | Some (rets, pd) => Some (ret :: rets, pd)
          end
      end
  end.

Lemma pairwise_snoc {A} (R : A -> A -> Prop) l x : pairwise R l -> Forall (fun y => R y x) l -> pairwise R (l ++ [x]).
Proof.
  induction l as [|y l IH]; cbn; [done|]. intros [H1 H2] [H3 H4]%Forall_cons. split; [|auto].
  apply Forall_app. split; [done|]. by constructor.
Qed.

Lemma elem_of_delete {A} (l : list A) i x : x ∈ delete i l -> x ∈ l.
Proof.
  revert i. induction l as [|y l IH]; intros [|i]; cbn; try done; [by right|].
  intros [->|H]%elem_of_cons; [left|right; eauto].
Qed.

Lemma pairwise_delete {A} (R : A -> A -> Prop) l i : pairwise R l -> pairwise R (delete i l).
Proof.
  revert i. induction l as [|y l IH]; intros [|i]; cbn; try done; intros [H1 H2]; [done|]. split; [|auto].
  rewrite Forall_forall in *. intros x Hx. apply H1. by eapply elem_of_delete.
Qed.

Lemma partition_create_table `{!ParserOk} blk g pd name_ fs_type s e ret pd' :
  small blk -> 9 <= blockbits blk -> 0 <= first_partition_offset < 2 ^ 62 -> table_ok (num_blocks blk) (partitions pd) ->
  partition_create blk g pd name_ fs_type s e = Some (ret, pd') -> table_ok (num_blocks blk) (partitions pd').
Proof.
  intros Hs Hb Hf [Hp Hd]. pose proof (first_usable_bound blk Hb Hf) as Hu. unfold partition_create, small in *.
  destruct (e <? s) eqn:E1; [by intros [= <- <-]|]. destruct (_ <=? e) eqn:E2; [by intros [= <- <-]|].
  destruct (s <? _) eqn:E3; [by intros [= <- <-]|]. destruct (existsb _ _) eqn:E4; [by intros [= <- <-]|]. bool_prop.
  intros E. apply mkpart_ok in E. destruct (ret =? 0); [|by rewrite E]. destruct E as (p & -> & Es & Ez).
  rewrite u64_small in Ez by lia. split.
  - apply Forall_app. split; [done|]. constructor; [|constructor]. unfold on_disk. lia.
  - apply pairwise_snoc; [done|]. rewrite Forall_forall in *. intros q Hq. unfold apart.
    rewrite <- not_true_iff_false, existsb_exists in E4.
    destruct (overlap_inclusive_apart (num_blocks blk) q s e (Hp q Hq) ltac:(lia) ltac:(lia)) as [Hin _].
    destruct Hin as [|]; [|lia|lia]. apply not_true_iff_false. intros Ht. apply E4. exists q. split; [by apply list_elem_of_In|done].
Qed.

(** C21: partitions never overlap.  Whatever partitions are created and removed in
    whatever order, a table of disjoint partitions on the disk stays one. *)
Theorem partitions_disjoint `{!ParserOk} blk pd edits rets pd' :
  small blk -> 9 <= blockbits blk -> 0 <= first_partition_offset < 2 ^ 62 -> table_ok (num_blocks blk) (partitions pd) ->
  edit_all blk pd edits = Some (rets, pd') -> table_ok (num_blocks blk) (partitions pd').
Proof.
  intros Hs Hb Hf. revert pd rets. induction edits as [|e edits IH]; intros pd rets Hok; cbn [edit_all]; [by intros [= _ <-]|].
  destruct (match e with Create _ _ _ _ _ => _ | Remove _ => _ end) as [[ret pd1]|] eqn:E; [|done].
  destruct (edit_all blk pd1 edits) as [[rets1 pd2]|] eqn:E2; [|done]. intros [= _ <-]. apply (IH pd1 rets1); [|done].
  destruct e as [g name_ fs_type s e|n].
  - by eapply partition_create_table.
  - unfold partition_remove in E. destruct (find_num _ _ _); [|by injection E as _ <-]. apply rmpart_ok in E. rewrite E.
    destruct Hok as [H1 H2]. split; [|by apply pairwise_delete]. rewrite Forall_forall in *. intros x Hx. apply H1.
    by eapply elem_of_delete.
Qed.

End Space.

End Partitions.
