(* ===== verification/DosPart.v ===== *)
(** * DOS partition tables (common/partitions/dos.c)

    The table of four entries in the first block of a disk, the chain of logical
    partitions, and writing a table.  Blocks go through the cache of common/block.c. *)

From stdpp Require Import base list strings.
From Stdlib Require Import ZArith Lia.
From S2P Require Import Prelude Strtox Block Partitions.

Module DosPart.

Import Block Partitions.

(** A partition with the fields of its entry. *)
Record dos_partition := DosPartition {
  part : partition;
  extended : bool;
  logical : bool;
  boot_indicator : byte;
  chs_begin : list byte;
  type : byte;
  chs_end : list byte
}.

Record dos_partition_desc := DosDesc {
  signature : Z;
  dparts : list dos_partition
}.

Definition is_extended_partition (p : partition) : bool :=
  (byte_val (dos_partition_type p) =? 5) || (byte_val (dos_partition_type p) =? 0x0f) ||
  (byte_val (dos_partition_type p) =? 0x85).

(** The bytes of [typeuuid] when only [dos_partition_type] was set. *)
Definition dos_type_union (t : byte) : list byte := t :: replicate 15 Init.Byte.x00.

(** "%08x-%02x" *)
Definition dos_partuuid (signature partno : Z) : list byte :=
  flat_map hex_byte_pack (be_bytes 4 signature) ++ [Init.Byte.x2d] ++ hex_byte_pack (byte_of partno).

(** [struct partition_entry] at an offset. *)
Definition e_boot (buf : list byte) (off : nat) : byte := nth off buf Init.Byte.x00.
Definition e_type (buf : list byte) (off : nat) : byte := nth (off + 4) buf Init.Byte.x00.
Definition e_start (buf : list byte) (off : nat) : Z := get_le buf (off + 8) 4.
Definition e_size (buf : list byte) (off : nat) : Z := get_le buf (off + 12) 4.

Definition entry_part (buf : list byte) (off : nat) (p : partition) (extended logical : bool) : dos_partition :=
  DosPartition p extended logical (e_boot buf off) (read_at buf (off + 1) 3) (e_type buf off) (read_at buf (off + 5) 3).

Section Dos.

Context {D : Type} (PAGE_SIZE : Z) (CONFIG_BLOCK_WRITE CONFIG_BLOCK_STATS : bool) (ops : block_device_ops (D := D)).

Local Abbreviation block_read := (block_read CONFIG_BLOCK_STATS ops).
Local Abbreviation block_write := (block_write CONFIG_BLOCK_WRITE CONFIG_BLOCK_STATS ops).
Local Abbreviation block_device := (block_device (D := D)).

(** ** Reading *)

Definition read_mbr (blk : block_device) : option (list byte) * block_device :=
  let '(ret, buf, blk) := block_read blk 0 1 in
  (if negb (ret =? 0) then None else Some buf, blk).

(** The chain of logical partitions: [partno] runs from 4 to [MAX_PARTITION]. *)
Fixpoint ebr_loop (n : nat) (blk : block_device) (first_sec_ ebr_sector partno sig : Z)
  : list dos_partition * block_device :=
  match n with
  | O => ([], blk)
  | S n =>
      let '(rc, buf, blk) := block_read blk ebr_sector 1 in
      if negb (rc =? 0) then ([], blk)
      else if negb (get_u8 buf 0x1fe =? 0x55) || negb (get_u8 buf 0x1ff =? 0xaa) then ([], blk)
      else if existsb (fun i => negb (get_u8 buf (0x1de + i) =? 0)) (seq 0 32) then ([], blk)
      else
        let t := e_type buf 0x1be in
        let p := Partition [] (dos_partuuid sig (partno + 1)) (u32 (ebr_sector + e_start buf 0x1be)) (e_size buf 0x1be)
                   (dos_type_union t) partno 0 0 in
        let dpart := entry_part buf 0x1be p false true in
        if negb (e_start buf 0x1ce =? 0) then
          let '(l, blk) := ebr_loop n blk first_sec_ (u32 (first_sec_ + e_start buf 0x1ce)) (partno + 1) sig in
          (dpart :: l, blk)
        else ([dpart], blk)
  end.

Definition dos_extended_partition (blk : block_device) (p : partition) (sig : Z) : list dos_partition * block_device :=
  ebr_loop (Z.to_nat (MAX_PARTITION - 4)) blk (first_sec p) (u32 (first_sec p)) 4 sig.

Definition extract_flags (buf : list byte) (off : nat) : Z :=
  Z.lor (if byte_val (e_boot buf off) =? 0x80 then DEVFS_PARTITION_BOOTABLE_LEGACY else 0)
        (if byte_val (e_type buf off) =? 0xef then DEVFS_PARTITION_BOOTABLE_ESP else 0).

(** The entries from slot [i] on. *)
Fixpoint primary_loop (slots : list nat) (buf : list byte) (sig : Z) : list dos_partition :=
  match slots with
  | [] => []
  | i :: slots =>
      let off := (446 + i * 16)%nat in
      let rest := primary_loop slots buf sig in
      if e_start buf off =? 0 then rest
      else
        let p := Partition [] (dos_partuuid sig (Z.of_nat i + 1)) (e_start buf off) (e_size buf off)
                   (dos_type_union (e_type buf off)) (Z.of_nat i) (extract_flags buf off) 0 in
        let ext := is_extended_partition p in
        let p := if ext then Partition (name p) (partuuid p) (first_sec p) 2 (typeuuid p) (num p) (flags p) (typeflags p) else p in
        entry_part buf off p ext false :: rest
  end.

(** The signature is only stored when there is a partition. *)
Definition dos_partition_parse (buf : list byte) (blk : block_device) : dos_partition_desc * block_device :=
  let sig := get_le buf 0x1b8 4 in
  let l := primary_loop [0; 1; 2; 3]%nat buf sig in
  let '(logical, blk) :=
    match List.find extended l with
    | Some d => dos_extended_partition blk (part d) sig
    | None => ([], blk)
    end in
  (DosDesc (match l with [] => 0 | _ => sig end) (l ++ logical), blk).

(** ** Changing a table *)

Definition dos_partition_create_table (random32 : Z) : dos_partition_desc := DosDesc random32 [].

Definition fs_type_to_type (fstype : string) : Z :=
  if bool_decide (fstype = "ext2"%string) then 0x83
  else if bool_decide (fstype = "ext3"%string) then 0x83
  else if bool_decide (fstype = "ext4"%string) then 0x83
  else if bool_decide (fstype = "fat16"%string) then 0xe
  else if bool_decide (fstype = "fat32"%string) then 0xc
  else match Strtox.kstrtoull fstype 16 with
       | Err ret => ret
       | Ok t => if 0xff <? t then - EINVAL else t
       end.

(** The lowest bit that is set, counted from 1. *)
Definition ffs (x : Z) : Z :=
  match List.find (fun i => Z.testbit x (Z.of_nat i)) (seq 0 32) with
  | Some i => Z.of_nat i + 1
  | None => 0
  end.

(** The free slots, whether there is an extended partition, and the numbers of
    logical and other partitions. *)
Fixpoint count_parts (l : list dos_partition) (mask_free : Z) (ext : bool) (npart_logical npart : Z) : Z * bool * Z * Z :=
  match l with
  | [] => (mask_free, ext, npart_logical, npart)
  | d :: l =>
      let mask_free := Z.land mask_free (Z.lnot (Z.shiftl 1 npart)) in
      let ext := extended d || ext in
      if logical d then count_parts l mask_free ext (npart_logical + 1) npart
      else count_parts l mask_free ext npart_logical (npart + 1)
  end.

Definition UINT_MAX : Z := 2 ^ 32 - 1.

Definition dos_partition_mkpart (pd : dos_partition_desc) (name_ fs_type : string) (start_lba end_lba : Z)
  : Z * dos_partition_desc :=
  let t := fs_type_to_type fs_type in
  if t <? 0 then (- EINVAL, pd)
  else if start_lba <? 1 then (- EINVAL, pd)
  else
    let '(mask_free, ext, npart_logical, npart) := count_parts (dparts pd) 0xf false 0 0 in
    let create :=
      if UINT_MAX <? start_lba then (- ENOSPC, pd)
      else
        let size_ := u64 (end_lba - start_lba + 1) in
        if UINT_MAX <? size_ then (- ENOSPC, pd)
        else
          let p := Partition [] [] start_lba size_ (replicate 16 Init.Byte.x00) (ffs mask_free) 0 0 in
          let zero := replicate 3 Init.Byte.x00 in
          (0, DosDesc (signature pd) (dparts pd ++ [DosPartition p false false Init.Byte.x00 zero (byte_of t) zero])) in
    if bool_decide (name_ = "extended"%string) then if ext then (- ENOSPC, pd) else create
    else if bool_decide (name_ = "primary"%string) then if npart =? 4 then (- ENOSPC, pd) else create
    else if bool_decide (name_ = "logical"%string) then
      if negb ext then (- EINVAL, pd) else if 4 <=? npart_logical then (- ENOSPC, pd) else (- EINVAL, pd)
    else (- EINVAL, pd).

Definition dos_partition_rmpart (pd : dos_partition_desc) (i : nat) : option (Z * dos_partition_desc) :=
  Some (0, DosDesc (signature pd) (delete i (dparts pd))).

(** The bytes of an entry. *)
Definition entry_bytes (d : dos_partition) : list byte :=
  [boot_indicator d] ++ chs_begin d ++ [type d] ++ chs_end d ++
  le_bytes 4 (first_sec (part d)) ++ le_bytes 4 (size (part d)).

(** [entry = &table[part->num - 1]], which for a number 0 lies before the table. *)
Definition store_entry (buf : list byte) (d : dos_partition) : list byte :=
  write_at buf (Z.to_nat (0x1be + (num (part d) - 1) * 16)) (entry_bytes d).

Definition dos_partition_write (pd : dos_partition_desc) (blk : block_device) : Z * block_device :=
  if existsb logical (dparts pd) then (- EINVAL, blk)
  else
    match read_mbr blk with
    | (None, blk) => (- EIO, blk)
    | (Some buf, blk) =>
        let buf := put_le buf 0x1b8 4 (signature pd) in
        let buf := write_at buf 0x1be (replicate 64 Init.Byte.x00) in
        let buf := write_at (write_at buf 0x1fe [Init.Byte.x55]) 0x1ff [Init.Byte.xaa] in
        let buf := fold_left store_entry (dparts pd) buf in
        block_write blk buf 0 1
    end.

#[export] Instance dos_parser : PartitionParser (D := D) dos_partition_desc unit := {
  partitions pd := map part (dparts pd);
  mkpart _ _ pd name_ fs_type s e := Some (dos_partition_mkpart pd name_ fs_type s e);
  rmpart := dos_partition_rmpart
}.

(** ** The disk signature *)

Definition block_flush (blk : block_device) : Z * block_device := block_op_flush CONFIG_BLOCK_WRITE CONFIG_BLOCK_STATS ops blk.

Definition write_mbr (blk : block_device) (buf : list byte) : Z * block_device :=
  let '(ret, blk) := block_write blk buf 0 1 in
  if negb (ret =? 0) then (ret, blk) else block_flush blk.

Definition dos_set_disk_signature (blk : block_device) (sig : Z) : Z * block_device :=
  match read_mbr blk with
  | (None, blk) => (- EIO, blk)
  | (Some buf, blk) => write_mbr blk (put_le buf 0x1b8 4 sig)
  end.

Definition dos_get_disk_signature (blk : block_device) : res Z * block_device :=
  match read_mbr blk with
  | (None, blk) => (Err (- EIO), blk)
  | (Some buf, blk) => (Ok (get_le buf 0x1b8 4), blk)
  end.

#[export] Instance dos_parser_ok : ParserOk (D := D) (PD := dos_partition_desc) (G := unit).
Proof.
  split.
  - intros blk g pd nm fs s e ret pd'. cbn [mkpart partitions dos_parser]. intros [= E]. revert E. unfold dos_partition_mkpart.
    destruct (_ <? 0); [by intros [= <- <-]|]. destruct (s <? 1); [by intros [= <- <-]|].
    destruct (count_parts _ _ _ _ _) as [[[mask ext] nl] np].
    set (create := if UINT_MAX <? s then _ else _).
    assert (Hc : create = (ret, pd') ->
      if ret =? 0 then exists p, map part (dparts pd') = map part (dparts pd) ++ [p] /\ first_sec p = s /\ size p = u64 (e - s + 1)
      else map part (dparts pd') = map part (dparts pd)).
    { subst create. destruct (_ <? s); [by intros [= <- <-]|]. destruct (_ <? _); [by intros [= <- <-]|].
      intros [= <- <-]. cbn. rewrite map_app. eexists. split; [done|]. done. }
    repeat match goal with |- context [if bool_decide ?b then _ else _] => destruct (bool_decide b) end;
      try (destruct ext); try (destruct (np =? 4)); try (destruct (4 <=? nl)); try done; by intros [= <- <-].
  - intros pd i ret pd'. cbn. intros [= <- <-]. cbn. revert i. induction (dparts pd) as [|d l IH]; intros [|i]; cbn; try done.
    f_equal. apply IH.
Qed.

End Dos.

(** ** What is written is read back *)

(** An entry that keeps its meaning in the table: sector numbers of 32 bits, not
    empty, not an extended partition. *)
Definition entry_ok (d : dos_partition) : Prop :=
  length (chs_begin d) = 3%nat /\ length (chs_end d) = 3%nat /\
  1 <= first_sec (part d) < 2 ^ 32 /\ 0 <= size (part d) < 2 ^ 32 /\
  logical d = false /\ is_extended_partition (Partition [] [] 0 0 (dos_type_union (type d)) 0 0 0) = false.

(** The numbers of new partitions count from 1. *)
Fixpoint numbered (k : Z) (l : list dos_partition) : Prop :=
  match l with
  | [] => True
  | d :: l => num (part d) = k /\ numbered (k + 1) l
  end.

Lemma length_entry_bytes d : entry_ok d -> length (entry_bytes d) = 16%nat.
Proof. intros (H1 & H2 & _). unfold entry_bytes. rewrite !length_app, !length_le_bytes, H1, H2. done. Qed.

Lemma length_entries l : Forall entry_ok l -> length (flat_map entry_bytes l) = (16 * length l)%nat.
Proof.
  induction 1 as [|d l Hd _ IH]; cbn [flat_map length]; [done|]. rewrite length_app, IH, (length_entry_bytes d Hd). lia.
Qed.

Lemma read_mid A x B off n : off = length A -> n = length x -> read_at (A ++ x ++ B) off n = x.
Proof. intros -> ->. apply read_at_middle. Qed.

Lemma nth_mid (A B : list byte) x off d : off = length A -> nth off (A ++ x :: B) d = x.
Proof. intros ->. apply nth_middle. Qed.

(** The fields of an entry. *)
Lemma entry_read A d B off :
  entry_ok d -> off = length A ->
  let buf := A ++ entry_bytes d ++ B in
  e_boot buf off = boot_indicator d /\ e_type buf off = type d /\ e_start buf off = first_sec (part d) /\
  e_size buf off = size (part d) /\ read_at buf (off + 1) 3 = chs_begin d /\ read_at buf (off + 5) 3 = chs_end d.
Proof.
  intros (H1 & H2 & H3 & H4 & _) -> buf. subst buf. unfold entry_bytes, e_boot, e_type, e_start, e_size, get_le.
  rewrite <- !app_assoc. cbn [app]. split_and!.
  - by apply nth_mid.
  - rewrite (app_comm_cons (chs_begin d)), (app_assoc A). apply nth_mid. rewrite length_app. cbn. lia.
  - pose proof (read_mid (A ++ boot_indicator d :: chs_begin d ++ type d :: chs_end d) (le_bytes 4 (first_sec (part d)))
      (le_bytes 4 (size (part d)) ++ B) (length A + 8) 4) as E.
    rewrite <- app_assoc in E. cbn [app] in E. rewrite <- app_assoc in E. cbn [app] in E.
    rewrite E; [|rewrite length_app; cbn; rewrite length_app; cbn; lia|by rewrite length_le_bytes].
    rewrite le_val_bytes. apply Z.mod_small. lia.
  - pose proof (read_mid (A ++ boot_indicator d :: chs_begin d ++ type d :: chs_end d ++ le_bytes 4 (first_sec (part d)))
      (le_bytes 4 (size (part d))) B (length A + 12) 4) as E.
    rewrite <- app_assoc in E. cbn [app] in E. rewrite <- app_assoc in E. cbn [app] in E. rewrite <- app_assoc in E.
    rewrite E; [|rewrite length_app; cbn; rewrite length_app; cbn; rewrite length_app; cbn; lia|by rewrite length_le_bytes].
    rewrite le_val_bytes. apply Z.mod_small. lia.
  - pose proof (read_mid (A ++ [boot_indicator d]) (chs_begin d) (type d :: chs_end d ++ le_bytes 4 (first_sec (part d)) ++ le_bytes 4 (size (part d)) ++ B)
      (length A + 1) 3) as E. rewrite <- app_assoc in E. apply E; [rewrite length_app; cbn; lia|done].
  - pose proof (read_mid (A ++ boot_indicator d :: chs_begin d ++ [type d]) (chs_end d) (le_bytes 4 (first_sec (part d)) ++ le_bytes 4 (size (part d)) ++ B)
      (length A + 5) 3) as E. rewrite <- app_assoc in E. cbn [app] in E. rewrite <- app_assoc in E.
    apply E; [rewrite length_app; cbn; rewrite length_app; cbn; lia|done].
Qed.

(** Storing the entries one behind the other. *)
Lemma store_entries l : forall P E T k,
  Forall entry_ok l -> numbered k l -> length P = 446%nat -> Z.of_nat (length E) = (k - 1) * 16 ->
  (length E + 16 * length l <= 64)%nat ->
  fold_left store_entry l (P ++ E ++ replicate (64 - length E) Init.Byte.x00 ++ T)
  = P ++ (E ++ flat_map entry_bytes l) ++ replicate (64 - length E - 16 * length l) Init.Byte.x00 ++ T.
Proof.
  induction l as [|d l IH]; intros P E T k Hl Hn HP HE Hfit; cbn [fold_left flat_map length].
  { rewrite app_nil_r, Nat.mul_0_r, Nat.sub_0_r. done. }
  apply Forall_cons in Hl as [Hd Hl]. destruct Hn as [Hk Hn]. cbn [length] in Hfit.
  replace (64 - length E)%nat with (16 + (48 - length E))%nat by lia. rewrite replicate_add.
  unfold store_entry at 2. rewrite Hk.
  replace (Z.to_nat (0x1be + (k - 1) * 16)) with (length (P ++ E)) by (rewrite length_app; lia).
  rewrite (app_assoc P E), <- (app_assoc (replicate 16 _)), write_at_middle by (rewrite length_replicate, length_entry_bytes; done).
  pose proof (IH P (E ++ entry_bytes d) T (k + 1) Hl Hn HP) as IH'. rewrite !length_app, (length_entry_bytes d Hd) in IH'.
  replace (64 - (length E + 16))%nat with (48 - length E)%nat in IH' by lia.
  rewrite <- !app_assoc in IH' |- *. rewrite IH' by lia.
  by replace (16 + (48 - length E) - 16 * S (length l))%nat with (48 - length E - 16 * length l)%nat by lia.
Qed.

(** A partition as it is read from slot [i]. *)
Definition reread (sig : Z) (i : nat) (d : dos_partition) : dos_partition :=
  DosPartition
    (Partition [] (dos_partuuid sig (Z.of_nat i + 1)) (first_sec (part d)) (size (part d)) (dos_type_union (type d)) (Z.of_nat i)
       (Z.lor (if byte_val (boot_indicator d) =? 0x80 then DEVFS_PARTITION_BOOTABLE_LEGACY else 0)
              (if byte_val (type d) =? 0xef then DEVFS_PARTITION_BOOTABLE_ESP else 0)) 0)
    false false (boot_indicator d) (chs_begin d) (type d) (chs_end d).

Lemma primary_loop_read sig n : forall i l P T,
  Forall entry_ok l -> length P = (446 + i * 16)%nat -> (length l <= n)%nat ->
  primary_loop (seq i n) (P ++ flat_map entry_bytes l ++ replicate (16 * (n - length l)) Init.Byte.x00 ++ T) sig
  = imap (fun j d => reread sig (i + j) d) l.
Proof.
  induction n as [|n IH]; intros i l P T Hl HP Hn; cbn [seq primary_loop].
  { destruct l; [done|]. cbn in Hn. lia. }
  destruct l as [|d l]; cbn [flat_map length app imap].
  - replace (16 * (S n - 0))%nat with (16 + 16 * n)%nat by lia. rewrite replicate_add, <- app_assoc.
    pose proof (IH (S i) [] (P ++ replicate 16 Init.Byte.x00) T (Forall_nil_2 _)) as IH'. cbn [flat_map length app imap] in IH'.
    replace (16 * (n - 0))%nat with (16 * n)%nat in IH' by lia. rewrite <- app_assoc in IH'.
    rewrite IH' by (rewrite ?length_app, ?length_replicate; lia).
    assert (E : e_start (P ++ replicate 16 Init.Byte.x00 ++ replicate (16 * n) Init.Byte.x00 ++ T) (446 + i * 16) = 0).
    { unfold e_start, get_le. change (replicate 16 Init.Byte.x00) with (replicate 8 Init.Byte.x00 ++ replicate 4 Init.Byte.x00 ++ replicate 4 Init.Byte.x00).
      rewrite <- !app_assoc, (app_assoc P). rewrite read_mid; [done|rewrite length_app, length_replicate; lia|done]. }
    rewrite E. done.
  - apply Forall_cons in Hl as [Hd Hl]. rewrite <- app_assoc.
    destruct (entry_read P d (flat_map entry_bytes l ++ replicate (16 * (S n - S (length l))) Init.Byte.x00 ++ T) (446 + i * 16) Hd ltac:(lia))
      as (E1 & E2 & E3 & E4 & E5 & E6). cbn [app] in *. rewrite E3, E4. pose proof Hd as (_ & _ & H3 & _ & _ & H6).
    replace (first_sec (part d) =? 0) with false by lia.
    unfold entry_part, extract_flags. rewrite E1, E2, E5, E6.
    assert (Hx : forall a b c e f g h, is_extended_partition (Partition a b c e (dos_type_union (type d)) f g h) = false) by (intros; exact H6).
    rewrite Hx. f_equal; [by rewrite Nat.add_0_r|].
    pose proof (IH (S i) l (P ++ entry_bytes d) T Hl) as IH'. rewrite <- app_assoc in IH'. cbn [length] in Hn.
    rewrite Nat.sub_succ, IH' by (rewrite ?length_app, ?(length_entry_bytes d Hd); lia).
    apply imap_ext. intros j x _. by replace (S i + j)%nat with (i + S j)%nat by lia.
Qed.

(** The first block with a new table. *)
Definition mbr_image (buf : list byte) (sig : Z) (l : list dos_partition) : list byte :=
  take 440 buf ++ le_bytes 4 sig ++ read_at buf 444 2 ++ flat_map entry_bytes l ++
  replicate (64 - 16 * length l) Init.Byte.x00 ++ [Init.Byte.x55; Init.Byte.xaa] ++ drop 512 buf.

Lemma mbr_split (buf : list byte) : (512 <= length buf)%nat ->
  exists s g t m5 ma, buf = take 440 buf ++ s ++ g ++ t ++ [m5] ++ [ma] ++ drop 512 buf /\
    length s = 4%nat /\ g = read_at buf 444 2 /\ length g = 2%nat /\ length t = 64%nat.
Proof.
  intros H. exists (read_at buf 440 4), (read_at buf 444 2), (read_at buf 446 64).
  assert (Hm : exists m5 ma, read_at buf 510 2 = [m5; ma]).
  { assert (Hl : length (read_at buf 510 2) = 2%nat) by (rewrite length_read_at; lia).
    destruct (read_at buf 510 2) as [|a [|b [|]]]; try done. eauto. }
  destruct Hm as (m5 & ma & Hm). exists m5, ma. rewrite !length_read_at by lia. split_and!; try done.
  change ([m5] ++ [ma] ++ drop 512 buf) with ([m5; ma] ++ drop 512 buf). rewrite <- Hm.
  assert (Hd : forall n m, drop n buf = read_at buf n m ++ drop (n + m) buf)
    by (intros n m; unfold read_at; rewrite <- (take_drop m (drop n buf)) at 1; by rewrite drop_drop).
  rewrite <- (take_drop 440 buf) at 1. f_equal. rewrite (Hd 440%nat 4%nat), (Hd (440 + 4)%nat 2%nat), (Hd (440 + 4 + 2)%nat 64%nat).
  by rewrite (Hd (440 + 4 + 2 + 64)%nat 2%nat).
Qed.

Lemma write_mid A x B off data : off = length A -> length x = length data -> write_at (A ++ x ++ B) off data = A ++ data ++ B.
Proof. intros -> H. by apply write_at_middle. Qed.

Lemma mbr_image_stored (buf : list byte) sig l :
  (512 <= length buf)%nat -> Forall entry_ok l -> numbered 1 l -> (length l <= 4)%nat ->
  fold_left store_entry l
    (write_at (write_at (write_at (put_le buf 0x1b8 4 sig) 0x1be (replicate 64 Init.Byte.x00)) 0x1fe [Init.Byte.x55])
       0x1ff [Init.Byte.xaa]) = mbr_image buf sig l.
Proof.
  intros Hb Hl Hn H4. destruct (mbr_split buf Hb) as (s & g & t & m5 & ma & E & Ls & Eg & Lg & Lt). unfold mbr_image. rewrite <- Eg.
  assert (LA : length (take 440 buf) = 440%nat) by (rewrite length_take; lia). set (A := take 440 buf) in *. set (R := drop 512 buf) in *.
  rewrite E. unfold put_le. rewrite write_mid by (rewrite ?length_le_bytes; lia).
  rewrite (app_assoc A), (app_assoc (A ++ _) g), (write_mid ((A ++ le_bytes 4 sig) ++ g)) by (rewrite ?length_app, ?length_le_bytes, ?length_replicate; lia).
  rewrite (app_assoc ((A ++ le_bytes 4 sig) ++ g)), (write_mid (((A ++ le_bytes 4 sig) ++ g) ++ _))
    by (rewrite ?length_app, ?length_le_bytes, ?length_replicate; cbn; lia).
  rewrite (app_assoc (((A ++ le_bytes 4 sig) ++ g) ++ replicate 64 Init.Byte.x00)), (write_mid ((((A ++ le_bytes 4 sig) ++ g) ++ _) ++ _))
    by (rewrite ?length_app, ?length_le_bytes, ?length_replicate; cbn; lia).
  pose proof (store_entries l ((A ++ le_bytes 4 sig) ++ g) [] ([Init.Byte.x55] ++ [Init.Byte.xaa] ++ R) 1 Hl Hn) as Hs.
  cbn [app length] in Hs. change (64 - 0)%nat with 64%nat in Hs. rewrite <- !app_assoc in Hs |- *. cbn [app] in *.
  rewrite Hs; [done| |done|lia].
  rewrite !length_app, length_le_bytes. lia.
Qed.

Lemma length_mbr_image (buf : list byte) sig l :
  (512 <= length buf)%nat -> Forall entry_ok l -> (length l <= 4)%nat -> length (mbr_image buf sig l) = length buf.
Proof.
  intros Hb Hl H4. unfold mbr_image. rewrite !length_app, length_take, length_le_bytes, (length_entries l Hl), length_replicate, length_drop.
  rewrite length_read_at by lia. cbn [length]. lia.
Qed.

Lemma mbr_image_app (a b : list byte) sig l :
  (512 <= length a)%nat -> mbr_image (a ++ b) sig l = mbr_image a sig l ++ b.
Proof.
  intros Ha. unfold mbr_image. rewrite take_app_le, drop_app_le by lia. unfold read_at. rewrite drop_app_le, take_app_le by (rewrite ?length_drop; lia).
  by rewrite <- !app_assoc.
Qed.

Lemma take_mbr_image (c : list byte) sig l n :
  (512 <= n)%nat -> (512 <= length c)%nat -> Forall entry_ok l -> (length l <= 4)%nat ->
  take n (mbr_image c sig l) = mbr_image (take n c) sig l.
Proof.
  intros Hn Hc Hl H4. assert (Ht : (512 <= length (take n c))%nat) by (rewrite length_take; lia).
  rewrite <- (take_drop n c) at 1. rewrite mbr_image_app by done. pose proof (length_mbr_image (take n c) sig l Ht Hl H4) as E.
  rewrite length_take in E. destruct (decide (n <= length c)%nat).
  - apply take_app_length'. lia.
  - rewrite (drop_ge c), app_nil_r by lia. apply take_ge. lia.
Qed.

Section Disk.

Context {D : Type} (stats : bool) (ops : block_device_ops (D := D)) (bits nb : Z) `{Hio : !BlockIo true stats ops bits nb}.

Context (Hbits : bits < 31).

Lemma bs_small : 512 <= 2 ^ bits < 2 ^ 31.
Proof. pose proof io_bs. split; [lia|]. apply Z.pow_lt_mono_r; lia. Qed.

Lemma read_mbr_ok blk c :
  contents blk c -> sound blk ->
  exists blk', read_mbr stats ops blk = (Some (take (Z.to_nat (2 ^ bits)) c), blk') /\ contents blk' c /\ sound blk'.
Proof.
  intros Hc Hs. pose proof bs_small. destruct io_blocks as [Hnb _].
  destruct (io_read_in blk c 0 1 Hc) as (ret & d & blk' & E & Hc' & Hd & Hz); [lia..|]. destruct (Hz Hs) as [-> Hs'].
  unfold read_mbr. rewrite E. exists blk'. cbn [Z.eqb negb]. rewrite (Hd eq_refl). rewrite Z.mul_0_l, Z.mul_1_l. done.
Qed.

Lemma get_le_mid A x B off n : off = length A -> n = length x -> get_le (A ++ x ++ B) off n = le_val x.
Proof. intros H1 H2. unfold get_le. by rewrite read_mid. Qed.

Lemma dos_parse_entries l P T (blk : block_device (D := D)) :
  let buf := P ++ flat_map entry_bytes l ++ replicate (16 * (4 - length l)) Init.Byte.x00 ++ T in
  let sig := get_le buf 0x1b8 4 in
  length P = 446%nat -> Forall entry_ok l -> (length l <= 4)%nat ->
  dos_partition_parse stats ops buf blk = (DosDesc (match l with [] => 0 | _ => sig end) (imap (reread sig) l), blk).
Proof.
  intros buf sig HP Hl H4. unfold dos_partition_parse. fold sig.
  pose proof (primary_loop_read sig 4 0 l P T Hl HP H4) as Hp. fold buf in Hp.
  change (seq 0 4) with [0; 1; 2; 3]%nat in Hp. change (imap _ l) with (imap (reread sig) l) in Hp. rewrite Hp.
  assert (Hf : List.find extended (imap (reread sig) l) = None).
  { destruct (List.find _ _) as [x|] eqn:E; [|done]. apply find_some in E as [Hx Ht]. apply list_elem_of_In in Hx.
    apply elem_of_lookup_imap_1 in Hx as (i & d & -> & _). done. }
  rewrite Hf, app_nil_r. by destruct l.
Qed.

Lemma dos_parse_image (buf : list byte) sig l (blk : block_device (D := D)) :
  (512 <= length buf)%nat -> 0 <= sig < 2 ^ 32 -> Forall entry_ok l -> (length l <= 4)%nat ->
  dos_partition_parse stats ops (mbr_image buf sig l) blk = (DosDesc (match l with [] => 0 | _ => sig end) (imap (reread sig) l), blk).
Proof.
  intros Hb Hsig Hl H4.
  assert (LA : length (take 440 buf) = 440%nat) by (rewrite length_take; lia).
  assert (Lg : length (read_at buf 444 2) = 2%nat) by (rewrite length_read_at; lia).
  assert (Es : get_le (mbr_image buf sig l) 0x1b8 4 = sig).
  { unfold mbr_image. rewrite get_le_mid by (rewrite ?length_le_bytes; lia). rewrite le_val_bytes. apply Z.mod_small. lia. }
  pose proof (dos_parse_entries l (take 440 buf ++ le_bytes 4 sig ++ read_at buf 444 2) ([Init.Byte.x55; Init.Byte.xaa] ++ drop 512 buf) blk) as Hp.
  replace (16 * (4 - length l))%nat with (64 - 16 * length l)%nat in Hp by lia. rewrite <- !app_assoc in Hp.
  fold (mbr_image buf sig l) in Hp. cbn zeta in Hp. rewrite Es in Hp. apply Hp; [|done|done].
  rewrite !length_app, LA, Lg, length_le_bytes. done.
Qed.

Lemma dos_write_image blk c pd :
  contents blk c -> sound blk -> Forall entry_ok (dparts pd) -> numbered 1 (dparts pd) -> (length (dparts pd) <= 4)%nat ->
  exists blk', dos_partition_write true stats ops pd blk = (0, blk') /\ sound blk' /\
    contents blk' (mbr_image c (signature pd) (dparts pd)).
Proof.
  intros Hc Hs Hl Hn H4. pose proof bs_small. destruct io_blocks as [Hnb _]. destruct (io_device _ _ Hc) as (_ & _ & Hlen).
  unfold dos_partition_write.
  assert (Hlog : existsb logical (dparts pd) = false).
  { rewrite <- not_true_iff_false, existsb_exists. intros (d & Hd & Ht). rewrite Forall_forall in Hl.
    destruct (Hl d ltac:(by apply list_elem_of_In)) as (_ & _ & _ & _ & Hf & _). congruence. }
  rewrite Hlog. destruct (read_mbr_ok blk c Hc Hs) as (blk1 & -> & Hc1 & Hs1).
  set (buf := take (Z.to_nat (2 ^ bits)) c). assert (Lb : length buf = Z.to_nat (2 ^ bits)) by (subst buf; rewrite length_take; nia).
  rewrite mbr_image_stored by (lia || done). set (img := mbr_image buf (signature pd) (dparts pd)).
  assert (Li : length img = Z.to_nat (2 ^ bits)) by (subst img; rewrite length_mbr_image; lia || done).
  destruct (io_write blk1 c img 0 1 Hc1) as (ret & blk' & m & E & _ & _ & Hc' & Hm & Hz); [lia..|].
  destruct (Hz Hs1) as [-> Hs']. exists blk'. split_and!; [done|done|]. rewrite (Hm eq_refl), take_ge in Hc' by lia.
  rewrite Z.mul_0_l in Hc'. change (Z.to_nat 0) with 0%nat in Hc'. rewrite write_at_inside, Li in Hc' by nia.
  rewrite <- (take_drop (Z.to_nat (2 ^ bits)) c), mbr_image_app by (fold buf; lia). done.
Qed.

(** *** Tables that were made with this code *)

Definition basic_type (fs_type : string) : Prop :=
  is_extended_partition (Partition [] [] 0 0 (dos_type_union (byte_of (fs_type_to_type fs_type))) 0 0 0) = false.

(** A new table, and primary partitions that are created one after another and that are
    not of an extended type: the reader shows only two sectors of an extended partition
    and follows the chain of tables in it. *)
Inductive made (sig : Z) : dos_partition_desc -> Prop :=
| made_new : made sig (dos_partition_create_table sig)
| made_part pd fs_type s e pd' :
    made sig pd -> basic_type fs_type -> s <= e < 2 ^ 64 ->
    dos_partition_mkpart pd "primary" fs_type s e = (0, pd') -> made sig pd'.

Lemma count_parts_plain l : Forall (fun d => logical d = false) l -> (length l < 4)%nat ->
  exists mask ext, count_parts l 0xf false 0 0 = (mask, ext, 0, Z.of_nat (length l)) /\ ffs mask = Z.of_nat (length l) + 1.
Proof.
  intros Hl H4. destruct l as [|d0 [|d1 [|d2 [|]]]]; cbn [length] in H4; try lia;
    repeat (apply Forall_cons in Hl as [? Hl]); cbn [count_parts];
    repeat match goal with H : logical _ = false |- _ => rewrite H; clear H end; by eexists _, _.
Qed.

Lemma numbered_snoc l k d : numbered k l -> num (part d) = k + Z.of_nat (length l) -> numbered k (l ++ [d]).
Proof.
  revert k. induction l as [|x l IH]; intros k; cbn [numbered app length].
  - intros _ H. split; [lia|done].
  - intros [H1 H2] H. split; [done|]. apply IH; [done|lia].
Qed.

Lemma made_ok sig pd : made sig pd ->
  signature pd = sig /\ Forall entry_ok (dparts pd) /\ numbered 1 (dparts pd) /\ (length (dparts pd) <= 4)%nat.
Proof.
  induction 1 as [|pd fs s e pd' _ (IH1 & IH2 & IH3 & IH4) Hb Hse E]; [by split_and!; try constructor; cbn; lia|].
  unfold dos_partition_mkpart in E. destruct (_ <? 0); [done|]. destruct (s <? 1) eqn:E1; [done|]. bool_prop.
  destruct (decide (length (dparts pd) < 4)%nat) as [Hlt|Hge].
  - assert (Hlog : Forall (fun d => logical d = false) (dparts pd)).
    { eapply Forall_impl; [exact IH2|]. by intros d (_ & _ & _ & _ & ? & _). }
    destruct (count_parts_plain _ Hlog Hlt) as (mask & ext & Ec & Ef). rewrite Ec in E.
    rewrite (bool_decide_eq_false_2 ("primary"%string = _)), (bool_decide_eq_true_2 ("primary"%string = _)) in E by done.
    replace (Z.of_nat (length (dparts pd)) =? 4) with false in E by lia.
    destruct (_ <? s) eqn:E2; [done|]. destruct (_ <? u64 _) eqn:E3; [done|]. bool_prop. injection E as <-. unfold UINT_MAX in *.
    cbn [signature dparts]. split_and!; [done| | |rewrite length_app; cbn; lia].
    + apply Forall_app. split; [done|]. constructor; [|constructor]. unfold entry_ok. cbn. pose proof (u64_range (e - s + 1)).
      split_and!; (done || lia).
    + apply numbered_snoc; [done|]. cbn. lia.
  - assert (Hnp : exists mask ext nl, count_parts (dparts pd) 0xf false 0 0 = (mask, ext, nl, 4)).
    { destruct (dparts pd) as [|d0 [|d1 [|d2 [|d3 [|]]]]]; cbn [length] in *; try lia.
      repeat (apply Forall_cons in IH2 as [(_ & _ & _ & _ & ? & _) IH2]). cbn [count_parts].
      repeat match goal with H : logical _ = false |- _ => rewrite H; clear H end. by eexists _, _, _. }
    destruct Hnp as (mask & ext & nl & Ec). rewrite Ec in E.
    rewrite (bool_decide_eq_false_2 ("primary"%string = _)), (bool_decide_eq_true_2 ("primary"%string = _)) in E by done.
    done.
Qed.

(** C22: a table that was made is read back.  On a disk without faults a new table, with
    up to four primary partitions of types other than the extended ones created in it
    one after another, is written into the first block, keeping the boot code in it and
    all other blocks, and is read with the same sectors, sizes and types. *)
Theorem dos_roundtrip sig pd blk c :
  0 <= sig < 2 ^ 32 -> made sig pd -> contents blk c -> sound blk ->
  exists blk' c', dos_partition_write true stats ops pd blk = (0, blk') /\ contents blk' c' /\
    take 440 c' = take 440 c /\ drop 512 c' = drop 512 c /\
    forall n blk2, (512 <= n)%nat ->
      exists sig', dos_partition_parse stats ops (take n c') blk2 = (DosDesc sig' (imap (reread sig) (dparts pd)), blk2).
Proof.
  intros Hsig Hm Hc Hs. destruct (made_ok sig pd Hm) as (E1 & E2 & E3 & E4). pose proof bs_small. destruct io_blocks as [Hnb _].
  destruct (io_device _ _ Hc) as (_ & _ & Hlen). assert (Hl : (512 <= length c)%nat) by nia.
  destruct (dos_write_image blk c pd Hc Hs E2 E3 E4) as (blk' & Ew & _ & Hc'). rewrite E1 in Hc'.
  exists blk', (mbr_image c sig (dparts pd)). split_and!; try done.
  - unfold mbr_image. rewrite take_app_length'; [done|]. rewrite length_take. lia.
  - rewrite <- (take_drop 512 c) at 1. rewrite mbr_image_app by (rewrite length_take; lia).
    apply drop_app_length'. rewrite length_mbr_image by (rewrite ?length_take; lia || done). rewrite length_take. lia.
  - intros n blk2 Hn. exists (match dparts pd with [] => 0 | _ => sig end). rewrite take_mbr_image by (lia || done).
    apply dos_parse_image; try done. rewrite length_take. lia.
Qed.

(** *** Writing a table that was read *)

Lemma reread_bytes sig i d : entry_bytes (reread sig i d) = entry_bytes d.
Proof. done. Qed.

Lemma reread_ok sig i d : entry_ok d -> entry_ok (reread sig i d).
Proof. intros (H1 & H2 & H3 & H4 & _ & H6). exact (conj H1 (conj H2 (conj H3 (conj H4 (conj eq_refl H6))))). Qed.

Lemma reread_numbered sig l : forall i, numbered (Z.of_nat i) (imap (fun j => reread sig (i + j)) l).
Proof.
  induction l as [|d l IH]; intros i; cbn [imap numbered]; [done|]. split; [cbn; lia|].
  replace (Z.of_nat i + 1) with (Z.of_nat (S i)) by lia. pose proof (IH (S i)) as H.
  erewrite imap_ext; [exact H|]. intros j x _. unfold compose. f_equal. lia.
Qed.

Lemma reread_entries sig l : forall i, flat_map entry_bytes (imap (fun j => reread sig (i + j)) l) = flat_map entry_bytes l.
Proof.
  induction l as [|d l IH]; intros i; cbn [imap flat_map]; [done|]. f_equal.
  rewrite <- (IH (S i)). f_equal. apply imap_ext. intros j x _. unfold compose. f_equal. lia.
Qed.

(** The first block after the entries were stored one slot too early. *)
Lemma early_entries (buf : list byte) sig sig' d l :
  (512 <= length buf)%nat -> entry_ok d -> Forall entry_ok l -> (length l <= 3)%nat ->
  exists P, length P = 446%nat /\
  fold_left store_entry (imap (reread sig) (d :: l))
    (write_at (write_at (write_at (put_le buf 0x1b8 4 sig') 0x1be (replicate 64 Init.Byte.x00)) 0x1fe [Init.Byte.x55])
       0x1ff [Init.Byte.xaa])
  = P ++ flat_map entry_bytes l ++ replicate (16 * (4 - length l)) Init.Byte.x00 ++ [Init.Byte.x55; Init.Byte.xaa] ++ drop 512 buf.
Proof.
  intros Hb Hd Hl H4. pose proof (mbr_image_stored buf sig' [] Hb (Forall_nil_2 _) I ltac:(cbn; lia)) as E. cbn [fold_left] in E. rewrite E.
  set (A := take 430 buf). assert (LA : length A = 430%nat) by (subst A; rewrite length_take; lia).
  exists (A ++ entry_bytes d). split; [rewrite length_app, (length_entry_bytes d Hd); lia|].
  assert (Es : mbr_image buf sig' [] = A ++ (read_at buf 430 10 ++ le_bytes 4 sig' ++ read_at buf 444 2) ++
    (replicate 64 Init.Byte.x00 ++ [Init.Byte.x55; Init.Byte.xaa] ++ drop 512 buf)).
  { unfold mbr_image. cbn [flat_map app length]. change (64 - 16 * 0)%nat with 64%nat.
    rewrite <- (take_drop 430 (take 440 buf)), take_take, <- !app_assoc. cbn [app]. f_equal. f_equal.
    unfold read_at. rewrite skipn_firstn_comm. done. }
  cbn [imap fold_left]. unfold store_entry at 2. rewrite Es. rewrite reread_bytes.
  change (Z.to_nat (0x1be + (num (part (reread sig 0 d)) - 1) * 16)) with 430%nat.
  rewrite write_mid; [|done|rewrite !length_app, length_le_bytes, !length_read_at, (length_entry_bytes d Hd) by lia; lia].
  pose proof (store_entries (imap (fun j => reread sig (1 + j)) l) (A ++ entry_bytes d) [] ([Init.Byte.x55; Init.Byte.xaa] ++ drop 512 buf) 1) as Hs.
  rewrite length_imap, reread_entries in Hs. cbn [length app] in Hs. change (64 - 0)%nat with 64%nat in Hs.
  rewrite <- app_assoc in Hs |- *. cbn [app]. change (reread sig ∘ S) with (fun j => reread sig (S j)). cbn [Nat.add] in Hs.
  replace (16 * (4 - length l))%nat with (64 - 16 * length l)%nat by lia. rewrite (app_assoc A (entry_bytes d) (flat_map _ _ ++ _)). apply Hs.
  - rewrite Forall_forall. intros x Hx. apply elem_of_lookup_imap_1 in Hx as (i & y & -> & Hy). apply reread_ok.
    rewrite Forall_forall in Hl. apply Hl. by eapply list_elem_of_lookup_2.
  - apply (reread_numbered sig l 1).
  - rewrite length_app, (length_entry_bytes d Hd). lia.
  - done.
  - lia.
Qed.

(** C39: writing a table that was read loses its first partition.  [dos_partition]
    numbers partitions from 0, [dos_partition_write] stores number n in slot n - 1: the
    first entry goes in front of the table, over the disk signature, and the others move
    up by one slot. *)
Theorem dos_rewrite_drops_first sig d l c blk :
  0 <= sig < 2 ^ 32 -> entry_ok d -> Forall entry_ok l -> (length l <= 3)%nat -> (512 <= length c)%nat ->
  contents blk (mbr_image c sig (d :: l)) -> sound blk ->
  forall n, (512 <= n)%nat ->
  let pd := fst (dos_partition_parse stats ops (take n (mbr_image c sig (d :: l))) blk) in
  map (fun x => (first_sec (part x), size (part x))) (dparts pd) = map (fun x => (first_sec (part x), size (part x))) (d :: l) /\
  exists blk' c', dos_partition_write true stats ops pd blk = (0, blk') /\ contents blk' c' /\
    exists sig', dparts (fst (dos_partition_parse stats ops (take n c') blk')) = imap (reread sig') l.
Proof.
  intros Hsig Hd Hl H4 H512 Hc Hs n Hn. pose proof bs_small as Hbs. destruct io_blocks as [Hnb _].
  assert (Hdl : Forall entry_ok (d :: l)) by (by constructor). assert (H5 : (length (d :: l) <= 4)%nat) by (cbn; lia).
  destruct (io_device _ _ Hc) as (_ & _ & Hlen).
  rewrite take_mbr_image, dos_parse_image by (done || rewrite length_take; lia). set (img := mbr_image c sig (d :: l)) in *.
  set (pd := fst _). cbn [fst] in pd. split.
  { subst pd. cbn [dparts]. apply list_eq. intros i. rewrite !list_lookup_fmap, list_lookup_imap. by destruct ((d :: l) !! i). }
  unfold dos_partition_write. assert (Hlog : existsb logical (dparts pd) = false).
  { rewrite <- not_true_iff_false, existsb_exists. intros (x & Hx & Ht). apply list_elem_of_In in Hx. subst pd. cbn [dparts] in Hx.
    apply elem_of_lookup_imap_1 in Hx as (i & y & -> & _). done. }
  rewrite Hlog. destruct (read_mbr_ok blk img Hc Hs) as (blk1 & -> & Hc1 & Hs1). set (buf := take (Z.to_nat (2 ^ bits)) img).
  assert (Lb : length buf = Z.to_nat (2 ^ bits)) by (subst buf; rewrite length_take; nia).
  destruct (early_entries buf sig sig d l ltac:(lia) Hd Hl H4) as (P & LP & E). cbn [signature dparts pd] in E |- *. rewrite E.
  set (T := [Init.Byte.x55; Init.Byte.xaa] ++ drop 512 buf). set (new := P ++ _).
  assert (Ln : length new = length buf).
  { subst new T. rewrite !length_app, LP, (length_entries l Hl), length_replicate, length_drop. cbn [length]. lia. }
  destruct (io_write blk1 img new 0 1 Hc1) as (ret & blk' & m & Ew & _ & _ & Hc' & Hm & Hz); [lia..|].
  destruct (Hz Hs1) as [-> _]. rewrite (Hm eq_refl), take_ge in Hc' by lia.
  rewrite Z.mul_0_l in Hc'. change (Z.to_nat 0) with 0%nat in Hc'. rewrite write_at_inside in Hc' by nia. cbn [take app Nat.add] in Hc'.
  exists blk', (new ++ drop (length new) img). split_and!; [exact Ew|exact Hc'|].
  assert (Et : take n (new ++ drop (length new) img) = P ++ flat_map entry_bytes l ++ replicate (16 * (4 - length l)) Init.Byte.x00 ++
    take (n - 510) (T ++ drop (length new) img)).
  { subst new. rewrite <- !app_assoc, !(app_assoc P), !(app_assoc (P ++ _)).
    assert (L3 : length ((P ++ flat_map entry_bytes l) ++ replicate (16 * (4 - length l)) Init.Byte.x00) = 510%nat)
      by (rewrite !length_app, LP, (length_entries l Hl), length_replicate; lia).
    rewrite take_app_ge by lia. by rewrite L3. }
  rewrite Et, dos_parse_entries by (done || lia). by eexists.
Qed.

End Disk.

(** ** Examples *)

Module Demo.

Definition nb_ok : 0 < 100 < 2 ^ 32 := conj eq_refl eq_refl.

Abbreviation ram100 := (Block.Demo.ram_ops (2 ^ 9) 100).
Definition disk : block_device (D := list byte) := Block.Demo.ram_device 100 [].
Definition io : BlockIo true true ram100 9 100 := Block.Demo.ram_io 100 nb_ok.

(** Two partitions. *)
Definition step (pd : dos_partition_desc) (fs_type : string) (s e : Z) : dos_partition_desc :=
  snd (dos_partition_mkpart pd "primary" fs_type s e).
Definition one : dos_partition_desc := step (dos_partition_create_table 0xdeadbeef) "ext4" 40 49.
Definition two : dos_partition_desc := step one "fat32" 60 69.

Lemma two_made : made 0xdeadbeef two.
Proof.
  apply (made_part _ one "fat32" 60 69); [|done|lia|reflexivity].
  apply (made_part _ (dos_partition_create_table 0xdeadbeef) "ext4" 40 49); [constructor|done|lia|reflexivity].
Qed.

Lemma dos_roundtrip_witness :
  exists blk' c', dos_partition_write true true ram100 two disk = (0, blk') /\ contents (BlockIo := io) blk' c' /\
    take 440 c' = take 440 (Block.Demo.ram (2 ^ 9) 100 []) /\ drop 512 c' = drop 512 (Block.Demo.ram (2 ^ 9) 100 []) /\
    forall n blk2, (512 <= n)%nat ->
      exists sig', dos_partition_parse true ram100 (take n c') blk2 = (DosDesc sig' (imap (reread 0xdeadbeef) (dparts two)), blk2).
Proof.
  apply (dos_roundtrip true ram100 9 100 (Hio := io) ltac:(lia) 0xdeadbeef two disk (Block.Demo.ram (2 ^ 9) 100 [])).
  - lia.
  - exact two_made.
  - apply Block.Demo.ram_contents.
  - exact I.
Defined.

(** A disk with these two partitions, and what is left of them. *)
Definition image : list byte := mbr_image (replicate (Z.to_nat 51200) Init.Byte.x00) 0xdeadbeef (dparts two).

Definition sectors (pd : dos_partition_desc) : list (Z * Z) := map (fun d => (first_sec (part d), size (part d))) (dparts pd).

Lemma image_ok : Forall entry_ok (dparts two).
Proof. repeat (constructor; [unfold entry_ok; cbn; split_and!; (done || lia)|]). constructor. Qed.

Lemma ram_image : Block.Demo.ram (2 ^ 9) 100 image = image.
Proof.
  unfold Block.Demo.ram. apply resize_all_alt. unfold image. rewrite length_mbr_image.
  - by rewrite length_replicate.
  - rewrite length_replicate. lia.
  - exact image_ok.
  - by apply Nat.leb_le.
Qed.

Lemma dos_rewrite_drops_first_witness :
  let pd := fst (dos_partition_parse true ram100 (take 512 image) (Block.Demo.ram_device 100 image)) in
  sectors pd = [(40, 10); (60, 10)] /\
  exists blk' c' sig', dos_partition_write true true ram100 pd (Block.Demo.ram_device 100 image) = (0, blk') /\
    contents (BlockIo := io) blk' c' /\
    dparts (fst (dos_partition_parse true ram100 (take 512 c') blk')) = imap (reread sig') (tail (dparts two)).
Proof.
  destruct (dos_rewrite_drops_first true ram100 9 100 (Hio := io) ltac:(lia) 0xdeadbeef (nth 0 (dparts two) (DosPartition (Partition [] [] 0 0 [] 0 0 0) false false Init.Byte.x00 [] Init.Byte.x00 []))
    (tail (dparts two)) (replicate (Z.to_nat 51200) Init.Byte.x00) (Block.Demo.ram_device 100 image)) with (n := 512%nat) as (E & blk' & c' & Ew & Hc & sig' & Ep).
  - lia.
  - exact (Forall_inv image_ok).
  - exact (Forall_inv_tail image_ok).
  - by apply Nat.leb_le.
  - rewrite length_replicate. lia.
  - pose proof (Block.Demo.ram_contents 100 nb_ok image) as H. rewrite ram_image in H. exact H.
  - exact I.
  - lia.
  - split; [exact E|]. exists blk', c', sig'. split_and!; [exact Ew|exact Hc|exact Ep].
Defined.

(** Changing the table on this disk; the first usable sector is 34. *)
Definition edits : list (edit (G := unit)) :=
  [Create tt "primary" "ext4" 40 49; Create tt "primary" "fat32" 45 60; Create tt "primary" "fat32" 60 69; Remove 1; Remove 7;
   Create tt "logical" "ext4" 80 89].

Lemma partitions_disjoint_witness :
  exists rets pd, edit_all 17408 disk (dos_partition_create_table 1) edits = Some (rets, pd) /\
    rets = [0; - EINVAL; 0; 0; - ENOENT; - EINVAL] /\ table_ok 100 (partitions (D := list byte) pd).
Proof.
  eexists _, _. split; [vm_compute; reflexivity|]. split; [reflexivity|].
  apply (partitions_disjoint 17408 disk (dos_partition_create_table 1) edits [0; - EINVAL; 0; 0; - ENOENT; - EINVAL]).
  - unfold small. change (num_blocks disk) with 100. lia.
  - change (blockbits disk) with 9. lia.
  - lia.
  - split; constructor.
  - vm_compute. reflexivity.
Defined.

(** Creating an extended partition in a full table gives it the number 0, which is in
    front of the table. *)
Example extended_in_full_table :
  let pd := step (step two "ext4" 70 74) "ext4" 75 79 in
  option_map (fun d => num (part d)) (last (dparts (snd (dos_partition_mkpart pd "extended" "0x5" 80 89)))) = Some 0.
Proof. vm_compute. reflexivity. Qed.

(** The number of a new partition is the count of the others plus one, also when a
    partition with that number is still there: both get the same slot. *)
Example number_used_twice :
  let edits := [Create tt "primary" "ext4" 40 49; Create tt "primary" "fat32" 60 69; Remove 1; Create tt "primary" "ext4" 40 49] in
  option_map (fun r => map (fun d => num (part d)) (dparts (snd r))) (edit_all 17408 disk (dos_partition_create_table 1) edits) = Some [2; 2].
Proof. vm_compute. reflexivity. Qed.

End Demo.

End DosPart.
