(* ===== verification/Gpt.v ===== *)
(** * GUID partition tables (common/partitions/efi.c)

    A table has a header and an array of entries, both with checksums, and is on the
    disk twice: at the start and at the end.  The model has reading with the checks of
    both copies, changing the table, and writing it with a protective DOS table, all
    through the cache of common/block.c.  The result [None] is an access outside of a
    buffer. *)

From stdpp Require Import base list strings.
From Stdlib Require Import ZArith Lia.
From S2P Require Import Prelude Crc32 FormatRaw Block Partitions DosPart.

Module Gpt.

Import Block Partitions.

Notation "x <-! m ;; k" := (match m with Some x => k | None => None end)
  (at level 100, m at next level, right associativity).

(** ** The format (include/efi/partition.h)

    A header is the first block of a copy, kept as bytes. *)

Definition GPT_HEADER_SIGNATURE : Z := 0x5452415020494645.
Definition GPT_PRIMARY_PARTITION_TABLE_LBA : Z := 1.
Definition sizeof_gpt_header : Z := 92.
Definition sizeof_gpt_entry : Z := 128.
Definition GPT_PARTNAME_MAX_SIZE : nat := 36.

Definition h_signature (h : list byte) : Z := get_le h 0 8.
Definition h_header_size (h : list byte) : Z := get_le h 12 4.
Definition h_header_crc32 (h : list byte) : Z := get_le h 16 4.
Definition h_my_lba (h : list byte) : Z := get_le h 24 8.
Definition h_alternate_lba (h : list byte) : Z := get_le h 32 8.
Definition h_first_usable_lba (h : list byte) : Z := get_le h 40 8.
Definition h_last_usable_lba (h : list byte) : Z := get_le h 48 8.
Definition h_disk_guid (h : list byte) : list byte := read_at h 56 16.
Definition h_partition_entry_lba (h : list byte) : Z := get_le h 72 8.
Definition h_num_partition_entries (h : list byte) : Z := get_le h 80 4.
Definition h_sizeof_partition_entry (h : list byte) : Z := get_le h 84 4.
Definition h_partition_entry_array_crc32 (h : list byte) : Z := get_le h 88 4.

(** [&ptes[i]], and the fields of an entry. *)
Definition entry_at (ptes : list byte) (i : nat) : option (list byte) :=
  if (128 * i + 128 <=? length ptes)%nat then Some (read_at ptes (128 * i) 128) else None.

Definition e_type_guid (e : list byte) : list byte := read_at e 0 16.
Definition e_unique_guid (e : list byte) : list byte := read_at e 16 16.
Definition e_starting_lba (e : list byte) : Z := get_le e 32 8.
Definition e_ending_lba (e : list byte) : Z := get_le e 40 8.
Definition e_attributes (e : list byte) : Z := get_le e 48 8.

Definition guid_null : list byte := replicate 16 Init.Byte.x00.

Definition GUID_INIT (a b c : Z) (d : list Z) : list byte := le_bytes 4 a ++ le_bytes 2 b ++ le_bytes 2 c ++ map byte_of d.

Definition PARTITION_SYSTEM_GUID : list byte := GUID_INIT 0xC12A7328 0xF81F 0x11d2 [0xBA; 0x4B; 0x00; 0xA0; 0xC9; 0x3E; 0xC9; 0x3B].
Definition PARTITION_BASIC_DATA_GUID : list byte := GUID_INIT 0xEBD0A0A2 0xB9E5 0x4433 [0x87; 0xC0; 0x68; 0xB6; 0xB7; 0x26; 0x99; 0xC7].
Definition PARTITION_LINUX_DATA_GUID : list byte := GUID_INIT 0x0FC63DAF 0x8483 0x4772 [0x8E; 0x79; 0x3D; 0x69; 0xD8; 0x47; 0x7D; 0xE4].
Definition PARTITION_BAREBOX_ENVIRONMENT_GUID : list byte := GUID_INIT 0x6c3737f2 0x07f8 0x45d1 [0xad; 0x45; 0x15; 0xd2; 0x60; 0xaa; 0xb2; 0x4d].
Definition BAREBOX_STATE_PARTITION_GUID : list byte := GUID_INIT 0x4778ed65 0xbf42 0x45fa [0x9c; 0x5b; 0x28; 0x7a; 0x1d; 0xc4; 0xaa; 0xb1].

(** ** The description of a table

    [pte] is the entry of a partition in [ptes], if the pointer is set. *)

Record efi_partition := EfiPart {
  epart : partition;
  pte : option nat
}.

Record efi_partition_desc := Epd {
  gpt : list byte;
  ptes : list byte;
  good_pgpt : bool;
  good_agpt : bool;
  eparts : list efi_partition
}.

Definition compute_partitions_entries_size (gpt : list byte) : Z :=
  let total := h_num_partition_entries gpt * h_sizeof_partition_entry gpt in
  if 2 ^ 32 <=? total then 0 else total.

Definition efi_crc32 (buf : list byte) (len : Z) : option Z :=
  if Z.of_nat (length buf) <? len then None else Some (Crc32.crc32 0 (take (Z.to_nat len) buf)).

(** Whether a character is printable (lib/ctype.c). *)
Definition isprint (c : Z) : bool := (0x20 <=? c) && (c <=? 0x7e) || (0xa0 <=? c).

Definition part_set_efi_name (e : list byte) : list byte :=
  map (fun i => let c := get_u8 e (56 + 2 * i) in byte_of (if negb (c =? 0) && negb (isprint c) then 46 else c))
    (seq 0 GPT_PARTNAME_MAX_SIZE).

Definition extract_flags (e : list byte) : Z :=
  let bit n f := if Z.testbit (e_attributes e) n then f else 0 in
  Z.lor (Z.lor (bit 0 DEVFS_PARTITION_REQUIRED) (bit 1 DEVFS_PARTITION_NO_EXPORT))
    (Z.lor (bit 2 DEVFS_PARTITION_BOOTABLE_LEGACY)
       (if bool_decide (e_type_guid e = PARTITION_SYSTEM_GUID) then DEVFS_PARTITION_BOOTABLE_ESP else 0)).

Definition is_pte_valid (e : list byte) (lastlba : Z) : bool :=
  let start := e_starting_lba e in
  let end_ := e_ending_lba e in
  negb (bool_decide (e_type_guid e = guid_null) || (lastlba <? start) || (lastlba <? end_) || (end_ <? start)).

Section Gpt.

Context {D : Type} (CONFIG_BLOCK_WRITE CONFIG_BLOCK_STATS : bool) (ops : block_device_ops (D := D)).

(** A fuzzing build; [force_gpt]; [CONFIG_PARTITION_DISK_EFI_GPT_COMPARE]; whether
    [calloc] has memory for that many bytes. *)
Context (fuzz force_gpt compare : bool) (calloc : Z -> bool).

Local Abbreviation block_device := (block_device (D := D)).
Local Abbreviation block_read := (block_read CONFIG_BLOCK_STATS ops).
Local Abbreviation block_write := (block_write CONFIG_BLOCK_WRITE CONFIG_BLOCK_STATS ops).

Definition last_lba (blk : block_device) : Z := u64 (num_blocks blk - 1).

(** ** Reading *)

Definition alloc_read_gpt_entries (blk : block_device) (gpt : list byte) : option (list byte) * block_device :=
  let count := compute_partitions_entries_size gpt in
  if count =? 0 then (None, blk)
  else if negb (calloc (blockdevice_round_block_nbytes blk count)) then (None, blk)
  else
    let '(ret, pte, blk) := block_read blk (h_partition_entry_lba gpt) (blockdevice_round_nblocks blk count) in
    (if negb (ret =? 0) then None else Some pte, blk).

Definition alloc_read_gpt_header (blk : block_device) (lba : Z) : option (list byte) * block_device :=
  if negb (calloc (BLOCKSIZE blk)) then (None, blk)
  else
    let '(ret, gpt, blk) := block_read blk lba 1 in
    (if negb (ret =? 0) then None else Some gpt, blk).

Definition crc_mismatch (crc origcrc : Z) : bool :=
  negb (crc =? origcrc) && negb (FormatRaw.fuzz_insecure_checksum_accepted fuzz crc origcrc).

(** The checks of a header that was read from [lba]. *)
Definition header_valid (blk : block_device) (lba : Z) (gpt : list byte) : option bool :=
  if negb (h_signature gpt =? GPT_HEADER_SIGNATURE) then Some false
  else if (h_header_size gpt <? sizeof_gpt_header) || (BLOCKSIZE blk <? h_header_size gpt) then Some false
  else
    crc <-! efi_crc32 (put_le gpt 16 4 0) (h_header_size gpt);;
    if crc_mismatch crc (h_header_crc32 gpt) then Some false
    else if negb (h_my_lba gpt =? lba) then Some false
    else if last_lba blk <? h_first_usable_lba gpt then Some false
    else if last_lba blk <? h_last_usable_lba gpt then Some false
    else Some (h_sizeof_partition_entry gpt =? sizeof_gpt_entry).

(** The header and the entries of a valid copy. *)
Definition is_gpt_valid (blk : block_device) (lba : Z) : option (option (list byte * list byte)) * block_device :=
  match alloc_read_gpt_header blk lba with
  | (None, blk) => (Some None, blk)
  | (Some gpt, blk) =>
      match header_valid blk lba gpt with
      | None => (None, blk)
      | Some false => (Some None, blk)
      | Some true =>
          match alloc_read_gpt_entries blk gpt with
          | (None, blk) => (Some None, blk)
          | (Some ptes, blk) =>
              let count := compute_partitions_entries_size gpt in
              if count =? 0 then (Some None, blk)
              else
                (crc <-! efi_crc32 ptes count;;
                 Some (if crc_mismatch crc (h_partition_entry_array_crc32 gpt) then None else Some (gpt, ptes)), blk)
          end
      end
  end.

(** Whether the two headers disagree, which asks for a refresh of the table. *)
Definition compare_gpts (pgpt agpt : list byte) (lastlba : Z) : bool :=
  negb (h_my_lba pgpt =? h_alternate_lba agpt) || negb (h_alternate_lba pgpt =? h_my_lba agpt) ||
  negb (h_first_usable_lba pgpt =? h_first_usable_lba agpt) || negb (h_last_usable_lba pgpt =? h_last_usable_lba agpt) ||
  negb (bool_decide (h_disk_guid pgpt = h_disk_guid agpt)) ||
  negb (h_num_partition_entries pgpt =? h_num_partition_entries agpt) ||
  negb (h_sizeof_partition_entry pgpt =? h_sizeof_partition_entry agpt) ||
  crc_mismatch (h_partition_entry_array_crc32 pgpt) (h_partition_entry_array_crc32 agpt) ||
  negb (h_alternate_lba pgpt =? lastlba) || negb (h_my_lba agpt =? lastlba).

(** The copy that is used, which copies are good, and whether a refresh is asked for. *)
Definition find_valid_gpt (blk : block_device) (buf : list byte)
  : option (option (list byte * list byte * bool * bool * bool)) * block_device :=
  if force_gpt && negb (bool_decide (file_detect_partition_table buf (2 * BLOCKSIZE blk) (BLOCKSIZE blk) = filetype_gpt))
  then (Some None, blk)
  else
    match is_gpt_valid blk GPT_PRIMARY_PARTITION_TABLE_LBA with
    | (None, blk) => (None, blk)
    | (Some p, blk) =>
        let '(a, blk) := match p with
                         | Some (pgpt, _) => is_gpt_valid blk (h_alternate_lba pgpt)
                         | None => (Some None, blk)
                         end in
        match a with
        | None => (None, blk)
        | Some a =>
            let '(a, blk) := match a with
                             | None => if force_gpt then is_gpt_valid blk (last_lba blk) else (Some None, blk)
                             | Some _ => (Some a, blk)
                             end in
            match a with
            | None => (None, blk)
            | Some a =>
                let refresh := match p, a with
                               | Some (pgpt, _), Some (agpt, _) => compare && compare_gpts pgpt agpt (last_lba blk)
                               | _, _ => false
                               end in
                (Some match p, a with
                      | Some (g, e), Some _ => Some (g, e, true, true, refresh)
                      | Some (g, e), None => Some (g, e, true, false, refresh)
                      | None, Some (g, e) => Some (g, e, false, true, refresh)
                      | None, None => None
                      end, blk)
            end
        end
    end.

(** The partition of entry [i]. *)
Definition entry_partition (e : list byte) (i : nat) : efi_partition :=
  EfiPart (Partition (part_set_efi_name e) (uuid_string (e_unique_guid e)) (e_starting_lba e)
    (u64 (e_ending_lba e - e_starting_lba e + 1)) (e_type_guid e) (Z.of_nat i) (extract_flags e)
    (Z.shiftr (e_attributes e) 48)) (Some i).

Fixpoint entries_loop (n i : nat) (ptes : list byte) (lastlba : Z) : option (list efi_partition) :=
  match n with
  | O => Some []
  | S n =>
      e <-! entry_at ptes i;;
      rest <-! entries_loop n (S i) ptes lastlba;;
      Some (if negb (is_pte_valid e lastlba) then rest
            else if MAX_PARTITION <=? Z.of_nat i then rest
            else entry_partition e i :: rest)
  end.

Definition efi_partition_parse (buf : list byte) (blk : block_device) : option (option efi_partition_desc) * block_device :=
  match find_valid_gpt blk buf with
  | (None, blk) => (None, blk)
  | (Some None, blk) => (Some None, blk)
  | (Some (Some (g, e, p, a, _)), blk) =>
      let nb_part := s32 (h_num_partition_entries g) in
      (l <-! entries_loop (Z.to_nat nb_part) 0 e (last_lba blk);; Some (Some (Epd g e p a l)), blk)
  end.

(** ** Changing a table *)

(** 16 bytes of noise made a random GUID. *)
Definition generate_random_guid (noise : list byte) : list byte :=
  let g := write_at noise 7 [byte_of (Z.lor (Z.land (get_u8 noise 7) 0x0f) 0x40)] in
  write_at g 8 [byte_of (Z.lor (Z.land (get_u8 g 8) 0x3f) 0x80)].

Definition num_partition_entries : Z := 128.
Definition gpt_size : Z := 32.

Definition efi_partition_create_table (first_partition_offset : Z) (blk : block_device) (noise : list byte) : efi_partition_desc :=
  let first_usable_lba := u32 (partition_first_usable_lba first_partition_offset blk) in
  let g := replicate (Z.to_nat (BLOCKSIZE blk)) Init.Byte.x00 in
  let g := put_le g 0 8 GPT_HEADER_SIGNATURE in
  let g := put_le g 8 4 0x100 in
  let g := put_le g 12 4 sizeof_gpt_header in
  let g := put_le g 24 8 1 in
  let g := put_le g 32 8 (last_lba blk) in
  let g := put_le g 40 8 first_usable_lba in
  let g := put_le g 48 8 (u64 (last_lba blk - (gpt_size + 2))) in
  let g := write_at g 56 (generate_random_guid noise) in
  let g := put_le g 72 8 (u32 (first_usable_lba - gpt_size)) in
  let g := put_le g 80 4 num_partition_entries in
  let g := put_le g 84 4 sizeof_gpt_entry in
  Epd g (replicate (Z.to_nat (num_partition_entries * sizeof_gpt_entry)) Init.Byte.x00) false false [].

Definition fs_type_to_guid (fstype : string) : option (list byte) :=
  if bool_decide (fstype = "ext2"%string) then Some PARTITION_LINUX_DATA_GUID
  else if bool_decide (fstype = "ext3"%string) then Some PARTITION_LINUX_DATA_GUID
  else if bool_decide (fstype = "ext4"%string) then Some PARTITION_LINUX_DATA_GUID
  else if bool_decide (fstype = "fat16"%string) then Some PARTITION_BASIC_DATA_GUID
  else if bool_decide (fstype = "fat32"%string) then Some PARTITION_BASIC_DATA_GUID
  else if bool_decide (fstype = "bbenv"%string) then Some PARTITION_BAREBOX_ENVIRONMENT_GUID
  else if bool_decide (fstype = "barebox-state"%string) then Some BAREBOX_STATE_PARTITION_GUID
  else None.

(** The name of 36 characters of two bytes, padded with zeroes. *)
Definition part_get_efi_name (src : list byte) : list byte :=
  flat_map (fun i => le_bytes 2 (get_u8 src i)) (seq 0 GPT_PARTNAME_MAX_SIZE).

(** The first entry that is not in use; [n] entries are left. *)
Fixpoint free_entry (n i : nat) (ptes : list byte) (lastlba : Z) : option (option nat) :=
  match n with
  | O => Some None
  | S n =>
      e <-! entry_at ptes i;;
      if negb (is_pte_valid e lastlba) then Some (Some i) else free_entry n (S i) ptes lastlba
  end.

(** [&epd->ptes[i]] after the new values were stored; the attributes stay. *)
Definition store_pte (ptes : list byte) (i : nat) (guid unique : list byte) (start_lba end_lba : Z) (nm : list byte) : list byte :=
  let o := (128 * i)%nat in
  let ptes := write_at ptes o guid in
  let ptes := write_at ptes (o + 16) unique in
  let ptes := put_le ptes (o + 32) 8 start_lba in
  let ptes := put_le ptes (o + 40) 8 end_lba in
  write_at ptes (o + 56) (part_get_efi_name nm).

Definition efi_partition_mkpart (blk : block_device) (noise : list byte) (epd : efi_partition_desc) (name_ fs_type : string)
    (start_lba end_lba : Z) : option (Z * efi_partition_desc) :=
  let num_parts := s32 (h_num_partition_entries (gpt epd)) in
  if start_lba <? 34 then Some (- EINVAL, epd)
  else if u64 (last_lba blk - 33) <=? end_lba then Some (- EINVAL, epd)
  else
    free <-! (if num_parts <? 0 then Some (Some 0%nat) else free_entry (Z.to_nat num_parts) 0 (ptes epd) (last_lba blk));;
    match free with
    | None => Some (- ENOSPC, epd)
    | Some i =>
        match fs_type_to_guid fs_type with
        | None => Some (- EINVAL, epd)
        | Some guid =>
            let ptes' := store_pte (ptes epd) i guid (generate_random_guid noise) start_lba end_lba (String.list_byte_of_string name_) in
            e <-! entry_at ptes' i;;
            let p := Partition (part_set_efi_name e) [] start_lba (u64 (end_lba - start_lba + 1)) guid (Z.of_nat i) 0 0 in
            Some (0, Epd (gpt epd) ptes' (good_pgpt epd) (good_agpt epd) (eparts epd ++ [EfiPart p None]))
        end
    end.

(** The list node that [rmpart] gets is one of the table; clearing an entry through a
    null pointer is [None]. *)
Definition efi_partition_rmpart (epd : efi_partition_desc) (i : nat) : option (Z * efi_partition_desc) :=
  ep <-! eparts epd !! i;;
  k <-! pte ep;;
  Some (0, Epd (gpt epd) (write_at (ptes epd) (128 * k) (replicate 128 Init.Byte.x00)) (good_pgpt epd) (good_agpt epd)
             (delete i (eparts epd))).

#[export] Instance efi_parser : PartitionParser (D := D) efi_partition_desc (list byte) := {
  partitions epd := map epart (eparts epd);
  mkpart := efi_partition_mkpart;
  rmpart := efi_partition_rmpart
}.

(** ** Writing *)

(** The kinds of table that have a parser, and [random32]. *)
Context (have : list filetype) (random32 : Z).

Definition efi_protective_mbr (blk : block_device) : Z * block_device :=
  if negb (bool_decide (filetype_mbr ∈ have)) then (- ENOSYS, blk)
  else
    let pdesc := DosPart.dos_partition_create_table random32 in
    let '(ret, pdesc) := DosPart.dos_partition_mkpart pdesc "primary" "0xee" 1 (last_lba blk) in
    if negb (ret =? 0) then (ret, blk)
    else DosPart.dos_partition_write CONFIG_BLOCK_WRITE CONFIG_BLOCK_STATS ops pdesc blk.

(** The block of the entries of the primary copy. *)
Definition primary_entry_lba (epd : efi_partition_desc) : res Z :=
  if good_pgpt epd then Ok (h_partition_entry_lba (gpt epd))
  else if h_first_usable_lba (gpt epd) <? 32 + 1 + 1 then Err (- EINVAL)
  else Ok (h_first_usable_lba (gpt epd) - 32).

(** The header of a copy, with its checksums. *)
Definition copy_header (epd : efi_partition_desc) (my_lba alternate_lba partition_entry_lba count : Z) : option (list byte) :=
  let g := put_le (gpt epd) 32 8 alternate_lba in
  let g := put_le g 24 8 my_lba in
  let g := put_le g 72 8 partition_entry_lba in
  ptescrc <-! efi_crc32 (ptes epd) count;;
  let g := put_le g 88 4 ptescrc in
  let g := put_le g 16 4 0 in
  crc <-! efi_crc32 g (h_header_size g);;
  Some (put_le g 16 4 crc).

Definition __efi_partition_write (epd : efi_partition_desc) (primary : bool) (blk : block_device) : option (Z * block_device) :=
  let count := u32 (h_num_partition_entries (gpt epd) * h_sizeof_partition_entry (gpt epd)) in
  let size_ := u32 (blockdevice_round_nblocks blk count) in
  match (if primary then
           match primary_entry_lba epd with
           | Err ret => Err ret
           | Ok lba => Ok (1, last_lba blk, lba)
           end
         else Ok (last_lba blk, 1, u64 (last_lba blk - 32))) with
  | Err ret => Some (ret, blk)
  | Ok (my_lba, alternate_lba, partition_entry_lba) =>
      g <-! copy_header epd my_lba alternate_lba partition_entry_lba count;;
      let '(ret, blk) := block_write blk g my_lba 1 in
      if negb (ret =? 0) then Some (ret, blk)
      else if Z.of_nat (length (ptes epd)) <? size_ * BLOCKSIZE blk then None
      else Some (block_write blk (ptes epd) partition_entry_lba size_)
  end.

(** The copy that was bad is written first. *)
Definition efi_partition_write (epd : efi_partition_desc) (blk : block_device) : option (Z * block_device) :=
  if negb (h_num_partition_entries (gpt epd) =? 128) then Some (- EINVAL, blk)
  else
    let '(ret, blk) := efi_protective_mbr blk in
    if negb (ret =? 0) then Some (ret, blk)
    else
      r <-! __efi_partition_write epd (negb (good_pgpt epd)) blk;;
      let '(ret, blk) := r in
      if negb (ret =? 0) then Some (ret, blk)
      else __efi_partition_write epd (good_pgpt epd) blk.

(** ** Any kind of table (common/partitions.c) *)

Inductive partition_desc := dos_desc (pd : DosPart.dos_partition_desc) | efi_desc (pd : efi_partition_desc).

Definition partition_table_new (first_partition_offset : Z) (noise : list byte) (blk : block_device) (type : string) : res partition_desc :=
  if bool_decide (type = "gpt"%string /\ filetype_gpt ∈ have)
  then Ok (efi_desc (efi_partition_create_table first_partition_offset blk noise))
  else if bool_decide (type = "msdos"%string /\ filetype_mbr ∈ have)
  then Ok (dos_desc (DosPart.dos_partition_create_table random32))
  else Err (- ENOSYS).

Definition partition_table_read (blk : block_device) : option (option partition_desc) * block_device :=
  let '(ret, buf, blk) := block_read blk 0 2 in
  if negb (ret =? 0) then (Some None, blk)
  else
    match partition_parser_get_by_filetype have buf (BLOCKSIZE blk) with
    | Some filetype_gpt =>
        match efi_partition_parse buf blk with
        | (None, blk) => (None, blk)
        | (Some r, blk) => (Some (option_map efi_desc r), blk)
        end
    | Some filetype_mbr =>
        let '(pd, blk) := DosPart.dos_partition_parse CONFIG_BLOCK_STATS ops buf blk in (Some (Some (dos_desc pd)), blk)
    | _ => (Some None, blk)
    end.

Definition partition_table_write (pdesc : partition_desc) (blk : block_device) : option (Z * block_device) :=
  match pdesc with
  | dos_desc pd => Some (DosPart.dos_partition_write CONFIG_BLOCK_WRITE CONFIG_BLOCK_STATS ops pd blk)
  | efi_desc epd => efi_partition_write epd blk
  end.

(** A refresh of the table of one disk ([gpt_refresh_one]), between opening and closing
    its device. *)
Definition gpt_refresh_one (global_gpt_refresh : bool) (blk : block_device) : option (Z * block_device) :=
  if negb global_gpt_refresh then Some (0, blk)
  else
    match partition_table_read blk with
    | (None, _) => None
    | (Some None, blk) => Some (- EINVAL, blk)
    | (Some (Some pdesc), blk) => partition_table_write pdesc blk
    end.

End Gpt.

(** ** Fields of a buffer *)

Lemma length_put_le b o n v : length (put_le b o n v) = length b.
Proof. apply length_write_at. Qed.

Lemma get_put_same b o n v : (o + n <= length b)%nat -> 0 <= v < 2 ^ (8 * Z.of_nat n) -> get_le (put_le b o n v) o n = v.
Proof.
  intros H Hv. unfold get_le, put_le. pose proof (read_write_at_same b o (le_bytes n v)) as E. rewrite length_le_bytes in E.
  rewrite E by done. rewrite le_val_bytes. by apply Z.mod_small.
Qed.

Lemma get_put_other b o n v o' n' :
  (o + n <= length b)%nat -> (o' + n' <= o \/ o + n <= o')%nat -> get_le (put_le b o n v) o' n' = get_le b o' n'.
Proof.
  intros H [Hb|Ha]; unfold get_le, put_le; f_equal.
  - apply read_write_at_before; rewrite ?length_le_bytes; lia.
  - apply read_write_at_after; rewrite ?length_le_bytes; lia.
Qed.

Lemma get_le_range b o n : 0 <= get_le b o n < 2 ^ (8 * Z.of_nat n).
Proof.
  unfold get_le. split; [apply le_val_nonneg|]. eapply Z.lt_le_trans; [apply le_val_bound|]. apply Z.pow_le_mono_r; [lia|].
  unfold read_at. rewrite length_take. lia.
Qed.

Lemma put_put_same b o n v w : (o + n <= length b)%nat -> put_le (put_le b o n v) o n w = put_le b o n w.
Proof.
  intros H. unfold put_le. rewrite !(write_at_inside _ o) by (rewrite ?length_write_at, ?length_le_bytes; lia).
  rewrite !length_le_bytes. f_equal; [|f_equal].
  - rewrite take_app_le by (rewrite length_take; lia). rewrite take_take. f_equal. lia.
  - rewrite drop_app_ge by (rewrite length_take; lia). rewrite length_take, Nat.min_l by lia.
    rewrite drop_app_ge by (rewrite length_le_bytes; lia). rewrite length_le_bytes, drop_drop. f_equal. lia.
Qed.

Lemma read_put_other b o n v o' n' :
  (o + n <= length b)%nat -> (o' + n' <= o \/ o + n <= o')%nat -> read_at (put_le b o n v) o' n' = read_at b o' n'.
Proof.
  intros H [Hb|Ha]; unfold put_le.
  - apply read_write_at_before; rewrite ?length_le_bytes; lia.
  - apply read_write_at_after; rewrite ?length_le_bytes; lia.
Qed.

(** The value of a field after others were stored. *)
Ltac field :=
  unfold h_signature, h_header_size, h_header_crc32, h_my_lba, h_alternate_lba, h_first_usable_lba, h_last_usable_lba, h_disk_guid,
    h_partition_entry_lba, h_num_partition_entries, h_sizeof_partition_entry, h_partition_entry_array_crc32;
  repeat first [ rewrite get_put_other by (rewrite ?length_put_le, ?length_write_at, ?length_put_le; lia)
               | rewrite read_put_other by (rewrite ?length_put_le, ?length_write_at, ?length_put_le; lia)
               | rewrite get_put_same by (rewrite ?length_put_le, ?length_write_at, ?length_put_le; lia) ].

(** A block that is written next to a range does not change it. *)
Lemma read_write_apart l off data o n :
  (off + length data <= length l)%nat -> (o + n <= off \/ off + length data <= o)%nat ->
  read_at (write_at l off data) o n = read_at l o n.
Proof. intros H [?|?]; [by apply read_write_at_before|by apply read_write_at_after]. Qed.

(** ** The partitions of the entries *)

Definition entry (ptes : list byte) (j : nat) : list byte := read_at ptes (128 * j) 128.

Definition scan_one (ptes : list byte) (lastlba : Z) (j : nat) : option efi_partition :=
  if is_pte_valid (entry ptes j) lastlba && (Z.of_nat j <? MAX_PARTITION) then Some (entry_partition (entry ptes j) j) else None.

Definition scan (n i : nat) (ptes : list byte) (lastlba : Z) : list efi_partition := omap (scan_one ptes lastlba) (seq i n).

Lemma entry_at_in ptes i : (128 * i + 128 <= length ptes)%nat -> entry_at ptes i = Some (entry ptes i).
Proof. intros H. unfold entry_at. apply Nat.leb_le in H. by rewrite H. Qed.

Lemma entries_loop_scan n : forall i ptes lastlba,
  (128 * (i + n) <= length ptes)%nat -> entries_loop n i ptes lastlba = Some (scan n i ptes lastlba).
Proof.
  induction n as [|n IH]; intros i ptes lastlba H; [done|]. cbn [entries_loop]. rewrite entry_at_in by lia. rewrite IH by lia.
  unfold scan. cbn [seq omap list_omap].
  assert (E1 : scan_one ptes lastlba i = if is_pte_valid (entry ptes i) lastlba && (Z.of_nat i <? MAX_PARTITION)
    then Some (entry_partition (entry ptes i) i) else None) by done.
  rewrite E1. destruct (is_pte_valid _ _); cbn [negb andb]; [|done].
  destruct (MAX_PARTITION <=? Z.of_nat i) eqn:E, (Z.of_nat i <? MAX_PARTITION) eqn:E2; bool_prop; (done || lia).
Qed.

(** A partition that was read is on the disk. *)
Lemma scan_one_ok ptes nb j ep :
  0 < nb < 2 ^ 63 -> scan_one ptes (nb - 1) j = Some ep ->
  on_disk nb (epart ep) /\ num (epart ep) = Z.of_nat j /\ Z.of_nat j < MAX_PARTITION /\ pte ep = Some j.
Proof.
  intros Hnb. unfold scan_one. destruct (is_pte_valid _ _) eqn:Ev; cbn [andb]; [|done]. destruct (_ <? _) eqn:Ej; [|done].
  intros [= <-]. bool_prop. unfold is_pte_valid in Ev. bool_prop. unfold on_disk. cbn [epart entry_partition first_sec size num pte].
  pose proof (get_le_range (entry ptes j) 32 8) as Hs. pose proof (get_le_range (entry ptes j) 40 8) as He.
  fold (e_starting_lba (entry ptes j)) in Hs. fold (e_ending_lba (entry ptes j)) in He.
  rewrite u64_small by lia. split_and!; (done || lia).
Qed.

Lemma scan_elem n i ptes lastlba ep :
  ep ∈ scan n i ptes lastlba <-> exists j, (i <= j < i + n)%nat /\ scan_one ptes lastlba j = Some ep.
Proof.
  unfold scan. rewrite list_elem_of_omap. split.
  - intros (j & Hj & E). apply elem_of_seq in Hj. eauto.
  - intros (j & Hj & E). exists j. split; [by apply elem_of_seq|done].
Qed.

Lemma scan_ok n ptes nb :
  0 < nb < 2 ^ 63 -> Forall (fun ep => on_disk nb (epart ep) /\ 0 <= num (epart ep) < MAX_PARTITION /\
    pte ep = Some (Z.to_nat (num (epart ep)))) (scan n 0 ptes (nb - 1)).
Proof.
  intros Hnb. apply Forall_forall. intros ep (j & _ & E)%scan_elem. apply (scan_one_ok _ _ _ _ Hnb) in E as (E1 & -> & E3 & E4).
  split_and!; try done; [lia|]. by rewrite Nat2Z.id.
Qed.

(** The partitions have different numbers. *)
Lemma scan_nums n : forall i ptes nb, 0 < nb < 2 ^ 63 -> NoDup (map (fun ep => num (epart ep)) (scan n i ptes (nb - 1))).
Proof.
  induction n as [|n IH]; intros i ptes nb Hnb; [constructor|]. unfold scan. cbn [seq omap list_omap]. fold (scan n (S i) ptes (nb - 1)).
  destruct (scan_one _ _ i) as [ep|] eqn:E; [|by apply IH]. cbn [map]. constructor; [|by apply IH].
  apply (scan_one_ok _ _ _ _ Hnb) in E as (_ & -> & _). rewrite list_elem_of_fmap. intros (ep' & Hn & Hin).
  apply scan_elem in Hin as (j & Hj & E). apply (scan_one_ok _ _ _ _ Hnb) in E as (_ & E & _). lia.
Qed.

(** One entry that becomes valid. *)
Lemma omap_one {A} (f g : nat -> option A) k x n : forall i,
  (forall j, j <> k -> f j = g j) -> f k = None -> g k = Some x -> (i <= k < i + n)%nat ->
  omap g (seq i n) ≡ₚ x :: omap f (seq i n).
Proof.
  induction n as [|n IH]; intros i Hj Hf Hg Hk; [lia|]. cbn [seq omap list_omap]. destruct (decide (i = k)) as [->|Hne].
  - rewrite Hf, Hg. constructor. assert (E : omap g (seq (S k) n) = omap f (seq (S k) n)); [|by rewrite E].
    apply list_omap_ext, Forall2_same_length_lookup_2; [done|].
    intros a p q E1 E2. rewrite E1 in E2. injection E2 as <-. apply lookup_seq in E1 as [-> _]. symmetry. apply Hj. lia.
  - rewrite <- (Hj i Hne). pose proof (IH (S i) Hj Hf Hg ltac:(lia)) as IH'. destruct (f i); rewrite IH'; [constructor|done].
Qed.

(** ** Changing entries *)

Lemma entry_field ptes k o n : (o + n <= 128)%nat -> read_at (entry ptes k) o n = read_at ptes (128 * k + o) n.
Proof. intros H. unfold entry. by apply read_at_read_at. Qed.

Lemma length_generate_random_guid noise : length (generate_random_guid noise) = length noise.
Proof. unfold generate_random_guid. by rewrite !length_write_at. Qed.

Lemma length_part_get_efi_name nm : length (part_get_efi_name nm) = 72%nat.
Proof. done. Qed.

Lemma fs_type_guid_ok fs g : fs_type_to_guid fs = Some g -> length g = 16%nat /\ g <> guid_null.
Proof.
  unfold fs_type_to_guid. repeat (destruct (bool_decide _); [intros [= <-]; split; [done|vm_compute; discriminate]|]). done.
Qed.

Lemma length_store_pte ptes k guid unique s e nm : length (store_pte ptes k guid unique s e nm) = length ptes.
Proof. unfold store_pte, put_le. by rewrite !length_write_at. Qed.

(** Other entries stay as they are. *)
Lemma store_pte_other ptes k guid unique s e nm j :
  length guid = 16%nat -> length unique = 16%nat -> (128 * k + 128 <= length ptes)%nat -> j <> k ->
  entry (store_pte ptes k guid unique s e nm) j = entry ptes j.
Proof.
  intros H1 H2 Hk Hj. unfold entry, store_pte, put_le.
  rewrite !read_write_apart; rewrite ?length_write_at, ?length_le_bytes, ?length_part_get_efi_name, ?H1, ?H2; lia || done.
Qed.

(** The fields of the entry that was stored. *)
Lemma store_pte_fields ptes k guid unique s e nm :
  length guid = 16%nat -> length unique = 16%nat -> (128 * k + 128 <= length ptes)%nat -> 0 <= s < 2 ^ 64 -> 0 <= e < 2 ^ 64 ->
  let n := entry (store_pte ptes k guid unique s e nm) k in
  e_type_guid n = guid /\ e_starting_lba n = s /\ e_ending_lba n = e.
Proof.
  intros H1 H2 Hk Hs He n. subst n. unfold e_type_guid, e_starting_lba, e_ending_lba, get_le. rewrite !entry_field by lia.
  unfold store_pte, put_le. split_and!.
  - rewrite Nat.add_0_r. do 4 (rewrite read_write_apart by (rewrite ?length_write_at, ?length_le_bytes, ?length_part_get_efi_name, ?H1, ?H2; lia)).
    pose proof (read_write_at_same ptes (128 * k) guid) as E. rewrite H1 in E. apply E. lia.
  - do 2 (rewrite read_write_apart by (rewrite ?length_write_at, ?length_le_bytes, ?length_part_get_efi_name, ?H1, ?H2; lia)).
    apply (get_put_same _ (128 * k + 32) 8); [rewrite !length_write_at; lia|done].
  - do 1 (rewrite read_write_apart by (rewrite ?length_write_at, ?length_le_bytes, ?length_part_get_efi_name, ?H1, ?H2; lia)).
    apply (get_put_same _ (128 * k + 40) 8); [rewrite !length_write_at; lia|done].
Qed.

Lemma free_entry_ok n : forall i ptes lastlba,
  (128 * (i + n) <= length ptes)%nat ->
  exists r, free_entry n i ptes lastlba = Some r /\
    match r with
    | Some k => (i <= k < i + n)%nat /\ is_pte_valid (entry ptes k) lastlba = false
    | None => forall k, (i <= k < i + n)%nat -> is_pte_valid (entry ptes k) lastlba = true
    end.
Proof.
  induction n as [|n IH]; intros i ptes lastlba H; cbn [free_entry]; [exists None; split; [done|lia]|].
  rewrite entry_at_in by lia. destruct (is_pte_valid (entry ptes i) lastlba) eqn:E; cbn [negb].
  - destruct (IH (S i) ptes lastlba ltac:(lia)) as (r & -> & Hr). exists r. split; [done|]. destruct r as [k|].
    + destruct Hr. split; [lia|done].
    + intros k Hk. destruct (decide (k = i)) as [->|]; [done|]. apply Hr. lia.
  - exists (Some i). split; [done|]. split; [lia|done].
Qed.

Lemma clear_other ptes k j :
  (128 * k + 128 <= length ptes)%nat -> j <> k -> entry (write_at ptes (128 * k) (replicate 128 Init.Byte.x00)) j = entry ptes j.
Proof. intros Hk Hj. unfold entry. apply read_write_apart; rewrite length_replicate; lia. Qed.

Lemma clear_invalid ptes k lastlba :
  (128 * k + 128 <= length ptes)%nat -> is_pte_valid (entry (write_at ptes (128 * k) (replicate 128 Init.Byte.x00)) k) lastlba = false.
Proof.
  intros Hk. unfold is_pte_valid, e_type_guid, entry.
  pose proof (read_write_at_same ptes (128 * k) (replicate 128 Init.Byte.x00)) as E. rewrite length_replicate in E. rewrite E by lia.
  by rewrite bool_decide_eq_true_2 by done.
Qed.

(** What a partition is to its user, besides its random identifier. *)
Definition view (p : partition) : Z * Z * Z * list byte * list byte := (num p, first_sec p, size p, typeuuid p, name p).

Definition views (l : list efi_partition) : list (Z * Z * Z * list byte * list byte) := map (fun ep => view (epart ep)) l.

(** The list of partitions describes the entries; [pte] points to the own entry. *)
Record tracks (nb : Z) (epd : efi_partition_desc) : Prop := Tracks {
  tr_views : views (eparts epd) ≡ₚ views (scan 128 0 (ptes epd) (nb - 1));
  tr_pte : Forall (fun ep => match pte ep with Some k => num (epart ep) = Z.of_nat k | None => True end) (eparts epd)
}.

Lemma scan_step ptes ptes' lastlba k :
  (k < 128)%nat -> (forall j, j <> k -> entry ptes' j = entry ptes j) ->
  is_pte_valid (entry ptes k) lastlba = false -> is_pte_valid (entry ptes' k) lastlba = true ->
  views (scan 128 0 ptes' lastlba) ≡ₚ view (epart (entry_partition (entry ptes' k) k)) :: views (scan 128 0 ptes lastlba).
Proof.
  intros Hk Hj Hi Hv. change (view ?x :: views ?l) with (views (entry_partition (entry ptes' k) k :: l)). apply Permutation_map.
  apply (omap_one (scan_one ptes lastlba) (scan_one ptes' lastlba) k); [..|lia].
  - intros j Hne. unfold scan_one. by rewrite Hj.
  - unfold scan_one. by rewrite Hi.
  - unfold scan_one. rewrite Hv. by replace (Z.of_nat k <? MAX_PARTITION) with true by (unfold MAX_PARTITION; lia).
Qed.

Lemma elem_of_views x l : x ∈ views l <-> exists ep, x = view (epart ep) /\ ep ∈ l.
Proof. apply list_elem_of_fmap. Qed.

Lemma views_delete l i ep X Y :
  l !! i = Some ep -> views l ≡ₚ X -> X ≡ₚ view (epart ep) :: Y -> views (delete i l) ≡ₚ Y.
Proof.
  intros Hi HX HY. apply (Permutation_cons_inv (a := view (epart ep))). rewrite <- HY, <- HX. symmetry.
  exact (Permutation_map (fun ep => view (epart ep)) (delete_Permutation l i ep Hi)).
Qed.

Section Edit.

Context {D : Type} (nb : Z) (Hnb : 0 < nb < 2 ^ 54).

Local Abbreviation block_device := (block_device (D := D)).

(** The size of the table and the flags do not change. *)
Definition same_shape (epd epd' : efi_partition_desc) : Prop :=
  gpt epd' = gpt epd /\ length (ptes epd') = length (ptes epd) /\ good_pgpt epd' = good_pgpt epd /\ good_agpt epd' = good_agpt epd.

Lemma mkpart_tracks (blk : block_device) noise epd nm fs s e ret epd' :
  last_lba blk = nb - 1 -> h_num_partition_entries (gpt epd) = 128 -> (128 * 128 <= length (ptes epd))%nat -> length noise = 16%nat ->
  s <= e < nb -> tracks nb epd -> efi_partition_mkpart blk noise epd nm fs s e = Some (ret, epd') ->
  tracks nb epd' /\ same_shape epd epd'.
Proof.
  intros Hlast Hnum Hlen Hnoise Hse Ht. unfold efi_partition_mkpart. rewrite Hlast, Hnum. change (s32 128) with 128.
  destruct (s <? 34) eqn:E34; [by intros [= <- <-]|]. destruct (_ <=? e); [by intros [= <- <-]|]. bool_prop.
  cbn [Z.ltb Z.compare]. change (Z.to_nat 128) with 128%nat.
  destruct (free_entry_ok 128 0 (ptes epd) (nb - 1) ltac:(lia)) as (r & -> & Hr). destruct r as [k|]; [|by intros [= <- <-]].
  destruct (fs_type_to_guid fs) as [guid|] eqn:Eg; [|by intros [= <- <-]]. destruct Hr as [Hk Hinv].
  destruct (fs_type_guid_ok _ _ Eg) as [Lg Ng]. set (u := generate_random_guid noise).
  assert (Lu : length u = 16%nat) by (subst u; by rewrite length_generate_random_guid).
  set (ptes' := store_pte _ _ _ _ _ _ _). assert (Lp : length ptes' = length (ptes epd)) by apply length_store_pte.
  rewrite entry_at_in by lia. intros [= <- <-]. split; [|by split_and!].
  destruct (store_pte_fields (ptes epd) k guid u s e (String.list_byte_of_string nm) Lg Lu ltac:(lia) ltac:(lia) ltac:(lia)) as (F1 & F2 & F3).
  fold ptes' in F1, F2, F3. destruct Ht as [Hv Hp]. constructor; cbn [eparts ptes].
  - unfold views at 1. rewrite map_app. fold (views (eparts epd)). cbn [map epart]. rewrite Hv.
    rewrite (scan_step (ptes epd) ptes' (nb - 1) k); [|lia| |done|].
    + rewrite <- Permutation_cons_append. unfold view at 2, entry_partition. cbn [epart num first_sec size typeuuid name].
      rewrite F1, F2, F3. done.
    + intros j Hj. apply store_pte_other; (done || lia).
    + unfold is_pte_valid. rewrite F1, F2, F3, bool_decide_eq_false_2 by done. lia.
  - apply Forall_app. split; [done|]. by constructor.
Qed.

Lemma rmpart_tracks epd i ret epd' :
  (128 * 128 <= length (ptes epd))%nat -> tracks nb epd -> efi_partition_rmpart epd i = Some (ret, epd') -> tracks nb epd' /\ same_shape epd epd'.
Proof.
  intros Hlen [Hv Hp]. unfold efi_partition_rmpart. destruct (eparts epd !! i) as [ep|] eqn:Ei; [|done].
  destruct (pte ep) as [k|] eqn:Ek; [|done]. intros [= <- <-].
  assert (Hin : ep ∈ eparts epd) by (by eapply list_elem_of_lookup_2).
  assert (Hk : num (epart ep) = Z.of_nat k) by (rewrite Forall_forall in Hp; specialize (Hp ep Hin); by rewrite Ek in Hp).
  assert (Hx : view (epart ep) ∈ views (scan 128 0 (ptes epd) (nb - 1))) by (rewrite <- Hv; apply elem_of_views; eauto).
  apply elem_of_views in Hx as (ep2 & Ev & (j & Hj & Es)%scan_elem). pose proof Es as Eq.
  apply (scan_one_ok _ nb) in Eq as (_ & Enum & _); [|lia].
  assert (j = k) as -> by (injection Ev as Ev; lia). cbn in Hj.
  set (ptes' := write_at _ _ _). assert (Lp : length ptes' = length (ptes epd)) by apply length_write_at.
  assert (Hval : is_pte_valid (entry (ptes epd) k) (nb - 1) = true /\ ep2 = entry_partition (entry (ptes epd) k) k).
  { unfold scan_one in Es. destruct (is_pte_valid _ _); [|done]. destruct (_ <? _); [|done]. by injection Es as <-. }
  destruct Hval as [Hval ->]. split; [|by split_and!]. constructor; cbn [eparts ptes].
  - apply (views_delete _ i ep _ _ Ei Hv). rewrite Ev. apply scan_step; [lia| |apply clear_invalid; lia|done].
    intros j Hne. symmetry. apply clear_other; lia.
  - rewrite Forall_forall in *. intros x Hx. apply Hp. by eapply elem_of_delete.
Qed.

(** The random bytes that a new partition takes. *)
Definition edit_ok (e : edit (G := list byte)) : Prop := match e with Create noise _ _ _ _ => length noise = 16%nat | Remove _ => True end.

Lemma edits_tracks (off : Z) (blk : block_device) edits : forall epd rets epd',
  num_blocks blk = nb -> h_num_partition_entries (gpt epd) = 128 -> (128 * 128 <= length (ptes epd))%nat -> Forall edit_ok edits ->
  tracks nb epd -> edit_all off blk epd edits = Some (rets, epd') -> tracks nb epd' /\ same_shape epd epd'.
Proof.
  intros epd rets epd' Hb. assert (Hlast : last_lba blk = nb - 1) by (unfold last_lba; rewrite Hb; apply u64_small; lia).
  revert epd rets epd'. induction edits as [|e edits IH]; intros epd rets epd' Hnum Hlen Hok Ht; cbn [edit_all]; [by intros [= _ <-]|].
  apply Forall_cons in Hok as [He Hok].
  destruct (match e with Create _ _ _ _ _ => _ | Remove _ => _ end) as [[ret epd1]|] eqn:E; [|done].
  destruct (edit_all off blk epd1 edits) as [[rets1 epd2]|] eqn:E2; [|done]. intros [= _ <-].
  assert (H1 : tracks nb epd1 /\ same_shape epd epd1).
  { destruct e as [g nm fs a z|n].
    - unfold partition_create in E. rewrite Hb in E. destruct (z <? a) eqn:K1; [by injection E as _ <-|]. destruct (nb <=? z) eqn:K2; [by injection E as _ <-|].
      destruct (a <? _); [by injection E as _ <-|]. destruct (existsb _ _); [by injection E as _ <-|]. bool_prop.
      eapply mkpart_tracks; [done|done|done|exact He| |exact Ht|exact E]. lia.
    - unfold partition_remove in E. destruct (find_num _ _ _) as [i|]; [|by injection E as _ <-]. by eapply rmpart_tracks. }
  destruct H1 as [H1 (S1 & S2 & S3 & S4)].
  destruct (IH epd1 rets1 epd2 ltac:(by rewrite S1) ltac:(by rewrite S2) Hok H1 E2) as [H2 (T1 & T2 & T3 & T4)].
  split; [done|]. split_and!; congruence.
Qed.

Lemma mkpart_total (blk : block_device) noise epd nm fs s e :
  last_lba blk = nb - 1 -> h_num_partition_entries (gpt epd) = 128 -> (128 * 128 <= length (ptes epd))%nat ->
  efi_partition_mkpart blk noise epd nm fs s e <> None.
Proof.
  intros Hlast Hnum Hlen. unfold efi_partition_mkpart. rewrite Hlast, Hnum. change (s32 128) with 128.
  destruct (s <? 34); [done|]. destruct (_ <=? e); [done|]. cbn [Z.ltb Z.compare]. change (Z.to_nat 128) with 128%nat.
  destruct (free_entry_ok 128 0 (ptes epd) (nb - 1) ltac:(lia)) as (r & -> & Hr). destruct r as [k|]; [|done].
  destruct (fs_type_to_guid fs); [|done]. destruct Hr as [Hk _]. by rewrite entry_at_in by (rewrite length_store_pte; lia).
Qed.

Lemma find_num_elem l n : forall i k, find_num l n k = Some i -> exists j p, i = (k + j)%nat /\ l !! j = Some p /\ num p = n.
Proof.
  induction l as [|p l IH]; intros i k; cbn [find_num]; [done|]. destruct (num p =? n) eqn:E; bool_prop.
  - intros [= <-]. exists 0%nat, p. by rewrite Nat.add_0_r.
  - intros H. destruct (IH _ _ H) as (j & q & -> & Hq). exists (S j), q. split; [lia|done].
Qed.

(** A session has no result only when it removes a partition that has no entry yet. *)
Lemma edits_stop (off : Z) (blk : block_device) edits : forall epd,
  num_blocks blk = nb -> h_num_partition_entries (gpt epd) = 128 -> (128 * 128 <= length (ptes epd))%nat -> Forall edit_ok edits ->
  tracks nb epd -> edit_all off blk epd edits = None ->
  exists pre n post rets epd1 ep, edits = pre ++ Remove n :: post /\ edit_all off blk epd pre = Some (rets, epd1) /\
    ep ∈ eparts epd1 /\ num (epart ep) = n /\ pte ep = None.
Proof.
  intros epd Hb. assert (Hlast : last_lba blk = nb - 1) by (unfold last_lba; rewrite Hb; apply u64_small; lia).
  revert epd. induction edits as [|e edits IH]; intros epd Hnum Hlen Hok Ht; cbn [edit_all]; [done|].
  apply Forall_cons in Hok as [He Hok].
  destruct (match e with Create _ _ _ _ _ => _ | Remove _ => _ end) as [[ret epd1]|] eqn:E.
  - destruct (edits_tracks off blk [e] epd [ret] epd1 Hb Hnum Hlen) as [Ht1 (S1 & S2 & _)]; [by constructor|done|cbn [edit_all]; by rewrite E|].
    destruct (edit_all off blk epd1 edits) as [[rets1 epd2]|] eqn:E2; [done|]. intros _.
    destruct (IH epd1 ltac:(by rewrite S1) ltac:(by rewrite S2) Hok Ht1 E2) as (pre & n & post & rets & epd3 & ep & -> & Ep & H).
    exists (e :: pre), n, post, (ret :: rets), epd3, ep. split; [done|]. split; [|exact H]. cbn [edit_all]. by rewrite E, Ep.
  - intros _. destruct e as [g nm fs a z|n].
    + exfalso. revert E. unfold partition_create. repeat (destruct (_ : bool); [done|]). by apply mkpart_total.
    + unfold partition_remove in E. destruct (find_num _ _ _) as [i|] eqn:Ei; [|done].
      apply find_num_elem in Ei as (j & q & -> & Hq & Hn). cbn [partitions efi_parser] in Hq.
      change (map epart (eparts epd)) with (epart <$> eparts epd) in Hq. rewrite list_lookup_fmap in Hq.
      destruct (eparts epd !! j) as [ep|] eqn:Ej; [|done]. injection Hq as <-.
      cbn [rmpart efi_parser Nat.add] in E. unfold efi_partition_rmpart in E. rewrite Ej in E.
      exists [], n, edits, [], epd, ep. split_and!; [done|done|by eapply list_elem_of_lookup_2|done|]. by destruct (pte ep).
Qed.

End Edit.

Lemma scan_zero n N lastlba : (128 * n <= N)%nat -> scan n 0 (replicate N Init.Byte.x00) lastlba = [].
Proof.
  intros H. destruct (scan _ _ _ _) as [|ep l] eqn:E; [done|].
  assert (Hin : ep ∈ scan n 0 (replicate N Init.Byte.x00) lastlba) by (rewrite E; left).
  apply scan_elem in Hin as (j & Hj & Ej). unfold scan_one, is_pte_valid, e_type_guid in Ej. rewrite entry_field in Ej by lia.
  unfold read_at in Ej. rewrite drop_replicate, take_replicate, Nat.min_l in Ej by lia.
  by rewrite bool_decide_eq_true_2 in Ej by done.
Qed.

Lemma zero_tracks nb g a b : tracks nb (Epd g (replicate (Z.to_nat 16384) Init.Byte.x00) a b []).
Proof. constructor; cbn [eparts ptes]; [|constructor]. rewrite scan_zero; [done|lia]. Qed.

(** ** Reading any disk *)

Section Disk.

Context {D : Type} (stats : bool) (ops : block_device_ops (D := D)) (bits nb : Z) `{Hio : !BlockIo true stats ops bits nb}.
Context (Hbits : bits < 31).
Context (fuzz force_gpt compare : bool) (calloc : Z -> bool).

Local Abbreviation block_device := (block_device (D := D)).
Local Abbreviation bs := (2 ^ bits).
Local Abbreviation bsn := (Z.to_nat (2 ^ bits)).

Lemma nb_range : 0 < nb < 2 ^ 54.
Proof. destruct io_blocks as [? H]. pose proof io_bs. split; [lia|]. nia. Qed.

Lemma le_blocks a b : a <= b -> a * bs <= b * bs.
Proof. intros H. pose proof io_bs. apply Z.mul_le_mono_nonneg_r; lia. Qed.

Lemma apart_blocks a n b m : a + n <= b \/ b + m <= a -> a * bs + n * bs <= b * bs \/ (b + m) * bs <= a * bs.
Proof. intros [H|H]; [left|right]; apply le_blocks in H; lia. Qed.

Lemma last_lba_eq (blk : block_device) c : contents blk c -> last_lba blk = nb - 1.
Proof. intros Hc. destruct (io_device _ _ Hc) as (_ & E & _). unfold last_lba. rewrite E. pose proof nb_range. rewrite u64_small; lia. Qed.

(** The number of blocks that hold so many bytes. *)
Definition nblocks (count : Z) : Z := (count - 1) / bs + 1.

Lemma round_nblocks (blk : block_device) c count :
  contents blk c -> 0 < count < 2 ^ 32 -> blockdevice_round_nblocks blk count = nblocks count.
Proof.
  intros Hc Hn. destruct (io_device _ _ Hc) as (E & _). pose proof io_bs. pose proof io_bits.
  unfold blockdevice_round_nblocks, nblocks. replace (count =? 0) with false by lia. rewrite E, (u64_small (count - 1)) by lia.
  rewrite Z.shiftr_div_pow2 by lia. pose proof (Z.div_pos (count - 1) bs ltac:(lia) ltac:(lia)).
  pose proof (Z.div_le_upper_bound (count - 1) bs (2 ^ 32) ltac:(lia) ltac:(nia)). apply u64_small. lia.
Qed.

Lemma nblocks_bounds count : 0 < count -> 0 < nblocks count /\ count <= nblocks count * bs < count + bs.
Proof.
  intros Hn. pose proof io_bs. unfold nblocks. pose proof (Z.div_pos (count - 1) bs ltac:(lia) ltac:(lia)).
  pose proof (Z.div_mod (count - 1) bs ltac:(lia)). pose proof (Z.mod_pos_bound (count - 1) bs ltac:(lia)). split; [lia|]. nia.
Qed.

Lemma entries_size_range g : 0 <= compute_partitions_entries_size g < 2 ^ 32.
Proof.
  unfold compute_partitions_entries_size. pose proof (get_le_range g 80 4). pose proof (get_le_range g 84 4).
  unfold h_num_partition_entries, h_sizeof_partition_entry. destruct (_ <=? _) eqn:E; bool_prop; [lia|nia].
Qed.

Lemma read_header_ok blk c lba :
  contents blk c -> exists r blk', alloc_read_gpt_header stats ops calloc blk lba = (r, blk') /\ contents blk' c /\
    forall g, r = Some g -> length g = bsn.
Proof.
  intros Hc. unfold alloc_read_gpt_header. destruct (calloc _); cbn [negb]; [|by eexists _, _; split_and!].
  pose proof (DosPart.bs_small stats ops bits nb Hbits). destruct (io_device _ _ Hc) as (_ & _ & Hl).
  destruct (io_read blk c lba 1 Hc) as (ret & d & blk' & E & Hc' & _ & _ & Hd & _); [lia..|]. rewrite E.
  eexists _, _. split_and!; [done|done|]. destruct (ret =? 0) eqn:E0; cbn [negb]; [|done]. bool_prop. intros g [= <-].
  destruct (Hd E0) as (H1 & H2 & ->). rewrite Z.mul_1_l in *. rewrite length_read_at by lia. done.
Qed.

Lemma read_entries_ok blk c g :
  contents blk c -> exists r blk', alloc_read_gpt_entries stats ops calloc blk g = (r, blk') /\ contents blk' c /\
    forall e, r = Some e -> compute_partitions_entries_size g <= Z.of_nat (length e) /\ compute_partitions_entries_size g <> 0.
Proof.
  intros Hc. unfold alloc_read_gpt_entries. pose proof (entries_size_range g) as Hr. destruct (_ =? 0) eqn:E0; [by eexists _, _; split_and!|].
  bool_prop. destruct (calloc _); cbn [negb]; [|by eexists _, _; split_and!]. rewrite (round_nblocks blk c) by (done || lia).
  destruct (nblocks_bounds (compute_partitions_entries_size g) ltac:(lia)) as [Hn1 Hn2].
  pose proof (DosPart.bs_small stats ops bits nb Hbits). destruct (io_device _ _ Hc) as (_ & _ & Hl).
  destruct (io_read blk c (h_partition_entry_lba g) _ Hc Hn1 ltac:(lia)) as (ret & d & blk' & E & Hc' & _ & _ & Hd & _). rewrite E.
  eexists _, _. split_and!; [done|done|]. destruct (ret =? 0) eqn:E1; cbn [negb]; [|done]. bool_prop. intros e [= <-].
  destruct (Hd E1) as (H1 & H2 & ->). rewrite length_read_at by lia. split; [lia|done].
Qed.

Lemma efi_crc32_in buf len : len <= Z.of_nat (length buf) -> efi_crc32 buf len = Some (Crc32.crc32 0 (take (Z.to_nat len) buf)).
Proof. intros H. unfold efi_crc32. by replace (_ <? _) with false by lia. Qed.

(** The checks of a header stay inside of its block. *)
Lemma header_valid_ok blk c lba g :
  contents blk c -> length g = bsn ->
  exists b, header_valid fuzz blk lba g = Some b /\ (b = true -> h_sizeof_partition_entry g = sizeof_gpt_entry).
Proof.
  intros Hc Hl. unfold header_valid. destruct (negb _); [by eexists|]. destruct (_ || _) eqn:Es; [by eexists|].
  bool_prop. rewrite (io_blocksize _ _ Hc) in *. pose proof io_bs.
  rewrite efi_crc32_in by (rewrite length_put_le; lia). destruct (crc_mismatch _ _ _); [by eexists|]. destruct (negb _); [by eexists|].
  destruct (_ <? _); [by eexists|]. destruct (_ <? _); [by eexists|]. eexists. split; [done|]. apply Z.eqb_eq.
Qed.

(** What is known of a copy that passes the checks. *)
Lemma is_gpt_valid_ok blk c lba :
  contents blk c -> exists r blk', is_gpt_valid stats ops fuzz calloc blk lba = (Some r, blk') /\ contents blk' c /\
    forall g e, r = Some (g, e) -> h_num_partition_entries g * 128 <= Z.of_nat (length e) /\ h_num_partition_entries g * 128 < 2 ^ 32.
Proof.
  intros Hc. unfold is_gpt_valid. destruct (read_header_ok blk c lba Hc) as (r & blk1 & -> & Hc1 & Hl).
  destruct r as [g|]; [|by eexists _, _; split_and!]. destruct (header_valid_ok blk1 c lba g Hc1 (Hl g eq_refl)) as (b & -> & Hb).
  destruct b; [|by eexists _, _; split_and!]. specialize (Hb eq_refl).
  destruct (read_entries_ok blk1 c g Hc1) as (r & blk2 & -> & Hc2 & He). destruct r as [e|]; [|by eexists _, _; split_and!].
  destruct (He e eq_refl) as [He1 He2]. replace (_ =? 0) with false by lia. rewrite efi_crc32_in by done.
  eexists _, _. split_and!; [done|done|]. intros g' e'. destruct (crc_mismatch _ _ _); [done|]. intros [= <- <-].
  unfold compute_partitions_entries_size in He1, He2. rewrite Hb in He1, He2. unfold sizeof_gpt_entry in *.
  destruct (_ <=? _) eqn:E; bool_prop; lia.
Qed.

Lemma find_valid_gpt_ok blk c buf :
  contents blk c -> exists r blk', find_valid_gpt stats ops fuzz force_gpt compare calloc blk buf = (Some r, blk') /\ contents blk' c /\
    forall g e p a f, r = Some (g, e, p, a, f) -> h_num_partition_entries g * 128 <= Z.of_nat (length e) /\ h_num_partition_entries g * 128 < 2 ^ 32.
Proof.
  intros Hc. unfold find_valid_gpt. destruct (_ && _); [by eexists _, _; split_and!|].
  destruct (is_gpt_valid_ok blk c GPT_PRIMARY_PARTITION_TABLE_LBA Hc) as (p & blk1 & -> & Hc1 & Hp).
  set (alt := match p with Some (pgpt, _) => _ | None => _ end).
  assert (Ha : exists a blk2, alt = (Some a, blk2) /\ contents blk2 c /\
    forall g e, a = Some (g, e) -> h_num_partition_entries g * 128 <= Z.of_nat (length e) /\ h_num_partition_entries g * 128 < 2 ^ 32).
  { subst alt. destruct p as [[pg pe]|]; [by apply is_gpt_valid_ok|by eexists _, _; split_and!]. }
  destruct Ha as (a & blk2 & -> & Hc2 & Ha). set (again := match a with None => _ | Some _ => _ end).
  assert (Hb : exists a blk3, again = (Some a, blk3) /\ contents blk3 c /\
    forall g e, a = Some (g, e) -> h_num_partition_entries g * 128 <= Z.of_nat (length e) /\ h_num_partition_entries g * 128 < 2 ^ 32).
  { subst again. destruct a; [by eexists _, _; split_and!|]. destruct force_gpt; [by apply is_gpt_valid_ok|by eexists _, _; split_and!]. }
  destruct Hb as (b & blk3 & -> & Hc3 & Hb). eexists _, _. split_and!; [done|done|]. intros g e pp aa f.
  destruct p as [[pg pe]|], b as [[ag ae]|]; intros [=]; subst; eauto.
Qed.

(** C10: reading the table of any disk is safe.  Whatever the bytes of the disk are and
    whichever reads fail, no access leaves the buffers of the header and the entries,
    and each partition found is on the disk, is not empty, and has its own number
    below [MAX_PARTITION]. *)
Theorem efi_partition_safe blk c buf :
  contents blk c ->
  exists r blk', efi_partition_parse stats ops fuzz force_gpt compare calloc buf blk = (Some r, blk') /\ contents blk' c /\
    forall epd, r = Some epd ->
      Forall (fun p => on_disk nb p /\ 0 <= num p < MAX_PARTITION) (map epart (eparts epd)) /\
      NoDup (map num (map epart (eparts epd))).
Proof.
  intros Hc. unfold efi_partition_parse. destruct (find_valid_gpt_ok blk c buf Hc) as (r & blk' & -> & Hc' & Hr).
  destruct r as [[[[[g e] p] a] f]|]; [|by eexists _, _; split_and!]. destruct (Hr _ _ _ _ _ eq_refl) as [H1 H2].
  pose proof (get_le_range g 80 4) as Hn. fold (h_num_partition_entries g) in Hn. rewrite s32_small by lia.
  rewrite entries_loop_scan by lia. rewrite (last_lba_eq _ _ Hc'). eexists _, _. split_and!; [done|done|]. intros epd [= <-]. cbn [eparts].
  pose proof nb_range as Hnb. split.
  - apply Forall_map. eapply Forall_impl; [apply scan_ok; lia|]. intros ep (E1 & E2 & _). done.
  - rewrite map_map. apply scan_nums. lia.
Qed.

(** ** A copy on the disk *)

(** The bytes and the blocks of the 128 entries. *)
Local Abbreviation table_bytes := 16384.
Local Abbreviation nt := (nblocks table_bytes).

(** What a header says of the disk, which is what the two copies share. *)
Record header_ok (g : list byte) : Prop := HeaderOk {
  ho_len : length g = bsn;
  ho_sig : h_signature g = GPT_HEADER_SIGNATURE;
  ho_size : 92 <= h_header_size g <= bs;
  ho_first : h_first_usable_lba g <= nb - 1;
  ho_last : h_last_usable_lba g <= nb - 1;
  ho_num : h_num_partition_entries g = 128;
  ho_esize : h_sizeof_partition_entry g = 128
}.

(** A valid copy at [lba], of the header [g] and the entries [e]. *)
Record good_copy (c : list byte) (lba : Z) (g e : list byte) : Prop := GoodCopy {
  gc_head : header_ok g;
  gc_lba : 0 <= lba < nb;
  gc_read : read_at c (Z.to_nat (lba * bs)) bsn = g;
  gc_crc : Crc32.crc32 0 (take (Z.to_nat (h_header_size g)) (put_le g 16 4 0)) = h_header_crc32 g;
  gc_my : h_my_lba g = lba;
  gc_elba : 0 <= h_partition_entry_lba g /\ h_partition_entry_lba g + nt <= nb;
  gc_entries : read_at c (Z.to_nat (h_partition_entry_lba g * bs)) (Z.to_nat (nt * bs)) = e;
  gc_ecrc : Crc32.crc32 0 (take (Z.to_nat table_bytes) e) = h_partition_entry_array_crc32 g
}.

Lemma nt_bounds : 0 < nt <= 32 /\ table_bytes <= nt * bs < 2 ^ 31.
Proof.
  pose proof (DosPart.bs_small stats ops bits nb Hbits). pose proof io_bits. destruct (nblocks_bounds table_bytes ltac:(lia)) as [H1 H2].
  assert (nt <= 32).
  { unfold nblocks. assert ((table_bytes - 1) / bs < 32); [|lia]. apply Z.div_lt_upper_bound; lia. }
  split; [lia|]. split; [lia|]. destruct (decide (bits <= 14)) as [Hb|Hb].
  - assert (bs <= 2 ^ 14) by (apply Z.pow_le_mono_r; lia). lia.
  - assert (nt = 1); [|nia]. unfold nblocks. rewrite Z.div_small; [done|]. pose proof (Z.pow_le_mono_r 2 15 bits). lia.
Qed.

Lemma good_copy_size c lba g e : good_copy c lba g e -> compute_partitions_entries_size g = table_bytes.
Proof. intros [Hh]. destruct Hh. unfold compute_partitions_entries_size. rewrite ho_num0, ho_esize0. done. Qed.

Lemma mismatch_eq x : crc_mismatch fuzz x x = false.
Proof. unfold crc_mismatch. by rewrite Z.eqb_refl. Qed.

Lemma good_copy_header blk c lba g e : contents blk c -> good_copy c lba g e -> header_valid fuzz blk lba g = Some true.
Proof.
  intros Hc [Hh]. destruct Hh. unfold header_valid. rewrite (io_blocksize _ _ Hc), (last_lba_eq _ _ Hc). unfold sizeof_gpt_header, sizeof_gpt_entry.
  rewrite ho_sig0, Z.eqb_refl. replace (_ || _) with false by lia. cbn [negb]. pose proof io_bs.
  rewrite efi_crc32_in by (rewrite length_put_le; lia). rewrite gc_crc0, mismatch_eq, gc_my0, Z.eqb_refl, ho_esize0. cbn [negb].
  replace (_ <? _) with false by lia. by replace (_ <? _) with false by lia.
Qed.

(** Memory for a header and for the entries. *)
Context (Hmem : calloc bs = true /\ calloc (nt * bs) = true).

Lemma round_bytes blk c : contents blk c -> blockdevice_round_block_nbytes blk table_bytes = nt * bs.
Proof.
  intros Hc. destruct (io_device _ _ Hc) as (E & _). unfold blockdevice_round_block_nbytes. rewrite (round_nblocks _ _ _ Hc) by lia.
  pose proof nt_bounds. pose proof io_bits. rewrite E, Z.shiftl_mul_pow2 by lia. apply u64_small. lia.
Qed.

Lemma good_copy_valid blk c lba g e :
  contents blk c -> sound blk -> good_copy c lba g e ->
  exists blk', is_gpt_valid stats ops fuzz calloc blk lba = (Some (Some (g, e)), blk') /\ contents blk' c /\ sound blk'.
Proof.
  intros Hc Hs Hg. destruct Hmem as [Hm1 Hm2]. pose proof nt_bounds as [Hn1 Hn2]. destruct (io_device _ _ Hc) as (_ & _ & Hl).
  pose proof (DosPart.bs_small stats ops bits nb Hbits). pose proof (gc_lba _ _ _ _ Hg). pose proof (gc_elba _ _ _ _ Hg).
  unfold is_gpt_valid, alloc_read_gpt_header. rewrite (io_blocksize _ _ Hc), Hm1. cbn [negb].
  destruct (io_read_in blk c lba 1 Hc) as (ret & d & blk1 & E & Hc1 & Hd & Hz); [lia..|]. rewrite E. destruct (Hz Hs) as [-> Hs1].
  rewrite (Hd eq_refl), Z.mul_1_l, (gc_read _ _ _ _ Hg). cbn [negb Z.eqb]. rewrite (good_copy_header _ _ _ _ _ Hc1 Hg).
  unfold alloc_read_gpt_entries. rewrite (good_copy_size _ _ _ _ Hg). cbn [Z.eqb]. rewrite (round_bytes _ _ Hc1), Hm2. cbn [negb].
  rewrite (round_nblocks _ _ _ Hc1) by lia.
  destruct (io_read_in blk1 c (h_partition_entry_lba g) nt Hc1) as (ret & d2 & blk2 & E2 & Hc2 & Hd2 & Hz2); [lia..|]. rewrite E2.
  destruct (Hz2 Hs1) as [-> Hs2]. rewrite (Hd2 eq_refl), (gc_entries _ _ _ _ Hg). cbn [negb Z.eqb].
  assert (He : length e = Z.to_nat (nt * bs)).
  { pose proof (le_blocks 0 (h_partition_entry_lba g) ltac:(lia)). pose proof (le_blocks (h_partition_entry_lba g + nt) nb ltac:(lia)).
    rewrite <- (gc_entries _ _ _ _ Hg), length_read_at; lia. }
  rewrite efi_crc32_in by lia. rewrite (gc_ecrc _ _ _ _ Hg), mismatch_eq. eauto.
Qed.

(** Writing elsewhere keeps a copy. *)
Lemma good_copy_write c lba g e off data :
  Z.of_nat (length c) = nb * bs -> good_copy c lba g e -> 0 <= off -> off * bs + Z.of_nat (length data) <= nb * bs ->
  (off * bs + Z.of_nat (length data) <= lba * bs \/ (lba + 1) * bs <= off * bs) ->
  (off * bs + Z.of_nat (length data) <= h_partition_entry_lba g * bs \/ (h_partition_entry_lba g + nt) * bs <= off * bs) ->
  good_copy (write_at c (Z.to_nat (off * bs)) data) lba g e.
Proof.
  intros Hl Hg Ho Hi H1 H2. pose proof io_bs. pose proof (gc_lba _ _ _ _ Hg). pose proof (gc_elba _ _ _ _ Hg). pose proof nt_bounds.
  pose proof (le_blocks 0 lba ltac:(lia)). pose proof (le_blocks 0 (h_partition_entry_lba g) ltac:(lia)). pose proof (le_blocks 0 off Ho).
  destruct Hg. constructor; try done.
  - rewrite read_write_apart; [done|lia|lia].
  - rewrite read_write_apart; [done|lia|lia].
Qed.

(** ** Writing a copy *)

(** Two headers that say the same of the table. *)
Definition same_table (g h : list byte) : Prop :=
  h_first_usable_lba g = h_first_usable_lba h /\ h_last_usable_lba g = h_last_usable_lba h /\ h_disk_guid g = h_disk_guid h /\
  h_header_size g = h_header_size h.

Lemma copy_header_ok epd my alt elba :
  header_ok (gpt epd) -> table_bytes <= Z.of_nat (length (ptes epd)) -> 0 <= my < 2 ^ 64 -> 0 <= alt < 2 ^ 64 -> 0 <= elba < 2 ^ 64 ->
  exists g, copy_header epd my alt elba table_bytes = Some g /\ header_ok g /\ same_table g (gpt epd) /\
    h_my_lba g = my /\ h_alternate_lba g = alt /\ h_partition_entry_lba g = elba /\
    Crc32.crc32 0 (take (Z.to_nat (h_header_size g)) (put_le g 16 4 0)) = h_header_crc32 g /\
    Crc32.crc32 0 (take (Z.to_nat table_bytes) (ptes epd)) = h_partition_entry_array_crc32 g.
Proof.
  intros Hh Hp Hmy Halt Helba. pose proof io_bs. assert (Hl : (512 <= length (gpt epd))%nat) by (rewrite (ho_len _ Hh); lia).
  unfold copy_header. rewrite efi_crc32_in by done. set (pc := Crc32.crc32 0 (take _ (ptes epd))).
  assert (Hpc : 0 <= pc < 2 ^ 32) by (apply Crc32.crc32_range; lia).
  set (g0 := put_le (put_le (put_le (put_le (gpt epd) 32 8 alt) 24 8 my) 72 8 elba) 88 4 pc).
  assert (Hl0 : length g0 = length (gpt epd)) by (subst g0; by rewrite !length_put_le).
  assert (Hsz : h_header_size (put_le g0 16 4 0) = h_header_size (gpt epd)) by (subst g0; field; done).
  rewrite Hsz, efi_crc32_in by (rewrite length_put_le, Hl0, (ho_len _ Hh); pose proof (ho_size _ Hh); lia).
  set (crc := Crc32.crc32 0 _). assert (Hcrc : 0 <= crc < 2 ^ 32) by (apply Crc32.crc32_range; lia).
  rewrite put_put_same by lia. exists (put_le g0 16 4 crc). split; [done|].
  assert (Hsz2 : h_header_size (put_le g0 16 4 crc) = h_header_size (gpt epd)) by (subst g0; field; done).
  split_and!.
  - destruct Hh. constructor; try (rewrite ?Hsz2; done); [rewrite length_put_le; lia|..]; subst g0; field; done.
  - unfold same_table. split_and!; [..|exact Hsz2]; subst g0; field; done.
  - subst g0. field. done.
  - subst g0. field. done.
  - subst g0. field. done.
  - rewrite Hsz2, put_put_same by lia. fold crc. unfold h_header_crc32. rewrite get_put_same by lia. done.
  - subst g0. field. done.
Qed.

Lemma write_copy_ok epd (primary : bool) blk c my alt elba :
  (if primary then primary_entry_lba epd = Ok elba /\ my = 1 /\ alt = nb - 1 else my = nb - 1 /\ alt = 1 /\ elba = u64 (nb - 1 - 32)) ->
  contents blk c -> sound blk -> header_ok (gpt epd) -> Z.of_nat (length (ptes epd)) = nt * bs ->
  1 < nb -> 0 <= elba -> elba + nt <= nb -> (my + 1 <= elba \/ elba + nt <= my) ->
  exists g blk', __efi_partition_write true stats ops epd primary blk = Some (0, blk') /\ sound blk' /\
    same_table g (gpt epd) /\ h_alternate_lba g = alt /\ h_partition_entry_lba g = elba /\
    let c' := write_at (write_at c (Z.to_nat (my * bs)) g) (Z.to_nat (elba * bs)) (ptes epd) in
    contents blk' c' /\ good_copy c' my g (ptes epd).
Proof.
  intros Hcase Hc Hs Hh Hp Hnb He1 He2 Hap. pose proof (DosPart.bs_small stats ops bits nb Hbits) as Hbs. pose proof nt_bounds as [Hn1 Hn2].
  pose proof nb_range as Hnb2. destruct (io_device _ _ Hc) as (_ & _ & Hl).
  assert (Hmy : 0 <= my < nb /\ 0 <= alt < nb) by (destruct primary; lia).
  destruct (copy_header_ok epd my alt elba Hh ltac:(lia) ltac:(lia) ltac:(lia) ltac:(lia)) as (g & Eg & Hg & Hsame & G1 & G2 & G3 & G4 & G5).
  unfold __efi_partition_write. rewrite (ho_num _ Hh), (ho_esize _ Hh). change (u32 (128 * 128)) with table_bytes.
  rewrite (round_nblocks _ _ _ Hc), (last_lba_eq _ _ Hc), (u32_small nt) by lia.
  assert (Esel : (if primary then match primary_entry_lba epd with Err ret => Err ret | Ok lba => Ok (1, nb - 1, lba) end
                  else Ok (nb - 1, 1, u64 (nb - 1 - 32))) = Ok (my, alt, elba)).
  { destruct primary; [destruct Hcase as (-> & -> & ->)|destruct Hcase as (-> & -> & ->)]; done. }
  rewrite Esel, Eg. destruct (io_write blk c g my 1 Hc) as (ret & blk1 & m & E1 & _ & _ & Hc1 & Hm1 & Hz1);
    [lia|lia|lia|lia|rewrite (ho_len _ Hg); lia|]. rewrite E1. destruct (Hz1 Hs) as [-> Hs1]. cbn [Z.eqb negb].
  rewrite (Hm1 eq_refl), take_ge in Hc1 by (rewrite (ho_len _ Hg); lia).
  rewrite (io_blocksize _ _ Hc1). replace (_ <? _) with false by lia.
  destruct (io_write blk1 _ (ptes epd) elba nt Hc1) as (ret & blk2 & m2 & E2 & _ & _ & Hc2 & Hm2 & Hz2); [lia..|]. rewrite E2.
  destruct (Hz2 Hs1) as [-> Hs2]. rewrite (Hm2 eq_refl), take_ge in Hc2 by lia. exists g, blk2. split_and!; try done.
  pose proof (le_blocks 0 my ltac:(lia)). pose proof (le_blocks 0 elba ltac:(lia)). pose proof (le_blocks (my + 1) nb ltac:(lia)).
  pose proof (le_blocks (elba + nt) nb ltac:(lia)). pose proof (apart_blocks my 1 elba nt ltac:(lia)).
  constructor; try done; try lia.
  - rewrite read_write_apart; [|rewrite length_write_at; lia|lia].
    pose proof (read_write_at_same c (Z.to_nat (my * bs)) g) as E. rewrite (ho_len _ Hg) in E. apply E. lia.
  - rewrite G3. pose proof (read_write_at_same (write_at c (Z.to_nat (my * bs)) g) (Z.to_nat (elba * bs)) (ptes epd)) as E.
    replace (length (ptes epd)) with (Z.to_nat (nt * bs)) in E by lia. apply E. rewrite length_write_at. lia.
Qed.

(** ** Writing a table *)

(** A table that can be written: the entries fit between the header and the other
    copy. *)
Record desc_ok (epd : efi_partition_desc) (p : Z) : Prop := DescOk {
  do_head : header_ok (gpt epd);
  do_ptes : Z.of_nat (length (ptes epd)) = nt * bs;
  do_place : primary_entry_lba epd = Ok p;
  do_low : 2 <= p;
  do_high : p + nt <= nb - 33
}.

Context (have : list filetype) (Hdos : filetype_mbr ∈ have) (random32 : Z) (Hnb32 : nb <= 2 ^ 32).

(** The protective entry. *)
Definition protective : DosPart.dos_partition :=
  DosPart.DosPartition (Partition [] [] 1 (nb - 1) (replicate 16 Init.Byte.x00) 1 0 0) false false Init.Byte.x00
    (replicate 3 Init.Byte.x00) Init.Byte.xee (replicate 3 Init.Byte.x00).

Lemma protective_ok : 1 < nb -> Forall DosPart.entry_ok [protective].
Proof.
  intros H. constructor; [|constructor]. unfold DosPart.entry_ok, protective. cbn [DosPart.chs_begin DosPart.chs_end DosPart.part first_sec size DosPart.logical DosPart.type].
  split_and!; (done || lia).
Qed.

Lemma protective_mbr_ok blk c :
  contents blk c -> sound blk -> 1 < nb ->
  exists blk', efi_protective_mbr true stats ops have random32 blk = (0, blk') /\ sound blk' /\
    contents blk' (DosPart.mbr_image c random32 [protective]).
Proof.
  intros Hc Hs Hnb. unfold efi_protective_mbr. rewrite bool_decide_eq_true_2 by done. cbn [negb]. rewrite (last_lba_eq _ _ Hc).
  assert (E : DosPart.dos_partition_mkpart (DosPart.dos_partition_create_table random32) "primary" "0xee" 1 (nb - 1)
    = (0, DosPart.DosDesc random32 [protective])).
  { unfold DosPart.dos_partition_mkpart. change (DosPart.fs_type_to_type "0xee") with 238. cbn [Z.ltb Z.compare Pos.compare Pos.compare_cont].
    cbn [DosPart.count_parts DosPart.dparts DosPart.dos_partition_create_table DosPart.signature].
    rewrite (bool_decide_eq_false_2 ("primary"%string = _)), (bool_decide_eq_true_2 ("primary"%string = _)) by done. cbn [Z.eqb].
    change (DosPart.UINT_MAX <? 1) with false. unfold DosPart.UINT_MAX. rewrite u64_small by lia.
    replace (2 ^ 32 - 1 <? nb - 1 - 1 + 1) with false by lia. unfold protective. replace (nb - 1 - 1 + 1) with (nb - 1) by lia. done. }
  rewrite E. cbn [Z.eqb negb].
  apply (DosPart.dos_write_image stats ops bits nb Hbits blk c (DosPart.DosDesc random32 [protective]) Hc Hs (protective_ok Hnb)).
  - exact (conj eq_refl I).
  - apply Nat.leb_le. reflexivity.
Qed.

(** The DOS table leaves everything behind the first 512 bytes. *)
Lemma mbr_frame c o k :
  (512 <= length c)%nat -> 1 < nb -> (512 <= o)%nat -> read_at (DosPart.mbr_image c random32 [protective]) o k = read_at c o k.
Proof.
  intros Hl Hnb Ho. unfold read_at. f_equal. rewrite <- (take_drop 512 c) at 1. rewrite DosPart.mbr_image_app by (rewrite length_take; lia).
  rewrite drop_app_ge; rewrite DosPart.length_mbr_image; rewrite ?length_take; try done; try lia; try (by apply protective_ok); [|cbn; lia..].
  rewrite drop_drop. f_equal. lia.
Qed.

(** What writing a table leaves on the disk. *)
Record written (c c' : list byte) (epd : efi_partition_desc) (p : Z) (g1 g2 : list byte) : Prop := Written {
  wr_first : good_copy c' 1 g1 (ptes epd);
  wr_last : good_copy c' (nb - 1) g2 (ptes epd);
  wr_same1 : same_table g1 (gpt epd);
  wr_same2 : same_table g2 (gpt epd);
  wr_alt1 : h_alternate_lba g1 = nb - 1;
  wr_alt2 : h_alternate_lba g2 = 1;
  wr_elba1 : h_partition_entry_lba g1 = p;
  wr_elba2 : h_partition_entry_lba g2 = nb - 33;
  wr_mbr : read_at c' 0 512 = read_at (DosPart.mbr_image c random32 [protective]) 0 512;
  wr_frame o k : 2 * bs <= Z.of_nat o -> (Z.of_nat (o + k) <= p * bs \/ (p + nt) * bs <= Z.of_nat o) ->
    Z.of_nat (o + k) <= (nb - 33) * bs -> read_at c' o k = read_at c o k
}.

(** Blocks as bytes: the order of block numbers is that of their offsets. *)
(** A header and entries stored at their blocks. *)
Definition store_copy (c : list byte) (my : Z) (g : list byte) (el : Z) (e : list byte) : list byte :=
  write_at (write_at c (Z.to_nat (my * bs)) g) (Z.to_nat (el * bs)) e.

Lemma length_store_copy c my g el e : length (store_copy c my g el e) = length c.
Proof. unfold store_copy. by rewrite !length_write_at. Qed.

Lemma store_copy_frame c my g el e o k :
  Z.of_nat (length c) = nb * bs -> length g = bsn -> Z.of_nat (length e) = nt * bs -> 0 <= my < nb -> 0 <= el -> el + nt <= nb ->
  (Z.of_nat (o + k) <= my * bs \/ (my + 1) * bs <= Z.of_nat o) -> (Z.of_nat (o + k) <= el * bs \/ (el + nt) * bs <= Z.of_nat o) ->
  read_at (store_copy c my g el e) o k = read_at c o k.
Proof.
  intros Hl Hg He Hm K1 K2 H1 H2. pose proof io_bs. unfold store_copy.
  pose proof (le_blocks 0 my ltac:(lia)). pose proof (le_blocks (my + 1) nb ltac:(lia)).
  pose proof (le_blocks 0 el ltac:(lia)). pose proof (le_blocks (el + nt) nb ltac:(lia)).
  rewrite read_write_apart; [|rewrite length_write_at; lia|lia]. apply read_write_apart; lia.
Qed.

Lemma store_copy_keeps c lba h e my g el e' :
  Z.of_nat (length c) = nb * bs -> good_copy c lba h e -> length g = bsn -> Z.of_nat (length e') = nt * bs ->
  0 <= my < nb -> 0 <= el -> el + nt <= nb -> lba <> my -> (el + nt <= lba \/ lba + 1 <= el) ->
  (h_partition_entry_lba h + nt <= my \/ my + 1 <= h_partition_entry_lba h) ->
  (h_partition_entry_lba h + nt <= el \/ el + nt <= h_partition_entry_lba h) ->
  good_copy (store_copy c my g el e') lba h e.
Proof.
  intros Hl Hg Lg Le Hm K1 K2 N1 N2 N3 N4. pose proof io_bs. pose proof nt_bounds. pose proof (gc_lba _ _ _ _ Hg). pose proof (gc_elba _ _ _ _ Hg).
  assert (Lg' : Z.of_nat (length g) = 1 * bs) by lia. pose proof (le_blocks (my + 1) nb ltac:(lia)). pose proof (le_blocks (el + nt) nb ltac:(lia)).
  unfold store_copy. apply good_copy_write; [by rewrite length_write_at|apply good_copy_write|..]; try done; rewrite ?Lg', ?Le; try lia;
    apply apart_blocks; lia.
Qed.

(** The places of the two copies. *)
Definition place (p : Z) (primary : bool) : Z * Z * Z := if primary then (1, nb - 1, p) else (nb - 1, 1, nb - 33).

Lemma write_placed blk c epd p primary :
  contents blk c -> sound blk -> desc_ok epd p ->
  let '(my, alt, el) := place p primary in
  exists g blk', __efi_partition_write true stats ops epd primary blk = Some (0, blk') /\ sound blk' /\
    same_table g (gpt epd) /\ h_alternate_lba g = alt /\ h_partition_entry_lba g = el /\
    contents blk' (store_copy c my g el (ptes epd)) /\ good_copy (store_copy c my g el (ptes epd)) my g (ptes epd).
Proof.
  intros Hc Hs [Hh Hp Hpl Hlow Hhigh]. pose proof nt_bounds as [Hn1 Hn2]. pose proof nb_range.
  destruct primary; cbn [place].
  - apply (write_copy_ok epd true blk c 1 (nb - 1) p); (done || lia).
  - apply (write_copy_ok epd false blk c (nb - 1) 1 (nb - 33)); try done; try lia. split_and!; [done|done|]. rewrite u64_small; lia.
Qed.

Lemma efi_write_ok blk c epd p :
  contents blk c -> sound blk -> desc_ok epd p ->
  exists blk' c' g1 g2, efi_partition_write true stats ops have random32 epd blk = Some (0, blk') /\ sound blk' /\ contents blk' c' /\
    written c c' epd p g1 g2.
Proof.
  intros Hc Hs Hd. pose proof Hd as [Hh Hp Hpl Hlow Hhigh]. pose proof nt_bounds as [Hn1 Hn2]. pose proof io_bs as Hbs.
  destruct (io_device _ _ Hc) as (_ & _ & Hl). pose proof nb_range. pose proof (le_blocks 1 nb ltac:(lia)). assert (Hl512 : (512 <= length c)%nat) by lia.
  unfold efi_partition_write. rewrite (ho_num _ Hh). cbn [Z.eqb Pos.eqb negb].
  destruct (protective_mbr_ok blk c Hc Hs ltac:(lia)) as (blk0 & -> & Hs0 & Hc0). cbn [Z.eqb negb].
  pose proof (le_blocks 1 (nb - 1) ltac:(lia)). pose proof (le_blocks 2 p ltac:(lia)). pose proof (le_blocks (p + nt) (nb - 33) ltac:(lia)).
  assert (Hl0 : Z.of_nat (length (DosPart.mbr_image c random32 [protective])) = nb * bs) by (by destruct (io_device _ _ Hc0) as (_ & _ & ?)).
  pose proof (write_placed blk0 _ epd p (negb (good_pgpt epd)) Hc0 Hs0 Hd) as Wa.
  pose proof (fun blk c Hc Hs => write_placed blk c epd p (good_pgpt epd) Hc Hs Hd) as Wb.
  destruct (good_pgpt epd); cbn [negb place] in Wa, Wb |- *; destruct Wa as (ga & blk1 & -> & Hs1 & A1 & A2 & A3 & Hc1 & A4); cbn [Z.eqb negb];
    destruct (Wb blk1 _ Hc1 Hs1) as (gb & blk2 & -> & Hs2 & B1 & B2 & B3 & Hc2 & B4);
    pose proof (ho_len _ (gc_head _ _ _ _ A4)) as La; pose proof (ho_len _ (gc_head _ _ _ _ B4)) as Lb.
  - exists blk2. eexists _, gb, ga. split_and!; [done|done|exact Hc2|]. constructor; try done.
    + apply store_copy_keeps; rewrite ?length_store_copy, ?A3; (done || lia).
    + rewrite !store_copy_frame; rewrite ?length_store_copy; try done; lia.
    + intros o k K1 K2 K3. rewrite !store_copy_frame; rewrite ?length_store_copy; try done; try lia. apply mbr_frame; lia.
  - exists blk2. eexists _, ga, gb. split_and!; [done|done|exact Hc2|]. constructor; try done.
    + apply store_copy_keeps; rewrite ?length_store_copy, ?A3; (done || lia).
    + rewrite !store_copy_frame; rewrite ?length_store_copy; try done; lia.
    + intros o k K1 K2 K3. rewrite !store_copy_frame; rewrite ?length_store_copy; try done; try lia. apply mbr_frame; lia.
Qed.

(** ** Reading a table that was written *)

Lemma mbr_prefix c :
  (512 <= length c)%nat -> 1 < nb ->
  let b := read_at (DosPart.mbr_image c random32 [protective]) 0 512 in
  get_le b BS_55AA 2 = 0xaa55 /\ pmbr_part_valid b (MBR_Table + 0 * 16) = true.
Proof.
  intros Hl Hnb. cbn zeta.
  assert (E : exists P, length P = 446%nat /\ read_at (DosPart.mbr_image c random32 [protective]) 0 512
    = P ++ DosPart.entry_bytes protective ++ replicate 48 Init.Byte.x00 ++ [Init.Byte.x55; Init.Byte.xaa]).
  { exists (take 440 c ++ le_bytes 4 random32 ++ read_at c 444 2). split.
    - rewrite !length_app, length_take, length_le_bytes, length_read_at by lia. lia.
    - unfold DosPart.mbr_image, read_at at 1. cbn [drop flat_map length]. change (64 - 16 * 1)%nat with 48%nat. rewrite app_nil_r, !app_assoc, drop_0.
      rewrite take_app_length'; [done|]. rewrite !length_app, length_take, length_le_bytes, length_replicate, length_read_at by lia.
      rewrite DosPart.length_entry_bytes by exact (Forall_inv (protective_ok Hnb)). cbn [length]. lia. }
  destruct E as (P & HP & ->). split.
  - rewrite (app_assoc P), (app_assoc (P ++ _)). rewrite <- (app_nil_r [Init.Byte.x55; Init.Byte.xaa]).
    rewrite DosPart.get_le_mid; [done| |done].
    rewrite !length_app, length_replicate, DosPart.length_entry_bytes by exact (Forall_inv (protective_ok Hnb)). unfold BS_55AA. lia.
  - destruct (DosPart.entry_read P protective (replicate 48 Init.Byte.x00 ++ [Init.Byte.x55; Init.Byte.xaa]) (MBR_Table + 0 * 16)
      (Forall_inv (protective_ok Hnb)) ltac:(unfold MBR_Table; lia)) as (_ & E2 & E3 & _).
    unfold pmbr_part_valid, get_u8. unfold DosPart.e_type, DosPart.e_start in E2, E3. rewrite E2, E3. done.
Qed.

Lemma get_le_prefix (b : list byte) n o k : (o + k <= n)%nat -> get_le (read_at b 0 n) o k = get_le b o k.
Proof. intros H. unfold get_le. by rewrite read_at_read_at. Qed.

Lemma get_u8_prefix (b : list byte) n o : (o < n)%nat -> get_u8 (read_at b 0 n) o = get_u8 b o.
Proof.
  intros H. unfold get_u8. f_equal. rewrite !nth_lookup, lookup_read_at. by rewrite decide_True by done.
Qed.

Context (Hbig : bits <= 14).

(** Both copies are found, and they agree. *)
Lemma detect_written c c' epd p g1 g2 :
  Z.of_nat (length c) = nb * bs -> Z.of_nat (length c') = nb * bs -> 1 < nb -> written c c' epd p g1 g2 ->
  file_detect_partition_table (read_at c' 0 (Z.to_nat (2 * bs))) (2 * bs) bs = filetype_gpt.
Proof.
  intros Hl Hl' Hnb W. pose proof io_bs as Hbs. pose proof (le_blocks 2 nb ltac:(lia)).
  destruct (mbr_prefix c ltac:(lia) Hnb) as [M1 M2]. rewrite <- (wr_mbr _ _ _ _ _ _ W) in M1, M2.
  unfold file_detect_partition_table. replace (_ || _) with false by lia. replace (bs + 8 <=? 2 * bs) with true by lia. cbn [andb].
  assert (E : Partitions.is_gpt_valid (read_at c' 0 (Z.to_nat (2 * bs))) bs = true); [|by rewrite E].
  unfold Partitions.is_gpt_valid. rewrite get_le_prefix in M1 by (unfold BS_55AA; lia).
  rewrite get_le_prefix by (unfold BS_55AA; lia). rewrite M1. cbn [Z.eqb Pos.eqb negb].
  assert (Es : read_at (read_at c' 0 (Z.to_nat (2 * bs))) bsn 8 = efi_part).
  { rewrite read_at_read_at by lia. cbn [Nat.add]. pose proof (gc_read _ _ _ _ (wr_first _ _ _ _ _ _ W)) as R.
    rewrite Z.mul_1_l in R. pose proof (ho_sig _ (gc_head _ _ _ _ (wr_first _ _ _ _ _ _ W))) as S. rewrite <- R in S.
    unfold h_signature, get_le in S. rewrite read_at_read_at, Nat.add_0_r in S by lia.
    apply le_val_inj; [rewrite length_read_at by lia; done|]. rewrite S. done. }
  rewrite bool_decide_eq_true_2 by exact Es. cbn [negb existsb].
  assert (Ep : pmbr_part_valid (read_at c' 0 (Z.to_nat (2 * bs))) (MBR_Table + 0 * 16) = true); [|by rewrite Ep].
  revert M2. unfold pmbr_part_valid, MBR_Table. rewrite !get_u8_prefix, !get_le_prefix by lia. done.
Qed.

Lemma copies_agree c c' epd p g1 g2 : written c c' epd p g1 g2 -> compare_gpts fuzz g1 g2 (nb - 1) = false.
Proof.
  intros W. destruct (wr_same1 _ _ _ _ _ _ W) as (S1 & S2 & S3 & _). destruct (wr_same2 _ _ _ _ _ _ W) as (T1 & T2 & T3 & _).
  pose proof (wr_first _ _ _ _ _ _ W) as F. pose proof (wr_last _ _ _ _ _ _ W) as L.
  unfold compare_gpts. rewrite (gc_my _ _ _ _ F), (gc_my _ _ _ _ L), (wr_alt1 _ _ _ _ _ _ W), (wr_alt2 _ _ _ _ _ _ W).
  rewrite S1, S2, S3, T1, T2, T3, <- (gc_ecrc _ _ _ _ F), <- (gc_ecrc _ _ _ _ L), mismatch_eq.
  rewrite (ho_num _ (gc_head _ _ _ _ F)), (ho_num _ (gc_head _ _ _ _ L)), (ho_esize _ (gc_head _ _ _ _ F)), (ho_esize _ (gc_head _ _ _ _ L)).
  rewrite bool_decide_eq_true_2 by done. rewrite !Z.eqb_refl. done.
Qed.

Lemma find_written blk c c' epd p g1 g2 :
  Z.of_nat (length c) = nb * bs -> 1 < nb -> contents blk c' -> sound blk -> written c c' epd p g1 g2 ->
  exists blk', find_valid_gpt stats ops fuzz force_gpt compare calloc blk (read_at c' 0 (Z.to_nat (2 * bs)))
    = (Some (Some (g1, ptes epd, true, true, false)), blk') /\ contents blk' c'.
Proof.
  intros Hl Hnb Hc Hs W. destruct (io_device _ _ Hc) as (_ & _ & Hl'). pose proof (detect_written c c' epd p g1 g2 Hl Hl' Hnb W) as Ed.
  unfold find_valid_gpt, GPT_PRIMARY_PARTITION_TABLE_LBA. rewrite (io_blocksize _ _ Hc), Ed, bool_decide_eq_true_2, andb_false_r by done.
  destruct (good_copy_valid blk c' 1 g1 (ptes epd) Hc Hs (wr_first _ _ _ _ _ _ W)) as (blk2 & -> & Hc2 & Hs2).
  rewrite (wr_alt1 _ _ _ _ _ _ W).
  destruct (good_copy_valid blk2 c' (nb - 1) g2 (ptes epd) Hc2 Hs2 (wr_last _ _ _ _ _ _ W)) as (blk3 & -> & Hc3 & Hs3).
  rewrite (last_lba_eq _ _ Hc3), (copies_agree _ _ _ _ _ _ W), andb_false_r. eauto.
Qed.

Lemma read_written blk c c' epd p g1 g2 :
  filetype_gpt ∈ have -> Z.of_nat (length c) = nb * bs -> 1 < nb -> contents blk c' -> sound blk -> written c c' epd p g1 g2 ->
  exists blk', partition_table_read stats ops fuzz force_gpt compare calloc have blk
    = (Some (Some (efi_desc (Epd g1 (ptes epd) true true (scan 128 0 (ptes epd) (nb - 1))))), blk') /\ contents blk' c'.
Proof.
  intros Hgpt Hl Hnb Hc Hs W. pose proof io_bs as Hbs. destruct (io_device _ _ Hc) as (_ & _ & Hl'). pose proof nt_bounds as [Hn1 Hn2].
  assert (Hb14 : bs <= 2 ^ 14) by (apply Z.pow_le_mono_r; lia).
  unfold partition_table_read. destruct (io_read_in blk c' 0 2 Hc) as (ret & d & blk1 & E & Hc1 & Hd & Hz); [lia..|]. rewrite E.
  destruct (Hz Hs) as [-> Hs1]. rewrite (Hd eq_refl), Z.mul_0_l, (io_blocksize _ _ Hc1). change (Z.to_nat 0) with 0%nat. cbn [Z.eqb negb].
  unfold partition_parser_get_by_filetype. replace (bs * 2) with (2 * bs) by lia.
  rewrite (detect_written c c' epd p g1 g2 Hl Hl' Hnb W), bool_decide_eq_true_2 by done. unfold efi_partition_parse.
  destruct (find_written blk1 c c' epd p g1 g2 Hl Hnb Hc1 Hs1 W) as (blk3 & -> & Hc3).
  rewrite (ho_num _ (gc_head _ _ _ _ (wr_first _ _ _ _ _ _ W))), (last_lba_eq _ _ Hc3).
  change (Z.to_nat (s32 128)) with 128%nat.
  assert (Hlen : length (ptes epd) = Z.to_nat (nt * bs)).
  { rewrite <- (gc_entries _ _ _ _ (wr_first _ _ _ _ _ _ W)). apply length_read_at.
    destruct (gc_elba _ _ _ _ (wr_first _ _ _ _ _ _ W)) as [K1 K2]. pose proof (le_blocks _ _ K1). apply le_blocks in K2. lia. }
  rewrite entries_loop_scan by lia. eauto.
Qed.

(** ** Whole sessions *)

(** A description is a new one or was read from the disk. *)
Inductive opened (off : Z) (c : list byte) : efi_partition_desc -> Prop :=
| opened_new blk noise : contents blk c -> opened off c (efi_partition_create_table off blk noise)
| opened_read blk buf epd blk' :
    contents blk c -> efi_partition_parse stats ops fuzz force_gpt compare calloc buf blk = (Some (Some epd), blk') -> opened off c epd.

Lemma opened_tracks off c epd : opened off c epd -> h_num_partition_entries (gpt epd) = 128 -> tracks nb epd.
Proof.
  intros [blk noise Hc|blk buf epd' blk' Hc E] Hn; [apply zero_tracks|].
  unfold efi_partition_parse in E. destruct (find_valid_gpt_ok blk c buf Hc) as (r & blk1 & Ef & Hc1 & Hr). rewrite Ef in E.
  destruct r as [[[[[g e] a] b] f]|]; [|done]. destruct (Hr _ _ _ _ _ eq_refl) as [H1 H2].
  pose proof (get_le_range g 80 4) as Hg. fold (h_num_partition_entries g) in Hg. rewrite s32_small in E by lia.
  rewrite entries_loop_scan, (last_lba_eq _ _ Hc1) in E by lia. injection E as <- _. cbn [gpt] in Hn. rewrite Hn.
  constructor; cbn [eparts ptes]; [done|]. pose proof nb_range. eapply Forall_impl; [apply scan_ok; lia|].
  intros ep (_ & [K1 K2] & ->). rewrite Z2Nat.id; done.
Qed.

Lemma opened_entries off c epd : opened off c epd -> Forall (fun ep => pte ep <> None) (eparts epd).
Proof.
  intros [blk noise Hc|blk buf epd' blk' Hc E]; [constructor|].
  unfold efi_partition_parse in E. destruct (find_valid_gpt_ok blk c buf Hc) as (r & blk1 & Ef & Hc1 & Hr). rewrite Ef in E.
  destruct r as [[[[[g e] a] b] f]|]; [|done]. destruct (Hr _ _ _ _ _ eq_refl) as [H1 H2].
  pose proof (get_le_range g 80 4) as Hg. fold (h_num_partition_entries g) in Hg. rewrite s32_small in E by lia.
  rewrite entries_loop_scan in E by lia. injection E as <- _. cbn [eparts]. pose proof nb_range. rewrite (last_lba_eq _ _ Hc1).
  eapply Forall_impl; [apply scan_ok; lia|]. by intros ep (_ & _ & ->).
Qed.

(** A new table can be written when there is room for its two copies. *)
Lemma table_blocks : nt * bs = table_bytes.
Proof.
  pose proof io_bits. assert (E : 2 ^ 14 = 2 ^ (14 - bits) * bs) by (rewrite <- Z.pow_add_r by lia; f_equal; lia).
  change table_bytes with (2 ^ 14). unfold nblocks. rewrite E at 1. pose proof io_bs.
  replace (2 ^ (14 - bits) * bs - 1) with (bs - 1 + (2 ^ (14 - bits) - 1) * bs) by lia.
  rewrite Z.div_add, Z.div_small by lia. lia.
Qed.

Lemma get_write_other b o data o' n' :
  (o + length data <= length b)%nat -> (o' + n' <= o \/ o + length data <= o')%nat -> get_le (write_at b o data) o' n' = get_le b o' n'.
Proof. intros H1 H2. unfold get_le. by rewrite read_write_apart. Qed.

Lemma new_desc_ok off blk c noise u :
  contents blk c -> length noise = 16%nat -> partition_first_usable_lba off blk = u -> 34 <= u -> u <= nb - 33 ->
  desc_ok (efi_partition_create_table off blk noise) (u - 32).
Proof.
  intros Hc Hn Hu H1 H2. pose proof nt_bounds as [Hn1 _]. pose proof nb_range. pose proof io_bs.
  assert (Lr : length (generate_random_guid noise) = 16%nat) by (by rewrite length_generate_random_guid).
  set (r := generate_random_guid noise) in *.
  assert (Lz : length (replicate bsn Init.Byte.x00) = bsn) by apply length_replicate.
  assert (Hg : forall f, f = gpt (efi_partition_create_table off blk noise) ->
    length f = bsn /\ h_signature f = GPT_HEADER_SIGNATURE /\ h_header_size f = 92 /\ h_first_usable_lba f = u /\
    h_last_usable_lba f = nb - 35 /\ h_num_partition_entries f = 128 /\ h_sizeof_partition_entry f = 128).
  { intros f ->. unfold efi_partition_create_table. cbn [gpt]. fold r. rewrite (io_blocksize _ _ Hc), (last_lba_eq _ _ Hc), Hu, (u32_small u) by lia.
    set (z := replicate bsn Init.Byte.x00) in *. unfold gpt_size, num_partition_entries, sizeof_gpt_entry, sizeof_gpt_header, GPT_HEADER_SIGNATURE.
    rewrite (u64_small (nb - 1 - (32 + 2))) by lia. replace (nb - 1 - (32 + 2)) with (nb - 35) by lia.
    split; [by rewrite !length_put_le, length_write_at, !length_put_le|].
    split_and!; field; try done;
      (rewrite get_write_other by (rewrite ?length_put_le, ?Lr; lia); field; done). }
  destruct (Hg _ eq_refl) as (G1 & G2 & G3 & G4 & G5 & G6 & G7). constructor.
  - constructor; (done || lia).
  - rewrite table_blocks. unfold efi_partition_create_table. cbn [ptes]. by rewrite length_replicate.
  - unfold primary_entry_lba. change (good_pgpt _) with false. rewrite G4. by replace (u <? 32 + 1 + 1) with false by lia.
  - lia.
  - lia.
Qed.

(** C9: what was written is read back.  On a disk without faults of less than 2^32
    blocks of up to 16 KiB, take a GUID partition table of 128 entries, new or read from
    the disk, and any sequence of creations and removals.  Either all of it is done, each
    with a result code; then the changed table can be written and read again: both copies
    are valid and agree, the partitions are those of the changed table with their numbers,
    sectors, types and names, and neither the boot code nor any block outside of the two
    copies has changed.  Or the sequence comes to the removal of a partition that the table
    did not have when it was opened; there the code writes through a null pointer. *)
Theorem gpt_roundtrip off blk c epd p edits :
  filetype_gpt ∈ have -> opened off c epd -> desc_ok epd p -> Forall edit_ok edits -> contents blk c -> sound blk ->
  match edit_all off blk epd edits with
  | Some (rets, epd') =>
      exists blk' c', efi_partition_write true stats ops have random32 epd' blk = Some (0, blk') /\ contents blk' c' /\
        (exists g l blk'', partition_table_read stats ops fuzz force_gpt compare calloc have blk'
           = (Some (Some (efi_desc (Epd g (ptes epd') true true l))), blk'') /\
           same_table g (gpt epd) /\ views l ≡ₚ views (eparts epd')) /\
        take 440 c' = take 440 c /\
        forall o k, 2 * bs <= Z.of_nat o -> (Z.of_nat (o + k) <= p * bs \/ (p + nt) * bs <= Z.of_nat o) ->
          Z.of_nat (o + k) <= (nb - 33) * bs -> read_at c' o k = read_at c o k
  | None =>
      exists pre n post rets epd1 ep, edits = pre ++ Remove n :: post /\ edit_all off blk epd pre = Some (rets, epd1) /\
        ep ∈ eparts epd1 /\ num (epart ep) = n /\ ep ∉ eparts epd
  end.
Proof.
  intros Hgpt Ho Hd Hed Hc Hs. destruct (io_device _ _ Hc) as (_ & Hblk & Hl). pose proof nb_range. pose proof Hd as [Hh Hp Hpl Hlow Hhigh].
  rewrite table_blocks in Hp. pose proof nt_bounds as [Hn1 _]. pose proof io_bs.
  destruct (edit_all off blk epd edits) as [[rets epd']|] eqn:E.
  2:{ apply (edits_stop nb ltac:(lia)) in E as (pre & n & post & rets & epd1 & ep & E1 & E2 & E3 & E4 & E5); try done;
        [|apply (ho_num _ Hh)|lia|by apply (opened_tracks _ _ _ Ho), (ho_num _ Hh)].
      exists pre, n, post, rets, epd1, ep. split_and!; try done. intros Hin.
      pose proof (opened_entries _ _ _ Ho) as Hpt. rewrite Forall_forall in Hpt. by apply (Hpt ep Hin). }
  destruct (edits_tracks nb ltac:(lia) off blk edits epd rets epd' Hblk (ho_num _ Hh) ltac:(lia) Hed (opened_tracks _ _ _ Ho (ho_num _ Hh)) E)
    as [Ht (S1 & S2 & S3 & S4)].
  assert (Hd' : desc_ok epd' p).
  { constructor; [by rewrite S1|rewrite table_blocks; lia| |done|done]. unfold primary_entry_lba. by rewrite S1, S3. }
  destruct (efi_write_ok blk c epd' p Hc Hs Hd') as (blk1 & c1 & g1 & g2 & Ew & Hs1 & Hc1 & W).
  exists blk1, c1. split_and!; [done|done| | |apply (wr_frame _ _ _ _ _ _ W)].
  - destruct (read_written blk1 c c1 epd' p g1 g2 Hgpt Hl ltac:(lia) Hc1 Hs1 W) as (blk2 & Er & _).
    eexists g1, _, blk2. split_and!; [exact Er|rewrite <- S1; apply (wr_same1 _ _ _ _ _ _ W)|]. symmetry. apply Ht.
  - pose proof (f_equal (take 440) (wr_mbr _ _ _ _ _ _ W)) as M. unfold read_at in M. rewrite !drop_0, !take_take, Nat.min_l in M by lia.
    rewrite M. unfold DosPart.mbr_image. rewrite take_app_length'; [done|]. rewrite length_take. pose proof (le_blocks 1 nb ltac:(lia)). lia.
Qed.

End Disk.

(** ** What the parser promises *)

#[export] Instance efi_parser_ok {D : Type} : ParserOk (D := D) (PD := efi_partition_desc) (G := list byte).
Proof.
  split.
  - intros blk g pd nm fs s e ret pd'. cbn [mkpart partitions efi_parser]. unfold efi_partition_mkpart.
    destruct (s <? 34); [by intros [= <- <-]|]. destruct (_ <=? e); [by intros [= <- <-]|].
    destruct (if s32 _ <? 0 then _ else _) as [[i|]|]; [| |done]; [|by intros [= <- <-]].
    destruct (fs_type_to_guid fs); [|by intros [= <- <-]]. destruct (entry_at _ _); [|done]. intros [= <- <-]. cbn [Z.eqb eparts].
    rewrite map_app. eexists. split; [done|]. done.
  - intros pd i ret pd'. cbn [rmpart partitions efi_parser]. unfold efi_partition_rmpart. destruct (eparts pd !! i); [|done].
    destruct (pte _); [|done]. intros [= <- <-]. cbn [eparts]. generalize (eparts pd) as l. induction i as [|i IH]; intros [|x l]; try done.
    cbn. f_equal. apply IH.
Qed.

(** ** Errors *)

(** A disk of more than 2^32 blocks cannot get a GUID partition table.  The
    protective DOS table is made with [dos_partition_mkpart], which refuses a partition
    of more than [UINT_MAX] blocks, so writing fails and nothing reaches the disk. *)
Theorem efi_write_too_large {D : Type} write stats (ops : block_device_ops (D := D)) have random32 epd blk :
  2 ^ 32 < num_blocks blk < 2 ^ 64 -> filetype_mbr ∈ have -> h_num_partition_entries (gpt epd) = 128 ->
  efi_partition_write write stats ops have random32 epd blk = Some (- ENOSPC, blk).
Proof.
  intros Hnb Hdos Hnum. unfold efi_partition_write. rewrite Hnum. cbn [Z.eqb Pos.eqb negb]. unfold efi_protective_mbr.
  rewrite bool_decide_eq_true_2 by done. cbn [negb]. unfold last_lba. rewrite (u64_small (num_blocks blk - 1)) by lia.
  assert (E : DosPart.dos_partition_mkpart (DosPart.dos_partition_create_table random32) "primary" "0xee" 1 (num_blocks blk - 1)
    = (- ENOSPC, DosPart.dos_partition_create_table random32)).
  { unfold DosPart.dos_partition_mkpart. change (DosPart.fs_type_to_type "0xee") with 238. cbn [Z.ltb Z.compare Pos.compare Pos.compare_cont].
    cbn [DosPart.count_parts DosPart.dparts DosPart.dos_partition_create_table].
    rewrite (bool_decide_eq_false_2 ("primary"%string = _)), (bool_decide_eq_true_2 ("primary"%string = _)) by done. cbn [Z.eqb].
    change (DosPart.UINT_MAX <? 1) with false. unfold DosPart.UINT_MAX. rewrite u64_small by lia.
    by replace (2 ^ 32 - 1 <? num_blocks blk - 1 - 1 + 1) with true by lia. }
  rewrite E. done.
Qed.

Lemma find_num_snoc l p i : Forall (fun q => num q <> num p) l -> find_num (l ++ [p]) (num p) i = Some (i + length l)%nat.
Proof.
  revert i. induction l as [|q l IH]; intros i H; cbn [app find_num length].
  - rewrite Z.eqb_refl. f_equal. lia.
  - apply Forall_cons in H as [Hq H]. replace (num q =? num p) with false by lia. rewrite IH by done. f_equal. lia.
Qed.

(** A partition cannot be removed in the session that created it.
    [efi_partition_mkpart] does not set the pointer to the entry, which
    [efi_partition_rmpart] clears the entry through: the removal writes through a null
    pointer. *)
Theorem efi_remove_new {D : Type} (nb : Z) (blk : block_device (D := D)) noise epd nm fs s e epd' :
  0 < nb < 2 ^ 54 -> num_blocks blk = nb -> h_num_partition_entries (gpt epd) = 128 -> (128 * 128 <= length (ptes epd))%nat ->
  tracks nb epd -> efi_partition_mkpart blk noise epd nm fs s e = Some (0, epd') ->
  exists p, partitions (D := D) epd' = partitions (D := D) epd ++ [p] /\ partition_remove (D := D) epd' (num p) = None.
Proof.
  intros Hnb Hb Hnum Hlen [Hv _]. unfold efi_partition_mkpart. unfold last_lba. rewrite Hb, Hnum. change (s32 128) with 128.
  rewrite (u64_small (nb - 1)) by lia.
  destruct (s <? 34); [done|]. destruct (_ <=? e); [done|]. cbn [Z.ltb Z.compare]. change (Z.to_nat 128) with 128%nat.
  destruct (free_entry_ok 128 0 (ptes epd) (nb - 1) ltac:(lia)) as (r & -> & Hr). destruct r as [k|]; [|done].
  destruct (fs_type_to_guid fs) as [guid|]; [|done]. destruct (entry_at _ _) as [en|]; [|done]. intros [= <-]. destruct Hr as [Hk Hinv].
  cbn [partitions efi_parser eparts]. rewrite map_app. cbn [map epart]. eexists. split; [done|].
  unfold partition_remove. cbn [partitions rmpart efi_parser eparts]. rewrite map_app. cbn [map epart]. rewrite find_num_snoc.
  - unfold efi_partition_rmpart. cbn [eparts]. rewrite length_map, Nat.add_0_l.
    by rewrite (list_lookup_middle (eparts epd) [] _ (length (eparts epd)) eq_refl).
  - apply Forall_map, Forall_forall. intros ep Hin Heq. cbn [num] in Heq.
    assert (Hx : view (epart ep) ∈ views (scan 128 0 (ptes epd) (nb - 1))) by (rewrite <- Hv; apply elem_of_views; eauto).
    apply elem_of_views in Hx as (ep2 & Ev & (j & Hj & Es)%scan_elem). pose proof Es as Eq.
    apply (scan_one_ok _ nb) in Eq as (_ & Enum & _); [|lia]. assert (j = k) as -> by (injection Ev as Ev; lia).
    unfold scan_one in Es. by rewrite Hinv in Es.
Qed.

(** ** A disk of 100 blocks in memory *)

Module Demo.

Import DosPart.Demo.

Definition noise : list byte := replicate 16 Init.Byte.x5a.
Definition mem (n : Z) : bool := true.
Definition kinds : list filetype := [filetype_gpt; filetype_mbr].
Abbreviation zeroes := (Block.Demo.ram (2 ^ 9) 100 []).

Lemma efi_partition_safe_witness :
  exists r blk', efi_partition_parse true ram100 false true true mem [] disk = (Some r, blk') /\ contents (BlockIo := io) blk' zeroes /\
    forall epd, r = Some epd ->
      Forall (fun p => on_disk 100 p /\ 0 <= num p < MAX_PARTITION) (map epart (eparts epd)) /\ NoDup (map num (map epart (eparts epd))).
Proof. apply (efi_partition_safe true ram100 9 100 (Hio := io) ltac:(lia)). apply Block.Demo.ram_contents. Defined.

Definition new : efi_partition_desc := efi_partition_create_table 17408 disk noise.

Definition session : list (edit (G := list byte)) :=
  [Create noise "root" "ext4" 34 39; Create noise "data" "ext4" 38 50; Create noise "env" "bbenv" 40 50; Remove 5].

Lemma new_ok : desc_ok 9 100 new 2.
Proof.
  apply (new_desc_ok true ram100 9 100 (Hio := io) ltac:(lia) ltac:(lia) ltac:(lia) 17408 disk zeroes noise 34);
    [apply Block.Demo.ram_contents|done|reflexivity|lia|lia].
Qed.

Lemma session_rets : option_map fst (edit_all 17408 disk new session) = Some [0; - EINVAL; 0; - ENOENT].
Proof. vm_compute. reflexivity. Qed.

Lemma gpt_roundtrip_witness :
  exists epd', edit_all 17408 disk new session = Some ([0; - EINVAL; 0; - ENOENT], epd') /\
  exists blk' c', efi_partition_write true true ram100 kinds 7 epd' disk = Some (0, blk') /\ contents (BlockIo := io) blk' c' /\
    (exists g l blk'', partition_table_read true ram100 false true true mem kinds blk'
       = (Some (Some (efi_desc (Epd g (ptes epd') true true l))), blk'') /\
       same_table g (gpt new) /\ views l ≡ₚ views (eparts epd')) /\
    take 440 c' = take 440 zeroes /\
    forall o k, 2 * 2 ^ 9 <= Z.of_nat o -> (Z.of_nat (o + k) <= 2 * 2 ^ 9 \/ (2 + nblocks 9 16384) * 2 ^ 9 <= Z.of_nat o) ->
      Z.of_nat (o + k) <= (100 - 33) * 2 ^ 9 -> read_at c' o k = read_at zeroes o k.
Proof.
  pose proof session_rets as Hr. destruct (edit_all 17408 disk new session) as [[rets epd']|] eqn:E; [|discriminate].
  injection Hr as ->. exists epd'. split; [reflexivity|].
  pose proof (gpt_roundtrip true ram100 9 100 (Hio := io) ltac:(lia) false true true mem (conj eq_refl eq_refl) kinds ltac:(right; left) 7
    ltac:(lia) ltac:(lia) 17408 disk zeroes new 2 session ltac:(left) (opened_new _ _ _ _ _ _ _ _ _ _ _ noise ltac:(apply Block.Demo.ram_contents))
    new_ok ltac:(repeat constructor) ltac:(apply Block.Demo.ram_contents) I) as G.
  rewrite E in G. exact G.
Defined.

(** A disk of 2^32 + 1 blocks. *)
Definition large : block_device (D := list byte) := Block.Demo.ram_device (2 ^ 32 + 1) [].

Lemma efi_write_too_large_witness :
  efi_partition_write true true ram100 kinds 7 new large = Some (- ENOSPC, large).
Proof.
  apply efi_write_too_large.
  - change (num_blocks large) with (2 ^ 32 + 1). lia.
  - right. left.
  - exact (ho_num _ _ _ (do_head _ _ _ _ new_ok)).
Defined.

Abbreviation one_part := (efi_partition_mkpart disk noise new "root" "ext4" 34 39).

Lemma one_part_ret : option_map fst one_part = Some 0.
Proof. vm_compute. reflexivity. Qed.

Lemma efi_remove_new_witness :
  exists epd', one_part = Some (0, epd') /\
  exists p, partitions (D := list byte) epd' = partitions (D := list byte) new ++ [p] /\ partition_remove (D := list byte) epd' (num p) = None.
Proof.
  pose proof one_part_ret as Hr. destruct one_part as [[ret epd']|] eqn:E; [|discriminate]. injection Hr as ->.
  exists epd'. split; [reflexivity|]. apply (efi_remove_new 100 disk noise new "root" "ext4" 34 39 epd').
  - lia.
  - reflexivity.
  - exact (ho_num _ _ _ (do_head _ _ _ _ new_ok)).
  - unfold new, efi_partition_create_table. cbn [ptes]. rewrite length_replicate. unfold num_partition_entries, sizeof_gpt_entry. lia.
  - apply zero_tracks.
  - exact E.
Defined.

End Demo.

End Gpt.
