(* ===== verification/HashBlocks.v ===== *)
(** * Hashing in blocks

    What the digests of crypto/ share: a state that is changed by whole blocks of the
    message, and a buffer for the bytes of a block that is not complete.  The files of
    the digests show that their update functions keep [buffered]. *)

From stdpp Require Import base list.
From Stdlib Require Import ZArith Lia.
From S2P Require Import Prelude.

Module HashBlocks.

(** ** Lists in blocks *)

Lemma zip_nth {A B} (l : list A) (k : list B) a b n :
  length l = n -> length k = n -> zip l k = map (fun i => (nth i l a, nth i k b)) (seq 0 n).
Proof.
  revert k n. induction l as [|x l IH]; intros [|y k] [|n] H1 H2; try done. cbn [zip_with seq map nth]. f_equal.
  injection H1 as H1. injection H2 as H2. rewrite (IH k n) by done. rewrite <- seq_shift, map_map. done.
Qed.

Lemma flat_map_map {A B C} (f : B -> list C) (g : A -> B) l : flat_map f (map g l) = flat_map (fun x => f (g x)) l.
Proof. induction l as [|x l IH]; cbn [flat_map map]; [done|]. by rewrite IH. Qed.

Lemma seq_app_blocks n m : forall s, seq s (n * m) = flat_map (fun i => map (fun j => (s + m * i + j)%nat) (seq 0 m)) (seq 0 n).
Proof.
  induction n as [|n IH]; intros s; [done|]. cbn [Nat.mul seq flat_map]. rewrite seq_app, IH, <- seq_shift. f_equal.
  - rewrite <- (Nat.add_0_r s) at 1. rewrite <- fmap_add_seq. apply map_ext. intros j. lia.
  - rewrite flat_map_map. apply flat_map_ext. intros i. apply map_ext. intros j. lia.
Qed.

Lemma seq_blocks n m : seq 0 (n * m) = flat_map (fun i => map (fun j => (m * i + j)%nat) (seq 0 m)) (seq 0 n).
Proof. apply seq_app_blocks. Qed.

Lemma fold_left_flat_map {A B C} (f : A -> C -> A) (g : B -> list C) l a :
  fold_left f (flat_map g l) a = fold_left (fun a x => fold_left f (g x) a) l a.
Proof. revert a. induction l as [|x l IH]; intros a; cbn [flat_map fold_left]; [done|]. by rewrite fold_left_app. Qed.

Lemma map_flat_map {A B C} (f : B -> C) (g : A -> list B) l : map f (flat_map g l) = flat_map (fun x => map f (g x)) l.
Proof. induction l as [|x l IH]; cbn [flat_map map]; [done|]. by rewrite map_app, IH. Qed.

Lemma fold_left_map {A B C} (f : A -> C -> A) (g : B -> C) l a : fold_left f (map g l) a = fold_left (fun a x => f a (g x)) l a.
Proof. revert a. induction l as [|x l IH]; intros a; cbn [map fold_left]; [done|]. apply IH. Qed.

Lemma fold_left_ext {A B} (f g : A -> B -> A) l a : (forall a x, f a x = g a x) -> fold_left f l a = fold_left g l a.
Proof. intros H. revert a. induction l as [|x l IH]; intros a; cbn [fold_left]; [done|]. by rewrite H. Qed.

(** A loop with a second component that is only working memory. *)
Lemma fold_seq_sim {A B} (P : nat -> B -> Prop) (f : A * B -> nat -> A * B) (g : A -> nat -> A) N :
  (forall i a b, (i < N)%nat -> P i b -> exists b', f (a, b) i = (g a i, b') /\ P (S i) b') ->
  forall n i a b, (i + n <= N)%nat -> P i b -> exists b', fold_left f (seq i n) (a, b) = (fold_left g (seq i n) a, b') /\ P (i + n)%nat b'.
Proof.
  intros Hf. induction n as [|n IH]; intros i a b Hn Hb; cbn [seq fold_left]; [rewrite Nat.add_0_r; eauto|].
  destruct (Hf i a b ltac:(lia) Hb) as (b1 & -> & Hb1). destruct (IH (S i) (g a i) b1 ltac:(lia) Hb1) as (b2 & -> & Hb2).
  exists b2. split; [done|]. by replace (i + S n)%nat with (S i + n)%nat by lia.
Qed.

(** [memcpy(buf + off, src, n)] *)
Definition copy_in (b : list byte) (off n : Z) (src : list byte) : option (list byte) :=
  if (Z.of_nat (length src) <? n) || (Z.of_nat (length b) <? off + n) then None
  else Some (write_at b (Z.to_nat off) (take (Z.to_nat n) src)).

Lemma copy_in_ok b off n src :
  0 <= off -> 0 <= n <= Z.of_nat (length src) -> off + n <= Z.of_nat (length b) ->
  copy_in b off n src = Some (write_at b (Z.to_nat off) (take (Z.to_nat n) src)).
Proof. intros H1 H2 H3. unfold copy_in. by replace (_ || _) with false by lia. Qed.

Section Blocks.

Context {S : Type} (bs : nat) (Hbs : (0 < bs)%nat) (tr : S -> list byte -> S).

(** The first [n] blocks of the data. *)
Fixpoint absorb_n (n : nat) (st : S) (data : list byte) : S :=
  match n with
  | O => st
  | Datatypes.S n => absorb_n n (tr st (take bs data)) (drop bs data)
  end.

(** All whole blocks of the data, and what is behind them. *)
Definition absorb (st : S) (data : list byte) : S := absorb_n (length data / bs) st data.

Definition rest (data : list byte) : list byte := drop (bs * (length data / bs)) data.

Lemma length_rest data : length (rest data) = (length data mod bs)%nat.
Proof. unfold rest. rewrite length_drop. pose proof (Nat.div_mod (length data) bs ltac:(lia)). lia. Qed.

Lemma absorb_n_app n m st a b : length a = (n * bs)%nat -> absorb_n (n + m) st (a ++ b) = absorb_n m (absorb_n n st a) b.
Proof.
  revert st a. induction n as [|n IH]; intros st a H; cbn [absorb_n Nat.add].
  - destruct a; [done|]. cbn in H. lia.
  - rewrite take_app_le, drop_app_le by lia. apply IH. rewrite length_drop. lia.
Qed.

Lemma absorb_n_take n st data m : (n * bs <= m)%nat -> absorb_n n st (take m data) = absorb_n n st data.
Proof.
  revert st data m. induction n as [|n IH]; intros st data m H; cbn [absorb_n]; [done|].
  rewrite take_take, Nat.min_l by lia. rewrite skipn_firstn_comm. apply IH. lia.
Qed.

Lemma absorb_split st a b : absorb st (a ++ b) = absorb (absorb st a) (rest a ++ b).
Proof.
  set (n := (length a / bs)%nat). assert (Hn : (bs * n <= length a)%nat) by (apply Nat.Div0.mul_div_le).
  assert (Ha : a = take (bs * n) a ++ rest a) by (unfold rest; fold n; by rewrite take_drop).
  assert (Hl : length (take (bs * n) a) = (n * bs)%nat) by (rewrite length_take; lia).
  unfold absorb at 1. rewrite Ha at 2. rewrite <- app_assoc.
  replace (length (a ++ b) / bs)%nat with (n + length (rest a ++ b) / bs)%nat.
  - rewrite absorb_n_app by done. unfold absorb. fold n. by rewrite absorb_n_take by lia.
  - rewrite Ha at 2. rewrite <- app_assoc, (length_app (take _ _)), Hl, (Nat.add_comm (n * bs)), Nat.div_add by lia. lia.
Qed.

Lemma rest_split a b : rest (a ++ b) = rest (rest a ++ b).
Proof.
  set (n := (length a / bs)%nat). assert (Hn : (bs * n <= length a)%nat) by (apply Nat.Div0.mul_div_le).
  assert (Ha : a = take (bs * n) a ++ rest a) by (unfold rest; fold n; by rewrite take_drop).
  assert (Hl : length (take (bs * n) a) = (n * bs)%nat) by (rewrite length_take; lia).
  rewrite Ha at 1. rewrite <- app_assoc. unfold rest at 1. rewrite (length_app (take _ _)), Hl, (Nat.add_comm (n * bs)), Nat.div_add by lia.
  rewrite Nat.mul_add_distr_l, drop_app_ge by nia. rewrite Hl, (Nat.mul_comm n bs), Nat.add_sub. done.
Qed.

Lemma absorb_small st d : (length d < bs)%nat -> absorb st d = st /\ rest d = d.
Proof. intros H. unfold absorb, rest. rewrite Nat.div_small by done. by rewrite Nat.mul_0_r, drop_0. Qed.

Lemma absorb_block st b d : length b = bs -> absorb st (b ++ d) = absorb (tr st b) d /\ rest (b ++ d) = rest d.
Proof.
  intros H. unfold absorb, rest. rewrite length_app, H, Nat.add_comm. replace (length d + bs)%nat with (length d + 1 * bs)%nat by lia.
  rewrite Nat.div_add, Nat.add_comm by lia. cbn [Nat.add absorb_n]. rewrite take_app_length', drop_app_length' by done. split; [done|].
  rewrite Nat.mul_succ_r, drop_app_ge by nia. f_equal. lia.
Qed.

Lemma absorb_blocks st a b : (length a mod bs = 0)%nat -> absorb st (a ++ b) = absorb (absorb st a) b.
Proof.
  intros H. rewrite absorb_split. assert (rest a = []) as ->; [|done]. apply nil_length_inv. by rewrite length_rest.
Qed.

(** The state and the buffer after a message. *)
Record buffered (st0 : S) (msg : list byte) (st : S) (buf : list byte) : Prop := Buffered {
  bf_state : st = absorb st0 msg;
  bf_rest : take (length msg mod bs) buf = rest msg;
  bf_len : length buf = bs
}.

Lemma buffered_nil st buf : length buf = bs -> buffered st [] st buf.
Proof.
  intros H. destruct (absorb_small st [] ltac:(cbn; lia)) as [E1 E2]. constructor; [done| |done]. cbn [length]. rewrite Nat.Div0.mod_0_l, take_0. done.
Qed.

(** New bytes that do not complete a block. *)
Lemma buffered_small st0 msg st buf data :
  buffered st0 msg st buf -> (length msg mod bs + length data < bs)%nat ->
  buffered st0 (msg ++ data) st (write_at buf (length msg mod bs) data).
Proof.
  intros [-> Hr Hl] H. pose proof (length_rest msg) as Lr.
  destruct (absorb_small (absorb st0 msg) (rest msg ++ data)) as [E1 E2]; [rewrite length_app; lia|]. constructor.
  - rewrite absorb_split. by rewrite E1.
  - rewrite rest_split, E2, length_app. rewrite <- (Nat.Div0.add_mod_idemp_l (length msg)), Nat.mod_small by done.
    rewrite write_at_inside by lia. rewrite app_assoc, take_app_length'; [by rewrite Hr|]. rewrite length_app, length_take. lia.
  - by rewrite length_write_at.
Qed.

(** New bytes [d1] that complete the block, followed by any others. *)
Lemma buffered_large st0 msg st buf d1 d2 buf' :
  buffered st0 msg st buf -> (length msg mod bs + length d1 = bs)%nat -> length buf' = bs -> take (length d2 mod bs) buf' = rest d2 ->
  buffered st0 (msg ++ d1 ++ d2) (absorb (tr st (take (length msg mod bs) buf ++ d1)) d2) buf'.
Proof.
  intros [-> Hr Hl] H Hb Hr'. pose proof (length_rest msg) as Lr. rewrite Hr.
  destruct (absorb_block (absorb st0 msg) (rest msg ++ d1) d2) as [E1 E2]; [rewrite length_app; lia|]. constructor; [| |done].
  - by rewrite absorb_split, app_assoc, E1.
  - rewrite rest_split, (app_assoc (rest msg)), E2. rewrite <- Hr'. f_equal. rewrite !length_app.
    rewrite <- (Nat.Div0.add_mod_idemp_l (length msg)), Nat.add_assoc, H, Nat.Div0.add_mod, Nat.Div0.mod_same by lia.
    by rewrite Nat.add_0_l, Nat.Div0.mod_mod.
Qed.

(** ** The update function of crypto/sha1.c and crypto/sha2.c

    The two have the same text up to the way conditions are written.  Lengths are 64
    bits wide, [partial] and [done] 32 bits.  The result [None] is a loop that needs
    more rounds than there is fuel, [Some None] an access outside of a buffer. *)

Record ctx := Ctx {
  state : S;
  count : Z;
  buf : list byte
}.

(** The loop over whole blocks; [again] is its condition. *)
Fixpoint do_blocks (again : Z -> bool) (fuel : nat) (st : S) (src data : list byte) (done : Z) : option (option (S * Z)) :=
  match fuel with
  | O => None
  | Datatypes.S fuel =>
      if (length src <? bs)%nat then Some None
      else
        let st := tr st (take bs src) in
        let done := u32 (done + Z.of_nat bs) in
        if again done then do_blocks again fuel st (drop (Z.to_nat done) data) data done
        else Some (Some (st, done))
  end.

Definition update (again : Z -> Z -> bool) (fuel : nat) (c : ctx) (data : list byte) : option (option ctx) :=
  let len := Z.of_nat (length data) in
  let partial := count c mod Z.of_nat bs in
  let count' := u64 (count c + len) in
  if Z.of_nat bs <=? u64 (partial + len) then
    let done := if partial =? 0 then 0 else u32 (- partial) in
    match (if partial =? 0 then Some (buf c) else copy_in (buf c) partial (u32 (done + Z.of_nat bs)) data) with
    | None => Some None
    | Some b =>
        match do_blocks (again len) fuel (state c) (if partial =? 0 then data else b) data done with
        | None => None
        | Some None => Some None
        | Some (Some (st, done)) =>
            Some (match copy_in b 0 (u64 (len - done)) (drop (Z.to_nat done) data) with
                  | None => None
                  | Some b => Some (Ctx st count' b)
                  end)
        end
    end
  else
    Some (match copy_in (buf c) partial len data with
          | None => None
          | Some b => Some (Ctx (state c) count' b)
          end).

(** *** What an update does *)

Lemma absorb_drop st data d :
  0 <= d -> d + Z.of_nat bs <= Z.of_nat (length data) ->
  absorb st (drop (Z.to_nat d) data) = absorb (tr st (take bs (drop (Z.to_nat d) data))) (drop (Z.to_nat (d + Z.of_nat bs)) data) /\
  rest (drop (Z.to_nat d) data) = rest (drop (Z.to_nat (d + Z.of_nat bs)) data).
Proof.
  intros H1 H2. rewrite <- (take_drop bs (drop (Z.to_nat d) data)) at 1 3. rewrite Z2Nat.inj_add, Nat2Z.id, <- drop_drop by lia.
  apply absorb_block. rewrite length_take, length_drop. lia.
Qed.

Lemma do_blocks_ok again data fuel : forall st src dn,
  let len := Z.of_nat (length data) in
  (forall d, 0 <= d <= len -> again d = (d + Z.of_nat bs <=? len)) -> len <= 2 ^ 32 - Z.of_nat bs -> (bs <= length src)%nat ->
  0 <= u32 (dn + Z.of_nat bs) <= len -> len - u32 (dn + Z.of_nat bs) < Z.of_nat bs * Z.of_nat fuel ->
  exists d, do_blocks again fuel st src data dn = Some (Some (absorb (tr st (take bs src)) (drop (Z.to_nat (u32 (dn + Z.of_nat bs))) data), d)) /\
    0 <= d <= len /\ drop (Z.to_nat d) data = rest (drop (Z.to_nat (u32 (dn + Z.of_nat bs))) data).
Proof.
  induction fuel as [|fuel IH]; intros st src dn len Hag Hlen Hsrc Hd Hf; [lia|]. cbn [do_blocks]. cbn zeta.
  apply Nat.ltb_ge in Hsrc. rewrite Hsrc. set (d0 := u32 (dn + Z.of_nat bs)) in *.
  rewrite Hag by done. destruct (d0 + Z.of_nat bs <=? len) eqn:E; bool_prop.
  - assert (E0 : u32 (d0 + Z.of_nat bs) = d0 + Z.of_nat bs) by (apply u32_small; lia).
    destruct (IH (tr st (take bs src)) (drop (Z.to_nat d0) data) d0 Hag Hlen) as (d & Ed & Hd1 & Hd2).
    + rewrite length_drop. lia.
    + rewrite E0. lia.
    + rewrite E0. lia.
    + rewrite E0 in *. destruct (absorb_drop (tr st (take bs src)) data d0 ltac:(lia) ltac:(lia)) as [E1 E2].
      exists d. rewrite E1, E2. split_and!; (done || lia).
  - destruct (absorb_small (tr st (take bs src)) (drop (Z.to_nat d0) data)) as [E1 E2]; [rewrite length_drop; lia|].
    exists d0. rewrite E1, E2. split_and!; (done || lia).
Qed.

Context (Hpow : (Z.of_nat bs | 2 ^ 64)) (Hlow : Z.of_nat bs < 2 ^ 31).

(** The context after a message. *)
Definition hashed (st0 : S) (msg : list byte) (c : ctx) : Prop :=
  buffered st0 msg (state c) (buf c) /\ count c = u64 (Z.of_nat (length msg)).

Lemma count_mod (msg : list byte) : u64 (Z.of_nat (length msg)) mod Z.of_nat bs = Z.of_nat (length msg mod bs).
Proof. unfold u64. rewrite Z.mod_mod_divide by done. by rewrite Nat2Z.inj_mod. Qed.

Lemma write_rest b d : length b = bs -> take (length d mod bs) (write_at b 0 (rest d)) = rest d.
Proof.
  intros Hl. pose proof (length_rest d) as Lr. pose proof (Nat.mod_upper_bound (length d) bs ltac:(lia)).
  rewrite write_at_inside, take_0 by lia. cbn [app]. apply take_app_length'. lia.
Qed.

Lemma blocks_update_ok again fuel st0 msg c data :
  hashed st0 msg c -> (forall len d, 0 <= d <= len -> len <= 2 ^ 32 - 2 * Z.of_nat bs -> again len d = (d + Z.of_nat bs <=? len)) ->
  Z.of_nat (length data) <= 2 ^ 32 - 2 * Z.of_nat bs -> (length data < bs * fuel)%nat ->
  exists c', update again fuel c data = Some (Some c') /\ hashed st0 (msg ++ data) c'.
Proof.
  intros [Hb Hc] Hag Hlen Hf. pose proof Hb as [Est Hr Hl]. unfold update. rewrite Hc, count_mod. set (p := (length msg mod bs)%nat) in *.
  assert (Hp : (p < bs)%nat) by (apply Nat.mod_upper_bound; lia). rewrite (u64_small (Z.of_nat p + _)) by lia.
  assert (Ec : u64 (u64 (Z.of_nat (length msg)) + Z.of_nat (length data)) = u64 (Z.of_nat (length (msg ++ data)))).
  { unfold u64. rewrite Zplus_mod_idemp_l, length_app. f_equal. lia. }
  rewrite Ec. destruct (_ <=? _) eqn:E; bool_prop.
  2: { rewrite copy_in_ok by lia. rewrite Nat2Z.id, Nat2Z.id, take_ge by lia. eexists. split; [done|]. split; [|done]. cbn.
       apply buffered_small; [done|]. fold p. lia. }
  set (n := (bs - p)%nat). set (d1 := take n data). set (d2 := drop n data).
  assert (L1 : length d1 = n) by (subst d1; rewrite length_take; lia). assert (Hd : data = d1 ++ d2) by (symmetry; apply take_drop).
  set (b := write_at (buf c) p d1). assert (Lb : length b = bs) by (subst b; by rewrite length_write_at).
  set (done0 := if Z.of_nat p =? 0 then 0 else u32 (- Z.of_nat p)).
  assert (Ed : u32 (done0 + Z.of_nat bs) = Z.of_nat n).
  { subst done0 n. destruct (_ =? 0) eqn:E0; bool_prop; [rewrite u32_small; lia|].
    unfold u32. rewrite Zplus_mod_idemp_l. rewrite Z.mod_small; lia. }
  set (first := if Z.of_nat p =? 0 then data else b).
  assert (Ef : (bs <= length first)%nat /\ take bs first = take p (buf c) ++ d1).
  { subst first. destruct (_ =? 0) eqn:E0; bool_prop.
    - split; [lia|]. replace p with 0%nat by lia. rewrite take_0. subst d1 n. by replace (bs - p)%nat with bs by lia.
    - split; [lia|]. rewrite take_ge by lia. subst b. rewrite write_at_inside by lia. rewrite drop_ge by lia. by rewrite app_nil_r. }
  destruct Ef as [Lf Ef].
  assert (Em : (if Z.of_nat p =? 0 then Some (buf c) else copy_in (buf c) (Z.of_nat p) (u32 (done0 + Z.of_nat bs)) data)
    = Some (if Z.of_nat p =? 0 then buf c else b)).
  { destruct (_ =? 0); [done|]. rewrite Ed, copy_in_ok by lia. by rewrite !Nat2Z.id. }
  rewrite Em. set (b1 := if Z.of_nat p =? 0 then buf c else b). assert (Lb1 : length b1 = bs) by (subst b1; by destruct (_ =? 0)).
  replace (if Z.of_nat p =? 0 then data else b1) with first by (subst b1 first; by destruct (_ =? 0)).
  destruct (do_blocks_ok (again (Z.of_nat (length data))) data fuel (state c) first done0) as (d & E1 & Hd1 & Hd2);
    [intros d Hd0; apply Hag; lia|lia|done|rewrite Ed; lia|rewrite Ed; nia|].
  rewrite E1, Ed, Nat2Z.id in *. fold d2 in Hd2 |- *. rewrite Hd2.
  assert (Hlr : Z.of_nat (length data) - d = Z.of_nat (length (rest d2))) by (rewrite <- Hd2, length_drop; lia).
  pose proof (length_rest d2) as Lr. pose proof (Nat.mod_upper_bound (length d2) bs ltac:(lia)).
  rewrite Hlr, u64_small, copy_in_ok by lia. rewrite Nat2Z.id, (take_ge (rest d2)) by lia. eexists. split; [done|]. split; [|done]. cbn [state buf].
  rewrite Ef, Hd. apply buffered_large; [done|fold p; lia|by rewrite length_write_at|by apply write_rest].
Qed.

(** Lengths of 4 GiB and more: the condition of the loop never fails. *)
Lemma do_blocks_diverges again fuel : forall st src data d0, (forall d, 0 <= d < 2 ^ 32 -> again d = true) ->
  forall r, do_blocks again fuel st src data d0 <> Some (Some r).
Proof.
  induction fuel as [|fuel IH]; intros st src data d0 Hag r; cbn [do_blocks]; [done|]. destruct (_ <? _)%nat; [done|].
  cbn zeta. rewrite Hag by apply u32_range. by apply IH.
Qed.

Lemma update_diverges again fuel c data c' :
  (forall len d, 2 ^ 32 <= len -> 0 <= d < 2 ^ 32 -> again len d = true) -> 2 ^ 32 <= Z.of_nat (length data) < 2 ^ 63 ->
  update again fuel c data <> Some (Some c').
Proof.
  intros Hag Hlen. unfold update. pose proof (Z.mod_pos_bound (count c) (Z.of_nat bs) ltac:(lia)). rewrite (u64_small (_ mod _ + _)) by lia.
  replace (_ <=? _) with true by lia. destruct (if count c mod _ =? 0 then _ else _); [|done].
  destruct (do_blocks _ _ _ _ _ _) as [[[st d]|]|] eqn:E; try done. exfalso. revert E. apply do_blocks_diverges. intros d0 Hd0. apply Hag; lia.
Qed.

End Blocks.

Lemma absorb_ext {S : Type} bs (f g : S -> list byte -> S) st data : (forall st b, f st b = g st b) -> absorb bs f st data = absorb bs g st data.
Proof.
  intros H. unfold absorb. generalize (length data / bs)%nat as n. intros n. revert st data.
  induction n as [|n IH]; intros st data; cbn [absorb_n]; [done|]. by rewrite H.
Qed.

Arguments Ctx {S} state count buf.
Arguments state {S} c.
Arguments count {S} c.
Arguments buf {S} c.
Arguments buffered {S} bs tr st0 msg st buf.
Arguments absorb {S} bs tr st data.

(** ** A transformation with working memory

    The transformation of SHA-1 works in an array of its caller.  What is in the array
    at the start does not matter for an update. *)

Section Workspace.

Context {S A : Type} (bs : nat) (tr : S -> list byte -> S) (trw : S * A -> list byte -> S * A) (P : A -> Prop).
Context (Htr : forall st a b, P a -> exists a', trw (st, a) b = (tr st b, a') /\ P a').

Lemma do_blocks_workspace again fuel data : forall st a src d, P a ->
  do_blocks bs tr again fuel st src data d =
  match do_blocks bs trw again fuel (st, a) src data d with
  | Some (Some (st, d)) => Some (Some (fst st, d))
  | Some None => Some None
  | None => None
  end.
Proof.
  induction fuel as [|fuel IH]; intros st a src d Ha; cbn [do_blocks]; [done|]. destruct (_ <? _)%nat; [done|]. cbn zeta.
  destruct (Htr st a (take bs src) Ha) as (a' & -> & Ha'). destruct (again _); [by apply IH|done].
Qed.

Lemma update_workspace again fuel c a data : P a ->
  update bs tr again fuel c data =
  match update bs trw again fuel (Ctx (state c, a) (count c) (buf c)) data with
  | Some (Some c) => Some (Some (Ctx (fst (state c)) (count c) (buf c)))
  | Some None => Some None
  | None => None
  end.
Proof.
  intros Ha. unfold update. cbn [state count buf]. destruct (_ <=? u64 _); [|by destruct (copy_in _ _ _ _)].
  destruct (if count c mod _ =? 0 then _ else _) as [b|]; [|done].
  rewrite (do_blocks_workspace _ _ _ _ a) by done. destruct (do_blocks _ trw _ _ _ _ _ _) as [[[st d]|]|]; [|done..].
  by destruct (copy_in _ _ _ _).
Qed.

End Workspace.

(** ** A window of 16 words over a longer sequence

    The words of SHA-1 and SHA-512 are kept in an array of 16, word [i] at [i mod 16]. *)

Definition window (W : list Z) (t : nat) (array : list Z) : Prop :=
  length array = 16%nat /\ forall i, (i < t <= i + 16)%nat -> nth (i mod 16) array 0 = nth i W 0.

Lemma window_nth W t array i j : window W t array -> (i < t <= i + 16)%nat -> (j mod 16 = i mod 16)%nat -> nth (j mod 16) array 0 = nth i W 0.
Proof. intros [_ H] Hi ->. by apply H. Qed.

Lemma nth_insert_eq (l : list Z) i v : (i < length l)%nat -> nth i (<[i := v]> l) 0 = v.
Proof. intros H. apply nth_lookup_Some. by apply list_lookup_insert_eq. Qed.

Lemma nth_insert_ne (l : list Z) i j v : i <> j -> nth j (<[i := v]> l) 0 = nth j l 0.
Proof. intros H. rewrite !nth_lookup. by rewrite list_lookup_insert_ne. Qed.

Lemma window_step W t array v : window W t array -> v = nth t W 0 -> window W (S t) (<[(t mod 16)%nat := v]> array).
Proof.
  intros [Hl H] ->. pose proof (Nat.mod_upper_bound t 16 ltac:(lia)). split; [by rewrite length_insert|]. intros i Hi.
  destruct (decide (i = t)) as [->|Hne]; [apply nth_insert_eq; lia|]. rewrite nth_insert_ne; [apply H; lia|].
  intros E. pose proof (Nat.div_mod i 16 ltac:(lia)). pose proof (Nat.div_mod t 16 ltac:(lia)). lia.
Qed.

Lemma window_0 W array : length array = 16%nat -> window W 0 array.
Proof. intros H. split; [done|]. lia. Qed.

(** ** What a digest promises

    [hash_rep c msg] relates a context to the bytes that were given to it since it was
    started, [hash_wf] holds of every context of the digest.  One update takes less than
    4 GiB, and [hash_max] bounds a message.  [None] is an access outside of a buffer or
    a loop that does not end. *)

Record hash_algo := HashAlgo {
  hash_ctx : Type;
  hash_length : nat;
  hash_init : hash_ctx -> option hash_ctx;
  hash_update : hash_ctx -> list byte -> option hash_ctx;
  hash_final : hash_ctx -> option (list byte * hash_ctx)
}.

Class HashOk (a : hash_algo) (H : list byte -> list byte) := {
  hash_max : Z;
  hash_wf : hash_ctx a -> Prop;
  hash_rep : hash_ctx a -> list byte -> Prop;
  hash_rep_wf c msg : hash_rep c msg -> hash_wf c;
  hash_init_ok c : hash_wf c -> exists c', hash_init a c = Some c' /\ hash_rep c' [];
  hash_update_ok c msg data :
    hash_rep c msg -> Z.of_nat (length data) <= 2 ^ 32 - 128 -> exists c', hash_update a c data = Some c' /\ hash_rep c' (msg ++ data);
  hash_final_ok c msg :
    hash_rep c msg -> Z.of_nat (length msg) < hash_max -> exists c', hash_final a c = Some (H msg, c') /\ hash_wf c';
  hash_H_length msg : length (H msg) = hash_length a
}.

Arguments hash_max a {H HashOk}.

(** A message in pieces. *)
Fixpoint hash_updates (a : hash_algo) (c : hash_ctx a) (chunks : list (list byte)) : option (hash_ctx a) :=
  match chunks with
  | [] => Some c
  | d :: chunks => match hash_update a c d with Some c => hash_updates a c chunks | None => None end
  end.

(** The calls of a user: start, any number of updates, and the end. *)
Definition hash_run (a : hash_algo) (c : hash_ctx a) (chunks : list (list byte)) : option (list byte * hash_ctx a) :=
  match hash_init a c with
  | None => None
  | Some c => match hash_updates a c chunks with Some c => hash_final a c | None => None end
  end.

Definition small_chunks (chunks : list (list byte)) : Prop := Forall (fun d => Z.of_nat (length d) <= 2 ^ 32 - 128) chunks.

Lemma hash_updates_ok (a : hash_algo) {H} `{!HashOk a H} chunks : forall c msg,
  hash_rep c msg -> small_chunks chunks ->
  exists c', hash_updates a c chunks = Some c' /\ hash_rep c' (msg ++ concat chunks).
Proof.
  induction chunks as [|d chunks IH]; intros c msg Hc Hl; cbn [hash_updates concat]; [rewrite app_nil_r; eauto|].
  apply Forall_cons in Hl as [Hd Hl]. destruct (hash_update_ok c msg d Hc Hd) as (c1 & -> & Hc1).
  destruct (IH c1 (msg ++ d) Hc1 Hl) as (c2 & -> & Hc2). rewrite <- app_assoc in Hc2. eauto.
Qed.

Lemma hash_run_ok (a : hash_algo) {H} `{!HashOk a H} c chunks :
  hash_wf c -> small_chunks chunks -> Z.of_nat (length (concat chunks)) < hash_max a ->
  exists c', hash_run a c chunks = Some (H (concat chunks), c') /\ hash_wf c'.
Proof.
  intros Hc Hl Hm. unfold hash_run. destruct (hash_init_ok c Hc) as (c0 & -> & Hc0).
  destruct (hash_updates_ok a chunks c0 [] Hc0 Hl) as (c1 & -> & Hc1). by apply hash_final_ok.
Qed.

End HashBlocks.
