(* ===== verification/Fips180.v ===== *)
(** * The secure hash standard (FIPS 180-4)

    The algorithms as the standard gives them, the specification of crypto/sha1.c,
    crypto/sha2.c and crypto/sha4.c.  The constants of SHA-2 are computed from the
    fractional parts of the roots of primes. *)

From stdpp Require Import base list.
From Stdlib Require Import ZArith Lia.
From S2P Require Import Prelude HashBlocks.

Module Fips.

(** ** Functions on words of [w] bits *)

Definition ROTR (w n x : Z) : Z := Z.lor (Z.shiftr x n) (Z.shiftl x (w - n) mod 2 ^ w).
Definition ROTL (w n x : Z) : Z := Z.lor (Z.shiftl x n mod 2 ^ w) (Z.shiftr x (w - n)).
Definition Ch (x y z : Z) : Z := Z.lxor (Z.land x y) (Z.land (Z.lnot x) z).
Definition Maj (x y z : Z) : Z := Z.lxor (Z.lxor (Z.land x y) (Z.land x z)) (Z.land y z).
Definition Parity (x y z : Z) : Z := Z.lxor (Z.lxor x y) z.

(** ** Padding: a one bit, zeroes and the length in bits fill whole blocks *)

Definition sha_pad (bs len_bytes : nat) (msg : list byte) : list byte :=
  msg ++ [Init.Byte.x80] ++ replicate ((bs - (length msg + 1 + len_bytes) mod bs) mod bs) Init.Byte.x00 ++
  be_bytes len_bytes (8 * Z.of_nat (length msg)).

(** The words of a block. *)
Definition block_words (n : nat) (block : list byte) : list Z := map (fun i => be_val (read_at block (n * i) n)) (seq 0 16).

(** Further words, each from the ones before it. *)
Fixpoint extend (next : list Z -> Z) (n : nat) (W : list Z) : list Z :=
  match n with
  | O => W
  | S n => extend next n (W ++ [next W])
  end.

(** ** SHA-2 *)

Record words8 := W8 { w_a : Z; w_b : Z; w_c : Z; w_d : Z; w_e : Z; w_f : Z; w_g : Z; w_h : Z }.

Definition list8 (l : list Z) : words8 :=
  W8 (nth 0 l 0) (nth 1 l 0) (nth 2 l 0) (nth 3 l 0) (nth 4 l 0) (nth 5 l 0) (nth 6 l 0) (nth 7 l 0).

Definition words_of (x : words8) : list Z := [w_a x; w_b x; w_c x; w_d x; w_e x; w_f x; w_g x; w_h x].

Section Sha2.

Context (w : Z) (Sigma0 Sigma1 sigma0 sigma1 : Z -> Z) (K : list Z).

Definition add8 (x y : words8) : words8 :=
  W8 ((w_a x + w_a y) mod 2 ^ w) ((w_b x + w_b y) mod 2 ^ w) ((w_c x + w_c y) mod 2 ^ w) ((w_d x + w_d y) mod 2 ^ w)
     ((w_e x + w_e y) mod 2 ^ w) ((w_f x + w_f y) mod 2 ^ w) ((w_g x + w_g y) mod 2 ^ w) ((w_h x + w_h y) mod 2 ^ w).

Definition schedule_next (W : list Z) : Z :=
  let t := length W in
  (sigma1 (nth (t - 2) W 0) + nth (t - 7) W 0 + sigma0 (nth (t - 15) W 0) + nth (t - 16) W 0) mod 2 ^ w.

Definition schedule : nat -> list Z -> list Z := extend schedule_next.

Definition round (r : words8) (kw : Z * Z) : words8 :=
  let T1 := w_h r + Sigma1 (w_e r) + Ch (w_e r) (w_f r) (w_g r) + fst kw + snd kw in
  let T2 := Sigma0 (w_a r) + Maj (w_a r) (w_b r) (w_c r) in
  W8 ((T1 + T2) mod 2 ^ w) (w_a r) (w_b r) (w_c r) ((w_d r + T1) mod 2 ^ w) (w_e r) (w_f r) (w_g r).

Definition compress (H : words8) (block : list byte) : words8 :=
  let W := schedule (length K - 16) (block_words (Z.to_nat (w / 8)) block) in
  add8 H (fold_left round (zip K W) H).

End Sha2.

(** ** The constants *)

(** The cube root, bit by bit from bit [k] down. *)
Fixpoint cbrt_bits (k : nat) (r n : Z) : Z :=
  let r := if (r + 2 ^ Z.of_nat k) ^ 3 <=? n then r + 2 ^ Z.of_nat k else r in
  match k with
  | O => r
  | S k => cbrt_bits k r n
  end.

Definition is_prime (p : nat) : bool := forallb (fun d => negb (p mod d =? 0)%nat) (seq 2 (p - 2)).

(** The first 80 primes. *)
Definition primes : list Z := map Z.of_nat (List.filter is_prime (seq 2 408)).

(** The first [w] bits of the fractional part of a root. *)
Definition sqrt_frac (w p : Z) : Z := Z.sqrt (p * 2 ^ (2 * w)) mod 2 ^ w.
Definition cbrt_frac (w p : Z) : Z := cbrt_bits 70 0 (p * 2 ^ (3 * w)) mod 2 ^ w.

Definition K256 : list Z := map (cbrt_frac 32) (take 64 primes).
Definition K512 : list Z := map (cbrt_frac 64) primes.
Definition H256 : words8 := list8 (map (sqrt_frac 32) (take 8 primes)).
Definition H512 : words8 := list8 (map (sqrt_frac 64) (take 8 primes)).
Definition H384 : words8 := list8 (map (sqrt_frac 64) (take 8 (drop 8 primes))).
Definition H224 : words8 := list8 (map (fun p => sqrt_frac 64 p mod 2 ^ 32) (take 8 (drop 8 primes))).

(** ** The hash functions *)

Definition compress256 : words8 -> list byte -> words8 :=
  compress 32 (fun x => Z.lxor (Z.lxor (ROTR 32 2 x) (ROTR 32 13 x)) (ROTR 32 22 x))
    (fun x => Z.lxor (Z.lxor (ROTR 32 6 x) (ROTR 32 11 x)) (ROTR 32 25 x))
    (fun x => Z.lxor (Z.lxor (ROTR 32 7 x) (ROTR 32 18 x)) (Z.shiftr x 3))
    (fun x => Z.lxor (Z.lxor (ROTR 32 17 x) (ROTR 32 19 x)) (Z.shiftr x 10)) K256.

Definition compress512 : words8 -> list byte -> words8 :=
  compress 64 (fun x => Z.lxor (Z.lxor (ROTR 64 28 x) (ROTR 64 34 x)) (ROTR 64 39 x))
    (fun x => Z.lxor (Z.lxor (ROTR 64 14 x) (ROTR 64 18 x)) (ROTR 64 41 x))
    (fun x => Z.lxor (Z.lxor (ROTR 64 1 x) (ROTR 64 8 x)) (Z.shiftr x 7))
    (fun x => Z.lxor (Z.lxor (ROTR 64 19 x) (ROTR 64 61 x)) (Z.shiftr x 6)) K512.

Definition sha2_32 (H : words8) (msg : list byte) : list byte :=
  flat_map (be_bytes 4) (words_of (HashBlocks.absorb 64 compress256 H (sha_pad 64 8 msg))).

Definition sha2_64 (H : words8) (msg : list byte) : list byte :=
  flat_map (be_bytes 8) (words_of (HashBlocks.absorb 128 compress512 H (sha_pad 128 16 msg))).

Definition SHA256 (msg : list byte) : list byte := sha2_32 H256 msg.
Definition SHA224 (msg : list byte) : list byte := take 28 (sha2_32 H224 msg).
Definition SHA512 (msg : list byte) : list byte := sha2_64 H512 msg.
Definition SHA384 (msg : list byte) : list byte := take 48 (sha2_64 H384 msg).

(** SHA-1 *)

Record words5 := W5 { v_a : Z; v_b : Z; v_c : Z; v_d : Z; v_e : Z }.

Definition f1 (t : nat) (x y z : Z) : Z :=
  if (t <? 20)%nat then Ch x y z else if (t <? 40)%nat then Parity x y z else if (t <? 60)%nat then Maj x y z else Parity x y z.

Definition K1 (t : nat) : Z :=
  if (t <? 20)%nat then 0x5a827999 else if (t <? 40)%nat then 0x6ed9eba1 else if (t <? 60)%nat then 0x8f1bbcdc else 0xca62c1d6.

Definition schedule1_next (W : list Z) : Z :=
  let t := length W in
  ROTL 32 1 (Z.lxor (Z.lxor (Z.lxor (nth (t - 3) W 0) (nth (t - 8) W 0)) (nth (t - 14) W 0)) (nth (t - 16) W 0)).

Definition schedule1 : nat -> list Z -> list Z := extend schedule1_next.

Definition round1 (r : words5) (tw : nat * Z) : words5 :=
  let T := ROTL 32 5 (v_a r) + f1 (fst tw) (v_b r) (v_c r) (v_d r) + v_e r + K1 (fst tw) + snd tw in
  W5 (T mod 2 ^ 32) (v_a r) (ROTL 32 30 (v_b r)) (v_c r) (v_d r).

Definition compress1 (H : words5) (block : list byte) : words5 :=
  let r := fold_left round1 (zip (seq 0 80) (schedule1 64 (block_words 4 block))) H in
  W5 ((v_a H + v_a r) mod 2 ^ 32) ((v_b H + v_b r) mod 2 ^ 32) ((v_c H + v_c r) mod 2 ^ 32) ((v_d H + v_d r) mod 2 ^ 32)
     ((v_e H + v_e r) mod 2 ^ 32).

Definition H160 : words5 := W5 0x67452301 0xefcdab89 0x98badcfe 0x10325476 0xc3d2e1f0.

Definition SHA1 (msg : list byte) : list byte :=
  let h := HashBlocks.absorb 64 compress1 H160 (sha_pad 64 8 msg) in
  flat_map (be_bytes 4) [v_a h; v_b h; v_c h; v_d h; v_e h].

(** ** What the definitions mean *)

Lemma cbrt_bits_spec k : forall r n, 0 <= r -> r ^ 3 <= n < (r + 2 ^ (Z.of_nat k + 1)) ^ 3 ->
  cbrt_bits k r n ^ 3 <= n < (cbrt_bits k r n + 1) ^ 3.
Proof.
  induction k as [|k IH]; intros r n Hr Hn; cbn [cbrt_bits].
  - destruct (_ <=? n) eqn:E; bool_prop; change (2 ^ Z.of_nat 0) with 1 in *; change (2 ^ (Z.of_nat 0 + 1)) with 2 in Hn; [|lia].
    replace (r + 1 + 1) with (r + 2) by lia. lia.
  - assert (Hp : 2 ^ (Z.of_nat (S k) + 1) = 2 ^ Z.of_nat (S k) + 2 ^ Z.of_nat (S k)) by (rewrite Z.pow_add_r by lia; lia).
    replace (Z.of_nat k + 1) with (Z.of_nat (S k)) in IH by lia. rewrite Hp in Hn.
    destruct (_ <=? n) eqn:E; bool_prop; apply IH; rewrite <- ?Z.add_assoc; lia.
Qed.

Lemma pow_70 n : 0 <= n < 2 ^ 213 -> 0 ^ 3 <= n < (0 + 2 ^ (Z.of_nat 70 + 1)) ^ 3.
Proof. intros H. change ((0 + 2 ^ (Z.of_nat 70 + 1)) ^ 3) with (2 ^ 213). lia. Qed.

Lemma primes_first : length primes = 80%nat /\ take 10 primes = [2; 3; 5; 7; 11; 13; 17; 19; 23; 29].
Proof. vm_compute. done. Qed.

Lemma length_extend next n : forall W, length (extend next n W) = (length W + n)%nat.
Proof. induction n as [|n IH]; intros W; cbn [extend]; [lia|]. rewrite IH, length_app. cbn. lia. Qed.

Lemma extend_prefix next n : forall W, take (length W) (extend next n W) = W.
Proof.
  induction n as [|n IH]; intros W; cbn [extend]; [by apply take_ge|].
  specialize (IH (W ++ [next W])). apply (f_equal (take (length W))) in IH.
  rewrite take_take, length_app, Nat.min_l in IH by lia. rewrite IH. by apply take_app_length'.
Qed.

Lemma extend_nth_old next n W t : (t < length W)%nat -> nth t (extend next n W) 0 = nth t W 0.
Proof. intros H. rewrite <- (extend_prefix next n W) at 2. symmetry. rewrite !nth_lookup. by rewrite lookup_take_lt. Qed.

Lemma extend_nth_new next n : forall W t, (length W <= t < length W + n)%nat ->
  nth t (extend next n W) 0 = next (take t (extend next n W)).
Proof.
  induction n as [|n IH]; intros W t H; [lia|]. cbn [extend]. destruct (decide (t = length W)) as [->|Hne].
  - rewrite extend_nth_old by (rewrite length_app; cbn; lia). rewrite nth_middle. f_equal.
    pose proof (extend_prefix next n (W ++ [next W])) as E. apply (f_equal (take (length W))) in E.
    rewrite take_take, length_app, Nat.min_l in E by lia. rewrite E. symmetry. by apply take_app_length'.
  - apply IH. rewrite length_app. cbn. lia.
Qed.

Lemma nth_take (l : list Z) n t : (t < n)%nat -> nth t (take n l) 0 = nth t l 0.
Proof. intros H. rewrite !nth_lookup. by rewrite lookup_take_lt. Qed.

Lemma schedule_nth w s0 s1 n W t : length W = 16%nat -> (16 <= t < 16 + n)%nat ->
  let V := schedule w s0 s1 n W in
  nth t V 0 = (s1 (nth (t - 2) V 0) + nth (t - 7) V 0 + s0 (nth (t - 15) V 0) + nth (t - 16) V 0) mod 2 ^ w.
Proof.
  intros HW Ht V. unfold V, schedule at 1. rewrite extend_nth_new by lia. unfold schedule_next.
  rewrite length_take, length_extend, Nat.min_l by lia. rewrite !nth_take by lia. done.
Qed.

Lemma schedule1_nth n W t : length W = 16%nat -> (16 <= t < 16 + n)%nat ->
  let V := schedule1 n W in
  nth t V 0 = ROTL 32 1 (Z.lxor (Z.lxor (Z.lxor (nth (t - 3) V 0) (nth (t - 8) V 0)) (nth (t - 14) V 0)) (nth (t - 16) V 0)).
Proof.
  intros HW Ht V. unfold V, schedule1 at 1. rewrite extend_nth_new by lia. unfold schedule1_next.
  rewrite length_take, length_extend, Nat.min_l by lia. rewrite !nth_take by lia. done.
Qed.

Lemma length_pad bs lb msg : (0 < bs)%nat -> (length (sha_pad bs lb msg) mod bs = 0)%nat.
Proof.
  intros Hb. unfold sha_pad. rewrite !length_app, length_replicate, length_be_bytes. cbn [length].
  set (m := (length msg + 1 + lb)%nat). replace (length msg + (1 + ((bs - m mod bs) mod bs + lb)))%nat with (m + (bs - m mod bs) mod bs)%nat by lia.
  rewrite Nat.Div0.add_mod_idemp_r. rewrite <- Nat.Div0.add_mod_idemp_l. pose proof (Nat.mod_upper_bound m bs ltac:(lia)).
  replace (m mod bs + (bs - m mod bs))%nat with bs by lia. apply Nat.Div0.mod_same.
Qed.

(** The padding as it is computed from the number of bytes in the last block. *)
Lemma pad_split bs lb (msg : list byte) :
  (lb < bs)%nat ->
  let index := (length msg mod bs)%nat in
  let pl := (if (index <? bs - lb)%nat then bs - lb - index else bs + (bs - lb) - index)%nat in
  (0 < pl <= bs)%nat /\
  sha_pad bs lb msg = msg ++ take pl (Init.Byte.x80 :: replicate (bs - 1) Init.Byte.x00) ++ be_bytes lb (8 * Z.of_nat (length msg)).
Proof.
  intros Hlb index pl. assert (Hi : (index < bs)%nat) by (apply Nat.mod_upper_bound; lia).
  assert (Hpl : (0 < pl <= bs)%nat).
  { subst pl. destruct (index <? bs - lb)%nat eqn:E; [apply Nat.ltb_lt in E|apply Nat.ltb_ge in E]; lia. }
  split; [done|]. unfold sha_pad.
  replace ((bs - (length msg + 1 + lb) mod bs) mod bs)%nat with (pl - 1)%nat.
  - destruct pl as [|pl]; [lia|]. cbn [take]. rewrite take_replicate, Nat.min_l by lia. cbn [Nat.sub]. by rewrite Nat.sub_0_r.
  - replace (length msg + 1 + lb)%nat with (length msg + (1 + lb))%nat by lia. rewrite <- Nat.Div0.add_mod_idemp_l. fold index.
    subst pl. destruct (index <? bs - lb)%nat eqn:E; [apply Nat.ltb_lt in E|apply Nat.ltb_ge in E].
    + destruct (decide (index + (1 + lb) = bs)%nat) as [Heq|Hne].
      * rewrite Heq, Nat.Div0.mod_same, Nat.sub_0_r, Nat.Div0.mod_same. lia.
      * rewrite (Nat.mod_small (index + _)) by lia. rewrite Nat.mod_small; lia.
    + replace (index + (1 + lb))%nat with (index + (1 + lb) - bs + 1 * bs)%nat by lia. rewrite Nat.Div0.mod_add.
      rewrite (Nat.mod_small (index + _ - _)) by lia. rewrite Nat.mod_small; lia.
Qed.

(** The number of bytes of padding in the arithmetic of the code. *)
Lemma pad_len_eq (bs lb index : nat) :
  (lb < bs)%nat -> (index < bs)%nat ->
  Z.to_nat (if Z.of_nat index <? Z.of_nat (bs - lb) then Z.of_nat (bs - lb) - Z.of_nat index else Z.of_nat bs + Z.of_nat (bs - lb) - Z.of_nat index) =
  (if (index <? bs - lb)%nat then bs - lb - index else bs + (bs - lb) - index)%nat.
Proof.
  intros H1 H2. destruct (index <? bs - lb)%nat eqn:E; [apply Nat.ltb_lt in E|apply Nat.ltb_ge in E].
  - rewrite (proj2 (Z.ltb_lt (Z.of_nat index) _)) by lia. lia.
  - rewrite (proj2 (Z.ltb_ge (Z.of_nat index) _)) by lia. lia.
Qed.

(** The test vectors of the standard for "abc". *)
Definition abc : list byte := [Init.Byte.x61; Init.Byte.x62; Init.Byte.x63].

Example SHA256_abc : be_val (SHA256 abc) = 0xba7816bf8f01cfea414140de5dae2223b00361a396177a9cb410ff61f20015ad.
Proof. vm_compute. reflexivity. Qed.

Example SHA224_abc : be_val (SHA224 abc) = 0x23097d223405d8228642a477bda255b32aadbce4bda0b3f7e36c9da7.
Proof. vm_compute. reflexivity. Qed.

Example SHA512_abc : be_val (SHA512 abc) =
  0xddaf35a193617abacc417349ae20413112e6fa4e89a97ea20a9eeee64b55d39a2192992a274fc1a836ba3c23a3feebbd454d4423643ce80e2a9ac94fa54ca49f.
Proof. vm_compute. reflexivity. Qed.

Example SHA384_abc : be_val (SHA384 abc) =
  0xcb00753f45a35e8bb5a03d699ac65007272c32ab0eded1631a8b605a43ff5bed8086072ba1e7cc2358baeca134c825a7.
Proof. vm_compute. reflexivity. Qed.

Example SHA1_abc : be_val (SHA1 abc) = 0xa9993e364706816aba3e25717850c26c9cd0d89d.
Proof. vm_compute. reflexivity. Qed.

End Fips.
