(* ===== verification/Sha2.v ===== *)
(** * SHA-224 and SHA-256 (crypto/sha2.c)

    The transformation of a block with its rounds, the update function on the buffer of
    the context, and the padding.  [None] is an access outside of a buffer or a loop
    that does not end. *)

From stdpp Require Import base list.
From Stdlib Require Import ZArith Lia.
From S2P Require Import Prelude HashBlocks Fips180.

Module Sha2.

Import HashBlocks.

(** ** The end of a message

    The first part of the final functions, which crypto/sha1.c has with the same text:
    the padding, and the length in bits. *)

Section Pad.

Context {S : Type} (upd : ctx (S := S) -> list byte -> option (ctx (S := S))).

Definition padding : list byte := Init.Byte.x80 :: replicate 63 Init.Byte.x00.

Definition pad_final (sctx : ctx (S := S)) : option (ctx (S := S)) :=
  let bits := be_bytes 8 (u64 (Z.shiftl (count sctx) 3)) in
  let index := Z.land (count sctx) 0x3f in
  let pad_len := if index <? 56 then 56 - index else 64 + 56 - index in
  match upd sctx (take (Z.to_nat pad_len) padding) with
  | None => None
  | Some sctx => upd sctx bits
  end.

Lemma land_3f n : Z.land (Z.of_nat n) 0x3f = Z.of_nat (n mod 64).
Proof. change 0x3f with (Z.ones 6). rewrite Z.land_ones by lia. by rewrite Nat2Z.inj_mod. Qed.

Context (tr : S -> list byte -> S) (H0 : S).
Context (Hupd : forall msg c data, hashed 64 tr H0 msg c -> Z.of_nat (length data) <= 2 ^ 32 - 128 ->
  exists c', upd c data = Some c' /\ hashed 64 tr H0 (msg ++ data) c').

Lemma pad_final_ok msg c :
  hashed 64 tr H0 msg c -> Z.of_nat (length msg) < 2 ^ 61 ->
  exists c', pad_final c = Some c' /\ state c' = absorb 64 tr H0 (Fips.sha_pad 64 8 msg).
Proof.
  intros Hc Hl. unfold pad_final. destruct Hc as [Hb Ec]. rewrite Ec, u64_small by lia. rewrite land_3f, Z.shiftl_mul_pow2, u64_small by lia.
  destruct (Fips.pad_split 64 8 msg ltac:(lia)) as [Hpl Hpad]. set (index := (length msg mod 64)%nat) in *.
  assert (Hi : (index < 64)%nat) by (apply Nat.mod_upper_bound; lia). pose proof (Fips.pad_len_eq 64 8 index ltac:(lia) Hi) as Epl.
  set (pl := (if (index <? 64 - 8)%nat then (64 - 8 - index)%nat else (64 + (64 - 8) - index)%nat)) in *.
  change (Z.of_nat (64 - 8)) with 56 in Epl. change (Z.of_nat 64) with 64 in Epl. rewrite Epl.
  destruct (Hupd msg c (take pl padding)) as (c1 & -> & Hc1); [by split|rewrite length_take; lia|].
  destruct (Hupd _ c1 (be_bytes 8 (Z.of_nat (length msg) * 2 ^ 3)) Hc1) as (c2 & -> & [Hb2 _]); [rewrite length_be_bytes; lia|].
  exists c2. split; [done|]. rewrite Hpad. destruct Hb2 as [-> _ _]. by rewrite <- app_assoc, (Z.mul_comm (Z.of_nat (length msg))).
Qed.

End Pad.

(** ** Rounds

    crypto/sha2.c and crypto/sha4.c have them with the same text, for words of 32 and
    of 64 bits. *)

Definition Ch (x y z : Z) : Z := Z.lxor z (Z.land x (Z.lxor y z)).
Definition Maj (x y z : Z) : Z := Z.lor (Z.land x y) (Z.land z (Z.lor x y)).

Section Rounds.

Context (bits : Z) (e0 e1 : Z -> Z).

(** One round, which changes two of the registers. *)
Definition line (a b c d e f g h k w : Z) : Z * Z :=
  let t1 := (h + e1 e + Ch e f g + k + w) mod 2 ^ bits in
  let t2 := (e0 a + Maj a b c) mod 2 ^ bits in
  ((d + t1) mod 2 ^ bits, (t1 + t2) mod 2 ^ bits).

(** Eight rounds bring the registers back to their places. *)
Definition lines (k w : nat -> Z) (r : Fips.words8) : Fips.words8 :=
  let '(Fips.W8 a b c d e f g h) := r in
  let '(d, h) := line a b c d e f g h (k 0%nat) (w 0%nat) in
  let '(c, g) := line h a b c d e f g (k 1%nat) (w 1%nat) in
  let '(b, f) := line g h a b c d e f (k 2%nat) (w 2%nat) in
  let '(a, e) := line f g h a b c d e (k 3%nat) (w 3%nat) in
  let '(h, d) := line e f g h a b c d (k 4%nat) (w 4%nat) in
  let '(g, c) := line d e f g h a b c (k 5%nat) (w 5%nat) in
  let '(f, b) := line c d e f g h a b (k 6%nat) (w 6%nat) in
  let '(e, a) := line b c d e f g h a (k 7%nat) (w 7%nat) in
  Fips.W8 a b c d e f g h.

Lemma Ch_eq x y z : Ch x y z = Fips.Ch x y z.
Proof. apply Z.bits_inj'. intros n Hn. unfold Ch, Fips.Ch. rewrite !Z.lxor_spec, !Z.land_spec, Z.lxor_spec, Z.lnot_spec by done. by repeat destruct (Z.testbit _ _). Qed.

Lemma Maj_eq x y z : Maj x y z = Fips.Maj x y z.
Proof. apply Z.bits_inj'. intros n Hn. unfold Maj, Fips.Maj. rewrite Z.lor_spec, !Z.lxor_spec, !Z.land_spec, Z.lor_spec. by repeat destruct (Z.testbit _ _). Qed.

(** A round of the standard moves all registers on by one place. *)
Lemma line_round a b c d e f g h k w :
  (Fips.round bits e0 e1) (Fips.W8 a b c d e f g h) (k, w) = let '(d', h') := line a b c d e f g h k w in Fips.W8 h' a b c d' e f g.
Proof.
  unfold Fips.round, line. cbn [Fips.w_a Fips.w_b Fips.w_c Fips.w_d Fips.w_e Fips.w_f Fips.w_g Fips.w_h fst snd].
  rewrite Ch_eq, Maj_eq. by rewrite Zplus_mod_idemp_r, Zplus_mod_idemp_l, Zplus_mod_idemp_r.
Qed.

Lemma lines_rounds k w r : lines k w r = fold_left (Fips.round bits e0 e1) (map (fun j => (k j, w j)) (seq 0 8)) r.
Proof.
  destruct r as [a b c d e f g h]. cbn [seq map fold_left]. unfold lines.
  do 8 (rewrite line_round; match goal with |- context [line ?a ?b ?c ?d ?e ?f ?g ?h ?k ?w] => destruct (line a b c d e f g h k w) end).
  done.
Qed.

End Rounds.

(** ** The transformation of a block *)

Definition ror32 (word shift : Z) : Z := Z.lor (Z.shiftr word shift) (u32 (Z.shiftl word (32 - shift))).

Definition e0 (x : Z) : Z := Z.lxor (Z.lxor (ror32 x 2) (ror32 x 13)) (ror32 x 22).
Definition e1 (x : Z) : Z := Z.lxor (Z.lxor (ror32 x 6) (ror32 x 11)) (ror32 x 25).
Definition s0 (x : Z) : Z := Z.lxor (Z.lxor (ror32 x 7) (ror32 x 18)) (Z.shiftr x 3).
Definition s1 (x : Z) : Z := Z.lxor (Z.lxor (ror32 x 17) (ror32 x 19)) (Z.shiftr x 10).

Definition LOAD_OP (input : list byte) (I : nat) : Z := be_val (read_at input (4 * I) 4).

Definition BLEND_OP (I : nat) (W : list Z) : Z :=
  u32 (s1 (nth (I - 2) W 0) + nth (I - 7) W 0 + s0 (nth (I - 15) W 0) + nth (I - 16) W 0).

(** The words from [I] on; the array grows by one word at a time. *)
Fixpoint blend (n I : nat) (W : list Z) : list Z :=
  match n with
  | O => W
  | S n => blend n (S I) (W ++ [BLEND_OP I W])
  end.

(** The lines of the rounds: the constant and the index of the word in [W]. *)
Definition sha256_lines : list (Z * nat) :=
  [(0x428a2f98, 0%nat); (0x71374491, 1%nat); (0xb5c0fbcf, 2%nat); (0xe9b5dba5, 3%nat);
   (0x3956c25b, 4%nat); (0x59f111f1, 5%nat); (0x923f82a4, 6%nat); (0xab1c5ed5, 7%nat);
   (0xd807aa98, 8%nat); (0x12835b01, 9%nat); (0x243185be, 10%nat); (0x550c7dc3, 11%nat);
   (0x72be5d74, 12%nat); (0x80deb1fe, 13%nat); (0x9bdc06a7, 14%nat); (0xc19bf174, 15%nat);
   (0xe49b69c1, 16%nat); (0xefbe4786, 17%nat); (0x0fc19dc6, 18%nat); (0x240ca1cc, 19%nat);
   (0x2de92c6f, 20%nat); (0x4a7484aa, 21%nat); (0x5cb0a9dc, 22%nat); (0x76f988da, 23%nat);
   (0x983e5152, 24%nat); (0xa831c66d, 25%nat); (0xb00327c8, 26%nat); (0xbf597fc7, 27%nat);
   (0xc6e00bf3, 28%nat); (0xd5a79147, 29%nat); (0x06ca6351, 30%nat); (0x14292967, 31%nat);
   (0x27b70a85, 32%nat); (0x2e1b2138, 33%nat); (0x4d2c6dfc, 34%nat); (0x53380d13, 35%nat);
   (0x650a7354, 36%nat); (0x766a0abb, 37%nat); (0x81c2c92e, 38%nat); (0x92722c85, 39%nat);
   (0xa2bfe8a1, 40%nat); (0xa81a664b, 41%nat); (0xc24b8b70, 42%nat); (0xc76c51a3, 43%nat);
   (0xd192e819, 44%nat); (0xd6990624, 45%nat); (0xf40e3585, 46%nat); (0x106aa070, 47%nat);
   (0x19a4c116, 48%nat); (0x1e376c08, 49%nat); (0x2748774c, 50%nat); (0x34b0bcb5, 51%nat);
   (0x391c0cb3, 52%nat); (0x4ed8aa4a, 53%nat); (0x5b9cca4f, 54%nat); (0x682e6ff3, 55%nat);
   (0x748f82ee, 56%nat); (0x78a5636f, 57%nat); (0x84c87814, 58%nat); (0x8cc70208, 59%nat);
   (0x90befffa, 60%nat); (0xa4506ceb, 61%nat); (0xbef9a3f7, 62%nat); (0xc67178f2, 63%nat)].

Definition sha256_line (i : nat) : Z * nat := nth i sha256_lines (0, i).

Definition sha256_transform (state : Fips.words8) (input : list byte) : Fips.words8 :=
  let W := blend 48 16 (map (LOAD_OP input) (seq 0 16)) in
  let r := fold_left (fun r i => lines 32 e0 e1 (fun j => (sha256_line (8 * i + j)).1) (fun j => nth (sha256_line (8 * i + j)).2 W 0) r) (seq 0 8) state in
  Fips.add8 32 state r.

(** ** The context *)

Definition sha256_state : Type := ctx (S := Fips.words8).

Definition SHA224_DIGEST_SIZE : nat := 28.
Definition SHA256_DIGEST_SIZE : nat := 32.

Definition SHA224_H : Fips.words8 :=
  Fips.W8 0xc1059ed8 0x367cd507 0x3070dd17 0xf70e5939 0xffc00b31 0x68581511 0x64f98fa7 0xbefa4fa4.

Definition SHA256_H : Fips.words8 :=
  Fips.W8 0x6a09e667 0xbb67ae85 0x3c6ef372 0xa54ff53a 0x510e527f 0x9b05688c 0x1f83d9ab 0x5be0cd19.

Definition sha224_init (sctx : sha256_state) : sha256_state := Ctx SHA224_H 0 (buf sctx).
Definition sha256_init (sctx : sha256_state) : sha256_state := Ctx SHA256_H 0 (buf sctx).

(** The loop condition [done + 63 < len]. *)
Definition again (len done : Z) : bool := u32 (done + 63) <? len.

(** With a number of rounds that is enough for any data. *)
Definition sha256_update_fuel (fuel : nat) (sctx : sha256_state) (data : list byte) : option (option sha256_state) :=
  update 64 sha256_transform again fuel sctx data.

Definition sha256_update (sctx : sha256_state) (data : list byte) : option sha256_state :=
  match sha256_update_fuel (S (length data)) sctx data with
  | Some (Some sctx) => Some sctx
  | _ => None
  end.

Definition sha256_final (sctx : sha256_state) : option (list byte * sha256_state) :=
  match pad_final sha256_update sctx with
  | None => None
  | Some sctx =>
      Some (flat_map (be_bytes 4) (Fips.words_of (state sctx)), Ctx (Fips.W8 0 0 0 0 0 0 0 0) 0 (replicate 64 Init.Byte.x00))
  end.

Definition sha224_final (sctx : sha256_state) : option (list byte * sha256_state) :=
  match sha256_final sctx with
  | Some (D, sctx) => Some (take SHA224_DIGEST_SIZE D, sctx)
  | None => None
  end.

(** ** The transformation is that of the standard *)

Lemma blend_schedule n : forall W, blend n (length W) W = Fips.schedule 32 s0 s1 n W.
Proof.
  induction n as [|n IH]; intros W; cbn [blend]; [done|].
  change (Fips.schedule 32 s0 s1 (S n) W) with (Fips.schedule 32 s0 s1 n (W ++ [BLEND_OP (length W) W])).
  replace (S (length W)) with (length (W ++ [BLEND_OP (length W) W])) by (rewrite length_app; cbn; lia). by rewrite IH.
Qed.

Lemma sha256_lines_eq : Fips.K256 = map fst sha256_lines.
Proof. vm_compute. reflexivity. Qed.

(** Line [i] has constant [i] and takes word [i]. *)
Lemma sha256_line_eq i : sha256_line i = (nth i (map fst sha256_lines) 0, i).
Proof. do 64 (destruct i as [|i]; [reflexivity|]). unfold sha256_line. cbn. by destruct i. Qed.

Lemma SHA256_H_eq : SHA256_H = Fips.H256.
Proof. vm_compute. reflexivity. Qed.

Lemma SHA224_H_eq : SHA224_H = Fips.H224.
Proof. vm_compute. reflexivity. Qed.

Theorem sha256_transform_fips state input : sha256_transform state input = Fips.compress256 state input.
Proof.
  unfold sha256_transform, Fips.compress256, Fips.compress. rewrite sha256_lines_eq. change (length (map fst sha256_lines) - 16)%nat with 48%nat.
  f_equal. change (Fips.block_words (Z.to_nat (32 / 8)) input) with (map (LOAD_OP input) (seq 0 16)).
  change (blend 48 16) with (blend 48 (length (map (LOAD_OP input) (seq 0 16)))). rewrite blend_schedule.
  set (W := Fips.schedule _ _ _ _ _).
  assert (LW : length W = 64%nat) by (unfold W; rewrite <- blend_schedule; reflexivity).
  rewrite (zip_nth (map fst sha256_lines) W 0 0 64) by done. change (seq 0 64) with (seq 0 (8 * 8)). rewrite (seq_blocks 8 8), map_flat_map, fold_left_flat_map. apply fold_left_ext. intros r i.
  rewrite lines_rounds, map_map. f_equal. apply map_ext. intros j. by rewrite sha256_line_eq.
Qed.

(** ** The digest of a message *)

Abbreviation rep H0 := (hashed 64 sha256_transform H0).

Lemma sha256_again_ok len d : 0 <= d <= len -> len <= 2 ^ 32 - 128 -> again len d = (d + 64 <=? len).
Proof. intros H1 H2. unfold again. rewrite u32_small; lia. Qed.

Lemma sha256_update_ok H0 msg c data :
  rep H0 msg c -> Z.of_nat (length data) <= 2 ^ 32 - 128 -> exists c', sha256_update c data = Some c' /\ rep H0 (msg ++ data) c'.
Proof.
  intros Hc Hl. unfold sha256_update, sha256_update_fuel.
  destruct (blocks_update_ok 64 ltac:(lia) sha256_transform ltac:(by exists (2 ^ 58)) ltac:(lia) again (S (length data)) H0 msg c data)
    as (c' & -> & Hc'); [done|intros; by apply sha256_again_ok|done|lia|]. eauto.
Qed.

(** An update with 4 GiB or more does not return, whatever the number of rounds. *)
Lemma sha256_update_diverges fuel c data c' :
  2 ^ 32 <= Z.of_nat (length data) < 2 ^ 63 -> sha256_update_fuel fuel c data <> Some (Some c').
Proof.
  apply update_diverges; [lia|lia|]. intros len d Hl Hd. unfold again. pose proof (u32_range (d + 63)). lia.
Qed.

Lemma sha256_final_ok H0 msg c :
  rep H0 msg c -> Z.of_nat (length msg) < 2 ^ 61 ->
  exists c', sha256_final c = Some (Fips.sha2_32 H0 msg, c') /\ length (buf c') = 64%nat.
Proof.
  intros Hc Hl. unfold sha256_final. destruct (pad_final_ok sha256_update _ H0 (sha256_update_ok H0) msg c Hc Hl) as (c1 & -> & ->).
  exists (Ctx (Fips.W8 0 0 0 0 0 0 0 0) 0 (replicate 64 Init.Byte.x00)). split; [|done]. unfold Fips.sha2_32.
  by rewrite (absorb_ext 64 _ _ _ _ sha256_transform_fips).
Qed.

Lemma length_sha2_32 H0 msg : length (Fips.sha2_32 H0 msg) = 32%nat.
Proof. unfold Fips.sha2_32, Fips.words_of. cbn [flat_map]. rewrite !length_app, !length_be_bytes. done. Qed.

Definition m256 : hash_algo := HashAlgo sha256_state SHA256_DIGEST_SIZE (fun c => Some (sha256_init c)) sha256_update sha256_final.
Definition m224 : hash_algo := HashAlgo sha256_state SHA224_DIGEST_SIZE (fun c => Some (sha224_init c)) sha256_update sha224_final.

#[export, refine] Instance sha256_ok : HashOk m256 Fips.SHA256 := {
  hash_max := 2 ^ 61;
  hash_wf (c : hash_ctx m256) := length (buf (S := Fips.words8) c) = 64%nat;
  hash_rep c msg := rep Fips.H256 msg c
}.
Proof.
  - intros c msg [[_ _ Hl] _]. exact Hl.
  - intros c Hc. eexists. split; [reflexivity|]. rewrite <- SHA256_H_eq. split; [by apply buffered_nil; [lia|]|done].
  - intros c msg data Hc Hl. apply sha256_update_ok; [done|lia].
  - intros c msg Hc Hl. by apply sha256_final_ok.
  - intros msg. apply length_sha2_32.
Defined.

#[export, refine] Instance sha224_ok : HashOk m224 Fips.SHA224 := {
  hash_max := 2 ^ 61;
  hash_wf (c : hash_ctx m224) := length (buf (S := Fips.words8) c) = 64%nat;
  hash_rep c msg := rep Fips.H224 msg c
}.
Proof.
  - intros c msg [[_ _ Hl] _]. exact Hl.
  - intros c Hc. eexists. split; [reflexivity|]. rewrite <- SHA224_H_eq. split; [by apply buffered_nil; [lia|]|done].
  - intros c msg data Hc Hl. apply sha256_update_ok; [done|lia].
  - intros c msg Hc Hl. cbn [hash_final m224]. unfold sha224_final.
    destruct (sha256_final_ok Fips.H224 msg c Hc Hl) as (c' & -> & Hc'). by exists c'.
  - intros msg. unfold Fips.SHA224. rewrite length_take, length_sha2_32. done.
Defined.

End Sha2.
