(* ===== verification/Sha1.v ===== *)
(** * SHA-1 (crypto/sha1.c)

    The transformation of a block works in an array of 16 words that its caller gives
    it; the update function and the end of a message are those of crypto/sha2.c. *)

From stdpp Require Import base list.
From Stdlib Require Import ZArith Lia.
From S2P Require Import Prelude HashBlocks Fips180 Sha2.

Module Sha1.

Import HashBlocks.

(** ** The transformation of a block *)

Definition rol32 (word shift : Z) : Z := Z.lor (u32 (Z.shiftl word shift)) (Z.shiftr word (32 - shift)).

Definition W (array : list Z) (x : nat) : Z := nth (x mod 16) array 0.

Definition setW (array : list Z) (x : nat) (val : Z) : list Z := <[(x mod 16)%nat := val]> array.

Definition SHA_SRC (data : list byte) (t : nat) (array : list Z) : Z := be_val (read_at data (4 * t) 4).

Definition SHA_MIX (t : nat) (array : list Z) : Z :=
  rol32 (Z.lxor (Z.lxor (Z.lxor (W array (t + 13)) (W array (t + 8))) (W array (t + 2))) (W array t)) 1.

(** The new values of [E] and [B], and the array. *)
Definition SHA_ROUND (t : nat) (input : nat -> list Z -> Z) (fn : Z -> Z -> Z -> Z) (constant A B C D E : Z) (array : list Z) : Z * Z * list Z :=
  let TEMP := input t array in
  let array := setW array t TEMP in
  (u32 (E + (TEMP + rol32 A 5 + fn B C D + constant)), Sha2.ror32 B 2, array).

Definition T_0_15 (data : list byte) (t : nat) : Z -> Z -> Z -> Z -> Z -> list Z -> Z * Z * list Z :=
  SHA_ROUND t (SHA_SRC data) (fun B C D => Z.lxor (Z.land (Z.lxor C D) B) D) 0x5a827999.
Definition T_16_19 (t : nat) : Z -> Z -> Z -> Z -> Z -> list Z -> Z * Z * list Z :=
  SHA_ROUND t SHA_MIX (fun B C D => Z.lxor (Z.land (Z.lxor C D) B) D) 0x5a827999.
Definition T_20_39 (t : nat) : Z -> Z -> Z -> Z -> Z -> list Z -> Z * Z * list Z :=
  SHA_ROUND t SHA_MIX (fun B C D => Z.lxor (Z.lxor B C) D) 0x6ed9eba1.
Definition T_40_59 (t : nat) : Z -> Z -> Z -> Z -> Z -> list Z -> Z * Z * list Z :=
  SHA_ROUND t SHA_MIX (fun B C D => Z.land B C + Z.land D (Z.lxor B C)) 0x8f1bbcdc.
Definition T_60_79 (t : nat) : Z -> Z -> Z -> Z -> Z -> list Z -> Z * Z * list Z :=
  SHA_ROUND t SHA_MIX (fun B C D => Z.lxor (Z.lxor B C) D) 0xca62c1d6.

(** The line with number [t] of the function. *)
Definition T (data : list byte) (t : nat) : Z -> Z -> Z -> Z -> Z -> list Z -> Z * Z * list Z :=
  if (t <? 16)%nat then T_0_15 data t
  else if (t <? 20)%nat then T_16_19 t
  else if (t <? 40)%nat then T_20_39 t
  else if (t <? 60)%nat then T_40_59 t
  else T_60_79 t.

(** Five lines bring the registers back to their places. *)
Definition five (data : list byte) (t : nat) (r : Fips.words5) (array : list Z) : Fips.words5 * list Z :=
  let '(Fips.W5 A B C D E) := r in
  let '(E, B, array) := T data t A B C D E array in
  let '(D, A, array) := T data (t + 1) E A B C D array in
  let '(C, E, array) := T data (t + 2) D E A B C array in
  let '(B, D, array) := T data (t + 3) C D E A B array in
  let '(A, C, array) := T data (t + 4) B C D E A array in
  (Fips.W5 A B C D E, array).

Definition sha_transform (digest : Fips.words5) (data : list byte) (array : list Z) : Fips.words5 * list Z :=
  let '(r, array) := fold_left (fun x i => five data (5 * i) (fst x) (snd x)) (seq 0 16) (digest, array) in
  (Fips.W5 (u32 (Fips.v_a digest + Fips.v_a r)) (u32 (Fips.v_b digest + Fips.v_b r)) (u32 (Fips.v_c digest + Fips.v_c r))
     (u32 (Fips.v_d digest + Fips.v_d r)) (u32 (Fips.v_e digest + Fips.v_e r)), array).

(** ** The context *)

Definition sha1_state : Type := ctx (S := Fips.words5).

Definition SHA1_DIGEST_SIZE : nat := 20.

Definition sha1_init (sctx : sha1_state) : sha1_state :=
  Ctx (Fips.W5 0x67452301 0xefcdab89 0x98badcfe 0x10325476 0xc3d2e1f0) 0 (buf sctx).

(** The loop condition [done + SHA1_BLOCK_SIZE <= len]. *)
Definition again (len done : Z) : bool := u32 (done + 64) <=? len.

Definition transform (st : Fips.words5 * list Z) (data : list byte) : Fips.words5 * list Z := sha_transform (fst st) data (snd st).

(** [temp] is the array on the stack, with the words that happen to be there. *)
Definition sha1_update_fuel (temp : list Z) (fuel : nat) (sctx : sha1_state) (data : list byte) : option (option sha1_state) :=
  match update 64 transform again fuel (Ctx (state sctx, temp) (count sctx) (buf sctx)) data with
  | Some (Some c) => Some (Some (Ctx (fst (state c)) (count c) (buf c)))
  | Some None => Some None
  | None => None
  end.

(** With a number of rounds that is enough for any data. *)
Definition sha1_update (temp : list Z) (sctx : sha1_state) (data : list byte) : option sha1_state :=
  match sha1_update_fuel temp (S (length data)) sctx data with
  | Some (Some sctx) => Some sctx
  | _ => None
  end.

Definition sha1_final (temp : list Z) (sctx : sha1_state) : option (list byte * sha1_state) :=
  match Sha2.pad_final (sha1_update temp) sctx with
  | None => None
  | Some sctx =>
      let '(Fips.W5 a b c d e) := state sctx in
      Some (flat_map (be_bytes 4) [a; b; c; d; e], Ctx (Fips.W5 0 0 0 0 0) 0 (replicate 64 Init.Byte.x00))
  end.

Definition m (temp : list Z) : hash_algo := HashAlgo sha1_state SHA1_DIGEST_SIZE (fun c => Some (sha1_init c)) (sha1_update temp) (sha1_final temp).

(** ** The transformation is that of the standard *)

Lemma Ch_mix x y z : Z.lxor (Z.land (Z.lxor y z) x) z = Fips.Ch x y z.
Proof. rewrite <- Sha2.Ch_eq. unfold Sha2.Ch. by rewrite Z.lxor_comm, (Z.land_comm x). Qed.

(** The two summands have no bit in common. *)
Lemma Maj_sum x y z : Z.land x y + Z.land z (Z.lxor x y) = Fips.Maj x y z.
Proof.
  rewrite Z.add_nocarry_lxor; apply Z.bits_inj'; intros n Hn; unfold Fips.Maj.
  - rewrite !Z.lxor_spec, !Z.land_spec, Z.lxor_spec. by repeat destruct (Z.testbit _ _).
  - rewrite !Z.land_spec, Z.lxor_spec, Z.bits_0. by repeat destruct (Z.testbit _ _).
Qed.

(** The word that is next in a sequence, from the window. *)
Lemma SHA_MIX_window U t array :
  window U t array -> (16 <= t)%nat ->
  SHA_MIX t array = Fips.ROTL 32 1 (Z.lxor (Z.lxor (Z.lxor (nth (t - 3) U 0) (nth (t - 8) U 0)) (nth (t - 14) U 0)) (nth (t - 16) U 0)).
Proof.
  intros Hw Ht. unfold SHA_MIX, W.
  assert (HM : forall k, (k <= 16)%nat -> ((t + (16 - k)) mod 16 = (t - k) mod 16)%nat).
  { intros k Hk. rewrite <- (Nat.Div0.mod_add (t - k) 1 16). f_equal. lia. }
  rewrite (window_nth U t array (t - 3) (t + 13)), (window_nth U t array (t - 8) (t + 8)), (window_nth U t array (t - 14) (t + 2)),
    (window_nth U t array (t - 16) t); try assumption; try lia; [reflexivity|..].
  - rewrite <- (HM 16%nat) by lia. by rewrite Nat.add_0_r.
  - by apply (HM 14%nat); lia.
  - by apply (HM 8%nat); lia.
  - by apply (HM 3%nat); lia.
Qed.

Section Transform.

Context (data : list byte).

Abbreviation V := (Fips.schedule1 64 (Fips.block_words 4 data)).

Lemma SHA_SRC_word t array : (t < 16)%nat -> SHA_SRC data t array = nth t V 0.
Proof.
  intros Ht. unfold Fips.schedule1. rewrite Fips.extend_nth_old by done. unfold Fips.block_words.
  rewrite (nth_indep _ 0 (be_val (read_at data (4 * 0) 4))), (map_nth (fun i => be_val (read_at data (4 * i) 4))), seq_nth by done. done.
Qed.

Lemma SHA_MIX_word t array : window V t array -> (16 <= t < 80)%nat -> SHA_MIX t array = nth t V 0.
Proof.
  intros Hw Ht. rewrite (SHA_MIX_window V) by (assumption || lia). symmetry.
  apply (Fips.schedule1_nth 64 (Fips.block_words 4 data)); [reflexivity|lia].
Qed.

(** A line of the function is a round of the standard, and moves the window on. *)
Lemma T_round t A B C D E array : window V t array -> (t < 80)%nat -> exists E' B' array',
  T data t A B C D E array = (E', B', array') /\ window V (S t) array' /\
  Fips.round1 (Fips.W5 A B C D E) (t, nth t V 0) = Fips.W5 E' A B' C D.
Proof.
  intros Hw Ht.
  assert (HR : forall input fn c, input t array = nth t V 0 -> fn B C D = Fips.f1 t B C D -> c = Fips.K1 t -> exists E' B' array',
    SHA_ROUND t input fn c A B C D E array = (E', B', array') /\ window V (S t) array' /\
    Fips.round1 (Fips.W5 A B C D E) (t, nth t V 0) = Fips.W5 E' A B' C D).
  { intros input fn c H1 H2 ->. do 3 eexists. split; [reflexivity|]. split; [by apply window_step|].
    unfold Fips.round1. cbn [Fips.v_a Fips.v_b Fips.v_c Fips.v_d Fips.v_e fst snd]. rewrite H1, H2. f_equal.
    - unfold u32. f_equal. change (rol32 A 5) with (Fips.ROTL 32 5 A). lia.
    - apply Z.lor_comm. }
  unfold T, T_0_15, T_16_19, T_20_39, T_40_59, T_60_79, Fips.f1, Fips.K1 in *.
  destruct (t <? 16)%nat eqn:E1; [apply Nat.ltb_lt in E1|apply Nat.ltb_ge in E1].
  { rewrite (proj2 (Nat.ltb_lt t 20)) in HR by lia. apply HR; [by apply SHA_SRC_word|apply Ch_mix|done]. }
  destruct (t <? 20)%nat; [apply HR; [by apply SHA_MIX_word|apply Ch_mix|done]|].
  destruct (t <? 40)%nat; [apply HR; [by apply SHA_MIX_word|done|done]|].
  destruct (t <? 60)%nat; apply HR; try done; try (by apply SHA_MIX_word). apply Maj_sum.
Qed.

Lemma five_rounds t r array : window V t array -> (t + 5 <= 80)%nat -> exists array',
  five data t r array = (fold_left Fips.round1 (map (fun j => ((t + j)%nat, nth (t + j) V 0)) (seq 0 5)) r, array') /\ window V (t + 5) array'.
Proof.
  destruct r as [A B C D E]. intros Hw Ht. cbn [seq map fold_left]. unfold five. rewrite Nat.add_0_r.
  destruct (T_round t A B C D E array Hw ltac:(lia)) as (E1 & B1 & a1 & -> & Hw1 & ->). replace (S t) with (t + 1)%nat in Hw1 by lia.
  destruct (T_round (t + 1) E1 A B1 C D a1 Hw1 ltac:(lia)) as (D1 & A1 & a2 & -> & Hw2 & ->). replace (S (t + 1)) with (t + 2)%nat in Hw2 by lia.
  destruct (T_round (t + 2) D1 E1 A1 B1 C a2 Hw2 ltac:(lia)) as (C1 & E2 & a3 & -> & Hw3 & ->). replace (S (t + 2)) with (t + 3)%nat in Hw3 by lia.
  destruct (T_round (t + 3) C1 D1 E2 A1 B1 a3 Hw3 ltac:(lia)) as (B2 & D2 & a4 & -> & Hw4 & ->). replace (S (t + 3)) with (t + 4)%nat in Hw4 by lia.
  destruct (T_round (t + 4) B2 C1 D2 E2 A1 a4 Hw4 ltac:(lia)) as (A2 & C2 & a5 & -> & Hw5 & ->). replace (S (t + 4)) with (t + 5)%nat in Hw5 by lia.
  by exists a5.
Qed.

Definition five_lines (r : Fips.words5) (i : nat) : Fips.words5 :=
  fold_left Fips.round1 (map (fun j => ((5 * i + j)%nat, nth (5 * i + j) V 0)) (seq 0 5)) r.

Lemma fives_rounds r array : length array = 16%nat -> exists array',
  fold_left (fun x i => five data (5 * i) (fst x) (snd x)) (seq 0 16) (r, array) = (fold_left five_lines (seq 0 16) r, array') /\
  window V 80 array'.
Proof.
  intros Ha. apply (fold_seq_sim (fun i array => window V (5 * i) array) _ _ 16) with (i := 0%nat); [|lia|by apply window_0].
  intros i r' a Hi Hw. cbn [fst snd]. destruct (five_rounds (5 * i) r' a Hw ltac:(lia)) as (a1 & -> & Hw1).
  exists a1. split; [done|]. by replace (5 * S i)%nat with (5 * i + 5)%nat by lia.
Qed.

End Transform.

Theorem sha_transform_fips digest data array :
  length array = 16%nat -> exists array', sha_transform digest data array = (Fips.compress1 digest data, array') /\ length array' = 16%nat.
Proof.
  intros Ha. unfold sha_transform, Fips.compress1.
  destruct (fives_rounds data digest array Ha) as (a' & -> & [Ha' _]). exists a'. split; [|done]. unfold five_lines.
  set (V := Fips.schedule1 64 (Fips.block_words 4 data)).
  assert (LV : length V = 80%nat) by (unfold V, Fips.schedule1; rewrite Fips.length_extend; done).
  assert (EZ : zip (seq 0 80) V = flat_map (fun i => map (fun j => ((5 * i + j)%nat, nth (5 * i + j) V 0)) (seq 0 5)) (seq 0 16)).
  { rewrite (zip_nth _ V 0%nat 0 80) by done. rewrite (map_ext_in _ (fun i => (i, nth i V 0))).
    - change 80%nat with (16 * 5)%nat. by rewrite (seq_blocks 16 5), map_flat_map.
    - intros i Hi. apply in_seq in Hi. rewrite seq_nth by lia. done. }
  rewrite EZ. by rewrite fold_left_flat_map.
Qed.

(** ** The digest of a message *)

Abbreviation rep := (hashed 64 Fips.compress1 Fips.H160).

Lemma sha1_update_fuel_eq temp fuel c data : length temp = 16%nat -> sha1_update_fuel temp fuel c data = update 64 Fips.compress1 again fuel c data.
Proof.
  intros Ht. symmetry. apply (update_workspace 64 Fips.compress1 transform (fun a => length a = 16%nat)); [|done].
  intros st a b Ha. unfold transform. cbn [fst snd]. exact (sha_transform_fips st b a Ha).
Qed.

Lemma sha1_again_ok len d : 0 <= d <= len -> len <= 2 ^ 32 - 128 -> again len d = (d + 64 <=? len).
Proof. intros H1 H2. unfold again. rewrite u32_small; lia. Qed.

Lemma sha1_update_ok temp : length temp = 16%nat -> forall msg c data,
  rep msg c -> Z.of_nat (length data) <= 2 ^ 32 - 128 -> exists c', sha1_update temp c data = Some c' /\ rep (msg ++ data) c'.
Proof.
  intros Ht msg c data Hc Hl. unfold sha1_update. rewrite sha1_update_fuel_eq by done.
  destruct (blocks_update_ok 64 ltac:(lia) Fips.compress1 ltac:(by exists (2 ^ 58)) ltac:(lia) again (S (length data)) Fips.H160 msg c data)
    as (c' & -> & Hc'); [done|intros; by apply sha1_again_ok|done|lia|]. eauto.
Qed.

Lemma sha1_update_diverges temp fuel c data c' :
  length temp = 16%nat -> 2 ^ 32 <= Z.of_nat (length data) < 2 ^ 63 -> sha1_update_fuel temp fuel c data <> Some (Some c').
Proof.
  intros Ht. rewrite sha1_update_fuel_eq by done. apply update_diverges; [lia|lia|]. intros len d Hl Hd. unfold again.
  pose proof (u32_range (d + 64)). lia.
Qed.

(** The condition fails one block too late: with 2^32 - 64 bytes it wraps as well. *)
Lemma again_wraps : again (2 ^ 32 - 64) (2 ^ 32 - 64) = true.
Proof. vm_compute. reflexivity. Qed.

#[export, refine] Instance sha1_ok temp (Ht : length temp = 16%nat) : HashOk (m temp) Fips.SHA1 := {
  hash_max := 2 ^ 61;
  hash_wf (c : hash_ctx (m temp)) := length (buf (S := Fips.words5) c) = 64%nat;
  hash_rep c msg := rep msg c
}.
Proof.
  - intros c msg [[_ _ Hl] _]. exact Hl.
  - intros c Hc. eexists. split; [reflexivity|]. split; [by apply buffered_nil; [lia|]|done].
  - intros c msg data Hc Hl. by apply sha1_update_ok.
  - intros c msg Hc Hl. cbn [hash_final m]. unfold sha1_final.
    destruct (Sha2.pad_final_ok (sha1_update temp) _ _ (sha1_update_ok temp Ht) msg c Hc Hl) as (c1 & -> & E).
    destruct (state c1) as [a b d e f]. exists (Ctx (Fips.W5 0 0 0 0 0) 0 (replicate 64 Init.Byte.x00)).
    split; [|reflexivity]. unfold Fips.SHA1. by rewrite <- E.
  - intros msg. unfold Fips.SHA1. cbn [flat_map]. rewrite !length_app, !length_be_bytes. done.
Defined.

End Sha1.
