(* ===== verification/Sha4.v ===== *)
(** * SHA-384 and SHA-512 (crypto/sha4.c)

    The words of a block are kept in an array of 16 that is renewed in place, and the
    count of bytes has two words. *)

From stdpp Require Import base list.
From Stdlib Require Import ZArith Lia.
From S2P Require Import Prelude HashBlocks Fips180 Sha2.

Module Sha4.

Import HashBlocks.

(** ** The transformation of a block *)

Definition ror64 (word shift : Z) : Z := Z.lor (Z.shiftr word shift) (u64 (Z.shiftl word (64 - shift))).

Definition e0 (x : Z) : Z := Z.lxor (Z.lxor (ror64 x 28) (ror64 x 34)) (ror64 x 39).
Definition e1 (x : Z) : Z := Z.lxor (Z.lxor (ror64 x 14) (ror64 x 18)) (ror64 x 41).
Definition s0 (x : Z) : Z := Z.lxor (Z.lxor (ror64 x 1) (ror64 x 8)) (Z.shiftr x 7).
Definition s1 (x : Z) : Z := Z.lxor (Z.lxor (ror64 x 19) (ror64 x 61)) (Z.shiftr x 6).

Definition sha512_K : list Z :=
  [0x428a2f98d728ae22; 0x7137449123ef65cd; 0xb5c0fbcfec4d3b2f;
   0xe9b5dba58189dbbc; 0x3956c25bf348b538; 0x59f111f1b605d019;
   0x923f82a4af194f9b; 0xab1c5ed5da6d8118; 0xd807aa98a3030242;
   0x12835b0145706fbe; 0x243185be4ee4b28c; 0x550c7dc3d5ffb4e2;
   0x72be5d74f27b896f; 0x80deb1fe3b1696b1; 0x9bdc06a725c71235;
   0xc19bf174cf692694; 0xe49b69c19ef14ad2; 0xefbe4786384f25e3;
   0x0fc19dc68b8cd5b5; 0x240ca1cc77ac9c65; 0x2de92c6f592b0275;
   0x4a7484aa6ea6e483; 0x5cb0a9dcbd41fbd4; 0x76f988da831153b5;
   0x983e5152ee66dfab; 0xa831c66d2db43210; 0xb00327c898fb213f;
   0xbf597fc7beef0ee4; 0xc6e00bf33da88fc2; 0xd5a79147930aa725;
   0x06ca6351e003826f; 0x142929670a0e6e70; 0x27b70a8546d22ffc;
   0x2e1b21385c26c926; 0x4d2c6dfc5ac42aed; 0x53380d139d95b3df;
   0x650a73548baf63de; 0x766a0abb3c77b2a8; 0x81c2c92e47edaee6;
   0x92722c851482353b; 0xa2bfe8a14cf10364; 0xa81a664bbc423001;
   0xc24b8b70d0f89791; 0xc76c51a30654be30; 0xd192e819d6ef5218;
   0xd69906245565a910; 0xf40e35855771202a; 0x106aa07032bbd1b8;
   0x19a4c116b8d2d0c8; 0x1e376c085141ab53; 0x2748774cdf8eeb99;
   0x34b0bcb5e19b48a8; 0x391c0cb3c5c95a63; 0x4ed8aa4ae3418acb;
   0x5b9cca4f7763e373; 0x682e6ff3d6b2b8a3; 0x748f82ee5defb2fc;
   0x78a5636f43172f60; 0x84c87814a1f0ab72; 0x8cc702081a6439ec;
   0x90befffa23631e28; 0xa4506cebde82bde9; 0xbef9a3f7b2c67915;
   0xc67178f2e372532b; 0xca273eceea26619c; 0xd186b8c721c0c207;
   0xeada7dd6cde0eb1e; 0xf57d4f7fee6ed178; 0x06f067aa72176fba;
   0x0a637dc5a2c898a6; 0x113f9804bef90dae; 0x1b710b35131c471b;
   0x28db77f523047d84; 0x32caab7b40c72493; 0x3c9ebe0a15c9bebc;
   0x431d67c49c100d4c; 0x4cc5d4becb3e42b6; 0x597f299cfc657e2a;
   0x5fcb6fab3ad6faec; 0x6c44198c4a475817].

Definition LOAD_OP (I : nat) (W : list Z) (input : list byte) : list Z := <[I := be_val (read_at input (8 * I) 8)]> W.

Definition BLEND_OP (I : nat) (W : list Z) : list Z :=
  <[(I mod 16)%nat :=
    u64 (nth (I mod 16) W 0 + (s1 (nth ((I - 2) mod 16) W 0) + nth ((I - 7) mod 16) W 0 + s0 (nth ((I - 15) mod 16) W 0)))]> W.

(** The words for the eight rounds from [i] on. *)
Definition refill (input : list byte) (i : nat) (W : list Z) : list Z :=
  if (Nat.land i 8 =? 0)%nat then
    if (i <? 16)%nat then fold_left (fun W j => LOAD_OP (i + j) W input) (seq 0 16) W
    else fold_left (fun W j => BLEND_OP (i + j) W) (seq 0 16) W
  else W.

Definition sha512_step (input : list byte) (x : Fips.words8 * list Z) (i : nat) : Fips.words8 * list Z :=
  let W := refill input i (snd x) in
  (Sha2.lines 64 e0 e1 (fun j => nth (i + j) sha512_K 0) (fun j => nth (i mod 16 + j) W 0) (fst x), W).

(** [W] is the array on the stack, with the words that happen to be there. *)
Definition sha512_transform (W : list Z) (state : Fips.words8) (input : list byte) : Fips.words8 :=
  Fips.add8 64 state (fst (fold_left (fun x n => sha512_step input x (8 * n)) (seq 0 10) (state, W))).

(** ** The context *)

Record sha512_state := Sha512State {
  state : Fips.words8;
  count0 : Z;
  count1 : Z;
  buf : list byte
}.

Definition SHA384_DIGEST_SIZE : nat := 48.
Definition SHA512_DIGEST_SIZE : nat := 64.

Definition SHA384_H : Fips.words8 :=
  Fips.W8 0xcbbb9d5dc1059ed8 0x629a292a367cd507 0x9159015a3070dd17 0x152fecd8f70e5939
    0x67332667ffc00b31 0x8eb44a8768581511 0xdb0c2e0d64f98fa7 0x47b5481dbefa4fa4.

Definition SHA512_H : Fips.words8 :=
  Fips.W8 0x6a09e667f3bcc908 0xbb67ae8584caa73b 0x3c6ef372fe94f82b 0xa54ff53a5f1d36f1
    0x510e527fade682d1 0x9b05688c2b3e6c1f 0x1f83d9abfb41bd6b 0x5be0cd19137e2179.

Definition sha512_init (sctx : sha512_state) : sha512_state := Sha512State SHA512_H 0 0 (buf sctx).
Definition sha384_init (sctx : sha512_state) : sha512_state := Sha512State SHA384_H 0 0 (buf sctx).

(** The loop [for (i = part_len; i + 127 < len; i += 128)]. *)
Fixpoint for_blocks (W : list Z) (fuel : nat) (st : Fips.words8) (data : list byte) (i : Z) : option (option (Fips.words8 * Z)) :=
  match fuel with
  | O => None
  | S fuel =>
      if u32 (i + 127) <? Z.of_nat (length data) then
        if Z.of_nat (length data) <? i + 128 then Some None
        else for_blocks W fuel (sha512_transform W st (read_at data (Z.to_nat i) 128)) data (u32 (i + 128))
      else Some (Some (st, i))
  end.

Definition sha512_update_fuel (W : list Z) (fuel : nat) (sctx : sha512_state) (data : list byte) : option (option sha512_state) :=
  let len := Z.of_nat (length data) in
  let index := Z.land (count0 sctx) 0x7f in
  let c0 := u64 (count0 sctx + len) in
  let c1 := if c0 <? len then u64 (count1 sctx + 1) else count1 sctx in
  let part_len := 128 - index in
  if part_len <=? len then
    match copy_in (buf sctx) index part_len data with
    | None => Some None
    | Some b =>
        match for_blocks W fuel (sha512_transform W (state sctx) b) data part_len with
        | None => None
        | Some None => Some None
        | Some (Some (st, i)) =>
            Some (match copy_in b 0 (u64 (len - i)) (drop (Z.to_nat i) data) with
                  | None => None
                  | Some b => Some (Sha512State st c0 c1 b)
                  end)
        end
    end
  else
    Some (match copy_in (buf sctx) index len data with
          | None => None
          | Some b => Some (Sha512State (state sctx) c0 c1 b)
          end).

(** With a number of rounds that is enough for any data. *)
Definition sha512_update (W : list Z) (sctx : sha512_state) (data : list byte) : option sha512_state :=
  match sha512_update_fuel W (S (length data)) sctx data with
  | Some (Some sctx) => Some sctx
  | _ => None
  end.

Definition padding : list byte := Init.Byte.x80 :: replicate 127 Init.Byte.x00.

Definition sha512_final (W : list Z) (sctx : sha512_state) : option (list byte * sha512_state) :=
  let bits1 := be_bytes 8 (u64 (Z.shiftl (count0 sctx) 3)) in
  let bits0 := be_bytes 8 (Z.lor (u64 (Z.shiftl (count1 sctx) 3)) (Z.shiftr (count0 sctx) 61)) in
  let index := Z.land (count0 sctx) 0x7f in
  let pad_len := if index <? 112 then 112 - index else 128 + 112 - index in
  match sha512_update W sctx (take (Z.to_nat pad_len) padding) with
  | None => None
  | Some sctx =>
      match sha512_update W sctx (bits0 ++ bits1) with
      | None => None
      | Some sctx =>
          Some (flat_map (be_bytes 8) (Fips.words_of (state sctx)),
                Sha512State (Fips.W8 0 0 0 0 0 0 0 0) 0 0 (replicate 128 Init.Byte.x00))
      end
  end.

Definition sha384_final (W : list Z) (sctx : sha512_state) : option (list byte * sha512_state) :=
  match sha512_final W sctx with
  | Some (D, sctx) => Some (take 48 D, sctx)
  | None => None
  end.

Definition m384 (W : list Z) : hash_algo :=
  HashAlgo sha512_state SHA384_DIGEST_SIZE (fun c => Some (sha384_init c)) (sha512_update W) (sha384_final W).
Definition m512 (W : list Z) : hash_algo :=
  HashAlgo sha512_state SHA512_DIGEST_SIZE (fun c => Some (sha512_init c)) (sha512_update W) (sha512_final W).

(** ** The transformation is that of the standard *)

Lemma sha512_K_eq : sha512_K = Fips.K512.
Proof. vm_compute. reflexivity. Qed.

Lemma SHA512_H_eq : SHA512_H = Fips.H512.
Proof. vm_compute. reflexivity. Qed.

Lemma SHA384_H_eq : SHA384_H = Fips.H384.
Proof. vm_compute. reflexivity. Qed.

Section Transform.

Context (input : list byte) (V : list Z).
Context (Hload : forall t, (t < 16)%nat -> nth t V 0 = be_val (read_at input (8 * t) 8)).
Context (Hblend : forall t, (16 <= t < 80)%nat ->
  nth t V 0 = (s1 (nth (t - 2) V 0) + nth (t - 7) V 0 + s0 (nth (t - 15) V 0) + nth (t - 16) V 0) mod 2 ^ 64).

Lemma load_window t W : (t < 16)%nat -> window V t W -> window V (S t) (LOAD_OP t W input).
Proof.
  intros Ht Hw. unfold LOAD_OP. rewrite <- Hload by done. rewrite <- (Nat.mod_small t 16) at 2 by done. by apply window_step.
Qed.

Lemma blend_window t W : (16 <= t < 80)%nat -> window V t W -> window V (S t) (BLEND_OP t W).
Proof.
  intros Ht Hw. unfold BLEND_OP. apply window_step; [done|]. rewrite Hblend by done.
  rewrite (window_nth V t W (t - 2) (t - 2)), (window_nth V t W (t - 7) (t - 7)), (window_nth V t W (t - 15) (t - 15)),
    (window_nth V t W (t - 16) t); try assumption; try reflexivity; try lia.
  - unfold u64. f_equal. lia.
  - rewrite <- (Nat.Div0.mod_add (t - 16) 1 16). f_equal. lia.
Qed.

Lemma fold_window (f : list Z -> nat -> list Z) i n : forall k W,
  (forall j W, (k <= j < k + n)%nat -> window V (i + j) W -> window V (S (i + j)) (f W j)) ->
  window V (i + k) W -> window V (i + k + n) (fold_left f (seq k n) W).
Proof.
  induction n as [|n IH]; intros k W Hf Hw; cbn [seq fold_left]; [by rewrite Nat.add_0_r|].
  replace (i + k + S n)%nat with (i + S k + n)%nat by lia. apply IH; [intros j W' Hj; apply Hf; lia|].
  replace (i + S k)%nat with (S (i + k)) by lia. apply Hf; [lia|done].
Qed.

(** Where the window ends before the rounds from [8 * n] on. *)
Definition filled (n : nat) : nat := if Nat.even n then 8 * n else 8 * n + 8.

Lemma refill_window n W : (n < 10)%nat -> window V (filled n) W -> window V (filled (S n)) (refill input (8 * n) W).
Proof.
  intros Hn Hw. unfold refill.
  assert (E : filled n = (8 * n)%nat /\ filled (S n) = (8 * n + 16)%nat /\ Nat.land (8 * n) 8 = 0%nat \/
              filled n = filled (S n) /\ Nat.land (8 * n) 8 = 8%nat).
  { do 10 (destruct n as [|n]; [vm_compute; auto|]). lia. }
  destruct E as [(E1 & E2 & E3)|(E1 & E3)]; rewrite E3; cbn [Nat.eqb]; [|by rewrite <- E1]. rewrite E1 in Hw. rewrite E2.
  replace (8 * n + 16)%nat with (8 * n + 0 + 16)%nat by lia. destruct (_ <? _)%nat eqn:E; [apply Nat.ltb_lt in E|apply Nat.ltb_ge in E].
  - assert (Hn0 : n = 0%nat) by (do 2 (destruct n as [|n]; [vm_compute in E3; try done|]); lia). subst n.
    apply fold_window; [|done]. intros j W' Hj. apply load_window. lia.
  - assert (n <> 9)%nat by (intros ->; vm_compute in E3; done).
    apply fold_window; [|by rewrite Nat.add_0_r]. intros j W' Hj. apply blend_window. lia.
Qed.

Abbreviation round512 := (Fips.round 64 e0 e1).

Definition eight_rounds (r : Fips.words8) (n : nat) : Fips.words8 :=
  fold_left round512 (map (fun j => (nth (8 * n + j) sha512_K 0, nth (8 * n + j) V 0)) (seq 0 8)) r.

Lemma step_rounds n r W : (n < 10)%nat -> window V (filled n) W -> exists W',
  sha512_step input (r, W) (8 * n) = (eight_rounds r n, W') /\
  window V (filled (S n)) W'.
Proof.
  intros Hn Hw. apply refill_window in Hw; [|done]. exists (refill input (8 * n) W). split; [|done]. unfold sha512_step. cbn [fst snd]. f_equal.
  rewrite Sha2.lines_rounds. unfold eight_rounds. f_equal. apply map_ext_in. intros j Hj. apply in_seq in Hj. f_equal.
  assert (E : (8 * n mod 16 + j = (8 * n + j) mod 16)%nat).
  { rewrite <- Nat.Div0.add_mod_idemp_l. rewrite (Nat.mod_small (_ + j)); [done|].
    do 10 (destruct n as [|n]; [cbn; lia|]). lia. }
  rewrite E. apply (window_nth V (filled (S n))); [done| |done]. unfold filled. rewrite Nat.even_succ, <- Nat.negb_even. destruct (Nat.even n); cbn [negb]; lia.
Qed.

Lemma steps_rounds r W : length W = 16%nat -> exists W',
  fold_left (fun x n => sha512_step input x (8 * n)) (seq 0 10) (r, W) = (fold_left eight_rounds (seq 0 10) r, W') /\ window V 80 W'.
Proof.
  intros HW. apply (fold_seq_sim (fun n W => window V (filled n) W) _ _ 10) with (i := 0%nat); [|lia|by apply window_0].
  intros n r' W' Hn Hw. exact (step_rounds n r' W' Hn Hw).
Qed.

End Transform.

Lemma block_words_nth n input t : (t < 16)%nat -> nth t (Fips.block_words n input) 0 = be_val (read_at input (n * t) n).
Proof.
  intros Ht. unfold Fips.block_words.
  rewrite (nth_indep _ 0 (be_val (read_at input (n * 0) n))) by (rewrite length_map, length_seq; done).
  rewrite (map_nth (fun i => be_val (read_at input (n * i) n))), seq_nth by done. done.
Qed.

Theorem sha512_transform_fips W state input : length W = 16%nat -> sha512_transform W state input = Fips.compress512 state input.
Proof.
  intros HW. change (Fips.compress512 state input) with (Fips.compress 64 e0 e1 s0 s1 Fips.K512 state input).
  unfold sha512_transform, Fips.compress. rewrite <- sha512_K_eq. change (length sha512_K - 16)%nat with 64%nat.
  f_equal. change (Z.to_nat (64 / 8)) with 8%nat.
  assert (HL : length (Fips.block_words 8 input) = 16%nat) by reflexivity.
  pose proof (fun t => Fips.schedule_nth 64 s0 s1 64 _ t HL) as Hblend. cbn zeta in Hblend.
  assert (Hload : forall t, (t < 16)%nat -> nth t (Fips.schedule 64 s0 s1 64 (Fips.block_words 8 input)) 0 = be_val (read_at input (8 * t) 8)).
  { intros t Ht. unfold Fips.schedule. rewrite Fips.extend_nth_old by lia. by apply block_words_nth. }
  assert (LV : length (Fips.schedule 64 s0 s1 64 (Fips.block_words 8 input)) = 80%nat) by (unfold Fips.schedule; rewrite Fips.length_extend; lia).
  destruct (steps_rounds input _ Hload Hblend state W HW) as (W' & -> & _). cbn [fst]. unfold eight_rounds.
  set (V := Fips.schedule 64 s0 s1 64 _) in *. clearbody V. clear Hload Hblend.
  rewrite (zip_nth sha512_K V 0 0 80) by done. change (seq 0 80) with (seq 0 (10 * 8)). by rewrite (seq_blocks 10 8), map_flat_map, fold_left_flat_map.
Qed.

(** ** The digest of a message *)

(** The context after a message. *)
Definition rep (H0 : Fips.words8) (msg : list byte) (c : sha512_state) : Prop :=
  buffered 128 Fips.compress512 H0 msg (state c) (buf c) /\ 0 <= count0 c < 2 ^ 64 /\ 0 <= count1 c < 2 ^ 64 /\
  count0 c + 2 ^ 64 * count1 c = Z.of_nat (length msg) mod 2 ^ 128.

Lemma land_7f z n : z mod 2 ^ 64 = Z.of_nat n mod 2 ^ 64 -> Z.land z 0x7f = Z.of_nat (n mod 128).
Proof.
  intros H. change 0x7f with (Z.ones 7). rewrite Z.land_ones by lia. rewrite Nat2Z.inj_mod. change (Z.of_nat 128) with (2 ^ 7).
  rewrite <- (Z.mod_mod_divide z (2 ^ 64)), H, Z.mod_mod_divide; [done|..]; by exists (2 ^ 57).
Qed.

Lemma rep_index H0 msg c : rep H0 msg c -> Z.land (count0 c) 0x7f = Z.of_nat (length msg mod 128).
Proof.
  intros (_ & H1 & H2 & E). apply land_7f. rewrite <- (Z.mod_mod_divide (Z.of_nat _) (2 ^ 128)) by (by exists (2 ^ 64)).
  rewrite <- E, Z.mul_comm, Z.mod_add by lia. done.
Qed.

(** The carry into the second word of the count. *)
Lemma count_carry a b len n :
  0 <= a < 2 ^ 64 -> 0 <= b < 2 ^ 64 -> 0 <= len < 2 ^ 64 -> a + 2 ^ 64 * b = n mod 2 ^ 128 ->
  u64 (a + len) + 2 ^ 64 * (if u64 (a + len) <? len then u64 (b + 1) else b) = (n + len) mod 2 ^ 128.
Proof.
  intros Ha Hb Hl E. rewrite <- Zplus_mod_idemp_l, <- E. unfold u64. destruct (decide (a + len < 2 ^ 64)) as [Hs|Hs].
  - rewrite (Z.mod_small (a + len)) by lia. replace (_ <? _) with false by lia. rewrite Z.mod_small; lia.
  - assert (E1 : (a + len) mod 2 ^ 64 = a + len - 2 ^ 64) by (symmetry; apply (Z.mod_unique _ _ 1); lia).
    rewrite E1. replace (_ <? _) with true by lia. destruct (decide (b + 1 = 2 ^ 64)) as [Hw|Hw].
    + rewrite Hw, Z.mod_same by lia. apply (Z.mod_unique _ _ 1); lia.
    + rewrite (Z.mod_small (b + 1)), (Z.mod_small (a + _ + _)) by lia. lia.
Qed.

(** A number in more bytes than it needs. *)
Lemma le_bytes_app n : forall m z, le_bytes (n + m) z = le_bytes n z ++ le_bytes m (z / 256 ^ Z.of_nat n).
Proof.
  induction n as [|n IH]; intros m z; cbn [Nat.add le_bytes app]; [by rewrite Z.div_1_r|].
  rewrite IH, Z.div_div by lia. do 4 f_equal. rewrite Nat2Z.inj_succ, Z.pow_succ_r by lia. done.
Qed.

Lemma be_bytes_high n m z : 0 <= z < 256 ^ Z.of_nat m -> be_bytes n 0 ++ be_bytes m z = be_bytes (m + n) z.
Proof. intros H. unfold be_bytes. by rewrite le_bytes_app, Z.div_small, rev_app_distr. Qed.

Section Update.

Context (W : list Z) (HW : length W = 16%nat).

Lemma for_blocks_ok data fuel : forall st i,
  let len := Z.of_nat (length data) in
  0 <= i <= len -> len <= 2 ^ 32 - 128 -> len - i < 128 * Z.of_nat fuel ->
  exists d, for_blocks W fuel st data i = Some (Some (absorb 128 Fips.compress512 st (drop (Z.to_nat i) data), d)) /\
    0 <= d <= len /\ drop (Z.to_nat d) data = rest 128 (drop (Z.to_nat i) data).
Proof.
  induction fuel as [|fuel IH]; intros st i len Hi Hlen Hf; [lia|]. cbn [for_blocks]. fold len.
  destruct (decide (i + 128 <= len)) as [Hin|Hin].
  - rewrite (u32_small (i + 127)), (u32_small (i + 128)) by lia. replace (_ <? _) with true by lia. replace (_ <? _) with false by lia.
    rewrite sha512_transform_fips by done. destruct (absorb_drop 128 ltac:(lia) Fips.compress512 st data i ltac:(lia) ltac:(lia)) as [E1 E2].
    change (Z.of_nat 128) with 128 in E1, E2. rewrite E1, E2. apply IH; lia.
  - rewrite u32_small by lia. replace (_ <? _) with false by lia.
    destruct (absorb_small 128 Fips.compress512 st (drop (Z.to_nat i) data)) as [E1 E2]; [rewrite length_drop; lia|].
    exists i. rewrite E1, E2. split_and!; (done || lia).
Qed.

Lemma sha512_update_ok H0 msg c data :
  rep H0 msg c -> Z.of_nat (length data) <= 2 ^ 32 - 128 -> exists c', sha512_update W c data = Some c' /\ rep H0 (msg ++ data) c'.
Proof.
  intros Hc Hlen. unfold sha512_update, sha512_update_fuel. rewrite (rep_index _ _ _ Hc). destruct Hc as (Hb & H1 & H2 & E).
  pose proof Hb as [Est Hr Hl]. set (p := (length msg mod 128)%nat) in *. assert (Hp : (p < 128)%nat) by (apply Nat.mod_upper_bound; lia).
  pose proof (count_carry _ _ (Z.of_nat (length data)) _ H1 H2 ltac:(lia) E) as Ec. rewrite <- Nat2Z.inj_add, <- length_app in Ec.
  set (c0 := u64 (count0 c + _)) in *. set (c1 := if c0 <? _ then _ else _) in *.
  assert (Hc0 : 0 <= c0 < 2 ^ 64) by apply u64_range.
  assert (Hc1 : 0 <= c1 < 2 ^ 64) by (subst c1; destruct (_ <? _); [apply u64_range|done]).
  destruct (_ <=? _) eqn:E0; bool_prop.
  2: { rewrite copy_in_ok by lia. rewrite !Nat2Z.id, take_ge by lia. eexists. split; [done|]. split; [|done]. cbn [state buf].
       apply (buffered_small 128); [lia|done|]. fold p. lia. }
  set (n := (128 - p)%nat). replace (128 - Z.of_nat p) with (Z.of_nat n) in * by lia.
  set (d1 := take n data). set (d2 := drop n data). assert (L1 : length d1 = n) by (subst d1; rewrite length_take; lia).
  assert (Hd : data = d1 ++ d2) by (symmetry; apply take_drop).
  rewrite copy_in_ok by lia. rewrite !Nat2Z.id. fold d1. rewrite sha512_transform_fips by done.
  assert (Eb : write_at (buf c) p d1 = take p (buf c) ++ d1).
  { rewrite write_at_inside by lia. rewrite drop_ge by lia. by rewrite app_nil_r. }
  rewrite Eb. assert (Lb : length (take p (buf c) ++ d1) = 128%nat) by (rewrite length_app, length_take; lia).
  destruct (for_blocks_ok data (S (length data)) (Fips.compress512 (state c) (take p (buf c) ++ d1)) (Z.of_nat n)) as (d & -> & Hd1 & Hd2); [lia..|].
  rewrite Nat2Z.id in *. fold d2 in Hd2 |- *. rewrite Hd2.
  assert (Hlr : Z.of_nat (length data) - d = Z.of_nat (length (rest 128 d2))) by (rewrite <- Hd2, length_drop; lia).
  pose proof (length_rest 128 ltac:(lia) d2) as Lr. pose proof (Nat.mod_upper_bound (length d2) 128 ltac:(lia)).
  rewrite Hlr, u64_small, copy_in_ok by lia. rewrite Nat2Z.id, (take_ge (rest 128 d2)) by lia. eexists. split; [done|]. split; [|done]. cbn [state buf].
  rewrite Hd. apply (buffered_large 128); [lia|done|fold p; lia|by rewrite length_write_at|apply write_rest; [lia|done]].
Qed.

(** An update with 4 GiB or more does not return, whatever the number of rounds. *)
Lemma sha512_update_diverges fuel c data c' :
  2 ^ 32 <= Z.of_nat (length data) -> sha512_update_fuel W fuel c data <> Some (Some c').
Proof.
  intros Hlen. unfold sha512_update_fuel. pose proof (Z.land_nonneg (count0 c) 0x7f) as Hi.
  replace (_ <=? _) with true by lia. destruct (copy_in _ _ _ _); [|done].
  assert (H : forall f st i r, for_blocks W f st data i <> Some (Some r)).
  { intros f. induction f as [|f IH]; intros st i r; cbn [for_blocks]; [done|]. pose proof (u32_range (i + 127)).
    replace (_ <? _) with true by lia. destruct (_ <? _); [done|]. apply IH. }
  destruct (for_blocks _ _ _ _ _) as [[[st d]|]|] eqn:E; try done. exfalso. by eapply H.
Qed.

Lemma sha512_final_ok H0 msg c :
  rep H0 msg c -> Z.of_nat (length msg) < 2 ^ 61 ->
  exists c', sha512_final W c = Some (Fips.sha2_64 H0 msg, c') /\ length (buf c') = 128%nat.
Proof.
  intros Hc Hl. unfold sha512_final. rewrite (rep_index _ _ _ Hc). pose proof Hc as (_ & H1 & H2 & E). rewrite Z.mod_small in E by lia.
  assert (Ec : count1 c = 0 /\ count0 c = Z.of_nat (length msg)) by lia. destruct Ec as [-> ->]. rewrite Z.shiftl_0_l, Z.shiftl_mul_pow2 by lia.
  rewrite Z.shiftr_div_pow2, Z.div_small, (u64_small (_ * _)) by lia. change (Z.lor (u64 0) 0) with 0.
  destruct (Fips.pad_split 128 16 msg ltac:(lia)) as [Hpl Hpad]. set (index := (length msg mod 128)%nat) in *.
  assert (Hi : (index < 128)%nat) by (apply Nat.mod_upper_bound; lia). pose proof (Fips.pad_len_eq 128 16 index ltac:(lia) Hi) as Epl.
  set (pl := (if (index <? 128 - 16)%nat then (128 - 16 - index)%nat else (128 + (128 - 16) - index)%nat)) in *.
  change (Z.of_nat (128 - 16)) with 112 in Epl. change (Z.of_nat 128) with 128 in Epl. rewrite Epl, (be_bytes_high 8 8) by lia.
  destruct (sha512_update_ok H0 msg c (take pl padding)) as (c1 & -> & Hc1); [done|rewrite length_take; lia|].
  destruct (sha512_update_ok H0 _ c1 (be_bytes (8 + 8) (Z.of_nat (length msg) * 2 ^ 3)) Hc1) as (c2 & -> & [Hb2 _]); [rewrite length_be_bytes; lia|].
  exists (Sha512State (Fips.W8 0 0 0 0 0 0 0 0) 0 0 (replicate 128 Init.Byte.x00)). split; [|done]. unfold Fips.sha2_64. rewrite Hpad.
  destruct Hb2 as [-> _ _]. by rewrite <- app_assoc, (Z.mul_comm (Z.of_nat (length msg))).
Qed.

End Update.

Lemma length_sha2_64 H0 msg : length (Fips.sha2_64 H0 msg) = 64%nat.
Proof. unfold Fips.sha2_64, Fips.words_of. cbn [flat_map]. rewrite !length_app, !length_be_bytes. done. Qed.

#[export, refine] Instance sha512_ok W (HW : length W = 16%nat) : HashOk (m512 W) Fips.SHA512 := {
  hash_max := 2 ^ 61;
  hash_wf (c : hash_ctx (m512 W)) := length (buf c) = 128%nat;
  hash_rep c msg := rep Fips.H512 msg c
}.
Proof.
  - intros c msg [[_ _ Hl] _]. exact Hl.
  - intros c Hc. eexists. split; [reflexivity|]. rewrite <- SHA512_H_eq. split; [by apply (buffered_nil 128); [lia|]|done].
  - intros c msg data Hc Hl. by apply sha512_update_ok.
  - intros c msg Hc Hl. by apply sha512_final_ok.
  - intros msg. apply length_sha2_64.
Defined.

#[export, refine] Instance sha384_ok W (HW : length W = 16%nat) : HashOk (m384 W) Fips.SHA384 := {
  hash_max := 2 ^ 61;
  hash_wf (c : hash_ctx (m384 W)) := length (buf c) = 128%nat;
  hash_rep c msg := rep Fips.H384 msg c
}.
Proof.
  - intros c msg [[_ _ Hl] _]. exact Hl.
  - intros c Hc. eexists. split; [reflexivity|]. rewrite <- SHA384_H_eq. split; [by apply (buffered_nil 128); [lia|]|done].
  - intros c msg data Hc Hl. by apply sha512_update_ok.
  - intros c msg Hc Hl. cbn [hash_final m384]. unfold sha384_final.
    destruct (sha512_final_ok W HW Fips.H384 msg c Hc Hl) as (c' & -> & Hc'). by exists c'.
  - intros msg. unfold Fips.SHA384. rewrite length_take, length_sha2_64. done.
Defined.

End Sha4.
