(* ===== verification/Md5.v ===== *)
(** * MD5 (crypto/md5.c)

    The algorithm of RFC 1321 and the code, which works on the words of the host: the
    parameter [be] says that it is big-endian. *)

From stdpp Require Import base list.
From Stdlib Require Import ZArith Lia.
From S2P Require Import Prelude HashBlocks Fips180 Sha2 Sha1.

Module Md5.

Import HashBlocks.

(** ** RFC 1321 *)

Record words4 := W4 { x_a : Z; x_b : Z; x_c : Z; x_d : Z }.

Module Rfc1321.

Definition F (x y z : Z) : Z := Z.lor (Z.land x y) (Z.land (Z.lnot x) z).
Definition G (x y z : Z) : Z := Z.lor (Z.land x z) (Z.land y (Z.lnot z)).
Definition H (x y z : Z) : Z := Z.lxor (Z.lxor x y) z.
Definition I (x y z : Z) : Z := Z.lxor y (Z.lor x (Z.lnot z)).

(** The sine of an integer from its series, in units of 2^-256. *)
Fixpoint sin_series (n : nat) (k x2 term sum : Z) : Z :=
  match n with
  | O => sum
  | S n => let term := - (term * x2) / ((2 * k) * (2 * k + 1)) in sin_series n (k + 1) x2 term (sum + term)
  end.

Definition sin (x : Z) : Z := sin_series 150 1 (x * x) (x * 2 ^ 256) (x * 2 ^ 256).

(** The integer part of 4294967296 times abs(sin(i)), where i is in radians. *)
Definition sine (i : nat) : Z := Z.abs (sin (Z.of_nat i)) * 2 ^ 32 / 2 ^ 256.

Definition table : list Z := map (fun i => sine (i + 1)) (seq 0 64).

(** The function, the word and the rotation of a step. *)
Definition fn (i : nat) : Z -> Z -> Z -> Z := if (i <? 16)%nat then F else if (i <? 32)%nat then G else if (i <? 48)%nat then H else I.

Definition word (i : nat) : nat :=
  if (i <? 16)%nat then i mod 16
  else if (i <? 32)%nat then (5 * i + 1) mod 16 else if (i <? 48)%nat then (3 * i + 5) mod 16 else (7 * i) mod 16.

Definition rot (i : nat) : Z :=
  nth (i mod 4) (if (i <? 16)%nat then [7; 12; 17; 22] else if (i <? 32)%nat then [5; 9; 14; 20] else if (i <? 48)%nat then [4; 11; 16; 23]
    else [6; 10; 15; 21]) 0.

(** [ABCD k s i]: a = b + ((a + F(b,c,d) + X[k] + T[i]) <<< s), and the registers move
    on by one place. *)
Definition rfc_step (X : list Z) (r : words4) (i : nat) : words4 :=
  let '(W4 a b c d) := r in
  W4 d (u32 (b + Fips.ROTL 32 (rot i) (u32 (a + fn i b c d + nth (word i) X 0 + nth i table 0)))) b c.

Definition block_words (block : list byte) : list Z := map (fun i => le_val (read_at block (4 * i) 4)) (seq 0 16).

Definition compress (r : words4) (block : list byte) : words4 :=
  let s := fold_left (rfc_step (block_words block)) (seq 0 64) r in
  W4 (u32 (x_a r + x_a s)) (u32 (x_b r + x_b s)) (u32 (x_c r + x_c s)) (u32 (x_d r + x_d s)).

Definition init : words4 := W4 0x67452301 0xefcdab89 0x98badcfe 0x10325476.

Definition md5_pad (msg : list byte) : list byte :=
  msg ++ [Init.Byte.x80] ++ replicate ((64 - (length msg + 9) mod 64) mod 64) Init.Byte.x00 ++ le_bytes 8 (8 * Z.of_nat (length msg)).

Definition MD5 (msg : list byte) : list byte :=
  let '(W4 a b c d) := absorb 64 compress init (md5_pad msg) in flat_map (le_bytes 4) [a; b; c; d].

(** A test vector of the RFC. *)
Example MD5_abc : be_val (MD5 Fips.abc) = 0x900150983cd24fb0d6963f7d28e17f72.
Proof. vm_compute. reflexivity. Qed.

End Rfc1321.

(** ** The code *)

Inductive md5_fn := F1 | F2 | F3 | F4.

Definition apply_fn (f : md5_fn) (x y z : Z) : Z :=
  match f with
  | F1 => Z.lxor z (Z.land x (Z.lxor y z))
  | F2 => Z.lxor y (Z.land z (Z.lxor x y))
  | F3 => Z.lxor (Z.lxor x y) z
  | F4 => Z.lxor y (Z.lor x (u32 (Z.lnot z)))
  end.

Definition MD5STEP (f : md5_fn) (w x y z data s : Z) : Z :=
  let w := u32 (w + u32 (apply_fn f x y z + data)) in
  let w := Z.lor (u32 (Z.shiftl w s)) (Z.shiftr w (32 - s)) in
  u32 (w + x).

(** The lines of the function: which function, which word, the constant, the rotation. *)
Definition md5_lines : list (md5_fn * nat * Z * Z) :=
  [(F1, 0%nat, 0xd76aa478, 7); (F1, 1%nat, 0xe8c7b756, 12); (F1, 2%nat, 0x242070db, 17); (F1, 3%nat, 0xc1bdceee, 22);
   (F1, 4%nat, 0xf57c0faf, 7); (F1, 5%nat, 0x4787c62a, 12); (F1, 6%nat, 0xa8304613, 17); (F1, 7%nat, 0xfd469501, 22);
   (F1, 8%nat, 0x698098d8, 7); (F1, 9%nat, 0x8b44f7af, 12); (F1, 10%nat, 0xffff5bb1, 17); (F1, 11%nat, 0x895cd7be, 22);
   (F1, 12%nat, 0x6b901122, 7); (F1, 13%nat, 0xfd987193, 12); (F1, 14%nat, 0xa679438e, 17); (F1, 15%nat, 0x49b40821, 22);
   (F2, 1%nat, 0xf61e2562, 5); (F2, 6%nat, 0xc040b340, 9); (F2, 11%nat, 0x265e5a51, 14); (F2, 0%nat, 0xe9b6c7aa, 20);
   (F2, 5%nat, 0xd62f105d, 5); (F2, 10%nat, 0x02441453, 9); (F2, 15%nat, 0xd8a1e681, 14); (F2, 4%nat, 0xe7d3fbc8, 20);
   (F2, 9%nat, 0x21e1cde6, 5); (F2, 14%nat, 0xc33707d6, 9); (F2, 3%nat, 0xf4d50d87, 14); (F2, 8%nat, 0x455a14ed, 20);
   (F2, 13%nat, 0xa9e3e905, 5); (F2, 2%nat, 0xfcefa3f8, 9); (F2, 7%nat, 0x676f02d9, 14); (F2, 12%nat, 0x8d2a4c8a, 20);
   (F3, 5%nat, 0xfffa3942, 4); (F3, 8%nat, 0x8771f681, 11); (F3, 11%nat, 0x6d9d6122, 16); (F3, 14%nat, 0xfde5380c, 23);
   (F3, 1%nat, 0xa4beea44, 4); (F3, 4%nat, 0x4bdecfa9, 11); (F3, 7%nat, 0xf6bb4b60, 16); (F3, 10%nat, 0xbebfbc70, 23);
   (F3, 13%nat, 0x289b7ec6, 4); (F3, 0%nat, 0xeaa127fa, 11); (F3, 3%nat, 0xd4ef3085, 16); (F3, 6%nat, 0x04881d05, 23);
   (F3, 9%nat, 0xd9d4d039, 4); (F3, 12%nat, 0xe6db99e5, 11); (F3, 15%nat, 0x1fa27cf8, 16); (F3, 2%nat, 0xc4ac5665, 23);
   (F4, 0%nat, 0xf4292244, 6); (F4, 7%nat, 0x432aff97, 10); (F4, 14%nat, 0xab9423a7, 15); (F4, 5%nat, 0xfc93a039, 21);
   (F4, 12%nat, 0x655b59c3, 6); (F4, 3%nat, 0x8f0ccc92, 10); (F4, 10%nat, 0xffeff47d, 15); (F4, 1%nat, 0x85845dd1, 21);
   (F4, 8%nat, 0x6fa87e4f, 6); (F4, 15%nat, 0xfe2ce6e0, 10); (F4, 6%nat, 0xa3014314, 15); (F4, 13%nat, 0x4e0811a1, 21);
   (F4, 4%nat, 0xf7537e82, 6); (F4, 11%nat, 0xbd3af235, 10); (F4, 2%nat, 0x2ad7d2bb, 15); (F4, 9%nat, 0xeb86d391, 21)].

(** A line changes the first register; the next line has the registers one place on. *)
Definition md5_line (inw : list Z) (r : words4) (l : md5_fn * nat * Z * Z) : words4 :=
  let '(W4 w x y z) := r in
  let '(f, k, c, s) := l in
  W4 z (MD5STEP f w x y z (u32 (nth k inw 0 + c)) s) x y.

Definition MD5Transform (buf : words4) (inw : list Z) : words4 :=
  let r := fold_left (md5_line inw) md5_lines buf in
  W4 (u32 (x_a buf + x_a r)) (u32 (x_b buf + x_b r)) (u32 (x_c buf + x_c r)) (u32 (x_d buf + x_d r)).

Section Host.

Context (be : bool).

(** A word of the host in memory. *)
Definition store32 (v : Z) : list byte := if be then be_bytes 4 v else le_bytes 4 v.
Definition load32 (b : list byte) : Z := if be then be_val b else le_val b.

Definition load_words (b : list byte) : list Z := map (fun i => load32 (read_at b (4 * i) 4)) (seq 0 16).

Definition byteReverse (buf : list byte) (longs : nat) : list byte :=
  flat_map (fun i => store32 (le_val (read_at buf (4 * i) 4))) (seq 0 longs) ++ drop (4 * longs) buf.

Record MD5Context := Md5Ctx {
  m_buf : words4;
  bits0 : Z;
  bits1 : Z;
  m_in : list byte
}.

Definition MD5Init (ctx : MD5Context) : MD5Context := Md5Ctx (W4 0x67452301 0xefcdab89 0x98badcfe 0x10325476) 0 0 (m_in ctx).

(** The 64-byte chunks; the result has the bytes that are left. *)
Fixpoint md5_loop (fuel : nat) (buf : words4) (inb data : list byte) : words4 * list byte * list byte :=
  match fuel with
  | O => (buf, inb, data)
  | S fuel =>
      if (64 <=? length data)%nat then
        let inb := byteReverse (write_at inb 0 (take 64 data)) 16 in
        md5_loop fuel (MD5Transform buf (load_words inb)) inb (drop 64 data)
      else (buf, inb, data)
  end.

(** The length is passed as an unsigned int. *)
Definition MD5Update (ctx : MD5Context) (data0 : list byte) : MD5Context :=
  let len := u32 (Z.of_nat (length data0)) in
  let data := take (Z.to_nat len) data0 in
  let t := bits0 ctx in
  let b0 := u32 (t + u32 (Z.shiftl len 3)) in
  let b1 := if b0 <? t then u32 (bits1 ctx + 1) else bits1 ctx in
  let b1 := u32 (b1 + Z.shiftr len 29) in
  let t := Z.to_nat (Z.land (Z.shiftr t 3) 0x3f) in
  if negb (t =? 0)%nat && (length data <? 64 - t)%nat then Md5Ctx (m_buf ctx) b0 b1 (write_at (m_in ctx) t data)
  else
    let '(buf, inb, data) :=
      if negb (t =? 0)%nat then
        let inb := byteReverse (write_at (m_in ctx) t (take (64 - t) data)) 16 in
        (MD5Transform (m_buf ctx) (load_words inb), inb, drop (64 - t) data)
      else (m_buf ctx, m_in ctx, data) in
    let '(buf, inb, data) := md5_loop (length data) buf inb data in
    Md5Ctx buf b0 b1 (write_at inb 0 data).

Definition MD5Final (ctx : MD5Context) : list byte * MD5Context :=
  let count := Z.to_nat (Z.land (Z.shiftr (bits0 ctx) 3) 0x3f) in
  let inb := write_at (m_in ctx) count [Init.Byte.x80] in
  let p := S count in
  let count := (64 - 1 - count)%nat in
  let '(buf, inb) :=
    if (count <? 8)%nat then
      let inb := byteReverse (write_at inb p (replicate count Init.Byte.x00)) 16 in
      (MD5Transform (m_buf ctx) (load_words inb), write_at inb 0 (replicate 56 Init.Byte.x00))
    else (m_buf ctx, write_at inb p (replicate (count - 8) Init.Byte.x00)) in
  let inb := byteReverse inb 14 in
  let inb := write_at inb (4 * 14) (store32 (bits0 ctx)) in
  let inb := write_at inb (4 * 15) (store32 (bits1 ctx)) in
  let '(W4 a b c d) := MD5Transform buf (load_words inb) in
  (byteReverse (flat_map store32 [a; b; c; d]) 4, Md5Ctx (W4 0 0 0 0) 0 0 (replicate 64 Init.Byte.x00)).

Definition md5 : hash_algo :=
  HashAlgo MD5Context 16 (fun c => Some (MD5Init c)) (fun c d => Some (MD5Update c d)) (fun c => Some (MD5Final c)).

End Host.

(** ** The transformation is that of the RFC *)

Definition tag (i : nat) : md5_fn := if (i <? 16)%nat then F1 else if (i <? 32)%nat then F2 else if (i <? 48)%nat then F3 else F4.

Lemma md5_lines_eq : md5_lines = map (fun i => (tag i, Rfc1321.word i, nth i Rfc1321.table 0, Rfc1321.rot i)) (seq 0 64).
Proof. vm_compute. reflexivity. Qed.

Lemma u32_bits x y : (forall n, 0 <= n < 32 -> Z.testbit x n = Z.testbit y n) -> u32 x = u32 y.
Proof.
  intros H. unfold u32. rewrite <- !Z.land_ones by lia. apply Z.bits_inj'. intros n Hn. rewrite !Z.land_spec.
  destruct (decide (n < 32)); [by rewrite H|]. rewrite Z.ones_spec_high by lia. by rewrite !andb_false_r.
Qed.

Lemma apply_fn_eq i x y z : u32 (apply_fn (tag i) x y z) = u32 (Rfc1321.fn i x y z).
Proof.
  unfold tag, Rfc1321.fn. destruct (i <? 16)%nat; [|destruct (i <? 32)%nat; [|destruct (i <? 48)%nat; [done|]]]; apply u32_bits; intros n Hn;
    unfold Rfc1321.F, Rfc1321.G, Rfc1321.I, u32; cbn [apply_fn].
  - rewrite Z.lxor_spec, Z.lor_spec, !Z.land_spec, Z.lxor_spec, Z.lnot_spec by lia. by repeat destruct (Z.testbit _ _).
  - rewrite Z.lxor_spec, Z.lor_spec, !Z.land_spec, Z.lxor_spec, Z.lnot_spec by lia. by repeat destruct (Z.testbit _ _).
  - unfold u32. rewrite !Z.lxor_spec, !Z.lor_spec, Z.mod_pow2_bits_low by lia. done.
Qed.

Lemma md5_line_step inw r i : md5_line inw r (tag i, Rfc1321.word i, nth i Rfc1321.table 0, Rfc1321.rot i) = Rfc1321.rfc_step inw r i.
Proof.
  destruct r as [a b c d]. cbn [md5_line Rfc1321.rfc_step]. f_equal. unfold MD5STEP.
  set (X := nth (Rfc1321.word i) inw 0). set (K := nth i Rfc1321.table 0).
  assert (E : u32 (a + u32 (apply_fn (tag i) b c d + u32 (X + K))) = u32 (a + Rfc1321.fn i b c d + X + K)).
  { pose proof (apply_fn_eq i b c d) as E. unfold u32 in *. rewrite Zplus_mod_idemp_r, !Z.add_assoc.
    rewrite <- (Zplus_mod_idemp_r (_ mod _)), Zmod_mod.
    rewrite Zplus_mod_idemp_r. rewrite <- !(Z.add_assoc a), <- (Zplus_mod_idemp_r _ a), <- (Zplus_mod_idemp_l (apply_fn _ _ _ _)), E.
    rewrite Zplus_mod_idemp_l, Zplus_mod_idemp_r. f_equal. lia. }
  rewrite E. rewrite Z.add_comm. done.
Qed.

Theorem MD5Transform_rfc buf inw :
  MD5Transform buf inw = let s := fold_left (Rfc1321.rfc_step inw) (seq 0 64) buf in
    W4 (u32 (x_a buf + x_a s)) (u32 (x_b buf + x_b s)) (u32 (x_c buf + x_c s)) (u32 (x_d buf + x_d s)).
Proof.
  unfold MD5Transform. rewrite md5_lines_eq, fold_left_map.
  rewrite (fold_left_ext _ (Rfc1321.rfc_step inw)) by (intros r i; apply md5_line_step). done.
Qed.

(** ** The words of the host *)

Section Words.

Context (be : bool).

Lemma length_store32 v : length (store32 be v) = 4%nat.
Proof. unfold store32. destruct be; [apply length_be_bytes|apply length_le_bytes]. Qed.

Lemma load_store32 v : load32 be (store32 be v) = u32 v.
Proof. unfold load32, store32. destruct be; [apply (be_val_bytes 4)|apply (le_val_bytes 4)]. Qed.

Lemma load_store_le b : (length b <= 4)%nat -> load32 be (store32 be (le_val b)) = le_val b.
Proof.
  intros H. rewrite load_store32. apply u32_small. pose proof (le_val_nonneg b). pose proof (le_val_bound b).
  assert (2 ^ (8 * Z.of_nat (length b)) <= 2 ^ 32) by (apply Z.pow_le_mono_r; lia). lia.
Qed.

Lemma read_flat_map (f : nat -> list byte) post n : (forall j, length (f j) = 4%nat) -> forall k i, (i < n)%nat ->
  read_at (flat_map f (seq k n) ++ post) (4 * i) 4 = f (k + i)%nat.
Proof.
  intros Hf. induction n as [|n IH]; intros k i Hi; [lia|]. cbn [seq flat_map]. rewrite <- app_assoc. destruct i as [|i].
  - rewrite Nat.add_0_r. unfold read_at. rewrite Nat.mul_0_r, drop_0. by apply take_app_length'.
  - replace (k + S i)%nat with (S k + i)%nat by lia. rewrite <- IH by lia. unfold read_at. rewrite drop_app_ge by (rewrite Hf; lia).
    do 2 f_equal. rewrite Hf. lia.
Qed.

Lemma length_byteReverse b n : (4 * n <= length b)%nat -> length (byteReverse be b n) = length b.
Proof.
  intros H. unfold byteReverse. rewrite length_app, length_drop.
  assert (E : forall k m (f : nat -> list byte), (forall j, length (f j) = 4%nat) -> length (flat_map f (seq k m)) = (4 * m)%nat).
  { intros k m f Hf. revert k. induction m as [|m IH]; intros k; cbn [seq flat_map]; [done|]. rewrite length_app, Hf, IH. lia. }
  rewrite E by (intros; apply length_store32). lia.
Qed.

Lemma read_byteReverse b n i : (i < n)%nat -> read_at (byteReverse be b n) (4 * i) 4 = store32 be (le_val (read_at b (4 * i) 4)).
Proof. intros Hi. unfold byteReverse. rewrite read_flat_map by (done || intros; apply length_store32). done. Qed.

Lemma length_read4 b o : (length (read_at b o 4) <= 4)%nat.
Proof. unfold read_at. rewrite length_take. lia. Qed.

Lemma load_words_reverse b : load_words be (byteReverse be b 16) = Rfc1321.block_words b.
Proof.
  unfold load_words, Rfc1321.block_words. apply map_ext_in. intros i Hi. apply in_seq in Hi.
  rewrite read_byteReverse by lia. apply load_store_le, length_read4.
Qed.

Lemma read_write4 l off d : length d = 4%nat -> (off + 4 <= length l)%nat -> read_at (write_at l off d) off 4 = d.
Proof. intros Hd Hl. rewrite <- Hd. apply read_write_at_same. lia. Qed.

(** The last block: 14 words of text, and the two words of the length. *)
Lemma load_words_last b v w : length b = 64%nat ->
  load_words be (write_at (write_at (byteReverse be b 14) (4 * 14) (store32 be v)) (4 * 15) (store32 be w)) =
  Rfc1321.block_words (take 56 b ++ le_bytes 4 v ++ le_bytes 4 w).
Proof.
  intros Hb. unfold load_words, Rfc1321.block_words. apply map_ext_in. intros i Hi. apply in_seq in Hi.
  assert (LR : length (byteReverse be b 14) = 64%nat) by (rewrite length_byteReverse; lia).
  pose proof (length_store32 v) as Lv. pose proof (length_store32 w) as Lw. assert (L56 : length (take 56 b) = 56%nat) by (rewrite length_take; lia).
  destruct (decide (i = 15%nat)) as [->|H15]; [|destruct (decide (i = 14%nat)) as [->|H14]].
  - rewrite read_write4 by (rewrite ?length_write_at; lia). rewrite load_store32.
    rewrite (app_assoc (take 56 b)). replace (4 * 15)%nat with (length (take 56 b ++ le_bytes 4 v)) by (rewrite length_app, L56; done).
    rewrite read_at_app_r, take_ge by (rewrite length_le_bytes; lia). by rewrite (le_val_bytes 4).
  - rewrite read_write_at_before by (rewrite ?length_write_at; lia). rewrite read_write4 by lia. rewrite load_store32.
    replace (4 * 14)%nat with (length (take 56 b)) by lia. rewrite read_at_app_r. rewrite take_app_length' by (by rewrite length_le_bytes).
    by rewrite (le_val_bytes 4).
  - rewrite !read_write_at_before by (rewrite ?length_write_at; lia). rewrite read_byteReverse by lia. rewrite load_store_le by apply length_read4.
    rewrite read_at_app_l by lia. f_equal. unfold read_at. rewrite skipn_firstn_comm, take_take. f_equal. lia.
Qed.

(** The words of the digest leave in the order of the RFC on every host. *)
Lemma reverse_words a b c d : byteReverse be (flat_map (store32 be) [a; b; c; d]) 4 = flat_map (le_bytes 4) [a; b; c; d].
Proof.
  assert (HS : forall v, store32 be (le_val (store32 be v)) = le_bytes 4 v).
  { intros v. unfold store32. destruct be.
    - unfold be_bytes. rewrite <- (length_le_bytes 4 v) at 1. rewrite <- length_rev, le_bytes_val. apply rev_involutive.
    - rewrite <- (length_le_bytes 4 v) at 1. apply le_bytes_val. }
  assert (HR : forall i, (i < 4)%nat -> read_at (flat_map (store32 be) [a; b; c; d]) (4 * i) 4 = store32 be (nth i [a; b; c; d] 0)).
  { intros i Hi. pose proof (read_flat_map (fun j => store32 be (nth j [a; b; c; d] 0)) [] 4 (fun j => length_store32 _) 0 i Hi) as E.
    rewrite app_nil_r in E. exact E. }
  unfold byteReverse. rewrite drop_ge, app_nil_r.
  - cbn [seq flat_map]. by rewrite !(HR _), !HS by lia.
  - cbn [flat_map]. rewrite !length_app, !length_store32. cbn. lia.
Qed.

End Words.

(** ** The digest of a message *)

Lemma compress_words st block : MD5Transform st (Rfc1321.block_words block) = Rfc1321.compress st block.
Proof. apply MD5Transform_rfc. Qed.

(** The two words of the count of bits. *)
Definition counted (n : nat) (b0 b1 : Z) : Prop :=
  0 <= b0 < 2 ^ 32 /\ 0 <= b1 < 2 ^ 32 /\ b0 + 2 ^ 32 * b1 = (8 * Z.of_nat n) mod 2 ^ 64.

Lemma counted_index n b0 b1 : counted n b0 b1 -> Z.to_nat (Z.land (Z.shiftr b0 3) 0x3f) = (n mod 64)%nat.
Proof.
  intros (H0 & H1 & E). change 0x3f with (Z.ones 6). rewrite Z.land_ones, Z.shiftr_div_pow2 by lia.
  apply Nat2Z.inj. rewrite Z2Nat.id, Nat2Z.inj_mod by (apply Z.mod_pos_bound; lia). change (Z.of_nat 64) with 64. change (2 ^ 3) with 8. change (2 ^ 6) with 64.
  pose proof (Z.div_mod (8 * Z.of_nat n) (2 ^ 64) ltac:(lia)) as D. rewrite <- E in D. set (q := 8 * Z.of_nat n / 2 ^ 64) in *.
  replace b0 with ((Z.of_nat n - 2 ^ 61 * q - 2 ^ 29 * b1) * 8) by lia. rewrite Z.div_mul by lia.
  replace (Z.of_nat n - 2 ^ 61 * q - 2 ^ 29 * b1) with (Z.of_nat n + (- (2 ^ 55 * q) - 2 ^ 23 * b1) * 64) by lia. by rewrite Z.mod_add by lia.
Qed.

Lemma counted_add n m b0 b1 : counted n b0 b1 -> Z.of_nat m < 2 ^ 32 ->
  let len := Z.of_nat m in
  let c0 := u32 (b0 + u32 (Z.shiftl len 3)) in
  counted (n + m) c0 (u32 ((if c0 <? b0 then u32 (b1 + 1) else b1) + Z.shiftr len 29)).
Proof.
  intros (H0 & H1 & E) Hm len c0. unfold counted. split; [apply u32_range|]. split; [apply u32_range|].
  rewrite Nat2Z.inj_add, Z.mul_add_distr_l, <- Zplus_mod_idemp_l, <- E. fold len. rewrite Z.shiftr_div_pow2 by lia.
  subst c0. rewrite Z.shiftl_mul_pow2 by lia. change (2 ^ 3) with 8. unfold u32.
  pose proof (Z.div_mod len (2 ^ 29) ltac:(lia)) as D. pose proof (Z.mod_pos_bound len (2 ^ 29) ltac:(lia)) as R.
  set (h := len / 2 ^ 29) in *. set (l := len mod 2 ^ 29) in *. assert (Hh : 0 <= h) by (apply Z.div_pos; lia).
  assert (E1 : (len * 8) mod 2 ^ 32 = 8 * l) by (symmetry; apply (Z.mod_unique _ _ h); lia). rewrite E1.
  destruct (decide (b0 + 8 * l < 2 ^ 32)) as [Hs|Hs].
  - rewrite (Z.mod_small (b0 + 8 * l)) by lia. rewrite (proj2 (Z.ltb_ge _ _)) by lia.
    pose proof (Z.div_mod (b1 + h) (2 ^ 32) ltac:(lia)). pose proof (Z.mod_pos_bound (b1 + h) (2 ^ 32) ltac:(lia)).
    apply (Z.mod_unique _ _ ((b1 + h) / 2 ^ 32)); lia.
  - assert (E2 : (b0 + 8 * l) mod 2 ^ 32 = b0 + 8 * l - 2 ^ 32) by (symmetry; apply (Z.mod_unique _ _ 1); lia).
    rewrite E2, (proj2 (Z.ltb_lt _ _)) by lia. rewrite Zplus_mod_idemp_l.
    pose proof (Z.div_mod (b1 + 1 + h) (2 ^ 32) ltac:(lia)). pose proof (Z.mod_pos_bound (b1 + 1 + h) (2 ^ 32) ltac:(lia)).
    apply (Z.mod_unique _ _ ((b1 + 1 + h) / 2 ^ 32)); lia.
Qed.

Section Update.

Context (be : bool).

Definition md5_rep (msg : list byte) (c : MD5Context) : Prop :=
  buffered 64 Rfc1321.compress Rfc1321.init msg (m_buf c) (m_in c) /\ counted (length msg) (bits0 c) (bits1 c).

Lemma md5_loop_ok fuel : forall st inb data, (length data < 64 * S fuel)%nat -> length inb = 64%nat ->
  exists inb', md5_loop be fuel st inb data = (absorb 64 Rfc1321.compress st data, inb', rest 64 data) /\ length inb' = 64%nat.
Proof.
  induction fuel as [|fuel IH]; intros st inb data Hf Hi; cbn [md5_loop].
  { destruct (absorb_small 64 Rfc1321.compress st data ltac:(lia)) as [-> ->]. eauto. }
  destruct (64 <=? length data)%nat eqn:E; [apply Nat.leb_le in E|apply Nat.leb_gt in E].
  - assert (Lt : length (take 64 data) = 64%nat) by (rewrite length_take; lia).
    rewrite load_words_reverse, write_at_full, compress_words by lia.
    destruct (absorb_block 64 ltac:(lia) Rfc1321.compress st (take 64 data) (drop 64 data) Lt) as [E1 E2]. rewrite take_drop in E1, E2. rewrite E1, E2.
    apply IH; [rewrite length_drop; lia|]. rewrite length_byteReverse; lia.
  - destruct (absorb_small 64 Rfc1321.compress st data ltac:(lia)) as [-> ->]. eauto.
Qed.

(** Data behind whole blocks. *)
Lemma buffered_whole msg st inb data inb' :
  buffered 64 Rfc1321.compress Rfc1321.init msg st inb -> (length msg mod 64 = 0)%nat -> length inb' = 64%nat ->
  buffered 64 Rfc1321.compress Rfc1321.init (msg ++ data) (absorb 64 Rfc1321.compress st data) (write_at inb' 0 (rest 64 data)).
Proof.
  intros [-> Hr Hl] Hm Hi. assert (Er : rest 64 msg = []) by (apply nil_length_inv; rewrite length_rest by lia; lia). constructor.
  - by rewrite absorb_blocks by lia.
  - rewrite rest_split, Er by lia. cbn [app]. rewrite length_app, <- Nat.Div0.add_mod_idemp_l, Hm, Nat.add_0_l. by apply write_rest; [lia|].
  - by rewrite length_write_at.
Qed.

Lemma MD5Update_ok msg c data :
  md5_rep msg c -> Z.of_nat (length data) < 2 ^ 32 -> md5_rep (msg ++ data) (MD5Update be c data).
Proof.
  intros [Hb Hc] Hl. unfold MD5Update. rewrite u32_small by lia. rewrite Nat2Z.id, firstn_all, (counted_index _ _ _ Hc).
  pose proof (counted_add _ _ _ _ Hc Hl) as Hc'. cbn zeta in Hc'. rewrite <- length_app in Hc'. pose proof Hb as [_ _ Hin].
  set (p := (length msg mod 64)%nat) in *. assert (Hp : (p < 64)%nat) by (apply Nat.mod_upper_bound; lia).
  destruct (p =? 0)%nat eqn:E0; cbn [negb andb]; [apply Nat.eqb_eq in E0|apply Nat.eqb_neq in E0].
  { destruct (md5_loop_ok (length data) (m_buf c) (m_in c) data ltac:(lia) Hin) as (inb' & -> & Hi'). split; [|exact Hc'].
    by apply (buffered_whole msg _ (m_in c)). }
  destruct (length data <? 64 - p)%nat eqn:E1; [apply Nat.ltb_lt in E1|apply Nat.ltb_ge in E1].
  { split; [|exact Hc']. apply (buffered_small 64); [lia|done|fold p; lia]. }
  set (d1 := take (64 - p) data). set (d2 := drop (64 - p) data). assert (L1 : length d1 = (64 - p)%nat) by (subst d1; rewrite length_take; lia).
  assert (Ed : data = d1 ++ d2) by (symmetry; apply take_drop).
  rewrite load_words_reverse, compress_words.
  assert (Eb : write_at (m_in c) p d1 = take p (m_in c) ++ d1) by (rewrite write_at_inside by lia; rewrite drop_ge by lia; by rewrite app_nil_r).
  rewrite Eb. assert (Lb : length (take p (m_in c) ++ d1) = 64%nat) by (rewrite length_app, length_take; lia).
  destruct (md5_loop_ok (length d2) (Rfc1321.compress (m_buf c) (take p (m_in c) ++ d1)) (byteReverse be (take p (m_in c) ++ d1) 16) d2)
    as (inb' & -> & Hi'); [lia|rewrite length_byteReverse; lia|].
  split; [|exact Hc']. cbn [m_buf m_in]. rewrite Ed at 1. apply (buffered_large 64); [lia|done|fold p; lia|by rewrite length_write_at|].
  apply write_rest; [lia|done].
Qed.

(** ** The end of a message *)

Lemma pad_zeros n : let p := (n mod 64)%nat in
  ((64 - (n + 9) mod 64) mod 64 = if p <? 56 then 55 - p else 119 - p)%nat.
Proof.
  intros p. assert (Hp : (p < 64)%nat) by (apply Nat.mod_upper_bound; lia). rewrite <- Nat.Div0.add_mod_idemp_l. fold p.
  destruct (p <? 56)%nat eqn:E; [apply Nat.ltb_lt in E|apply Nat.ltb_ge in E].
  - destruct (decide (p = 55)%nat) as [->|]; [done|]. rewrite (Nat.mod_small (p + 9)) by lia. rewrite Nat.mod_small; lia.
  - replace (p + 9)%nat with (p - 55 + 1 * 64)%nat by lia. rewrite Nat.Div0.mod_add, (Nat.mod_small (p - 55)) by lia. rewrite Nat.mod_small; lia.
Qed.

Lemma le_val_app a b : le_val (a ++ b) = le_val a + 2 ^ (8 * Z.of_nat (length a)) * le_val b.
Proof.
  induction a as [|x a IH]; cbn [app le_val length]; [lia|]. rewrite IH.
  replace (8 * Z.of_nat (S (length a))) with (8 + 8 * Z.of_nat (length a)) by lia. rewrite Z.pow_add_r by lia. change (2 ^ 8) with 256. ring.
Qed.

Lemma length_bytes n b0 b1 : counted n b0 b1 -> le_bytes 4 b0 ++ le_bytes 4 b1 = le_bytes 8 (8 * Z.of_nat n).
Proof.
  intros (H0 & H1 & E). apply le_val_inj; [by rewrite length_app, !length_le_bytes|].
  rewrite le_val_app, !le_val_bytes, length_le_bytes. change (8 * Z.of_nat 4) with 32. change (8 * Z.of_nat 8) with 64.
  rewrite !Z.mod_small by lia. exact E.
Qed.

(** The bytes behind the text in the buffer. *)
Lemma write_tail (r : list byte) inb n : take (length r) inb = r -> length inb = 64%nat -> (length r + 1 + n <= 64)%nat ->
  take (length r + 1 + n) (write_at (write_at inb (length r) [Init.Byte.x80]) (S (length r)) (replicate n Init.Byte.x00)) =
  r ++ [Init.Byte.x80] ++ replicate n Init.Byte.x00.
Proof.
  intros Hr Hi Hn. rewrite (write_at_inside inb) by (cbn; lia). rewrite Hr. cbn [length].
  rewrite write_at_inside by (rewrite !length_app, length_drop, length_replicate; cbn; lia).
  rewrite (app_assoc r), (take_app_length' (r ++ [Init.Byte.x80])) by (rewrite length_app; cbn; lia). rewrite app_assoc, take_app_length'; [by rewrite <- app_assoc|].
  rewrite !length_app, length_replicate. cbn. lia.
Qed.

Lemma write_head (l d : list byte) : (length d <= length l)%nat -> take (length d) (write_at l 0 d) = d.
Proof. intros H. rewrite write_at_inside by lia. rewrite take_0, app_nil_l. apply take_app_length. Qed.

Lemma absorb_last st b : length b = 64%nat -> absorb 64 Rfc1321.compress st b = Rfc1321.compress st b.
Proof. intros H. by destruct (absorb_block 64 ltac:(lia) Rfc1321.compress st b [] H) as [E _]; rewrite app_nil_r in E. Qed.

(** What is left to do when the whole blocks of the message are taken in. *)
Lemma MD5_last msg st : st = absorb 64 Rfc1321.compress Rfc1321.init msg ->
  Rfc1321.MD5 msg =
    let '(W4 a b c d) := absorb 64 Rfc1321.compress st
      (rest 64 msg ++ [Init.Byte.x80] ++ replicate ((64 - (length msg + 9) mod 64) mod 64) Init.Byte.x00 ++ le_bytes 8 (8 * Z.of_nat (length msg))) in
    flat_map (le_bytes 4) [a; b; c; d].
Proof. intros ->. unfold Rfc1321.MD5, Rfc1321.md5_pad. by rewrite absorb_split by lia. Qed.

(** The last block is the text, the mark, zeroes and the length. *)
Lemma MD5Final_ok msg c :
  md5_rep msg c -> exists c', MD5Final be c = (Rfc1321.MD5 msg, c') /\ length (m_in c') = 64%nat.
Proof.
  intros [Hb Hc]. unfold MD5Final. rewrite (counted_index _ _ _ Hc). destruct Hb as [Est Hr Hi].
  pose proof (pad_zeros (length msg)) as Ez. cbn zeta in Ez. pose proof (length_rest 64 ltac:(lia) msg) as Lr. rewrite <- Lr in *.
  set (r := rest 64 msg) in *. assert (Hp : (length r < 64)%nat) by (rewrite Lr; apply Nat.mod_upper_bound; lia).
  set (L := le_bytes 8 (8 * Z.of_nat (length msg))). assert (LL : length L = 8%nat) by apply length_le_bytes.
  pose proof (length_bytes _ _ _ Hc) as EL. fold L in EL.
  rewrite (MD5_last msg (m_buf c) Est). fold r L. rewrite Ez. clear Ez. set (w1 := write_at (write_at (m_in c) (length r) [Init.Byte.x80]) (S (length r))).
  replace (64 - 1 - length r)%nat with (63 - length r)%nat by lia.
  destruct (length r <? 56)%nat eqn:E; [apply Nat.ltb_lt in E|apply Nat.ltb_ge in E].
  - rewrite (proj2 (Nat.ltb_ge _ _)) by lia. replace (63 - length r - 8)%nat with (55 - length r)%nat by lia.
    rewrite load_words_last, EL, compress_words by (unfold w1; by rewrite !length_write_at).
    pose proof (write_tail r (m_in c) (55 - length r) Hr Hi ltac:(lia)) as Et. fold w1 in Et.
    replace (length r + 1 + (55 - length r))%nat with 56%nat in Et by lia. rewrite Et, <- !app_assoc.
    rewrite absorb_last by (rewrite !length_app, length_replicate, LL; cbn [length]; lia).
    destruct (Rfc1321.compress _ _) as [a b e f]. eexists. rewrite reverse_words. split; [reflexivity|]. done.
  - rewrite (proj2 (Nat.ltb_lt _ _)) by lia. rewrite load_words_reverse, compress_words.
    pose proof (write_tail r (m_in c) (63 - length r) Hr Hi ltac:(lia)) as Et. fold w1 in Et.
    assert (Lw : length (w1 (replicate (63 - length r) Init.Byte.x00)) = 64%nat) by (unfold w1; by rewrite !length_write_at).
    replace (length r + 1 + (63 - length r))%nat with 64%nat in Et by lia. rewrite take_ge in Et by lia. rewrite Et in *.
    set (B1 := r ++ [Init.Byte.x80] ++ replicate (63 - length r) Init.Byte.x00) in *.
    rewrite load_words_last, EL, compress_words by (rewrite length_write_at, length_byteReverse; lia).
    rewrite (write_head _ (replicate 56 Init.Byte.x00)) by (rewrite length_byteReverse; rewrite ?Lw; cbn; lia).
    replace (replicate (119 - length r) Init.Byte.x00) with (replicate (63 - length r) Init.Byte.x00 ++ replicate 56 Init.Byte.x00)
      by (rewrite <- replicate_add; f_equal; lia).
    replace (r ++ [Init.Byte.x80] ++ (replicate (63 - length r) Init.Byte.x00 ++ replicate 56 Init.Byte.x00) ++ L) with
      (B1 ++ (replicate 56 Init.Byte.x00 ++ L)) by (unfold B1; by rewrite <- !app_assoc).
    rewrite (proj1 (absorb_block 64 ltac:(lia) Rfc1321.compress (m_buf c) B1 (replicate 56 Init.Byte.x00 ++ L) Lw)).
    rewrite absorb_last by (by rewrite length_app, length_replicate, LL).
    destruct (Rfc1321.compress _ (_ ++ L)) as [a b e f]. eexists. rewrite reverse_words. split; [reflexivity|]. done.
Qed.

End Update.

#[export, refine] Instance md5_ok be : HashOk (md5 be) Rfc1321.MD5 := {
  hash_max := 2 ^ 61;
  hash_wf (c : hash_ctx (md5 be)) := length (m_in c) = 64%nat;
  hash_rep c msg := md5_rep msg c
}.
Proof.
  - intros c msg [[_ _ Hl] _]. exact Hl.
  - intros c Hc. eexists. split; [reflexivity|]. split; [by apply (buffered_nil 64); [lia|]|]. by repeat split.
  - intros c msg data Hc Hl. eexists. split; [reflexivity|]. apply MD5Update_ok; [done|lia].
  - intros c msg Hc _. cbn [hash_final md5]. destruct (MD5Final_ok be msg c Hc) as (c' & -> & Hc'). by exists c'.
  - intros msg. unfold Rfc1321.MD5. destruct (absorb _ _ _ _) as [a b c d]. cbn [flat_map]. rewrite !length_app, !length_le_bytes. done.
Defined.

End Md5.
