(* ===== verification/Hmac.v ===== *)
(** * Keyed digests and key derivation (crypto/digest.c, crypto/hmac.c, crypto/pbkdf2.c)

    The functions of crypto/digest.c that every digest shares, the HMAC construction
    around a digest, and PBKDF2 on top of it.  The digest is a [hash_algo]; what the
    theorems need of it is [HashOk].  The result [None] is a use of memory that was
    freed, an access outside of a buffer, or a loop that does not end. *)

From stdpp Require Import base list.
From Stdlib Require Import ZArith Lia.
From S2P Require Import Prelude HashBlocks Fips180 Sha2 Sha1 Sha4 Md5.

Module Hmac.

Import HashBlocks.

(** ** Memory *)

(** What a pointer points to. *)
Inductive mem_ptr :=
  | Null
  | Freed
  | Mem (bytes : list byte).

(** [free()]: a block is not freed twice. *)
Definition free (p : mem_ptr) : option mem_ptr :=
  match p with
  | Null => Some Null
  | Freed => None
  | Mem _ => Some Freed
  end.

(** The first bytes of the block. *)
Definition deref (p : mem_ptr) (len : Z) : option (list byte) :=
  match p with
  | Mem bytes => if Z.of_nat (length bytes) <? len then None else Some (take (Z.to_nat len) bytes)
  | _ => None
  end.

Definition xor_byte (x y : byte) : byte := byte_of (Z.lxor (byte_val x) (byte_val y)).

(** The loop [dst[k] ^= src[k]] for [k < n]. *)
Definition xor_loop (n : nat) (dst src : list byte) : list byte :=
  fold_left (fun dst k => <[k := xor_byte (nth k dst Init.Byte.x00) (nth k src Init.Byte.x00)]> dst) (seq 0 n) dst.

(** ** Functions of all digests *)

Section Generic.

Context (a : hash_algo).

Definition digest_generic_digest (d : hash_ctx a) (data : mem_ptr) (len : Z) : option (Z * list byte * hash_ctx a) :=
  match data with
  | Null => Some (- EINVAL, [], d)
  | _ =>
      if len =? 0 then Some (- EINVAL, [], d)
      else
        match hash_init a d with
        | None => None
        | Some d =>
            match deref data len with
            | None => None
            | Some bytes =>
                match hash_update a d bytes with
                | None => None
                | Some d => match hash_final a d with None => None | Some (md, d) => Some (0, md, d) end
                end
            end
        end
  end.

Lemma digest_generic_digest_ok {H} `{!HashOk a H} d bytes len :
  hash_wf d -> 0 < len <= Z.of_nat (length bytes) -> len <= 2 ^ 32 - 128 -> len < hash_max a ->
  exists d', digest_generic_digest d (Mem bytes) len = Some (0, H (take (Z.to_nat len) bytes), d') /\ hash_wf d'.
Proof.
  intros Hd Hl H1 H2. unfold digest_generic_digest, deref. replace (len =? 0) with false by lia. replace (_ <? _) with false by lia.
  assert (Ht : Z.of_nat (length (take (Z.to_nat len) bytes)) = len) by (rewrite length_take; lia).
  destruct (hash_init_ok d Hd) as (d1 & -> & Hd1). destruct (hash_update_ok d1 [] (take (Z.to_nat len) bytes) Hd1 ltac:(lia)) as (d2 & -> & Hd2).
  cbn [app] in Hd2. destruct (hash_final_ok d2 _ Hd2 ltac:(lia)) as (d3 & -> & Hd3). eauto.
Qed.

End Generic.

(** ** HMAC (RFC 2104) *)

Definition xor_bytes (l k : list byte) : list byte := zip_with xor_byte l k.

Section Rfc2104.

Context (H : list byte -> list byte) (B : nat).

(** The key of a whole block. *)
Definition K0 (key : list byte) : list byte :=
  let k := if (B <? length key)%nat then H key else key in
  k ++ replicate (B - length k) Init.Byte.x00.

Definition HMAC (key text : list byte) : list byte :=
  H (xor_bytes (K0 key) (replicate B Init.Byte.x5c) ++ H (xor_bytes (K0 key) (replicate B Init.Byte.x36) ++ text)).

End Rfc2104.

(** ** crypto/hmac.c *)

Section Code.

Context (a : hash_algo) (pad_length : nat).

Record digest_hmac_ctx := HmacCtx {
  h_d : hash_ctx a;
  ipad : list byte;
  opad : list byte;
  key : mem_ptr;
  keylen : Z
}.

(** The pads are allocated and not initialised. *)
Definition digest_hmac_alloc (d : hash_ctx a) (pad1 pad2 : list byte) : digest_hmac_ctx := HmacCtx d pad1 pad2 Null 0.

(** The second [free()] takes the sum, also when it is the key now. *)
Definition digest_hmac_set_key (dh : digest_hmac_ctx) (k : list byte) : option (Z * digest_hmac_ctx) :=
  let len := u32 (Z.of_nat (length k)) in
  match free (key dh) with
  | None => None
  | Some old =>
      if Z.of_nat pad_length <? len then
        match digest_generic_digest a (h_d dh) old (keylen dh) with
        | None => None
        | Some (ret, sum, d) =>
            if negb (ret =? 0) then Some (ret, HmacCtx d (ipad dh) (opad dh) old (keylen dh))
            else Some (0, HmacCtx d (ipad dh) (opad dh) Freed (Z.of_nat (hash_length a)))
        end
      else Some (0, HmacCtx (h_d dh) (ipad dh) (opad dh) (Mem (take (Z.to_nat len) k)) len)
  end.

Definition digest_hmac_init (dh : digest_hmac_ctx) : option digest_hmac_ctx :=
  let ip := replicate pad_length Init.Byte.x36 in
  let op := replicate pad_length Init.Byte.x5c in
  match (if keylen dh =? 0 then Some [] else deref (key dh) (keylen dh)) with
  | None => None
  | Some k =>
      if (pad_length <? length k)%nat then None
      else
        let ip := xor_loop (length k) ip k in
        let op := xor_loop (length k) op k in
        match hash_init a (h_d dh) with
        | None => None
        | Some d =>
            match hash_update a d ip with
            | None => None
            | Some d => Some (HmacCtx d ip op (key dh) (keylen dh))
            end
        end
  end.

Definition digest_hmac_update (dh : digest_hmac_ctx) (data : list byte) : option digest_hmac_ctx :=
  match hash_update a (h_d dh) data with
  | None => None
  | Some d => Some (HmacCtx d (ipad dh) (opad dh) (key dh) (keylen dh))
  end.

Definition digest_hmac_final (dh : digest_hmac_ctx) : option (list byte * digest_hmac_ctx) :=
  match hash_final a (h_d dh) with
  | None => None
  | Some (tmp, d) =>
      match hash_init a d with
      | None => None
      | Some d =>
          match hash_update a d (opad dh) with
          | None => None
          | Some d =>
              match hash_update a d tmp with
              | None => None
              | Some d =>
                  match hash_final a d with
                  | None => None
                  | Some (md, d) => Some (md, HmacCtx d (ipad dh) (opad dh) (key dh) (keylen dh))
                  end
              end
          end
      end
  end.

Definition hmac_algo : hash_algo :=
  HashAlgo digest_hmac_ctx (hash_length a) digest_hmac_init digest_hmac_update digest_hmac_final.

End Code.

Arguments HmacCtx {a} h_d ipad opad key keylen.
Arguments h_d {a} d : rename.
Arguments ipad {a} d : rename.
Arguments opad {a} d : rename.
Arguments key {a} d : rename.
Arguments keylen {a} d : rename.

(** ** What the HMAC functions compute *)

Lemma length_xor_bytes l k : length l = length k -> length (xor_bytes l k) = length l.
Proof. intros H. unfold xor_bytes. rewrite length_zip_with. lia. Qed.

Lemma xor_byte_comm x y : xor_byte x y = xor_byte y x.
Proof. unfold xor_byte. by rewrite Z.lxor_comm. Qed.

Lemma xor_bytes_comm l : forall k, xor_bytes l k = xor_bytes k l.
Proof. induction l as [|x l IH]; intros [|y k]; try done. cbn. f_equal; [apply xor_byte_comm|apply IH]. Qed.

Lemma xor_byte_0_r x : xor_byte x Init.Byte.x00 = x.
Proof. unfold xor_byte. change (byte_val Init.Byte.x00) with 0. by rewrite Z.lxor_0_r, byte_of_val. Qed.

(** Up to a number of bytes the loop has done its work, the others are as before. *)
Lemma xor_loop_app n : forall dst src, (n <= length dst)%nat -> (n <= length src)%nat ->
  xor_loop n dst src = xor_bytes (take n dst) (take n src) ++ drop n dst.
Proof.
  induction n as [|n IH]; intros dst src H1 H2; [done|]. unfold xor_loop. rewrite seq_S, fold_left_app. cbn [Nat.add fold_left].
  fold (xor_loop n dst src). rewrite IH by lia. set (p := xor_bytes (take n dst) (take n src)).
  assert (Lp : length p = n) by (unfold p; rewrite length_xor_bytes; rewrite !length_take; lia).
  destruct (lookup_lt_is_Some_2 dst n ltac:(lia)) as [x Hx]. destruct (lookup_lt_is_Some_2 src n ltac:(lia)) as [y Hy].
  rewrite (drop_S dst x n Hx), insert_app_r_alt by lia. rewrite app_nth2, Lp, Nat.sub_diag by lia. cbn [nth list_insert insert].
  rewrite (nth_lookup_Some src n Init.Byte.x00 y Hy). change (<[0%nat:=xor_byte x y]> (x :: drop (S n) dst)) with (xor_byte x y :: drop (S n) dst).
  rewrite (take_S_r dst n x Hx), (take_S_r src n y Hy). unfold xor_bytes. rewrite zip_with_app by (rewrite !length_take; lia).
  cbn [zip_with]. by rewrite <- app_assoc.
Qed.

(** The pads of the code are those of the RFC. *)
Lemma xor_loop_pad H B k x :
  (length k <= B)%nat -> xor_loop (length k) (replicate B x) k = xor_bytes (K0 H B k) (replicate B x).
Proof.
  intros Hk. rewrite xor_loop_app by (rewrite ?length_replicate; lia). unfold K0. rewrite (proj2 (Nat.ltb_ge _ _) Hk).
  rewrite take_replicate, drop_replicate, firstn_all, Nat.min_l by lia. unfold xor_bytes.
  replace (replicate B x) with (replicate (length k) x ++ replicate (B - length k) x) by (rewrite <- replicate_add; f_equal; lia).
  rewrite zip_with_app by (by rewrite length_replicate). f_equal; [apply xor_bytes_comm|].
  rewrite zip_with_replicate. f_equal. by rewrite xor_byte_comm, xor_byte_0_r.
Qed.

Lemma length_K0 H B k : (length (H k) <= B)%nat -> length (K0 H B k) = B.
Proof. intros HH. unfold K0. destruct (_ <? _)%nat eqn:E; rewrite length_app, length_replicate; [lia|]. apply Nat.ltb_ge in E. lia. Qed.

Section HmacOk.

Context (a : hash_algo) {H : list byte -> list byte} `{Hok : !HashOk a H} (B : nat) (k : list byte).
Context (Hk : (length k <= B)%nat).

Abbreviation ipad0 := (xor_bytes (K0 H B k) (replicate B Init.Byte.x36)).
Abbreviation opad0 := (xor_bytes (K0 H B k) (replicate B Init.Byte.x5c)).

(** A context with the key. *)
Definition keyed (dh : digest_hmac_ctx a) : Prop := key dh = Mem k /\ keylen dh = Z.of_nat (length k) /\ hash_wf (h_d dh).

Lemma digest_hmac_set_key_ok dh : (B <= 128)%nat -> key dh <> Freed -> hash_wf (h_d dh) -> exists dh', digest_hmac_set_key a B dh k = Some (0, dh') /\ keyed dh'.
Proof.
  intros HB Hf Hw. unfold digest_hmac_set_key. rewrite u32_small, Nat2Z.id, firstn_all by lia. replace (_ <? _) with false by lia.
  destruct (key dh); [|done|]; (eexists; split; [done|by split_and!]).
Qed.

Context (HB : (hash_length a <= B <= 128)%nat) (Hmax : 2 ^ 10 <= hash_max a).

Definition hmac_rep (dh : digest_hmac_ctx a) (msg : list byte) : Prop :=
  key dh = Mem k /\ keylen dh = Z.of_nat (length k) /\ opad dh = opad0 /\ hash_rep (h_d dh) (ipad0 ++ msg).

Lemma length_pad0 x : length (xor_bytes (K0 H B k) (replicate B x)) = B.
Proof.
  assert (E : length (K0 H B k) = B) by (apply length_K0; rewrite hash_H_length; lia).
  by rewrite length_xor_bytes; rewrite ?length_replicate.
Qed.

Lemma digest_hmac_init_ok dh : keyed dh -> exists dh', digest_hmac_init a B dh = Some dh' /\ hmac_rep dh' [].
Proof.
  intros (E1 & E2 & Hw). unfold digest_hmac_init. rewrite E1, E2.
  assert (Ek : (if Z.of_nat (length k) =? 0 then Some [] else deref (Mem k) (Z.of_nat (length k))) = Some k).
  { destruct (_ =? 0) eqn:E; bool_prop; [destruct k; [done|cbn in E; lia]|]. unfold deref. rewrite Z.ltb_irrefl, Nat2Z.id.
    by rewrite firstn_all. }
  rewrite Ek, (proj2 (Nat.ltb_ge _ _) Hk), !(xor_loop_pad H) by done. destruct (hash_init_ok _ Hw) as (d1 & -> & Hd1).
  destruct (hash_update_ok d1 [] ipad0 Hd1) as (d2 & -> & Hd2); [rewrite length_pad0; lia|].
  eexists. split; [done|]. split_and!; try done. cbn. by rewrite app_nil_r.
Qed.

Lemma digest_hmac_final_ok dh msg :
  hmac_rep dh msg -> Z.of_nat (length msg) < hash_max a - Z.of_nat B ->
  exists dh', digest_hmac_final a dh = Some (HMAC H B k msg, dh') /\ keyed dh'.
Proof.
  intros (E1 & E2 & E3 & Hr) Hl. unfold digest_hmac_final. pose proof length_pad0 as Lp.
  destruct (hash_final_ok _ _ Hr) as (d1 & -> & Hw1); [rewrite length_app, Lp; lia|].
  destruct (hash_init_ok _ Hw1) as (d2 & -> & Hr2). rewrite E3.
  destruct (hash_update_ok d2 [] opad0 Hr2) as (d3 & -> & Hr3); [rewrite Lp; lia|].
  pose proof (hash_H_length (ipad0 ++ msg)) as LH.
  destruct (hash_update_ok d3 _ (H (ipad0 ++ msg)) Hr3) as (d4 & -> & Hr4); [lia|].
  destruct (hash_final_ok _ _ Hr4) as (d5 & -> & Hw5); [rewrite !length_app, Lp, LH; cbn; lia|].
  eexists. split; [done|by split_and!].
Qed.

#[local, refine] Instance hmac_ok : HashOk (hmac_algo a B) (HMAC H B k) := {
  hash_max := hash_max a - Z.of_nat B;
  hash_wf (dh : hash_ctx (hmac_algo a B)) := keyed dh;
  hash_rep dh msg := hmac_rep dh msg
}.
Proof.
  - intros dh msg (E1 & E2 & _ & Hr). split_and!; [done|done|exact (hash_rep_wf _ _ Hr)].
  - exact digest_hmac_init_ok.
  - intros dh msg data (E1 & E2 & E3 & Hr) Hl. cbn [hash_update hmac_algo]. unfold digest_hmac_update.
    destruct (hash_update_ok _ _ data Hr Hl) as (d1 & -> & Hd1). eexists. split; [done|]. rewrite <- app_assoc in Hd1. by split_and!.
  - exact digest_hmac_final_ok.
  - intros msg. unfold HMAC. cbn [hash_length hmac_algo]. exact (hash_H_length (a := a) _).
Defined.

End HmacOk.

(** A key that is longer than a block is not used: on a new context the call fails, and
    later it hashes the key that was just freed. *)
Lemma digest_hmac_long_key a B d pad1 pad2 k :
  (B < length k)%nat -> Z.of_nat (length k) < 2 ^ 32 ->
  digest_hmac_set_key a B (digest_hmac_alloc a d pad1 pad2) k = Some (- EINVAL, digest_hmac_alloc a d pad1 pad2).
Proof. intros Hk Hu. unfold digest_hmac_set_key. rewrite u32_small by lia. cbn [key digest_hmac_alloc free]. by replace (_ <? _) with true by lia. Qed.

Lemma digest_hmac_long_key_again a B dh k k0 :
  (B < length k)%nat -> Z.of_nat (length k) < 2 ^ 32 -> key dh = Mem k0 -> keylen dh <> 0 -> digest_hmac_set_key a B dh k = None.
Proof.
  intros Hk Hu E E0. unfold digest_hmac_set_key. rewrite u32_small, E by lia. cbn [free]. replace (_ <? _) with true by lia. unfold digest_generic_digest, deref.
  replace (keylen dh =? 0) with false by lia. by destruct (hash_init a (h_d dh)).
Qed.

(** ** PBKDF2 (RFC 8018) *)

Section Rfc8018.

Context (PRF : list byte -> list byte) (salt : list byte).

(** The values [U_1], [U_2], ... of a block, combined. *)
Fixpoint U (n : nat) (u acc : list byte) : list byte :=
  match n with
  | O => acc
  | S n => U n (PRF u) (xor_bytes acc (PRF u))
  end.

Definition F (c : Z) (i : Z) : list byte :=
  let U1 := PRF (salt ++ be_bytes 4 i) in
  U (Z.to_nat (c - 1)) U1 U1.

(** The first [dkLen] bytes of the blocks. *)
Definition PBKDF2 (c : Z) (hLen : nat) (dkLen : nat) : list byte :=
  take dkLen (flat_map (fun i => F c (Z.of_nat i)) (seq 1 ((dkLen + hLen - 1) / hLen))).

End Rfc8018.

(** ** crypto/pbkdf2.c *)

Section Pbkdf2.

Context (a : hash_algo) (B : nat).

Abbreviation digest := (digest_hmac_ctx a).
Abbreviation alg := (hmac_algo a B).

Definition d_len : nat := hash_length a.

(** The loop over [j]: [key] is the part of the output that this block fills. *)
Fixpoint pbkdf2_iterate (n : nat) (d : digest) (tmpdgt key : list byte) : option (Z * list byte * digest) :=
  match n with
  | O => Some (0, key, d)
  | S n =>
      match digest_generic_digest alg d (Mem tmpdgt) (Z.of_nat d_len) with
      | None => None
      | Some (ret, md, d) =>
          if negb (ret =? 0) then Some (ret, key, d)
          else pbkdf2_iterate n d md (xor_loop (length key) key md)
      end
  end.

Definition cnt (i : Z) : list byte :=
  [byte_of (Z.land (Z.shiftr i 24) 0xff); byte_of (Z.land (Z.shiftr i 16) 0xff); byte_of (Z.land (Z.shiftr i 8) 0xff);
   byte_of (Z.land i 0xff)].

(** The loop over the blocks of the key; the result has the bytes that were written. *)
Fixpoint pbkdf2_blocks (fuel : nat) (d : digest) (salt : list byte) (iteration : Z) (key_len : nat) (i : Z)
  : option (Z * list byte * digest) :=
  match key_len, fuel with
  | O, _ => Some (0, [], d)
  | _, O => None
  | _, S fuel =>
      let pass_len := Nat.min key_len d_len in
      match hash_init alg d with
      | None => None
      | Some d =>
          match hash_update alg d salt with
          | None => None
          | Some d =>
              match hash_update alg d (cnt i) with
              | None => None
              | Some d =>
                  match hash_final alg d with
                  | None => None
                  | Some (tmpdgt, d) =>
                      match pbkdf2_iterate (Z.to_nat (iteration - 1)) d tmpdgt (take pass_len tmpdgt) with
                      | None => None
                      | Some (ret, key, d) =>
                          if negb (ret =? 0) then Some (ret, key, d)
                          else
                            match pbkdf2_blocks fuel d salt iteration (key_len - pass_len) (i + 1) with
                            | None => None
                            | Some (ret, more, d) => Some (ret, key ++ more, d)
                            end
                      end
                  end
              end
          end
      end
  end.

(** [malloc_ok]: memory for a digest is there. *)
Definition pkcs5_pbkdf2_hmac (malloc_ok : bool) (d : option digest) (pwd salt : list byte) (iteration : Z) (key_len : nat)
  : option (Z * list byte * option digest) :=
  match d with
  | None => Some (- EINVAL, [], None)
  | Some d =>
      if negb malloc_ok then Some (- ENOMEM, [], Some d)
      else
        match digest_hmac_set_key a B d pwd with
        | None => None
        | Some (ret, d) =>
            if negb (ret =? 0) then Some (ret, [], Some d)
            else
              match pbkdf2_blocks key_len d salt iteration key_len 1 with
              | None => None
              | Some (ret, key, d) => Some (ret, key, Some d)
              end
        end
  end.

(** *** The loops *)

Section Loops.

Context {PRF : list byte -> list byte} `{HP : !HashOk alg PRF} (HL : (0 < d_len <= 128)%nat).

Lemma length_PRF msg : length (PRF msg) = d_len.
Proof. exact (hash_H_length (HashOk := HP) msg). Qed.

Lemma xor_loop_take p key md :
  (p <= length md)%nat -> length key = length md -> xor_loop (length (take p key)) (take p key) md = take p (xor_bytes key md).
Proof.
  intros Hp Hl. rewrite length_take, Nat.min_l by lia. rewrite xor_loop_app by (rewrite ?length_take; lia).
  rewrite take_take, Nat.min_id, (drop_ge (take _ _)) by (rewrite length_take; lia). rewrite app_nil_r.
  unfold xor_bytes. by rewrite zip_with_take.
Qed.

Lemma iterate_ok (Hmax : 2 ^ 9 <= hash_max alg) n : forall d tmpdgt acc p,
  hash_wf d -> length tmpdgt = d_len -> length acc = d_len -> (p <= d_len)%nat ->
  exists d', pbkdf2_iterate n d tmpdgt (take p acc) = Some (0, take p (U PRF n tmpdgt acc), d') /\ hash_wf d'.
Proof.
  induction n as [|n IH]; intros d tmpdgt acc p Hd Ht Ha Hp; cbn [pbkdf2_iterate U]; [eauto|].
  destruct (digest_generic_digest_ok alg d tmpdgt (Z.of_nat d_len) Hd ltac:(lia) ltac:(lia) ltac:(lia)) as (d1 & -> & Hd1).
  cbn [Z.eqb negb]. rewrite Nat2Z.id, take_ge by lia. pose proof (length_PRF tmpdgt) as Lp. rewrite xor_loop_take by lia.
  apply IH; [done|done| |done]. rewrite length_xor_bytes; lia.
Qed.

Lemma length_U n : forall u acc, length acc = d_len -> length (U PRF n u acc) = d_len.
Proof.
  induction n as [|n IH]; intros u acc Ha; cbn [U]; [done|]. apply IH. pose proof (length_PRF u). rewrite length_xor_bytes; lia.
Qed.

Lemma cnt_be i : 0 <= i -> cnt i = be_bytes 4 i.
Proof.
  intros Hi. unfold cnt, be_bytes. cbn [le_bytes rev app]. change 0xff with (Z.ones 8). rewrite !Z.land_ones, !Z.shiftr_div_pow2 by lia.
  unfold byte_of. change (2 ^ 8) with 256. rewrite !Z.mod_mod by lia. rewrite !Z.div_div by lia. done.
Qed.

Lemma blocks_ok salt iteration (Hsalt : Z.of_nat (length salt) <= 2 ^ 32 - 128) (Hmax : Z.of_nat (length salt) + 2 ^ 9 <= hash_max alg) fuel :
  forall d key_len i n, hash_wf d -> (key_len <= fuel)%nat -> (key_len <= n * d_len)%nat ->
  exists d', pbkdf2_blocks fuel d salt iteration key_len (Z.of_nat i) =
    Some (0, take key_len (flat_map (fun i => F PRF salt iteration (Z.of_nat i)) (seq i n)), d') /\ hash_wf d'.
Proof.
  induction fuel as [|fuel IH]; intros d key_len i n Hd Hf Hn.
  { assert (key_len = 0%nat) by lia. subst key_len. exists d. by rewrite take_0. }
  destruct key_len as [|kl]; [exists d; by rewrite take_0|]. set (key_len := S kl) in *. cbn [pbkdf2_blocks]. fold key_len.
  destruct n as [|n]; [lia|]. cbn [seq flat_map]. set (p := Nat.min key_len d_len).
  destruct (hash_init_ok d Hd) as (d1 & -> & Hd1). destruct (hash_update_ok d1 [] salt Hd1 Hsalt) as (d2 & -> & Hd2).
  rewrite cnt_be by lia. destruct (hash_update_ok d2 _ (be_bytes 4 (Z.of_nat i)) Hd2) as (d3 & -> & Hd3); [rewrite length_be_bytes; lia|].
  destruct (hash_final_ok d3 _ Hd3) as (d4 & -> & Hd4); [rewrite !length_app, length_be_bytes; cbn; lia|]. cbn [app].
  set (U1 := PRF (salt ++ be_bytes 4 (Z.of_nat i))). assert (L1 : length U1 = d_len) by apply length_PRF.
  destruct (iterate_ok ltac:(lia) (Z.to_nat (iteration - 1)) d4 U1 U1 p Hd4 L1 L1 ltac:(lia)) as (d5 & -> & Hd5). cbn [Z.eqb negb].
  replace (Z.of_nat i + 1) with (Z.of_nat (S i)) by lia. destruct (IH d5 (key_len - p)%nat (S i) n Hd5 ltac:(lia) ltac:(lia)) as (d6 & -> & Hd6).
  exists d6. split; [|done]. do 3 f_equal. change (U PRF _ U1 U1) with (F PRF salt iteration (Z.of_nat i)).
  assert (LF : length (F PRF salt iteration (Z.of_nat i)) = d_len) by by apply length_U.
  rewrite take_app, LF. subst p. destruct (decide (key_len <= d_len)%nat).
  - rewrite Nat.min_l, Nat.sub_diag by lia. by replace (key_len - d_len)%nat with 0%nat by lia.
  - rewrite Nat.min_r by lia. by rewrite (take_ge _ d_len), (take_ge _ key_len) by lia.
Qed.

End Loops.

End Pbkdf2.

(** Key derivation with a password that fits into a block. *)
Lemma pkcs5_pbkdf2_hmac_ok (a : hash_algo) {H} `{!HashOk a H} (B : nat) dh pwd salt iteration key_len :
  (length pwd <= B)%nat -> (0 < hash_length a <= B)%nat -> (B <= 128)%nat -> key dh <> Freed -> hash_wf (h_d dh) ->
  Z.of_nat (length salt) <= 2 ^ 32 - 128 -> 2 ^ 40 <= hash_max a ->
  exists d', pkcs5_pbkdf2_hmac a B true (Some dh) pwd salt iteration key_len =
    Some (0, PBKDF2 (HMAC H B pwd) salt iteration (hash_length a) key_len, Some d').
Proof.
  intros Hp HL HB Hf Hw Hs Hmax. unfold pkcs5_pbkdf2_hmac. cbn [negb].
  destruct (digest_hmac_set_key_ok a B pwd Hp dh HB Hf Hw) as (d1 & -> & Hd1). cbn [Z.eqb negb].
  assert (HB2 : (hash_length a <= B <= 128)%nat) by lia. assert (Hm : 2 ^ 10 <= hash_max a) by lia.
  set (n := ((key_len + hash_length a - 1) / hash_length a)%nat).
  assert (Hn : (key_len <= n * d_len a)%nat).
  { unfold n, d_len. pose proof (Nat.div_mod (key_len + hash_length a - 1) (hash_length a) ltac:(lia)).
    pose proof (Nat.mod_upper_bound (key_len + hash_length a - 1) (hash_length a) ltac:(lia)). lia. }
  assert (Hs2 : Z.of_nat (length salt) + 2 ^ 9 <= hash_max (hmac_algo a B) (HashOk := hmac_ok a B pwd Hp HB2 Hm)) by (cbn; lia).
  destruct (blocks_ok a B (HP := hmac_ok a B pwd Hp HB2 Hm) ltac:(unfold d_len; lia) salt iteration Hs Hs2 key_len d1 key_len 1 n Hd1
    ltac:(lia) Hn) as (d2 & E & _).
  change (Z.of_nat 1) with 1 in E. rewrite E. eauto.
Qed.

Lemma length_PBKDF2 (a : hash_algo) {H} `{!HashOk a H} B pwd salt iteration n :
  (0 < hash_length a)%nat -> length (PBKDF2 (HMAC H B pwd) salt iteration (hash_length a) n) = n.
Proof.
  intros HL. unfold PBKDF2. rewrite length_take.
  assert (HF : forall i m, length (flat_map (fun i => F (HMAC H B pwd) salt iteration (Z.of_nat i)) (seq i m)) = (m * hash_length a)%nat).
  { intros i m. revert i. induction m as [|m IH]; intros i; cbn [seq flat_map]; [done|]. rewrite length_app, IH.
    replace (length (F _ _ _ _)) with (hash_length a); [lia|]. unfold F. generalize (Z.to_nat (iteration - 1)) as k.
    assert (HU : forall k u acc, length acc = hash_length a -> length (U (HMAC H B pwd) k u acc) = hash_length a).
    { induction k as [|k IHk]; intros u acc Ha; cbn [U]; [done|]. apply IHk. pose proof (hash_H_length (a := a)) as Lh.
      rewrite length_xor_bytes; [done|]. unfold HMAC. by rewrite Lh. }
    intros k. symmetry. apply HU. unfold HMAC. apply hash_H_length. }
  rewrite HF. pose proof (Nat.div_mod (n + hash_length a - 1) (hash_length a) ltac:(lia)).
  pose proof (Nat.mod_upper_bound (n + hash_length a - 1) (hash_length a) ltac:(lia)). lia.
Qed.

(** *** HMAC with SHA-1 *)

(** [hmac_sha1] is what the allocation of "hmac(sha1)" gives, [temp] the words on the
    stack in which the transformation works. *)
Definition pkcs5_pbkdf2_hmac_sha1 (temp : list Z) (hmac_sha1 : option (digest_hmac_ctx (Sha1.m temp))) (malloc_ok : bool)
    (pwd salt : list byte) (iter : Z) (key_len : nat) : option (Z * list byte) :=
  match pkcs5_pbkdf2_hmac (Sha1.m temp) 64 malloc_ok hmac_sha1 pwd salt iter key_len with
  | None => None
  | Some (ret, key, _) => Some (ret, key)
  end.

Lemma pbkdf2_sha1_eq temp hm pwd salt iter n ret k d' :
  pkcs5_pbkdf2_hmac (Sha1.m temp) 64 true hm pwd salt iter n = Some (ret, k, d') -> pkcs5_pbkdf2_hmac_sha1 temp hm true pwd salt iter n = Some (ret, k).
Proof. intros E. unfold pkcs5_pbkdf2_hmac_sha1. by rewrite E. Qed.

Section Sha1Key.

Context (temp : list Z) (Htemp : length temp = 16%nat).
Context (dh : digest_hmac_ctx (Sha1.m temp)) (Hkey : key dh = Null) (Hbuf : length (HashBlocks.buf (S := Fips.words5) (h_d dh)) = 64%nat).

Lemma pbkdf2_sha1_gen pwd salt iter n :
  (length pwd <= 64)%nat -> Z.of_nat (length salt) <= 2 ^ 32 - 128 ->
  pkcs5_pbkdf2_hmac_sha1 temp (Some dh) true pwd salt iter n = Some (0, PBKDF2 (HMAC Fips.SHA1 64 pwd) salt iter Sha1.SHA1_DIGEST_SIZE n).
Proof.
  intros Hp Hs.
  destruct (pkcs5_pbkdf2_hmac_ok (Sha1.m temp) (HashOk0 := Sha1.sha1_ok temp Htemp) 64 dh pwd salt iter n) as (d' & E);
    [lia|change (0 < 20 <= 64)%nat; lia|lia|by rewrite Hkey|done|lia|change (2 ^ 40 <= 2 ^ 61); lia|].
  exact (pbkdf2_sha1_eq _ _ _ _ _ _ _ _ _ E).
Qed.

Lemma pbkdf2_sha1_long pwd salt iter n : (64 < length pwd)%nat -> Z.of_nat (length pwd) < 2 ^ 32 ->
  pkcs5_pbkdf2_hmac_sha1 temp (Some dh) true pwd salt iter n = Some (- EINVAL, []).
Proof.
  intros Hp Hu. unfold pkcs5_pbkdf2_hmac_sha1, pkcs5_pbkdf2_hmac, digest_hmac_set_key. cbn [negb]. rewrite Hkey, u32_small by lia. cbn [free].
  rewrite (proj2 (Z.ltb_lt _ _)) by lia. done.
Qed.

(** C27: The key derivation is PBKDF2 of RFC 8018 with HMAC-SHA1 for passwords of up to
    64 bytes, for any salt, number of iterations and length of the key.  Longer
    passwords, which the RFC allows, are refused. *)
Theorem pbkdf2_hmac_sha1_rfc pwd salt iter n :
  Z.of_nat (length pwd) < 2 ^ 32 -> Z.of_nat (length salt) <= 2 ^ 32 - 128 ->
  pkcs5_pbkdf2_hmac_sha1 temp (Some dh) true pwd salt iter n =
  if (length pwd <=? 64)%nat then Some (0, PBKDF2 (HMAC Fips.SHA1 64 pwd) salt iter 20 n) else Some (- EINVAL, []).
Proof.
  intros Hu Hs. destruct (length pwd <=? 64)%nat eqn:E; [apply Nat.leb_le in E|apply Nat.leb_gt in E].
  - by apply pbkdf2_sha1_gen.
  - by apply pbkdf2_sha1_long.
Qed.

End Sha1Key.

(** ** The digests of the tree *)

(** C8: The digests compute the functions of FIPS 180-4 and RFC 1321: however a message is
    cut into pieces for the update functions, the result is the SHA-1, SHA-224, SHA-256,
    SHA-384, SHA-512 or, on hosts of both byte orders, MD5 hash of the whole message, for
    whatever is on the stack.  The context can be used again afterwards. *)
Theorem digests_standard (temp : list Z) chunks :
  length temp = 16%nat -> small_chunks chunks -> Z.of_nat (length (concat chunks)) < 2 ^ 61 ->
  (forall c, length (buf c) = 64%nat -> exists c', hash_run (Sha1.m temp) c chunks = Some (Fips.SHA1 (concat chunks), c') /\ length (buf c') = 64%nat) /\
  (forall c, length (buf c) = 64%nat -> exists c', hash_run Sha2.m224 c chunks = Some (Fips.SHA224 (concat chunks), c') /\ length (buf c') = 64%nat) /\
  (forall c, length (buf c) = 64%nat -> exists c', hash_run Sha2.m256 c chunks = Some (Fips.SHA256 (concat chunks), c') /\ length (buf c') = 64%nat) /\
  (forall c, length (Sha4.buf c) = 128%nat ->
     exists c', hash_run (Sha4.m384 temp) c chunks = Some (Fips.SHA384 (concat chunks), c') /\ length (Sha4.buf c') = 128%nat) /\
  (forall c, length (Sha4.buf c) = 128%nat ->
     exists c', hash_run (Sha4.m512 temp) c chunks = Some (Fips.SHA512 (concat chunks), c') /\ length (Sha4.buf c') = 128%nat) /\
  (forall be c, length (Md5.m_in c) = 64%nat ->
     exists c', hash_run (Md5.md5 be) c chunks = Some (Md5.Rfc1321.MD5 (concat chunks), c') /\ length (Md5.m_in c') = 64%nat).
Proof.
  intros Ht Hc Hl. split_and!; [intros c Hb..|intros be c Hb].
  - exact (hash_run_ok (Sha1.m temp) (HashOk0 := Sha1.sha1_ok temp Ht) c chunks Hb Hc Hl).
  - exact (hash_run_ok Sha2.m224 (HashOk0 := Sha2.sha224_ok) c chunks Hb Hc Hl).
  - exact (hash_run_ok Sha2.m256 (HashOk0 := Sha2.sha256_ok) c chunks Hb Hc Hl).
  - exact (hash_run_ok (Sha4.m384 temp) (HashOk0 := Sha4.sha384_ok temp Ht) c chunks Hb Hc Hl).
  - exact (hash_run_ok (Sha4.m512 temp) (HashOk0 := Sha4.sha512_ok temp Ht) c chunks Hb Hc Hl).
  - exact (hash_run_ok (Md5.md5 be) (HashOk0 := Md5.md5_ok be) c chunks Hb Hc Hl).
Qed.

(** C26: HMAC is the one of RFC 2104: after setting a key of up to one block, however the
    text is cut into pieces, the result is the MAC of the text, and the key stays set. *)
Theorem hmac_rfc2104 (a : hash_algo) {H} `{!HashOk a H} (B : nat) dh k chunks :
  (length k <= B)%nat -> (hash_length a <= B <= 128)%nat -> 2 ^ 10 <= hash_max a -> key dh <> Freed -> hash_wf (h_d dh) ->
  small_chunks chunks -> Z.of_nat (length (concat chunks)) < hash_max a - Z.of_nat B ->
  exists dh1 dh2, digest_hmac_set_key a B dh k = Some (0, dh1) /\
    hash_run (hmac_algo a B) dh1 chunks = Some (HMAC H B k (concat chunks), dh2) /\ key dh2 = Mem k.
Proof.
  intros Hk HB Hm Hf Hw Hc Hl. destruct (digest_hmac_set_key_ok a B k Hk dh ltac:(lia) Hf Hw) as (dh1 & E1 & Hd1). exists dh1.
  destruct (hash_run_ok (hmac_algo a B) (HashOk0 := hmac_ok a B k Hk HB Hm) dh1 chunks Hd1 Hc Hl) as (dh2 & E2 & (Ek & _)).
  exists dh2. by split_and!.
Qed.

(** ** Examples *)

Module Demo.

Definition temp : list Z := replicate 16 0.

Definition zero1 : hash_ctx (Sha1.m temp) := Ctx (Fips.W5 0 0 0 0 0) 0 (replicate 64 Init.Byte.x00).
Definition zero2 : hash_ctx Sha2.m256 := Ctx (Fips.W8 0 0 0 0 0 0 0 0) 0 (replicate 64 Init.Byte.x00).

Definition hmac_sha1 : digest_hmac_ctx (Sha1.m temp) := digest_hmac_alloc _ zero1 [] [].
Definition hmac_sha256 : digest_hmac_ctx Sha2.m256 := digest_hmac_alloc _ zero2 [] [].

Definition bytes (l : list Z) : list byte := map byte_of l.

Definition pwd_bytes : list byte := bytes [0x70; 0x61; 0x73; 0x73; 0x77; 0x6f; 0x72; 0x64].
Definition salt_bytes : list byte := bytes [0x73; 0x61; 0x6c; 0x74].

(** The second test vector of RFC 6070, with five bytes of the next block. *)
Example rfc6070 : match pkcs5_pbkdf2_hmac_sha1 temp (Some hmac_sha1) true pwd_bytes salt_bytes 2 25 with
  | Some (0, key) => be_val key = 0xea6c014dc72d6f8ccd1ed92ace1d41f0d8de8957cae9313626
  | _ => False
  end.
Proof. vm_compute. reflexivity. Qed.

Lemma digests_standard_witness : exists c', hash_run Sha2.m256 zero2 [pwd_bytes; []; salt_bytes] = Some (Fips.SHA256 (pwd_bytes ++ salt_bytes), c') /\ length (buf c') = 64%nat.
Proof.
  exact (proj1 (proj2 (proj2 (digests_standard temp [pwd_bytes; []; salt_bytes] eq_refl
    ltac:(repeat constructor; vm_compute; congruence) ltac:(vm_compute; reflexivity)))) zero2 eq_refl).
Defined.

(** The key "Jefe" of RFC 4231. *)
Lemma hmac_rfc2104_witness : exists dh1 dh2,
  digest_hmac_set_key Sha2.m256 64 hmac_sha256 (bytes [0x4a; 0x65; 0x66; 0x65]) = Some (0, dh1) /\
  hash_run (hmac_algo Sha2.m256 64) dh1 [pwd_bytes; salt_bytes] = Some (HMAC Fips.SHA256 64 (bytes [0x4a; 0x65; 0x66; 0x65]) (concat [pwd_bytes; salt_bytes]), dh2) /\
  key dh2 = Mem (bytes [0x4a; 0x65; 0x66; 0x65]).
Proof.
  apply (hmac_rfc2104 Sha2.m256 (HashOk0 := Sha2.sha256_ok) 64 hmac_sha256 (bytes [0x4a; 0x65; 0x66; 0x65]) [pwd_bytes; salt_bytes]).
  - cbn. lia.
  - change (32 <= 64 <= 128)%nat. lia.
  - change (2 ^ 10 <= 2 ^ 61). lia.
  - discriminate.
  - reflexivity.
  - repeat constructor; vm_compute; congruence.
  - vm_compute. reflexivity.
Defined.

Lemma pbkdf2_hmac_sha1_rfc_witness :
  pkcs5_pbkdf2_hmac_sha1 temp (Some hmac_sha1) true pwd_bytes salt_bytes 4096 20 = Some (0, PBKDF2 (HMAC Fips.SHA1 64 pwd_bytes) salt_bytes 4096 20 20) /\
  pkcs5_pbkdf2_hmac_sha1 temp (Some hmac_sha1) true (replicate 65 Init.Byte.x41) salt_bytes 4096 20 = Some (- EINVAL, []).
Proof.
  split.
  - apply (pbkdf2_hmac_sha1_rfc temp eq_refl hmac_sha1 eq_refl eq_refl pwd_bytes salt_bytes 4096 20); [vm_compute; congruence..].
  - apply (pbkdf2_hmac_sha1_rfc temp eq_refl hmac_sha1 eq_refl eq_refl (replicate 65 Init.Byte.x41) salt_bytes 4096 20); [vm_compute; congruence..].
Defined.

End Demo.

End Hmac.
