(* ===== verification/Digest.v ===== *)
(** * The digests of the tree (crypto/digest.c, crypto/memneq.c)

    The list of algorithms and how one is chosen, comparing and verifying digests, and
    the digest of a part of a file. *)

From stdpp Require Import base list strings.
From Stdlib Require Import ZArith Lia.
From S2P Require Import Prelude HashBlocks FormatRaw.

Module Digest.

Import HashBlocks.

(** ** The list of algorithms *)

Record crypto_alg := CryptoAlg {
  name : string;
  driver_name : string;
  priority : Z;
  algo : Z
}.

Section Lookup.

(** [d_by_name], [d_by_driver] and [priority] of the loop. *)
Fixpoint by_name_loop (name0 : string) (digests : list crypto_alg) (d_by_name d_by_driver : option crypto_alg) (prio : Z) : option crypto_alg :=
  match digests with
  | [] => match d_by_name with Some d => Some d | None => d_by_driver end
  | tmp :: digests =>
      let d_by_driver := if bool_decide (driver_name tmp = name0) then Some tmp else d_by_driver in
      if negb (bool_decide (name tmp = name0)) then by_name_loop name0 digests d_by_name d_by_driver prio
      else if priority tmp <=? prio then by_name_loop name0 digests d_by_name d_by_driver prio
      else by_name_loop name0 digests (Some tmp) d_by_driver (priority tmp)
  end.

Definition digest_algo_get_by_name (digests : list crypto_alg) (name0 : option string) : option crypto_alg :=
  match name0 with
  | None => None
  | Some name0 => by_name_loop name0 digests None None (-1)
  end.

Fixpoint by_algo_loop (a : Z) (digests : list crypto_alg) (d : option crypto_alg) (prio : Z) : option crypto_alg :=
  match digests with
  | [] => d
  | tmp :: digests =>
      if negb (algo tmp =? a) then by_algo_loop a digests d prio
      else if priority tmp <=? prio then by_algo_loop a digests d prio
      else by_algo_loop a digests (Some tmp) (priority tmp)
  end.

Definition digest_algo_get_by_algo (digests : list crypto_alg) (a : Z) : option crypto_alg := by_algo_loop a digests None (-1).

(** An algorithm is added at the end of the list; [complete] says that it has the
    functions that every algorithm needs. *)
Definition digest_algo_register (digests : list crypto_alg) (d : crypto_alg) (complete : bool) : Z * list crypto_alg :=
  if negb complete then (- EINVAL, digests) else (0, digests ++ [d]).

End Lookup.

(** ** Comparison in constant time (crypto/memneq.c) *)

Fixpoint crypto_memneq_loop (x y : list byte) (neq : Z) : Z :=
  match x, y with
  | b :: x, c :: y => crypto_memneq_loop x y (Z.lor neq (Z.lxor (byte_val b) (byte_val c)))
  | _, _ => neq
  end.

Definition __crypto_memneq (x y : list byte) (size : nat) : Z := crypto_memneq_loop (take size x) (take size y) 0.

Definition crypto_memneq (x y : list byte) (size : nat) : Z := if negb (__crypto_memneq x y size =? 0) then 1 else 0.

Lemma memneq_loop_0 x : forall y neq, length x = length y -> crypto_memneq_loop x y neq = 0 <-> neq = 0 /\ x = y.
Proof.
  induction x as [|b x IH]; intros [|c y] neq Hl; try done; cbn [crypto_memneq_loop]; [tauto|]. injection Hl as Hl.
  rewrite IH by done. rewrite Z.lor_eq_0_iff, Z.lxor_eq_0_iff. split.
  - intros [[-> E] ->]. apply byte_val_inj in E as ->. done.
  - intros [-> [= -> ->]]. done.
Qed.

Lemma memneq_ok x y n : length x = n -> length y = n -> (crypto_memneq x y n =? 0) = bool_decide (x = y).
Proof.
  intros Hx Hy. assert (E : (crypto_memneq x y n =? 0) = (__crypto_memneq x y n =? 0)) by (unfold crypto_memneq; by destruct (__crypto_memneq x y n =? 0)).
  rewrite E. unfold __crypto_memneq. rewrite !take_ge by lia. apply eq_bool_prop_intro. rewrite !Is_true_true, Z.eqb_eq, bool_decide_eq_true.
  rewrite memneq_loop_0 by lia. tauto.
Qed.

(** ** Digests of files *)

Definition PAGE_SIZE : Z := 4096.

Section File.

(** [rd i] is the error of the read with number [i] or the number of bytes that it gives
    at most, [ctrlc i] says that the user interrupts at that point. *)
Context (a : hash_algo) (fuzz : bool) (rd : nat -> res nat) (ctrlc : nat -> bool).

Definition generic_verify (d : hash_ctx a) (md : list byte) : option (Z * hash_ctx a) :=
  let len := hash_length a in
  match hash_final a d with
  | None => None
  | Some (tmp, d) =>
      if negb (crypto_memneq md tmp len =? 0) && negb (FormatRaw.fuzz_insecure_digest_accepted fuzz md tmp (Z.of_nat len))
      then Some (- EINVAL, d) else Some (0, d)
  end.

Fixpoint update_loop (fuel i : nat) (d : hash_ctx a) (data : list byte) (size : Z) : option (Z * hash_ctx a) :=
  if size =? 0 then Some (0, d)
  else
    match fuel with
    | O => None
    | S fuel =>
        let now := Z.min PAGE_SIZE size in
        match rd i with
        | Err e => Some (e, d)
        | Ok most =>
            let ret := Z.min now (Z.min (Z.of_nat most) (Z.of_nat (length data))) in
            if ret =? 0 then Some (0, d)
            else if ctrlc i then Some (- EINTR, d)
            else
              match hash_update a d (take (Z.to_nat ret) data) with
              | None => None
              | Some d => update_loop fuel (S i) d (drop (Z.to_nat ret) data) (size - now)
              end
        end
    end.

(** [lseek] is the error of the seek, or zero. *)
Definition digest_update_from_fd (d : hash_ctx a) (file : list byte) (lseek : Z) (start size : nat) : option (Z * hash_ctx a) :=
  if negb (lseek =? 0) then Some (lseek, d)
  else update_loop size 0 d (drop start file) (Z.of_nat size).

(** With [sig] the digest is compared, otherwise it is stored. *)
Definition digest_file_window (d : hash_ctx a) (file : res (list byte)) (sig : option (list byte)) (lseek : Z) (start size : nat)
  : option (Z * list byte) :=
  match hash_init a d with
  | None => None
  | Some d =>
      match file with
      | Err e => Some (e, [])
      | Ok file =>
          match digest_update_from_fd d file lseek start size with
          | None => None
          | Some (ret, d) =>
              if negb (ret =? 0) then Some (ret, [])
              else
                match sig with
                | Some sig => match generic_verify d sig with None => None | Some (ret, _) => Some (ret, []) end
                | None => match hash_final a d with None => None | Some (md, _) => Some (0, md) end
                end
          end
      end
  end.

End File.

(** ** Which algorithm is chosen *)

(** The best of the algorithms that satisfy [p], the first one among equals. *)
Definition best (p : crypto_alg -> bool) (digests : list crypto_alg) (d : crypto_alg) : Prop :=
  exists l r, digests = l ++ d :: r /\ p d = true /\
    Forall (fun x => p x = true -> priority x < priority d) l /\ Forall (fun x => p x = true -> priority x <= priority d) r.

(** The loops look for it, from the best one of those already seen. *)
Fixpoint best_loop (p : crypto_alg -> bool) (digests : list crypto_alg) (d : option crypto_alg) (prio : Z) : option crypto_alg :=
  match digests with
  | [] => d
  | t :: digests => if negb (p t) || (priority t <=? prio) then best_loop p digests d prio else best_loop p digests (Some t) (priority t)
  end.

Definition best_of (p : crypto_alg -> bool) (digests : list crypto_alg) (d : option crypto_alg) : Prop :=
  match d with
  | Some x => best p digests x
  | None => Forall (fun x => p x = false) digests
  end.

Definition prio_of (d : option crypto_alg) : Z := match d with Some x => priority x | None => -1 end.

Lemma best_skip p seen d t : 0 <= priority t -> best_of p seen d -> negb (p t) || (priority t <=? prio_of d) = true -> best_of p (seen ++ [t]) d.
Proof.
  intros H0 Hd Ht. destruct d as [x|]; cbn [best_of prio_of] in *.
  - destruct Hd as (l & r & -> & Hx & Hl & Hr). exists l, (r ++ [t]). rewrite <- app_assoc. split_and!; try done.
    apply Forall_app. split; [done|]. constructor; [|done]. intros E. rewrite E in Ht. cbn [negb orb] in Ht. lia.
  - apply Forall_app. split; [done|]. constructor; [|done]. destruct (p t); [|done]. cbn [negb orb] in Ht. lia.
Qed.

Lemma best_take p seen d t : best_of p seen d -> negb (p t) || (priority t <=? prio_of d) = false -> best_of p (seen ++ [t]) (Some t).
Proof.
  intros Hd Ht. apply orb_false_iff in Ht as [Et Hp]. apply negb_false_iff in Et. exists seen, []. split_and!; [done|done| |constructor].
  destruct d as [x|]; cbn [best_of prio_of] in *.
  - destruct Hd as (l & r & -> & Hx & Hl & Hr). apply Forall_app. split; [|constructor; [lia|]].
    + eapply Forall_impl; [exact Hl|]. cbn. intros y Hy E. specialize (Hy E). lia.
    + eapply Forall_impl; [exact Hr|]. cbn. intros y Hy E. specialize (Hy E). lia.
  - eapply Forall_impl; [exact Hd|]. cbn. intros y Hy E. congruence.
Qed.

Lemma best_loop_ok p digests : forall seen d,
  Forall (fun x => 0 <= priority x) digests -> best_of p seen d -> best_of p (seen ++ digests) (best_loop p digests d (prio_of d)).
Proof.
  induction digests as [|t digests IH]; intros seen d Hp Hd; cbn [best_loop]; [by rewrite app_nil_r|]. apply Forall_cons in Hp as [Ht Hp].
  replace (seen ++ t :: digests) with ((seen ++ [t]) ++ digests) by (by rewrite <- app_assoc).
  destruct (negb (p t) || _) eqn:E; [apply IH; [done|by apply best_skip]|]. apply (IH _ (Some t)); [done|by eapply best_take].
Qed.

Lemma by_algo_loop_eq a digests : forall d prio, by_algo_loop a digests d prio = best_loop (fun x => algo x =? a) digests d prio.
Proof.
  induction digests as [|t digests IH]; intros d prio; cbn [by_algo_loop best_loop]; [done|].
  destruct (algo t =? a); cbn [negb orb]; [|apply IH]. destruct (_ <=? _); apply IH.
Qed.

(** The last one with this driver name. *)
Definition last_driver (n : string) (digests : list crypto_alg) (d : option crypto_alg) : option crypto_alg :=
  fold_left (fun d t => if bool_decide (driver_name t = n) then Some t else d) digests d.

Lemma by_name_loop_eq n digests : forall d1 d2 prio, by_name_loop n digests d1 d2 prio =
  match best_loop (fun x => bool_decide (name x = n)) digests d1 prio with Some d => Some d | None => last_driver n digests d2 end.
Proof.
  induction digests as [|t digests IH]; intros d1 d2 prio; cbn [by_name_loop best_loop last_driver fold_left]; [done|].
  destruct (bool_decide (name t = n)); cbn [negb orb]; [|apply IH]. destruct (_ <=? _); apply IH.
Qed.

(** A name gives the best algorithm of that name, or, when there is none, the last one
    with that driver name. *)
Theorem get_by_name_best digests n :
  Forall (fun x => 0 <= priority x) digests ->
  match digest_algo_get_by_name digests (Some n) with
  | Some x => best (fun y => bool_decide (name y = n)) digests x \/
      Forall (fun y => name y <> n) digests /\ last_driver n digests None = Some x
  | None => Forall (fun y => name y <> n) digests /\ last_driver n digests None = None
  end.
Proof.
  intros Hp. cbn [digest_algo_get_by_name]. rewrite by_name_loop_eq.
  pose proof (best_loop_ok (fun y => bool_decide (name y = n)) digests [] None Hp (Forall_nil_2 _)) as H. cbn [prio_of app] in H.
  destruct (best_loop _ _ _ _) as [x|]; [by left|]. cbn [best_of] in H.
  assert (H' : Forall (fun y => name y <> n) digests) by (eapply Forall_impl; [exact H|]; cbn; intros y Hy; by apply bool_decide_eq_false in Hy).
  destruct (last_driver n digests None) eqn:E; [by right|done].
Qed.

Theorem get_by_algo_best digests a : Forall (fun x => 0 <= priority x) digests -> best_of (fun y => algo y =? a) digests (digest_algo_get_by_algo digests a).
Proof.
  intros Hp. unfold digest_algo_get_by_algo. rewrite by_algo_loop_eq.
  apply (best_loop_ok (fun y => algo y =? a) digests [] None Hp (Forall_nil_2 _)).
Qed.

(** ** The digest of a window *)

Section Window.

Context (a : hash_algo) {H : list byte -> list byte} `{Hok : !HashOk a H} (rd : nat -> res nat) (ctrlc : nat -> bool).

(** Reads that give all they are asked for, as far as the file goes. *)
Context (Hrd : forall i, exists m, rd i = Ok m /\ PAGE_SIZE <= Z.of_nat m) (Hctrl : forall i, ctrlc i = false).

Lemma update_loop_full size : forall fuel i d msg data, (Z.to_nat size <= fuel)%nat -> 0 <= size -> hash_rep d msg ->
  exists d', update_loop a rd ctrlc fuel i d data size = Some (0, d') /\ hash_rep d' (msg ++ take (Z.to_nat size) data).
Proof.
  assert (HP : PAGE_SIZE = 4096) by done. intros fuel. revert size. induction fuel as [|fuel IH]; intros size i d msg data Hf H0 Hd.
  { assert (size = 0) by lia. subst size. exists d. cbn. by rewrite app_nil_r. }
  cbn [update_loop]. destruct (size =? 0) eqn:E0; bool_prop; [subst size; exists d; cbn; by rewrite app_nil_r|].
  destruct (Hrd i) as (m & -> & Hm). set (now := Z.min PAGE_SIZE size).
  replace (Z.min now (Z.min (Z.of_nat m) (Z.of_nat (length data)))) with (Z.min now (Z.of_nat (length data))) by lia.
  destruct (_ =? 0) eqn:E1; bool_prop.
  { exists d. split; [done|]. destruct data; [|cbn [length] in E1; lia]. by rewrite take_nil, app_nil_r. }
  rewrite Hctrl. set (ret := Z.min now (Z.of_nat (length data))) in *.
  destruct (hash_update_ok d msg (take (Z.to_nat ret) data) Hd) as (d1 & -> & Hd1); [rewrite length_take; lia|].
  destruct (IH (size - now) (S i) d1 _ (drop (Z.to_nat ret) data) ltac:(lia) ltac:(lia) Hd1) as (d2 & -> & Hd2). exists d2. split; [done|].
  rewrite <- app_assoc in Hd2. replace (take (Z.to_nat size) data) with (take (Z.to_nat ret) data ++ take (Z.to_nat (size - now)) (drop (Z.to_nat ret) data)); [done|].
  destruct (decide (now <= Z.of_nat (length data))).
  - replace ret with now by lia. rewrite take_take_drop. f_equal. lia.
  - replace (Z.to_nat ret) with (length data) by lia. rewrite drop_all, take_nil, app_nil_r. by rewrite !take_ge by lia.
Qed.

(** The digest of a window of a file is the hash of the bytes of the file in it. *)
Theorem digest_file_window_ok fuzz d file start size :
  hash_wf d -> Z.of_nat (length file) < hash_max a ->
  digest_file_window a fuzz rd ctrlc d (Ok file) None 0 start size = Some (0, H (read_at file start size)) /\
  forall sig, length sig = hash_length a -> fuzz = false ->
    digest_file_window a fuzz rd ctrlc d (Ok file) (Some sig) 0 start size =
    Some (if decide (sig = H (read_at file start size)) then 0 else - EINVAL, []).
Proof.
  intros Hd Hm. unfold digest_file_window. destruct (hash_init_ok d Hd) as (d1 & -> & Hd1). unfold digest_update_from_fd. cbn [Z.eqb negb].
  destruct (update_loop_full (Z.of_nat size) size 0 d1 [] (drop start file) ltac:(lia) ltac:(lia) Hd1) as (d2 & -> & Hd2). cbn [Z.eqb negb app] in *.
  rewrite Nat2Z.id in Hd2. fold (read_at file start size) in Hd2.
  destruct (hash_final_ok d2 _ Hd2) as (d3 & E & _); [unfold read_at; rewrite length_take, length_drop; lia|].
  split; [by rewrite E|]. intros sig Hs ->. unfold generic_verify. rewrite E.
  rewrite memneq_ok by (done || apply hash_H_length). cbn [FormatRaw.fuzz_insecure_digest_accepted negb orb]. rewrite andb_true_r.
  destruct (decide _); [by rewrite bool_decide_eq_true_2|by rewrite bool_decide_eq_false_2].
Qed.

End Window.

(** ** Examples *)

Module Demo.

(** A digest that keeps the message. *)
Definition keep : hash_algo := HashAlgo (list byte) 0 (fun _ => Some []) (fun c d => Some (c ++ d)) (fun c => Some (c, c)).

(** Reads that give fewer bytes than they are asked for: the loop counts what it asked
    for, so the rest of the window is not part of the digest, and there is no error. *)
Example short_reads : digest_file_window keep false (fun _ => Ok 4%nat) (fun _ => false) [] (Ok (replicate 10 Init.Byte.x41)) None 0 0 10
  = Some (0, replicate 4 Init.Byte.x41).
Proof. vm_compute. reflexivity. Qed.

Example priorities :
  let sha (d : string) p := CryptoAlg "sha256" d p 4 in
  digest_algo_get_by_name [sha "generic" 0; sha "neon" 150; sha "ce" 150] (Some "sha256"%string) = Some (sha "neon"%string 150).
Proof. vm_compute. reflexivity. Qed.

End Demo.

End Digest.
