(* ===== verification/Password.v ===== *)
(** * Passwords (security/password.c, commands/passwd.c)

    Entering a password at the console, the password file with its hash, setting and
    checking a password, the passwd command and the login loop. *)

From stdpp Require Import base list.
From Stdlib Require Import ZArith Lia.
From S2P Require Import Prelude HashBlocks Fips180 Sha2 Sha1 Hmac Digest.

Module Password.

Import HashBlocks Hmac Digest.

(** ** Entering a password *)

Definition STAR : Z := 2.
Definition CLEAR : Z := 4.

Definition CTL_CH (c : Z) : Z := c - 97 + 1.
Definition BB_KEY_DEL7 : Z := 127.
Definition BB_KEY_DEL : Z := 137.

(** One round of the loop: the key that is waiting, if any, and whether the time is
    over afterwards. *)
Definition event : Type := option byte * bool.

Definition crlf : list byte := [Init.Byte.x0d; Init.Byte.x0a].

(** The result has the buffer, what was printed and the events that are left; [None]
    means that there are no more events and the loop still waits. *)
Fixpoint password_loop (size : Z) (flags timeout : Z) (events : list event) (passwd : list byte) (pos : nat) (out : list byte)
  : option (Z * list byte * list byte * list event) :=
  match events with
  | [] => None
  | (key, late) :: events =>
      let next passwd pos out :=
        if negb late || (timeout =? 0) then password_loop size flags timeout events passwd pos out
        else Some (- ETIMEDOUT, passwd, out, events) in
      match key with
      | None => next passwd pos out
      | Some b =>
          let ch := byte_val b in
          if (ch =? 13) || (ch =? 10) then Some (Z.of_nat pos, <[pos := Init.Byte.x00]> passwd, out ++ crlf, events)
          else if (ch =? 0) || (ch =? 9) then next passwd pos out
          else if ch =? CTL_CH 99 then Some (- EINTR, <[0%nat := Init.Byte.x00]> passwd, out ++ crlf, events)
          else if (ch =? CTL_CH 104) || (ch =? BB_KEY_DEL7) || (ch =? BB_KEY_DEL) then
            if (0 <? pos)%nat then
              let out := if negb (Z.land flags STAR =? 0) then out ++ [Init.Byte.x08; Init.Byte.x20; Init.Byte.x08] else out in
              next (<[pos := Init.Byte.x00]> passwd) (pos - 1)%nat out
            else next passwd pos out
          else if Z.of_nat pos <? u64 (size - 1) then
            let out :=
              if negb (Z.land flags STAR =? 0) then out ++ [Init.Byte.x2a]
              else if negb (Z.land flags CLEAR =? 0) then out ++ [b] else out in
            next (<[pos := b]> passwd) (pos + 1)%nat out
          else
            let out := if negb (Z.land flags STAR =? 0) then out ++ [Init.Byte.x07] else out in
            next passwd pos out
      end
  end.

Definition password (passwd : list byte) (flags timeout : Z) (events : list event) : option (Z * list byte * list byte * list event) :=
  password_loop (Z.of_nat (length passwd)) flags timeout events passwd 0 [].

(** ** The password file *)

Definition to_digit (c : Z) : Z := if (48 <=? c) && (c <=? 57) then c - 48 else u8 (c - (97 - 10)).

Definition to_hexa (c : Z) : Z := if c <? 10 then u8 (c + 48) else u8 (c + (97 - 10)).

(** Read and write return an error, or work on one byte of the file. *)
Section Files.

Context (rd wr : nat -> Z).

(** At the end of the file nothing is read, and [c] keeps its value. *)
Definition read1 (file : list byte) (n : nat) (c : Z) : Z := match file !! n with Some b => byte_val b | None => c end.

(** From the read with number [n] on. *)
Fixpoint read_passwd_loop (file : list byte) (n : nat) (c : Z) (sum : list byte) : list byte :=
  match sum with
  | [] => []
  | s :: sum =>
      if rd n <? 0 then s :: sum
      else
        let c := read1 file n c in
        let s := u8 (Z.shiftl (to_digit c) 4) in
        if rd (S n) <? 0 then byte_of s :: sum
        else
          let c := read1 file (S n) c in
          byte_of (Z.lor s (to_digit c)) :: read_passwd_loop file (S (S n)) c sum
  end.

(** [c] is the variable on the stack, with the value that happens to be there. *)
Definition read_env_passwd (c : Z) (file : option (list byte)) (sum : list byte) : Z * list byte :=
  match file with
  | None => (- ENOENT, sum)
  | Some file => (0, read_passwd_loop file 0 c sum)
  end.

Definition write1 (file : list byte) (pos : nat) (c : Z) : list byte := take pos file ++ [byte_of c] ++ drop (S pos) file.

Fixpoint write_passwd_loop (sum : list byte) (pos : nat) (file : list byte) : Z * list byte :=
  match sum with
  | [] => (0, file)
  | s :: sum =>
      let ret := wr pos in
      if ret <? 0 then (ret, file)
      else
        let file := write1 file pos (to_hexa (Z.land (Z.shiftr (byte_val s) 4) 0xf)) in
        let ret := wr (S pos) in
        if ret <? 0 then (ret, file)
        else
          let file := write1 file (S pos) (to_hexa (Z.land (byte_val s) 0xf)) in
          write_passwd_loop sum (S (S pos)) file
  end.

(** The file is created when it is not there, and not truncated. *)
Definition write_env_passwd (open_ret : Z) (sum : list byte) (file : option (list byte)) : Z * option (list byte) :=
  if open_ret <? 0 then (open_ret, file)
  else let '(ret, file) := write_passwd_loop sum 0 (default [] file) in (ret, Some file).

End Files.

(** The hash in the image: text with two digits for each byte. *)
Fixpoint default_loop (text sum : list byte) : list byte :=
  match text, sum with
  | c1 :: c2 :: text, _ :: sum =>
      byte_of (Z.lor (u8 (Z.shiftl (to_digit (byte_val c1)) 4)) (to_digit (byte_val c2))) :: default_loop text sum
  | [c1], _ :: sum => byte_of (Z.lor (u8 (Z.shiftl (to_digit (byte_val c1)) 4)) (to_digit 0)) :: sum
  | _, _ => sum
  end.

Definition read_default_passwd (default_passwd sum : list byte) : Z * list byte :=
  if (length default_passwd =? 0)%nat then (- ENOSYS, sum) else (0, default_loop default_passwd sum).

(** ** Setting and checking *)

Definition PBKDF2_SALT_LEN : nat := 32.
Definition PBKDF2_LENGTH : nat := 64.
Definition PBKDF2_COUNT : Z := 10000.
Definition PASSWD_MAX_LENGTH : nat := 129.

Section Hashes.

(** The configuration, the digest named by [PASSWD_SUM], the digest "hmac(sha1)" with
    the words on the stack that its transformation works in, the hash in the image. *)
Context (CONFIG_PASSWD_CRYPTO_PBKDF2 : bool) (a : hash_algo) (d : option (hash_ctx a)).
Context (temp : list Z) (hmac_sha1 : option (digest_hmac_ctx (Sha1.m temp))).
Context (default_passwd : list byte).

(** Memory, the results of read, write and open, and the variable of the read. *)
Context (calloc_ok malloc_ok : bool) (rd wr : nat -> Z) (open_ret c : Z).

Definition is_passwd_default_enable : bool := (0 <? length default_passwd)%nat.
Definition is_passwd_env_enable (file : option (list byte)) : bool := match file with Some _ => true | None => false end.
Definition passwd_env_disable (file : option (list byte)) : option (list byte) := None.

(** 1 when the password is right. *)
Definition check_passwd (file : option (list byte)) (passwd : list byte) : option Z :=
  match (if CONFIG_PASSWD_CRYPTO_PBKDF2 then Some PBKDF2_LENGTH else match d with None => None | Some _ => Some (hash_length a) end) with
  | None => Some (- ENOENT)
  | Some hash_len =>
      if negb calloc_ok then Some (- ENOMEM)
      else
        let sum := replicate hash_len Init.Byte.x00 in
        let '(ret, passwd2_sum) :=
          if is_passwd_env_enable file then read_env_passwd rd c file sum
          else if is_passwd_default_enable then read_default_passwd default_passwd sum
          else (- EINVAL, sum) in
        if ret <? 0 then Some ret
        else if CONFIG_PASSWD_CRYPTO_PBKDF2 then
          let key := drop PBKDF2_SALT_LEN passwd2_sum in
          let salt := take PBKDF2_SALT_LEN passwd2_sum in
          let keylen := (PBKDF2_LENGTH - PBKDF2_SALT_LEN)%nat in
          match pkcs5_pbkdf2_hmac_sha1 temp hmac_sha1 malloc_ok passwd salt PBKDF2_COUNT keylen with
          | None => None
          | Some (ret, passwd1_sum) =>
              if negb (ret =? 0) then Some ret
              else if crypto_memneq passwd1_sum key keylen =? 0 then Some 1 else Some 0
          end
        else
          match d with
          | None => None
          | Some d =>
              match digest_generic_digest a d (Mem passwd) (Z.of_nat (length passwd)) with
              | None => None
              | Some (ret, passwd1_sum, _) =>
                  if negb (ret =? 0) then Some ret
                  else if crypto_memneq passwd1_sum passwd2_sum hash_len =? 0 then Some 1 else Some 0
              end
          end
  end.

(** [get_crypto_bytes] gives its return value and the bytes. *)
Definition set_env_passwd (get_crypto_bytes : Z * list byte) (file : option (list byte)) (passwd : list byte) : option (Z * option (list byte)) :=
  match (if CONFIG_PASSWD_CRYPTO_PBKDF2 then Some tt else match d with None => None | Some _ => Some tt end) with
  | None => Some (- EINVAL, file)
  | Some _ =>
      if negb calloc_ok then Some (- ENOMEM, file)
      else
        let sum :=
          if CONFIG_PASSWD_CRYPTO_PBKDF2 then
            let '(ret, salt) := get_crypto_bytes in
            if negb (ret =? 0) then Some (ret, [])
            else
              match pkcs5_pbkdf2_hmac_sha1 temp hmac_sha1 malloc_ok passwd salt PBKDF2_COUNT (PBKDF2_LENGTH - PBKDF2_SALT_LEN) with
              | None => None
              | Some (ret, key) => Some (ret, salt ++ key)
              end
          else
            match d with
            | None => None
            | Some d =>
                match digest_generic_digest a d (Mem passwd) (Z.of_nat (length passwd)) with
                | None => None
                | Some (ret, md, _) => Some (ret, md)
                end
            end in
        match sum with
        | None => None
        | Some (ret, passwd_sum) =>
            if negb (ret =? 0) then Some (ret, file)
            else Some (write_env_passwd wr open_ret passwd_sum file)
        end
  end.

(** ** The passwd command *)

(** [strncmp(x, y, n)], zero when the strings are equal up to [n] bytes or a NUL. *)
Fixpoint strncmp_eq (x y : list byte) (n : nat) {struct n} : bool :=
  match n, x, y with
  | O, _, _ => true
  | S n, b :: x, c :: y => if negb (byte_val b =? byte_val c) then false else if byte_val b =? 0 then true else strncmp_eq x y n
  | _, _, _ => true
  end.

(** The buffers are on the stack.  The result has the return value, the file and the
    events that are left. *)
Definition do_passwd (mode : Z) (buf1 buf2 : list byte) (get_crypto_bytes : Z * list byte) (file : option (list byte)) (events : list event)
  : option (Z * option (list byte) * list event) :=
  match password buf1 mode 0 events with
  | None => None
  | Some (passwd1_len, passwd1, _, events) =>
      if passwd1_len <? 0 then Some (1, file, events)
      else
        match password buf2 mode 0 events with
        | None => None
        | Some (passwd2_len, passwd2, _, events) =>
            if passwd2_len <? 0 then Some (1, file, events)
            else if negb (passwd2_len =? passwd1_len) then Some (1, file, events)
            else if passwd1_len =? 0 then Some (0, passwd_env_disable file, events)
            else if negb (strncmp_eq passwd1 passwd2 (Z.to_nat passwd1_len)) then Some (1, file, events)
            else
              match set_env_passwd get_crypto_bytes file (take (Z.to_nat passwd1_len) passwd1) with
              | None => None
              | Some (ret, file) => if ret <? 0 then Some (1, passwd_env_disable file, events) else Some (0, file, events)
              end
        end
  end.

(** ** The login loop

    The result counts how often the command for failures was run. *)

Fixpoint login_loop (fuel : nat) (mode login_timeout : Z) (buf : list byte) (file : option (list byte)) (events : list event) (failed : nat)
  : option (nat * list event) :=
  match fuel with
  | O => None
  | S fuel =>
      match password buf mode login_timeout events with
      | None => None
      | Some (ret, passwd, _, events) =>
          if ret <? 0 then login_loop fuel mode login_timeout passwd file events (S failed)
          else
            match check_passwd file (take (Z.to_nat ret) passwd) with
            | None => None
            | Some r =>
                if negb (r =? 1) then login_loop fuel mode login_timeout passwd file events failed
                else Some (failed, events)
            end
      end
  end.

(** A password call takes at least one event. *)
Definition login (mode login_timeout : Z) (logged_in : bool) (buf : list byte) (file : option (list byte)) (events : list event)
  : option (bool * nat * list event) :=
  if negb is_passwd_default_enable && negb (is_passwd_env_enable file) then Some (logged_in, 0%nat, events)
  else if logged_in then Some (true, 0%nat, events)
  else
    match login_loop (S (length events)) mode login_timeout buf file events 0 with
    | None => None
    | Some (failed, events) => Some (true, failed, events)
    end.

End Hashes.

(** ** Entering a line

    The reference: a text that grows at its end and shrinks there.  [None] waits for
    more keys. *)

Section Edit.

Context (max : nat) (timeout : Z).

Fixpoint edit_line (events : list event) (text : list byte) : option (res (list byte) * list event) :=
  match events with
  | [] => None
  | (key, late) :: events =>
      let next text := if late && negb (timeout =? 0) then Some (Err (- ETIMEDOUT), events) else edit_line events text in
      match key with
      | None => next text
      | Some b =>
          let ch := byte_val b in
          if (ch =? 13) || (ch =? 10) then Some (Ok text, events)
          else if (ch =? 0) || (ch =? 9) then next text
          else if ch =? 3 then Some (Err (- EINTR), events)
          else if (ch =? 8) || (ch =? 127) || (ch =? 137) then next (take (length text - 1) text)
          else next (if (length text <? max)%nat then text ++ [b] else text)
      end
  end.

End Edit.

(** The buffer holds the text with a NUL behind it. *)
Definition entered (size : nat) (r : option (Z * list byte * list byte * list event)) (e : option (res (list byte) * list event)) : Prop :=
  match e with
  | None => r = None
  | Some (Err ret, rest) => exists buf out, r = Some (ret, buf, out, rest) /\ length buf = size
  | Some (Ok t, rest) => exists buf out, r = Some (Z.of_nat (length t), buf, out, rest) /\ length buf = size /\
      take (length t) buf = t /\ buf !! length t = Some Init.Byte.x00
  end.

Lemma password_loop_edit size flags timeout events : (0 < size)%nat -> Z.of_nat size < 2 ^ 31 -> forall passwd text out,
  length passwd = size -> (length text < size)%nat -> take (length text) passwd = text ->
  entered size (password_loop (Z.of_nat size) flags timeout events passwd (length text) out) (edit_line (size - 1) timeout events text).
Proof.
  intros H1 H2. induction events as [|[key late] events IH]; intros passwd text out Hl Ht E; cbn [password_loop edit_line]; [done|].
  assert (Hnext : forall passwd text out, length passwd = size -> (length text < size)%nat -> take (length text) passwd = text ->
    entered size (if negb late || (timeout =? 0) then password_loop (Z.of_nat size) flags timeout events passwd (length text) out
                  else Some (- ETIMEDOUT, passwd, out, events))
      (if late && negb (timeout =? 0) then Some (Err (- ETIMEDOUT), events) else edit_line (size - 1) timeout events text)).
  { clear passwd text out Hl Ht E. intros passwd text out Hl Ht E. specialize (IH passwd text out Hl Ht E).
    destruct late, (timeout =? 0); cbn [negb orb andb]; try exact IH. by eexists _, _. }
  destruct key as [b|]; [|by apply Hnext].
  change (CTL_CH 99) with 3. change (CTL_CH 104) with 8. unfold BB_KEY_DEL7, BB_KEY_DEL. rewrite u64_small by lia.
  destruct ((_ =? 13) || _); [|destruct ((_ =? 0) || _); [by apply Hnext|]; destruct (_ =? 3); [|destruct ((_ =? 8) || _ || _)]].
  - eexists _, _. split; [done|]. split_and!; [by rewrite length_insert|by rewrite take_insert_ge by lia|apply list_lookup_insert_eq; lia].
  - eexists _, _. split; [done|]. by rewrite length_insert.
  - destruct text as [|x text0] eqn:Et; [by apply Hnext|]. rewrite <- Et in *. replace (0 <? length text)%nat with true by (subst; done).
    assert (L : length (take (length text - 1) text) = (length text - 1)%nat) by (rewrite length_take; lia).
    pose proof (fun passwd out => Hnext passwd (take (length text - 1) text) out) as G. rewrite L in G. apply G; [by rewrite length_insert|lia|].
    rewrite take_insert_ge by lia. apply (f_equal (take (length text - 1))) in E. rewrite take_take, Nat.min_l in E by lia. done.
  - destruct (length text <? size - 1)%nat eqn:E0; [apply Nat.ltb_lt in E0|apply Nat.ltb_ge in E0].
    + replace (_ <? _) with true by lia. assert (L : length (text ++ [b]) = (length text + 1)%nat) by (rewrite length_app; done).
      pose proof (fun passwd out => Hnext passwd (text ++ [b]) out) as G. rewrite L in G. apply G; [by rewrite length_insert|lia|].
      rewrite Nat.add_1_r, (take_S_r _ _ b) by (apply list_lookup_insert_eq; lia). by rewrite take_insert_ge, E by lia.
    + replace (_ <? _) with false by lia. by apply Hnext.
Qed.

Lemma password_edit buf flags timeout events :
  (0 < length buf)%nat -> Z.of_nat (length buf) < 2 ^ 31 ->
  entered (length buf) (password buf flags timeout events) (edit_line (length buf - 1) timeout events []).
Proof. intros H1 H2. by apply (password_loop_edit (length buf) flags timeout events H1 H2 buf [] []). Qed.

(** Keys that are part of a password, and a line of them. *)
Definition plain_key (b : byte) : bool :=
  let ch := byte_val b in
  negb ((ch =? 13) || (ch =? 10) || (ch =? 0) || (ch =? 9) || (ch =? 3) || (ch =? 8) || (ch =? 127) || (ch =? 137)).

Definition typed_line (p : list byte) : list event := map (fun b => (Some b, false)) p ++ [(Some Init.Byte.x0d, false)].

(** A password that can be typed into a buffer of that size. *)
Definition typable (size : nat) (p : list byte) : Prop := Forall (fun b => plain_key b = true) p /\ (length p < size)%nat.

Lemma edit_typed max timeout p rest : forall text, Forall (fun b => plain_key b = true) p -> (length text + length p <= max)%nat ->
  edit_line max timeout (typed_line p ++ rest) text = Some (Ok (text ++ p), rest).
Proof.
  unfold typed_line. induction p as [|b p IH]; intros text Hp Hl; [by rewrite app_nil_r|]. apply Forall_cons in Hp as [Hb Hp].
  cbn [map app edit_line andb]. unfold plain_key in Hb. destruct (byte_val b =? 13); [done|]. destruct (byte_val b =? 10); [done|].
  destruct (byte_val b =? 0); [done|]. destruct (byte_val b =? 9); [done|]. destruct (byte_val b =? 3); [done|].
  destruct (byte_val b =? 8); [done|]. destruct (byte_val b =? 127); [done|]. destruct (byte_val b =? 137); [done|]. cbn [orb].
  cbn [length] in Hl. rewrite (proj2 (Nat.ltb_lt _ _)) by lia. rewrite IH; [by rewrite <- app_assoc|done|]. rewrite length_app. cbn. lia.
Qed.

Lemma password_typed buf flags timeout p rest :
  length buf = PASSWD_MAX_LENGTH -> typable PASSWD_MAX_LENGTH p ->
  exists buf' out, password buf flags timeout (typed_line p ++ rest) = Some (Z.of_nat (length p), buf', out, rest) /\
    length buf' = PASSWD_MAX_LENGTH /\ take (length p) buf' = p.
Proof.
  unfold PASSWD_MAX_LENGTH. intros Hb [Hp Hl]. pose proof (password_edit buf flags timeout (typed_line p ++ rest) ltac:(lia) ltac:(lia)) as H.
  rewrite edit_typed in H by (done || cbn; lia). destruct H as (buf' & out & E & L & Ht & _). exists buf', out. by rewrite L.
Qed.

(** ** The file *)

(** A hash as text. *)
Definition hex (sum : list byte) : list byte :=
  flat_map (fun s => [byte_of (to_hexa (Z.land (Z.shiftr (byte_val s) 4) 0xf)); byte_of (to_hexa (Z.land (byte_val s) 0xf))]) sum.

Lemma hex_digits s :
  byte_of (Z.lor (u8 (Z.shiftl (to_digit (byte_val (byte_of (to_hexa (Z.land (Z.shiftr (byte_val s) 4) 0xf))))) 4))
    (to_digit (byte_val (byte_of (to_hexa (Z.land (byte_val s) 0xf)))))) = s.
Proof. destruct s; vm_compute; reflexivity. Qed.

Section NoErrors.

Context (rd wr : nat -> Z) (Hrd : forall n, 0 <= rd n) (Hwr : forall n, 0 <= wr n).

Lemma write1_app pre b post c : write1 (pre ++ b :: post) (length pre) c = (pre ++ [byte_of c]) ++ post.
Proof.
  unfold write1. rewrite take_app_length, drop_app_ge by lia. replace (S (length pre) - length pre)%nat with 1%nat by lia. by rewrite <- app_assoc.
Qed.

Lemma write1_end pre c : write1 pre (length pre) c = (pre ++ [byte_of c]) ++ [].
Proof. unfold write1. rewrite take_ge, drop_ge by lia. by rewrite !app_nil_r. Qed.

Lemma write1_at pre post c : write1 (pre ++ post) (length pre) c = (pre ++ [byte_of c]) ++ drop 1 post.
Proof. destruct post as [|b post]; [rewrite app_nil_r; apply write1_end|apply write1_app]. Qed.

Lemma write_loop_ok sum : forall pre post, write_passwd_loop wr sum (length pre) (pre ++ post) = (0, pre ++ hex sum ++ drop (2 * length sum) post).
Proof.
  induction sum as [|s sum IH]; intros pre post; [by rewrite drop_0|]. cbn [write_passwd_loop hex flat_map length].
  pose proof (Hwr (length pre)). pose proof (Hwr (S (length pre))). replace (_ <? 0) with false by lia. replace (_ <? 0) with false by lia.
  rewrite write1_at. set (c1 := byte_of _). replace (S (length pre)) with (length (pre ++ [c1])) by (rewrite length_app; cbn; lia).
  rewrite write1_at. set (c2 := byte_of _). replace (S (length (pre ++ [c1]))) with (length ((pre ++ [c1]) ++ [c2])) by (rewrite !length_app; cbn; lia).
  rewrite IH, !drop_drop. fold (hex sum). rewrite <- !app_assoc. cbn [app]. replace (1 + (1 + 2 * length sum))%nat with (2 * S (length sum))%nat by lia. done.
Qed.

Lemma read_loop_ok sum : forall pre post c old, length old = length sum ->
  read_passwd_loop rd (pre ++ hex sum ++ post) (length pre) c old = sum.
Proof.
  induction sum as [|s sum IH]; intros pre post c old Hl; destruct old as [|o old]; try done. injection Hl as Hl.
  cbn [read_passwd_loop hex flat_map]. fold (hex sum). pose proof (Hrd (length pre)). pose proof (Hrd (S (length pre))).
  replace (_ <? 0) with false by lia. replace (_ <? 0) with false by lia. set (c1 := byte_of (to_hexa _)). set (c2 := byte_of (to_hexa _)).
  set (file := pre ++ _).
  assert (E1 : file !! length pre = Some c1) by (unfold file; rewrite lookup_app_r, Nat.sub_diag by lia; done).
  assert (E2 : file !! S (length pre) = Some c2).
  { unfold file. rewrite lookup_app_r by lia. by replace (S (length pre) - length pre)%nat with 1%nat by lia. }
  unfold read1. rewrite E1, E2. f_equal; [apply hex_digits|].
  specialize (IH (pre ++ [c1; c2]) post (byte_val c2) old Hl). rewrite length_app in IH. cbn [length] in IH.
  replace (length pre + 2)%nat with (S (S (length pre))) in IH by lia. rewrite <- app_assoc in IH. exact IH.
Qed.

(** What was written is read, whatever was in the file before. *)
Lemma write_read_passwd open_ret c sum file old :
  0 <= open_ret -> length old = length sum ->
  exists file', write_env_passwd wr open_ret sum file = (0, Some file') /\ read_env_passwd rd c (Some file') old = (0, sum).
Proof.
  intros Ho Hl. unfold write_env_passwd. replace (_ <? 0) with false by lia. pose proof (write_loop_ok sum [] (default [] file)) as E. cbn [length app] in E.
  rewrite E. eexists. split; [done|]. unfold read_env_passwd. f_equal. by apply (read_loop_ok sum []).
Qed.

End NoErrors.

(** ** Setting, then checking *)

Section Check.

Context (a : hash_algo) (d : option (hash_ctx a)) (temp : list Z) (Htemp : length temp = 16%nat).
Context (default_passwd : list byte) (rd wr : nat -> Z) (Hrd : forall n, 0 <= rd n) (Hwr : forall n, 0 <= wr n).
Context (open_ret c : Z) (Hopen : 0 <= open_ret).

(** "hmac(sha1)" as it is allocated. *)
Context (dh : digest_hmac_ctx (Sha1.m temp)) (Hkey : key dh = Null) (Hbuf : length (HashBlocks.buf (S := Fips.words5) (h_d dh)) = 64%nat).

Abbreviation check := (check_passwd true a d temp (Some dh) default_passwd true true rd c).
Abbreviation set_passwd := (set_env_passwd true a d temp (Some dh) true true wr open_ret).

(** The key that is derived from a password. *)
Definition derived (salt pwd : list byte) : list byte := 
  PBKDF2 (HMAC Fips.SHA1 64 pwd) salt PBKDF2_COUNT Sha1.SHA1_DIGEST_SIZE (PBKDF2_LENGTH - PBKDF2_SALT_LEN).

Lemma pbkdf2_sha1_ok pwd salt :
  (length pwd <= 64)%nat -> length salt = 32%nat ->
  pkcs5_pbkdf2_hmac_sha1 temp (Some dh) true pwd salt PBKDF2_COUNT (PBKDF2_LENGTH - PBKDF2_SALT_LEN) = Some (0, derived salt pwd).
Proof.
  intros Hp Hs. apply (pbkdf2_sha1_gen temp Htemp dh Hkey Hbuf pwd salt PBKDF2_COUNT (PBKDF2_LENGTH - PBKDF2_SALT_LEN) Hp). lia.
Qed.

Lemma length_derived salt pwd : length (derived salt pwd) = (PBKDF2_LENGTH - PBKDF2_SALT_LEN)%nat.
Proof.
  apply (length_PBKDF2 (Sha1.m temp) (HashOk0 := Sha1.sha1_ok temp Htemp) 64 pwd salt PBKDF2_COUNT (PBKDF2_LENGTH - PBKDF2_SALT_LEN)).
  change (0 < 20)%nat. lia.
Qed.

(** After setting a password exactly the passwords with the same key are accepted. *)
Lemma set_then_check file salt p :
  (length p <= 64)%nat -> length salt = 32%nat ->
  exists file', set_passwd (0, salt) file p = Some (0, Some file') /\
    forall q, (length q <= 64)%nat -> check (Some file') q = Some (if decide (derived salt q = derived salt p) then 1 else 0).
Proof.
  intros Hp Hs. unfold set_env_passwd. cbn [negb Z.eqb]. rewrite pbkdf2_sha1_ok by done. cbn [Z.eqb negb].
  pose proof (length_derived salt p) as Lp.
  destruct (write_read_passwd rd wr Hrd Hwr open_ret c (salt ++ derived salt p) file (replicate PBKDF2_LENGTH Init.Byte.x00)) as (file' & -> & Er);
    [done|rewrite length_replicate, length_app, Hs, Lp; done|].
  exists file'. split; [done|]. intros q Hq. unfold check_passwd. cbn [negb is_passwd_env_enable]. rewrite Er. cbn [Z.ltb Z.compare].
  rewrite take_app_length', drop_app_length' by done. rewrite pbkdf2_sha1_ok by done. cbn [Z.eqb negb].
  rewrite memneq_ok by apply length_derived.
  by destruct (decide _) as [E|E]; [rewrite bool_decide_eq_true_2|rewrite bool_decide_eq_false_2].
Qed.

(** ** The commands *)

Abbreviation passwd_cmd := (do_passwd true a d temp (Some dh) true true wr open_ret).
Abbreviation login_cmd := (login true a d temp (Some dh) default_passwd true true rd c).

Lemma strncmp_take n : forall x y, take n x = take n y -> strncmp_eq x y n = true.
Proof.
  induction n as [|n IH]; intros x y E; [done|]. destruct x as [|b x], y as [|b' y]; try done. cbn [take] in E. injection E as -> E.
  cbn [strncmp_eq]. rewrite Z.eqb_refl. cbn [negb]. destruct (_ =? 0); [done|]. by apply IH.
Qed.

Lemma nat_not_neg n : (Z.of_nat n <? 0) = false.
Proof. apply Z.ltb_ge, Nat2Z.is_nonneg. Qed.

(** The same password typed twice. *)
Lemma do_passwd_typed mode buf1 buf2 gcb file p rest :
  length buf1 = PASSWD_MAX_LENGTH -> length buf2 = PASSWD_MAX_LENGTH -> typable PASSWD_MAX_LENGTH p -> p <> [] ->
  passwd_cmd mode buf1 buf2 gcb file (typed_line p ++ typed_line p ++ rest) =
  match set_passwd gcb file p with
  | None => None
  | Some (ret, file) => if ret <? 0 then Some (1, None, rest) else Some (0, file, rest)
  end.
Proof.
  intros L1 L2 Hp Hne. unfold do_passwd. destruct (password_typed buf1 mode 0 p (typed_line p ++ rest) L1 Hp) as (b1 & o1 & -> & Lb1 & T1).
  rewrite nat_not_neg. destruct (password_typed buf2 mode 0 p rest L2 Hp) as (b2 & o2 & -> & Lb2 & T2).
  rewrite nat_not_neg. rewrite Z.eqb_refl, Nat2Z.id, T1. cbn [negb].
  rewrite (proj2 (Z.eqb_neq _ _)) by (destruct p; done). rewrite strncmp_take by congruence. done.
Qed.

(** A wrong password does not end the login. *)
Lemma login_loop_typed mode timeout file ps p rest : forall fuel buf failed,
  length buf = PASSWD_MAX_LENGTH -> Forall (typable PASSWD_MAX_LENGTH) ps -> typable PASSWD_MAX_LENGTH p -> (length ps < fuel)%nat ->
  Forall (fun q => check file q = Some 0) ps -> check file p = Some 1 ->
  login_loop true a d temp (Some dh) default_passwd true true rd c fuel mode timeout buf file (flat_map typed_line ps ++ typed_line p ++ rest) failed =
  Some (failed, rest).
Proof.
  induction ps as [|q ps IH]; intros fuel buf failed Hb Hps Hp Hf Hc Hcp; destruct fuel as [|fuel]; try (cbn in Hf; lia); cbn [login_loop flat_map].
  - cbn [app]. destruct (password_typed buf mode timeout p rest Hb Hp) as (b1 & o1 & -> & Lb1 & T1). rewrite nat_not_neg.
    by rewrite Nat2Z.id, T1, Hcp.
  - apply Forall_cons in Hps as [Hq Hps]. apply Forall_cons in Hc as [Hcq Hc]. rewrite <- app_assoc.
    destruct (password_typed buf mode timeout q (flat_map typed_line ps ++ typed_line p ++ rest) Hb Hq) as (b1 & o1 & -> & Lb1 & T1).
    rewrite nat_not_neg. rewrite Nat2Z.id, T1, Hcq. cbn [Z.eqb negb]. apply IH; (done || cbn in Hf; lia).
Qed.

Lemma login_eq mode timeout buf file events failed rest :
  login_loop true a d temp (Some dh) default_passwd true true rd c (S (length events)) mode timeout buf (Some file) events 0 = Some (failed, rest) ->
  login_cmd mode timeout false buf (Some file) events = Some (true, failed, rest).
Proof. intros E. unfold login. cbn [is_passwd_env_enable negb]. rewrite andb_false_r. by rewrite E. Qed.

Lemma length_typed qs : (length qs <= length (flat_map typed_line qs))%nat.
Proof. induction qs as [|q qs IH]; cbn [flat_map length]; [lia|]. rewrite length_app. unfold typed_line at 1. rewrite length_app. cbn. lia. Qed.

Lemma typable_64 q : typable 65 q -> typable PASSWD_MAX_LENGTH q.
Proof. intros [Hq Hl]. split; [done|]. unfold PASSWD_MAX_LENGTH. lia. Qed.

Lemma typable_length q : typable 65 q -> (length q <= 64)%nat.
Proof. intros [_ Hl]. lia. Qed.

Lemma passwd_sets mode buf1 buf2 gcb file file' p rest :
  length buf1 = PASSWD_MAX_LENGTH -> length buf2 = PASSWD_MAX_LENGTH -> typable PASSWD_MAX_LENGTH p -> p <> [] ->
  set_passwd gcb file p = Some (0, Some file') -> passwd_cmd mode buf1 buf2 gcb file (typed_line p ++ typed_line p ++ rest) = Some (0, Some file', rest).
Proof. intros L1 L2 Hp Hne E. rewrite do_passwd_typed by assumption. rewrite E. reflexivity. Qed.

Lemma login_typed mode timeout buf file ps p rest :
  length buf = PASSWD_MAX_LENGTH -> Forall (typable 65) ps -> typable 65 p ->
  (forall q, In q ps -> check (Some file) q = Some 0) -> check (Some file) p = Some 1 ->
  login_cmd mode timeout false buf (Some file) (flat_map typed_line ps ++ typed_line p ++ rest) = Some (true, 0%nat, rest).
Proof.
  intros Hb Hps Hp Hc Hcp. apply login_eq. apply login_loop_typed; [exact Hb| |by apply typable_64| | |exact Hcp].
  - eapply Forall_impl; [exact Hps|exact typable_64].
  - rewrite length_app. pose proof (length_typed ps). lia.
  - apply List.Forall_forall. exact Hc.
Qed.

(** C12: Setting a password with the passwd command and logging in with it afterwards
    works: the command accepts a password of up to 64 characters that is typed twice,
    and the login ends when this password is typed, after any number of attempts with
    passwords that have another key. *)
Theorem passwd_login mode timeout buf1 buf2 buf file salt p qs rest rest' :
  length buf1 = PASSWD_MAX_LENGTH -> length buf2 = PASSWD_MAX_LENGTH -> length buf = PASSWD_MAX_LENGTH -> length salt = 32%nat ->
  typable 65 p -> p <> [] -> Forall (typable 65) qs -> Forall (fun q => derived salt q <> derived salt p) qs ->
  exists file', passwd_cmd mode buf1 buf2 (0, salt) file (typed_line p ++ typed_line p ++ rest) = Some (0, Some file', rest) /\
    login_cmd mode timeout false buf (Some file') (flat_map typed_line qs ++ typed_line p ++ rest') = Some (true, 0%nat, rest').
Proof.
  intros L1 L2 L3 Hs Hp Hne Hqs Hd. destruct (set_then_check file salt p (typable_length p Hp) Hs) as (file' & Es & Hc).
  exists file'. split; [exact (passwd_sets mode buf1 buf2 _ file file' p rest L1 L2 (typable_64 p Hp) Hne Es)|].
  apply login_typed; [exact L3|exact Hqs|exact Hp| |].
  - intros q Hq. rewrite List.Forall_forall in Hqs, Hd. rewrite (Hc q (typable_length q (Hqs q Hq))), decide_False; [reflexivity|]. exact (Hd q Hq).
  - rewrite (Hc p (typable_length p Hp)), decide_True by reflexivity. reflexivity.
Qed.

(** C40: With key derivation as the configured hash, the passwd command removes the
    password file when a password of more than 64 characters is typed twice: the key
    derivation refuses it, the command reports the failure with status 1 and deletes the
    file.  When the image has no default password either, the next login returns at once
    and asks for nothing. *)
Theorem passwd_long_disables mode buf1 buf2 salt file p rest :
  length buf1 = PASSWD_MAX_LENGTH -> length buf2 = PASSWD_MAX_LENGTH -> typable PASSWD_MAX_LENGTH p -> (64 < length p)%nat ->
  passwd_cmd mode buf1 buf2 (0, salt) file (typed_line p ++ typed_line p ++ rest) = Some (1, None, rest) /\
  (default_passwd = [] -> forall timeout buf events, login_cmd mode timeout false buf None events = Some (false, 0%nat, events)).
Proof.
  intros L1 L2 Hp Hl. split; [|by intros ->]. rewrite do_passwd_typed by (done || by intros ->; cbn in Hl; lia). unfold set_env_passwd. cbn [negb Z.eqb].
  assert (Hu : Z.of_nat (length p) < 2 ^ 32) by (destruct Hp as [_ Hp]; unfold PASSWD_MAX_LENGTH in Hp; lia).
  by rewrite (pbkdf2_sha1_long temp Htemp dh Hkey Hbuf) by done.
Qed.

End Check.

(** ** Login *)

(** Attempts that do not end the login: lines that were interrupted or timed out, and
    lines that the check does not accept. *)
Inductive refused (check : list byte -> option Z) (timeout : Z) : list event -> list event -> Prop :=
| refused_none events : refused check timeout events events
| refused_line events e events1 events2 :
    edit_line (PASSWD_MAX_LENGTH - 1) timeout events [] = Some (Err e, events1) ->
    refused check timeout events1 events2 -> refused check timeout events events2
| refused_passwd events p events1 events2 :
    edit_line (PASSWD_MAX_LENGTH - 1) timeout events [] = Some (Ok p, events1) -> check p <> Some 1 ->
    refused check timeout events1 events2 -> refused check timeout events events2.

Lemma edit_err max timeout events : forall text e rest, edit_line max timeout events text = Some (Err e, rest) -> e < 0.
Proof.
  induction events as [|[[b|] late] events IH]; intros text e rest; cbn [edit_line]; [done|..];
    repeat case_match; intros [=]; subst; try done; by eapply IH.
Qed.

Lemma login_loop_refused pbkdf2 a d temp hm default_passwd calloc_ok malloc_ok rd c mode timeout file fuel : forall buf events k failed rest,
  let check := check_passwd pbkdf2 a d temp hm default_passwd calloc_ok malloc_ok rd c file in
  length buf = PASSWD_MAX_LENGTH ->
  login_loop pbkdf2 a d temp hm default_passwd calloc_ok malloc_ok rd c fuel mode timeout buf file events k = Some (failed, rest) ->
  exists events0 p, refused check timeout events events0 /\
    edit_line (PASSWD_MAX_LENGTH - 1) timeout events0 [] = Some (Ok p, rest) /\ check p = Some 1.
Proof.
  induction fuel as [|fuel IH]; intros buf events k failed rest check Hb; cbn [login_loop]; [done|].
  pose proof (password_edit buf mode timeout events) as He. rewrite Hb in He. specialize (He ltac:(unfold PASSWD_MAX_LENGTH; lia) ltac:(unfold PASSWD_MAX_LENGTH; lia)).
  destruct (edit_line _ timeout events []) as [[[p|e] events1]|] eqn:Ee; cbn [entered] in He; [| |by rewrite He].
  - destruct He as (buf' & out & -> & Hb' & Hp & _). rewrite (proj2 (Z.ltb_ge _ _)) by apply Nat2Z.is_nonneg. rewrite Nat2Z.id, Hp.
    destruct (check_passwd _ _ _ _ _ _ _ _ _ _ _ _) as [v|] eqn:Ec; [|done]. destruct (negb (v =? 1)) eqn:Ev.
    + intros Hrun. destruct (IH _ _ _ _ _ Hb' Hrun) as (events0 & q & Hr & Hq). exists events0, q. split; [|exact Hq].
      eapply refused_passwd; [exact Ee| |exact Hr]. unfold check. rewrite Ec. intros [= ->]. done.
    + intros [= _ <-]. bool_prop. subst v. exists events, p. split; [constructor|]. done.
  - destruct He as (buf' & out & -> & Hb'). rewrite (proj2 (Z.ltb_lt e 0)) by (by eapply edit_err).
    intros Hrun. destruct (IH _ _ _ _ _ Hb' Hrun) as (events0 & q & Hr & Hq). exists events0, q. split; [|exact Hq].
    by eapply refused_line.
Qed.

(** C28: The login ends only with a right password.  When it returns while a password is
    set and nobody is logged in, the keys that were typed are attempts that were refused,
    followed by a line whose text check_passwd accepts, and what is left of the input is
    what follows this line.  This holds for any digest, configuration, contents of the file
    and errors while reading it. *)
Theorem login_sound pbkdf2 a d temp hm default_passwd calloc_ok malloc_ok rd c mode timeout buf file events r :
  let check := check_passwd pbkdf2 a d temp hm default_passwd calloc_ok malloc_ok rd c file in
  is_passwd_default_enable default_passwd || is_passwd_env_enable file = true -> length buf = PASSWD_MAX_LENGTH ->
  login pbkdf2 a d temp hm default_passwd calloc_ok malloc_ok rd c mode timeout false buf file events = Some r ->
  exists events0 p rest failed, refused check timeout events events0 /\
    edit_line (PASSWD_MAX_LENGTH - 1) timeout events0 [] = Some (Ok p, rest) /\ check p = Some 1 /\ r = (true, failed, rest).
Proof.
  intros check Hen Hb. unfold login. rewrite <- negb_orb, Hen. cbn [negb].
  destruct (login_loop _ _ _ _ _ _ _ _ _ _ _ _ _ _ _ _ _) as [[failed rest]|] eqn:E; [|done]. intros [= <-].
  apply login_loop_refused in E as (events0 & p & H1 & H2 & H3); [|done]. by exists events0, p, rest, failed.
Qed.

(** ** Examples *)

Module Demo.

Definition zero_buf : list byte := replicate 129 Init.Byte.x00.
Definition salt : list byte := replicate 32 Init.Byte.x11.
Definition abc_pwd : list byte := Fips.abc.

(** A key too much, and its removal. *)
Example typing : match password zero_buf STAR 60 [(Some Init.Byte.x61, false); (None, false); (Some Init.Byte.x62, false); (Some Init.Byte.x7f, false);
    (Some Init.Byte.x0d, false)] with
  | Some (1, buf, out, []) => take 3 buf = [Init.Byte.x61; Init.Byte.x00; Init.Byte.x00] /\ length out = 7%nat
  | _ => False
  end.
Proof. vm_compute. done. Qed.

Lemma passwd_login_witness : exists file',
  do_passwd true Sha2.m256 None Hmac.Demo.temp (Some Hmac.Demo.hmac_sha1) true true (fun _ => 1) 3 STAR zero_buf zero_buf (0, salt) None
    (typed_line abc_pwd ++ typed_line abc_pwd ++ []) = Some (0, Some file', []) /\
  login true Sha2.m256 None Hmac.Demo.temp (Some Hmac.Demo.hmac_sha1) [] true true (fun _ => 1) 0 STAR 60 false zero_buf (Some file')
    (flat_map typed_line [] ++ typed_line abc_pwd ++ []) = Some (true, 0%nat, []).
Proof.
  apply (passwd_login Sha2.m256 None Hmac.Demo.temp eq_refl [] (fun _ => 1) (fun _ => 1) (fun _ => Z.le_0_1) (fun _ => Z.le_0_1) 3 0 ltac:(lia)
    Hmac.Demo.hmac_sha1 eq_refl eq_refl STAR 60 zero_buf zero_buf zero_buf None salt abc_pwd [] [] []).
  - reflexivity.
  - reflexivity.
  - reflexivity.
  - reflexivity.
  - split; [repeat constructor|cbn; lia].
  - discriminate.
  - constructor.
  - constructor.
Defined.

Definition long_password : list byte := replicate 65 Init.Byte.x61.

Lemma passwd_long_disables_witness :
  do_passwd true Sha2.m256 None Hmac.Demo.temp (Some Hmac.Demo.hmac_sha1) true true (fun _ => 1) 3 STAR zero_buf zero_buf (0, salt) (Some (hex salt))
    (typed_line long_password ++ typed_line long_password ++ []) = Some (1, None, []) /\
  login true Sha2.m256 None Hmac.Demo.temp (Some Hmac.Demo.hmac_sha1) [] true true (fun _ => 1) 0 STAR 60 false zero_buf None [] = Some (false, 0%nat, []).
Proof.
  destruct (passwd_long_disables Sha2.m256 None Hmac.Demo.temp eq_refl [] (fun _ => 1) (fun _ => 1) 3 0 Hmac.Demo.hmac_sha1 eq_refl eq_refl
    STAR zero_buf zero_buf salt (Some (hex salt)) long_password []) as [H1 H2].
  - reflexivity.
  - reflexivity.
  - split; [apply Forall_replicate; reflexivity|vm_compute; lia].
  - cbn. lia.
  - split; [exact H1|]. exact (H2 eq_refl 60 zero_buf []).
Defined.

(** A hash of the text "abc" in the image, and a wrong password that is tried first. *)
Lemma login_sound_witness :
  let login0 := login false Sha2.m256 (Some Hmac.Demo.zero2) Hmac.Demo.temp None (hex (Fips.SHA256 abc_pwd)) true true (fun _ => 1) 0 0 60 false zero_buf None in
  let check := check_passwd false Sha2.m256 (Some Hmac.Demo.zero2) Hmac.Demo.temp None (hex (Fips.SHA256 abc_pwd)) true true (fun _ => 1) 0 None in
  let events := typed_line [Init.Byte.x61] ++ typed_line abc_pwd in
  login0 events = Some (true, 0%nat, []) /\
  exists events0 p rest failed, refused check 60 events events0 /\
    edit_line (PASSWD_MAX_LENGTH - 1) 60 events0 [] = Some (Ok p, rest) /\ check p = Some 1 /\ (true, 0%nat, @nil event) = (true, failed, rest).
Proof.
  cbv zeta. assert (E : login false Sha2.m256 (Some Hmac.Demo.zero2) Hmac.Demo.temp None (hex (Fips.SHA256 abc_pwd)) true true (fun _ => 1) 0 0 60 false zero_buf None
    (typed_line [Init.Byte.x61] ++ typed_line abc_pwd) = Some (true, 0%nat, [])) by (vm_compute; reflexivity).
  split; [exact E|].
  apply (login_sound false Sha2.m256 (Some Hmac.Demo.zero2) Hmac.Demo.temp None (hex (Fips.SHA256 abc_pwd)) true true (fun _ => 1) 0 0 60 zero_buf None
    (typed_line [Init.Byte.x61] ++ typed_line abc_pwd) (true, 0%nat, [])); [vm_compute; reflexivity|reflexivity|exact E].
Defined.

End Demo.

End Password.
