(* ===== verification/StateHmac.v ===== *)
(** * State with HMAC-SHA256 (common/state/backend_format_raw.c with crypto/hmac.c)

    The digest "hmac(sha256)" of crypto/hmac.c and crypto/sha2.c behind the interface
    that the raw format of the state uses. *)

From stdpp Require Import base list strings.
From Stdlib Require Import ZArith Lia.
From S2P Require Import Prelude StateVars Storage FormatRaw HashBlocks Fips180 Sha2 Hmac.

Module StateHmac.

Import HashBlocks Hmac StateVars FormatRaw.

#[local] Existing Instance Sha2.sha256_ok.

Abbreviation digest := (digest_hmac_ctx Sha2.m256).

(** The memory of a digest is cleared when it is allocated. *)
Definition zero_ctx : hash_ctx Sha2.m256 := Ctx (Fips.W8 0 0 0 0 0 0 0 0) 0 (replicate 64 Init.Byte.x00).

Definition hmac_sha256_alloc (pad1 pad2 : list byte) : digest := digest_hmac_alloc Sha2.m256 zero_ctx pad1 pad2.

(** A call that does not return has the value 1 here; the functions themselves return
    zero or an error below zero. *)
Definition returned (d : digest) (r : option digest) : Z * digest := match r with Some d => (0, d) | None => (1, d) end.

Section Ops.

Context (keystore : string -> res (list byte)) (pad1 pad2 : list byte).

Definition hmac_ops : DigestOps digest := {|
  digest_alloc name := if bool_decide (name = "hmac(sha256)"%string) then Some (hmac_sha256_alloc pad1 pad2) else None;
  digest_size _ := Sha2.SHA256_DIGEST_SIZE;
  digest_set_key d k := match digest_hmac_set_key Sha2.m256 64 d k with Some (ret, d) => (ret, d) | None => (1, d) end;
  digest_init d := returned d (digest_hmac_init Sha2.m256 64 d);
  digest_update d data := returned d (digest_hmac_update Sha2.m256 d data);
  digest_final d := match digest_hmac_final Sha2.m256 d with Some (md, d) => (0, md, d) | None => (1, [], d) end;
  keystore_get_secret := keystore
|}.

Definition digest_ok (d : digest) : Prop := key d <> Freed /\ hash_wf (HashOk := Sha2.sha256_ok) (h_d d).

Context (secret : string) (k : list byte) (Hsecret : keystore secret = Ok k).

Abbreviation mac := (HMAC Fips.SHA256 64 k).

Lemma length_mac msg : length (mac msg) = 32%nat.
Proof. exact (hash_H_length (a := Sha2.m256) (HashOk := Sha2.sha256_ok) _). Qed.

#[local] Instance hmac_sha256_ok : (length k <= 64)%nat ->
  @HmacOk digest hmac_ops "hmac(sha256)" secret mac 32 digest_ok.
Proof.
  intros Hk. assert (HB : (hash_length Sha2.m256 <= 64 <= 128)%nat) by (change (32 <= 64 <= 128)%nat; lia).
  assert (Hm : 2 ^ 10 <= hash_max Sha2.m256) by (change (2 ^ 10 <= 2 ^ 61); lia).
  set (Hok := hmac_ok Sha2.m256 64 k Hk HB Hm). split.
  - lia.
  - intros msg. by rewrite length_mac.
  - done.
  - eexists. split; [cbn [digest_alloc hmac_ops]; by rewrite bool_decide_eq_true_2|]. split; done.
  - exists k. split; [exact Hsecret|]. intros d [Hf Hw]. cbn [digest_set_key digest_init digest_update digest_final hmac_ops].
    destruct (digest_hmac_set_key_ok Sha2.m256 64 k Hk d (proj2 HB) Hf Hw) as (d1 & -> & Hd1).
    destruct (digest_hmac_init_ok Sha2.m256 64 k Hk HB d1 Hd1) as (d2 & E2 & Hd2).
    exists d1, d2. split; [done|]. rewrite E2. split; [done|].
    assert (Hrep : forall d msg, hmac_rep Sha2.m256 64 k d msg -> digest_ok d).
    { intros d0 msg (E & _ & _ & Hr). split; [by rewrite E|]. exact (hash_rep_wf _ _ Hr). }
    split; [exact (Hrep _ _ Hd2)|]. intros msg Hl.
    destruct (hash_update_ok (HashOk := Hok) d2 [] msg Hd2 ltac:(lia)) as (d3 & E3 & Hd3).
    destruct (hash_final_ok (HashOk := Hok) d3 msg Hd3) as (d4 & E4 & Hd4); [change (Z.of_nat (length msg) < 2 ^ 61 - 64); lia|].
    exists d3, d4. change (digest_hmac_update Sha2.m256 d2 msg = Some d3) in E3. rewrite E3. split; [done|]. split; [exact (Hrep _ _ Hd3)|].
    change (digest_hmac_final Sha2.m256 d3 = Some (mac msg, d4)) in E4. rewrite E4. split; [done|]. destruct Hd4 as (E & _ & Hw4). split; [by rewrite E|done].
Qed.

(** ** Packing and verifying *)

#[local] Existing Instance hmac_ops.

(** A format for this algorithm before its first use. *)
Definition new_format : state_backend_format_raw digest := FormatRaw None 0 secret (Some "hmac(sha256)"%string).

(** ** A secret that is longer than a block *)

(** No key was set yet. *)
Definition unkeyed (raw : state_backend_format_raw digest) : Prop :=
  r_algo raw = Some "hmac(sha256)"%string /\ r_secret_name raw = secret /\ match r_digest raw with None => True | Some d => key d = Null end.

Lemma digest_init_long raw : (64 < length k)%nat -> Z.of_nat (length k) < 2 ^ 32 -> unkeyed raw -> exists raw', backend_raw_digest_init raw = (- EINVAL, raw') /\ unkeyed raw'.
Proof.
  intros Hk Hu (Ha & Hs & Hd). unfold backend_raw_digest_init.
  assert (Hf : exists d raw1, match r_digest raw with
    | Some d => Some (d, raw)
    | None => match digest_alloc (default String.EmptyString (r_algo raw)) with
              | None => None
              | Some d => Some (d, FormatRaw (Some d) (digest_length d) (r_secret_name raw) (r_algo raw))
              end
    end = Some (d, raw1) /\ key d = Null /\ r_algo raw1 = r_algo raw /\ r_secret_name raw1 = secret).
  { destruct (r_digest raw) as [d|]; [by exists d, raw|]. rewrite Ha. cbn [default from_option id digest_alloc hmac_ops].
    rewrite bool_decide_eq_true_2 by done. eexists _, _. by split_and!. }
  destruct Hf as (d & raw1 & -> & Hn & Ha1 & Hs1). rewrite Hs1. cbn [keystore_get_secret hmac_ops]. rewrite Hsecret.
  cbn [digest_set_key hmac_ops]. unfold digest_hmac_set_key. rewrite Hn, u32_small by lia. cbn [free]. rewrite (proj2 (Z.ltb_lt _ _)) by lia.
  cbn [digest_generic_digest]. eexists. split; [done|]. unfold unkeyed, set_digest. cbn. by rewrite Ha1, Ha.
Qed.

(** With a secret of more than 64 bytes the state can neither be stored nor be
    accepted, although RFC 2104 defines the MAC for such keys: setting the key fails at
    every call. *)
Theorem state_hmac_long_secret raw magic vars buf n :
  (64 < length k)%nat -> Z.of_nat (length k) < 2 ^ 32 -> unkeyed raw ->
  (exists raw', backend_format_raw_pack raw magic vars = (Err (- EINVAL), raw') /\ unkeyed raw') /\
  exists ret lenp raw', backend_format_raw_verify false raw magic buf n 0 = (ret, lenp, raw') /\ ret <> 0 /\ unkeyed raw'.
Proof.
  intros Hk Hl Hu. destruct (digest_init_long raw Hk Hl Hu) as (raw' & E & Hu'). pose proof Hu as (Ha & _). split.
  - unfold backend_format_raw_pack, has_algo. rewrite Ha, E. by exists raw'.
  - unfold backend_format_raw_verify, has_algo. rewrite Ha. change (Z.land 0 Storage.STATE_FLAG_NO_AUTHENTICATION =? 0) with true. cbn [andb].
    destruct (n <? _); [by eexists _, _, _|]. destruct (negb _ && negb _); [by destruct (h_header_crc _ =? 0); eexists _, _, _|].
    destruct (negb _ && _); [by eexists _, _, _|]. rewrite E. by eexists _, _, _.
Qed.

(** C11: The raw format with HMAC-SHA256, from the variables down to the rounds of the
    hash.  With a secret of up to 64 bytes in the keystore, packing gives the image followed
    by the MAC of RFC 2104 over the hash of FIPS 180-4, and such a buffer is accepted.
    With a longer secret, for which RFC 2104 defines the MAC as well, packing fails with
    -EINVAL and no buffer is accepted. *)
Theorem state_hmac_sha256 magic vars :
  layout_ok vars -> 0 <= magic < 2 ^ 32 -> Z.of_nat (length k) < 2 ^ 32 ->
  if (length k <=? 64)%nat then
    exists data raw', backend_format_raw_pack new_format magic vars = (Ok (raw_image magic data ++ mac (raw_image magic data)), raw') /\
      (forall sv, sv ∈ vars -> read_at data (Z.to_nat (sv_start sv)) (Z.to_nat (sv_size sv)) = var_bytes sv) /\
      forall rest n, Z.of_nat (length (raw_image magic data)) + 32 <= n ->
        exists raw'', backend_format_raw_verify false raw' magic (raw_image magic data ++ mac (raw_image magic data) ++ rest) n 0 =
          (0, Z.of_nat (length (raw_image magic data)), raw'')
  else
    (exists raw', backend_format_raw_pack new_format magic vars = (Err (- EINVAL), raw')) /\
    forall buf n, exists ret lenp raw', backend_format_raw_verify false new_format magic buf n 0 = (ret, lenp, raw') /\ ret <> 0.
Proof.
  intros Hv Hm Hu. destruct (length k <=? 64)%nat eqn:Hk; [apply Nat.leb_le in Hk|apply Nat.leb_gt in Hk].
  - pose proof (hmac_sha256_ok Hk) as Hok.
    assert (Hr : @raw_auth digest "hmac(sha256)" secret 32 digest_ok new_format) by done.
    destruct (pack_auth new_format magic vars Hr Hv Hm) as (data & raw' & E & Hr' & Hl & Hd).
    exists data, raw'. split; [exact E|]. split; [exact Hd|]. intros rest n Hn. destruct Hv as (_ & _ & _ & Hend).
    destruct (verify_auth_image false raw' magic data rest n Hr' Hm ltac:(lia) Hn) as (raw'' & E2 & _). by exists raw''.
  - assert (Hnew : unkeyed new_format) by done. split.
    + destruct (state_hmac_long_secret new_format magic vars [] 0 Hk Hu Hnew) as [(raw' & E & _) _]. by exists raw'.
    + intros buf n. destruct (state_hmac_long_secret new_format magic vars buf n Hk Hu Hnew) as [_ (ret & lenp & raw' & E & Hne & _)].
      by exists ret, lenp, raw'.
Qed.

End Ops.

(** ** Examples *)

Module Demo.

Definition keystore (n : nat) (name : string) : res (list byte) :=
  if bool_decide (name = "state"%string) then Ok (replicate n Init.Byte.x2a) else Err (- ENOENT).

Abbreviation pack ks := (@backend_format_raw_pack digest (hmac_ops ks [] [])).
Abbreviation verify ks := (@backend_format_raw_verify digest (hmac_ops ks [] []) false).

Lemma state_hmac_sha256_witness :
  let vars := FormatRaw.demo_vars 5 "abc" in
  let mac := HMAC Fips.SHA256 64 (replicate 20 Init.Byte.x2a) in
  exists data raw', pack (keystore 20) (new_format "state") 1 vars = (Ok (raw_image 1 data ++ mac (raw_image 1 data)), raw') /\
    (forall sv, sv ∈ vars -> read_at data (Z.to_nat (sv_start sv)) (Z.to_nat (sv_size sv)) = var_bytes sv) /\
    forall rest n, Z.of_nat (length (raw_image 1 data)) + 32 <= n ->
      exists raw'', verify (keystore 20) raw' 1 (raw_image 1 data ++ mac (raw_image 1 data) ++ rest) n 0 =
        (0, Z.of_nat (length (raw_image 1 data)), raw'').
Proof.
  apply (state_hmac_sha256 (keystore 20) [] [] "state" (replicate 20 Init.Byte.x2a) eq_refl 1 (FormatRaw.demo_vars 5 "abc")).
  - exact FormatRaw.demo_layout.
  - lia.
  - vm_compute. reflexivity.
Defined.

Lemma state_hmac_long_secret_witness :
  (exists raw', pack (keystore 65) (new_format "state") 1 (FormatRaw.demo_vars 5 "abc") = (Err (- EINVAL), raw') /\ unkeyed "state" raw') /\
  exists ret lenp raw', verify (keystore 65) (new_format "state") 1 [] 0 0 = (ret, lenp, raw') /\ ret <> 0 /\ unkeyed "state" raw'.
Proof.
  apply (state_hmac_long_secret (keystore 65) [] [] "state" (replicate 65 Init.Byte.x2a) eq_refl (new_format "state")).
  - vm_compute. lia.
  - vm_compute. reflexivity.
  - done.
Defined.

End Demo.

End StateHmac.
